(* ===== verification/_CoqProject ===== *)
-Q . S2P
Prelude.v
KeyedPriorityQueue.v
Wantlist.v
PeerTracker.v
TaskMerger.v
PeerTaskQueue.v
Protobuf.v
UnixFsPb.v
PbInstance.v
FileTree.v
FileAdder.v
FileReader.v
FileVisit.v
UnixFsAdd.v
UnixFsClaims.v
BitswapPb.v
BitswapMessage.v
Ledger.v
Engine.v
EngineReceive.v
EngineNotify.v
EngineSend.v
EngineClaims.v
EngineLocks.v
PeerWants.v
PeerManager.v
DontHaveTimeout.v
MessageQueue.v
MessageQueueProofs.v
MessageQueueClaims.v
Interest.v
SessionWants.v
WantSender.v
WantSenderProofs.v
WantSenderClaims.v
Session.v
Client.v
ClientClaims.v
Path.v
DirBuilder.v
DirBuilderProofs.v
DirIter.v
DirIterProofs.v
UnixFsDir.v
DagResolve.v
DagProofs.v
DirClaims.v
UnixFsWrap.v
HamtProofs.v
PinStore.v
PinProofs.v
Refs.v
RefsProofs.v
Repo.v
RepoProofs.v
RepoPins.v
RepoClaims.v
RepoMigrate.v
Walk.v
WalkProofs.v
WalkClaims.v
PeerBook.v
PeerBookProofs.v
PeerBookClaims.v
AddressBook.v
FsStores.v
FsProofs.v
FsClaims.v
Ipns.v
IpnsProofs.v
IpnsClaims.v
Network.v
NetworkProofs.v
NetworkClaims.v
