(* ===== verification/Prelude.v ===== *)
(** * A verification library for rust-ipfs

    rust-ipfs is a node of the InterPlanetary File System.  A file is cut into
    blocks; a block is named by the hash of its bytes (a [Cid]); blocks that hold the
    identifiers of others make a tree, for a file or for a directory.  A node keeps
    blocks in a repository, keeps those that are pinned, and exchanges blocks with
    other nodes over bitswap: a client asks peers for blocks through sessions, a
    server answers the wants of peers.

    ** The program and the files that model it

    Exchange of blocks, server (packages/beetle-bitswap-next/src):
    - [KeyedPriorityQueue] (the crate keyed_priority_queue, as an interface),
      [PeerTracker], [TaskMerger], [PeerTaskQueue]: peer_task_queue.rs,
      peer_task_queue/, server/task_merger.rs - the queue of tasks, peer by peer.
    - [Ledger]: server/ledger.rs, peer_ledger.rs, score_ledger.rs.
    - [Engine] with [EngineReceive], [EngineNotify], [EngineSend], [EngineClaims]:
      server/decision.rs and server.rs - what the server does with a message, with new
      blocks, with a connection, and what its workers send.  [EngineLocks] refines
      two handlers to the acquisition of their locks.

    Messages:
    - [Protobuf] (the crate quick_protobuf as the interface [QuickProtobuf]),
      [PbInstance] (a wire format that satisfies it), [BitswapPb], [BitswapMessage]:
      pb/bitswap_pb.rs, message.rs, block.rs, prefix.rs.
    - [UnixFsPb]: unixfs/src/pb/ - dag-pb nodes and UnixFS data.

    Exchange of blocks, client:
    - [Wantlist]: client/wantlist.rs, client/message_queue/wantlist.rs.
    - [PeerWants], [PeerManager]: client/peer_want_manager.rs, client/peer_manager.rs.
    - [DontHaveTimeout], [MessageQueue] with [MessageQueueProofs] and
      [MessageQueueClaims]: client/message_queue.rs and its timeouts.
    - [Interest], [SessionWants], [WantSender] with [WantSenderProofs] and
      [WantSenderClaims], [Session]: client/session.rs and client/session/.
    - [Client], [ClientClaims]: client.rs, client/session_manager.rs - a message from
      its arrival to the sessions and back.

    Exchange of blocks, network:
    - [Network] with [NetworkProofs] and [NetworkClaims]: protocol.rs (protocols and
      frames), handler.rs (a connection), network.rs (what is asked of the network)
      and lib.rs (the behaviour, its states of peers and its dials).

    Files and directories (unixfs/src, src/unixfs):
    - [FileTree] (the abstract tree of a file), [FileAdder], [FileReader],
      [FileVisit], [UnixFsAdd], [UnixFsClaims]: file/adder.rs, file/reader.rs,
      file/visit.rs, src/unixfs/add.rs, cat.rs.
    - [DirBuilder], [DirBuilderProofs], [DirIter], [DirIterProofs]: dir/builder/ - a
      tree of directories and its blocks.  [UnixFsDir]: dir.rs, dir/directory.rs,
      dir/sharded_lookup.rs - looking a name up.
    - [Path], [DagResolve] with [DagProofs], [DirClaims], [HamtProofs]: src/path.rs,
      unixfs/src/dagpb.rs, src/dag.rs - paths and how they resolve.  [UnixFsWrap]: the
      rest of src/unixfs/add.rs, which wraps a file in a directory.
    - [Walk] with [WalkProofs] and [WalkClaims]: walk.rs, symlink.rs, src/unixfs/ls.rs,
      get.rs - walking over a whole tree, listing it and writing it to a file.

    The repository (src/repo, src/refs.rs):
    - [PinStore] with [PinProofs]: datastore/memory.rs.  [Refs] with [RefsProofs]:
      refs.rs.  [Repo] with [RepoProofs], [RepoPins], [RepoClaims], [RepoMigrate]:
      mod.rs over any block store that satisfies the laws of the trait [BlockStore],
      blockstore/memory.rs among them; [Repo.remove_pin] is [Ipfs::remove_pin] of lib.rs.
    - [FsStores] with [FsProofs] and [FsClaims]: paths.rs, blockstore/flatfs.rs and the
      pins of datastore/flatfs.rs over a map from paths to contents, with failing and
      interrupted writes, and the clean-up of mod.rs over them.

    Connections (src/p2p):
    - [PeerBook] with [PeerBookProofs] and [PeerBookClaims]: peerbook.rs - limits on
      connections, connected peers, callers that wait; the swarm that calls the
      behaviour is a transition system (PeerBookProofs).
    - [AddressBook]: addressbook.rs - the addresses of peers.

    Names:
    - [Ipns] with [IpnsProofs] and [IpnsClaims]: packages/rust-ipns (records),
      src/ipns/ (publishing, resolving, DNS links), src/keystore.rs, and of src/lib.rs the
      keys of the DHT and the recursive resolution.

    The state of a component is a record with the fields of the Rust structure and
    every method is a definition of the same name that takes the state and returns
    it.  Enumerations are inductive types with the constructors of the source.  A
    function that can panic is in the monad [outcome] below, a function that
    returns [Result] gives a [result]; [let?] and [let!] are the operator [?].

    ** What the theorems show

    - Files: what is added is what is read, whole or in ranges, for every chunking of
      the input (UnixFsClaims); the blocks that come out are those that the root
      needs, and every status is reported (UnixFsClaims, UnixFsWrap).
    - Directories: the builder is a map from paths to links whose failed operations
      change nothing; the post-order iterator gives each directory once with its
      block; the hand-written serializer agrees with the generated one; with the
      blocks in a repository every path resolves, through buckets too (DirClaims,
      UnixFsWrap, HamtProofs).  Paths are printed and parsed back (Path).  A walk over
      a tree visits every entry once with its path and content, and so do listing
      and extraction (WalkClaims).
    - Server: what a message adds to ledgers and queue, that a request is answered,
      that new blocks are announced, the invariant between ledger, queue and tasks
      (EngineClaims), and two handlers that can deadlock (EngineLocks).  The task
      queue keeps its invariant and pops greedily (PeerTracker, PeerTaskQueue).
    - Messages survive their encoding and a block that is read from a message has
      the identifier of its bytes (BitswapMessage).
    - Client: the peer manager refines a specification by peer and block
      (PeerManager); what is wanted is sent to a peer that understands
      want-haves, in messages of bounded size, until nothing is left
      (MessageQueueClaims); the want sender always has an
      unanswered want out or has asked everyone (WantSenderClaims); a block that
      arrives ends the want in every layer and reaches its receivers once
      (ClientClaims).
    - Network: in every order of the calls of the swarm the states of the peers agree
      with the connections and with what the client and the server were told, everyone
      who asks is answered at most once, messages survive their framing, and a message
      is tried again as often as it was asked for (NetworkClaims).
    - Repository: a pinned DAG survives a clean-up, pins and unpins undo each other, a
      clean-up removes exactly what is not pinned, every reachable pin store can be
      read, waiting tasks are served if they subscribe in time and the repository is
      not shut down, migration takes everything along, the walk over
      references ends and is complete (RepoClaims,
      RepoMigrate).  The stores on disk refine a map of blocks and the pins, what a
      crash leaves behind, and which blocks a clean-up on disk keeps (FsClaims).
    - Connections: the peer book agrees with the swarm in every order of its calls
      (addresses as they were when the connection was established), the limits hold, nobody waits for what cannot come any more (PeerBookClaims); the
      address book refines a set of addresses per peer (AddressBook).
    - Names: what is published is what resolves, from the store and from the DHT;
      following names ends; what verification does not check (IpnsClaims).

    Some theorems state behaviour that the code does not mean to have (for example
    [late_block_not_announced], [want_waits_for_its_peer], [lost_wakeup],
    [cleanup_inverted], [forged_record_resolves], [connected_dial_unanswered], the last
    part of [crash_during_put]); they are exact statements about the code as it is.

    ** Bounds and fuel

    - Machine integers are [Z] with their range and overflow panics (below).  The
      theorems have hypotheses for the counters that real inputs keep small: chunks
      up to 2^30 bytes, branching up to 2^24, contents up to 2^48 bytes, messages up
      to 2^31 bytes, fewer than 2^32 wants in a queue, 2^31 references of a pin.
    - Recursion that is not structural takes fuel, and the theorems give an amount
      that suffices: the number of tasks plus one for a pop, the length of a
      buffer plus one for adding it, two turns per directory plus one for the
      iterator, one more than the length of a path for its resolution, one per
      shard for a bucket walk, one more than the number of documents for a walk over
      references, one more than the number of blocks for a walk over a tree,
      one more than the number of paths for names that lead to names.  [OutOfFuel] is
      a result of its own, never a success.
    - Hash containers iterate in any order ([HashOrder]); choices that the code makes
      at random are arguments.

    ** What is not modelled

    - Floating point: scores, latencies and the idle timer of a session are events or
      arguments.
    - libp2p: connections, dials, streams, the swarm, kademlia, gossipsub and the event
      loop of the node (src/task.rs, the rest of src/p2p); the operations they call are
      modelled, each as one step, and channels are lists.  Of the network layer of
      bitswap: timers, channels that block, the tasks of its workers and its start.
    - Keys, signatures, CBOR and DNS queries of names: interfaces with their laws.
    - The sled data store, the lock file, directories and errors of the operating
      system in the pins on disk.
    - Codecs, hashes, the text of identifiers and serde_json: interfaces with the laws
      the code relies on, each with an instance that concrete runs use.
    - Code that is not built: src/archived, src/deprecated. *)
From stdpp Require Import base gmap list sorting strings fin_maps fin_sets.
From Stdlib Require Import Strings.Byte.

(** ** Identifiers

    [Cid] (crate [cid] / [libipld]) and [PeerId] (crate [libp2p]) are opaque
    to the modelled code: it compares, hashes and copies them.  Every component
    is parametric in them. *)
Class Ids := {
  Cid : Type;
  Cid_eq_dec :: EqDecision Cid;
  Cid_countable :: Countable Cid;
  PeerId : Type;
  PeerId_eq_dec :: EqDecision PeerId;
  PeerId_countable :: Countable PeerId;
}.

(** The instance that concrete runs use. *)
Definition nat_ids : Ids := {| Cid := nat; PeerId := nat |}.

(** ** Panics

    A Rust function either returns or panics ([assert!], [unwrap], an index out
    of range, an arithmetic overflow with overflow checks on).  [outcome] is
    the monad of such functions.  A loop whose recursion is not structural is
    run with fuel; [OutOfFuel] is the result of a run the fuel does not
    suffice for, and the loop diverges when no amount of fuel suffices. *)
Inductive outcome (A : Type) : Type :=
  | Done (a : A)
  | Panic
  | OutOfFuel.
Arguments Done {A} a.
Arguments Panic {A}.
Arguments OutOfFuel {A}.

#[export] Instance outcome_ret : MRet outcome := @Done.
#[export] Instance outcome_bind : MBind outcome := λ A B f m,
  match m with Done a => f a | Panic => Panic | OutOfFuel => OutOfFuel end.
#[export] Instance outcome_fmap : FMap outcome := λ A B f m,
  match m with Done a => Done (f a) | Panic => Panic | OutOfFuel => OutOfFuel end.
#[export] Instance outcome_eq_dec `{EqDecision A} : EqDecision (outcome A).
Proof. solve_decision. Defined.

(** [assert!(b)]. *)
Definition rust_assert (b : bool) : outcome unit := if b then Done () else Panic.

Definition is_done {A} (m : outcome A) : bool := match m with Done _ => true | _ => false end.

(** The value of a run, or a default. *)
Definition run_or {A} (d : A) (m : outcome A) : A := match m with Done a => a | _ => d end.

Lemma run_or_Done {A} (d : A) m : is_done m = true → m = Done (run_or d m).
Proof. by destruct m. Qed.

Lemma bind_Done {A B} (m : outcome A) (f : A → outcome B) b :
  m ≫= f = Done b ↔ ∃ a, m = Done a ∧ f a = Done b.
Proof. destruct m; naive_solver. Qed.

Lemma rust_assert_Done b u : rust_assert b = Done u ↔ b = true.
Proof. destruct b, u; naive_solver. Qed.

(** ** Results

    [std::result::Result]. *)
Inductive result (A E : Type) : Type :=
  | Ok (a : A)
  | Err (e : E).
Arguments Ok {A E} a.
Arguments Err {A E} e.

#[export] Instance result_eq_dec `{EqDecision A, EqDecision E} : EqDecision (result A E).
Proof. solve_decision. Defined.

Definition result_bind {A B E} (m : result A E) (f : A → result B E) : result B E :=
  match m with Ok a => f a | Err e => Err e end.

(** [Result::map_err]. *)
Definition map_err {A E F} (f : E → F) (m : result A E) : result A F :=
  match m with Ok a => Ok a | Err e => Err (f e) end.

(** [Option::ok_or]. *)
Definition ok_or {A E} (e : E) (o : option A) : result A E :=
  match o with Some a => Ok a | None => Err e end.

Declare Scope rust_scope.
Delimit Scope rust_scope with rust.
(** The [?] operator: [let? x := m in k] returns the error of [m] early. *)
Notation "'let?' x ':=' m 'in' k" := (result_bind m (λ x, k))
  (at level 10, x pattern, m at level 100, k at level 200) : rust_scope.
Global Open Scope rust_scope.

(** A function that returns a [Result] and may panic. *)
Definition try_bind {A B E} (m : outcome (result A E)) (f : A → outcome (result B E)) :
    outcome (result B E) :=
  m ≫= λ r, match r with Ok a => f a | Err e => Done (Err e) end.

(** The [?] operator in a function that may panic. *)
Notation "'let!' x ':=' m 'in' k" := (try_bind m (λ x, k))
  (at level 10, x pattern, m at level 100, k at level 200) : rust_scope.

Lemma try_bind_Ok {A B E} (a : A) (f : A → outcome (result B E)) :
  try_bind (Done (Ok a)) f = f a.
Proof. done. Qed.

(** ** Bytes and strings *)
#[export] Instance byte_eq_dec : EqDecision byte := Byte.byte_eq_dec.
#[export] Program Instance byte_countable : Countable byte :=
  inj_countable Byte.to_N Byte.of_N _.
Next Obligation. intros x. by apply Byte.to_of_N_iff. Qed.

(** [z as u8]. *)
Definition byte_of_Z (z : Z) : byte := default x00 (Byte.of_N (Z.to_N (z `mod` 256))).
Definition byte_to_Z (b : byte) : Z := Z.of_N (Byte.to_N b).

Lemma byte_to_of_Z z : byte_to_Z (byte_of_Z z) = (z `mod` 256)%Z.
Proof.
  unfold byte_to_Z, byte_of_Z. pose proof (Z.mod_pos_bound z 256).
  destruct (Byte.of_N _) as [b|] eqn:Hb; simpl.
  - apply Byte.to_of_N in Hb. rewrite Hb. lia.
  - apply Byte.of_N_None_iff in Hb. lia.
Qed.

Lemma byte_to_Z_range b : (0 ≤ byte_to_Z b < 256)%Z.
Proof. pose proof (Byte.to_N_bounded b). unfold byte_to_Z. lia. Qed.

(** The bytes of a [str]: Rust strings are [string]s that hold valid UTF-8. *)
Fixpoint str_bytes (s : string) : list byte :=
  match s with
  | EmptyString => []
  | String a s => Ascii.byte_of_ascii a :: str_bytes s
  end.
Fixpoint str_of_bytes (bs : list byte) : string :=
  match bs with
  | [] => EmptyString
  | b :: bs => String (Ascii.ascii_of_byte b) (str_of_bytes bs)
  end.

Lemma str_of_bytes_str_bytes s : str_of_bytes (str_bytes s) = s.
Proof. induction s as [|a s IH]; simpl; [done|]. by rewrite Ascii.ascii_of_byte_of_ascii, IH. Qed.

(** [core::str::from_utf8] succeeds: RFC 3629. *)
Fixpoint is_utf8 (bs : list byte) : bool :=
  let between lo hi (b : byte) := bool_decide (lo ≤ byte_to_Z b ≤ hi)%Z in
  let cont := between 128%Z 191%Z in
  match bs with
  | [] => true
  | b :: r =>
      if between 0%Z 127%Z b then is_utf8 r
      else if between 194%Z 223%Z b then
        match r with c1 :: r => cont c1 && is_utf8 r | _ => false end
      else if between 224%Z 239%Z b then
        match r with
        | c1 :: c2 :: r =>
            (if bool_decide (byte_to_Z b = 224%Z) then between 160%Z 191%Z c1
             else if bool_decide (byte_to_Z b = 237%Z) then between 128%Z 159%Z c1
             else cont c1) && cont c2 && is_utf8 r
        | _ => false
        end
      else if between 240%Z 244%Z b then
        match r with
        | c1 :: c2 :: c3 :: r =>
            (if bool_decide (byte_to_Z b = 240%Z) then between 144%Z 191%Z c1
             else if bool_decide (byte_to_Z b = 244%Z) then between 128%Z 143%Z c1
             else cont c1) && cont c2 && cont c3 && is_utf8 r
        | _ => false
        end
      else false
  end.

(** ** Machine integers

    Unsigned and signed machine integers are [Z] with their range; an operation
    that leaves the range panics, which is what the code does with overflow
    checks on, so that a proof of [Done] holds in every build profile. *)
Definition usize_max : Z := 2 ^ 64 - 1.
Definition isize_max : Z := 2 ^ 63 - 1.
Definition isize_min : Z := - 2 ^ 63.
Definition i32_max : Z := 2 ^ 31 - 1.
Definition i32_min : Z := - 2 ^ 31.

Definition checked (lo hi z : Z) : outcome Z :=
  if bool_decide (lo ≤ z ≤ hi)%Z then Done z else Panic.

Definition usize_add (a b : Z) : outcome Z := checked 0 usize_max (a + b).
Definition usize_sub (a b : Z) : outcome Z := checked 0 usize_max (a - b).
Definition u64_add (a b : Z) : outcome Z := checked 0 usize_max (a + b).
Definition u64_sub (a b : Z) : outcome Z := checked 0 usize_max (a - b).
Definition isize_add (a b : Z) : outcome Z := checked isize_min isize_max (a + b).
Definition isize_sub (a b : Z) : outcome Z := checked isize_min isize_max (a - b).
Definition i32_sub (a b : Z) : outcome Z := checked i32_min i32_max (a - b).

Lemma checked_Done lo hi z r : checked lo hi z = Done r ↔ r = z ∧ (lo ≤ z ≤ hi)%Z.
Proof. unfold checked. case_bool_decide; naive_solver. Qed.

Lemma checked_ok lo hi z : (lo ≤ z ≤ hi)%Z → checked lo hi z = Done z.
Proof. intros ?. by apply checked_Done. Qed.

Lemma usize_add_ok a b : (0 ≤ a + b ≤ usize_max)%Z → usize_add a b = Done (a + b)%Z.
Proof. apply checked_ok. Qed.
Lemma usize_sub_ok a b : (0 ≤ a - b ≤ usize_max)%Z → usize_sub a b = Done (a - b)%Z.
Proof. apply checked_ok. Qed.

Lemma usize_add_over a b : (usize_max < a + b)%Z → usize_add a b = Panic.
Proof. intros. unfold usize_add, checked. rewrite bool_decide_eq_false_2; [done|lia]. Qed.

(** [slice.iter().map(f).sum::<usize>()]. *)
Fixpoint usize_sum (l : list Z) : outcome Z :=
  match l with
  | [] => Done 0%Z
  | x :: l => s ← usize_sum l; usize_add x s
  end.

Definition Zsum (l : list Z) : Z := foldr Z.add 0%Z l.

Lemma Zsum_app l k : Zsum (l ++ k) = (Zsum l + Zsum k)%Z.
Proof. induction l; simpl; lia. Qed.

Lemma Zsum_nonneg l : Forall (λ x, 0 ≤ x)%Z l → (0 ≤ Zsum l)%Z.
Proof. induction 1; simpl; lia. Qed.

Lemma Zsum_perm l k : l ≡ₚ k → Zsum l = Zsum k.
Proof. induction 1; simpl; lia. Qed.

Lemma usize_sum_ok l :
  Forall (λ x, 0 ≤ x)%Z l → (Zsum l ≤ usize_max)%Z → usize_sum l = Done (Zsum l).
Proof.
  induction 1 as [|x l Hx Hl IH]; intros Hs; [done|].
  pose proof (Zsum_nonneg _ Hl). simpl in *.
  rewrite IH by lia. simpl. apply usize_add_ok. lia.
Qed.

(** [Vec::len], [HashMap::len] as machine integers. *)
Definition vec_len {A} (l : list A) : Z := Z.of_nat (length l).
Definition map_len `{Countable K} {A} (m : gmap K A) : Z := Z.of_nat (size m).
Definition set_len `{Countable K} (s : gset K) : Z := Z.of_nat (size s).

(** [a + b] on indices, which are [usize]. *)
Definition index_add (a b : nat) : outcome nat :=
  if bool_decide (Z.of_nat (a + b) ≤ usize_max)%Z then Done (a + b) else Panic.

Lemma index_add_ok a b : (Z.of_nat (a + b) ≤ usize_max)%Z → index_add a b = Done (a + b).
Proof. intros. unfold index_add. by rewrite bool_decide_eq_true_2. Qed.

(** ** Content identifiers as bytes

    [Cid::to_bytes], [Cid::try_from] and the version 0 identifier of a block (the
    crates [cid], [multihash] and [sha2]): a version 0 identifier is a 34 byte
    multihash, and identifiers survive the trip through their bytes. *)
Class CidCodec {ids : Ids} := {
  CidError : Type;
  cid_to_bytes : Cid → list byte;
  cid_try_from : list byte → result Cid CidError;
  cid_try_from_to_bytes : ∀ c, cid_try_from (cid_to_bytes c) = Ok c;
  sha2_256_v0 : list byte → Cid;
  sha2_256_v0_length : ∀ b, vec_len (cid_to_bytes (sha2_256_v0 b)) = 34%Z;
}.

(** Identifiers that are their own bytes, with a toy hash, for concrete runs. *)
Definition bytes_ids : Ids := {| Cid := list byte; PeerId := nat |}.

Definition toy_hash (b : list byte) : Z :=
  foldl (λ h x, (h * 257 + byte_to_Z x + 1) `mod` 2 ^ 61)%Z 7%Z b.

Program Definition bytes_cids : @CidCodec bytes_ids := {|
  CidError := unit;
  cid_to_bytes := λ c, c;
  cid_try_from := λ c, Ok c;
  sha2_256_v0 := λ b,
    (λ i, byte_of_Z (toy_hash b `div` 2 ^ (8 * Z.of_nat i))%Z) <$> seq 0 34;
|}.
Solve Obligations with done.

(** ** Hash containers

    [AHashMap] and [AHashSet] are [gmap] and [gset].  They iterate in an order
    that the program does not control: the order is an arbitrary permutation of
    the contents, and the theorems hold for every [HashOrder]. *)
Class HashOrder := {
  iter_map : ∀ {K} `{Countable K} {A}, gmap K A → list (K * A);
  iter_map_perm : ∀ {K} `{Countable K} {A} (m : gmap K A), iter_map m ≡ₚ map_to_list m;
  iter_set : ∀ {K} `{Countable K}, gset K → list K;
  iter_set_perm : ∀ {K} `{Countable K} (s : gset K), iter_set s ≡ₚ elements s;
}.

(** The order that concrete runs use. *)
Definition key_order : HashOrder := {|
  iter_map := λ K _ _ A, map_to_list;
  iter_map_perm := λ K _ _ A m, reflexivity _;
  iter_set := λ K _ _, elements;
  iter_set_perm := λ K _ _ s, reflexivity _;
|}.

Section hash_order.
  Context {ho : HashOrder} `{Countable K} {A : Type}.
  Implicit Types m : gmap K A.

Lemma elem_of_iter_map m k a : (k, a) ∈ iter_map m ↔ m !! k = Some a.
Proof. by rewrite iter_map_perm, elem_of_map_to_list. Qed.

Lemma NoDup_iter_map_keys m : NoDup (iter_map m).*1.
Proof. rewrite iter_map_perm. apply NoDup_fst_map_to_list. Qed.

Lemma elem_of_iter_set (s : gset K) k : k ∈ iter_set s ↔ k ∈ s.
Proof. by rewrite iter_set_perm, elem_of_elements. Qed.

Lemma NoDup_iter_set (s : gset K) : NoDup (iter_set s).
Proof. rewrite iter_set_perm. apply NoDup_elements. Qed.

Lemma length_iter_map m : length (iter_map m) = size m.
Proof. by rewrite iter_map_perm, length_map_to_list. Qed.

Lemma list_to_map_iter m : list_to_map (iter_map m) = m.
Proof.
  rewrite <-(list_to_map_to_list m) at 2. apply list_to_map_proper; [apply NoDup_iter_map_keys|].
  apply iter_map_perm.
Qed.

(** [HashMap::values()]. *)
Definition iter_values m : list A := (iter_map m).*2.

Lemma elem_of_iter_values m a : a ∈ iter_values m ↔ ∃ k, m !! k = Some a.
Proof.
  unfold iter_values. rewrite list_elem_of_fmap. split.
  - intros ([k a'] & -> & Hin). exists k. by apply elem_of_iter_map.
  - intros [k Hk]. exists (k, a). split; [done|]. by apply elem_of_iter_map.
Qed.
End hash_order.

(** [map.entry(k).or_default().insert(..)] on a map of maps or of sets. *)
Definition entry_or `{Countable K} {A} (d : A) (f : A → A) (k : K) (m : gmap K A) : gmap K A :=
  <[k := f (default d (m !! k))]> m.

Lemma lookup_entry_or `{Countable K} {A} (d : A) f k (m : gmap K A) :
  entry_or d f k m !! k = Some (f (default d (m !! k))).
Proof. unfold entry_or. by rewrite lookup_insert_eq. Qed.

Lemma lookup_entry_or_ne `{Countable K} {A} (d : A) f k j (m : gmap K A) :
  k ≠ j → entry_or d f k m !! j = m !! j.
Proof. intros. unfold entry_or. by rewrite lookup_insert_ne. Qed.

Lemma size_delete `{Countable K} {A} (m : gmap K A) k a :
  m !! k = Some a → size m = S (size (delete k m)).
Proof.
  intros Hk. rewrite <-(insert_delete_id m k a Hk) at 1.
  apply map_size_insert_None, lookup_delete_eq.
Qed.

(** The sum of a measure over the values of a map. *)
Section map_sum.
  Context `{Countable K} {A : Type} (f : A → Z).
  Implicit Types m : gmap K A.

Definition map_sum m : Z := map_fold (λ _ a s, f a + s)%Z 0%Z m.

Lemma map_sum_empty : map_sum ∅ = 0%Z.
Proof. apply map_fold_empty. Qed.

Lemma map_sum_insert m k a : m !! k = None → map_sum (<[k := a]> m) = (f a + map_sum m)%Z.
Proof.
  intros Hk. unfold map_sum. rewrite map_fold_insert_L; [done|lia|done].
Qed.

Lemma map_sum_delete m k a : m !! k = Some a → map_sum m = (f a + map_sum (delete k m))%Z.
Proof.
  intros Hk. rewrite <-(insert_delete_id m k a Hk) at 1.
  apply map_sum_insert, lookup_delete_eq.
Qed.

Lemma map_sum_update m k a b :
  m !! k = Some a → map_sum (<[k := b]> m) = (map_sum m - f a + f b)%Z.
Proof.
  intros Hk. rewrite <-insert_delete_eq, map_sum_insert by apply lookup_delete_eq.
  rewrite (map_sum_delete m k a Hk). lia.
Qed.

Lemma map_sum_nonneg m : map_Forall (λ _ a, 0 ≤ f a)%Z m → (0 ≤ map_sum m)%Z.
Proof.
  induction m as [|k a m Hk IH] using map_ind; intros Hm.
  - rewrite map_sum_empty. lia.
  - rewrite map_Forall_insert in Hm by done. destruct Hm as [Ha Hm].
    rewrite map_sum_insert by done. specialize (IH Hm). lia.
Qed.

Lemma map_sum_mono m m' : map_Forall (λ _ a, 0 ≤ f a)%Z m → m' ⊆ m → (map_sum m' ≤ map_sum m)%Z.
Proof.
  revert m. induction m' as [|k a m' Hk IH] using map_ind; intros m Hm Hsub.
  - rewrite map_sum_empty. by apply map_sum_nonneg.
  - assert (m !! k = Some a) as Ha by (eapply lookup_weaken; [apply lookup_insert_eq|done]).
    rewrite map_sum_insert, (map_sum_delete m k a) by done.
    assert (map_sum m' ≤ map_sum (delete k m))%Z; [|lia].
    apply IH; [by apply map_Forall_delete|].
    rewrite <-(delete_insert_id m' k a) by done. by apply delete_mono.
Qed.

Lemma map_sum_to_list m : map_sum m = Zsum (f <$> (map_to_list m).*2).
Proof.
  induction m as [|k a m Hk IH] using map_ind.
  - by rewrite map_sum_empty, map_to_list_empty.
  - rewrite map_sum_insert by done. rewrite IH.
    assert (map_to_list (<[k:=a]> m) ≡ₚ (k, a) :: map_to_list m) as Hp by by apply map_to_list_insert.
    rewrite (Zsum_perm (f <$> (map_to_list (<[k:=a]> m)).*2) (f a :: (f <$> (map_to_list m).*2))).
    + done.
    + by rewrite Hp.
Qed.
End map_sum.

(** ** Sorting

    [slice::sort_by_cached_key] and [slice::sort]: a stable sort. *)
Section sort_by_key.
  Context {A : Type} (key : A → Z).

Fixpoint insert_by_key (x : A) (l : list A) : list A :=
  match l with
  | [] => [x]
  | y :: l' => if bool_decide (key x ≤ key y)%Z then x :: l else y :: insert_by_key x l'
  end.

Definition sort_by_key (l : list A) : list A := foldr insert_by_key [] l.

Lemma insert_by_key_perm x l : insert_by_key x l ≡ₚ x :: l.
Proof.
  induction l as [|y l IH]; simpl; [done|]. case_bool_decide; [done|].
  rewrite IH. apply Permutation_swap.
Qed.

Lemma sort_by_key_perm l : sort_by_key l ≡ₚ l.
Proof. induction l; simpl; [done|]. rewrite insert_by_key_perm. by f_equiv. Qed.

Definition ascending : list A → Prop := StronglySorted (λ x y, key x ≤ key y)%Z.

Lemma insert_by_key_sorted x l : ascending l → ascending (insert_by_key x l).
Proof.
  unfold ascending. induction 1 as [|y l Hl IH Hy]; simpl; [repeat constructor|].
  case_bool_decide as Hxy.
  - constructor; [by constructor|]. constructor; [done|].
    eapply Forall_impl; [done|]. simpl. lia.
  - constructor; [done|]. rewrite insert_by_key_perm. constructor; [lia|done].
Qed.

Lemma sort_by_key_sorted l : ascending (sort_by_key l).
Proof. induction l; simpl; [constructor|]. by apply insert_by_key_sorted. Qed.
End sort_by_key.

(** A list sorted one way is sorted the other way when reversed. *)
Lemma StronglySorted_reverse {A} (R : relation A) l :
  StronglySorted R l → StronglySorted (flip R) (reverse l).
Proof.
  induction 1 as [|x l Hl IH Hx]; [constructor|].
  rewrite reverse_cons. apply StronglySorted_app. split_and!; [|done|repeat constructor].
  intros y z Hy ->%list_elem_of_singleton. rewrite elem_of_reverse in Hy.
  rewrite Forall_forall in Hx. by apply Hx.
Qed.

Lemma Forall_filter_1 {A} (P Q : A → Prop) `{∀ x, Decision (Q x)} (l : list A) :
  Forall P l → Forall P (filter Q l).
Proof. rewrite !Forall_forall. intros Hl x [_ Hx]%list_elem_of_filter. auto. Qed.

Lemma filter_agree {A} (P Q : A → Prop) `{∀ x, Decision (P x), ∀ x, Decision (Q x)} (l : list A) :
  (∀ x, x ∈ l → P x ↔ Q x) → filter P l = filter Q l.
Proof.
  induction l as [|x l IH]; intros Hl; [done|]. rewrite !filter_cons, IH by set_solver.
  pose proof (Hl x). repeat case_decide; set_solver.
Qed.

Lemma bind_agree {A B} (f g : A → list B) (l : list A) :
  (∀ x, x ∈ l → f x = g x) → l ≫= f = l ≫= g.
Proof.
  induction l as [|x l IH]; intros Hl; [done|]. rewrite !bind_cons, (Hl x), IH by set_solver. done.
Qed.

Lemma elem_of_take_list {A} (x : A) k l : x ∈ take k l → x ∈ l.
Proof. intros (i & Hi & _)%elem_of_take. by eapply list_elem_of_lookup_2. Qed.

Lemma size_list_to_set_le `{Countable K} (l : list K) : size (list_to_set l : gset K) ≤ length l.
Proof.
  induction l as [|c l IH]; simpl; [done|].
  rewrite size_union_alt, size_singleton.
  assert (size ((list_to_set l : gset K) ∖ {[c]}) ≤ size (list_to_set l : gset K))
    by (apply subseteq_size; set_solver). lia.
Qed.

(** Deleting the keys of a list one by one. *)
Lemma delete_keys_lookup `{Countable K} {A} (keys : list K) (m : gmap K A) k :
  foldl (λ m key, delete key m) m keys !! k = if decide (k ∈ keys) then None else m !! k.
Proof.
  revert m. induction keys as [|d keys IH]; intros m; cbn [foldl]; [done|]. rewrite IH.
  destruct (decide (k = d)) as [->|Hne].
  - rewrite lookup_delete_eq, (decide_True (P := d ∈ d :: keys)) by (by left). by case_decide.
  - rewrite lookup_delete_ne by done.
    by rewrite (decide_ext (k ∈ d :: keys) (k ∈ keys)) by (rewrite elem_of_cons; tauto).
Qed.

Lemma alter_twice `{Countable K} {A} (f g : A → A) (m : gmap K A) k :
  alter f k (alter g k m) = alter (λ a, f (g a)) k m.
Proof.
  apply map_eq. intros j. destruct (decide (j = k)) as [->|Hne].
  - rewrite !lookup_alter_eq. by destruct (m !! k).
  - by rewrite !lookup_alter_ne.
Qed.

(** ** Automation *)

(** Case analysis on the [match]es and [if]s of the goal and of a hypothesis. *)
Ltac split_match :=
  repeat (case_match || case_bool_decide || case_decide); simplify_eq/=.

(** Turns [m ≫= f = Done b] hypotheses into the runs of [m] and [f]. *)
Ltac inv_outcome :=
  repeat match goal with
  | H : (_ ≫= _) = Done _ |- _ =>
      apply bind_Done in H; let a := fresh "a" in let Ha := fresh "Ha" in
      destruct H as (a & Ha & H)
  | H : rust_assert _ = Done _ |- _ => apply rust_assert_Done in H
  | H : checked _ _ _ = Done _ |- _ => apply checked_Done in H as [-> H]
  | H : mret _ = Done _ |- _ => unfold mret, outcome_ret in H; simplify_eq/=
  | H : Done _ = Done _ |- _ => simplify_eq/=
  | H : Panic = Done _ |- _ => discriminate H
  | H : OutOfFuel = Done _ |- _ => discriminate H
  end.

Create HintDb ipfs.
#[export] Hint Resolve Zsum_nonneg : ipfs.
#[export] Hint Rewrite @lookup_entry_or @list_elem_of_fmap : ipfs.
