(* ===== verification/KeyedPriorityQueue.v ===== *)
(** The interface of the [keyed_priority_queue] crate that the peer task queue
    relies on: a priority queue whose elements are also addressed by a key.
    The crate is not part of the repository, so the queue is a parameter of the
    model, with its documented behaviour as laws; an executable instance shows
    that the laws can be met. *)
From stdpp Require Import base gmap list.
From S2P Require Import Prelude.

(** [Ord] holds its contract (reflexive, antisymmetric, transitive) on the
    elements that satisfy [S]. *)
Record ord_lawful {P : Type} (cmp : P → P → comparison) (S : P → Prop) : Prop := {
  ord_antisym : ∀ a b, S a → S b → cmp b a = CompOpp (cmp a b);
  ord_trans : ∀ a b c, S a → S b → S c → cmp a b ≠ Lt → cmp b c ≠ Lt → cmp a c ≠ Lt;
}.

Class KeyedPriorityQueue (K P : Type) `{Countable K} (cmp : P → P → comparison) := {
  queue : Type;
  content : queue → gmap K P;
  (** Every element pushed since the queue was empty satisfies the predicate. *)
  pushed_all : (P → Prop) → queue → Prop;
  kpq_empty : queue;
  (** [push]: adds an element or replaces the priority of its key. *)
  kpq_push : K → P → queue → queue;
  (** [remove]: takes the element out, with its priority. *)
  kpq_remove : K → queue → option P * queue;
  (** [pop]: takes an element of highest priority. *)
  kpq_pop : queue → option (K * P) * queue;
  (** [iter]: in no particular order. *)
  kpq_iter : queue → list (K * P);

  content_empty : content kpq_empty = ∅;
  content_push k p q : content (kpq_push k p q) = <[k := p]> (content q);
  remove_value k q : (kpq_remove k q).1 = content q !! k;
  content_remove k q : content (kpq_remove k q).2 = delete k (content q);
  pop_None q : (kpq_pop q).1 = None → content q = ∅ ∧ content (kpq_pop q).2 = ∅;
  pop_Some q k p : (kpq_pop q).1 = Some (k, p) →
    content q !! k = Some p ∧ content (kpq_pop q).2 = delete k (content q);
  iter_perm q : kpq_iter q ≡ₚ map_to_list (content q);
  pushed_empty S : pushed_all S kpq_empty;
  pushed_push S k p q : S p → pushed_all S q → pushed_all S (kpq_push k p q);
  pushed_remove S k q : pushed_all S q → pushed_all S (kpq_remove k q).2;
  pushed_pop S q : pushed_all S q → pushed_all S (kpq_pop q).2;
  (** [pop] takes a maximum when the priorities respect the contract of [Ord]. *)
  pop_max S q k p k' p' : ord_lawful cmp S → pushed_all S q →
    (kpq_pop q).1 = Some (k, p) → content q !! k' = Some p' → cmp p p' ≠ Lt;
}.

Section queue.
  Context {K P : Type} `{Countable K} {cmp : P → P → comparison}.
  Context {kpq : KeyedPriorityQueue K P cmp}.

Definition kpq_len (q : queue) : Z := map_len (content q).
Definition kpq_is_empty (q : queue) : bool := bool_decide (content q = ∅).

Lemma pop_eq q o q' : kpq_pop q = (o, q') →
  match o with
  | None => content q = ∅ ∧ content q' = ∅
  | Some (k, p) => content q !! k = Some p ∧ content q' = delete k (content q)
  end.
Proof.
  intros E. destruct o as [[k p]|].
  - replace q' with (kpq_pop q).2 by (by rewrite E). apply pop_Some. by rewrite E.
  - replace q' with (kpq_pop q).2 by (by rewrite E). apply pop_None. by rewrite E.
Qed.

Lemma remove_eq k q o q' :
  kpq_remove k q = (o, q') → o = content q !! k ∧ content q' = delete k (content q).
Proof.
  intros E. rewrite <-(remove_value k q), <-(content_remove k q). by rewrite E.
Qed.
End queue.

(** ** An executable queue: a finite map searched for a maximum. *)
Section map_queue.
  Context {K P : Type} `{Countable K} (cmp : P → P → comparison).

Definition better (a b : K * P) : K * P :=
  match cmp a.2 b.2 with Lt => b | _ => a end.

Definition best (l : list (K * P)) : option (K * P) :=
  match l with [] => None | x :: l => Some (foldl better x l) end.

Definition map_pop (m : gmap K P) : option (K * P) * gmap K P :=
  match best (map_to_list m) with
  | Some (k, p) => (Some (k, p), delete k m)
  | None => (None, m)
  end.

Lemma foldl_better_elem l x : foldl better x l ∈ x :: l.
Proof.
  revert x. induction l as [|y l IH]; intros x; simpl; [by left|].
  specialize (IH (better x y)). unfold better in *.
  apply elem_of_cons in IH as [->|]; [case_match; set_solver|set_solver].
Qed.

Lemma best_elem l x : best l = Some x → x ∈ l.
Proof. destruct l as [|y l]; intros [= <-]. apply foldl_better_elem. Qed.

Lemma map_pop_spec m :
  match (map_pop m).1 with
  | None => m = ∅ ∧ (map_pop m).2 = ∅
  | Some (k, p) => m !! k = Some p ∧ (map_pop m).2 = delete k m
  end.
Proof.
  unfold map_pop. destruct (best (map_to_list m)) as [[k p]|] eqn:E; simpl.
  - apply best_elem, elem_of_map_to_list in E. done.
  - assert (m = ∅) as ->; [|done]. apply map_to_list_empty_iff. by destruct (map_to_list m).
Qed.

Lemma foldl_better_max (S : P → Prop) l x :
  ord_lawful cmp S → S x.2 → Forall (λ y, S y.2) l →
  Forall (λ y, cmp (foldl better x l).2 y.2 ≠ Lt) (x :: l) ∧ S (foldl better x l).2.
Proof.
  intros Hl. revert x. induction l as [|y l IH]; intros x Hx; simpl.
  - intros _. split; [|done]. constructor; [|constructor].
    pose proof (ord_antisym _ _ Hl x.2 x.2 Hx Hx). by destruct (cmp x.2 x.2).
  - intros [Hy Hl']%Forall_cons.
    assert (S (better x y).2) as Hb by (unfold better; by case_match).
    destruct (IH (better x y) Hb Hl') as [Hmax HS]. split; [|done].
    apply Forall_cons in Hmax as [H1 H2].
    assert (cmp (better x y).2 x.2 ≠ Lt ∧ cmp (better x y).2 y.2 ≠ Lt) as [H3 H4].
    { pose proof (ord_antisym _ _ Hl x.2 x.2 Hx Hx). pose proof (ord_antisym _ _ Hl y.2 y.2 Hy Hy).
      pose proof (ord_antisym _ _ Hl x.2 y.2 Hx Hy).
      unfold better. destruct (cmp x.2 y.2) eqn:E; simpl in *; split; try congruence;
        destruct (cmp x.2 x.2), (cmp y.2 y.2); simpl in *; congruence. }
    constructor; [by apply (ord_trans _ _ Hl _ (better x y).2)|].
    constructor; [by apply (ord_trans _ _ Hl _ (better x y).2)|done].
Qed.

Program Definition map_queue : KeyedPriorityQueue K P cmp := {|
  queue := gmap K P;
  content := id;
  pushed_all := λ S m, map_Forall (λ _ p, S p) m;
  kpq_empty := ∅;
  kpq_push := λ k p m, <[k := p]> m;
  kpq_remove := λ k m, (m !! k, delete k m);
  kpq_pop := map_pop;
  kpq_iter := map_to_list
|}.
Next Obligation. done. Qed.
Next Obligation. done. Qed.
Next Obligation. done. Qed.
Next Obligation. done. Qed.
Next Obligation. intros q. pose proof (map_pop_spec q). by case_match. Qed.
Next Obligation. intros q k p E. pose proof (map_pop_spec q) as Hs. by rewrite E in Hs. Qed.
Next Obligation. done. Qed.
Next Obligation. intros S. apply map_Forall_empty. Qed.
Next Obligation. intros S k p m ??. by apply map_Forall_insert_2. Qed.
Next Obligation. intros S k m ?. by apply map_Forall_delete. Qed.
Next Obligation.
  intros S m Hm. pose proof (map_pop_spec m) as Hs. unfold map_pop in *.
  destruct (best (map_to_list m)) as [[k p]|]; simpl in *; [|done]. by apply map_Forall_delete.
Qed.
Next Obligation.
  intros S m k p k' p' Hl Hm E Hk'. simpl in *. unfold map_pop in E.
  destruct (map_to_list m) as [|x l] eqn:El; simpl in E; [done|].
  assert (Forall (λ y, S y.2) (x :: l)) as HS.
  { rewrite <-El. apply Forall_forall. intros [j q] Hj%elem_of_map_to_list. simpl. by eapply Hm. }
  apply Forall_cons in HS as [Hx HS].
  destruct (foldl_better_max S l x Hl Hx HS) as [Hmax _].
  destruct (foldl better x l) as [k0 p0] eqn:Eb; simpl in *; simplify_eq.
  rewrite <-El, Forall_forall in Hmax.
  by apply (Hmax (k', p')), elem_of_map_to_list.
Qed.
End map_queue.
