(* ===== verification/Wantlist.v ===== *)
(** Wantlists: the list of wanted blocks with priorities and its sorted cache
    (bitswap [client/wantlist.rs]), and the list of pending and sent wants of a
    message queue (bitswap [client/message_queue/wantlist.rs]). *)
From stdpp Require Import base gmap list sorting.
From S2P Require Import Prelude.

(** [message.rs]: [WantType]. *)
Inductive WantType := Block | Have.
#[export] Instance WantType_eq_dec : EqDecision WantType.
Proof. solve_decision. Defined.

(** Want types are ordered: a want-block asks for at least what a want-have does. *)
Definition want_le (t u : WantType) : Prop := t = Have ∨ u = Block.
#[export] Instance want_le_preorder : PreOrder want_le.
Proof. split; [intros []; unfold want_le; auto | intros [] [] []; unfold want_le; naive_solver]. Qed.
#[export] Instance want_le_dec t u : Decision (want_le t u).
Proof. unfold want_le. apply _. Defined.

Module Wantlist.
Section wantlist.
Context {ids : Ids} {ho : HashOrder}.

(** [InnerEntry], shared immutably behind an [Arc] by [Entry]. *)
Record Entry := Entry_new { cid : Cid; priority : Z; want_type : WantType }.

#[global] Instance Entry_eq_dec : EqDecision Entry.
Proof. solve_decision. Defined.

Record Wantlist := mk { set : gmap Cid Entry; cached : list Entry }.

Definition default : Wantlist := mk ∅ [].
Definition len (w : Wantlist) : Z := map_len (set w).
Definition is_empty (w : Wantlist) : bool := bool_decide (set w = ∅).
Definition clear (w : Wantlist) : Wantlist := mk ∅ [].

Definition add (c : Cid) (p : Z) (t : WantType) (w : Wantlist) : bool * Wantlist :=
  match set w !! c with
  | None => (true, mk (<[c := Entry_new c p t]> (set w)) [])
  | Some e =>
      if bool_decide (want_type e = Block) || bool_decide (t = Have) then (false, w)
      else (true, mk (<[c := Entry_new c p t]> (set w)) [])
  end.

Definition remove (c : Cid) (w : Wantlist) : option Entry * Wantlist :=
  (set w !! c, mk (delete c (set w)) []).

Definition get (c : Cid) (w : Wantlist) : option Entry := set w !! c.
Definition contains (c : Cid) (w : Wantlist) : bool := bool_decide (is_Some (set w !! c)).

Definition remove_type (c : Cid) (t : WantType) (w : Wantlist) : option Entry * Wantlist :=
  match set w !! c with
  | None => (None, w)
  | Some e =>
      if bool_decide (want_type e = Block) && bool_decide (t = Have) then (None, w)
      else (Some e, mk (delete c (set w)) [])
  end.

Definition entries (w : Wantlist) : list Entry * Wantlist :=
  match cached w with
  | [] =>
      let c := reverse (sort_by_key priority (iter_values (set w))) in
      (c, mk (set w) c)
  | c => (c, w)
  end.

(** One iteration of the loop of [extend]. *)
Definition extend_entry (m : gmap Cid Entry) (ce : Cid * Entry) : gmap Cid Entry :=
  match m !! ce.1 with
  | Some e =>
      if bool_decide (want_type e = Block) || bool_decide (want_type ce.2 = Have) then m
      else <[ce.1 := ce.2]> m
  | None => <[ce.1 := ce.2]> m
  end.

Definition extend (w other : Wantlist) : Wantlist :=
  mk (foldl extend_entry (set w) (iter_map (set other))) [].

(** ** Invariant: an entry is stored under its own cid, and the cache is either
    stale-marked (empty) or the sorted list of the current entries. *)
Definition descending : list Entry → Prop := StronglySorted (λ x y, priority y ≤ priority x)%Z.
Definition keyed (m : gmap Cid Entry) : Prop := ∀ c e, m !! c = Some e → cid e = c.
Definition sorted_view (m : gmap Cid Entry) (l : list Entry) : Prop :=
  l ≡ₚ (map_to_list m).*2 ∧ descending l.
Definition inv (w : Wantlist) : Prop :=
  keyed (set w) ∧ (cached w = [] ∨ sorted_view (set w) (cached w)).

Lemma keyed_insert m c p t : keyed m → keyed (<[c := Entry_new c p t]> m).
Proof. intros Hm d e [[<- <-]|[? ?]]%lookup_insert_Some; naive_solver. Qed.

Lemma keyed_delete m c : keyed m → keyed (delete c m).
Proof. intros Hm d e [? ?]%lookup_delete_Some. naive_solver. Qed.

Lemma entries_view m : sorted_view m (reverse (sort_by_key priority (iter_values m))).
Proof.
  split.
  - rewrite reverse_Permutation, sort_by_key_perm. unfold iter_values.
    by rewrite iter_map_perm.
  - apply (StronglySorted_reverse (λ x y, priority x ≤ priority y)%Z), sort_by_key_sorted.
Qed.

(** What [extend] leaves under a key, whatever the iteration order. *)
Definition join_entry (o o' : option Entry) : option Entry :=
  match o, o' with
  | None, _ => o'
  | _, None => o
  | Some e, Some e' =>
      if bool_decide (want_type e = Block) || bool_decide (want_type e' = Have) then o else o'
  end.

Lemma extend_entry_lookup m c e d :
  extend_entry m (c, e) !! d = if decide (c = d) then join_entry (m !! d) (Some e) else m !! d.
Proof.
  unfold extend_entry, join_entry; simpl.
  destruct (decide (c = d)) as [<-|Hne]; destruct (m !! c) eqn:E;
    repeat case_match; simplify_map_eq; done.
Qed.

Lemma foldl_extend_lookup l m c :
  NoDup l.*1 →
  foldl extend_entry m l !! c = join_entry (m !! c) ((list_to_map l : gmap Cid Entry) !! c).
Proof.
  revert m. induction l as [|[d e] l IH]; intros m; simpl.
  { intros _. unfold join_entry. by destruct (m !! c). }
  intros [Hd Hl]%NoDup_cons. rewrite (IH _ Hl), extend_entry_lookup.
  destruct (decide (d = c)) as [->|Hne].
  - rewrite lookup_insert_eq, (not_elem_of_list_to_map_1 l) by done.
    unfold join_entry. repeat case_match; done.
  - by rewrite lookup_insert_ne.
Qed.

Lemma extend_lookup w o c :
  set (extend w o) !! c = join_entry (set w !! c) (set o !! c).
Proof.
  unfold extend; simpl. rewrite foldl_extend_lookup by apply NoDup_iter_map_keys. f_equal.
  assert (list_to_map (iter_map (set o)) = set o) as ->; [|done].
  rewrite <-(list_to_map_to_list (set o)) at 2.
  apply list_to_map_proper; [apply NoDup_iter_map_keys|apply iter_map_perm].
Qed.

Lemma keyed_extend w o : keyed (set w) → keyed (set o) → keyed (set (extend w o)).
Proof.
  intros Hw Ho c e. rewrite extend_lookup. unfold join_entry.
  repeat case_match; naive_solver.
Qed.

(** ** The state machine of a wantlist and its abstract specification *)
Inductive op :=
  | Clear
  | Add (c : Cid) (p : Z) (t : WantType)
  | Remove (c : Cid)
  | RemoveType (c : Cid) (t : WantType)
  | Entries
  | Extend (other : Wantlist).

Definition exec (w : Wantlist) (o : op) : Wantlist :=
  match o with
  | Clear => clear w
  | Add c p t => (add c p t w).2
  | Remove c => (remove c w).2
  | RemoveType c t => (remove_type c t w).2
  | Entries => (entries w).2
  | Extend o => extend w o
  end.

(** The specification: a finite map from cids to wants, without any cache. *)
Definition spec_exec (m : gmap Cid Entry) (o : op) : gmap Cid Entry :=
  match o with
  | Clear => ∅
  | Add c p t => partial_alter (λ o, join_entry o (Some (Entry_new c p t))) c m
  | Remove c => delete c m
  | RemoveType c t => partial_alter (λ o, e ← o; if decide (want_le (want_type e) t) then None else Some e) c m
  | Entries => m
  | Extend o => merge join_entry m (set o)
  end.

Definition op_ok (o : op) : Prop :=
  match o with Extend o => inv o | _ => True end.

Lemma exec_spec w o : set (exec w o) = spec_exec (set w) o.
Proof.
  apply map_eq; intros d. destruct o as [|c p t|c|c t| |o]; cbn [exec spec_exec].
  - done.
  - unfold add, join_entry. destruct (decide (c = d)) as [<-|].
    + rewrite lookup_partial_alter_eq.
      destruct (set w !! c) as [[? ? []]|] eqn:E; destruct t; simpl; by simplify_map_eq.
    + rewrite lookup_partial_alter_ne by done.
      destruct (set w !! c) as [[? ? []]|] eqn:E; destruct t; simpl; by simplify_map_eq.
  - done.
  - unfold remove_type, want_le. destruct (decide (c = d)) as [<-|].
    + rewrite lookup_partial_alter_eq. destruct (set w !! c) as [[? ? []]|] eqn:E; simpl;
        destruct t; simpl; rewrite ?E, ?lookup_delete_eq; repeat case_decide; naive_solver.
    + rewrite lookup_partial_alter_ne by done.
      destruct (set w !! c) as [[? ? []]|] eqn:E; destruct t; simpl; by simplify_map_eq.
  - unfold entries. by case_match.
  - rewrite extend_lookup, lookup_merge.
    unfold join_entry, diag_None. repeat case_match; done.
Qed.

Lemma exec_inv w o : inv w → op_ok o → inv (exec w o).
Proof.
  intros [Hk Hc] Ho. destruct o as [|c p t|c|c t| |o]; simpl.
  - split; [intros c e|by left]. simpl. by rewrite lookup_empty.
  - unfold add. repeat case_match; simpl; (split; simpl; [by apply keyed_insert || done|auto]).
  - split; simpl; [by apply keyed_delete|by left].
  - unfold remove_type. repeat case_match; (split; simpl; [done || by apply keyed_delete|auto]).
  - unfold entries. case_match eqn:E; (split; simpl; [done|]); right; [apply entries_view|].
    rewrite E. by destruct Hc.
  - split; [|by left]. apply keyed_extend; [done|]. by destruct Ho.
Qed.

Lemma run_refines ops w :
  inv w → Forall op_ok ops →
  inv (foldl exec w ops) ∧ set (foldl exec w ops) = foldl spec_exec (set w) ops.
Proof.
  revert w. induction ops as [|o ops IH]; intros w Hw; simpl; [done|].
  intros [Ho Hops]%Forall_cons. rewrite <-exec_spec. apply IH; [by apply exec_inv|done].
Qed.

Lemma entries_of_inv w : inv w → sorted_view (set w) (entries w).1.
Proof.
  intros [_ [Hc|Hc]]; unfold entries.
  - rewrite Hc. apply entries_view.
  - case_match; [apply entries_view|done].
Qed.

Lemma default_inv : inv default.
Proof. split; [|by left]. intros c e. simpl. by rewrite lookup_empty. Qed.

(** [add] returns [false] exactly when it leaves the list alone, and never turns
    a want-block into a want-have. *)
Lemma add_spec c p t w :
  ((add c p t w).1 = false → (add c p t w).2 = w) ∧
  (∀ e, set w !! c = Some e →
     ∃ e', set (add c p t w).2 !! c = Some e' ∧ want_le (want_type e) (want_type e')) ∧
  ∃ e', set (add c p t w).2 !! c = Some e' ∧ want_le t (want_type e').
Proof.
  unfold add, want_le.
  destruct (set w !! c) as [[c' q []]|] eqn:E; destruct t; simpl; split_and!; intros;
    simplify_map_eq; try done; eexists; (split; [reflexivity || exact E|simpl; tauto]).
Qed.
End wantlist.

Arguments Entry {ids}.
Arguments Wantlist {ids}.
End Wantlist.

Module RecallWantlist.
Section recall.
Context {ids : Ids} {ho : HashOrder}.
Import Wantlist.

(** Wants that have not been sent yet, wants that have been sent, and the
    instants (nanoseconds) at which they were sent. *)
Record RecallWantlist := mk {
  pending : Wantlist;
  sent : Wantlist;
  sent_at : gmap Cid Z
}.

Definition default : RecallWantlist := mk Wantlist.default Wantlist.default ∅.

Definition add (c : Cid) (p : Z) (t : WantType) (r : RecallWantlist) : RecallWantlist :=
  mk (Wantlist.add c p t (pending r)).2 (sent r) (sent_at r).

Definition remove (c : Cid) (r : RecallWantlist) : RecallWantlist :=
  mk (Wantlist.remove c (pending r)).2 (Wantlist.remove c (sent r)).2 (delete c (sent_at r)).

Definition remove_type (c : Cid) (t : WantType) (r : RecallWantlist) : RecallWantlist :=
  let p := (Wantlist.remove_type c t (pending r)).2 in
  let '(o, s) := Wantlist.remove_type c t (sent r) in
  mk p s (match o with Some _ => delete c (sent_at r) | None => sent_at r end).

Definition mark_sent (e : Entry) (r : RecallWantlist) : bool * RecallWantlist :=
  let '(o, p) := Wantlist.remove_type (cid e) (want_type e) (pending r) in
  match o with
  | None => (false, mk p (sent r) (sent_at r))
  | Some _ => (true, mk p (Wantlist.add (cid e) (priority e) (want_type e) (sent r)).2 (sent_at r))
  end.

Definition clear_sent_at (c : Cid) (r : RecallWantlist) : RecallWantlist :=
  mk (pending r) (sent r) (delete c (sent_at r)).

(** The method [sent_at]. *)
Definition record_sent_at (c : Cid) (at_ : Z) (r : RecallWantlist) : RecallWantlist :=
  if Wantlist.contains c (sent r) then r
  else mk (pending r) (sent r) (<[c := at_]> (sent_at r)).

(** A want is tracked when it is pending or sent. *)
Definition tracked (r : RecallWantlist) (c : Cid) : Prop :=
  is_Some (set (pending r) !! c) ∨ is_Some (set (sent r) !! c).

(** The strongest type under which a cid is tracked. *)
Definition wants_at_least (w : Wantlist) (c : Cid) (t : WantType) : Prop :=
  ∃ e, set w !! c = Some e ∧ want_le t (want_type e).

Lemma remove_type_Some c t w e :
  (Wantlist.remove_type c t w).1 = Some e →
  set w !! c = Some e ∧ want_le (want_type e) t ∧
  set (Wantlist.remove_type c t w).2 = delete c (set w).
Proof.
  unfold Wantlist.remove_type, want_le. destruct (set w !! c) as [[? ? []]|] eqn:E; destruct t;
    simpl; intros; simplify_eq; auto.
Qed.

Lemma remove_type_None c t w :
  (Wantlist.remove_type c t w).1 = None → (Wantlist.remove_type c t w).2 = w.
Proof. unfold Wantlist.remove_type. repeat case_match; simpl; intros; by simplify_eq. Qed.

Lemma mark_sent_spec e r :
  let '(b, r') := mark_sent e r in
  if b then
    set (pending r') = delete (cid e) (set (pending r)) ∧
    wants_at_least (sent r') (cid e) (want_type e) ∧
    (∀ c, c ≠ cid e → set (sent r') !! c = set (sent r) !! c)
  else r' = r.
Proof.
  unfold mark_sent. destruct (Wantlist.remove_type _ _ (pending r)) as [o p] eqn:E.
  destruct o as [e0|]; simpl.
  - pose proof (remove_type_Some (cid e) (want_type e) (pending r) e0) as H.
    rewrite E in H. destruct (H eq_refl) as (H1 & H2 & H3). simpl in H3. split_and!; [done| |].
    + destruct (Wantlist.add_spec (cid e) (priority e) (want_type e) (sent r)) as (_ & _ & He).
      exact He.
    + intros c Hc. unfold Wantlist.add. repeat case_match; by simplify_map_eq.
  - pose proof (remove_type_None (cid e) (want_type e) (pending r)) as H.
    rewrite E in H. specialize (H eq_refl). simpl in H. subst. by destruct r.
Qed.

(** [mark_sent] followed by [sent_at], which is the order in which the message
    queue calls them, records no time. *)
Lemma record_sent_at_marked e r r' at_ :
  mark_sent e r = (true, r') → record_sent_at (cid e) at_ r' = r'.
Proof.
  intros H. pose proof (mark_sent_spec e r) as Hs. rewrite H in Hs. simpl in Hs.
  destruct Hs as (_ & (e' & He & _) & _). unfold record_sent_at, contains.
  by rewrite He, bool_decide_eq_true_2.
Qed.
End recall.
Arguments RecallWantlist {ids}.
End RecallWantlist.

Module Wants.
Section wants.
Context {ids : Ids} {ho : HashOrder}.

Record Wants := mk {
  bcst_wants : RecallWantlist.RecallWantlist;
  peer_wants : RecallWantlist.RecallWantlist;
  cancels : gset Cid;
  priority : Z
}.

Definition pending_work_count (w : Wants) : outcome Z :=
  n ← usize_add (Wantlist.len (RecallWantlist.pending (bcst_wants w)))
                (Wantlist.len (RecallWantlist.pending (peer_wants w)));
  usize_add n (set_len (cancels w)).

Definition has_pending_work (w : Wants) : outcome bool :=
  n ← pending_work_count w; mret (bool_decide (0 < n)%Z).
End wants.
Arguments Wants {ids}.
End Wants.

(** ** Properties *)
Module WantlistClaims.
Import Wantlist.

(** C16: refinement of the wantlist by a plain finite map.  After any sequence of
    operations from the empty list (with any iteration order of the hash map,
    and [extend] arguments that are themselves wantlists), the stored set is
    the one the cache-free specification computes, and [entries] returns all
    its entries sorted by descending priority: the cache is never stale. *)
Theorem wantlist_refinement {ids : Ids} {ho : HashOrder} (ops : list op) :
  Forall op_ok ops →
  let w := foldl exec default ops in
  set w = foldl spec_exec ∅ ops ∧ sorted_view (foldl spec_exec ∅ ops) (entries w).1.
Proof.
  intros Hops w. destruct (run_refines ops default default_inv Hops) as [Hi Hs].
  split; [done|]. pose proof (entries_of_inv _ Hi) as Hv. by rewrite Hs in Hv.
Qed.

Definition demo_ops : list (@op nat_ids) :=
  [@Add nat_ids 1 5 Have; Entries; @Add nat_ids 2 9 Block; @Add nat_ids 1 7 Block;
   @Add nat_ids 2 1 Have; @RemoveType nat_ids 2 Have; Entries].

Lemma wantlist_refinement_witness :
  (@entries nat_ids key_order (foldl (@exec nat_ids key_order) default demo_ops)).1
    = [@Entry_new nat_ids 2 9 Block; @Entry_new nat_ids 1 7 Block] ∧
  sorted_view (foldl spec_exec ∅ demo_ops)
    (@entries nat_ids key_order (foldl (@exec nat_ids key_order) default demo_ops)).1.
Proof.
  split; [vm_compute; reflexivity|].
  apply (@wantlist_refinement nat_ids key_order demo_ops). repeat constructor.
Defined.

(** Merging wantlists is pointwise and does not depend on the iteration
    order of either hash map: a cid wanted on one side only keeps its entry, and
    for a cid wanted on both sides the merged entry is one of the two and asks
    for at least as much as each (a want-have never replaces a want-block). *)
Theorem extend_joins {ids : Ids} {ho : HashOrder} (w o : Wantlist) (c : Cid) :
  match set w !! c, set o !! c with
  | None, x => set (extend w o) !! c = x
  | x, None => set (extend w o) !! c = x
  | Some e, Some e' =>
      ∃ e'', set (extend w o) !! c = Some e'' ∧ (e'' = e ∨ e'' = e') ∧
        want_le (want_type e) (want_type e'') ∧ want_le (want_type e') (want_type e'')
  end.
Proof.
  rewrite extend_lookup. unfold join_entry, want_le.
  destruct (set w !! c) as [[? ? []]|], (set o !! c) as [[? ? []]|]; simpl; eauto 10.
Qed.
End WantlistClaims.
