(* ===== verification/PeerTracker.v ===== *)
(** The tasks of one peer (bitswap [peer_task_queue/peer_task.rs] and
    [peer_task_queue/peer_tracker.rs]): a priority queue of pending tasks, the
    active tasks with the amount of work they stand for, and the freezing of a
    peer that cancels. *)
From stdpp Require Import base gmap list sorting.
From S2P Require Import Prelude KeyedPriorityQueue.

(** The machine integers inside the data of a task are in range. *)
Class DataRange (D : Type) := data_ok : D → Prop.

Module PeerTask.
Section peer_task.
Context {T D : Type}.

(** Priorities are [isize], work is [usize]. *)
Record Task := mk_task { topic : T; priority : Z; work : Z; data : D }.

Definition task_ok {dr : DataRange D} (t : Task) : Prop :=
  (0 ≤ work t ≤ usize_max)%Z ∧ data_ok (data t).

#[global] Instance Task_eq_dec `{EqDecision T, EqDecision D} : EqDecision Task.
Proof. solve_decision. Defined.

Context {ids : Ids}.

Record QueueTask := QueueTask_new { task : Task; target : PeerId; created : Z }.

(** [Ord for QueueTask]: by priority for the same target, then first in first out. *)
Definition QueueTask_cmp (self other : QueueTask) : comparison :=
  if bool_decide (target self = target other)
     && bool_decide (priority (task self) ≠ priority (task other))
  then Z.compare (priority (task self)) (priority (task other))
  else Z.compare (created other) (created self).

(** The order for queue tasks of the same target: highest priority, then oldest. *)
Definition before (a b : QueueTask) : Prop :=
  (priority (task b) < priority (task a))%Z ∨
  priority (task a) = priority (task b) ∧ (created a ≤ created b)%Z.

Lemma QueueTask_cmp_before a b :
  target a = target b → QueueTask_cmp a b ≠ Lt ↔ before a b.
Proof.
  intros Ht. unfold QueueTask_cmp, before. rewrite (bool_decide_eq_true_2 _ Ht). simpl.
  case_bool_decide as Hp; rewrite Z.compare_nlt_iff; lia.
Qed.

Lemma QueueTask_cmp_lawful p : ord_lawful QueueTask_cmp (λ q, target q = p).
Proof.
  split.
  - intros a b Ha Hb. unfold QueueTask_cmp.
    rewrite !bool_decide_eq_true_2 by congruence. simpl.
    repeat case_bool_decide; try congruence; apply Z.compare_antisym.
  - intros a b c Ha Hb Hc. rewrite !QueueTask_cmp_before by congruence. unfold before. lia.
Qed.
End peer_task.
Arguments Task : clear implicits.
Arguments QueueTask T D {ids}.

(** The trait [TaskMerger]: how a new task is merged into known ones. *)
Class TaskMerger (T D : Type) := {
  has_new_info : Task T D → list (Task T D) → bool;
  merge : Task T D → Task T D → Task T D
}.

(** What the peer tracker relies on: merging keeps the topic and the priority of
    the existing task, and yields a task of a valid size. *)
Class TaskMergerLaws (T D : Type) {dr : DataRange D} `{TaskMerger T D} := {
  merge_topic t e : topic (merge t e) = topic e;
  merge_priority t e : priority (merge t e) = priority e;
  merge_ok t e : task_ok t → task_ok e → task_ok (merge t e)
}.

Definition DefaultTaskMerger (T D : Type) : TaskMerger T D := {|
  has_new_info := λ _ _, false;
  merge := λ _ e, e
|}.

Lemma DefaultTaskMerger_laws T D {dr : DataRange D} :
  @TaskMergerLaws T D dr (DefaultTaskMerger T D).
Proof. by split. Qed.
End PeerTask.

Module PeerTracker.
Export PeerTask.
Section tracker.
Context {T D : Type} `{Countable T} `{EqDecision D} {ids : Ids}.
Context {dr : DataRange D} {tm : TaskMerger T D}.
Context {kpq : KeyedPriorityQueue T (QueueTask T D) QueueTask_cmp}.

(** [target] of the struct is [peer] here; [freeze_val] is an [isize]. *)
Record PeerTracker := mk {
  peer : PeerId;
  pending_tasks : @queue _ _ _ _ _ kpq;
  active_tasks : gmap T (list (Task T D));
  active_work : Z;
  max_active_work_per_peer : Z;
  freeze_val : Z
}.

Definition new (target : PeerId) (max_active_work_per_peer : Z) : PeerTracker :=
  mk target kpq_empty ∅ 0 max_active_work_per_peer 0.

Definition with_pending (q : queue) (tr : PeerTracker) : PeerTracker :=
  mk (peer tr) q (active_tasks tr) (active_work tr) (max_active_work_per_peer tr) (freeze_val tr).
Definition with_active (m : gmap T (list (Task T D))) (w : Z) (tr : PeerTracker) : PeerTracker :=
  mk (peer tr) (pending_tasks tr) m w (max_active_work_per_peer tr) (freeze_val tr).
Definition with_freeze (v : Z) (tr : PeerTracker) : PeerTracker :=
  mk (peer tr) (pending_tasks tr) (active_tasks tr) (active_work tr)
     (max_active_work_per_peer tr) v.

Definition is_idle (tr : PeerTracker) : bool :=
  kpq_is_empty (pending_tasks tr) && bool_decide (active_tasks tr = ∅).

Record Stats := mk_stats { num_pending : Z; num_active : Z }.
Definition stats (tr : PeerTracker) : Stats :=
  mk_stats (kpq_len (pending_tasks tr)) (map_len (active_tasks tr)).

Definition task_has_more_info_than_active_tasks (t : Task T D) (tr : PeerTracker) : bool :=
  match active_tasks tr !! topic t with
  | Some ts => match ts with [] => true | _ => has_new_info t ts end
  | None => true
  end.

(** [existing_task.task.priority = task.priority] when the new priority is higher. *)
Definition raise_priority (p : Z) (e : Task T D) : Task T D :=
  if bool_decide (priority e < p)%Z then mk_task (topic e) p (work e) (data e) else e.

(** The body of the loop of [push_tasks]; [now] is read once before the loop. *)
Definition push_task (now : Z) (tr : PeerTracker) (t : Task T D) : PeerTracker :=
  if negb (task_has_more_info_than_active_tasks t tr) then tr
  else match kpq_remove (topic t) (pending_tasks tr) with
  | (Some e, q) =>
      let e' := QueueTask_new (merge t (raise_priority (priority t) (task e))) (target e) (created e) in
      with_pending (kpq_push (topic t) e' q) tr
  | (None, q) =>
      with_pending (kpq_push (topic t) (QueueTask_new t (peer tr) now) q) tr
  end.

Definition push_tasks (now : Z) (ts : list (Task T D)) (tr : PeerTracker) : PeerTracker :=
  foldl (push_task now) tr ts.

Definition start_task (t : Task T D) (tr : PeerTracker) : outcome PeerTracker :=
  w ← usize_add (active_work tr) (work t);
  mret (with_active (entry_or [] (λ ts, ts ++ [t]) (topic t) (active_tasks tr)) w tr).

(** The [while] loop of [pop_tasks].  Every iteration takes one element off the
    queue, so one more than the number of pending tasks is enough fuel. *)
Fixpoint pop_loop (fuel : nat) (target_min_work work_ : Z) (out : list (Task T D))
    (tr : PeerTracker) : outcome (list (Task T D) * PeerTracker) :=
  match fuel with
  | O => OutOfFuel
  | S fuel =>
      if negb (kpq_is_empty (pending_tasks tr)) && bool_decide (freeze_val tr = 0)%Z
         && bool_decide (work_ < target_min_work)%Z
      then
        if bool_decide (0 < max_active_work_per_peer tr)%Z
           && bool_decide (max_active_work_per_peer tr ≤ active_work tr)%Z
        then mret (out, tr)
        else match kpq_pop (pending_tasks tr) with
        | (Some (_, qt), q) =>
            tr' ← start_task (task qt) (with_pending q tr);
            w ← usize_add work_ (work (task qt));
            pop_loop fuel target_min_work w (out ++ [task qt]) tr'
        | (None, q) => pop_loop fuel target_min_work work_ out (with_pending q tr)
        end
      else mret (out, tr)
  end.

Definition pop_tasks (target_min_work : Z) (tr : PeerTracker)
    : outcome (list (Task T D) * PeerTracker) :=
  pop_loop (S (size (content (pending_tasks tr)))) target_min_work 0 [] tr.

Definition get_pending_work (tr : PeerTracker) : outcome Z :=
  usize_sum ((λ kq, work (task kq.2)) <$> kpq_iter (pending_tasks tr)).

(** The [retain] of [task_done], which also counts the work that is done. *)
Fixpoint retain_not (t : Task T D) (work_done : Z) (ts : list (Task T D))
    : outcome (list (Task T D) * Z) :=
  match ts with
  | [] => mret ([], work_done)
  | a :: ts =>
      if bool_decide (a = t) then w ← usize_add work_done (work t); retain_not t w ts
      else '(ts', w) ← retain_not t work_done ts; mret (a :: ts', w)
  end.

Definition task_done (t : Task T D) (tr : PeerTracker) : outcome PeerTracker :=
  match active_tasks tr !! topic t with
  | None => mret tr
  | Some ts =>
      '(ts', work_done) ← retain_not t 0 ts;
      _ ← rust_assert (bool_decide (work_done ≤ active_work tr)%Z);
      w ← usize_sub (active_work tr) work_done;
      mret (with_active
        (if bool_decide (ts' = []) then delete (topic t) (active_tasks tr)
         else <[topic t := ts']> (active_tasks tr)) w tr)
  end.

Definition remove (k : T) (tr : PeerTracker) : bool * PeerTracker :=
  let '(o, q) := kpq_remove k (pending_tasks tr) in
  (bool_decide (is_Some o), with_pending q tr).

Definition freeze (tr : PeerTracker) : outcome PeerTracker :=
  v ← isize_add (freeze_val tr) 1; mret (with_freeze v tr).

(** Division of [isize] truncates. *)
Definition thaw (tr : PeerTracker) : outcome (bool * PeerTracker) :=
  n ← isize_add (freeze_val tr) 1;
  v ← isize_sub (freeze_val tr) (Z.quot n 2);
  mret (bool_decide (v ≤ 0)%Z, with_freeze v tr).

Definition full_thaw (tr : PeerTracker) : PeerTracker := with_freeze 0 tr.

Definition is_frozen (tr : PeerTracker) : bool := bool_decide (0 < freeze_val tr)%Z.

(** [Ord for PeerTracker], with the second test of [freeze_val] as it is written. *)
Definition PeerTracker_cmp (self other : PeerTracker) : comparison :=
  if kpq_is_empty (pending_tasks self) then Lt
  else if kpq_is_empty (pending_tasks other) then Gt
  else if bool_decide (freeze_val other < freeze_val self)%Z then Lt
  else if bool_decide (freeze_val other < freeze_val self)%Z then Gt
  else if bool_decide (active_work self = active_work other) then
    Z.compare (kpq_len (pending_tasks self)) (kpq_len (pending_tasks other))
  else Z.compare (active_work other) (active_work self).

(** ** Invariant *)
Definition work_of (ts : list (Task T D)) : Z := Zsum (work <$> ts).
Definition pending_map (tr : PeerTracker) : gmap T (QueueTask T D) := content (pending_tasks tr).
Definition pending_total (tr : PeerTracker) : Z := map_sum (λ q, work (task q)) (pending_map tr).

Record inv (tr : PeerTracker) : Prop := {
  inv_pending : map_Forall (λ k q, topic (task q) = k ∧ target q = peer tr ∧ task_ok (task q))
                  (pending_map tr);
  inv_pushed : pushed_all (λ q, target q = peer tr) (pending_tasks tr);
  inv_active : map_Forall (λ k ts, ts ≠ [] ∧ Forall (λ t, topic t = k ∧ task_ok t) ts)
                 (active_tasks tr);
  inv_work : active_work tr = map_sum work_of (active_tasks tr);
  inv_work_max : (active_work tr ≤ usize_max)%Z;
  inv_freeze : (0 ≤ freeze_val tr ≤ isize_max)%Z
}.

Lemma work_of_nonneg k ts :
  Forall (λ t : Task T D, topic t = k ∧ task_ok t) ts → (0 ≤ work_of ts)%Z.
Proof.
  intros Hts. apply Zsum_nonneg, Forall_fmap.
  eapply Forall_impl; [exact Hts|]. intros t [_ [Ht _]]. simpl. lia.
Qed.

Lemma work_of_app ts us : work_of (ts ++ us) = (work_of ts + work_of us)%Z.
Proof. unfold work_of. by rewrite fmap_app, Zsum_app. Qed.

Lemma work_of_nil : work_of [] = 0%Z.
Proof. done. Qed.

Lemma work_of_cons t ts : work_of (t :: ts) = (work t + work_of ts)%Z.
Proof. done. Qed.

Lemma active_work_nonneg tr : inv tr → (0 ≤ active_work tr)%Z.
Proof.
  intros Hi. rewrite (inv_work _ Hi). apply map_sum_nonneg.
  intros k ts Hk. destruct (inv_active _ Hi k ts Hk) as [_ Hts]. by eapply work_of_nonneg.
Qed.

Lemma pending_total_nonneg tr : inv tr → (0 ≤ pending_total tr)%Z.
Proof.
  intros Hi. apply map_sum_nonneg. intros k q Hq.
  destruct (inv_pending _ Hi k q Hq) as (_ & _ & Hok & _). lia.
Qed.

Lemma new_inv p m : inv (new p m).
Proof.
  split; simpl.
  - unfold pending_map; simpl. rewrite content_empty. apply map_Forall_empty.
  - apply pushed_empty.
  - apply map_Forall_empty.
  - by rewrite map_sum_empty.
  - unfold usize_max. lia.
  - unfold isize_max. lia.
Qed.

(** ** Pushing *)
Section push.
Context {tml : TaskMergerLaws T D}.

Lemma push_task_inv now tr t : inv tr → task_ok t → inv (push_task now tr t).
Proof.
  intros Hi Ht. unfold push_task.
  destruct (task_has_more_info_than_active_tasks t tr); simpl; [|done].
  destruct (kpq_remove (topic t) (pending_tasks tr)) as [o q] eqn:E.
  pose proof (remove_eq _ _ _ _ E) as [Ho Hq].
  assert (pushed_all (λ q, target q = peer tr) q) as Hpush.
  { replace q with (kpq_remove (topic t) (pending_tasks tr)).2 by (by rewrite E).
    apply pushed_remove, Hi. }
  assert (map_Forall (λ k q, topic (task q) = k ∧ target q = peer tr ∧ task_ok (task q))
            (content q)) as Hm.
  { rewrite Hq. apply map_Forall_delete, Hi. }
  destruct o as [e|].
  - symmetry in Ho. destruct (inv_pending _ Hi _ _ Ho) as (He1 & He2 & He3).
    split; try apply Hi.
    + unfold pending_map; simpl. rewrite content_push. apply map_Forall_insert_2; [|done].
      simpl. split_and!; [|done|].
      * rewrite merge_topic. unfold raise_priority. by case_bool_decide.
      * apply merge_ok; [done|]. unfold raise_priority. by case_bool_decide; [split; apply He3|].
    + simpl. apply pushed_push; [done|done].
  - split; try apply Hi.
    + unfold pending_map; simpl. rewrite content_push. by apply map_Forall_insert_2.
    + simpl. by apply pushed_push.
Qed.

Lemma push_tasks_inv now ts tr : inv tr → Forall task_ok ts → inv (push_tasks now ts tr).
Proof.
  unfold push_tasks. revert tr. induction ts as [|t ts IH]; intros tr Hi; simpl; [done|].
  intros [Ht Hts]%Forall_cons. apply IH; [by apply push_task_inv|done].
Qed.
End push.

(** ** Popping *)

(** The greedy reference: take an element that comes before every other, again
    and again. *)
Inductive pops : gmap T (QueueTask T D) → list (QueueTask T D) → gmap T (QueueTask T D) → Prop :=
  | pops_nil m : pops m [] m
  | pops_cons m k q qs m' :
      m !! k = Some q → (∀ k' q', m !! k' = Some q' → before q q') →
      pops (delete k m) qs m' → pops m (q :: qs) m'.

Definition add_active (m : gmap T (list (Task T D))) (t : Task T D) : gmap T (list (Task T D)) :=
  entry_or [] (λ ts, ts ++ [t]) (topic t) m.

Lemma add_active_sum m t : map_sum work_of (add_active m t) = (map_sum work_of m + work t)%Z.
Proof.
  unfold add_active, entry_or. destruct (m !! topic t) as [ts|] eqn:E; simpl.
  - rewrite (map_sum_update _ _ _ ts) by done. rewrite work_of_app, work_of_cons, work_of_nil. lia.
  - rewrite map_sum_insert by done. rewrite work_of_cons, work_of_nil. lia.
Qed.

Lemma start_task_ok t tr :
  inv tr → task_ok t → (active_work tr + work t ≤ usize_max)%Z →
  let tr' := with_active (add_active (active_tasks tr) t) (active_work tr + work t) tr in
  start_task t tr = Done tr' ∧ inv tr'.
Proof.
  intros Hi Ht Hw. pose proof (active_work_nonneg _ Hi). pose proof (proj1 Ht). split.
  { unfold start_task. rewrite usize_add_ok by lia. done. }
  split; try apply Hi; simpl; [|rewrite add_active_sum, (inv_work _ Hi); lia|lia].
  unfold add_active, entry_or. apply map_Forall_insert_2; [|apply Hi].
  split; [by destruct (default [] _)|]. apply Forall_app. split; [|by apply Forall_singleton].
  destruct (active_tasks tr !! topic t) eqn:E; simpl; [|constructor].
  by destruct (inv_active _ Hi _ _ E).
Qed.

Lemma pop_pending_inv tr k q qq :
  inv tr → kpq_pop (pending_tasks tr) = (Some (k, q), qq) →
  pending_map tr !! k = Some q ∧
  (∀ k' q', pending_map tr !! k' = Some q' → before q q') ∧
  inv (with_pending qq tr) ∧ pending_map (with_pending qq tr) = delete k (pending_map tr).
Proof.
  intros Hi E. destruct (pop_eq _ _ _ E) as [Hk Hqq]. split_and!; [done| | |done].
  - intros k' q' Hk'.
    destruct (inv_pending _ Hi _ _ Hk) as (_ & Ht & _).
    destruct (inv_pending _ Hi _ _ Hk') as (_ & Ht' & _).
    apply QueueTask_cmp_before; [congruence|].
    apply (pop_max (λ q, target q = peer tr) (pending_tasks tr) k q k' q');
      [apply QueueTask_cmp_lawful|apply Hi|by rewrite E|done].
  - split; try apply Hi.
    + unfold pending_map. simpl. rewrite Hqq. apply map_Forall_delete, Hi.
    + simpl. replace qq with (kpq_pop (pending_tasks tr)).2 by (by rewrite E).
      apply pushed_pop, Hi.
Qed.

(** What a run of the loop from [tr] with [w] units already taken guarantees. *)
Record popped (tmw w : Z) (tr : PeerTracker) (qs : list (QueueTask T D)) (tr' : PeerTracker)
    : Prop := {
  popped_inv : inv tr';
  popped_pops : pops (pending_map tr) qs (pending_map tr');
  popped_peer : peer tr' = peer tr;
  popped_max : max_active_work_per_peer tr' = max_active_work_per_peer tr;
  popped_freeze : freeze_val tr' = freeze_val tr;
  popped_active : active_tasks tr' = foldl add_active (active_tasks tr) (task <$> qs);
  popped_work : active_work tr' = (active_work tr + work_of (task <$> qs))%Z;
  popped_stop : pending_map tr' = ∅ ∨ freeze_val tr ≠ 0%Z ∨
    (tmw ≤ w + work_of (task <$> qs))%Z ∨
    (0 < max_active_work_per_peer tr ≤ active_work tr')%Z;
  popped_needed : ∀ us v vs, qs = us ++ v :: vs →
    freeze_val tr = 0%Z ∧ (w + work_of (task <$> us) < tmw)%Z ∧
    ((0 < max_active_work_per_peer tr)%Z →
     (active_work tr + work_of (task <$> us) < max_active_work_per_peer tr)%Z)
}.

Lemma popped_nil tmw w tr :
  inv tr →
  (pending_map tr = ∅ ∨ freeze_val tr ≠ 0%Z ∨ (tmw ≤ w)%Z ∨
   (0 < max_active_work_per_peer tr ≤ active_work tr)%Z) →
  popped tmw w tr [] tr.
Proof.
  intros Hi Hstop. split; try done.
  - constructor.
  - simpl. rewrite work_of_nil. lia.
  - simpl. by rewrite work_of_nil, Z.add_0_r.
  - intros [] ? ? ?; done.
Qed.

Lemma popped_cons tmw w tr k q tr1 qs tr' :
  inv tr → pending_map tr !! k = Some q →
  (∀ k' q', pending_map tr !! k' = Some q' → before q q') →
  pending_map tr1 = delete k (pending_map tr) →
  peer tr1 = peer tr → max_active_work_per_peer tr1 = max_active_work_per_peer tr →
  freeze_val tr1 = freeze_val tr →
  active_tasks tr1 = add_active (active_tasks tr) (task q) →
  active_work tr1 = (active_work tr + work (task q))%Z →
  freeze_val tr = 0%Z → (w < tmw)%Z →
  ((0 < max_active_work_per_peer tr)%Z → (active_work tr < max_active_work_per_peer tr)%Z) →
  popped tmw (w + work (task q)) tr1 qs tr' →
  popped tmw w tr (q :: qs) tr'.
Proof.
  intros Hi Hk Hmax Hpm Hp Hm Hf Ha Hw Hf0 Hlt Hcap [].
  assert (∀ us : list (QueueTask T D),
    work_of (task <$> q :: us) = (work (task q) + work_of (task <$> us))%Z) as Hwc by done.
  split; try congruence; try done.
  - econstructor; [done|done|]. by rewrite <-Hpm.
  - simpl. by rewrite <-Ha.
  - rewrite Hwc. lia.
  - rewrite Hwc. rewrite Hf, Hm in popped_stop0.
    destruct popped_stop0 as [?|[?|[?|?]]]; [by left|by right; left|do 2 right; left; lia|by do 3 right].
  - intros [|u us] v vs Heq; simplify_eq/=.
    + rewrite work_of_nil. split_and!; [done|lia|]. intros Hx. specialize (Hcap Hx). lia.
    + destruct (popped_needed0 us v vs eq_refl) as (Hn1 & Hn2 & Hn3). rewrite Hm in Hn3.
      rewrite work_of_cons.
      split_and!; [done|lia|]. intros Hx. specialize (Hn3 Hx). lia.
Qed.

(** The loop returns, unless the total work leaves the range of a [usize]. *)
Lemma pop_loop_spec fuel tmw w out tr :
  inv tr → (0 ≤ w)%Z → size (pending_map tr) < fuel →
  (∃ qs tr', pop_loop fuel tmw w out tr = Done (out ++ (task <$> qs), tr') ∧
     popped tmw w tr qs tr') ∨
  pop_loop fuel tmw w out tr = Panic ∧
    (usize_max < active_work tr + pending_total tr ∨ usize_max < w + pending_total tr)%Z.
Proof.
  revert w out tr. induction fuel as [|fuel IH]; intros w out tr Hi Hw Hsz; [lia|].
  simpl. unfold kpq_is_empty. fold (pending_map tr).
  destruct (bool_decide (pending_map tr = ∅)) eqn:He; simpl.
  { apply bool_decide_eq_true in He. left. exists [], tr. rewrite app_nil_r.
    split; [done|]. apply popped_nil; auto. }
  destruct (bool_decide (freeze_val tr = 0%Z)) eqn:Hf; simpl; last first.
  { apply bool_decide_eq_false in Hf. left. exists [], tr. rewrite app_nil_r.
    split; [done|]. apply popped_nil; auto. }
  destruct (bool_decide (w < tmw)%Z) eqn:Hlt; simpl; last first.
  { apply bool_decide_eq_false in Hlt. left. exists [], tr. rewrite app_nil_r.
    split; [done|]. apply popped_nil; [done|]. do 2 right; left. lia. }
  apply bool_decide_eq_false in He. apply bool_decide_eq_true in Hf, Hlt.
  destruct (_ && _) eqn:Hcap.
  { apply andb_true_iff in Hcap as [H1%bool_decide_eq_true H2%bool_decide_eq_true].
    left. exists [], tr. rewrite app_nil_r. split; [done|]. apply popped_nil; [done|]. by do 3 right. }
  assert ((0 < max_active_work_per_peer tr)%Z → (active_work tr < max_active_work_per_peer tr)%Z)
    as Hcap'.
  { apply andb_false_iff in Hcap as [H1%bool_decide_eq_false|H1%bool_decide_eq_false]; lia. }
  destruct (kpq_pop (pending_tasks tr)) as [[[k q]|] qq] eqn:E; last first.
  { by destruct (pop_eq _ _ _ E). }
  destruct (pop_pending_inv _ _ _ _ Hi E) as (Hk & Hmax & Hi1 & Hpm).
  destruct (inv_pending _ Hi _ _ Hk) as (_ & _ & Hok).
  pose proof (active_work_nonneg _ Hi) as Haw.
  pose proof (pending_total_nonneg _ Hi1) as Hpt.
  assert (pending_total tr = work (task q) + pending_total (with_pending qq tr))%Z as Hpt1.
  { unfold pending_total at 2. rewrite Hpm. by apply (map_sum_delete (λ q, work (task q))). }
  pose proof (proj1 Hok) as Hwk.
  destruct (decide (active_work tr + work (task q) ≤ usize_max)%Z) as [Hfit|Hover]; last first.
  { right. split; [|lia]. unfold start_task. simpl. by rewrite (usize_add_over (active_work tr)) by lia. }
  destruct (start_task_ok (task q) (with_pending qq tr) Hi1 Hok) as [Hst Hi2]; [done|].
  simpl in Hst, Hi2. rewrite Hst. simpl.
  destruct (decide (w + work (task q) ≤ usize_max)%Z) as [Hfit2|Hover]; last first.
  { right. split; [|lia]. by rewrite usize_add_over by lia. }
  rewrite usize_add_ok by lia. simpl.
  destruct (IH (w + work (task q))%Z (out ++ [task q])
    (with_active (add_active (active_tasks tr) (task q)) (active_work tr + work (task q))
       (with_pending qq tr))) as [(qs & tr' & Hrun & Hpop)|[Hpanic Hov]]; [done|lia| | |].
  { change (pending_map (with_active _ _ _)) with (pending_map (with_pending qq tr)).
    rewrite Hpm. pose proof (size_delete _ _ _ Hk). lia. }
  - left. exists (q :: qs), tr'. split.
    { rewrite Hrun. do 2 f_equal. rewrite <-app_assoc. done. }
    refine (popped_cons tmw w tr k q _ qs tr' Hi Hk Hmax _ _ _ _ _ _ Hf Hlt Hcap' Hpop); done.
  - right. split; [done|]. simpl in Hov.
    change (pending_total (with_active _ _ _)) with (pending_total (with_pending qq tr)) in Hov. lia.
Qed.

Lemma pops_sub m qs m' : pops m qs m' → m' ⊆ m.
Proof.
  induction 1 as [|m k q qs m' Hk Hmax Hp IH]; [done|].
  etrans; [exact IH|]. apply delete_subseteq.
Qed.

Lemma pending_total_mono tr tr' :
  inv tr → pending_map tr' ⊆ pending_map tr → (pending_total tr' ≤ pending_total tr)%Z.
Proof.
  intros Hi Hsub. unfold pending_total. apply map_sum_mono; [|done].
  intros k q Hq. destruct (inv_pending _ Hi k q Hq) as (_ & _ & ? & _). lia.
Qed.

Lemma pops_elem m qs m' q : pops m qs m' → q ∈ qs → ∃ k, m !! k = Some q.
Proof.
  induction 1 as [|m k q0 qs m' Hk Hmax Hp IH]; [by intros ?%elem_of_nil|].
  intros [->|Hq]%elem_of_cons; [by eauto|].
  destruct (IH Hq) as [k' [_ Hk']%lookup_delete_Some]. eauto.
Qed.

Lemma pops_sorted m qs m' :
  pops m qs m' →
  StronglySorted before qs ∧ (∀ q k' q', q ∈ qs → m' !! k' = Some q' → before q q').
Proof.
  induction 1 as [m|m k q qs m' Hk Hmax Hp [IH1 IH2]].
  { split; [constructor|]. by intros ? ? ? ?%elem_of_nil. }
  split.
  - constructor; [done|]. apply Forall_forall. intros q' Hq'.
    destruct (pops_elem _ _ _ _ Hp Hq') as [k' [_ Hk']%lookup_delete_Some]. eauto.
  - intros q0 k' q' [->|Hq0]%elem_of_cons Hk'; [|by eauto].
    apply (lookup_weaken _ (delete k m)) in Hk'; [|by eapply pops_sub].
    apply lookup_delete_Some in Hk' as [_ Hk']. eauto.
Qed.

(** The queue is split between what is popped and what stays. *)
Definition topic_of (q : QueueTask T D) : T := topic (task q).

Lemma pops_split m qs m' :
  (∀ k q, m !! k = Some q → topic_of q = k) → pops m qs m' →
  NoDup (topic_of <$> qs) ∧
  (∀ q, q ∈ qs → m !! topic_of q = Some q ∧ m' !! topic_of q = None) ∧
  (∀ k q, m !! k = Some q → q ∈ qs ∨ m' !! k = Some q).
Proof.
  intros Hkey Hp. induction Hp as [m|m k q qs m' Hk Hmax Hp IH].
  { split_and!; [constructor|by intros ? ?%elem_of_nil|auto]. }
  destruct IH as (IH1 & IH2 & IH3).
  { intros k' q' [_ Hk']%lookup_delete_Some. eauto. }
  pose proof (Hkey _ _ Hk) as Hq. split_and!.
  - simpl. constructor; [|done]. rewrite list_elem_of_fmap.
    intros (q' & Heq & Hq'). destruct (IH2 q' Hq') as [[Hne _]%lookup_delete_Some _]. congruence.
  - intros q' [->|Hq']%elem_of_cons.
    + rewrite Hq. split; [done|]. destruct (m' !! k) eqn:E; [|done].
      pose proof (lookup_weaken _ (delete k m) _ _ E (pops_sub _ _ _ Hp)) as Hx.
      by rewrite lookup_delete_eq in Hx.
    + destruct (IH2 q' Hq') as [[_ ?]%lookup_delete_Some ?]. done.
  - intros k' q' Hk'. destruct (decide (k' = k)) as [->|Hne].
    + left. rewrite Hk in Hk'. simplify_eq. by left.
    + destruct (IH3 k' q') as [?|?]; [by rewrite lookup_delete_ne|set_solver|by right].
Qed.

Lemma pop_tasks_ok tmw tr :
  inv tr → (active_work tr + pending_total tr ≤ usize_max)%Z →
  ∃ qs tr', pop_tasks tmw tr = Done (task <$> qs, tr') ∧ popped tmw 0 tr qs tr'.
Proof.
  intros Hi Hw. pose proof (active_work_nonneg _ Hi).
  destruct (pop_loop_spec (S (size (content (pending_tasks tr)))) tmw 0 [] tr)
    as [(qs & tr' & Hrun & Hp)|[_ Hov]]; [done|lia|unfold pending_map; lia|by eauto|lia].
Qed.

Lemma pop_tasks_sound tmw tr out tr' :
  inv tr → pop_tasks tmw tr = Done (out, tr') →
  ∃ qs, out = task <$> qs ∧ popped tmw 0 tr qs tr'.
Proof.
  intros Hi Hrun. unfold pop_tasks in Hrun.
  destruct (pop_loop_spec (S (size (content (pending_tasks tr)))) tmw 0 [] tr)
    as [(qs & tr1 & Hrun' & Hp)|[Hpanic _]]; [done|lia|unfold pending_map; lia| |congruence].
  rewrite Hrun' in Hrun. simplify_eq/=. eauto.
Qed.

(** ** Completion *)
Definition same (t : Task T D) (ts : list (Task T D)) : list (Task T D) := filter (λ a, a = t) ts.
Definition others (t : Task T D) (ts : list (Task T D)) : list (Task T D) := filter (λ a, a ≠ t) ts.

Lemma same_others t ts : work_of ts = (work_of (same t ts) + work_of (others t ts))%Z.
Proof.
  unfold same, others. induction ts as [|a ts IH]; [done|].
  rewrite work_of_cons, !filter_cons.
  destruct (decide (a = t)) as [->|Hne].
  - rewrite decide_False by auto. rewrite work_of_cons. lia.
  - rewrite decide_True by auto. rewrite work_of_cons. lia.
Qed.

Lemma retain_not_ok k t ts wd :
  Forall (λ t, topic t = k ∧ task_ok t) ts → (0 ≤ wd)%Z → (wd + work_of ts ≤ usize_max)%Z →
  retain_not t wd ts = Done (others t ts, (wd + work_of (same t ts))%Z).
Proof.
  intros Hts. revert wd.
  induction Hts as [|a ts [Hk Ha] Hts IH]; intros wd Hwd Hmax; simpl.
  { rewrite Z.add_0_r. done. }
  pose proof (work_of_nonneg _ _ Hts). rewrite work_of_cons in Hmax. destruct Ha as [Ha _].
  unfold same, others in *. rewrite !filter_cons. case_bool_decide as Heq.
  - subst a. rewrite usize_add_ok by lia. simpl. rewrite IH by lia.
    rewrite (decide_True (P := t = t)), (decide_False (P := t ≠ t)) by auto.
    rewrite work_of_cons, Z.add_assoc. done.
  - rewrite IH by lia. simpl. rewrite (decide_False (P := a = t)), (decide_True (P := a ≠ t)) by auto. done.
Qed.

(** The active tasks after [t] is done. *)
Definition done_active (t : Task T D) (m : gmap T (list (Task T D))) : gmap T (list (Task T D)) :=
  partial_alter (λ o, ts ← o; if decide (others t ts = []) then None else Some (others t ts))
    (topic t) m.

Lemma task_done_ok t tr :
  inv tr →
  ∃ tr', task_done t tr = Done tr' ∧ inv tr' ∧
    active_tasks tr' = done_active t (active_tasks tr) ∧
    active_work tr' = (active_work tr - work_of (same t (default [] (active_tasks tr !! topic t))))%Z ∧
    pending_tasks tr' = pending_tasks tr ∧ freeze_val tr' = freeze_val tr ∧ peer tr' = peer tr.
Proof.
  intros Hi. pose proof (active_work_nonneg _ Hi) as Haw. unfold task_done, done_active.
  destruct (active_tasks tr !! topic t) as [ts|] eqn:E; simpl; last first.
  { exists tr. split_and!; try done; [|change (same t []) with (@nil (Task T D)); rewrite work_of_nil; lia].
    apply map_eq. intros k. destruct (decide (topic t = k)) as [<-|].
    - by rewrite lookup_partial_alter_eq, E.
    - by rewrite lookup_partial_alter_ne. }
  destruct (inv_active _ Hi _ _ E) as [Hne Hts].
  pose proof (work_of_nonneg _ _ Hts) as Hn. pose proof (same_others t ts) as Hso.
  assert (active_work tr = work_of ts + map_sum work_of (delete (topic t) (active_tasks tr)))%Z as Hsum.
  { rewrite (inv_work _ Hi). by apply map_sum_delete. }
  assert (0 ≤ map_sum work_of (delete (topic t) (active_tasks tr)))%Z as Hrest.
  { apply map_sum_nonneg, map_Forall_delete. intros k us Hk.
    destruct (inv_active _ Hi _ _ Hk). by eapply work_of_nonneg. }
  pose proof (inv_work_max _ Hi) as Hmax.
  assert (0 ≤ work_of (others t ts))%Z as Hon.
  { apply (work_of_nonneg (topic t)). unfold others. by apply Forall_filter_1. }
  assert (0 ≤ work_of (same t ts))%Z as Hsn.
  { apply (work_of_nonneg (topic t)). unfold same. by apply Forall_filter_1. }
  rewrite (retain_not_ok (topic t)) by (done || lia). simpl.
  rewrite (bool_decide_eq_true_2 (_ ≤ active_work tr)%Z) by lia. simpl.
  rewrite usize_sub_ok by lia. simpl.
  eexists. split; [done|]. split; [|split_and!; try done; simpl].
  - split; try apply Hi; simpl; [|case_bool_decide as Ho|lia].
    + case_bool_decide as Ho; [apply map_Forall_delete, Hi|].
      apply map_Forall_insert_2; [|apply Hi]. split; [done|].
      unfold others. by apply Forall_filter_1.
    + rewrite Ho, work_of_nil in *. lia.
    + rewrite (map_sum_update _ _ _ _ _ E), <-(inv_work _ Hi). lia.
  - case_bool_decide as Ho.
    + unfold delete, map_delete. apply partial_alter_ext. intros x. rewrite E. intros <-. simpl.
      by rewrite decide_True.
    + unfold insert, map_insert. apply partial_alter_ext. intros x. rewrite E. intros <-. simpl.
      by rewrite decide_False.
Qed.

(** ** Removal, freezing and thawing *)
Lemma remove_inv k tr : inv tr → inv (remove k tr).2.
Proof.
  intros Hi. unfold remove. destruct (kpq_remove k (pending_tasks tr)) as [o q] eqn:E. simpl.
  destruct (remove_eq _ _ _ _ E) as [_ Hq]. split; try apply Hi.
  - unfold pending_map; simpl. rewrite Hq. apply map_Forall_delete, Hi.
  - simpl. replace q with (kpq_remove k (pending_tasks tr)).2 by (by rewrite E).
    apply pushed_remove, Hi.
Qed.

Lemma freeze_ok tr :
  inv tr → (freeze_val tr < isize_max)%Z →
  freeze tr = Done (with_freeze (freeze_val tr + 1) tr) ∧ inv (with_freeze (freeze_val tr + 1) tr).
Proof.
  intros Hi Hlt. pose proof (inv_freeze _ Hi). split.
  - unfold freeze, isize_add. rewrite checked_ok by (unfold isize_min, isize_max in *; lia). done.
  - split; try apply Hi. simpl. lia.
Qed.

Lemma thaw_ok tr :
  inv tr → (freeze_val tr < isize_max)%Z →
  thaw tr = Done (bool_decide (freeze_val tr / 2 ≤ 0)%Z, with_freeze (freeze_val tr / 2) tr) ∧
  inv (with_freeze (freeze_val tr / 2) tr).
Proof.
  intros Hi Hlt. pose proof (inv_freeze _ Hi) as Hf.
  assert (freeze_val tr - Z.quot (freeze_val tr + 1) 2 = freeze_val tr / 2)%Z as Hq.
  { rewrite Z.quot_div_nonneg by lia. pose proof (Z.div_mod (freeze_val tr) 2).
    pose proof (Z.div_mod (freeze_val tr + 1) 2). pose proof (Z.mod_pos_bound (freeze_val tr) 2).
    pose proof (Z.mod_pos_bound (freeze_val tr + 1) 2). lia. }
  assert (0 ≤ freeze_val tr / 2 ≤ freeze_val tr)%Z as Hb.
  { split; [apply Z.div_pos; lia|]. apply Z.div_le_upper_bound; lia. }
  split.
  - unfold thaw, isize_add, isize_sub, isize_min, isize_max in *. rewrite checked_ok by lia. simpl.
    rewrite Hq, checked_ok by lia. done.
  - split; try apply Hi. simpl. unfold isize_max in *. lia.
Qed.

Lemma full_thaw_inv tr : inv tr → inv (full_thaw tr).
Proof. intros Hi. split; try apply Hi. simpl. unfold isize_max. lia. Qed.
End tracker.
End PeerTracker.

(** ** Concrete trackers: topics are numbers, tasks carry no data. *)
Module TrackerDemo.
Export PeerTracker.
#[export] Instance demo_ids : Ids := nat_ids.
#[export] Instance demo_range : DataRange unit := λ _, True.
#[export] Instance demo_merger : TaskMerger nat unit := DefaultTaskMerger nat unit.
#[export] Instance demo_merger_laws : TaskMergerLaws nat unit := DefaultTaskMerger_laws nat unit.
#[export] Instance demo_queue : KeyedPriorityQueue nat (QueueTask nat unit) QueueTask_cmp :=
  map_queue QueueTask_cmp.

Definition t1 : Task nat unit := mk_task 1 20 5 ().
Definition t2 : Task nat unit := mk_task 2 10 5 ().
Definition t3 : Task nat unit := mk_task 3 5 5 ().
Definition demo : PeerTracker := push_tasks 0 [t3; t1; t2] (new 7 1000).

Lemma demo_inv : inv demo.
Proof.
  apply push_tasks_inv; [apply new_inv|].
  repeat (constructor; [split; [unfold usize_max; simpl; lia|done]|]). constructor.
Qed.
End TrackerDemo.

(** ** Properties *)
Module PeerTrackerClaims.
Export PeerTracker.

(** Popping tasks is greedy and terminates.  From a well-formed tracker whose
    total work fits a [usize], [pop_tasks] returns; the tasks it returns are in
    priority order (highest priority first, oldest first among equals), come
    before every task that stays queued, are exactly what leaves the pending
    queue, and become active.  It stops only when the queue is empty, the peer
    is frozen, the target is covered or the peer is at its maximum of active
    work, and it never takes a task once one of these holds. *)
Theorem pop_tasks_greedy {T D : Type} `{Countable T} `{EqDecision D} {ids : Ids}
    {dr : DataRange D} {tm : TaskMerger T D}
    {kpq : KeyedPriorityQueue T (QueueTask T D) QueueTask_cmp}
    (tmw : Z) (tr : PeerTracker) :
  inv tr → (active_work tr + pending_total tr ≤ usize_max)%Z →
  ∃ qs tr', pop_tasks tmw tr = Done (task <$> qs, tr') ∧ inv tr' ∧
    StronglySorted before qs ∧
    (∀ q k' q', q ∈ qs → pending_map tr' !! k' = Some q' → before q q') ∧
    NoDup (topic_of <$> qs) ∧
    (∀ q, q ∈ qs → pending_map tr !! topic_of q = Some q ∧ pending_map tr' !! topic_of q = None) ∧
    (∀ k q, pending_map tr !! k = Some q → q ∈ qs ∨ pending_map tr' !! k = Some q) ∧
    pending_map tr' ⊆ pending_map tr ∧
    active_tasks tr' = foldl add_active (active_tasks tr) (task <$> qs) ∧
    active_work tr' = (active_work tr + work_of (task <$> qs))%Z ∧
    (pending_map tr' = ∅ ∨ freeze_val tr ≠ 0%Z ∨ (tmw ≤ work_of (task <$> qs))%Z ∨
     (0 < max_active_work_per_peer tr ≤ active_work tr')%Z) ∧
    (∀ us v vs, qs = us ++ v :: vs →
       freeze_val tr = 0%Z ∧ (work_of (task <$> us) < tmw)%Z ∧
       ((0 < max_active_work_per_peer tr)%Z →
        (active_work tr + work_of (task <$> us) < max_active_work_per_peer tr)%Z)).
Proof.
  intros Hi Hw. destruct (pop_tasks_ok tmw tr Hi Hw) as (qs & tr' & Hrun & Hp).
  exists qs, tr'. destruct (pops_sorted _ _ _ (popped_pops _ _ _ _ _ Hp)) as [Hs Hb].
  destruct (pops_split _ _ _ (λ k q Hk, proj1 (inv_pending _ Hi k q Hk)) (popped_pops _ _ _ _ _ Hp))
    as (Hnd & Hin & Hall).
  pose proof (pops_sub _ _ _ (popped_pops _ _ _ _ _ Hp)). destruct Hp. split_and!; done.
Qed.

(** Completing a task never trips the assertion "more work finished than
    started" nor an underflow, whatever task is reported: exactly the active
    tasks equal to the reported one are dropped, the active work goes down by
    their sizes, no empty entry is left behind and the invariant (active work
    is the sum of the active tasks) is kept. *)
Theorem task_done_safe {T D : Type} `{Countable T} `{EqDecision D} {ids : Ids}
    {dr : DataRange D} {tm : TaskMerger T D}
    {kpq : KeyedPriorityQueue T (QueueTask T D) QueueTask_cmp}
    (t : Task T D) (tr : PeerTracker) :
  inv tr →
  ∃ tr', task_done t tr = Done tr' ∧ inv tr' ∧
    active_tasks tr' = done_active t (active_tasks tr) ∧
    active_work tr' =
      (active_work tr - work_of (same t (default [] (active_tasks tr !! topic t))))%Z ∧
    pending_map tr' = pending_map tr.
Proof.
  intros Hi. destruct (task_done_ok t tr Hi) as (tr' & ? & ? & ? & ? & Hp & _).
  exists tr'. split_and!; try done. unfold pending_map. by rewrite Hp.
Qed.

(** The ordering of peers does not implement "frozen peers have lowest
    priority", and is not an order: when the more frozen peer has less active
    work, each of two peers with pending tasks compares below the other. *)
Theorem peer_order_not_antisymmetric {T D : Type} `{Countable T} `{EqDecision D} {ids : Ids}
    {dr : DataRange D} {tm : TaskMerger T D}
    {kpq : KeyedPriorityQueue T (QueueTask T D) QueueTask_cmp}
    (a b : PeerTracker) :
  pending_map a ≠ ∅ → pending_map b ≠ ∅ → (freeze_val a < freeze_val b)%Z →
  (active_work b < active_work a)%Z →
  PeerTracker_cmp a b = Lt ∧ PeerTracker_cmp b a = Lt.
Proof.
  intros Ha Hb Hf Hw. unfold PeerTracker_cmp, kpq_is_empty.
  fold (pending_map a) (pending_map b).
  rewrite (bool_decide_eq_false_2 _ Ha), (bool_decide_eq_false_2 _ Hb).
  rewrite (bool_decide_eq_false_2 (freeze_val b < freeze_val a)%Z) by lia.
  rewrite (bool_decide_eq_true_2 (freeze_val a < freeze_val b)%Z) by lia.
  rewrite bool_decide_eq_false_2 by lia. split; [|done]. apply Z.compare_lt_iff. lia.
Qed.

End PeerTrackerClaims.

Module PeerTrackerWitness.
Export PeerTrackerClaims TrackerDemo.

Lemma pop_tasks_greedy_witness :
  fst <$> pop_tasks 7 demo = Done [t1; t2] ∧
  ∃ qs tr', pop_tasks 7 demo = Done (task <$> qs, tr') ∧ StronglySorted before qs.
Proof.
  split; [vm_compute; reflexivity|].
  destruct (pop_tasks_greedy 7 demo demo_inv)
    as (qs & tr' & Hrun & _ & Hs & _); [vm_compute; congruence|].
  exists qs, tr'. split; [exact Hrun|exact Hs].
Defined.

Lemma task_done_safe_witness :
  ∃ tr', task_done t1 demo = Done tr' ∧ inv tr'.
Proof.
  destruct (task_done_safe t1 demo demo_inv)
    as (tr' & Hrun & Hi & _).
  exists tr'. split; [exact Hrun|exact Hi].
Defined.

Lemma peer_order_not_antisymmetric_witness :
  let a := with_active {[ 9 := [t3] ]} 5 demo in
  let b := with_freeze 1 demo in
  PeerTracker_cmp a b = Lt ∧ PeerTracker_cmp b a = Lt.
Proof.
  intros a b. apply (peer_order_not_antisymmetric a b); [| |vm_compute; reflexivity..].
  - intros Hx. apply (f_equal (λ m, m !! 1)) in Hx. vm_compute in Hx. discriminate Hx.
  - intros Hx. apply (f_equal (λ m, m !! 1)) in Hx. vm_compute in Hx. discriminate Hx.
Defined.
End PeerTrackerWitness.
