(* ===== verification/TaskMerger.v ===== *)
(** The data of a request and how the server merges requests for the same block
    (bitswap [server/task_merger.rs]). *)
From stdpp Require Import base gmap list.
From S2P Require Import Prelude KeyedPriorityQueue PeerTracker.

Module TaskMerger.
Import PeerTask.
Section task_merger.
Context {ids : Ids}.

Record TaskData := mk {
  is_want_block : bool;
  send_dont_have : bool;
  block_size : Z;
  have_block : bool
}.

#[global] Instance TaskData_eq_dec : EqDecision TaskData.
Proof. solve_decision. Defined.

(** The loop of [has_new_info] over the existing tasks. *)
Definition has_new_info (t : Task Cid TaskData) (existing : list (Task Cid TaskData)) : bool :=
  let '(have_size, want_block) :=
    foldl (λ (acc : bool * bool) e,
      ((if have_block (data e) then true else acc.1),
       (if is_want_block (data e) then true else acc.2))) (false, false) existing in
  if negb want_block && is_want_block (data t) then true
  else if negb have_size && have_block (data t) then true
  else false.

(** The three updates of [merge], one after the other on [existing]. *)
Definition merge_size (n : TaskData) (e : Task Cid TaskData) : Task Cid TaskData :=
  let d := data e in
  if negb (have_block d) && have_block n then
    mk_task (topic e) (priority e) (work e)
      (mk (is_want_block d) (send_dont_have d) (block_size n) (have_block n))
  else e.

Definition merge_want_block (t e : Task Cid TaskData) : Task Cid TaskData :=
  let d := data e in
  if negb (is_want_block d) && is_want_block (data t) then
    if negb (have_block d) || have_block (data t) then
      mk_task (topic e) (priority e) (work t)
        (mk true (send_dont_have d) (block_size d) (have_block (data t)))
    else
      mk_task (topic e) (priority e) (work e)
        (mk true (send_dont_have d) (block_size d) (have_block d))
  else e.

Definition merge_work (e : Task Cid TaskData) : Task Cid TaskData :=
  let d := data e in
  if is_want_block d && have_block d then mk_task (topic e) (priority e) (block_size d) d
  else e.

Definition merge (t e : Task Cid TaskData) : Task Cid TaskData :=
  merge_work (merge_want_block t (merge_size (data t) e)).

#[global] Instance server_merger : PeerTask.TaskMerger Cid TaskData := {|
  PeerTask.has_new_info := has_new_info;
  PeerTask.merge := merge
|}.

#[global] Instance TaskData_range : DataRange TaskData :=
  λ d, (0 ≤ block_size d ≤ usize_max)%Z.

Lemma merge_in_range t e : task_ok t → task_ok e → task_ok (merge t e).
Proof.
  destruct t as [? ? ? [[] ? ? []]], e as [? ? ? [[] ? ? []]];
    unfold merge, merge_work, merge_want_block, merge_size, task_ok, data_ok, TaskData_range;
    simpl; lia.
Qed.

(** A task as the engine makes them: sizes are [usize] and a want-block for a
    block we have counts the whole block as work. *)
Definition sound (t : Task Cid TaskData) : Prop :=
  task_ok t ∧
  (is_want_block (data t) && have_block (data t) = true → work t = block_size (data t)).

Lemma has_new_info_spec t es :
  has_new_info t es =
    (is_want_block (data t) && negb (existsb (λ e, is_want_block (data e)) es)) ||
    (have_block (data t) && negb (existsb (λ e, have_block (data e)) es)).
Proof.
  unfold has_new_info.
  assert (∀ a b, foldl (λ (acc : bool * bool) (e : Task Cid TaskData),
      ((if have_block (data e) then true else acc.1),
       (if is_want_block (data e) then true else acc.2))) (a, b) es =
    (a || existsb (λ e, have_block (data e)) es, b || existsb (λ e, is_want_block (data e)) es))
    as Hf.
  { induction es as [|e es IH]; intros a b; simpl; [by rewrite !orb_false_r|].
    rewrite IH. destruct (have_block (data e)), (is_want_block (data e)), a, b; done. }
  rewrite Hf. simpl. destruct (existsb _ es), (existsb _ es), (is_want_block _), (have_block _); done.
Qed.

(** Unfolds [merge] and decides every flag of both tasks. *)
Ltac merge_cases t e :=
  destruct t as [? ? ? [[] ? ? []]], e as [? ? ? [[] ? ? []]];
  unfold merge, merge_work, merge_want_block, merge_size, sound, task_ok in *; simpl in *.

Lemma merge_keeps t e :
  topic (merge t e) = topic e ∧ priority (merge t e) = priority e ∧
  send_dont_have (data (merge t e)) = send_dont_have (data e).
Proof. merge_cases t e; done. Qed.

Lemma merge_flags t e :
  is_want_block (data (merge t e)) = is_want_block (data e) || is_want_block (data t) ∧
  have_block (data (merge t e)) = have_block (data e) || have_block (data t).
Proof. merge_cases t e; done. Qed.

Lemma merge_sound t e : sound t → sound e → sound (merge t e).
Proof.
  intros [Ht Ht'] [He He']. split; [by apply merge_in_range|]. merge_cases t e; naive_solver.
Qed.

#[global] Instance server_merger_laws : TaskMergerLaws Cid TaskData.
Proof.
  split; [intros t e; by destruct (merge_keeps t e) as (?&?&?)..|exact merge_in_range].
Qed.

Lemma merge_data t e : has_new_info t [e] = false → data (merge t e) = data e.
Proof. rewrite has_new_info_spec. merge_cases t e; try done. Qed.

Lemma merge_data_new t e : has_new_info t [e] = true → data (merge t e) ≠ data e.
Proof. rewrite has_new_info_spec. merge_cases t e; try done. Qed.

End task_merger.
Arguments TaskData : clear implicits.
End TaskMerger.

(** ** Properties *)
Module TaskMergerClaims.
Import PeerTask TaskMerger.

(** Merging requests for the same block.  The merged task keeps topic,
    priority and the DONT_HAVE flag of the queued one, wants the block if either
    did, knows the block if either did, and still counts the whole block as
    work when the block will be sent; [has_new_info] against a single task is
    exactly "merging would change its data". *)
Theorem merge_correct {ids : Ids} (t e : Task Cid TaskData) :
  sound t → sound e →
  sound (merge t e) ∧
  topic (merge t e) = topic e ∧ priority (merge t e) = priority e ∧
  send_dont_have (data (merge t e)) = send_dont_have (data e) ∧
  is_want_block (data (merge t e)) = is_want_block (data e) || is_want_block (data t) ∧
  have_block (data (merge t e)) = have_block (data e) || have_block (data t) ∧
  (has_new_info t [e] = true ↔ data (merge t e) ≠ data e).
Proof.
  intros Ht He. destruct (merge_keeps t e) as (?&?&?). destruct (merge_flags t e) as (?&?).
  split_and!; try done; [by apply merge_sound|]. split; [apply merge_data_new|].
  intros Hd. destruct (has_new_info t [e]) eqn:E; [done|]. by apply merge_data in E.
Qed.

Lemma merge_correct_witness :
  let e := @mk_task (@Cid nat_ids) _ 1 5 3 (mk false true 0 false) in
  let t := @mk_task (@Cid nat_ids) _ 1 9 100 (mk true false 100 true) in
  @merge nat_ids t e = mk_task 1 5 100 (mk true true 100 true) ∧ sound (@merge nat_ids t e).
Proof.
  intros e t. split; [reflexivity|].
  refine (proj1 (@merge_correct nat_ids t e _ _));
    unfold sound, task_ok, data_ok, TaskData_range, usize_max; simpl; (split; [lia|done]).
Defined.
End TaskMergerClaims.
