(* ===== verification/PeerTaskQueue.v ===== *)
(** The queue of requests of all peers (bitswap [peer_task_queue.rs]): a priority
    queue of peer trackers, the set of frozen peers and the hooks that are told
    when a peer enters or leaves the queue.  Every method holds the mutex of
    [Inner] for its whole body, so a method is one transition of the state. *)
From stdpp Require Import base gmap list relations.
From S2P Require Import Prelude KeyedPriorityQueue PeerTracker.

Module PeerTaskQueue.
Export PeerTask.
Section ptq.
Context {T D : Type} `{Countable T} `{EqDecision D} {ids : Ids} {ho : HashOrder}.
Context {dr : DataRange D} {tm : TaskMerger T D}.
Context {kpq : KeyedPriorityQueue T (QueueTask T D) QueueTask_cmp}.
Notation PeerTracker := (@PeerTracker.PeerTracker T D _ _ ids kpq).
Context {pkpq : KeyedPriorityQueue PeerId PeerTracker PeerTracker.PeerTracker_cmp}.

Inductive Event := PeerAdded (p : PeerId) | PeerRemoved (p : PeerId).

(** A hook is the sequence of events delivered to it. *)
Record Inner := mk {
  peer_queue : @queue _ _ _ _ _ pkpq;
  frozen_peers : gset PeerId;
  ignore_freezing : bool;
  max_outstanding_work_per_peer : Z;
  hooks : list (list Event)
}.

Definition new (ignore : bool) (max_work : Z) : Inner := mk kpq_empty ∅ ignore max_work [].

Definition with_queue (q : queue) (st : Inner) : Inner :=
  mk q (frozen_peers st) (ignore_freezing st) (max_outstanding_work_per_peer st) (hooks st).
Definition with_frozen (f : gset PeerId) (st : Inner) : Inner :=
  mk (peer_queue st) f (ignore_freezing st) (max_outstanding_work_per_peer st) (hooks st).

Definition call_hook (e : Event) (st : Inner) : Inner :=
  mk (peer_queue st) (frozen_peers st) (ignore_freezing st) (max_outstanding_work_per_peer st)
     ((λ l, l ++ [e]) <$> hooks st).

Definition add_hook (st : Inner) : Inner :=
  mk (peer_queue st) (frozen_peers st) (ignore_freezing st) (max_outstanding_work_per_peer st)
     (hooks st ++ [[]]).

Record Stats := mk_stats { num_peers : Z; num_active : Z; num_pending : Z }.
(** The body of the loop of [stats]. *)
Definition add_stats (acc : outcome Stats) (kt : PeerId * PeerTracker) : outcome Stats :=
  s ← acc;
  let ts := PeerTracker.stats kt.2 in
  a ← usize_add (num_active s) (PeerTracker.num_active ts);
  p ← usize_add (num_pending s) (PeerTracker.num_pending ts);
  mret (mk_stats (num_peers s) a p).
Definition stats (st : Inner) : outcome Stats :=
  foldl add_stats (mret (mk_stats (kpq_len (peer_queue st)) 0 0)) (kpq_iter (peer_queue st)).

Definition push_tasks (now : Z) (p : PeerId) (ts : list (Task T D)) (st : Inner) : Inner :=
  let '(o, q) := kpq_remove p (peer_queue st) in
  let st := with_queue q st in
  let '(tr, st) :=
    match o with
    | Some tr => (tr, st)
    | None => (PeerTracker.new p (max_outstanding_work_per_peer st), call_hook (PeerAdded p) st)
    end in
  with_queue (kpq_push p (PeerTracker.push_tasks now ts tr) (peer_queue st)) st.

Definition push_task (now : Z) (p : PeerId) (t : Task T D) (st : Inner) : Inner :=
  push_tasks now p [t] st.

Definition pop_tasks (target_min_work : Z) (st : Inner)
    : outcome (option (PeerId * list (Task T D) * Z) * Inner) :=
  match kpq_pop (peer_queue st) with
  | (None, q) => mret (None, with_queue q st)
  | (Some (p, tr), q) =>
      let st := with_queue q st in
      '(out, tr) ← PeerTracker.pop_tasks target_min_work tr;
      pending_work ← PeerTracker.get_pending_work tr;
      let st :=
        if PeerTracker.is_idle tr
        then call_hook (PeerRemoved p) (with_frozen (frozen_peers st ∖ {[p]}) st)
        else with_queue (kpq_push p tr (peer_queue st)) st in
      mret (Some (p, out, pending_work), st)
  end.

(** The loop [for task in tasks { peer_tracker.task_done(task) }]. *)
Fixpoint all_done (ts : list (Task T D)) (tr : PeerTracker) : outcome PeerTracker :=
  match ts with
  | [] => mret tr
  | t :: ts => tr ← PeerTracker.task_done t tr; all_done ts tr
  end.

Definition tasks_done (p : PeerId) (ts : list (Task T D)) (st : Inner) : outcome Inner :=
  match kpq_remove p (peer_queue st) with
  | (None, q) => mret (with_queue q st)
  | (Some tr, q) =>
      tr ← all_done ts tr;
      mret (with_queue (kpq_push p tr q) st)
  end.

Definition remove (k : T) (p : PeerId) (st : Inner) : outcome Inner :=
  match kpq_remove p (peer_queue st) with
  | (None, q) => mret (with_queue q st)
  | (Some tr, q) =>
      let st := with_queue q st in
      let '(removed, tr) := PeerTracker.remove k tr in
      '(tr, st) ← (if removed && negb (ignore_freezing st) then
          let st := if negb (PeerTracker.is_frozen tr)
                    then with_frozen ({[p]} ∪ frozen_peers st) st else st in
          tr ← PeerTracker.freeze tr; mret (tr, st)
        else mret (tr, st));
      mret (with_queue (kpq_push p tr (peer_queue st)) st)
  end.

Definition full_thaw_peer (st : Inner) (p : PeerId) : Inner :=
  match kpq_remove p (peer_queue st) with
  | (None, q) => with_queue q st
  | (Some tr, q) =>
      with_queue (kpq_push p (PeerTracker.full_thaw tr) q)
        (with_frozen (frozen_peers st ∖ {[p]}) st)
  end.

Definition full_thaw (st : Inner) : Inner :=
  foldl full_thaw_peer st (iter_set (frozen_peers st)).

Definition thaw_peer (st : Inner) (p : PeerId) : outcome Inner :=
  match kpq_remove p (peer_queue st) with
  | (None, q) => mret (with_queue q st)
  | (Some tr, q) =>
      '(thawed, tr) ← PeerTracker.thaw tr;
      let st := if (thawed : bool) then with_frozen (frozen_peers st ∖ {[p]}) st else st in
      mret (with_queue (kpq_push p tr q) st)
  end.

Fixpoint thaw_peers (st : Inner) (ps : list PeerId) : outcome Inner :=
  match ps with
  | [] => mret st
  | p :: ps => st ← thaw_peer st p; thaw_peers st ps
  end.

Definition thaw_round (st : Inner) : outcome Inner := thaw_peers st (iter_set (frozen_peers st)).

(** ** Invariant *)
Definition trackers (st : Inner) : gmap PeerId PeerTracker := content (peer_queue st).

(** The last event about [p] delivered to a hook. *)
Definition event_of (p : PeerId) (e : Event) : option bool :=
  match e with
  | PeerAdded p' => if decide (p = p') then Some true else None
  | PeerRemoved p' => if decide (p = p') then Some false else None
  end.
Definition last_event (p : PeerId) (l : list Event) : option bool := last (omap (event_of p) l).

Definition tracker_ok (st : Inner) (p : PeerId) (tr : PeerTracker) : Prop :=
  PeerTracker.inv tr ∧ PeerTracker.peer tr = p.

Record inv (st : Inner) : Prop := {
  inv_tracker : map_Forall (tracker_ok st) (trackers st);
  inv_frozen p : p ∈ frozen_peers st ↔
    ∃ tr, trackers st !! p = Some tr ∧ (0 < PeerTracker.freeze_val tr)%Z;
  inv_hooks l p b : l ∈ hooks st → last_event p l = Some b →
    b = true ↔ is_Some (trackers st !! p)
}.

Lemma last_event_snoc p e l :
  last_event p (l ++ [e]) = match event_of p e with Some b => Some b | None => last_event p l end.
Proof.
  unfold last_event. rewrite omap_app. simpl. destruct (event_of p e); simpl.
  - by rewrite last_snoc.
  - by rewrite app_nil_r.
Qed.

Lemma queue_new_inv ig w : inv (new ig w).
Proof.
  split; unfold trackers; simpl; rewrite ?content_empty.
  - apply map_Forall_empty.
  - intros p. split; [set_solver|]. intros (tr & Htr & _). by simplify_map_eq.
  - by intros l p b ?%elem_of_nil.
Qed.

(** A state after the tracker of [p] is replaced by [tr], with a frozen set that
    agrees with its [freeze_val] and the same hooks. *)
Lemma replace_inv st st' p tr tr' :
  inv st → trackers st !! p = Some tr' → tracker_ok st p tr →
  trackers st' = <[p := tr]> (trackers st) → hooks st' = hooks st →
  (∀ p', p' ∈ frozen_peers st' ↔
     (p' ≠ p ∧ p' ∈ frozen_peers st) ∨ (p' = p ∧ (0 < PeerTracker.freeze_val tr)%Z)) →
  inv st'.
Proof.
  intros Hi Hp Htr Ht Hh Hf. split.
  - rewrite Ht. apply map_Forall_insert_2; [done|]. apply Hi.
  - intros p'. rewrite Hf, Ht. destruct (decide (p' = p)) as [->|Hne].
    + rewrite lookup_insert_eq. naive_solver.
    + rewrite lookup_insert_ne by done. rewrite (inv_frozen _ Hi). naive_solver.
  - intros l p' b Hl He. rewrite Hh in Hl. rewrite (inv_hooks _ Hi l p' b Hl He), Ht.
    destruct (decide (p' = p)) as [->|Hne].
    + rewrite lookup_insert_eq, Hp. by split; eauto.
    + by rewrite lookup_insert_ne.
Qed.

Lemma frozen_same st p tr :
  inv st → trackers st !! p = Some tr →
  ∀ p', p' ∈ frozen_peers st ↔
    (p' ≠ p ∧ p' ∈ frozen_peers st) ∨ (p' = p ∧ (0 < PeerTracker.freeze_val tr)%Z).
Proof.
  intros Hi Hp p'. destruct (decide (p' = p)) as [->|Hne]; [|naive_solver].
  rewrite (inv_frozen _ Hi). naive_solver.
Qed.

Lemma add_hook_inv st : inv st → inv (add_hook st).
Proof.
  intros Hi. split; try apply Hi. intros l p b. simpl. rewrite elem_of_app, list_elem_of_singleton.
  intros [Hl| ->]; [by apply Hi|done].
Qed.

Lemma pushed_peek st p o q :
  inv st → kpq_remove p (peer_queue st) = (o, q) →
  o = trackers st !! p ∧ content q = delete p (trackers st).
Proof. intros _ E. by apply remove_eq in E. Qed.

Lemma with_pushed st st' p tr q :
  content q = delete p (trackers st) → peer_queue st' = kpq_push p tr q →
  trackers st' = <[p := tr]> (trackers st).
Proof.
  intros Hq Hst. unfold trackers at 1. by rewrite Hst, content_push, Hq, insert_delete_eq.
Qed.

(** A state after a tracker for the new peer [p] is added and announced. *)
Lemma added_inv st st' p tr :
  inv st → trackers st !! p = None → tracker_ok st p tr → PeerTracker.freeze_val tr = 0%Z →
  trackers st' = <[p := tr]> (trackers st) → frozen_peers st' = frozen_peers st →
  hooks st' = (λ l, l ++ [PeerAdded p]) <$> hooks st → inv st'.
Proof.
  intros Hi Hp Htr Hf Ht Hfr Hh. split.
  - rewrite Ht. apply map_Forall_insert_2; [done|apply Hi].
  - intros p'. rewrite Hfr, Ht, (inv_frozen _ Hi). destruct (decide (p' = p)) as [->|Hne].
    + rewrite Hp, lookup_insert_eq. naive_solver lia.
    + by rewrite lookup_insert_ne.
  - rewrite Hh. intros l p' b (l0 & -> & Hl0)%list_elem_of_fmap. rewrite Ht, last_event_snoc. simpl.
    case_decide as Hd; [subst|].
    + intros [= <-]. rewrite lookup_insert_eq. by split; eauto.
    + intros He. rewrite (inv_hooks _ Hi _ _ _ Hl0 He). by rewrite lookup_insert_ne.
Qed.

Section push.
Context {tml : TaskMergerLaws T D}.

Lemma push_tasks_freeze now ts (tr : PeerTracker) :
  PeerTracker.freeze_val (PeerTracker.push_tasks now ts tr) = PeerTracker.freeze_val tr ∧
  PeerTracker.peer (PeerTracker.push_tasks now ts tr) = PeerTracker.peer tr.
Proof.
  unfold PeerTracker.push_tasks. revert tr. induction ts as [|t ts IH]; intros tr; simpl; [done|].
  destruct (IH (PeerTracker.push_task now tr t)) as [-> ->].
  unfold PeerTracker.push_task. repeat case_match; done.
Qed.

Lemma queue_push_inv now p ts st :
  inv st → Forall task_ok ts → inv (push_tasks now p ts st).
Proof.
  intros Hi Hts. unfold push_tasks.
  destruct (kpq_remove p (peer_queue st)) as [o q] eqn:E.
  destruct (pushed_peek _ _ _ _ Hi E) as [Ho Hq]. destruct o as [tr|]; simpl.
  - symmetry in Ho. destruct (inv_tracker _ Hi _ _ Ho) as [Hti Htp].
    destruct (push_tasks_freeze now ts tr) as [Hf Hp].
    eapply (replace_inv st _ p (PeerTracker.push_tasks now ts tr) tr); try done.
    + split; [by apply PeerTracker.push_tasks_inv|congruence].
    + by eapply with_pushed.
    + simpl. rewrite Hf. by apply frozen_same.
  - destruct (push_tasks_freeze now ts (PeerTracker.new p (max_outstanding_work_per_peer st)))
      as [Hf Hp].
    eapply (added_inv st); try done.
    + split; [apply PeerTracker.push_tasks_inv; [apply PeerTracker.new_inv|done]|done].
    + by eapply with_pushed.
Qed.
End push.

Lemma get_pending_work_ok (tr : PeerTracker) :
  PeerTracker.inv tr → (PeerTracker.pending_total tr ≤ usize_max)%Z →
  PeerTracker.get_pending_work tr = Done (PeerTracker.pending_total tr).
Proof.
  intros Hi Hmax. unfold PeerTracker.get_pending_work, PeerTracker.pending_total in *.
  rewrite map_sum_to_list in *.
  assert ((λ kq : T * QueueTask T D, work (task kq.2)) <$> kpq_iter (PeerTracker.pending_tasks tr) ≡ₚ
    (λ q, work (task q)) <$> (map_to_list (PeerTracker.pending_map tr)).*2) as Hp.
  { rewrite iter_perm, <-list_fmap_compose. done. }
  rewrite (usize_sum_ok _); [by rewrite (Zsum_perm _ _ Hp)| |by rewrite (Zsum_perm _ _ Hp)].
  rewrite Hp, <-list_fmap_compose. apply Forall_fmap, Forall_forall.
  intros [k q] Hq%elem_of_map_to_list. simpl.
  destruct (PeerTracker.inv_pending _ Hi _ _ Hq) as (_ & _ & ? & _). lia.
Qed.

Lemma is_idle_true (tr : PeerTracker) : PeerTracker.is_idle tr = true →
  PeerTracker.pending_map tr = ∅ ∧ PeerTracker.active_tasks tr = ∅.
Proof.
  unfold PeerTracker.is_idle, kpq_is_empty.
  by intros [?%bool_decide_eq_true ?%bool_decide_eq_true]%andb_true_iff.
Qed.

Lemma queue_pop_inv tmw st o st' : inv st → pop_tasks tmw st = Done (o, st') → inv st'.
Proof.
  intros Hi. unfold pop_tasks. destruct (kpq_pop (peer_queue st)) as [[[p tr]|] q] eqn:E.
  - intros Hrun. inv_outcome. destruct a as [out tr']. inv_outcome.
    destruct (pop_eq _ _ _ E) as [Hp Hq]. fold (trackers st) in Hp, Hq.
    destruct (inv_tracker _ Hi _ _ Hp) as [Hti Htp].
    destruct (PeerTracker.pop_tasks_sound _ _ _ _ Hti Ha) as (qs & _ & Hpop).
    destruct (PeerTracker.is_idle tr') eqn:Hidle.
    + split.
      * unfold trackers; simpl. rewrite Hq. apply map_Forall_delete, Hi.
      * intros p'. unfold trackers; simpl. rewrite Hq.
        destruct (decide (p' = p)) as [->|Hne].
        -- rewrite lookup_delete_eq. set_solver.
        -- rewrite lookup_delete_ne by done. rewrite <-(inv_frozen _ Hi). set_solver.
      * intros l p' b (l0 & -> & Hl0)%list_elem_of_fmap. rewrite last_event_snoc. simpl.
        unfold trackers; simpl. rewrite Hq. case_decide as Hd; [subst|].
        -- intros [= <-]. rewrite lookup_delete_eq. by split; [|intros []].
        -- intros He. rewrite (inv_hooks _ Hi _ _ _ Hl0 He). by rewrite lookup_delete_ne.
    + eapply (replace_inv st _ p tr' tr); try done.
      * split; [apply Hpop|]. rewrite (PeerTracker.popped_peer _ _ _ _ _ Hpop). done.
      * by eapply with_pushed.
      * simpl. rewrite (PeerTracker.popped_freeze _ _ _ _ _ Hpop). by apply frozen_same.
  - intros Hrun. inv_outcome. destruct (pop_eq _ _ _ E) as [Hp Hq]. fold (trackers st) in Hp.
    assert (trackers (with_queue q st) = trackers st) as Ht by (rewrite Hp; exact Hq).
    split; rewrite ?Ht; try apply Hi.
Qed.

Lemma all_done_ok ts (tr : PeerTracker) :
  PeerTracker.inv tr →
  ∃ tr', all_done ts tr = Done tr' ∧ PeerTracker.inv tr' ∧
    PeerTracker.freeze_val tr' = PeerTracker.freeze_val tr ∧
    PeerTracker.peer tr' = PeerTracker.peer tr ∧
    PeerTracker.pending_tasks tr' = PeerTracker.pending_tasks tr.
Proof.
  revert tr. induction ts as [|t ts IH]; intros tr Hi; simpl; [by exists tr|].
  destruct (PeerTracker.task_done_ok t tr Hi) as (tr1 & -> & Hi1 & _ & _ & Hp & Hf & Hpe). simpl.
  destruct (IH tr1 Hi1) as (tr2 & -> & ? & ? & ? & ?). exists tr2. split_and!; congruence || done.
Qed.

Lemma absent_inv st p q :
  inv st → kpq_remove p (peer_queue st) = (None, q) → inv (with_queue q st).
Proof.
  intros Hi E. destruct (pushed_peek _ _ _ _ Hi E) as [Ho Hq].
  assert (trackers (with_queue q st) = trackers st) as Ht.
  { unfold trackers at 1; simpl. rewrite Hq. by apply delete_id. }
  split; rewrite ?Ht; try apply Hi.
Qed.

Lemma tasks_done_ok p ts st : inv st → ∃ st', tasks_done p ts st = Done st' ∧ inv st'.
Proof.
  intros Hi. unfold tasks_done. destruct (kpq_remove p (peer_queue st)) as [[tr|] q] eqn:E.
  - destruct (pushed_peek _ _ _ _ Hi E) as [Ho Hq]. symmetry in Ho.
    destruct (inv_tracker _ Hi _ _ Ho) as [Hti Htp].
    destruct (all_done_ok ts tr Hti) as (tr' & Hrun & Hi' & Hf & Hpe & _). rewrite Hrun. simpl.
    eexists. split; [done|]. eapply (replace_inv st _ p tr' tr); try done.
    + split; [done|congruence].
    + by eapply with_pushed.
    + simpl. rewrite Hf. by apply frozen_same.
  - eexists. split; [done|]. by eapply absent_inv.
Qed.

Lemma queue_remove_inv k p st st' : inv st → remove k p st = Done st' → inv st'.
Proof.
  intros Hi. unfold remove. destruct (kpq_remove p (peer_queue st)) as [[tr|] q] eqn:E;
    [|intros; inv_outcome; by eapply absent_inv].
  destruct (pushed_peek _ _ _ _ Hi E) as [Ho Hq]. symmetry in Ho.
  destruct (inv_tracker _ Hi _ _ Ho) as [Hti Htp].
  pose proof (PeerTracker.remove_inv k tr Hti) as Hri.
  assert (PeerTracker.freeze_val (PeerTracker.remove k tr).2 = PeerTracker.freeze_val tr ∧
    PeerTracker.peer (PeerTracker.remove k tr).2 = PeerTracker.peer tr) as [Hrf Hrp].
  { unfold PeerTracker.remove. by destruct (kpq_remove k _). }
  destruct (PeerTracker.remove k tr) as [b tr1] eqn:Er. simpl in *.
  destruct (b && negb (ignore_freezing st)).
  - intros Hrun. inv_outcome.
    destruct (decide (PeerTracker.freeze_val tr1 < isize_max)%Z) as [Hlt|Hge]; last first.
    { pose proof (PeerTracker.inv_freeze _ Hri). unfold PeerTracker.freeze, isize_add, checked in Ha0.
      rewrite bool_decide_eq_false_2 in Ha0 by lia. done. }
    destruct (PeerTracker.freeze_ok _ Hri Hlt) as [Hfr Hfi]. rewrite Hfr in Ha0. simplify_eq.
    pose proof (PeerTracker.inv_freeze _ Hri).
    eapply (replace_inv st _ _ (PeerTracker.with_freeze (PeerTracker.freeze_val tr1 + 1) tr1) tr); try done.
    + unfold trackers; simpl. rewrite content_push.
      by destruct (negb (PeerTracker.is_frozen tr1)); simpl; rewrite Hq, insert_delete_eq.
    + by destruct (negb (PeerTracker.is_frozen tr1)).
    + intros p'. simpl. unfold PeerTracker.is_frozen. rewrite Hrf in *.
      pose proof (frozen_same st _ tr Hi Ho p') as Hs.
      case_bool_decide; simpl; [rewrite Hs; naive_solver lia|].
      rewrite elem_of_union, elem_of_singleton. naive_solver lia.
  - intros Hrun. inv_outcome. eapply (replace_inv st _ _ tr1 tr); try done.
    + by eapply with_pushed.
    + simpl. rewrite Hrf. by apply frozen_same.
Qed.

Lemma full_thaw_peer_inv st p : inv st → inv (full_thaw_peer st p).
Proof.
  intros Hi. unfold full_thaw_peer. destruct (kpq_remove p (peer_queue st)) as [[tr|] q] eqn:E;
    [|by eapply absent_inv].
  destruct (pushed_peek _ _ _ _ Hi E) as [Ho Hq]. symmetry in Ho.
  destruct (inv_tracker _ Hi _ _ Ho) as [Hti Htp].
  eapply (replace_inv st _ p (PeerTracker.full_thaw tr) tr); try done.
  - split; [by apply PeerTracker.full_thaw_inv|done].
  - by eapply with_pushed.
  - intros p'. simpl. set_solver by lia.
Qed.

Lemma queue_full_thaw_inv st : inv st → inv (full_thaw st).
Proof.
  unfold full_thaw. generalize (iter_set (frozen_peers st)) as ps. intros ps.
  revert st. induction ps as [|p ps IH]; intros st Hi; simpl; [done|].
  by apply IH, full_thaw_peer_inv.
Qed.

(** ** Thawing *)
Definition halve (tr : PeerTracker) : PeerTracker :=
  PeerTracker.with_freeze (PeerTracker.freeze_val tr / 2) tr.

Definition freezes_in_range (st : Inner) : Prop :=
  map_Forall (λ _ tr, PeerTracker.freeze_val tr < isize_max)%Z (trackers st).

Lemma thaw_peer_ok st p :
  inv st → freezes_in_range st →
  ∃ st', thaw_peer st p = Done st' ∧ inv st' ∧ trackers st' = alter halve p (trackers st).
Proof.
  intros Hi Hr. unfold thaw_peer. destruct (kpq_remove p (peer_queue st)) as [[tr|] q] eqn:E.
  - destruct (pushed_peek _ _ _ _ Hi E) as [Ho Hq]. symmetry in Ho.
    destruct (inv_tracker _ Hi _ _ Ho) as [Hti Htp].
    destruct (PeerTracker.thaw_ok tr Hti (Hr _ _ Ho)) as [Hrun Hti']. rewrite Hrun. simpl.
    pose proof (PeerTracker.inv_freeze _ Hti'). simpl in *. fold (halve tr) in *.
    eexists. split; [done|].
    assert (trackers (with_queue (kpq_push p (halve tr) q)
      (if bool_decide (PeerTracker.freeze_val tr / 2 ≤ 0)%Z
       then with_frozen (frozen_peers st ∖ {[p]}) st else st)) = <[p := halve tr]> (trackers st)) as Ht.
    { case_bool_decide; by eapply with_pushed. }
    split; [|rewrite Ht; apply map_eq; intros p'; destruct (decide (p' = p)) as [->|Hne];
      [by rewrite lookup_insert_eq, lookup_alter_eq, Ho|by rewrite lookup_insert_ne, lookup_alter_ne]].
    eapply (replace_inv st _ p (halve tr) tr); try done.
    + by case_bool_decide.
    + intros p'. unfold halve; simpl. pose proof (frozen_same st p tr Hi Ho p').
      case_bool_decide; simpl; [set_solver by lia|].
      assert (0 < PeerTracker.freeze_val tr)%Z; [|naive_solver lia].
      destruct (decide (PeerTracker.freeze_val tr = 0%Z)) as [Hz|]; [by rewrite Hz in *|].
      pose proof (PeerTracker.inv_freeze _ Hti). lia.
  - eexists. split; [done|]. split; [by eapply absent_inv|].
    destruct (pushed_peek _ _ _ _ Hi E) as [Ho Hq].
    unfold trackers at 1; simpl. rewrite Hq. apply map_eq. intros p'.
    destruct (decide (p' = p)) as [->|Hne].
    + by rewrite lookup_delete_eq, lookup_alter_eq, <-Ho.
    + by rewrite lookup_delete_ne, lookup_alter_ne.
Qed.

Lemma halve_range (m : gmap PeerId PeerTracker) p :
  map_Forall (λ _ (tr : PeerTracker), PeerTracker.freeze_val tr < isize_max)%Z m →
  map_Forall (λ _ tr, PeerTracker.freeze_val tr < isize_max)%Z (alter halve p m).
Proof.
  intros Hr p' tr. destruct (decide (p' = p)) as [->|Hne].
  - rewrite lookup_alter_eq. intros (tr0 & Htr0 & ->)%fmap_Some_1. unfold halve. simpl.
    specialize (Hr _ _ Htr0). simpl in Hr. pose proof (Z.div_mod (PeerTracker.freeze_val tr0) 2).
    pose proof (Z.mod_pos_bound (PeerTracker.freeze_val tr0) 2). unfold isize_max in *. lia.
  - rewrite lookup_alter_ne by done. apply Hr.
Qed.

Lemma thaw_peers_ok ps st :
  inv st → freezes_in_range st → NoDup ps →
  ∃ st', thaw_peers st ps = Done st' ∧ inv st' ∧
    ∀ p, trackers st' !! p = (if decide (p ∈ ps) then halve <$> trackers st !! p else trackers st !! p).
Proof.
  revert st. induction ps as [|p ps IH]; intros st Hi Hr Hnd; simpl.
  { by exists st. }
  apply NoDup_cons in Hnd as [Hp Hnd].
  destruct (thaw_peer_ok st p Hi Hr) as (st1 & -> & Hi1 & Ht1). simpl.
  destruct (IH st1 Hi1) as (st2 & -> & Hi2 & Ht2); [|done|].
  { unfold freezes_in_range. rewrite Ht1. by apply halve_range. }
  exists st2. split_and!; [done|done|]. intros p'. rewrite Ht2, Ht1.
  destruct (decide (p' = p)) as [->|Hne].
  - rewrite decide_False by done. rewrite decide_True by set_solver. by rewrite lookup_alter_eq.
  - rewrite lookup_alter_ne by done. destruct (decide (p' ∈ ps)).
    + by rewrite decide_True by set_solver.
    + by rewrite decide_False by set_solver.
Qed.

Lemma halve_unfrozen tr : PeerTracker.freeze_val tr = 0%Z → halve tr = tr.
Proof. destruct tr. unfold halve, PeerTracker.with_freeze. simpl. by intros ->. Qed.

Lemma thaw_round_ok st :
  inv st → freezes_in_range st →
  ∃ st', thaw_round st = Done st' ∧ inv st' ∧ trackers st' = halve <$> trackers st.
Proof.
  intros Hi Hr. destruct (thaw_peers_ok (iter_set (frozen_peers st)) st Hi Hr) as (st' & Hrun & Hi' & Ht);
    [apply NoDup_iter_set|].
  exists st'. split_and!; [done|done|]. apply map_eq. intros p. rewrite Ht, lookup_fmap.
  case_decide as Hp; [done|]. rewrite elem_of_iter_set, (inv_frozen _ Hi) in Hp.
  destruct (trackers st !! p) as [tr|] eqn:E; [|done]. simpl. f_equal. symmetry. apply halve_unfrozen.
  destruct (inv_tracker _ Hi _ _ E) as [Hti _]. pose proof (PeerTracker.inv_freeze _ Hti).
  destruct (decide (0 < PeerTracker.freeze_val tr)%Z); [|lia]. exfalso. eauto.
Qed.

Fixpoint thaw_rounds (n : nat) (st : Inner) : outcome Inner :=
  match n with O => mret st | S n => st ← thaw_round st; thaw_rounds n st end.

Lemma thaw_rounds_ok n st :
  inv st → map_Forall (λ _ tr, PeerTracker.freeze_val tr < 2 ^ Z.of_nat n)%Z (trackers st) →
  freezes_in_range st →
  ∃ st', thaw_rounds n st = Done st' ∧ inv st' ∧ frozen_peers st' = ∅ ∧ dom (trackers st') = dom (trackers st).
Proof.
  revert st. induction n as [|n IH]; intros st Hi Hn Hr; simpl.
  { exists st. split_and!; try done. apply set_eq. intros p. rewrite (inv_frozen _ Hi).
    split; [|set_solver]. intros (tr & Htr & Hf). specialize (Hn _ _ Htr). simpl in Hn. lia. }
  destruct (thaw_round_ok st Hi Hr) as (st1 & -> & Hi1 & Ht1). simpl.
  destruct (IH st1 Hi1) as (st2 & -> & Hi2 & Hf2 & Hd2).
  - rewrite Ht1. intros p tr. rewrite lookup_fmap. intros (tr0 & Htr0 & ->)%fmap_Some_1.
    unfold halve; simpl. specialize (Hn _ _ Htr0). cbn beta in Hn.
    rewrite Nat2Z.inj_succ, Z.pow_succ_r in Hn by lia. apply Z.div_lt_upper_bound; lia.
  - unfold freezes_in_range. rewrite Ht1. intros p tr. rewrite lookup_fmap.
    intros (tr0 & Htr0 & ->)%fmap_Some_1.
    pose proof (halve_range _ p Hr p (halve tr0)) as Hh. apply Hh. by rewrite lookup_alter_eq, Htr0.
  - exists st2. split_and!; try done. by rewrite Hd2, Ht1, dom_fmap_L.
Qed.

(** ** The transitions of a queue *)
Inductive step : Inner → Inner → Prop :=
  | step_add_hook st : step st (add_hook st)
  | step_push now p ts st : Forall task_ok ts → step st (push_tasks now p ts st)
  | step_pop tmw st o st' : pop_tasks tmw st = Done (o, st') → step st st'
  | step_done p ts st st' : tasks_done p ts st = Done st' → step st st'
  | step_remove k p st st' : remove k p st = Done st' → step st st'
  | step_full_thaw st : step st (full_thaw st)
  | step_thaw_round st st' : freezes_in_range st → thaw_round st = Done st' → step st st'.

Lemma step_inv {tml : TaskMergerLaws T D} st st' : step st st' → inv st → inv st'.
Proof.
  destruct 1; intros Hi.
  - by apply add_hook_inv.
  - by apply queue_push_inv.
  - by eapply queue_pop_inv.
  - destruct (tasks_done_ok p ts st Hi) as (st1 & ? & ?). congruence.
  - by eapply queue_remove_inv.
  - by apply queue_full_thaw_inv.
  - destruct (thaw_round_ok st Hi) as (st1 & ? & ? & _); [done|]. congruence.
Qed.

Lemma reachable_inv {tml : TaskMergerLaws T D} ig w st : rtc step (new ig w) st → inv st.
Proof.
  intros Hr. assert (∀ s, rtc step s st → inv s → inv st) as Hs.
  { induction 1; [done|]. intros. eauto using step_inv. }
  eapply Hs; [done|]. apply queue_new_inv.
Qed.

Lemma queue_pop_ok tmw st :
  inv st →
  (∀ p tr, trackers st !! p = Some tr →
     (PeerTracker.active_work tr + PeerTracker.pending_total tr ≤ usize_max)%Z) →
  ∃ o st', pop_tasks tmw st = Done (o, st') ∧
    match o with
    | None => trackers st = ∅ ∧ trackers st' = ∅
    | Some (p, out, pw) => ∃ tr tr', trackers st !! p = Some tr ∧
        PeerTracker.pop_tasks tmw tr = Done (out, tr') ∧ pw = PeerTracker.pending_total tr' ∧
        trackers st' = if PeerTracker.is_idle tr' then delete p (trackers st)
                       else <[p := tr']> (trackers st)
    end.
Proof.
  intros Hi Hw. unfold pop_tasks. destruct (kpq_pop (peer_queue st)) as [[[p tr]|] q] eqn:E.
  - destruct (pop_eq _ _ _ E) as [Hp Hq]. fold (trackers st) in Hp, Hq.
    destruct (inv_tracker _ Hi _ _ Hp) as [Hti _].
    destruct (PeerTracker.pop_tasks_ok tmw tr Hti (Hw _ _ Hp)) as (qs & tr' & Hrun & Hpop).
    rewrite Hrun. simpl.
    pose proof (PeerTracker.active_work_nonneg _ Hti). specialize (Hw _ _ Hp).
    rewrite get_pending_work_ok; [|apply Hpop|].
    + simpl. eexists _, _. split; [done|]. exists tr, tr'. split_and!; try done.
      destruct (PeerTracker.is_idle tr'); [done|]. by eapply with_pushed.
    + pose proof (PeerTracker.pending_total_mono _ _ Hti (PeerTracker.pops_sub _ _ _ (PeerTracker.popped_pops _ _ _ _ _ Hpop))).
      lia.
  - destruct (pop_eq _ _ _ E) as [Hp Hq]. by eexists _, _.
Qed.

(** ** What single operations do to the trackers *)
Lemma push_trackers now p ts st :
  trackers (push_tasks now p ts st) =
    <[p := PeerTracker.push_tasks now ts
             (default (PeerTracker.new p (max_outstanding_work_per_peer st)) (trackers st !! p))]>
      (trackers st) ∧
  ignore_freezing (push_tasks now p ts st) = ignore_freezing st ∧
  max_outstanding_work_per_peer (push_tasks now p ts st) = max_outstanding_work_per_peer st.
Proof.
  unfold push_tasks. destruct (kpq_remove p (peer_queue st)) as [o q] eqn:E.
  destruct (remove_eq _ _ _ _ E) as [Ho Hq]. fold (trackers st) in Ho, Hq. rewrite <-Ho.
  destruct o as [tr|]; simpl; (split; [|done]); by eapply with_pushed.
Qed.

(** With freezing ignored, cancelling only takes the pending task away. *)
Lemma remove_ignoring k p st :
  ignore_freezing st = true →
  ∃ st', remove k p st = Done st' ∧
    trackers st' = alter (λ tr, (PeerTracker.remove k tr).2) p (trackers st) ∧
    ignore_freezing st' = true ∧
    max_outstanding_work_per_peer st' = max_outstanding_work_per_peer st.
Proof.
  intros Hig. unfold remove. destruct (kpq_remove p (peer_queue st)) as [o q] eqn:E.
  destruct (remove_eq _ _ _ _ E) as [Ho Hq]. fold (trackers st) in Ho, Hq. symmetry in Ho.
  destruct o as [tr|].
  - destruct (PeerTracker.remove k tr) as [b tr'] eqn:Er. simpl. rewrite Hig, andb_false_r. simpl.
    eexists. split; [done|]. split; [|done].
    erewrite with_pushed by done. apply map_eq. intros p'. destruct (decide (p' = p)) as [->|Hne].
    + by rewrite lookup_insert_eq, lookup_alter_eq, Ho; simpl; rewrite Er.
    + by rewrite lookup_insert_ne, lookup_alter_ne.
  - eexists. split; [done|]. split; [|done]. unfold trackers at 1; simpl. rewrite Hq.
    apply map_eq. intros p'. destruct (decide (p' = p)) as [->|Hne].
    + by rewrite lookup_delete_eq, lookup_alter_eq, Ho.
    + by rewrite lookup_delete_ne, lookup_alter_ne.
Qed.

(** The number of tasks and topics in the queue, which the statistics count. *)
Definition tracker_load (tr : PeerTracker) : Z :=
  (map_len (PeerTracker.pending_map tr) + map_len (PeerTracker.active_tasks tr))%Z.
Definition load (st : Inner) : Z := map_sum tracker_load (trackers st).

Lemma tracker_load_nonneg tr : (0 ≤ tracker_load tr)%Z.
Proof. unfold tracker_load, map_len. lia. Qed.

Lemma stats_fold_ok (l : list (PeerId * PeerTracker)) s :
  (0 ≤ num_active s)%Z → (0 ≤ num_pending s)%Z →
  (num_active s + num_pending s + Zsum ((λ kt, tracker_load kt.2) <$> l) ≤ usize_max)%Z →
  ∃ s', foldl add_stats (Done s) l = Done s'.
Proof.
  revert s. induction l as [|[p tr] l IH]; intros s Ha Hp Hs; simpl in *; [by exists s|].
  assert (0 ≤ Zsum ((λ kt : PeerId * PeerTracker, tracker_load kt.2) <$> l))%Z.
  { apply Zsum_nonneg, Forall_fmap, Forall_forall. intros [??] _. apply tracker_load_nonneg. }
  unfold tracker_load, kpq_len, PeerTracker.pending_map, map_len, fmap in *.
  rewrite usize_add_ok by (simpl; lia). simpl. rewrite usize_add_ok by (simpl; lia). simpl.
  apply IH; simpl; lia.
Qed.

Lemma stats_ok st : (load st ≤ usize_max)%Z → ∃ s, stats st = Done s.
Proof.
  intros Hl. apply stats_fold_ok; [done|done|]. simpl. unfold load in Hl. rewrite map_sum_to_list in Hl.
  erewrite Zsum_perm; [exact Hl|]. by rewrite <-list_fmap_compose, iter_perm.
Qed.

Lemma push_load now ts (tr : PeerTracker) :
  (tracker_load (PeerTracker.push_tasks now ts tr) ≤ tracker_load tr + vec_len ts)%Z.
Proof.
  unfold PeerTracker.push_tasks, vec_len. revert tr.
  induction ts as [|t ts IH]; intros tr; simpl; [lia|].
  etransitivity; [apply IH|].
  assert (tracker_load (PeerTracker.push_task now tr t) ≤ tracker_load tr + 1)%Z; [|lia].
  unfold PeerTracker.push_task. destruct (negb _); [lia|].
  destruct (kpq_remove _ _) as [o q] eqn:E. destruct (remove_eq _ _ _ _ E) as [Ho Hq].
  unfold tracker_load, PeerTracker.pending_map, map_len.
  destruct o as [e|]; simpl; rewrite content_push, Hq, insert_delete_eq.
  - rewrite map_size_insert_Some by (rewrite <-Ho; eauto). lia.
  - rewrite map_size_insert_None by done. lia.
Qed.

Lemma load_insert st p tr :
  map_sum tracker_load (<[p := tr]> (trackers st)) =
    (load st - from_option tracker_load 0%Z (trackers st !! p) + tracker_load tr)%Z.
Proof.
  unfold load. destruct (trackers st !! p) as [tr0|] eqn:E; simpl.
  - by apply map_sum_update.
  - rewrite map_sum_insert by done. lia.
Qed.

Lemma push_tasks_load now p ts st : (load (push_tasks now p ts st) ≤ load st + vec_len ts)%Z.
Proof.
  unfold load at 1. destruct (push_trackers now p ts st) as [-> _]. rewrite load_insert.
  pose proof (push_load now ts
    (default (PeerTracker.new p (max_outstanding_work_per_peer st)) (trackers st !! p))) as Hl.
  assert (tracker_load (PeerTracker.new p (max_outstanding_work_per_peer st)) = 0%Z) as Hn.
  { unfold tracker_load, PeerTracker.pending_map, map_len. simpl. by rewrite content_empty, !map_size_empty. }
  destruct (trackers st !! p); simpl in *; lia.
Qed.
End ptq.
End PeerTaskQueue.

(** ** Properties *)
Module PeerTaskQueueClaims.
Export PeerTaskQueue.
Section claims.
Context {T D : Type} `{Countable T} `{EqDecision D} {ids : Ids} {ho : HashOrder}.
Context {dr : DataRange D} {tm : TaskMerger T D}.
Context {kpq : KeyedPriorityQueue T (QueueTask T D) QueueTask_cmp}.
Context {pkpq : KeyedPriorityQueue PeerId PeerTracker.PeerTracker PeerTracker.PeerTracker_cmp}.

(** C12: in every reachable state of the task queue (any interleaving of pushes,
    pops, completions, cancellations and thaws, by any peers) each tracker is
    well formed and filed under its own peer, the frozen set is exactly the set
    of queued peers with a positive freeze value, and for every hook the last
    event about a peer tells whether that peer is in the queue. *)
Theorem queue_invariant {tml : TaskMergerLaws T D} (ig : bool) (w : Z) (st : Inner) :
  rtc step (new ig w) st →
  map_Forall (λ p tr, PeerTracker.inv tr ∧ PeerTracker.peer tr = p) (trackers st) ∧
  (∀ p, p ∈ frozen_peers st ↔
     ∃ tr, trackers st !! p = Some tr ∧ (0 < PeerTracker.freeze_val tr)%Z) ∧
  (∀ l p b, l ∈ hooks st → last_event p l = Some b → b = true ↔ is_Some (trackers st !! p)).
Proof. intros Hr%reachable_inv. split_and!; apply Hr. Qed.

(** Popping from the queue of all peers returns whenever the work of each
    peer fits a [usize]; it serves one queued peer as [PeerTracker::pop_tasks]
    does, reports the work left pending for it, drops the peer exactly when it
    has become idle and leaves every other peer alone. *)
Theorem queue_pop_spec (tmw : Z) (st : Inner) :
  inv st →
  (∀ p tr, trackers st !! p = Some tr →
     (PeerTracker.active_work tr + PeerTracker.pending_total tr ≤ usize_max)%Z) →
  ∃ o st', pop_tasks tmw st = Done (o, st') ∧ inv st' ∧
    match o with
    | None => trackers st = ∅
    | Some (p, out, pw) => ∃ tr tr', trackers st !! p = Some tr ∧
        PeerTracker.pop_tasks tmw tr = Done (out, tr') ∧ pw = PeerTracker.pending_total tr' ∧
        trackers st' = if PeerTracker.is_idle tr' then delete p (trackers st)
                       else <[p := tr']> (trackers st)
    end.
Proof.
  intros Hi Hw. destruct (queue_pop_ok tmw st Hi Hw) as (o & st' & Hrun & Hspec).
  exists o, st'. split_and!; [done|by eapply queue_pop_inv|].
  destruct o as [[[p out] pw]|]; [done|by destruct Hspec].
Qed.

(** Thawing is live.  A round of [thaw_round] halves the freeze value of
    every frozen peer, so after [n] rounds no peer whose freeze value was below
    [2^n] is frozen: all peers are unfrozen, none is lost. *)
Theorem thaw_rounds_unfreeze (n : nat) (st : Inner) :
  inv st → map_Forall (λ _ tr, PeerTracker.freeze_val tr < 2 ^ Z.of_nat n)%Z (trackers st) →
  map_Forall (λ _ tr, PeerTracker.freeze_val tr < isize_max)%Z (trackers st) →
  ∃ st', thaw_rounds n st = Done st' ∧ frozen_peers st' = ∅ ∧
    (∀ p tr, trackers st' !! p = Some tr → PeerTracker.freeze_val tr = 0%Z) ∧
    dom (trackers st') = dom (trackers st).
Proof.
  intros Hi Hn Hr. destruct (thaw_rounds_ok n st Hi Hn Hr) as (st' & Hrun & Hi' & Hf & Hd).
  exists st'. split_and!; try done. intros p tr Htr.
  destruct (inv_tracker _ Hi' _ _ Htr) as [Hti _]. pose proof (PeerTracker.inv_freeze _ Hti).
  destruct (decide (0 < PeerTracker.freeze_val tr)%Z) as [Hpos|]; [|lia].
  assert (p ∈ frozen_peers st') by (apply (inv_frozen _ Hi'); eauto). set_solver.
Qed.
End claims.
End PeerTaskQueueClaims.

Module PeerTaskQueueWitness.
Export TrackerDemo PeerTaskQueueClaims PeerTaskQueue.
#[local] Instance demo_order : HashOrder := key_order.
#[local] Instance demo_peers : KeyedPriorityQueue PeerId PeerTracker.PeerTracker PeerTracker.PeerTracker_cmp :=
  map_queue PeerTracker.PeerTracker_cmp.

Definition start : Inner := new false 0.
Definition queued : Inner := push_tasks 0 7 [t1; t2; t3] (add_hook start).

Definition cancelled : Inner := run_or queued (remove 2 7 queued).

Lemma cancelled_run : remove 2 7 queued = Done cancelled.
Proof. apply run_or_Done. vm_compute. reflexivity. Qed.

Lemma cancelled_reachable : rtc step start cancelled.
Proof.
  apply (rtc_l _ _ (add_hook start)); [apply step_add_hook|].
  apply (rtc_l _ _ queued); [apply step_push|].
  - repeat (constructor; [split; [unfold usize_max; simpl; lia|done]|]). constructor.
  - apply rtc_once. eapply step_remove, cancelled_run.
Qed.

Lemma queue_invariant_witness :
  elements (frozen_peers cancelled) = [7] ∧ hooks cancelled = [[PeerAdded 7]] ∧
  (7 ∈ frozen_peers cancelled ↔
     ∃ tr, trackers cancelled !! 7 = Some tr ∧ (0 < PeerTracker.freeze_val tr)%Z).
Proof.
  split; [vm_compute; reflexivity|]. split; [vm_compute; reflexivity|].
  apply (proj1 (proj2 (queue_invariant false 0 cancelled cancelled_reachable)) 7).
Defined.

(** Checks a decidable condition on every tracker of a concrete state. *)
Lemma trackers_forall (P : PeerTracker.PeerTracker → Prop) `{∀ tr, Decision (P tr)} (st : Inner) :
  forallb (λ tr, bool_decide (P tr)) (map_to_list (trackers st)).*2 = true →
  ∀ p tr, trackers st !! p = Some tr → P tr.
Proof.
  intros Hall p tr Htr. apply forallb_forall with (x := tr) in Hall; [by apply bool_decide_eq_true in Hall|].
  apply list_elem_of_In, list_elem_of_fmap. exists (p, tr). split; [done|]. by apply elem_of_map_to_list.
Qed.

Lemma queue_pop_spec_witness :
  fst <$> pop_tasks 7 queued = Done (Some (7, [t1; t2], 5%Z)) ∧
  ∃ o st', pop_tasks 7 queued = Done (o, st') ∧ inv st'.
Proof.
  split; [vm_compute; reflexivity|].
  destruct (queue_pop_spec 7 queued) as (o & st' & Hrun & Hi & _).
  - apply queue_push_inv; [apply add_hook_inv, queue_new_inv|].
    repeat (constructor; [split; [unfold usize_max; simpl; lia|done]|]). constructor.
  - refine (trackers_forall (λ tr, PeerTracker.active_work tr + PeerTracker.pending_total tr ≤ usize_max)%Z _ _).
    vm_compute. reflexivity.
  - exists o, st'. split; [exact Hrun|exact Hi].
Defined.

Lemma thaw_rounds_unfreeze_witness :
  ∃ st', thaw_rounds 1 cancelled = Done st' ∧ frozen_peers st' = ∅.
Proof.
  destruct (thaw_rounds_unfreeze 1 cancelled) as (st' & Hrun & Hf & _).
  - eapply reachable_inv, cancelled_reachable.
  - refine (trackers_forall (λ tr, PeerTracker.freeze_val tr < 2 ^ Z.of_nat 1)%Z _ _). vm_compute. reflexivity.
  - refine (trackers_forall (λ tr, PeerTracker.freeze_val tr < isize_max)%Z _ _). vm_compute. reflexivity.
  - exists st'. split; [exact Hrun|exact Hf].
Defined.
End PeerTaskQueueWitness.
