(* ===== verification/Protobuf.v ===== *)
(** * Protocol buffer messages

    The crate [quick_protobuf] (a dependency) writes and reads single fields;
    the message types under unixfs/src/pb/ say which fields a message has and
    how its size is computed.  [QuickProtobuf] is the interface to the crate:
    its primitive types with their documented round trips and sizes.  Everything
    about whole messages (the reader loop, [from_reader], [write_message] and
    [get_size] of each message) is a definition, and the round trip of every
    message is a theorem. *)
From stdpp Require Import base gmap list strings.
From Stdlib Require Import Strings.Byte.
From S2P Require Import Prelude.
Local Open Scope Z_scope.

(** A primitive type of the wire format: the values in the range [P] are written
    and read back, and reading never makes the input longer. *)
Record wire_type (E A : Type) (P : A → Prop) := WireType {
  wr : A → list byte;
  rd : list byte → result (A * list byte) E;
  rd_wr : ∀ a rest, P a → rd (wr a ++ rest) = Ok (a, rest);
  rd_shrinks : ∀ bs a rest, rd bs = Ok (a, rest) → (length rest ≤ length bs)%nat;
}.
Arguments wr {E A P}.
Arguments rd {E A P}.
Arguments rd_wr {E A P}.
Arguments rd_shrinks {E A P}.

(** The longest length-delimited field: protocol buffers are limited to 2 GiB. *)
Definition pb_limit : Z := 2 ^ 31.

Class QuickProtobuf := {
  PbError : Type;
  (** [next_tag] / [write_tag] *)
  tag : wire_type PbError Z (λ t, 0 ≤ t < 2 ^ 32);
  tag_progress : ∀ bs t rest, rd tag bs = Ok (t, rest) → (length rest < length bs)%nat;
  uint64 : wire_type PbError Z (λ v, 0 ≤ v < 2 ^ 64);
  uint32 : wire_type PbError Z (λ v, 0 ≤ v < 2 ^ 32);
  int32 : wire_type PbError Z (λ v, - 2 ^ 31 ≤ v < 2 ^ 31);
  int64 : wire_type PbError Z (λ v, - 2 ^ 63 ≤ v < 2 ^ 63);
  fixed32 : wire_type PbError Z (λ v, 0 ≤ v < 2 ^ 32);
  boolean : wire_type PbError bool (λ _, True);
  bytes : wire_type PbError (list byte) (λ b, vec_len b < pb_limit);
  str : wire_type PbError string
    (λ s, vec_len (str_bytes s) < pb_limit ∧ is_utf8 (str_bytes s) = true);
  (** [read_unknown]: skips a field of the wire type of the tag. *)
  read_unknown : Z → list byte → result (list byte) PbError;
  read_unknown_shrinks : ∀ t bs rest,
    read_unknown t bs = Ok rest → (length rest ≤ length bs)%nat;
  (** [sizeof_varint], [sizeof_len] *)
  sizeof_varint : Z → Z;
  sizeof_len : Z → Z;
  sizeof_len_eq : ∀ n, 0 ≤ n < 2 ^ 64 → sizeof_len n = sizeof_varint n + n;
  sizeof_varint_bound : ∀ v, 0 ≤ v < 2 ^ 64 → 1 ≤ sizeof_varint v ≤ 10;
  tag_size : ∀ t, 0 ≤ t < 128 → vec_len (wr tag t) = 1;
  uint64_size : ∀ v, 0 ≤ v < 2 ^ 64 → vec_len (wr uint64 v) = sizeof_varint v;
  uint32_size : ∀ v, 0 ≤ v < 2 ^ 32 → vec_len (wr uint32 v) = sizeof_varint v;
  int32_size : ∀ v, - 2 ^ 31 ≤ v < 2 ^ 31 → vec_len (wr int32 v) = sizeof_varint (v mod 2 ^ 64);
  int64_size : ∀ v, - 2 ^ 63 ≤ v < 2 ^ 63 → vec_len (wr int64 v) = sizeof_varint (v mod 2 ^ 64);
  fixed32_size : ∀ v, 0 ≤ v < 2 ^ 32 → vec_len (wr fixed32 v) = 4;
  boolean_size : ∀ b, vec_len (wr boolean b) = sizeof_varint (Z.b2z b);
  bytes_size : ∀ b, vec_len b < pb_limit → vec_len (wr bytes b) = sizeof_len (vec_len b);
  str_size : ∀ s, vec_len (str_bytes s) < pb_limit → is_utf8 (str_bytes s) = true →
    vec_len (wr str s) = sizeof_len (vec_len (str_bytes s));
  (** [Writer::write_message] takes the size the message says it has and what
      the message writes; with the right size that is a [bytes] field.
      [BytesReader::read_message] runs a reader on the contents of such a field. *)
  write_message : Z → list byte → list byte;
  write_message_eq : ∀ b, vec_len b < pb_limit → write_message (vec_len b) b = wr bytes b;
  read_message : ∀ {A}, (list byte → outcome (result A PbError)) → list byte →
    outcome (result (A * list byte) PbError);
  read_message_eq : ∀ {A} (f : list byte → outcome (result A PbError)) b rest,
    vec_len b < pb_limit →
    read_message f (wr bytes b ++ rest) = let! a := f b in Done (Ok (a, rest));
  read_message_done : ∀ {A} (f : list byte → outcome (result A PbError)) bs,
    (∀ b, (length b ≤ length bs)%nat → is_done (f b) = true) → is_done (read_message f bs) = true;
  read_message_shrinks : ∀ {A} (f : list byte → outcome (result A PbError)) bs a rest,
    read_message f bs = Done (Ok (a, rest)) → (length rest ≤ length bs)%nat;
}.

Module Pb.
Section messages.
  Context {qp : QuickProtobuf} {M : Type}.

(** ** The reader loop

    [while !r.is_eof() { match r.next_tag(bytes) { Ok(t) => .., Err(e) => return Err(e) } }]:
    a table gives what each known tag does; the last arm skips unknown fields. *)
Definition handler : Type := list byte → M → outcome (result (M * list byte) PbError).

Definition on {A P} (w : wire_type PbError A P) (set : A → M → M) : handler := λ bs msg,
  Done (let? (a, rest) := rd w bs in Ok (set a msg, rest)).

Definition on_message {A} (read : list byte → outcome (result A PbError)) (set : A → M → M) :
    handler := λ bs msg,
  let! (a, rest) := read_message read bs in Done (Ok (set a msg, rest)).

Fixpoint dispatch (table : list (Z * handler)) (t : Z) : handler :=
  match table with
  | [] => λ bs msg, Done (let? rest := read_unknown t bs in Ok (msg, rest))
  | (t', h) :: table => if bool_decide (t = t') then h else dispatch table t
  end.

Fixpoint read_loop (table : list (Z * handler)) (fuel : nat) (bs : list byte) (msg : M) :
    outcome (result M PbError) :=
  match fuel with
  | O => OutOfFuel
  | S fuel =>
      if bool_decide (bs = []) then Done (Ok msg) else
      let! (t, rest) := Done (rd tag bs) in
      let! (msg, rest) := dispatch table t rest msg in
      read_loop table fuel rest msg
  end.

(** Every iteration reads at least the tag, so the number of bytes is enough fuel. *)
Definition read_fields (table : list (Z * handler)) (bs : list byte) (msg : M) :
    outcome (result M PbError) :=
  read_loop table (S (length bs)) bs msg.

(** A handler returns and does not make the input longer. *)
Definition good (h : handler) : Prop := ∀ bs msg,
  ∃ r, h bs msg = Done r ∧ (∀ msg' rest, r = Ok (msg', rest) → (length rest ≤ length bs)%nat).

Lemma good_on {A P} (w : wire_type PbError A P) set : good (on w set).
Proof.
  intros bs msg. eexists. split; [done|]. intros msg' rest.
  destruct (rd w bs) as [[a r]|] eqn:Hr; simpl; intros ?; simplify_eq. by eapply rd_shrinks.
Qed.

Lemma good_on_message {A} (read : list byte → outcome (result A PbError)) set :
  (∀ bs, is_done (read bs) = true) → good (on_message read set).
Proof.
  intros Hd bs msg. unfold on_message.
  assert (is_done (read_message read bs) = true) as Hdone by auto using read_message_done.
  destruct (read_message read bs) as [[[a r]|e]| |] eqn:Hr; try done; simpl.
  - eexists. split; [done|]. intros; simplify_eq. by eapply read_message_shrinks.
  - eexists. split; [done|]. intros; simplify_eq.
Qed.

Lemma good_dispatch table t : Forall (λ p, good p.2) table → good (dispatch table t).
Proof.
  induction 1 as [|[t' h] table Hh _ IH]; simpl.
  - intros bs msg. eexists. split; [done|]. intros msg' rest.
    destruct (read_unknown t bs) eqn:Hr; simpl; intros; simplify_eq.
    by eapply read_unknown_shrinks.
  - by case_bool_decide.
Qed.

Lemma read_loop_enough table n m bs msg :
  Forall (λ p, good p.2) table → (length bs < n)%nat → (length bs < m)%nat →
  read_loop table n bs msg = read_loop table m bs msg.
Proof.
  intros Ht. revert m bs msg. induction n as [|n IH]; intros m bs msg Hn Hm; [lia|].
  destruct m as [|m]; [lia|]. simpl. case_bool_decide as Hb; [done|].
  destruct (rd tag bs) as [[t rest]|] eqn:Hr; simpl; [|done].
  apply tag_progress in Hr.
  destruct (good_dispatch table t Ht rest msg) as (r & -> & Hs). simpl.
  destruct r as [[msg' rest']|]; simpl; [|done]. specialize (Hs _ _ eq_refl).
  apply IH; lia.
Qed.

Lemma read_fields_done table bs msg :
  Forall (λ p, good p.2) table → is_done (read_fields table bs msg) = true.
Proof.
  intros Ht. unfold read_fields. remember (S (length bs)) as n eqn:Hn.
  assert (length bs < n)%nat as Hlt by lia. clear Hn. revert bs msg Hlt.
  induction n as [|n IH]; intros bs msg Hlt; [lia|]. simpl.
  case_bool_decide; [done|].
  destruct (rd tag bs) as [[t rest]|] eqn:Hr; simpl; [|done]. apply tag_progress in Hr.
  destruct (good_dispatch table t Ht rest msg) as (r & -> & Hs). simpl.
  destruct r as [[msg' rest']|]; simpl; [|done]. specialize (Hs _ _ eq_refl).
  apply IH. lia.
Qed.

Lemma read_fields_nil table msg : read_fields table [] msg = Done (Ok msg).
Proof. done. Qed.

(** [Writer::write_with_tag]. *)
Definition write_with_tag (t : Z) (body : list byte) : list byte := wr tag t ++ body.

Lemma write_with_tag_nonempty t body : 0 ≤ t < 128 → write_with_tag t body ≠ [].
Proof.
  intros Ht He. pose proof (tag_size t Ht) as Hs. unfold write_with_tag in He.
  apply app_eq_nil in He as [He _]. rewrite He in Hs. done.
Qed.

Lemma read_fields_cons table t body rest msg msg' :
  Forall (λ p, good p.2) table → 0 ≤ t < 128 →
  dispatch table t (body ++ rest) msg = Done (Ok (msg', rest)) →
  read_fields table (write_with_tag t body ++ rest) msg = read_fields table rest msg'.
Proof.
  intros Ht Htag Hd. unfold read_fields at 1. simpl.
  rewrite bool_decide_eq_false_2; last first.
  { intros He. apply app_eq_nil in He as [He _]. by apply write_with_tag_nonempty in He. }
  assert (rd tag (write_with_tag t body ++ rest) = Ok (t, body ++ rest)) as Hr.
  { unfold write_with_tag. rewrite <-(assoc_L (++)). apply rd_wr. lia. }
  pose proof (tag_progress _ _ _ Hr) as Hp. rewrite length_app in Hp.
  rewrite Hr. simpl. rewrite Hd. simpl.
  apply read_loop_enough; [done|lia|lia].
Qed.

(** An optional field is written when it is there. *)
Definition write_opt {A} (t : Z) (w : A → list byte) (o : option A) : list byte :=
  match o with Some a => write_with_tag t (w a) | None => [] end.

(** The size of an optional field, [map_or(0, |m| 1 + ..)]. *)
Definition opt_size {A} (f : A → Z) (o : option A) : Z :=
  match o with Some a => 1 + f a | None => 0 end.

Definition opt_range {A} (P : A → Prop) (o : option A) : Prop :=
  match o with Some a => P a | None => True end.

Lemma opt_range_impl {A} (P Q : A → Prop) o :
  (∀ a, P a → Q a) → opt_range P o → opt_range Q o.
Proof. destruct o; simpl; auto. Qed.

Lemma vec_len_app {A} (l k : list A) : vec_len (l ++ k) = vec_len l + vec_len k.
Proof. unfold vec_len. rewrite length_app. lia. Qed.

Lemma vec_len_nonneg {A} (l : list A) : 0 ≤ vec_len l.
Proof. unfold vec_len. lia. Qed.

Lemma size_with_tag t body : 0 ≤ t < 128 → vec_len (write_with_tag t body) = 1 + vec_len body.
Proof. intros. unfold write_with_tag. rewrite vec_len_app, tag_size by lia. done. Qed.

Lemma size_opt {A} t (w : A → list byte) (f : A → Z) o :
  0 ≤ t < 128 → opt_range (λ a, vec_len (w a) = f a) o →
  vec_len (write_opt t w o) = opt_size f o.
Proof. intros Ht. destruct o; simpl; [|done]. intros <-. by apply size_with_tag. Qed.

(** Reading an optional field back. *)
Lemma read_opt {A P} table t (w : wire_type PbError A P) (set : A → M → M) o rest msg :
  Forall (λ p, good p.2) table → 0 ≤ t < 128 → opt_range P o →
  dispatch table t = on w set →
  read_fields table (write_opt t (wr w) o ++ rest) msg =
  read_fields table rest (match o with Some a => set a msg | None => msg end).
Proof.
  intros Hg Ht Ho Hd. destruct o as [a|]; [|done]. simpl in *.
  apply read_fields_cons; [done|done|]. rewrite Hd. unfold on. by rewrite rd_wr.
Qed.

(** Reading a repeated field back. *)
Lemma read_repeated {A P} table t (w : wire_type PbError A P) (set : A → M → M) l rest msg :
  Forall (λ p, good p.2) table → 0 ≤ t < 128 → Forall P l →
  dispatch table t = on w set →
  read_fields table (concat ((λ a, write_with_tag t (wr w a)) <$> l) ++ rest) msg =
  read_fields table rest (foldl (λ m a, set a m) msg l).
Proof.
  intros Hg Ht Hl Hd. revert msg. induction Hl as [|a l Ha Hl IH]; intros msg; [done|].
  simpl. rewrite <-(assoc_L (++)). rewrite (read_fields_cons _ _ _ _ _ (set a msg)); [|done|done|].
  - apply IH.
  - rewrite Hd. unfold on. by rewrite rd_wr.
Qed.

(** Reading a repeated field of nested messages back. *)
Lemma read_messages {A} table t (read : list byte → outcome (result A PbError)) (set : A → M → M)
    (size : A → Z) (write : A → list byte) l rest msg :
  Forall (λ p, good p.2) table → 0 ≤ t < 128 →
  Forall (λ a, read (write a) = Done (Ok a) ∧ vec_len (write a) = size a ∧ size a < pb_limit) l →
  dispatch table t = on_message read set →
  read_fields table (concat ((λ a, write_with_tag t (write_message (size a) (write a))) <$> l) ++ rest) msg =
  read_fields table rest (foldl (λ m a, set a m) msg l).
Proof.
  intros Hg Ht Hl Hd. revert msg. induction Hl as [|a l (Hr & Hs & Hlim) Hl IH]; intros msg; [done|].
  simpl. rewrite <-(assoc_L (++)). rewrite (read_fields_cons _ _ _ _ _ (set a msg)); [|done|done|].
  - apply IH.
  - rewrite Hd. unfold on_message. rewrite <-Hs in Hlim |- *. rewrite write_message_eq by done.
    rewrite read_message_eq by done. by rewrite Hr.
Qed.

Lemma messages_size {A} t (size : A → Z) (write : A → list byte) l :
  0 ≤ t < 128 → Forall (λ a, vec_len (write a) = size a ∧ size a < pb_limit) l →
  vec_len (concat ((λ a, write_with_tag t (write_message (size a) (write a))) <$> l)) =
  Zsum ((λ a, 1 + sizeof_len (size a)) <$> l).
Proof.
  intros Ht. induction 1 as [|a l [Hs Hlim] _ IH]; [done|]. rewrite !fmap_cons. cbn [concat].
  rewrite vec_len_app, IH, size_with_tag by done.
  rewrite <-Hs in Hlim |- *. rewrite write_message_eq, bytes_size by done. done.
Qed.

(** proto3: a field is written unless it has its default value. *)
Definition write_unless {A} `{EqDecision A} (d : A) (t : Z) (w : A → list byte) (a : A) : list byte :=
  if bool_decide (a = d) then [] else write_with_tag t (w a).

Definition size_unless {A} `{EqDecision A} (d : A) (f : A → Z) (a : A) : Z :=
  if bool_decide (a = d) then 0 else 1 + f a.

Lemma read_unless {A B P} `{EqDecision A} table d t (w : wire_type PbError B P) (enc : A → B)
    (set : B → M → M) a rest msg :
  Forall (λ p, good p.2) table → 0 ≤ t < 128 → P (enc a) → dispatch table t = on w set →
  (a = d → set (enc a) msg = msg) →
  read_fields table (write_unless d t (λ a, wr w (enc a)) a ++ rest) msg =
  read_fields table rest (set (enc a) msg).
Proof.
  intros Hg Ht Ha Hd Hdef. unfold write_unless. case_bool_decide as He.
  - by rewrite Hdef.
  - apply read_fields_cons; [done|done|]. rewrite Hd. unfold on. by rewrite rd_wr.
Qed.

Lemma unless_size {A} `{EqDecision A} d t (w : A → list byte) (f : A → Z) (a : A) :
  0 ≤ t < 128 → vec_len (w a) = f a → vec_len (write_unless d t w a) = size_unless d f a.
Proof.
  intros Ht Hw. unfold write_unless, size_unless. case_bool_decide; [done|].
  by rewrite size_with_tag, Hw.
Qed.
End messages.

(** A nested message: [write_message] with the right size is read back. *)
Lemma on_message_ok `{QuickProtobuf} {A M} (read : list byte → outcome (result A PbError))
    (set : A → M → M) b a rest msg :
  vec_len b < pb_limit → read b = Done (Ok a) →
  on_message read set (write_message (vec_len b) b ++ rest) msg = Done (Ok (set a msg, rest)).
Proof.
  intros Hb Hr. unfold on_message. rewrite write_message_eq by done.
  rewrite read_message_eq by done. by rewrite Hr.
Qed.
End Pb.
