(* ===== verification/UnixFsPb.v ===== *)
(** * The messages of dag-pb and UnixFS

    unixfs/src/pb/merkledag.rs, unixfs/src/pb/unixfs.rs and unixfs/src/pb.rs:
    links, nodes, the UnixFS payload and the combined [FlatUnixFs], how they are
    written, measured and read.  The claims are the round trips and that
    [get_size] is the number of bytes written, which nested messages rely on. *)
From stdpp Require Import base gmap list strings.
From Stdlib Require Import Strings.Byte.
From S2P Require Import Prelude Protobuf.
Local Open Scope Z_scope.

Ltac solve_good := repeat constructor; simpl; auto using Pb.good_on, Pb.good_on_message.

(** unixfs/src/pb/merkledag.rs *)
Module Merkledag.
Import Pb.

Record PBLink := mkPBLink {
  Hash : option (list byte);
  Name : option string;
  Tsize : option Z;
}.
Definition PBLink_default : PBLink := mkPBLink None None None.

#[export] Instance PBLink_eq_dec : EqDecision PBLink.
Proof. solve_decision. Defined.

Record PBNode := mkPBNode {
  Links : list PBLink;
  NodeData : option (list byte);
}.
Definition PBNode_default : PBNode := mkPBNode [] None.

Section merkledag.
  Context {qp : QuickProtobuf}.

Definition PBLink_fields : list (Z * handler) :=
  [ (10, on bytes (λ v m, mkPBLink (Some v) (Name m) (Tsize m)));
    (18, on str (λ v m, mkPBLink (Hash m) (Some v) (Tsize m)));
    (24, on uint64 (λ v m, mkPBLink (Hash m) (Name m) (Some v))) ].

Definition PBLink_from_reader (bs : list byte) : outcome (result PBLink PbError) :=
  read_fields PBLink_fields bs PBLink_default.

Definition PBLink_get_size (l : PBLink) : Z :=
  opt_size (λ m, sizeof_len (vec_len m)) (Hash l)
  + opt_size (λ m, sizeof_len (vec_len (str_bytes m))) (Name l)
  + opt_size sizeof_varint (Tsize l).

Definition PBLink_write (l : PBLink) : list byte :=
  write_opt 10 (wr bytes) (Hash l) ++ write_opt 18 (wr str) (Name l)
  ++ write_opt 24 (wr uint64) (Tsize l).

Definition PBNode_fields : list (Z * handler) :=
  [ (18, on_message PBLink_from_reader (λ v m, mkPBNode (Links m ++ [v]) (NodeData m)));
    (10, on bytes (λ v m, mkPBNode (Links m) (Some v))) ].

Definition PBNode_from_reader (bs : list byte) : outcome (result PBNode PbError) :=
  read_fields PBNode_fields bs PBNode_default.

Definition PBNode_get_size (n : PBNode) : Z :=
  Zsum ((λ s, 1 + sizeof_len (PBLink_get_size s)) <$> Links n)
  + opt_size (λ m, sizeof_len (vec_len m)) (NodeData n).

Definition write_links (l : list PBLink) : list byte :=
  concat ((λ s, write_with_tag 18 (write_message (PBLink_get_size s) (PBLink_write s))) <$> l).

Definition PBNode_write (n : PBNode) : list byte :=
  write_links (Links n) ++ write_opt 10 (wr bytes) (NodeData n).

(** ** Round trip and size *)

(** What the wire format can carry: [u64] sizes, valid strings, 2 GiB. *)
Definition str_range (s : string) : Prop :=
  vec_len (str_bytes s) < pb_limit ∧ is_utf8 (str_bytes s) = true.

Definition PBLink_fields_range (l : PBLink) : Prop :=
  opt_range (λ b, vec_len b < pb_limit) (Hash l) ∧ opt_range str_range (Name l) ∧
  opt_range (λ v, 0 ≤ v < 2 ^ 64) (Tsize l).

Definition PBLink_range (l : PBLink) : Prop :=
  PBLink_fields_range l ∧ PBLink_get_size l < pb_limit.

Lemma PBLink_fields_good : Forall (λ p, good p.2) PBLink_fields.
Proof. solve_good. Qed.

Lemma PBLink_read_done bs : is_done (PBLink_from_reader bs) = true.
Proof. apply read_fields_done, PBLink_fields_good. Qed.

Lemma PBLink_read_write l :
  PBLink_fields_range l → PBLink_from_reader (PBLink_write l) = Done (Ok l).
Proof.
  intros (Hh & Hn & Ht). unfold PBLink_from_reader, PBLink_write.
  rewrite (read_opt PBLink_fields 10 bytes (λ v m, mkPBLink (Some v) (Name m) (Tsize m)));
    [|apply PBLink_fields_good|lia|done|done].
  rewrite (read_opt PBLink_fields 18 str (λ v m, mkPBLink (Hash m) (Some v) (Tsize m)));
    [|apply PBLink_fields_good|lia|done|done].
  rewrite <-(app_nil_r (write_opt 24 _ _)).
  rewrite (read_opt PBLink_fields 24 uint64 (λ v m, mkPBLink (Hash m) (Name m) (Some v)));
    [|apply PBLink_fields_good|lia|done|done].
  rewrite read_fields_nil. destruct l as [[] [] []]; done.
Qed.

Lemma PBLink_size l : PBLink_fields_range l → vec_len (PBLink_write l) = PBLink_get_size l.
Proof.
  intros (Hh & Hn & Ht). unfold PBLink_write, PBLink_get_size. rewrite !vec_len_app.
  rewrite (size_opt 10 _ (λ m, sizeof_len (vec_len m))), (size_opt 18 _ (λ m, sizeof_len (vec_len (str_bytes m)))),
    (size_opt 24 _ sizeof_varint); [lia|lia|..|lia|].
  - destruct (Tsize l); simpl in *; [by apply uint64_size|done].
  - lia.
  - destruct (Name l); simpl in *; [by apply str_size; apply Hn|done].
  - destruct (Hash l); simpl in *; [by apply bytes_size|done].
Qed.

Lemma PBNode_fields_good : Forall (λ p, good p.2) PBNode_fields.
Proof. solve_good; auto using good_on_message, PBLink_read_done. Qed.

Lemma PBNode_read_done bs : is_done (PBNode_from_reader bs) = true.
Proof. apply read_fields_done, PBNode_fields_good. Qed.

Lemma read_links l rest n :
  Forall PBLink_range l →
  read_fields PBNode_fields (write_links l ++ rest) n =
  read_fields PBNode_fields rest (mkPBNode (Links n ++ l) (NodeData n)).
Proof.
  intros Hl. revert n. induction Hl as [|s l [Hs Hlim] _ IH]; intros n.
  - rewrite app_nil_r. by destruct n.
  - unfold write_links. simpl. rewrite <-(assoc_L (++)).
    rewrite (read_fields_cons _ _ _ _ _ (mkPBNode (Links n ++ [s]) (NodeData n)));
      [|apply PBNode_fields_good|lia|].
    + unfold write_links in IH. rewrite IH. simpl. by rewrite <-(assoc_L (++)).
    + simpl. rewrite <-PBLink_size by done.
      apply (on_message_ok PBLink_from_reader (λ v m, mkPBNode (Links m ++ [v]) (NodeData m))).
      * by rewrite PBLink_size.
      * by apply PBLink_read_write.
Qed.

Lemma write_links_size l :
  Forall PBLink_range l →
  vec_len (write_links l) = Zsum ((λ s, 1 + sizeof_len (PBLink_get_size s)) <$> l).
Proof.
  induction 1 as [|s l [Hs Hlim] _ IH]; [done|].
  change (write_links (s :: l)) with
    (write_with_tag 18 (write_message (PBLink_get_size s) (PBLink_write s)) ++ write_links l).
  rewrite vec_len_app, IH, size_with_tag by lia. simpl.
  rewrite <-PBLink_size in * by done. rewrite write_message_eq, bytes_size by done. done.
Qed.

Lemma PBNode_read_write n :
  Forall PBLink_range (Links n) → opt_range (λ b, vec_len b < pb_limit) (NodeData n) →
  PBNode_from_reader (PBNode_write n) = Done (Ok n).
Proof.
  intros Hl Hd. unfold PBNode_from_reader, PBNode_write. rewrite read_links by done.
  rewrite <-(app_nil_r (write_opt 10 _ _)).
  rewrite (read_opt PBNode_fields 10 bytes (λ v m, mkPBNode (Links m) (Some v)));
    [|apply PBNode_fields_good|lia|done|done].
  rewrite read_fields_nil. destruct n as [? []]; done.
Qed.

Lemma PBNode_size n :
  Forall PBLink_range (Links n) → opt_range (λ b, vec_len b < pb_limit) (NodeData n) →
  vec_len (PBNode_write n) = PBNode_get_size n.
Proof.
  intros Hl Hd. unfold PBNode_write, PBNode_get_size. rewrite vec_len_app, write_links_size by done.
  rewrite (size_opt 10 _ (λ m, sizeof_len (vec_len m))); [done|lia|].
  destruct (NodeData n); simpl in *; [by apply bytes_size|done].
Qed.
End merkledag.
End Merkledag.

(** unixfs/src/pb/unixfs.rs *)
Module UnixFsData.
Import Pb.

Inductive DataType := Raw | Directory | File | Metadata | Symlink | HAMTShard.

#[export] Instance DataType_eq_dec : EqDecision DataType.
Proof. solve_decision. Defined.

Definition DataType_default : DataType := Raw.

(** [From<i32> for DataType]. *)
Definition DataType_from (i : Z) : DataType :=
  if bool_decide (i = 0) then Raw
  else if bool_decide (i = 1) then Directory
  else if bool_decide (i = 2) then File
  else if bool_decide (i = 3) then Metadata
  else if bool_decide (i = 4) then Symlink
  else if bool_decide (i = 5) then HAMTShard
  else DataType_default.

(** [From<DataType> for i32]. *)
Definition DataType_into (dt : DataType) : Z :=
  match dt with
  | Raw => 0 | Directory => 1 | File => 2 | Metadata => 3 | Symlink => 4 | HAMTShard => 5
  end.

Record UnixTime := mkUnixTime {
  Seconds : Z;
  FractionalNanoseconds : option Z;
}.
Definition UnixTime_default : UnixTime := mkUnixTime 0 None.

#[export] Instance UnixTime_eq_dec : EqDecision UnixTime.
Proof. solve_decision. Defined.

(** [unixfs::Data], aliased [UnixFs]. *)
Record UnixFs := mkUnixFs {
  Type_ : DataType;
  Data : option (list byte);
  filesize : option Z;
  blocksizes : list Z;
  hashType : option Z;
  fanout : option Z;
  mode : option Z;
  mtime : option UnixTime;
}.
Definition UnixFs_default : UnixFs := mkUnixFs DataType_default None None [] None None None None.

#[export] Instance UnixFs_eq_dec : EqDecision UnixFs.
Proof. solve_decision. Defined.

Section unixfs.
  Context {qp : QuickProtobuf}.

Definition UnixTime_fields : list (Z * handler) :=
  [ (8, on int64 (λ v m, mkUnixTime v (FractionalNanoseconds m)));
    (21, on fixed32 (λ v m, mkUnixTime (Seconds m) (Some v))) ].

Definition UnixTime_from_reader (bs : list byte) : outcome (result UnixTime PbError) :=
  read_fields UnixTime_fields bs UnixTime_default.

Definition UnixTime_get_size (t : UnixTime) : Z :=
  1 + sizeof_varint (Seconds t mod 2 ^ 64) + opt_size (λ _, 4) (FractionalNanoseconds t).

Definition UnixTime_write (t : UnixTime) : list byte :=
  write_with_tag 8 (wr int64 (Seconds t)) ++ write_opt 21 (wr fixed32) (FractionalNanoseconds t).

Definition UnixFs_fields : list (Z * handler) :=
  [ (8, on int32 (λ v m, mkUnixFs (DataType_from v) (Data m) (filesize m) (blocksizes m)
                           (hashType m) (fanout m) (mode m) (mtime m)));
    (18, on bytes (λ v m, mkUnixFs (Type_ m) (Some v) (filesize m) (blocksizes m)
                            (hashType m) (fanout m) (mode m) (mtime m)));
    (24, on uint64 (λ v m, mkUnixFs (Type_ m) (Data m) (Some v) (blocksizes m)
                             (hashType m) (fanout m) (mode m) (mtime m)));
    (32, on uint64 (λ v m, mkUnixFs (Type_ m) (Data m) (filesize m) (blocksizes m ++ [v])
                             (hashType m) (fanout m) (mode m) (mtime m)));
    (40, on uint64 (λ v m, mkUnixFs (Type_ m) (Data m) (filesize m) (blocksizes m)
                             (Some v) (fanout m) (mode m) (mtime m)));
    (48, on uint64 (λ v m, mkUnixFs (Type_ m) (Data m) (filesize m) (blocksizes m)
                             (hashType m) (Some v) (mode m) (mtime m)));
    (56, on uint32 (λ v m, mkUnixFs (Type_ m) (Data m) (filesize m) (blocksizes m)
                             (hashType m) (fanout m) (Some v) (mtime m)));
    (66, on_message UnixTime_from_reader
           (λ v m, mkUnixFs (Type_ m) (Data m) (filesize m) (blocksizes m)
                     (hashType m) (fanout m) (mode m) (Some v))) ].

Definition UnixFs_from_reader (bs : list byte) : outcome (result UnixFs PbError) :=
  read_fields UnixFs_fields bs UnixFs_default.

Definition UnixFs_get_size (d : UnixFs) : Z :=
  0 + 1
  + sizeof_varint (DataType_into (Type_ d))
  + opt_size (λ m, sizeof_len (vec_len m)) (Data d)
  + opt_size sizeof_varint (filesize d)
  + Zsum ((λ s, 1 + sizeof_varint s) <$> blocksizes d)
  + opt_size sizeof_varint (hashType d)
  + opt_size sizeof_varint (fanout d)
  + opt_size sizeof_varint (mode d)
  + opt_size (λ m, sizeof_len (UnixTime_get_size m)) (mtime d).

Definition UnixFs_write (d : UnixFs) : list byte :=
  write_with_tag 8 (wr int32 (DataType_into (Type_ d)))
  ++ write_opt 18 (wr bytes) (Data d)
  ++ write_opt 24 (wr uint64) (filesize d)
  ++ concat ((λ s, write_with_tag 32 (wr uint64 s)) <$> blocksizes d)
  ++ write_opt 40 (wr uint64) (hashType d)
  ++ write_opt 48 (wr uint64) (fanout d)
  ++ write_opt 56 (wr uint32) (mode d)
  ++ write_opt 66 (λ t, write_message (UnixTime_get_size t) (UnixTime_write t)) (mtime d).

(** ** Round trip and size *)

Definition u64_range (v : Z) : Prop := 0 ≤ v < 2 ^ 64.

Definition UnixTime_range (t : UnixTime) : Prop :=
  - 2 ^ 63 ≤ Seconds t < 2 ^ 63 ∧ opt_range (λ v, 0 ≤ v < 2 ^ 32) (FractionalNanoseconds t).

Definition UnixFs_range (d : UnixFs) : Prop :=
  opt_range (λ b, vec_len b < pb_limit) (Data d) ∧ opt_range u64_range (filesize d) ∧
  Forall u64_range (blocksizes d) ∧ opt_range u64_range (hashType d) ∧
  opt_range u64_range (fanout d) ∧ opt_range (λ v, 0 ≤ v < 2 ^ 32) (mode d) ∧
  opt_range UnixTime_range (mtime d).

Lemma DataType_from_into dt : DataType_from (DataType_into dt) = dt.
Proof. by destruct dt. Qed.

Lemma DataType_into_range dt : 0 ≤ DataType_into dt ≤ 5.
Proof. destruct dt; simpl; lia. Qed.

Lemma UnixTime_fields_good : Forall (λ p, good p.2) UnixTime_fields.
Proof. solve_good. Qed.

Lemma UnixTime_read_done bs : is_done (UnixTime_from_reader bs) = true.
Proof. apply read_fields_done, UnixTime_fields_good. Qed.

Lemma UnixTime_read_write t :
  UnixTime_range t → UnixTime_from_reader (UnixTime_write t) = Done (Ok t).
Proof.
  intros (Hs & Hf). unfold UnixTime_from_reader, UnixTime_write.
  rewrite (read_fields_cons _ _ _ _ _ (mkUnixTime (Seconds t) None));
    [|apply UnixTime_fields_good|lia|by simpl; unfold on; rewrite rd_wr by done].
  rewrite <-(app_nil_r (write_opt 21 _ _)).
  rewrite (read_opt UnixTime_fields 21 fixed32 (λ v m, mkUnixTime (Seconds m) (Some v)));
    [|apply UnixTime_fields_good|lia|done|done].
  rewrite read_fields_nil. destruct t as [? []]; done.
Qed.

Lemma UnixTime_size t : UnixTime_range t → vec_len (UnixTime_write t) = UnixTime_get_size t.
Proof.
  intros (Hs & Hf). unfold UnixTime_write, UnixTime_get_size.
  rewrite vec_len_app, size_with_tag, int64_size by done.
  rewrite (size_opt 21 _ (λ _, 4)); [lia|lia|].
  destruct (FractionalNanoseconds t); simpl in *; [by apply fixed32_size|done].
Qed.

Lemma UnixTime_size_limit t : UnixTime_range t → 0 ≤ UnixTime_get_size t < pb_limit.
Proof.
  intros (Hs & Hf). unfold UnixTime_get_size, pb_limit.
  pose proof (sizeof_varint_bound (Seconds t mod 2 ^ 64)) as Hb.
  pose proof (Z.mod_pos_bound (Seconds t) (2 ^ 64)).
  destruct (FractionalNanoseconds t); simpl; lia.
Qed.

Lemma UnixFs_fields_good : Forall (λ p, good p.2) UnixFs_fields.
Proof. solve_good; auto using good_on_message, UnixTime_read_done. Qed.

Lemma UnixFs_read_done bs : is_done (UnixFs_from_reader bs) = true.
Proof. apply read_fields_done, UnixFs_fields_good. Qed.

Lemma push_blocksizes ss d :
  foldl (λ m v, mkUnixFs (Type_ m) (Data m) (filesize m) (blocksizes m ++ [v])
    (hashType m) (fanout m) (mode m) (mtime m)) d ss =
  mkUnixFs (Type_ d) (Data d) (filesize d) (blocksizes d ++ ss)
    (hashType d) (fanout d) (mode d) (mtime d).
Proof.
  revert d. induction ss as [|s ss IH]; intros d; simpl.
  - rewrite app_nil_r. by destruct d.
  - rewrite IH. simpl. by rewrite <-(assoc_L (++)).
Qed.

Ltac step_field :=
  first
  [ erewrite (read_opt UnixFs_fields); [|apply UnixFs_fields_good|lia|eassumption|reflexivity]
  | erewrite (read_repeated UnixFs_fields);
      [|apply UnixFs_fields_good|lia|eassumption|reflexivity]; rewrite push_blocksizes ];
  simpl.

Lemma UnixFs_read_write d : UnixFs_range d → UnixFs_from_reader (UnixFs_write d) = Done (Ok d).
Proof.
  intros (Hd & Hf & Hb & Hh & Hfo & Hm & Ht). unfold UnixFs_from_reader, UnixFs_write.
  pose proof (DataType_into_range (Type_ d)) as Hr.
  rewrite (read_fields_cons _ _ _ _ _ (mkUnixFs (Type_ d) None None [] None None None None));
    [|apply UnixFs_fields_good|lia|]; last first.
  { simpl. unfold on. rewrite rd_wr by lia. simpl. by rewrite DataType_from_into. }
  do 6 step_field.
  assert (∀ t m, mtime d = Some t → read_fields UnixFs_fields
    (write_with_tag 66 (write_message (UnixTime_get_size t) (UnixTime_write t)) ++ []) m =
    Done (Ok (mkUnixFs (Type_ m) (Data m) (filesize m) (blocksizes m)
      (hashType m) (fanout m) (mode m) (Some t)))) as Hmt.
  { intros t m Hmt. rewrite Hmt in Ht. simpl in Ht.
    pose proof (UnixTime_size_limit t Ht) as Hlim.
    erewrite read_fields_cons; [apply read_fields_nil|apply UnixFs_fields_good|lia|].
    simpl. rewrite <-UnixTime_size by done.
    apply (on_message_ok UnixTime_from_reader
      (λ v m, mkUnixFs (Type_ m) (Data m) (filesize m) (blocksizes m)
                (hashType m) (fanout m) (mode m) (Some v))).
    - rewrite UnixTime_size by done. lia.
    - by apply UnixTime_read_write. }
  destruct d as [ty da fi bl ha fa mo mt]; simpl in *.
  destruct mt as [t|]; simpl.
  - rewrite <-(app_nil_r (write_with_tag 66 _)), (Hmt t) by done.
    by destruct da, fi, ha, fa, mo.
  - rewrite read_fields_nil. by destruct da, fi, ha, fa, mo.
Qed.

Lemma blocksizes_size ss :
  Forall u64_range ss →
  vec_len (concat ((λ s, write_with_tag 32 (wr uint64 s)) <$> ss)) =
  Zsum ((λ s, 1 + sizeof_varint s) <$> ss).
Proof.
  induction 1 as [|s ss Hs _ IH]; [done|]. simpl.
  rewrite vec_len_app, size_with_tag, uint64_size by done.
  unfold fmap in IH. rewrite IH. done.
Qed.

Lemma UnixFs_size d : UnixFs_range d → vec_len (UnixFs_write d) = UnixFs_get_size d.
Proof.
  intros (Hd & Hf & Hb & Hh & Hfo & Hm & Ht). unfold UnixFs_write, UnixFs_get_size.
  pose proof (DataType_into_range (Type_ d)) as Hr.
  rewrite !vec_len_app, size_with_tag, int32_size, Z.mod_small, blocksizes_size by (done || lia).
  rewrite (size_opt 18 _ (λ m, sizeof_len (vec_len m))), (size_opt 24 _ sizeof_varint),
    (size_opt 40 _ sizeof_varint), (size_opt 48 _ sizeof_varint), (size_opt 56 _ sizeof_varint),
    (size_opt 66 _ (λ m, sizeof_len (UnixTime_get_size m))); try lia.
  all: try (eapply opt_range_impl; [|eassumption]; auto using bytes_size, uint64_size, uint32_size).
  intros t Ht'. rewrite <-UnixTime_size by done. pose proof (UnixTime_size_limit _ Ht').
  rewrite write_message_eq, bytes_size; [done|..]; rewrite UnixTime_size by done; lia.
Qed.
End unixfs.
End UnixFsData.

(** unixfs/src/pb.rs: the node with its payload. *)
Module Flat.
Import Pb Merkledag UnixFsData.

Record FlatUnixFs := mkFlat { links : list PBLink; data : UnixFs }.

#[export] Instance FlatUnixFs_eq_dec : EqDecision FlatUnixFs.
Proof. solve_decision. Defined.

Section flat.
  Context {qp : QuickProtobuf}.

Inductive ParsingFailed :=
  | InvalidDagPb (e : PbError)
  | NoData (n : PBNode)
  | InvalidUnixFs (e : PbError) (n : PBNode).

Definition FlatUnixFs_get_size (f : FlatUnixFs) : Z :=
  let links := Zsum ((λ s, 1 + sizeof_len (PBLink_get_size s)) <$> links f) in
  let body := 1 + sizeof_len (UnixFs_get_size (data f)) in
  links + body.

Definition FlatUnixFs_write (f : FlatUnixFs) : list byte :=
  write_links (links f)
  ++ write_with_tag 10 (write_message (UnixFs_get_size (data f)) (UnixFs_write (data f))).

(** [TryFrom<Option<&[u8]>> for UnixFs]. *)
Definition UnixFs_try_from (d : option (list byte)) : outcome (result UnixFs PbError) :=
  UnixFs_from_reader (default [] d).

(** [TryFrom<&[u8]> for FlatUnixFs]. *)
Definition FlatUnixFs_try_from (bs : list byte) : outcome (result FlatUnixFs ParsingFailed) :=
  let! node := map_err InvalidDagPb <$> PBNode_from_reader bs in
  match NodeData node with
  | Some (b :: bs) =>
      UnixFs_try_from (Some (b :: bs)) ≫= λ r,
      Done (match r with
            | Ok d => Ok (mkFlat (Links node) d)
            | Err e => Err (InvalidUnixFs e node)
            end)
  | Some [] | None => Done (Err (NoData node))
  end.

(** ** Round trip and size *)

Definition FlatUnixFs_range (f : FlatUnixFs) : Prop :=
  Forall PBLink_range (links f) ∧ UnixFs_range (data f) ∧ UnixFs_get_size (data f) < pb_limit.

Lemma UnixFs_write_nonempty d : UnixFs_write d ≠ [].
Proof.
  unfold UnixFs_write. intros He. apply app_eq_nil in He as [He _].
  by apply write_with_tag_nonempty in He.
Qed.

Lemma FlatUnixFs_write_node f :
  FlatUnixFs_range f →
  FlatUnixFs_write f = PBNode_write (mkPBNode (links f) (Some (UnixFs_write (data f)))).
Proof.
  intros (Hl & Hd & Hs). unfold FlatUnixFs_write, PBNode_write. simpl. f_equal. f_equal.
  rewrite <-UnixFs_size in * by done. by rewrite write_message_eq.
Qed.

Lemma FlatUnixFs_read_write f :
  FlatUnixFs_range f → FlatUnixFs_try_from (FlatUnixFs_write f) = Done (Ok f).
Proof.
  intros Hr. pose proof Hr as (Hl & Hd & Hs). unfold FlatUnixFs_try_from.
  rewrite FlatUnixFs_write_node by done.
  rewrite PBNode_read_write; [simpl|done|simpl; by rewrite UnixFs_size].
  pose proof (UnixFs_write_nonempty (data f)).
  destruct (UnixFs_write (data f)) as [|b bs] eqn:Hw; [done|].
  unfold UnixFs_try_from. simpl. rewrite <-Hw, UnixFs_read_write by done. by destruct f.
Qed.

Lemma FlatUnixFs_size f :
  FlatUnixFs_range f → vec_len (FlatUnixFs_write f) = FlatUnixFs_get_size f.
Proof.
  intros Hr. pose proof Hr as (Hl & Hd & Hs). rewrite FlatUnixFs_write_node by done.
  rewrite PBNode_size; [|done|simpl; by rewrite UnixFs_size].
  unfold PBNode_get_size, FlatUnixFs_get_size. simpl. by rewrite UnixFs_size.
Qed.

Lemma FlatUnixFs_try_from_done bs : is_done (FlatUnixFs_try_from bs) = true.
Proof.
  unfold FlatUnixFs_try_from. pose proof (PBNode_read_done bs) as Hn.
  destruct (PBNode_from_reader bs) as [[n|e]| |]; try done. simpl.
  destruct (NodeData n) as [[|b d]|]; try done.
  pose proof (UnixFs_read_done (b :: d)) as Hd. unfold UnixFs_try_from. simpl.
  by destruct (UnixFs_from_reader (b :: d)).
Qed.
End flat.
End Flat.
