(* ===== verification/PbInstance.v ===== *)
(** * A wire format

    A concrete [QuickProtobuf]: base-128 varints, little-endian fixed-width
    integers and length-delimited bytes.  It shows that the interface of
    [Protobuf] can be met and gives the concrete runs something to evaluate;
    no theorem about the code depends on it. *)
From stdpp Require Import base gmap list strings.
From Stdlib Require Import Strings.Byte.
From S2P Require Import Prelude Protobuf.
Local Open Scope Z_scope.

Module WireFormat.

Fixpoint varint (fuel : nat) (v : Z) : list byte :=
  match fuel with
  | O => []
  | S fuel =>
      if bool_decide (v < 128) then [byte_of_Z v]
      else byte_of_Z (v mod 128 + 128) :: varint fuel (v / 128)
  end.

Fixpoint read_varint (bs : list byte) : result (Z * list byte) unit :=
  match bs with
  | [] => Err ()
  | b :: bs =>
      if bool_decide (byte_to_Z b < 128) then Ok (byte_to_Z b, bs)
      else let? (v, rest) := read_varint bs in Ok (byte_to_Z b - 128 + 128 * v, rest)
  end.

Lemma varint_step v : 128 ≤ v → 1 ≤ v / 128 ∧ v = v mod 128 + 128 * (v / 128).
Proof.
  intros. split; [apply Z.div_le_lower_bound; lia|].
  pose proof (Z.div_mod v 128). lia.
Qed.

Lemma read_varint_ok fuel v rest :
  (fuel ≠ 0)%nat → 0 ≤ v < 128 ^ Z.of_nat fuel → read_varint (varint fuel v ++ rest) = Ok (v, rest).
Proof.
  revert v. induction fuel as [|fuel IH]; intros v Hf Hv; [done|].
  rewrite Nat2Z.inj_succ, Z.pow_succ_r in Hv by lia. simpl. case_bool_decide as Hs; simpl.
  - rewrite byte_to_of_Z, Z.mod_small by lia. by rewrite bool_decide_eq_true_2 by lia.
  - pose proof (Z.mod_pos_bound v 128). destruct (varint_step v) as [Hd He]; [lia|].
    rewrite byte_to_of_Z, (Z.mod_small (_ + _)) by lia. rewrite bool_decide_eq_false_2 by lia.
    rewrite IH; [simpl; do 2 f_equal; lia| |lia].
    intros ->. change (128 ^ Z.of_nat 0) with 1 in Hv. lia.
Qed.

Lemma read_varint_shrinks bs v rest : read_varint bs = Ok (v, rest) → (length rest < length bs)%nat.
Proof.
  revert v rest. induction bs as [|b bs IH]; simpl; intros v rest; [done|].
  case_bool_decide; [naive_solver lia|].
  destruct (read_varint bs) as [[v' r]|]; simpl; [|done].
  specialize (IH v' r eq_refl). naive_solver lia.
Qed.

Lemma varint_length fuel v : 0 ≤ v → (fuel ≠ 0)%nat → (1 ≤ length (varint fuel v) ≤ fuel)%nat.
Proof.
  revert v. induction fuel as [|fuel IH]; intros v Hv Hf; [done|]. simpl.
  case_bool_decide; simpl; [lia|]. destruct fuel as [|fuel]; [simpl; lia|].
  specialize (IH (v / 128)). destruct (varint_step v); [lia|]. lia.
Qed.

Definition take_exact (n : nat) (bs : list byte) : result (list byte * list byte) unit :=
  if bool_decide (n ≤ length bs)%nat then Ok (take n bs, drop n bs) else Err ().

Lemma take_exact_app b rest : take_exact (length b) (b ++ rest) = Ok (b, rest).
Proof.
  unfold take_exact. rewrite bool_decide_eq_true_2 by (rewrite length_app; lia).
  by rewrite take_app_length, drop_app_length.
Qed.

Lemma take_exact_shrinks n bs b rest : take_exact n bs = Ok (b, rest) → (length rest ≤ length bs)%nat.
Proof. unfold take_exact. case_bool_decide; [|done]. intros; simplify_eq. rewrite length_drop. lia. Qed.

Definition write_bytes (b : list byte) : list byte := varint 10 (vec_len b) ++ b.
Definition read_bytes (bs : list byte) : result (list byte * list byte) unit :=
  let? (n, rest) := read_varint bs in take_exact (Z.to_nat n) rest.

Lemma u64_varint v : 0 ≤ v < 2 ^ 64 → 0 ≤ v < 128 ^ Z.of_nat 10.
Proof. change (128 ^ Z.of_nat 10) with (2 ^ 70). lia. Qed.

Lemma read_bytes_ok b rest : vec_len b < 2 ^ 64 → read_bytes (write_bytes b ++ rest) = Ok (b, rest).
Proof.
  intros Hb. unfold read_bytes, write_bytes. rewrite <-(assoc_L (++)).
  rewrite read_varint_ok; [simpl|done|apply u64_varint; unfold vec_len in *; lia].
  unfold vec_len. rewrite Nat2Z.id. apply take_exact_app.
Qed.

Lemma read_bytes_shrinks bs b rest :
  read_bytes bs = Ok (b, rest) → (length b ≤ length bs)%nat ∧ (length rest ≤ length bs)%nat.
Proof.
  unfold read_bytes. destruct (read_varint bs) as [[v r]|] eqn:Hr; simpl; [|done].
  apply read_varint_shrinks in Hr. unfold take_exact. case_bool_decide; [|done].
  intros; simplify_eq. rewrite length_drop, length_take. lia.
Qed.

(** Little-endian [u32]. *)
Definition le32 (v : Z) : list byte :=
  [byte_of_Z v; byte_of_Z (v / 256); byte_of_Z (v / 65536); byte_of_Z (v / 16777216)].
Definition read_le32 (bs : list byte) : result (Z * list byte) unit :=
  match bs with
  | b0 :: b1 :: b2 :: b3 :: rest =>
      Ok (byte_to_Z b0 + 256 * byte_to_Z b1 + 65536 * byte_to_Z b2 + 16777216 * byte_to_Z b3, rest)
  | _ => Err ()
  end.

Lemma read_le32_ok v rest : 0 ≤ v < 2 ^ 32 → read_le32 (le32 v ++ rest) = Ok (v, rest).
Proof.
  intros Hv. unfold le32, read_le32. simpl. rewrite !byte_to_of_Z. do 2 f_equal.
  change 65536 with (256 * 256). change 16777216 with (256 * (256 * 256)).
  rewrite <-!Z.div_div by lia.
  pose proof (Z.div_mod v 256). pose proof (Z.div_mod (v / 256) 256).
  pose proof (Z.div_mod (v / 256 / 256) 256).
  assert (v / 256 / 256 / 256 < 256) by (rewrite !Z.div_div by lia; apply Z.div_lt_upper_bound; lia).
  assert (0 ≤ v / 256 / 256 / 256) by (rewrite !Z.div_div by lia; apply Z.div_pos; lia).
  rewrite (Z.mod_small (v / 256 / 256 / 256)) by lia. lia.
Qed.

(** Two's complement in [2 * h] values. *)
Definition signed (h v : Z) : Z :=
  let w := v mod (2 * h) in if bool_decide (w < h) then w else w - 2 * h.

Lemma signed_wrap h v : 0 < h → - h ≤ v < h → signed h (v mod (2 * h)) = v.
Proof.
  intros Hh Hv. unfold signed. rewrite Z.mod_mod by lia.
  destruct (decide (0 ≤ v)).
  - rewrite Z.mod_small by lia. by rewrite bool_decide_eq_true_2 by lia.
  - assert (v mod (2 * h) = v + 2 * h) as ->.
    { symmetry. apply (Z.mod_unique_pos v (2 * h) (-1)); lia. }
    rewrite bool_decide_eq_false_2 by lia. lia.
Qed.

Definition fmap_fst {A B} (f : A → B) (r : result (A * list byte) unit) : result (B * list byte) unit :=
  let? (a, rest) := r in Ok (f a, rest).

Program Definition varint_type (P : Z → Prop) (enc dec : Z → Z)
    (H1 : ∀ v, P v → 0 ≤ enc v < 2 ^ 64) (H2 : ∀ v, P v → dec (enc v) = v) :
    wire_type unit Z P :=
  {| wr := λ v, varint 10 (enc v); rd := λ bs, fmap_fst dec (read_varint bs) |}.
Next Obligation.
  intros P enc dec H1 H2 v rest Hv. change (fmap_fst dec (read_varint (varint 10 (enc v) ++ rest)) = Ok (v, rest)). rewrite read_varint_ok; [|done|auto using u64_varint].
  simpl. by rewrite H2.
Qed.
Next Obligation.
  intros P enc dec H1 H2 bs v rest. cbv beta. destruct (read_varint bs) as [[w r]|] eqn:Hr; simpl; [|done].
  intros; simplify_eq. apply read_varint_shrinks in Hr. lia.
Qed.

Definition read_str (bs : list byte) : result (string * list byte) unit :=
  let? (b, rest) := read_bytes bs in
  if is_utf8 b then Ok (str_of_bytes b, rest) else Err ().

Definition skip (t : Z) (bs : list byte) : result (list byte) unit :=
  if bool_decide (t mod 8 = 0) then let? (_, rest) := read_varint bs in Ok rest
  else if bool_decide (t mod 8 = 1) then let? (_, rest) := take_exact 8 bs in Ok rest
  else if bool_decide (t mod 8 = 2) then let? (_, rest) := read_bytes bs in Ok rest
  else if bool_decide (t mod 8 = 5) then let? (_, rest) := take_exact 4 bs in Ok rest
  else Err ().

Lemma skip_shrinks t bs rest : skip t bs = Ok rest → (length rest ≤ length bs)%nat.
Proof.
  unfold skip. repeat case_bool_decide.
  - destruct (read_varint bs) as [[v r]|] eqn:Hr; simpl; [|done]. intros; simplify_eq.
    apply read_varint_shrinks in Hr. lia.
  - destruct (take_exact 8 bs) as [[v r]|] eqn:Hr; simpl; [|done]. intros; simplify_eq.
    by eapply take_exact_shrinks.
  - destruct (read_bytes bs) as [[v r]|] eqn:Hr; simpl; [|done]. intros; simplify_eq.
    by apply read_bytes_shrinks in Hr as [_ ?].
  - destruct (take_exact 4 bs) as [[v r]|] eqn:Hr; simpl; [|done]. intros; simplify_eq.
    by eapply take_exact_shrinks.
  - done.
Qed.

Definition sizeof (v : Z) : Z := vec_len (varint 10 v).

Lemma sizeof_bound v : 0 ≤ v < 2 ^ 64 → 1 ≤ sizeof v ≤ 10.
Proof. intros Hv. pose proof (varint_length 10 v). unfold sizeof, vec_len. lia. Qed.

Lemma write_bytes_size b : vec_len (write_bytes b) = sizeof (vec_len b) + vec_len b.
Proof. unfold write_bytes, sizeof, vec_len at 1. rewrite length_app. unfold vec_len. lia. Qed.

Program Definition bytes_type : wire_type unit (list byte) (λ b, vec_len b < pb_limit) :=
  {| wr := write_bytes; rd := read_bytes |}.
Next Obligation. intros b rest Hb. apply read_bytes_ok. unfold pb_limit in Hb. simpl in Hb. lia. Qed.
Next Obligation. intros bs b rest Hb. by apply read_bytes_shrinks in Hb as [_ ?]. Qed.

Program Definition str_type : wire_type unit string
    (λ s, vec_len (str_bytes s) < pb_limit ∧ is_utf8 (str_bytes s) = true) :=
  {| wr := λ s, write_bytes (str_bytes s); rd := read_str |}.
Next Obligation.
  intros s rest [Hs Hu]. unfold read_str. rewrite read_bytes_ok by (unfold pb_limit in Hs; lia).
  simpl. by rewrite Hu, str_of_bytes_str_bytes.
Qed.
Next Obligation.
  intros bs b rest. unfold read_str. destruct (read_bytes bs) as [[v r]|] eqn:Hr; simpl; [|done].
  case_match; intros; simplify_eq. by apply read_bytes_shrinks in Hr as [_ ?].
Qed.

Program Definition fixed32_type : wire_type unit Z (λ v, 0 ≤ v < 2 ^ 32) :=
  {| wr := le32; rd := read_le32 |}.
Next Obligation. intros v rest Hv. by apply read_le32_ok. Qed.
Next Obligation.
  intros [|b0 [|b1 [|b2 [|b3 bs]]]] v rest; simpl; intros; simplify_eq. lia.
Qed.

Program Definition boolean_type : wire_type unit bool (λ _, True) :=
  {| wr := λ b, varint 10 (Z.b2z b); rd := λ bs, fmap_fst (λ v, bool_decide (v ≠ 0)) (read_varint bs) |}.
Next Obligation.
  intros b rest _. cbv beta. rewrite read_varint_ok; [|done|destruct b; apply u64_varint; simpl; lia].
  by destruct b.
Qed.
Next Obligation.
  intros bs v rest. cbv beta. destruct (read_varint bs) as [[w r]|] eqn:Hr; simpl; [|done].
  intros; simplify_eq. apply read_varint_shrinks in Hr. lia.
Qed.

Definition read_nested {A} (f : list byte → outcome (result A unit)) (bs : list byte) :
    outcome (result (A * list byte) unit) :=
  let! (b, rest) := Done (read_bytes bs) in
  let! a := f b in Done (Ok (a, rest)).

Program Definition wire_format : QuickProtobuf := {|
  PbError := unit;
  tag := varint_type (λ t, 0 ≤ t < 2 ^ 32) id id _ _;
  uint64 := varint_type (λ v, 0 ≤ v < 2 ^ 64) id id _ _;
  uint32 := varint_type (λ v, 0 ≤ v < 2 ^ 32) id id _ _;
  int32 := varint_type (λ v, - 2 ^ 31 ≤ v < 2 ^ 31) (λ v, v mod 2 ^ 64) (signed (2 ^ 63)) _ _;
  int64 := varint_type (λ v, - 2 ^ 63 ≤ v < 2 ^ 63) (λ v, v mod 2 ^ 64) (signed (2 ^ 63)) _ _;
  fixed32 := fixed32_type;
  boolean := boolean_type;
  bytes := bytes_type;
  str := str_type;
  read_unknown := skip;
  sizeof_varint := sizeof;
  sizeof_len := λ n, sizeof n + n;
  write_message := λ n b, varint 10 n ++ b;
  read_message := @read_nested;
|}.
Solve Obligations with (unfold id; simpl; intros; first [lia | done]).
Next Obligation.
  simpl. intros bs t rest. destruct (read_varint bs) as [[v r]|] eqn:Hr; simpl; [|done].
  intros; simplify_eq. by apply read_varint_shrinks in Hr.
Qed.
Next Obligation. intros v Hv. apply Z.mod_pos_bound. lia. Qed.
Next Obligation. intros v Hv. cbv beta in Hv. apply (signed_wrap (2 ^ 63) v); lia. Qed.
Next Obligation. intros v Hv. apply Z.mod_pos_bound. lia. Qed.
Next Obligation. intros v Hv. cbv beta in Hv. apply (signed_wrap (2 ^ 63) v); lia. Qed.
Next Obligation. intros t bs rest. apply skip_shrinks. Qed.
Next Obligation. intros v Hv. by apply sizeof_bound. Qed.
Next Obligation.
  intros t Ht. unfold vec_len. simpl. unfold id. by rewrite bool_decide_eq_true_2 by lia.
Qed.
Next Obligation. done. Qed.
Next Obligation. done. Qed.
Next Obligation. intros b Hb. apply write_bytes_size. Qed.
Next Obligation. intros s Hs Hu. apply write_bytes_size. Qed.
Next Obligation.
  intros A f b rest Hb. unfold read_nested. simpl wr.
  rewrite read_bytes_ok by (unfold pb_limit in Hb; lia). done.
Qed.
Next Obligation.
  intros A f bs Hf. unfold read_nested. destruct (read_bytes bs) as [[b r]|] eqn:Hr; simpl; [|done].
  apply read_bytes_shrinks in Hr as [Hb _]. specialize (Hf b Hb). by destruct (f b) as [[]| |].
Qed.
Next Obligation.
  intros A f bs a rest. unfold read_nested.
  destruct (read_bytes bs) as [[b r]|] eqn:Hr; simpl; [|done].
  apply read_bytes_shrinks in Hr as [_ Hr]. destruct (f b) as [[]| |]; simpl; [|done..].
  intros; simplify_eq. done.
Qed.
End WireFormat.
