(* ===== verification/FileTree.v ===== *)
(** * UnixFS file trees

    The abstract view of a file that the adder builds and the visitor walks: a
    tree of byte chunks, and what it means that blocks represent such a tree. *)
From stdpp Require Import base gmap list strings.
From Stdlib Require Import Strings.Byte.
From S2P Require Import Prelude Protobuf UnixFsPb.

Module FileTree.
Import Merkledag UnixFsData Flat.

Inductive tree := Leaf (chunk : list byte) | Node (children : list tree).

Fixpoint content (t : tree) : list byte :=
  match t with
  | Leaf chunk => chunk
  | Node ts => concat (content <$> ts)
  end.

Definition contents (ts : list tree) : list byte := concat (content <$> ts).

Definition tree_size (t : tree) : Z := vec_len (content t).

Definition children (t : tree) : list tree := match t with Leaf _ => [] | Node ts => ts end.

(** The number of blocks of a tree, which bounds the length of a visit. *)
Fixpoint tree_blocks (t : tree) : nat :=
  match t with
  | Leaf _ => 1
  | Node ts => S (sum_list_with tree_blocks ts)
  end.

Section tree_ind.
  Context (P : tree → Prop) (HL : ∀ chunk, P (Leaf chunk)) (HN : ∀ ts, Forall P ts → P (Node ts)).
Fixpoint tree_nested_ind (t : tree) : P t :=
  match t with
  | Leaf chunk => HL chunk
  | Node ts =>
      HN ts ((fix go (ts : list tree) : Forall P ts :=
        match ts with
        | [] => Forall_nil_2 P
        | t :: ts => Forall_cons_2 P t ts (tree_nested_ind t) (go ts)
        end) ts)
  end.
End tree_ind.

Lemma contents_cons t ts : contents (t :: ts) = content t ++ contents ts.
Proof. done. Qed.

Lemma contents_app ts us : contents (ts ++ us) = contents ts ++ contents us.
Proof. unfold contents. by rewrite fmap_app, concat_app. Qed.

Lemma tree_size_Node ts : tree_size (Node ts) = Zsum (tree_size <$> ts).
Proof.
  unfold tree_size. simpl. induction ts as [|t ts IH]; [done|].
  cbn. rewrite Pb.vec_len_app. by rewrite IH.
Qed.

Lemma tree_size_nonneg t : (0 ≤ tree_size t)%Z.
Proof. unfold tree_size, vec_len. lia. Qed.

Section represents.
  Context {ids : Ids} {cc : CidCodec} {qp : QuickProtobuf}.

(** A block of a file: the fields that directories or unsupported files use are
    not there. *)
Definition is_file (f : FlatUnixFs) : Prop :=
  (Type_ (data f) = File ∨ Type_ (data f) = Raw) ∧
  hashType (data f) = None ∧ fanout (data f) = None.

Definition no_metadata (f : FlatUnixFs) : Prop :=
  mode (data f) = None ∧ mtime (data f) = None.

(** A link that points to an identifier. *)
Definition links_to (l : PBLink) (c : Cid) : Prop := cid_try_from (default [] (Hash l)) = Ok c.

(** The parsed block [f] describes [t], whose subtrees are at [cs]. *)
Definition describes (f : FlatUnixFs) (t : tree) (cs : list Cid) : Prop :=
  is_file f ∧ filesize (data f) = Some (tree_size t) ∧
  Forall2 links_to (links f) cs ∧ length cs = length (children t) ∧
  blocksizes (data f) = tree_size <$> children t ∧
  match t with
  | Leaf chunk => default [] (Data (data f)) = chunk
  | Node ts => ts ≠ [] ∧ Forall (λ t, 0 < tree_size t)%Z ts
  end.

(** The blocks that [has] holds represent [t] at [c]. *)
Inductive represents (has : Cid → list byte → Prop) (c : Cid) (t : tree) : Prop :=
  | represents_intro b f cs :
      has c b → FlatUnixFs_try_from b = Done (Ok f) → describes f t cs → no_metadata f →
      Forall2 (represents has) cs (children t) → represents has c t.

Lemma represents_mono (has has' : Cid → list byte → Prop) c t :
  (∀ c b, has c b → has' c b) → represents has c t → represents has' c t.
Proof.
  intros Hh. revert c. induction t as [chunk|ts IH] using tree_nested_ind; intros c;
    intros [b f cs Hc Hf Hd Hm Hch]; econstructor; eauto.
  - simpl in *. by apply Forall2_nil_inv_r in Hch as ->.
  - simpl in *. rewrite Forall_forall in IH.
    apply Forall2_same_length_lookup_2; [by eapply Forall2_length|].
    intros i c' t' Hc' Ht'. apply IH; [by eapply list_elem_of_lookup_2|].
    by eapply Forall2_lookup_lr.
Qed.
End represents.
End FileTree.
