(* ===== verification/FileAdder.v ===== *)
(** * Building UnixFS file trees

    unixfs/src/file/adder.rs: [FileAdder] cuts the bytes it is given into
    chunks, emits a leaf block for each and collects the links to them in a
    flat vector, which the balanced collector compresses in place. *)
From stdpp Require Import base gmap list strings.
From Stdlib Require Import Strings.Byte.
From S2P Require Import Prelude Protobuf UnixFsPb FileTree.

Module FileAdder.
Import Merkledag UnixFsData Flat FileTree.

Section adder.
  Context {ids : Ids} {cc : CidCodec} {qp : QuickProtobuf}.

(** A block and its identifier. *)
Definition Block : Type := Cid * list byte.

Record Link := mkLink {
  depth : nat;
  target : Cid;
  total_size : Z;
  file_size : Z;
}.

Inductive Chunker := Size (max : Z).

Definition Chunker_default : Chunker := Size (256 * 1024).

Record BalancedCollector := mkBalanced {
  branching_factor : nat;
  reused_links : list PBLink;
  reused_blocksizes : list Z;
}.

Definition with_branching_factor (branching_factor : nat) : outcome BalancedCollector :=
  rust_assert (bool_decide (0 < branching_factor));;
  mret (mkBalanced branching_factor [] []).

Inductive Collector := Balanced (bc : BalancedCollector).

Record FileAdder := mkAdder {
  chunker : Chunker;
  collector : Collector;
  block_buffer : list byte;
  unflushed_links : list Link;
}.

(** [FileAdderBuilder::build]. *)
Definition build (chunker : Chunker) (collector : Collector) : FileAdder :=
  mkAdder chunker collector [] [].

Definition accept (c : Chunker) (input buffered : list byte) : outcome (list byte * bool) :=
  match c with
  | Size max =>
      room ← usize_sub max (vec_len buffered);
      let l := Z.min (vec_len input) room in
      let accepted := take (Z.to_nat l) input in
      filled ← usize_add (vec_len buffered) l;
      mret (accepted, bool_decide (max ≤ filled)%Z)
  end.

Definition size_hint (c : Chunker) : Z := match c with Size max => max end.

Definition render_and_hash (flat : FlatUnixFs) : Block :=
  let out := FlatUnixFs_write flat in (sha2_256_v0 out, out).

(** ** Leaves *)

Definition leaf_node (input : list byte) : FlatUnixFs :=
  mkFlat []
    (mkUnixFs File (if bool_decide (input = []) then None else Some input)
       (Some (vec_len input)) [] None None None None).

Definition flush_buffered_leaf (input : list byte) (unflushed : list Link) (finishing : bool) :
    option Block * list Link :=
  if bool_decide (input = []) && (negb finishing || negb (bool_decide (unflushed = [])))
  then (None, unflushed)
  else
    let '(cid, vec) := render_and_hash (leaf_node input) in
    let link := mkLink 0 cid (vec_len vec) (vec_len input) in
    (Some (cid, vec), unflushed ++ [link]).

(** ** Link blocks *)

Definition partition_link (link : Link) (links : list PBLink) (blocksizes : list Z)
    (nested_size nested_total_size : Z) : outcome (list PBLink * list Z * Z * Z) :=
  let links := links ++ [mkPBLink (Some (cid_to_bytes (target link))) (Some EmptyString)
                           (Some (total_size link))] in
  let blocksizes := blocksizes ++ [file_size link] in
  nested_size ← u64_add nested_size (file_size link);
  nested_total_size ← u64_add nested_total_size (total_size link);
  mret (links, blocksizes, nested_size, nested_total_size).

(** The [for] loop of [flush_links] over the links of one block. *)
Fixpoint partition_all (level : nat) (ls : list Link) (links : list PBLink) (blocksizes : list Z)
    (nested_size nested_total_size : Z) : outcome (list PBLink * list Z * Z * Z) :=
  match ls with
  | [] => mret (links, blocksizes, nested_size, nested_total_size)
  | link :: ls =>
      rust_assert (bool_decide (depth link = level));;
      r ← partition_link link links blocksizes nested_size nested_total_size;
      let '(links, blocksizes, nested_size, nested_total_size) := r in
      partition_all level ls links blocksizes nested_size nested_total_size
  end.

Definition link_node (links : list PBLink) (blocksizes : list Z) (nested_size : Z) : FlatUnixFs :=
  mkFlat links (mkUnixFs File None (Some nested_size) blocksizes None None None None).

(** What the loops of [flush_links] change. *)
Record flush_state := mkFlush {
  pending : list Link;
  ret : list Block;
  st_links : list PBLink;
  st_blocksizes : list Z;
}.

(** [pending.drain(from..to)]. *)
Definition drain {A} (from to : nat) (l : list A) : outcome (list A) :=
  if bool_decide (from ≤ to ≤ length l) then Done (take from l ++ drop to l) else Panic.

(** [pending[index] = link]. *)
Definition set_index {A} (index : nat) (a : A) (l : list A) : outcome (list A) :=
  if bool_decide (index < length l) then Done (<[index := a]> l) else Panic.

Definition position (level : nat) (ls : list Link) : option nat :=
  fst <$> list_find (λ l, depth l = level) ls.

(** The [while let] loop of [flush_links].  Every iteration moves
    [starting_point] on, so one more than the number of links is enough fuel.
    The boolean says whether the loop ends with [break 'outer]. *)
Fixpoint flush_level (fuel bf : nat) (finishing : bool) (level starting_point : nat)
    (last_overwrite : option nat) (st : flush_state) :
    outcome (bool * option nat * flush_state) :=
  match fuel with
  | O => OutOfFuel
  | S fuel =>
      rust_assert (bool_decide (starting_point ≤ length (pending st)));;
      match position level (drop starting_point (pending st)) with
      | None => mret (false, last_overwrite, st)
      | Some first_at =>
          let first_at := first_at + starting_point in
          if negb finishing && bool_decide (length (drop first_at (pending st)) ≤ bf) then
            pending' ← match last_overwrite with
                       | Some last_overwrite => drain (last_overwrite + 1) first_at (pending st)
                       | None => mret (pending st)
                       end;
            mret (true, last_overwrite,
                  mkFlush pending' (ret st) (st_links st) (st_blocksizes st))
          else
            last ← index_add first_at bf;
            let last := last `min` length (pending st) in
            r ← partition_all level (take (last - first_at) (drop first_at (pending st)))
                  [] [] 0%Z 0%Z;
            let '(links, blocksizes, nested_size, nested_total_size) := r in
            rust_assert (bool_decide (length links = length blocksizes));;
            let '(cid, vec) := render_and_hash (link_node links blocksizes nested_size) in
            let index := match last_overwrite with Some i => i + 1 | None => first_at end in
            total ← u64_add nested_total_size (vec_len vec);
            pending' ← set_index index (mkLink (level + 1) cid total nested_size) (pending st);
            flush_level fuel bf finishing level last (Some index)
              (mkFlush pending' (ret st ++ [(cid, vec)]) links blocksizes)
      end
  end.

(** The ['outer] loop of [flush_links]. *)
Fixpoint flush_levels (fuel bf : nat) (finishing : bool) (level : nat) (st : flush_state) :
    outcome flush_state :=
  match fuel with
  | O => OutOfFuel
  | S fuel =>
      if (bool_decide (length (pending st) = 1) && finishing)
         || (bool_decide (length (pending st) ≤ bf) && negb finishing)
      then mret st
      else
        r ← flush_level (S (length (pending st))) bf finishing level 0 None st;
        let '(break_outer, last_overwrite, st) := r in
        if (break_outer : bool) then mret st
        else
          let pending' := match last_overwrite with
                          | Some i => take (i + 1) (pending st)
                          | None => pending st
                          end in
          rust_assert (bool_decide (position level pending' = None));;
          flush_levels fuel bf finishing (level + 1)
            (mkFlush pending' (ret st) (st_links st) (st_blocksizes st))
  end.

(** [BalancedCollector::flush_links].  The number of levels is not bounded by
    the code; the fuel is an argument, and [flush_fuel] is enough for every
    branching factor of two or more. *)
Definition flush_links (fuel : nat) (c : Collector) (pending_ : list Link) (finishing : bool) :
    outcome (list Block * Collector * list Link) :=
  match c with
  | Balanced bc =>
      st ← flush_levels fuel (branching_factor bc) finishing 0
             (mkFlush pending_ [] (reused_links bc) (reused_blocksizes bc));
      mret (ret st, Balanced (mkBalanced (branching_factor bc) (st_links st) (st_blocksizes st)),
            pending st)
  end.

Definition flush_fuel (pending_ : list Link) : nat := length pending_ + 2.

Definition flush_buffered_links (finishing : bool) (a : FileAdder) :
    outcome (list Block * FileAdder) :=
  r ← flush_links (flush_fuel (unflushed_links a)) (collector a) (unflushed_links a) finishing;
  let '(blocks, collector, links) := r in
  mret (blocks, mkAdder (chunker a) collector (block_buffer a) links).

(** ** The adder *)

Definition option_to_list {A} (o : option A) : list A :=
  match o with Some a => [a] | None => [] end.

(** The two places where [push] completes a chunk. *)
Definition flush_chunk (chunk : list byte) (a : FileAdder) : outcome (list Block * FileAdder) :=
  let '(leaf, unflushed) := flush_buffered_leaf chunk (unflushed_links a) false in
  rust_assert (bool_decide (is_Some leaf));;
  r ← flush_buffered_links false (mkAdder (chunker a) (collector a) [] unflushed);
  let '(links, a) := r in
  mret (option_to_list leaf ++ links, a).

Definition push (input : list byte) (a : FileAdder) : outcome (list Block * Z * FileAdder) :=
  r ← accept (chunker a) input (block_buffer a);
  let '(accepted, ready) := r in
  if bool_decide (block_buffer a = []) && ready then
    r ← flush_chunk accepted a;
    let '(blocks, a) := r in
    mret (blocks, vec_len accepted, a)
  else
    let a := mkAdder (chunker a) (collector a) (block_buffer a ++ accepted) (unflushed_links a) in
    let written := vec_len accepted in
    if negb ready then mret ([], written, a)
    else
      r ← flush_chunk (block_buffer a) a;
      let '(blocks, a) := r in
      mret (blocks, written, a).

Definition finish (a : FileAdder) : outcome (list Block) :=
  let '(last_leaf, unflushed) := flush_buffered_leaf (block_buffer a) (unflushed_links a) true in
  r ← flush_buffered_links true (mkAdder (chunker a) (collector a) (block_buffer a) unflushed);
  let '(root_links, _) := r in
  mret (option_to_list last_leaf ++ root_links).

(** Pushing a whole buffer, [while total < buffer.len() { push(&buffer[total..]) }]
    (src/unixfs/add.rs and the tests' [collect_blocks]). *)
Fixpoint push_buffer (fuel : nat) (buffer : list byte) (a : FileAdder) :
    outcome (list Block * FileAdder) :=
  match fuel with
  | O => OutOfFuel
  | S fuel =>
      if bool_decide (buffer = []) then mret ([], a)
      else
        r ← push buffer a;
        let '(blocks, consumed, a) := r in
        r ← push_buffer fuel (drop (Z.to_nat consumed) buffer) a;
        let '(more, a) := r in
        mret (blocks ++ more, a)
  end.

(** Pushing a stream of buffers, each with its length as fuel. *)
Fixpoint push_buffers (buffers : list (list byte)) (a : FileAdder) :
    outcome (list Block * FileAdder) :=
  match buffers with
  | [] => mret ([], a)
  | b :: buffers =>
      r ← push_buffer (S (length b)) b a;
      let '(blocks, a) := r in
      r ← push_buffers buffers a;
      let '(more, a) := r in
      mret (blocks ++ more, a)
  end.

(** All blocks of a file given as a stream of buffers. *)
Definition add_buffers (buffers : list (list byte)) (a : FileAdder) : outcome (list Block) :=
  r ← push_buffers buffers a;
  let '(blocks, a) := r in
  last_blocks ← finish a;
  mret (blocks ++ last_blocks).

(** ** Link blocks represent trees *)

(** Bounds under which no size overflows and every block is short enough for
    the wire format: chunks up to 1 GiB, up to 2^24 links in a block, files up to
    2^48 bytes. *)
Definition max_chunk : Z := 2 ^ 30.
Definition max_branching : Z := 2 ^ 24.
Definition max_content : Z := 2 ^ 48.

(** [l] links to the tree [t], whose blocks are in [out]. *)
Record link_ok (out : list Block) (l : Link) (t : tree) : Prop := {
  link_rep : represents (λ c b, (c, b) ∈ out) (target l) t;
  link_cid : vec_len (cid_to_bytes (target l)) = 34%Z;
  link_file_size : file_size l = tree_size t;
  link_positive : (0 < tree_size t)%Z;
  link_total_size : (0 ≤ total_size l ≤ tree_size t * (1 + 256 * (Z.of_nat (depth l) + 1)))%Z;
}.

Lemma link_ok_mono out out' l t : out ⊆ out' → link_ok out l t → link_ok out' l t.
Proof.
  intros Hs [? ? ? ? ?]. split; try done. eapply represents_mono; [|done]. simpl. auto.
Qed.

Lemma links_ok_mono out out' ls ts :
  out ⊆ out' → Forall2 (link_ok out) ls ts → Forall2 (link_ok out') ls ts.
Proof. intros Hs Hl. eapply Forall2_impl; [done|]. intros. by eapply link_ok_mono. Qed.

Definition pb_link (l : Link) : PBLink :=
  mkPBLink (Some (cid_to_bytes (target l))) (Some EmptyString) (Some (total_size l)).

Lemma partition_all_ok level ls pls bs n t :
  Forall (λ l, depth l = level ∧ 0 ≤ file_size l ∧ 0 ≤ total_size l)%Z ls →
  (0 ≤ n)%Z → (0 ≤ t)%Z →
  (n + Zsum (file_size <$> ls) ≤ usize_max)%Z → (t + Zsum (total_size <$> ls) ≤ usize_max)%Z →
  partition_all level ls pls bs n t =
  Done (pls ++ (pb_link <$> ls), bs ++ (file_size <$> ls),
        (n + Zsum (file_size <$> ls))%Z, (t + Zsum (total_size <$> ls))%Z).
Proof.
  intros Hls. revert pls bs n t.
  induction Hls as [|l ls (Hd & Hf & Ht) Hls IH]; intros pls bs n t Hn Ht0 Hn1 Ht1.
  { simpl. rewrite !app_nil_r, !Z.add_0_r. done. }
  assert (0 ≤ Zsum (file_size <$> ls) ∧ 0 ≤ Zsum (total_size <$> ls))%Z as [? ?].
  { split; apply Zsum_nonneg, Forall_fmap; eapply Forall_impl; try done; simpl; tauto. }
  rewrite !fmap_cons in Hn1, Ht1. cbn [Zsum foldr] in Hn1, Ht1. fold Zsum in Hn1, Ht1.
  cbn [partition_all]. rewrite bool_decide_eq_true_2 by done. cbn [rust_assert mbind outcome_bind].
  unfold partition_link, u64_add.
  rewrite !checked_ok by (unfold Zsum in *; lia). cbn [mbind outcome_bind mret outcome_ret].
  rewrite IH by (unfold Zsum in *; lia). rewrite !fmap_cons, <-!(assoc_L (++)).
  do 2 f_equal; [f_equal|]; cbn; unfold Zsum; lia.
Qed.

(** One link block: the body of the loop of [flush_links] on the links [ls]. *)
Definition link_block (level : nat) (ls : list Link) : outcome (Link * Block) :=
  r ← partition_all level ls [] [] 0%Z 0%Z;
  let '(links, blocksizes, nested_size, nested_total_size) := r in
  let '(cid, vec) := render_and_hash (link_node links blocksizes nested_size) in
  total ← u64_add nested_total_size (vec_len vec);
  mret (mkLink (level + 1) cid total nested_size, (cid, vec)).

Lemma varint_u64 v : (0 ≤ v ≤ usize_max)%Z → (1 ≤ sizeof_varint v ≤ 10)%Z.
Proof. intros. apply sizeof_varint_bound. unfold usize_max in *. lia. Qed.

Lemma len_u64 n : (0 ≤ n ≤ usize_max)%Z → (n + 1 ≤ sizeof_len n ≤ n + 10)%Z.
Proof.
  intros Hn. pose proof (varint_u64 n Hn). rewrite sizeof_len_eq; [lia|]. unfold usize_max in *. lia.
Qed.

Lemma leaf_node_range input :
  (0 < vec_len input ≤ max_chunk)%Z ∨ input = [] →
  FlatUnixFs_range (leaf_node input) ∧
  (0 ≤ FlatUnixFs_get_size (leaf_node input) ≤ vec_len input + 44)%Z.
Proof.
  intros Hi. assert (0 ≤ vec_len input ≤ 2 ^ 30)%Z as Hlen.
  { destruct Hi as [?| ->]; [unfold max_chunk in *; lia|done]. }
  pose proof (varint_u64 2 ltac:(unfold usize_max; lia)).
  pose proof (varint_u64 (vec_len input) ltac:(unfold usize_max; lia)).
  pose proof (len_u64 (vec_len input) ltac:(unfold usize_max; lia)).
  assert (0 ≤ UnixFs_get_size (data (leaf_node input)) ≤ vec_len input + 33)%Z as Hs.
  { unfold UnixFs_get_size, leaf_node. simpl. case_bool_decide; simpl; lia. }
  assert (UnixFs_get_size (data (leaf_node input)) ≤ usize_max)%Z as Hs' by (unfold usize_max; lia).
  pose proof (len_u64 _ (conj (proj1 Hs) Hs')).
  split.
  - unfold FlatUnixFs_range, leaf_node in *. split_and!; [constructor| |unfold pb_limit; lia].
    unfold UnixFs_range, UnixFsData.u64_range. simpl. split_and!; try done; [|lia..].
    case_bool_decide; simpl; [done|]. unfold pb_limit; lia.
  - unfold FlatUnixFs_get_size. change (links (leaf_node input)) with (@nil PBLink).
    change (Zsum (_ <$> [])) with 0%Z. lia.
Qed.
Lemma leaf_represents (out : list Block) input :
  (0 < vec_len input ≤ max_chunk)%Z ∨ input = [] →
  render_and_hash (leaf_node input) ∈ out →
  represents (λ c b, (c, b) ∈ out) (render_and_hash (leaf_node input)).1 (Leaf input).
Proof.
  intros Hi Hin. destruct (leaf_node_range input Hi) as [Hr _].
  refine (represents_intro _ _ _ _ (leaf_node input) [] Hin _ _ _ _).
  - by apply FlatUnixFs_read_write.
  - unfold describes, is_file, leaf_node. simpl. split_and!; try done; [by left|].
    case_bool_decide; [by subst|done].
  - done.
  - constructor.
Qed.

Lemma leaf_link_ok (out : list Block) input :
  (0 < vec_len input ≤ max_chunk)%Z →
  let '(cid, vec) := render_and_hash (leaf_node input) in
  (cid, vec) ∈ out → link_ok out (mkLink 0 cid (vec_len vec) (vec_len input)) (Leaf input).
Proof.
  intros Hi. destruct (leaf_node_range input (or_introl Hi)) as [Hr Hs]. simpl. intros Hin.
  split; simpl; [by apply leaf_represents; [left|]|apply sha2_256_v0_length|done|unfold tree_size; simpl; lia|].
  rewrite FlatUnixFs_size by done. unfold tree_size. simpl. lia.
Qed.

Lemma pb_link_range l :
  vec_len (cid_to_bytes (target l)) = 34%Z → (0 ≤ total_size l ≤ usize_max)%Z →
  PBLink_range (pb_link l) ∧ (0 ≤ 1 + sizeof_len (PBLink_get_size (pb_link l)) ≤ 78)%Z.
Proof.
  intros Hc Ht. pose proof (varint_u64 _ Ht).
  pose proof (len_u64 34 ltac:(unfold usize_max; lia)).
  pose proof (len_u64 0 ltac:(unfold usize_max; lia)).
  assert (0 ≤ PBLink_get_size (pb_link l) ≤ 67)%Z as Hs.
  { unfold PBLink_get_size. simpl. rewrite Hc. change (vec_len []) with 0%Z. lia. }
  assert (PBLink_get_size (pb_link l) ≤ usize_max)%Z as Hs' by (unfold usize_max; lia).
  pose proof (len_u64 _ (conj (proj1 Hs) Hs')). split; [|lia].
  split; [|unfold pb_limit; lia]. unfold PBLink_fields_range, str_range, pb_limit. simpl.
  rewrite Hc. unfold usize_max in *. split_and!; try done; lia.
Qed.

Lemma Zsum_bound {A} (f : A → Z) (c : Z) (l : list A) :
  Forall (λ x, 0 ≤ f x ≤ c)%Z l → (0 ≤ Zsum (f <$> l) ≤ c * vec_len l)%Z.
Proof.
  induction 1 as [|x l Hx Hl IH]; [unfold vec_len; simpl; lia|].
  rewrite fmap_cons. unfold vec_len in *. cbn [Zsum foldr length]. fold Zsum. unfold Zsum in *. lia.
Qed.

Lemma link_node_range ls n :
  Forall (λ l, vec_len (cid_to_bytes (target l)) = 34 ∧ 0 ≤ total_size l ≤ usize_max ∧
               0 ≤ file_size l ≤ usize_max)%Z ls →
  (vec_len ls ≤ max_branching)%Z → (0 ≤ n ≤ usize_max)%Z →
  FlatUnixFs_range (link_node (pb_link <$> ls) (file_size <$> ls) n) ∧
  (0 ≤ FlatUnixFs_get_size (link_node (pb_link <$> ls) (file_size <$> ls) n)
     ≤ 89 * vec_len ls + 33)%Z.
Proof.
  intros Hl Hlen Hn. set (f := link_node _ _ _).
  assert (0 ≤ vec_len ls ≤ 2 ^ 24)%Z as Hk by (unfold vec_len, max_branching in *; lia).
  pose proof (varint_u64 2 ltac:(unfold usize_max; lia)). pose proof (varint_u64 n Hn).
  assert (0 ≤ Zsum ((λ s, 1 + sizeof_varint s) <$> (file_size <$> ls)) ≤ 11 * vec_len ls)%Z as Hb.
  { rewrite <-list_fmap_compose. apply Zsum_bound. eapply Forall_impl; [done|].
    intros l (_ & _ & Hf). simpl. pose proof (varint_u64 _ Hf). lia. }
  assert (0 ≤ Zsum ((λ s, 1 + sizeof_len (PBLink_get_size s)) <$> (pb_link <$> ls))
            ≤ 78 * vec_len ls)%Z as Hp.
  { rewrite <-list_fmap_compose. apply Zsum_bound. eapply Forall_impl; [done|].
    intros l (Hc & Ht & _). simpl. by destruct (pb_link_range l Hc Ht). }
  assert (0 ≤ UnixFs_get_size (data f) ≤ 22 + 11 * vec_len ls)%Z as Hs.
  { unfold UnixFs_get_size, f, link_node. simpl. unfold fmap in *. lia. }
  assert (UnixFs_get_size (data f) ≤ usize_max)%Z as Hs' by (unfold usize_max; lia).
  pose proof (len_u64 _ (conj (proj1 Hs) Hs')).
  split.
  - split_and!; [|split_and!; try done; simpl|unfold pb_limit; lia].
    + unfold f. simpl. apply Forall_fmap. eapply Forall_impl; [done|].
      intros l (Hc & Ht & _). simpl. by destruct (pb_link_range l Hc Ht).
    + unfold UnixFsData.u64_range, usize_max in *. lia.
    + apply Forall_fmap. eapply Forall_impl; [done|]. intros l (_ & _ & Hf). simpl.
      unfold UnixFsData.u64_range, usize_max in *. lia.
  - unfold FlatUnixFs_get_size. change (links f) with (pb_link <$> ls). lia.
Qed.

(** The sums that a link block adds up. *)
Lemma links_sums out level ls ts :
  Forall2 (link_ok out) ls ts → Forall (λ l, depth l = level) ls →
  (Zsum (tree_size <$> ts) ≤ max_content)%Z → level ≤ 62 →
  Zsum (file_size <$> ls) = Zsum (tree_size <$> ts) ∧
  (0 ≤ Zsum (total_size <$> ls)
     ≤ Zsum (tree_size <$> ts) * (1 + 256 * (Z.of_nat level + 1)))%Z ∧
  (vec_len ls ≤ Zsum (tree_size <$> ts))%Z ∧
  Forall (λ l, vec_len (cid_to_bytes (target l)) = 34 ∧ 0 ≤ total_size l ≤ usize_max ∧
               0 ≤ file_size l ≤ usize_max ∧ depth l = level)%Z ls.
Proof.
  intros Hok. induction Hok as [|l t ls ts Hl Hok IH]; intros Hd Hs Hlev.
  { simpl. unfold vec_len. simpl. split_and!; [done|lia|lia|lia|constructor]. }
  apply Forall_cons in Hd as [Hdl Hd]. rewrite !fmap_cons in *.
  destruct Hl as [_ Hc Hf Hp Ht]. rewrite Hdl in Ht.
  assert (0 ≤ Zsum (tree_size <$> ts))%Z.
  { apply Zsum_nonneg, Forall_fmap, Forall_true. apply tree_size_nonneg. }
  unfold Zsum in *. cbn [foldr] in *.
  destruct IH as (IH1 & IH2 & IH3 & IH4); [done|lia|done|].
  unfold vec_len in *. cbn [length]. unfold max_content, usize_max in *.
  assert (tree_size t * (1 + 256 * (Z.of_nat level + 1)) ≤ 2 ^ 48 * (1 + 256 * 63))%Z by nia.
  split_and!; [lia|lia|nia|lia|]. constructor; [|done]. split_and!; try done; lia.
Qed.

Lemma link_node_describes out ls ts :
  ls ≠ [] → Forall2 (link_ok out) ls ts → Zsum (file_size <$> ls) = Zsum (tree_size <$> ts) →
  describes (link_node (pb_link <$> ls) (file_size <$> ls) (Zsum (tree_size <$> ts)))
    (Node ts) (target <$> ls).
Proof.
  intros Hne Hok Hs. unfold describes, is_file, link_node. simpl.
  split_and!; try done; [by left|by rewrite tree_size_Node|..].
  - apply Forall2_fmap. clear. induction ls as [|l ls IH]; constructor; [|done].
    apply cid_try_from_to_bytes.
  - by rewrite length_fmap, (Forall2_length _ _ _ Hok).
  - clear Hs Hne. induction Hok as [|l t ls ts Hl _ IH]; [done|]. rewrite !fmap_cons, IH.
    f_equal. apply Hl.
  - intros ->. by apply Forall2_nil_inv_r in Hok.
  - clear Hs Hne. induction Hok as [|l t ls ts Hl _ IH]; constructor; [apply Hl|done].
Qed.

Lemma link_block_ok out level ls ts :
  ls ≠ [] → Forall2 (link_ok out) ls ts → Forall (λ l, depth l = level) ls →
  (vec_len ls ≤ max_branching)%Z → (vec_len (contents ts) ≤ max_content)%Z → level ≤ 62 →
  ∃ l b, link_block level ls = Done (l, b) ∧ depth l = level + 1 ∧ target l = b.1 ∧
    link_ok (out ++ [b]) l (Node ts).
Proof.
  intros Hne Hok Hd Hlen Hsize Hlev.
  change (vec_len (contents ts)) with (tree_size (Node ts)) in Hsize.
  rewrite tree_size_Node in Hsize.
  destruct (links_sums out level ls ts) as (Hfs & Hts & Hn & Hall); try done.
  assert (0 ≤ Zsum (tree_size <$> ts) ≤ usize_max)%Z as Hfr by (unfold max_content, usize_max in *; lia).
  destruct (link_node_range ls (Zsum (tree_size <$> ts))) as [Hr Hs]; [|done|done|].
  { eapply Forall_impl; [done|]. intros l (? & ? & ? & ?). done. }
  set (f := link_node (pb_link <$> ls) (file_size <$> ls) (Zsum (tree_size <$> ts))) in *.
  set (b := render_and_hash f).
  assert (1 ≤ vec_len ls)%Z as H1 by (destruct ls; [done|unfold vec_len; simpl; lia]).
  assert (vec_len b.2 ≤ 122 * Zsum (tree_size <$> ts))%Z as Hb.
  { unfold b. simpl. rewrite FlatUnixFs_size by done.
    lia. }
  assert (0 ≤ vec_len b.2)%Z by apply Pb.vec_len_nonneg.
  exists (mkLink (level + 1) b.1 (Zsum (total_size <$> ls) + vec_len b.2) (Zsum (tree_size <$> ts))), b.
  split_and!; [|done|done|].
  - unfold link_block. rewrite partition_all_ok; [| |lia|lia|..].
    + rewrite Hfs, !Z.add_0_l, !app_nil_l. cbn [mbind outcome_bind]. fold f b.
      rewrite (surjective_pairing b). unfold u64_add. rewrite checked_ok; [done|].
      cbn [snd]. unfold max_content, usize_max in *. nia.
    + eapply Forall_impl; [done|]. simpl. intros l (? & ? & ? & ?). split_and!; [done|lia|lia].
    + rewrite Hfs. lia.
    + unfold max_content, usize_max in *. nia.
  - split; simpl.
    + eapply (represents_intro _ _ _ (b.2) f (target <$> ls)).
      * apply elem_of_app. right. by apply list_elem_of_singleton.
      * by apply FlatUnixFs_read_write.
      * apply (link_node_describes out); try done.
      * done.
      * apply Forall2_fmap_l. eapply Forall2_impl; [done|]. intros l t Hl.
        eapply represents_mono; [|apply Hl]. simpl. set_solver.
    + apply sha2_256_v0_length.
    + by rewrite tree_size_Node.
    + rewrite tree_size_Node. lia.
    + change (FlatUnixFs_write f) with b.2. rewrite tree_size_Node, Nat2Z.inj_add. split; lia.
Qed.

(** ** The in-place loop

    While a level is compressed, [pending] is [P ++ G ++ R]: the links that stay
    and the new ones, slots that are already compressed, and the rest of the
    level.  The cursor relates the loop's indices to that split. *)
Inductive cursor (level : nat) (P G : list Link) : option nat → nat → Prop :=
  | cursor_start : G = [] → Forall (λ l, depth l ≠ level) P → cursor level P G None 0
  | cursor_next i : i + 1 = length P → cursor level P G (Some i) (length P + length G).

Lemma position_none level P : Forall (λ l, depth l ≠ level) P → position level P = None.
Proof.
  unfold position. induction 1 as [|x P Hx _ IH]; simpl; [done|].
  rewrite decide_False by done. by destruct (list_find _ P) as [[]|].
Qed.

Lemma position_skip level P x R :
  Forall (λ l, depth l ≠ level) P → depth x = level → position level (P ++ x :: R) = Some (length P).
Proof.
  unfold position. intros HP Hx. induction HP as [|y P Hy _ IH]; simpl.
  - by rewrite decide_True.
  - rewrite decide_False by done. destruct (list_find _ (P ++ x :: R)) as [[]|]; simpl in *; naive_solver.
Qed.

Lemma cursor_position level P G lo start x R :
  cursor level P G lo start → depth x = level →
  (λ i, i + start) <$> position level (drop start (P ++ G ++ x :: R)) = Some (length P + length G) ∧
  match lo with Some i => i + 1 | None => length P + length G end = length P.
Proof.
  intros [-> HP|i Hi] Hx; simpl.
  - rewrite drop_0, position_skip by done. simpl. split; [f_equal; lia|lia].
  - rewrite (assoc_L (++)), <-length_app, drop_app_length. unfold position. simpl.
    by rewrite decide_True.
Qed.

Lemma cursor_end level P G lo start :
  cursor level P G lo start →
  position level (drop start (P ++ G)) = None ∧
  match lo with Some i => take (i + 1) (P ++ G) | None => P ++ G end = P.
Proof.
  intros [-> HP|i Hi]; simpl.
  - rewrite drop_0, app_nil_r. split; [by apply position_none|done].
  - rewrite <-length_app, drop_all, Hi, take_app_length. done.
Qed.

Lemma cursor_bound level P G lo start R :
  cursor level P G lo start → start ≤ length (P ++ G ++ R).
Proof. intros [-> _|i Hi]; rewrite !length_app; lia. Qed.

Lemma partition_all_lengths level ls pls bs n t pls' bs' n' t' :
  partition_all level ls pls bs n t = Done (pls', bs', n', t') →
  length pls = length bs → length pls' = length bs'.
Proof.
  revert pls bs n t. induction ls as [|l ls IH]; simpl; intros pls bs n t Hp Hlen.
  - by inv_outcome.
  - inv_outcome. destruct a0 as [[[p1 b1] n1] t1]. unfold partition_link, u64_add in Ha0. inv_outcome.
    eapply IH; [done|]. rewrite !length_app. simpl. lia.
Qed.

(** One iteration of the loop. *)
Lemma flush_level_step fuel bf finishing level P G g R lo start st l b :
  cursor level P G lo start → pending st = P ++ G ++ g ++ R →
  g ≠ [] → Forall (λ l, depth l = level) g → (length g = bf ∨ length g ≤ bf ∧ R = []) →
  (finishing = true ∨ bf < length (g ++ R)) → (Z.of_nat (length P + length G + bf) ≤ usize_max)%Z →
  link_block level g = Done (l, b) →
  ∃ sl sb, flush_level (S fuel) bf finishing level start lo st =
    flush_level fuel bf finishing level (length (P ++ [l]) + length (tail (G ++ g))) (Some (length P))
      (mkFlush ((P ++ [l]) ++ tail (G ++ g) ++ R) (ret st ++ [b]) sl sb).
Proof.
  intros Hcur Hp Hg Hd Hlen Hfin Hbf Hblk. destruct g as [|x g]; [done|].
  unfold link_block in Hblk. apply bind_Done in Hblk as ([[[pls bs] n] t] & Ha & Hblk).
  unfold render_and_hash, u64_add in Hblk. apply bind_Done in Hblk as (tot & Htot & Hblk).
  apply checked_Done in Htot as [-> Htot]. injection Hblk as <- <-.
  apply Forall_cons in Hd as Hd'. destruct Hd' as [Hx _].
  destruct (cursor_position level P G lo start x (g ++ R) Hcur Hx) as [Hpos Hidx].
  exists pls, bs. cbn [flush_level]. rewrite Hp.
  rewrite bool_decide_eq_true_2 by (by eapply cursor_bound). cbn [rust_assert mbind outcome_bind].
  cbn [app] in *. destruct (position level _) as [i|]; [|done].
  cbn [fmap option_fmap option_map] in Hpos. injection Hpos as Hpos. rewrite Hpos.
  assert (drop (length P + length G) (P ++ G ++ x :: g ++ R) = x :: g ++ R) as Hdrop.
  { rewrite (assoc_L (++)), <-length_app. apply drop_app_length. }
  rewrite Hdrop.
  replace (negb finishing && _) with false; last first.
  { destruct Hfin as [-> |Hfin]; [done|]. rewrite bool_decide_eq_false_2; [by rewrite andb_false_r|].
    simpl in *. lia. }
  rewrite index_add_ok by done. cbn [mbind outcome_bind].
  assert ((length P + length G + bf) `min` length (P ++ G ++ x :: g ++ R) =
    length P + length G + length (x :: g)) as Hlast.
  { rewrite !length_app. simpl. rewrite length_app. destruct Hlen as [<-|[Hlen ->]]; simpl in *; lia. }
  rewrite Hlast. replace (length P + length G + length (x :: g) - (length P + length G))
    with (length (x :: g)) by lia.
  assert (take (length (x :: g)) (x :: g ++ R) = x :: g) as Htake by apply (take_app_length (x :: g)).
  rewrite Htake, Ha. cbn [mbind outcome_bind].
  rewrite bool_decide_eq_true_2 by (by eapply partition_all_lengths). cbn [rust_assert mbind outcome_bind].
  unfold render_and_hash, u64_add. rewrite Hidx. rewrite checked_ok by done.
  cbn [mbind outcome_bind]. unfold set_index.
  rewrite bool_decide_eq_true_2 by (rewrite !length_app; simpl; lia). cbn [mbind outcome_bind].
  f_equal.
  - rewrite length_app. destruct G as [|y G]; simpl; [lia|]. rewrite length_app. simpl. lia.
  - f_equal. rewrite insert_app_r_alt, Nat.sub_diag by done.
    rewrite <-(assoc_L (++)). f_equal. destruct G as [|y G]; simpl; [done|].
    by rewrite <-(assoc_L (++)).
Qed.

(** A compressed level: the new links [N] hold what the links [R] held. *)
Record compressed (bf level : nat) (out : list Block) (R : list Link) (ts : list tree)
    (N : list Link) (us : list tree) (blks : list Block) : Prop := {
  comp_ok : Forall2 (link_ok (out ++ blks)) N us;
  comp_contents : contents us = contents ts;
  comp_depth : Forall (λ l, depth l = level + 1) N;
  comp_count : bf * length N < length R + bf;
  comp_nil : N = [] → R = [];
  comp_last : last blks.*1 = target <$> last N;
}.

(** Everything that is assumed of a level that is to be compressed. *)
Record level_ok (bf level : nat) (out : list Block) (R : list Link) (ts : list tree) : Prop := {
  lev_bf : 1 ≤ bf;
  lev_bf_max : (Z.of_nat bf ≤ max_branching)%Z;
  lev_level : level ≤ 62;
  lev_depth : Forall (λ l, depth l = level) R;
  lev_ok : Forall2 (link_ok out) R ts;
  lev_size : (vec_len (contents ts) ≤ max_content)%Z;
}.

Lemma level_ok_drop bf level out out' R ts :
  out ⊆ out' → level_ok bf level out R ts → level_ok bf level out' (drop bf R) (drop bf ts).
Proof.
  intros Ho [Hbf Hmax Hlev Hd Hok Hs]. split; try done.
  - by apply Forall_drop.
  - apply Forall2_drop. by eapply links_ok_mono.
  - rewrite <-(take_drop bf ts), contents_app, Pb.vec_len_app in Hs.
    pose proof (Pb.vec_len_nonneg (contents (take bf ts))). lia.
Qed.

Lemma level_ok_block bf level out R ts :
  level_ok bf level out R ts → R ≠ [] →
  ∃ l b, link_block level (take bf R) = Done (l, b) ∧ depth l = level + 1 ∧ target l = b.1 ∧
    link_ok (out ++ [b]) l (Node (take bf ts)).
Proof.
  intros [Hbf Hmax Hlev Hd Hok Hs] HR. apply link_block_ok; try done.
  - destruct R, bf; simpl; [done|done|lia|done].
  - by apply Forall2_take.
  - by apply Forall_take.
  - unfold vec_len. rewrite length_take. lia.
  - rewrite <-(take_drop bf ts), contents_app, Pb.vec_len_app in Hs.
    pose proof (Pb.vec_len_nonneg (contents (drop bf ts))). lia.
Qed.

Lemma compressed_cons bf level out R ts l b N us blks :
  level_ok bf level out R ts → R ≠ [] → depth l = level + 1 → target l = b.1 →
  link_ok (out ++ [b]) l (Node (take bf ts)) →
  compressed bf level (out ++ [b]) (drop bf R) (drop bf ts) N us blks →
  compressed bf level out R ts (l :: N) (Node (take bf ts) :: us) (b :: blks).
Proof.
  intros Hl HR Hd Ht Hlk [Hok Hc Hde Hcount Hnil Hlast].
  assert (out ++ b :: blks = (out ++ [b]) ++ blks) as Ho by by rewrite <-(assoc_L (++)).
  split.
  - rewrite Ho. constructor; [|done]. eapply link_ok_mono; [|done]. set_solver.
  - rewrite contents_cons, Hc. rewrite <-(take_drop bf ts) at 3. by rewrite contents_app.
  - by constructor.
  - rewrite length_drop in Hcount. destruct Hl. simpl.
    assert (1 ≤ length R) by (destruct R; [done|simpl; lia]).
    rewrite Nat.mul_succ_r. destruct (decide (length R ≤ bf)); [|lia].
    assert (length N = 0) as -> by nia. lia.
  - done.
  - rewrite fmap_cons, !last_cons, Hlast. destruct (last N); simpl; [done|]. by rewrite Ht.
Qed.

Lemma flush_level_finishing bf level fuel P G R ts lo start st out :
  cursor level P G lo start → pending st = P ++ G ++ R → length R < fuel →
  level_ok bf level out R ts → (Z.of_nat (length (pending st) + bf) ≤ usize_max)%Z →
  ∃ N us blks G' lo' start' st',
    flush_level fuel bf true level start lo st = Done (false, lo', st') ∧
    cursor level (P ++ N) G' lo' start' ∧ pending st' = (P ++ N) ++ G' ∧
    ret st' = ret st ++ blks ∧ compressed bf level out R ts N us blks.
Proof.
  revert P G R ts lo start st out. induction fuel as [|fuel IH];
    intros P G R ts lo start st out Hcur Hp Hfuel Hlev Hmax; [lia|].
  destruct (decide (R = [])) as [->|HR].
  - rewrite app_nil_r in Hp. destruct (cursor_end _ _ _ _ _ Hcur) as [Hpos _].
    exists [], [], [], G, lo, start, st. cbn [flush_level]. rewrite Hp, !app_nil_r, Hpos.
    rewrite bool_decide_eq_true_2.
    2:{ pose proof (cursor_bound _ _ _ _ _ [] Hcur) as Hb. by rewrite app_nil_r in Hb. }
    split_and!; try done. destruct Hlev as [? ? ? ? Hok ?].
    apply Forall2_nil_inv_l in Hok as ->. split; try done. simpl. lia.
  - destruct (level_ok_block _ _ _ _ _ Hlev HR) as (l & b & Hblk & Hdl & Htl & Hlk).
    pose proof Hlev as [Hbf _ _ Hd _ _].
    destruct (flush_level_step fuel bf true level P G (take bf R) (drop bf R) lo start st l b)
      as (sl & sb & Hstep); try done; [by rewrite take_drop|..].
    { destruct R, bf; simpl; [done|done|lia|done]. }
    { by apply Forall_take. }
    { rewrite length_take. destruct (decide (bf ≤ length R)); [left; lia|right].
      split; [lia|]. apply drop_ge. lia. }
    { by left. }
    { rewrite Hp, !length_app in Hmax. lia. }
    rewrite Hstep. set (G1 := tail (G ++ take bf R)).
    destruct (IH (P ++ [l]) G1 (drop bf R) (drop bf ts) (Some (length P))
      (length (P ++ [l]) + length G1) (mkFlush ((P ++ [l]) ++ G1 ++ drop bf R) (ret st ++ [b]) sl sb)
      (out ++ [b])) as (N & us & blks & G' & lo' & start' & st' & Hrun & Hcur' & Hp' & Hret & Hcomp).
    + constructor. rewrite length_app. simpl. lia.
    + done.
    + rewrite length_drop. destruct R; [done|]. simpl in *. lia.
    + eapply level_ok_drop; [|done]. set_solver.
    + cbn [pending]. rewrite Hp, !length_app in Hmax. rewrite !length_app, length_drop. simpl.
      assert (length G1 + 1 = length (G ++ take bf R)).
      { unfold G1. destruct (G ++ take bf R) eqn:E; simpl; [|lia].
        apply app_eq_nil in E as [_ E]. destruct R, bf; simpl in *; done || lia. }
      rewrite length_app, length_take in *. lia.
    + exists (l :: N), (Node (take bf ts) :: us), (b :: blks), G', lo', start', st'.
      rewrite <-(assoc_L (++) P [l] N) in Hcur', Hp'. split_and!; try done.
      * rewrite Hret. simpl. by rewrite <-(assoc_L (++)).
      * by eapply compressed_cons.
Qed.

(** One round of the ['outer] loop when finishing: the links [H] are already one
    level up. *)
Lemma flush_levels_round fuel bf level H R ts st out :
  pending st = H ++ R → length (pending st) ≠ 1 → Forall (λ l, depth l = level + 1) H →
  level_ok bf level out R ts → (Z.of_nat (length (pending st) + bf) ≤ usize_max)%Z →
  ∃ N us blks sl sb, compressed bf level out R ts N us blks ∧
    flush_levels (S fuel) bf true level st =
    flush_levels fuel bf true (level + 1) (mkFlush (H ++ N) (ret st ++ blks) sl sb).
Proof.
  intros Hp Hlen HH Hlev Hmax.
  assert (Forall (λ l, depth l ≠ level) H) as HH'.
  { eapply Forall_impl; [done|]. simpl. lia. }
  destruct (flush_level_finishing bf level (S (length (pending st))) H [] R ts None 0 st out)
    as (N & us & blks & G' & lo' & start' & st' & Hrun & Hcur & Hp' & Hret & Hcomp); try done.
  { by constructor. }
  { rewrite Hp, length_app. lia. }
  exists N, us, blks, (st_links st'), (st_blocksizes st'). split; [done|].
  cbn [flush_levels]. rewrite bool_decide_eq_false_2 by done. cbn [andb orb].
  rewrite andb_false_r, Hrun. cbn [mbind outcome_bind].
  destruct (cursor_end _ _ _ _ _ Hcur) as [_ Htake]. rewrite Hp', Htake.
  rewrite bool_decide_eq_true_2; [cbn [rust_assert mbind outcome_bind]; by rewrite Hret|].
  apply position_none, Forall_app. split; [done|].
  eapply Forall_impl; [apply Hcomp|]. simpl. lia.
Qed.

(** A finished collection: a single link is left, to the last block if there is one. *)
Record finished (out : list Block) (R : list Link) (ts : list tree) (root : Link) (t : tree)
    (blks : list Block) : Prop := {
  fin_ok : link_ok (out ++ blks) root t;
  fin_content : content t = contents ts;
  fin_nil : blks = [] → R = [root];
  fin_last : blks ≠ [] → last blks.*1 = Some (target root);
}.

Lemma finished_after out R ts H hs N us blks root t blks' :
  last blks.*1 = target <$> last N → (N = [] → blks = [] ∧ R = H) →
  contents (hs ++ us) = contents ts →
  finished (out ++ blks) (H ++ N) (hs ++ us) root t blks' →
  finished out R ts root t (blks ++ blks').
Proof.
  intros Hl Hn Hc [Hok Hcont Hnil Hlast]. rewrite <-(assoc_L (++)) in Hok. split; [done|congruence|..].
  - intros [-> ->]%app_eq_nil. specialize (Hnil eq_refl).
    destruct (last N) eqn:HN; [done|]. apply last_None in HN as ->.
    rewrite app_nil_r in Hnil. destruct Hn as [_ ->]; done.
  - intros Hne. rewrite fmap_app. destruct (decide (blks' = [])) as [->|Hb].
    + specialize (Hnil eq_refl). rewrite app_nil_r in Hne. rewrite fmap_nil, app_nil_r, Hl.
      destruct N as [|x N] using rev_ind; [by destruct Hn|]. clear IHN.
      rewrite last_snoc. simpl. rewrite (assoc_L (++)) in Hnil.
      by apply (app_inj_tail _ []) in Hnil as [_ ->].
    + rewrite last_app, Hlast by done. done.
Qed.

Lemma flush_levels_single fuel bf level out root ts st :
  pending st = [root] → Forall2 (link_ok out) [root] ts →
  ∃ t, flush_levels (S fuel) bf true level st = Done st ∧ finished out [root] ts root t [].
Proof.
  intros Hp Hok. apply Forall2_cons_inv_l in Hok as (t & ts' & Hok & Hnil & ->).
  apply Forall2_nil_inv_l in Hnil as ->. exists t. cbn [flush_levels].
  rewrite Hp. split; [done|]. split; try done; by rewrite ?app_nil_r, ?contents_cons, ?app_nil_r.
Qed.

Lemma flush_levels_finishing k level fuel bf out R ts st :
  2 ≤ bf → pending st = R → R ≠ [] → level_ok bf level out R ts →
  length R ≤ 2 ^ k → level + k ≤ 62 → k < fuel →
  (Z.of_nat (length R + bf) ≤ usize_max)%Z →
  ∃ root t blks st', flush_levels fuel bf true level st = Done st' ∧
    pending st' = [root] ∧ ret st' = ret st ++ blks ∧ finished out R ts root t blks.
Proof.
  revert level fuel out R ts st. induction k as [|k IH];
    intros level fuel out R ts st Hbf Hp HR Hlev Hlen Hk Hfuel Hmax;
    (destruct fuel as [|fuel]; [lia|]);
    (destruct (decide (length R = 1)) as [H1|H1]; [
      destruct R as [|root [|]]; [done| |done];
      destruct (flush_levels_single fuel bf level out root ts st Hp) as (t & Hrun & Hfin);
        [by eapply lev_ok|];
      exists root, t, [], st; split_and!; try done; by rewrite app_nil_r
    |]).
  { destruct R; simpl in *; [done|lia]. }
  destruct (flush_levels_round fuel bf level [] R ts st out)
    as (N & us & blks & sl & sb & Hcomp & Hrun); [done|by rewrite Hp|by constructor|done|by rewrite Hp|].
  pose proof Hcomp as [Hok Hcont Hd Hcount Hnil Hlast]. rewrite Hrun.
  assert (length N ≤ 2 ^ k).
  { rewrite Nat.pow_succ_r' in Hlen. assert (2 * length N ≤ bf * length N) by (apply Nat.mul_le_mono_r; lia).
    destruct (decide (length N ≤ 2 ^ k)); [done|]. nia. }
  assert (length N ≤ length R) by nia.
  destruct (IH (level + 1) fuel (out ++ blks) N us (mkFlush ([] ++ N) (ret st ++ blks) sl sb))
    as (root & t & blks' & st' & Hrun' & Hp' & Hret & Hfin); try done; try lia.
  - intros ->. by specialize (Hnil eq_refl).
  - destruct Hlev. split; try done; [lia|]. by rewrite Hcont.
  - exists root, t, (blks ++ blks'), st'. split_and!; try done.
    + rewrite Hret. cbn [ret]. by rewrite <-(assoc_L (++)).
    + eapply (finished_after out R ts [] [] N us); try done.
      intros ->. by specialize (Hnil eq_refl).
Qed.

(** ** The two flushes of the adder

    Between flushes the pending links are link blocks of depth 1 followed by
    leaves. *)
Record mixed (bf : nat) (out : list Block) (ls : list Link) (H Z : list Link) (hs zs : list tree) :
    Prop := {
  mix_split : ls = H ++ Z;
  mix_H : Forall (λ l, depth l = 1) H;
  mix_Z : Forall (λ l, depth l = 0) Z;
  mix_H_ok : Forall2 (link_ok out) H hs;
  mix_Z_ok : Forall2 (link_ok out) Z zs;
  mix_size : (vec_len (contents (hs ++ zs)) ≤ max_content)%Z;
}.

Lemma links_count out ls ts :
  Forall2 (link_ok out) ls ts → (Z.of_nat (length ls) ≤ vec_len (contents ts))%Z.
Proof.
  induction 1 as [|l t ls ts Hl _ IH]; [done|].
  rewrite contents_cons, Pb.vec_len_app. pose proof (link_positive _ _ _ Hl) as Hp.
  unfold tree_size in Hp. simpl. lia.
Qed.

Lemma mixed_level bf out ls H Z hs zs :
  mixed bf out ls H Z hs zs → 1 ≤ bf → (Z.of_nat bf ≤ max_branching)%Z →
  level_ok bf 0 out Z zs ∧ (Z.of_nat (length ls + bf) ≤ usize_max)%Z ∧
  (Z.of_nat (length ls) ≤ max_content)%Z.
Proof.
  intros [-> HH HZ HHok HZok Hs] Hbf Hmax.
  pose proof (links_count _ _ _ (Forall2_app HHok HZok)) as Hc.
  rewrite contents_app, Pb.vec_len_app in Hs. pose proof (Pb.vec_len_nonneg (contents hs)).
  rewrite contents_app, Pb.vec_len_app in Hc.
  split_and!; [split; try done; lia| |lia].
  unfold max_content, max_branching, usize_max in *. lia.
Qed.

Lemma log2_up_bound n k : 0 < n → (Z.of_nat n ≤ 2 ^ Z.of_nat k)%Z → Nat.log2_up n ≤ k.
Proof.
  intros Hn Hk. apply Nat.log2_up_le_pow2; [done|]. apply Nat2Z.inj_le. by rewrite Nat2Z.inj_pow.
Qed.

Lemma flush_finishing bf out ls H Z hs zs sl sb :
  2 ≤ bf → (Z.of_nat bf ≤ max_branching)%Z → mixed bf out ls H Z hs zs → ls ≠ [] →
  ∃ root t blks st', flush_levels (flush_fuel ls) bf true 0 (mkFlush ls [] sl sb) = Done st' ∧
    ret st' = blks ∧ finished out ls (hs ++ zs) root t blks.
Proof.
  intros Hbf Hmax Hmix Hne. destruct (mixed_level _ _ _ _ _ _ _ Hmix) as (Hlev & Hus & Hlen); [lia|done|].
  pose proof Hmix as [Hls HH HZ HHok HZok Hs].
  unfold flush_fuel. replace (length ls + 2) with (S (S (length ls))) by lia.
  destruct (decide (length ls = 1)) as [H1|H1].
  { destruct ls as [|root [|]]; [done| |done].
    destruct (flush_levels_single (S (length [root])) bf 0 out root (hs ++ zs) (mkFlush [root] [] sl sb))
      as (t & Hrun & Hfin); [done|rewrite Hls; by apply Forall2_app|].
    exists root, t, [], (mkFlush [root] [] sl sb). done. }
  destruct (flush_levels_round (S (length ls)) bf 0 H Z zs (mkFlush ls [] sl sb) out)
    as (N & us & blks & sl' & sb' & Hcomp & Hrun); [done|done|done|done|done|].
  pose proof Hcomp as [Hok Hcont Hd Hcount Hnil Hlast].
  assert (length N ≤ length Z) by nia.
  assert (length (H ++ N) ≤ length ls) by (rewrite Hls, !length_app; lia).
  set (k := Nat.log2_up (length (H ++ N))).
  assert (H ++ N ≠ []) as HNne.
  { intros [-> ->]%app_eq_nil. by rewrite (Hnil eq_refl) in Hls. }
  assert (0 < length (H ++ N)) as Hpos by (destruct (H ++ N); [done|simpl; lia]).
  destruct (flush_levels_finishing k 1 (S (length ls)) bf (out ++ blks) (H ++ N) (hs ++ us)
    (mkFlush (H ++ N) ([] ++ blks) sl' sb')) as (root & t & blks' & st' & Hrun' & Hp' & Hret & Hfin);
    try done.
  - split; [lia|done|lia|by apply Forall_app|apply Forall2_app; [|done]|].
    + eapply links_ok_mono; [|done]. set_solver.
    + by rewrite contents_app, Hcont, <-contents_app.
  - apply Nat.log2_log2_up_spec in Hpos. unfold k. lia.
  - assert (k ≤ 48); [|lia]. apply log2_up_bound; [done|]. unfold max_content in Hlen.
    change (2 ^ Z.of_nat 48)%Z with (2 ^ 48)%Z. lia.
  - assert (k ≤ length (H ++ N)) by apply Nat.log2_up_le_lin, Nat.le_0_l. lia.
  - lia.
  - exists root, t, (blks ++ blks'), st'. rewrite Hrun, Hret. cbn [ret]. split_and!; try done.
    apply (finished_after out ls (hs ++ zs) H hs N us); [done| |by rewrite !contents_app, Hcont|done].
    intros ->. rewrite (Hnil eq_refl), app_nil_r in Hls. split; [|done].
    simpl in Hlast. apply last_None in Hlast. by destruct blks.
Qed.

Lemma flush_level_stop fuel bf level P G x R lo start st :
  cursor level P G lo start → pending st = P ++ G ++ x :: R → depth x = level →
  length (x :: R) ≤ bf →
  flush_level (S fuel) bf false level start lo st =
  Done (true, lo, mkFlush (P ++ x :: R) (ret st) (st_links st) (st_blocksizes st)).
Proof.
  intros Hcur Hp Hx Hbf. destruct (cursor_position level P G lo start x R Hcur Hx) as [Hpos Hidx].
  cbn [flush_level]. rewrite Hp.
  rewrite bool_decide_eq_true_2 by (by eapply cursor_bound). cbn [rust_assert mbind outcome_bind].
  destruct (position level _) as [i|]; [|done].
  cbn [fmap option_fmap option_map] in Hpos. injection Hpos as Hpos. rewrite Hpos.
  assert (drop (length P + length G) (P ++ G ++ x :: R) = x :: R) as Hdrop.
  { rewrite (assoc_L (++)), <-length_app. apply drop_app_length. }
  rewrite Hdrop, bool_decide_eq_true_2 by done. cbn [negb andb].
  destruct Hcur as [-> _|j Hj]; [done|]. rewrite Hj. unfold drain.
  rewrite bool_decide_eq_true_2 by (rewrite !length_app; lia). cbn [mbind outcome_bind].
  by rewrite take_app_length, Hdrop.
Qed.

(** The flush after a new leaf: at most one link block is made. *)
Lemma flush_pushing bf out ls H Z hs zs sl sb :
  1 ≤ bf → (Z.of_nat bf ≤ max_branching)%Z → mixed bf out ls H Z hs zs →
  Z ≠ [] → length Z ≤ bf + 1 →
  ∃ H' Z' hs' zs' blks st', flush_levels (flush_fuel ls) bf false 0 (mkFlush ls [] sl sb) = Done st' ∧
    ret st' = blks ∧ mixed bf (out ++ blks) (pending st') H' Z' hs' zs' ∧
    contents (hs' ++ zs') = contents (hs ++ zs) ∧ Z' ≠ [] ∧ length Z' ≤ bf ∧
    (blks = [] ∧ pending st' = ls ∨ length (pending st') ≠ 1 ∧ length blks = 1).
Proof.
  intros Hbf Hmax Hmix Hne HZlen.
  destruct (mixed_level _ _ _ _ _ _ _ Hmix) as (Hlev & Hus & Hlen); [done|done|].
  pose proof Hmix as [Hls HH HZ HHok HZok Hs].
  unfold flush_fuel. replace (length ls + 2) with (S (S (length ls))) by lia.
  assert (cursor 0 H [] None 0) as Hcur.
  { constructor; [done|]. eapply Forall_impl; [done|]. simpl. lia. }
  remember (S (length ls)) as fuel eqn:Hfuel. cbn [flush_levels pending].
  rewrite andb_false_r. cbn [orb negb]. rewrite andb_true_r.
  destruct (decide (length Z ≤ bf)) as [HZ'|HZ'].
  - exists H, Z, hs, zs, [], (mkFlush ls [] sl sb). rewrite app_nil_r.
    split_and!; try done; [|by left]. case_bool_decide; [done|]. destruct Z as [|x Z]; [done|].
    apply Forall_cons in HZ as [Hx _].
    rewrite (flush_level_stop _ bf 0 H [] x Z); try done. cbn [mbind outcome_bind].
    by rewrite Hls.
  - rewrite bool_decide_eq_false_2 by (rewrite Hls, length_app; lia).
    destruct (level_ok_block _ _ _ _ _ Hlev Hne) as (l & b & Hblk & Hdl & Htl & Hlk).
    destruct (flush_level_step (length ls) bf false 0 H [] (take bf Z) (drop bf Z) None 0
      (mkFlush ls [] sl sb) l b) as (sl' & sb' & Hstep); try done.
    { simpl. by rewrite take_drop. }
    { destruct Z, bf; simpl; [done|done|lia|done]. }
    { by apply Forall_take. }
    { left. rewrite length_take. lia. }
    { right. rewrite take_drop. lia. }
    { rewrite Hls, length_app in Hus. simpl. lia. }
    rewrite Hstep.
    assert (length (drop bf Z) = 1) as Hd1 by (rewrite length_drop; lia).
    destruct (drop bf Z) as [|x [|]] eqn:Hdz; [done| |done].
    assert (depth x = 0) as Hx.
    { apply (Forall_drop _ bf) in HZ. rewrite Hdz in HZ. by inversion HZ. }
    destruct (length ls) as [|n] eqn:Hn; [by destruct ls, H, Z|].
    rewrite (flush_level_stop _ bf 0 (H ++ [l]) (tail ([] ++ take bf Z)) x []); try done.
    2:{ constructor. rewrite length_app. done. }
    cbn [mbind outcome_bind ret st_links st_blocksizes app].
    pose proof (Forall2_drop _ _ _ bf HZok) as Hdok. rewrite Hdz in Hdok.
    eexists (H ++ [l]), [x], (hs ++ [Node (take bf zs)]), (drop bf zs), [b], _.
    assert (contents ((hs ++ [Node (take bf zs)]) ++ drop bf zs) = contents (hs ++ zs)) as Hcont.
    { rewrite !contents_app, <-(assoc_L (++)). f_equal.
      rewrite <-(take_drop bf zs) at 3. rewrite contents_app. f_equal. apply app_nil_r. }
    split_and!; try done.
    + cbn [pending]. split; try done.
      * apply Forall_app. split; [done|]. by constructor.
      * by constructor.
      * apply Forall2_app; [eapply links_ok_mono; [|done]; set_solver|]. by constructor.
      * eapply links_ok_mono; [|done]. set_solver.
      * by rewrite Hcont.
    + right. cbn [pending]. rewrite !length_app. simpl. split; [lia|done].
Qed.

(** ** The adder's invariant

    After the bytes [input] were pushed and the blocks [out] came out. *)
Record adder_ok (max : Z) (bf : nat) (out : list Block) (input : list byte) (a : FileAdder)
    (H Z : list Link) (hs zs : list tree) : Prop := {
  ok_chunker : chunker a = Size max;
  ok_collector : ∃ sl sb, collector a = Balanced (mkBalanced bf sl sb);
  ok_links : mixed bf out (unflushed_links a) H Z hs zs;
  ok_input : contents (hs ++ zs) ++ block_buffer a = input;
  ok_buffer : (vec_len (block_buffer a) < max)%Z;
  ok_leaves : length Z ≤ bf;
  ok_single : ∀ l, unflushed_links a = [l] →
    last out.*1 = Some (target l) ∧ vec_len (contents (hs ++ zs)) = max;
}.

Section config.
  Context (max : Z) (bf : nat).
  Context (Hmax : (1 ≤ max ≤ max_chunk)%Z) (Hbf : 2 ≤ bf) (Hbf_max : (Z.of_nat bf ≤ max_branching)%Z).

Lemma build_ok sl sb :
  adder_ok max bf [] [] (build (Size max) (Balanced (mkBalanced bf sl sb))) [] [] [] [].
Proof.
  split; simpl; try done; try lia; [by eexists _, _|unfold vec_len; simpl; lia].
Qed.

Lemma mixed_snoc out ls H Z hs zs chunk :
  mixed bf out ls H Z hs zs → (0 < vec_len chunk ≤ max)%Z →
  (vec_len (contents (hs ++ zs) ++ chunk) ≤ max_content)%Z →
  let b := render_and_hash (leaf_node chunk) in
  mixed bf (out ++ [b]) (ls ++ [mkLink 0 b.1 (vec_len b.2) (vec_len chunk)]) H
    (Z ++ [mkLink 0 b.1 (vec_len b.2) (vec_len chunk)]) hs (zs ++ [Leaf chunk]).
Proof.
  intros [-> HH HZ HHok HZok Hs] Hc Hcs b. split; [|done| |..].
  - by rewrite <-(assoc_L (++)).
  - apply Forall_app. split; [done|]. by constructor.
  - eapply links_ok_mono; [|done]. set_solver.
  - apply Forall2_app; [eapply links_ok_mono; [|done]; set_solver|].
    constructor; [|constructor].
    apply (leaf_link_ok (out ++ [b]) chunk ltac:(lia)). set_solver.
  - rewrite (assoc_L (++)), contents_app. simpl.
    change (contents [Leaf chunk]) with (chunk ++ []). by rewrite app_nil_r.
Qed.

Lemma flush_chunk_ok out input a H Z hs zs chunk buf :
  adder_ok max bf out input a H Z hs zs → vec_len chunk = max →
  (vec_len (contents (hs ++ zs) ++ chunk) ≤ max_content)%Z →
  ∃ blks a' H' Z' hs' zs',
    flush_chunk chunk (mkAdder (chunker a) (collector a) buf (unflushed_links a)) = Done (blks, a') ∧
    adder_ok max bf (out ++ blks) (contents (hs ++ zs) ++ chunk) a' H' Z' hs' zs'.
Proof.
  intros [Hch (sl & sb & Hcol) Hmix Hin Hbuf Hleaf Hsing] Hcm Hcs.
  assert (0 < vec_len chunk ≤ max)%Z as Hc by lia.
  assert (chunk ≠ []) by (intros ->; unfold vec_len in Hc; simpl in Hc; lia).
  pose proof (mixed_snoc _ _ _ _ _ _ _ Hmix Hc Hcs) as Hmix'. cbn zeta in Hmix'.
  set (b := render_and_hash (leaf_node chunk)) in *.
  set (l := mkLink 0 b.1 (vec_len b.2) (vec_len chunk)) in *.
  destruct (flush_pushing bf (out ++ [b]) (unflushed_links a ++ [l]) H (Z ++ [l]) hs
    (zs ++ [Leaf chunk]) sl sb) as (H' & Z' & hs' & zs' & blks & st' & Hrun & Hret & Hm & Hcont & HZne & HZlen & Hcase);
    [lia|done|done|by destruct Z|rewrite length_app; simpl; lia|].
  exists (b :: blks), (mkAdder (chunker a) (Balanced (mkBalanced bf (st_links st') (st_blocksizes st'))) []
    (pending st')), H', Z', hs', zs'. split.
  - unfold flush_chunk, flush_buffered_leaf. cbn [unflushed_links chunker collector].
    rewrite bool_decide_eq_false_2 by done. cbn [andb]. fold b. rewrite (surjective_pairing b).
    fold l. rewrite bool_decide_eq_true_2 by done. cbn [rust_assert mbind outcome_bind].
    unfold flush_buffered_links, flush_links. cbn [unflushed_links chunker collector block_buffer].
    rewrite Hcol. cbn [branching_factor reused_links reused_blocksizes]. rewrite Hrun.
    cbn [mbind outcome_bind mret outcome_ret]. rewrite Hret. done.
  - assert (out ++ b :: blks = (out ++ [b]) ++ blks) as Ho by by rewrite <-(assoc_L (++)).
    split; cbn [chunker collector block_buffer unflushed_links]; try done.
    + by eexists _, _.
    + by rewrite Ho.
    + rewrite Hcont, app_nil_r, (assoc_L (++)), contents_app. f_equal. apply app_nil_r.
    + change (vec_len []) with 0%Z. lia.
    + intros l' Hl'. destruct Hcase as [[-> Heq]|[Hlen _]]; [|by rewrite Hl' in Hlen].
      rewrite Heq in Hl'. apply (app_inj_tail _ []) in Hl' as [Hu <-].
      rewrite fmap_app, last_app. split; [done|].
      destruct Hmix as [Hls _ _ HHok HZok _]. rewrite Hu in Hls. symmetry in Hls.
      apply app_eq_nil in Hls as [-> ->]. apply Forall2_nil_inv_l in HHok, HZok. subst hs zs.
      rewrite Hcont. simpl. unfold contents. simpl. by rewrite app_nil_r.
Qed.

Lemma push_ok out input a H Z hs zs more :
  adder_ok max bf out input a H Z hs zs → more ≠ [] →
  (vec_len (input ++ more) ≤ max_content)%Z →
  ∃ blks n a' H' Z' hs' zs', push more a = Done (blks, Z.of_nat n, a') ∧ 1 ≤ n ≤ length more ∧
    adder_ok max bf (out ++ blks) (input ++ take n more) a' H' Z' hs' zs'.
Proof.
  intros Hok Hne Hlen. pose proof Hok as [Hch (sl & sb & Hcol) Hmix Hin Hbuf Hleaf Hsing].
  assert (1 ≤ length more) by (destruct more; [done|simpl; lia]).
  assert (0 ≤ vec_len (block_buffer a))%Z by apply Pb.vec_len_nonneg.
  unfold push, accept. rewrite Hch. unfold usize_sub. unfold max_chunk in Hmax.
  rewrite checked_ok by (unfold usize_max; lia). cbn [mbind outcome_bind].
  set (room := Z.to_nat (max - vec_len (block_buffer a))).
  replace (Z.to_nat (Z.min _ _)) with (length more `min` room) by (unfold vec_len in *; lia).
  set (n := length more `min` room). assert (1 ≤ n) as Hn by lia.
  replace (Z.min _ _) with (Z.of_nat n) by (unfold vec_len in *; lia).
  unfold usize_add. rewrite checked_ok by (unfold usize_max, vec_len in *; lia).
  cbn [mbind outcome_bind mret outcome_ret].
  assert (length (take n more) = n) as Htake by (rewrite length_take; lia).
  rewrite <-Hin, !Pb.vec_len_app in Hlen.
  assert (vec_len (take n more) ≤ vec_len more)%Z by (unfold vec_len; rewrite Htake; lia).
  assert (vec_len (take n more) = Z.of_nat n) as Hvn by (unfold vec_len; by rewrite Htake).
  destruct (bool_decide (max ≤ _)%Z) eqn:Hready; last first.
  - apply bool_decide_eq_false in Hready. rewrite andb_false_r. cbn [negb].
    exists [], n, (mkAdder (chunker a) (collector a) (block_buffer a ++ take n more) (unflushed_links a)),
      H, Z, hs, zs. rewrite Hch, Hvn, app_nil_r. split_and!; [done|done|lia|].
    split; cbn [chunker collector block_buffer unflushed_links]; try done.
    + by eexists _, _.
    + by rewrite (assoc_L (++)), Hin.
    + rewrite Pb.vec_len_app, Hvn. lia.
  - apply bool_decide_eq_true in Hready. rewrite andb_true_r.
    destruct (flush_chunk_ok out input a H Z hs zs (block_buffer a ++ take n more)
      (if bool_decide (block_buffer a = []) then [] else block_buffer a ++ take n more) Hok)
      as (blks & a' & H' & Z' & hs' & zs' & Hrun & Hok').
    { rewrite Pb.vec_len_app, Hvn. unfold vec_len in *. lia. }
    { rewrite !Pb.vec_len_app, Hvn. lia. }
    exists blks, n, a', H', Z', hs', zs'. split_and!; [|lia|lia|].
    + case_bool_decide as Hb.
      * rewrite Hb in *. cbn [app] in Hrun. rewrite <-Hb in Hrun at 1. destruct a.
        cbn [chunker collector block_buffer unflushed_links] in *. rewrite Hrun.
        cbn [mbind outcome_bind]. by rewrite Hvn.
      * rewrite Hch in Hrun. cbn [negb block_buffer]. rewrite Hrun.
        cbn [mbind outcome_bind]. by rewrite Hvn.
    + rewrite <-Hin, <-(assoc_L (++)). done.
Qed.

Lemma push_buffer_ok fuel out input a H Z hs zs buffer :
  adder_ok max bf out input a H Z hs zs → length buffer < fuel →
  (vec_len (input ++ buffer) ≤ max_content)%Z →
  ∃ blks a' H' Z' hs' zs', push_buffer fuel buffer a = Done (blks, a') ∧
    adder_ok max bf (out ++ blks) (input ++ buffer) a' H' Z' hs' zs'.
Proof.
  revert out input a H Z hs zs buffer.
  induction fuel as [|fuel IH]; intros out input a H Z hs zs buffer Hok Hfuel Hlen; [lia|].
  cbn [push_buffer]. case_bool_decide as Hb.
  { subst. exists [], a, H, Z, hs, zs. by rewrite !app_nil_r. }
  destruct (push_ok _ _ _ _ _ _ _ buffer Hok Hb Hlen)
    as (blks & n & a' & H' & Z' & hs' & zs' & Hrun & Hn & Hok').
  rewrite Hrun. cbn [mbind outcome_bind]. rewrite Nat2Z.id.
  destruct (IH _ _ _ _ _ _ _ (drop n buffer) Hok') as (blks2 & a2 & H2 & Z2 & hs2 & zs2 & Hrun2 & Hok2).
  { rewrite length_drop. lia. }
  { by rewrite <-(assoc_L (++)), take_drop. }
  rewrite Hrun2. exists (blks ++ blks2), a2, H2, Z2, hs2, zs2. split; [done|].
  by rewrite <-!(assoc_L (++)), take_drop in Hok2.
Qed.

Lemma push_buffers_ok buffers out input a H Z hs zs :
  adder_ok max bf out input a H Z hs zs → (vec_len (input ++ concat buffers) ≤ max_content)%Z →
  ∃ blks a' H' Z' hs' zs', push_buffers buffers a = Done (blks, a') ∧
    adder_ok max bf (out ++ blks) (input ++ concat buffers) a' H' Z' hs' zs'.
Proof.
  revert out input a H Z hs zs.
  induction buffers as [|b buffers IH]; intros out input a H Z hs zs Hok Hlen.
  { exists [], a, H, Z, hs, zs. cbn. by rewrite !app_nil_r. }
  cbn [concat] in *. rewrite (assoc_L (++)) in Hlen |- *. cbn [push_buffers].
  destruct (push_buffer_ok (S (length b)) out input a H Z hs zs b Hok)
    as (blks & a' & H' & Z' & hs' & zs' & Hrun & Hok'); [lia| |].
  { rewrite Pb.vec_len_app in Hlen. pose proof (Pb.vec_len_nonneg (concat buffers)). lia. }
  rewrite Hrun. cbn [mbind outcome_bind].
  destruct (IH _ _ _ _ _ _ _ Hok' Hlen) as (blks2 & a2 & H2 & Z2 & hs2 & zs2 & Hrun2 & Hok2).
  rewrite Hrun2. exists (blks ++ blks2), a2, H2, Z2, hs2, zs2. split; [done|].
  by rewrite <-(assoc_L (++) out) in Hok2.
Qed.

(** What the blocks of a whole file are: the last one is the root of a tree that
    holds the file. *)
Definition file_blocks (blocks : list Block) (input : list byte) : Prop :=
  ∃ root t, last blocks.*1 = Some root ∧ represents (λ c b, (c, b) ∈ blocks) root t ∧
    content t = input.

Lemma finish_mixed out ls H Z hs zs a sl sb buf :
  mixed bf out ls H Z hs zs → ls ≠ [] → (∀ l, ls = [l] → last out.*1 = Some (target l)) →
  collector a = Balanced (mkBalanced bf sl sb) →
  ∃ blks a', flush_buffered_links true (mkAdder (chunker a) (collector a) buf ls) = Done (blks, a') ∧
    file_blocks (out ++ blks) (contents (hs ++ zs)) ∧ (blks = [] → length ls = 1).
Proof.
  intros Hmix Hne Hsing Hcol.
  destruct (flush_finishing bf out ls H Z hs zs sl sb) as (root & t & blks & st' & Hrun & Hret & Hfin);
    try done.
  eexists blks, _. split.
  - unfold flush_buffered_links, flush_links. cbn [unflushed_links collector]. rewrite Hcol.
    cbn [branching_factor reused_links reused_blocksizes]. rewrite Hrun. cbn. by rewrite Hret.
  - destruct Hfin as [Hok Hcont Hnil Hlast]. split; [|by intros ->; rewrite Hnil].
    exists (target root), t. split_and!; [|apply Hok|done].
    rewrite fmap_app. destruct (decide (blks = [])) as [->|Hb].
    + rewrite fmap_nil, app_nil_r. auto.
    + by rewrite last_app, Hlast.
Qed.

Lemma finish_ok out input a H Z hs zs :
  adder_ok max bf out input a H Z hs zs → (vec_len input ≤ max_content)%Z →
  ∃ blks, finish a = Done blks ∧ file_blocks (out ++ blks) input ∧
    (blks = [] → vec_len input = max).
Proof.
  intros [Hch (sl & sb & Hcol) Hmix Hin Hbuf Hleaf Hsing] Hlen. unfold finish, flush_buffered_leaf.
  cbn [negb orb]. case_bool_decide as Hb; [case_bool_decide as Hu|]; cbn [andb negb].
  - (* an empty file *)
    rewrite Hb, Hu in *. assert (input = []) as ->.
    { destruct Hmix as [Hls _ _ HHok HZok _]. symmetry in Hls. apply app_eq_nil in Hls as [-> ->].
      apply Forall2_nil_inv_l in HHok, HZok. by subst. }
    set (b := render_and_hash (leaf_node [])). rewrite (surjective_pairing b).
    unfold flush_buffered_links, flush_links. cbn [unflushed_links collector]. rewrite Hcol. cbn.
    exists [b]. split; [done|]. split; [|done]. exists b.1, (Leaf []).
    rewrite fmap_app, last_app. split_and!; [done| |done].
    apply leaf_represents; [by right|]. set_solver.
  - (* no bytes left *)
    rewrite Hb in *. rewrite app_nil_r in Hin. subst input.
    destruct (finish_mixed out (unflushed_links a) H Z hs zs a sl sb []) as (blks & a' & Hrun & Hfb & Hone);
      try done.
    { intros l Hl. by apply Hsing. }
    rewrite Hrun. cbn. exists blks. split_and!; [done|done|]. intros Hnil. specialize (Hone Hnil).
    destruct (unflushed_links a) as [|l [|]] eqn:Hl; [done| |done]. by apply (Hsing l).
  - (* a last, short chunk *)
    assert (0 < vec_len (block_buffer a))%Z.
    { destruct (block_buffer a); [done|unfold vec_len; simpl; lia]. }
    rewrite <-Hin in Hlen.
    pose proof (mixed_snoc _ _ _ _ _ _ (block_buffer a) Hmix ltac:(lia) Hlen) as Hmix'. cbn zeta in Hmix'.
    set (b := render_and_hash (leaf_node (block_buffer a))) in *. rewrite (surjective_pairing b).
    set (l := mkLink 0 b.1 (vec_len b.2) (vec_len (block_buffer a))) in *.
    destruct (finish_mixed (out ++ [b]) (unflushed_links a ++ [l]) H (Z ++ [l]) hs
      (zs ++ [Leaf (block_buffer a)]) a sl sb (block_buffer a)) as (blks & a' & Hrun & Hfb & _); try done.
    { by destruct (unflushed_links a). }
    { intros l' Hl'. apply (app_inj_tail _ []) in Hl' as [_ <-]. by rewrite fmap_app, last_app. }
    rewrite Hrun. cbn. exists (b :: blks). split; [done|]. split; [|done].
    rewrite <-(assoc_L (++)) in Hfb. cbn [app] in Hfb.
    rewrite (assoc_L (++)), contents_app in Hfb.
    replace (contents [Leaf (block_buffer a)]) with (block_buffer a) in Hfb; [by rewrite Hin in Hfb|].
    symmetry. apply app_nil_r.
Qed.

(** A whole file. *)
Lemma add_buffers_ok sl sb buffers :
  (vec_len (concat buffers) ≤ max_content)%Z →
  ∃ blocks, add_buffers buffers (build (Size max) (Balanced (mkBalanced bf sl sb))) = Done blocks ∧
    file_blocks blocks (concat buffers).
Proof.
  intros Hlen.
  destruct (push_buffers_ok buffers [] [] _ _ _ _ _ (build_ok sl sb) Hlen)
    as (blks & a & H & Z & hs & zs & Hrun & Hok).
  destruct (finish_ok _ _ _ _ _ _ _ Hok Hlen) as (blks' & Hrun' & Hfb & _).
  exists (blks ++ blks'). split; [|done]. unfold add_buffers. rewrite Hrun.
  cbn [mbind outcome_bind]. by rewrite Hrun'.
Qed.
End config.

(** ** A branching factor of one

    [with_branching_factor] accepts it, but then every level has as many links as
    the one below it. *)
Lemma flush_level_one_step fuel level P x R lo start st r :
  cursor level P [] lo start → pending st = P ++ x :: R → depth x = level →
  flush_level (S fuel) 1 true level start lo st = Done r →
  ∃ l rt sl sb, depth l = level + 1 ∧
    flush_level fuel 1 true level (length (P ++ [l])) (Some (length P))
      (mkFlush ((P ++ [l]) ++ R) rt sl sb) = Done r.
Proof.
  intros Hcur Hp Hx Hr. destruct (cursor_position level P [] lo start x R Hcur Hx) as [Hpos Hidx].
  cbn [flush_level] in Hr. apply bind_Done in Hr as (_ & _ & Hr). rewrite Hp in Hr.
  cbn [app length] in Hpos, Hidx.
  destruct (position level _) as [i|]; [|done].
  cbn [fmap option_fmap option_map] in Hpos. injection Hpos as Hpos. rewrite Hpos in Hr.
  cbn [negb andb] in Hr. apply bind_Done in Hr as (last & Hlast & Hr).
  unfold index_add in Hlast. case_bool_decide; [|done]. injection Hlast as <-.
  apply bind_Done in Hr as ([[[pl bs] n] t] & _ & Hr).
  apply bind_Done in Hr as (_ & _ & Hr). unfold render_and_hash in Hr.
  apply bind_Done in Hr as (tot & _ & Hr). apply bind_Done in Hr as (p & Hset & Hr).
  rewrite Hidx in Hset, Hr. unfold set_index in Hset. case_bool_decide; [|done]. injection Hset as <-.
  replace ((length P + 0 + 1) `min` length (P ++ x :: R)) with (length P + 1) in Hr
    by (rewrite length_app; simpl; lia).
  rewrite insert_app_r_alt, Nat.sub_diag in Hr by done. cbn [insert list_insert] in Hr.
  eexists _, _, _, _. split; [|rewrite length_app, <-(assoc_L (++)); exact Hr]. done.
Qed.

Lemma flush_level_one fuel level P R lo start st r :
  cursor level P [] lo start → pending st = P ++ R → Forall (λ l, depth l = level) R →
  flush_level fuel 1 true level start lo st = Done r →
  ∃ N, r.1.1 = false ∧ length N = length R ∧ Forall (λ l, depth l = level + 1) N ∧
    match r.1.2 with Some i => take (i + 1) (pending r.2) | None => pending r.2 end = P ++ N.
Proof.
  revert P R lo start st. induction fuel as [|fuel IH]; intros P R lo start st Hcur Hp Hd Hr; [done|].
  destruct R as [|x R].
  - rewrite app_nil_r in Hp. destruct (cursor_end _ _ _ _ _ Hcur) as [Hpos Htake].
    rewrite app_nil_r in Hpos, Htake. cbn [flush_level] in Hr. rewrite Hp, Hpos in Hr.
    apply bind_Done in Hr as (_ & _ & Hr). unfold mret, outcome_ret in Hr. injection Hr as <-.
    exists []. rewrite app_nil_r. cbn. by rewrite Hp.
  - apply Forall_cons in Hd as [Hx Hd].
    destruct (flush_level_one_step _ _ _ _ _ _ _ _ _ Hcur Hp Hx Hr) as (l & rt & sl & sb & Hl & Hr').
    assert (cursor level (P ++ [l]) [] (Some (length P)) (length (P ++ [l]))) as Hcur'.
    { rewrite <-(Nat.add_0_r (length (P ++ [l]))). apply (cursor_next level _ []). rewrite length_app. simpl. lia. }
    destruct (IH _ R _ _ (mkFlush ((P ++ [l]) ++ R) rt sl sb) Hcur' eq_refl Hd Hr') as (N & Hbrk & HN & HNd & Htake).
    exists (l :: N). split_and!; [done|by simpl; f_equal|by constructor|].
    by rewrite Htake, <-(assoc_L (++)).
Qed.

Lemma flush_levels_one fuel level st st' :
  Forall (λ l, depth l = level) (pending st) → 2 ≤ length (pending st) →
  flush_levels fuel 1 true level st ≠ Done st'.
Proof.
  revert level st. induction fuel as [|fuel IH]; intros level st Hd Hlen Hr; [done|].
  cbn [flush_levels] in Hr. rewrite bool_decide_eq_false_2 in Hr by lia. cbn [andb orb negb] in Hr.
  rewrite andb_false_r in Hr. apply bind_Done in Hr as ([[brk lo] st1] & Hr1 & Hr).
  destruct (flush_level_one _ _ [] (pending st) _ _ _ _ (cursor_start level [] [] eq_refl ltac:(constructor))
    eq_refl Hd Hr1) as (N & Hbrk & HN & HNd & Htake).
  cbn in Hbrk, Htake. subst brk. apply bind_Done in Hr as (_ & _ & Hr).
  rewrite Htake in Hr. apply IH in Hr; [done|done|]. cbn [pending]. lia.
Qed.

(** ** Content addressing

    Every block is identified by the hash of its bytes, however the adder is
    configured. *)
Definition hashed (b : Block) : Prop := b.1 = sha2_256_v0 b.2.

Lemma flush_level_hashed fuel bf finishing level sp lo st r :
  flush_level fuel bf finishing level sp lo st = Done r →
  Forall hashed (ret st) → Forall hashed (ret r.2).
Proof.
  revert sp lo st. induction fuel as [|fuel IH]; intros sp lo st Hr Hs; [done|].
  cbn [flush_level] in Hr. apply bind_Done in Hr as (_ & _ & Hr).
  destruct (position _ _) as [i|]; [|by inv_outcome].
  destruct (negb finishing && _).
  { apply bind_Done in Hr as (p & _ & Hr). by inv_outcome. }
  apply bind_Done in Hr as (last & _ & Hr). apply bind_Done in Hr as ([[[pl bs] n] t] & _ & Hr).
  apply bind_Done in Hr as (_ & _ & Hr). unfold render_and_hash in Hr.
  apply bind_Done in Hr as (tot & _ & Hr). apply bind_Done in Hr as (p & _ & Hr).
  apply IH in Hr; [done|]. cbn [ret]. apply Forall_app. split; [done|]. by constructor.
Qed.

Lemma flush_levels_hashed fuel bf finishing level st st' :
  flush_levels fuel bf finishing level st = Done st' →
  Forall hashed (ret st) → Forall hashed (ret st').
Proof.
  revert level st. induction fuel as [|fuel IH]; intros level st Hr Hs; [done|].
  cbn [flush_levels] in Hr. destruct (_ || _); [by inv_outcome|].
  apply bind_Done in Hr as ([[brk lo] st1] & Hr1 & Hr). apply flush_level_hashed in Hr1; [|done].
  destruct brk; [by inv_outcome|]. apply bind_Done in Hr as (_ & _ & Hr).
  by apply IH in Hr.
Qed.

Lemma flush_buffered_links_hashed finishing a blks a' :
  flush_buffered_links finishing a = Done (blks, a') → Forall hashed blks.
Proof.
  unfold flush_buffered_links, flush_links. destruct (collector a) as [bc]. intros Hr.
  apply bind_Done in Hr as ([[bl c] ls] & Hr1 & Hr). apply bind_Done in Hr1 as (st & Hr1 & Hr2).
  apply flush_levels_hashed in Hr1; [|done]. by inv_outcome.
Qed.

Lemma flush_buffered_leaf_hashed input ls finishing leaf ls' :
  flush_buffered_leaf input ls finishing = (leaf, ls') → Forall hashed (option_to_list leaf).
Proof.
  unfold flush_buffered_leaf. destruct (_ && _); intros; simplify_eq/=; repeat constructor.
Qed.

Lemma flush_chunk_hashed chunk a blks a' :
  flush_chunk chunk a = Done (blks, a') → Forall hashed blks.
Proof.
  unfold flush_chunk. destruct (flush_buffered_leaf _ _ _) as [leaf ls] eqn:Hl. intros Hr.
  apply bind_Done in Hr as (_ & _ & Hr). apply bind_Done in Hr as ([bl a1] & Hr1 & Hr).
  apply flush_buffered_links_hashed in Hr1. apply flush_buffered_leaf_hashed in Hl.
  inv_outcome. by apply Forall_app.
Qed.

Lemma push_hashed input a blks n a' :
  push input a = Done (blks, n, a') → Forall hashed blks ∧ (0 ≤ n ≤ vec_len input)%Z.
Proof.
  unfold push. intros Hr. apply bind_Done in Hr as ([acc ready] & Hacc & Hr).
  assert (0 ≤ vec_len acc ≤ vec_len input)%Z as Hlen.
  { unfold accept in Hacc. destruct (chunker a). apply bind_Done in Hacc as (room & _ & Hacc).
    apply bind_Done in Hacc as (fl & _ & Hacc). inv_outcome. unfold vec_len. rewrite length_take. lia. }
  destruct (_ && _); [|destruct ready; cbn [negb] in Hr].
  - apply bind_Done in Hr as ([bl a1] & Hr1 & Hr). apply flush_chunk_hashed in Hr1. by inv_outcome.
  - apply bind_Done in Hr as ([bl a1] & Hr1 & Hr). apply flush_chunk_hashed in Hr1. by inv_outcome.
  - by inv_outcome.
Qed.

Lemma finish_hashed a blks : finish a = Done blks → Forall hashed blks.
Proof.
  unfold finish. destruct (flush_buffered_leaf _ _ _) as [leaf ls] eqn:Hl. intros Hr.
  apply bind_Done in Hr as ([bl a1] & Hr1 & Hr).
  apply flush_buffered_links_hashed in Hr1. apply flush_buffered_leaf_hashed in Hl.
  inv_outcome. by apply Forall_app.
Qed.

End adder.
End FileAdder.
