(* ===== verification/FileReader.v ===== *)
(** * Reading one block of a UnixFS file

    unixfs/src/file.rs, unixfs/src/file/reader.rs and the range iterator of
    unixfs/src/pb.rs: a parsed block is checked and turned into content and the
    data that validates the next block. *)
From stdpp Require Import base gmap list strings.
From Stdlib Require Import Strings.Byte.
From S2P Require Import Prelude Protobuf UnixFsPb FileTree.

(** unixfs/src/lib.rs: [Metadata]. *)
Module UnixFsMetadata.
Import UnixFsData.

Record Metadata := mkMetadata { meta_mode : option Z; meta_mtime : option (Z * Z) }.

Definition Metadata_from (d : UnixFs) : Metadata :=
  mkMetadata (mode d) ((λ ut, (Seconds ut, default 0%Z (FractionalNanoseconds ut))) <$> mtime d).

#[export] Instance Metadata_eq_dec : EqDecision Metadata.
Proof. solve_decision. Defined.
End UnixFsMetadata.

Module FileReader.
Import Merkledag UnixFsData Flat UnixFsMetadata.

(** [Range<u64>]. *)
Record Range := mkRange { start : Z; end_ : Z }.

Inductive FileError :=
  | LinksAndBlocksizesMismatch
  | NoLinksNoContent
  | NonRootDefinesMetadata (m : Metadata)
  | IntermediateNodeWithoutFileSize
  | TreeExpandsOnLinks
  | TreeOverlapsBetweenLinks
  | EarlierLink
  | TreeJumpsBetweenLinks
  | UnexpectedRawOrFileProperties (hash_type fanout : option Z).

Inductive Ending :=
  | TreeCoverage (cover_end : Z)
  | Chunk (chunk_end : Z).

Record Traversal := mkTraversal {
  last_ending : Ending;
  last_offset : Z;
  trav_file_size : Z;
  trav_metadata : Metadata;
}.

Record FileReader := mkReader {
  offset : Z;
  end_of : Ending;
  reader_links : list PBLink;
  reader_data : list byte;
  reader_blocksizes : list Z;
  metadata : Metadata;
  file_size : Z;
}.

Definition check_is_suitable_next (e : Ending) (offset : Z) (next : Range) : result unit FileError :=
  match e with
  | TreeCoverage cover_end =>
      if bool_decide (start next ≤ offset)%Z && bool_decide (cover_end < end_ next)%Z
      then Err TreeExpandsOnLinks
      else if bool_decide (start next < cover_end)%Z && bool_decide (cover_end < end_ next)%Z
      then Err TreeOverlapsBetweenLinks
      else if bool_decide (start next < offset)%Z then Err EarlierLink
      else Ok ()
  | Chunk chunk_end =>
      if bool_decide (start next ≠ chunk_end) then Err TreeJumpsBetweenLinks else Ok ()
  end.

Section reader.
  Context {ids : Ids} {cc : CidCodec} {qp : QuickProtobuf}.

Inductive FileReadFailed :=
  | File_ (e : FileError)
  | UnexpectedType (t : Z)
  | Read (e : option PbError)
  | InvalidCid (nth : nat) (link : PBLink) (source : CidError).

(** [From<ParsingFailed> for FileReadFailed]. *)
Definition FileReadFailed_from (e : ParsingFailed) : FileReadFailed :=
  match e with
  | InvalidDagPb e => Read (Some e)
  | InvalidUnixFs e _ => Read (Some e)
  | NoData _ => Read None
  end.

(** [inner.data.Data.as_ref().map(|cow| cow.as_ref().is_empty()).unwrap_or(true)]. *)
Definition empty_or_no_content (d : UnixFs) : bool :=
  match Data d with Some b => bool_decide (b = []) | None => true end.

Definition from_parts (inner : FlatUnixFs) (offset : Z) (metadata : Metadata) :
    outcome (result FileReader FileReadFailed) :=
  let d := data inner in
  let is_zero_bytes := bool_decide (default 0%Z (filesize d) = 0%Z) in
  if bool_decide (Type_ d ≠ File) && bool_decide (Type_ d ≠ Raw)
  then Done (Err (UnexpectedType (DataType_into (Type_ d))))
  else if bool_decide (length (links inner) ≠ length (blocksizes d))
  then Done (Err (File_ LinksAndBlocksizesMismatch))
  else if empty_or_no_content d && negb is_zero_bytes && bool_decide (links inner = [])
  then Done (Err (File_ NoLinksNoContent))
  else
    let content := default [] (Data d) in
    if bool_decide (is_Some (hashType d)) || bool_decide (is_Some (fanout d))
    then Done (Err (File_ (UnexpectedRawOrFileProperties (hashType d) (fanout d))))
    else
      let! e :=
        if bool_decide (links inner = []) then
          e ← u64_add offset (default (vec_len content) (filesize d)); Done (Ok (Chunk e))
        else
          match filesize d with
          | Some filesize => e ← u64_add offset filesize; Done (Ok (TreeCoverage e))
          | None => Done (Err (File_ IntermediateNodeWithoutFileSize))
          end
      in
      match filesize d with
      | Some filesize =>
          Done (Ok (mkReader offset e (links inner) content (blocksizes d) metadata filesize))
      | None => Panic
      end.

Definition try_parse (block : list byte) : outcome (result FlatUnixFs FileReadFailed) :=
  map_err FileReadFailed_from <$> FlatUnixFs_try_from block.

Definition from_block (block : list byte) : outcome (result FileReader FileReadFailed) :=
  let! inner := try_parse block in
  from_parts inner 0%Z (Metadata_from (data inner)).

Definition from_parsed (inner : FlatUnixFs) : outcome (result FileReader FileReadFailed) :=
  from_parts inner 0%Z (Metadata_from (data inner)).

Definition from_continued (t : Traversal) (offset : Z) (block : list byte) :
    outcome (result FileReader FileReadFailed) :=
  let! inner := try_parse block in
  if bool_decide (is_Some (mode (data inner))) || bool_decide (is_Some (mtime (data inner)))
  then Done (Err (File_ (NonRootDefinesMetadata (Metadata_from (data inner)))))
  else from_parts inner offset (trav_metadata t).

(** [Traversal::continue_walk]. *)
Definition traversal_continue_walk (t : Traversal) (next_block : list byte) (tree_range : Range) :
    outcome (result FileReader FileReadFailed) :=
  let! _ := Done (map_err File_
    (check_is_suitable_next (last_ending t) (last_offset t) tree_range)) in
  from_continued t (start tree_range) next_block.

(** [RangeLinks] (unixfs/src/pb.rs): the links with their sizes and the running
    base offset. *)
Record RangeLinks := mkRangeLinks { inner : list (PBLink * Z); base : Z }.

Definition from_links_and_blocksizes (zipped : list (PBLink * Z)) (start_offset : option Z) :
    RangeLinks :=
  mkRangeLinks zipped (default 0%Z start_offset).

(** [RangeLinks::next]. *)
Definition range_links_next (r : RangeLinks) : outcome (option (PBLink * Range * RangeLinks)) :=
  match inner r with
  | [] => Done None
  | (link, blocksize) :: rest =>
      let returned_base := base r in
      base ← u64_add (base r) blocksize;
      e ← u64_add returned_base blocksize;
      Done (Some (link, mkRange returned_base e, mkRangeLinks rest base))
  end.

Inductive FileContent :=
  | Bytes (b : list byte)
  | Links (l : RangeLinks).

(** [FileReader::content]. *)
Definition reader_content (fr : FileReader) : FileContent * Traversal :=
  let traversal := mkTraversal (end_of fr) (offset fr) (file_size fr) (metadata fr) in
  let fc :=
    if bool_decide (reader_links fr = []) then Bytes (reader_data fr)
    else Links (from_links_and_blocksizes (zip (reader_links fr) (reader_blocksizes fr))
                  (Some (offset fr))) in
  (fc, traversal).
End reader.
End FileReader.
