(* ===== verification/FileVisit.v ===== *)
(** * Visiting a UnixFS file

    unixfs/src/file/visit.rs (the walk over the tree, block by block, optionally
    restricted to a byte range) and the loop of src/unixfs/cat.rs that drives it. *)
From stdpp Require Import base gmap list strings.
From Stdlib Require Import Strings.Byte.
From S2P Require Import Prelude Protobuf UnixFsPb FileTree FileReader.

Module FileVisit.
Import Merkledag UnixFsData Flat UnixFsMetadata FileTree FileReader.

Definition block_is_in_target_range (block : Range) (target : option Range) : bool :=
  match target with
  | Some target =>
      bool_decide (Z.max (start block) (start target) ≤ Z.min (end_ block) (end_ target))%Z
  | None => true
  end.

(** [&content[from..to]]. *)
Definition slice {A} (content : list A) (from to : Z) : outcome (list A) :=
  if bool_decide (0 ≤ from ≤ to ∧ to ≤ vec_len content)%Z
  then Done (take (Z.to_nat (to - from)) (drop (Z.to_nat from) content))
  else Panic.

Definition target_slice (content : list byte) (block target : Range) : outcome (list byte) :=
  if negb (block_is_in_target_range block (Some target)) then Done []
  else if bool_decide (start target < start block)%Z then
    e ← u64_sub (Z.min (end_ target) (end_ block)) (start block);
    slice content 0%Z e
  else if bool_decide (end_ block < end_ target)%Z then
    s ← u64_sub (start target) (start block);
    e ← u64_sub (Z.min (end_ target) (end_ block)) (start block);
    slice content s e
  else
    s ← u64_sub (start target) (start block);
    n ← u64_sub (end_ target) (start target);
    e ← usize_add s n;
    slice content s e.

Definition maybe_target_slice (content : list byte) (block : Range) (target : option Range) :
    outcome (list byte) :=
  match target with
  | Some target => target_slice content block target
  | None => Done content
  end.

(** ** Specification of a range

    The bytes of [content], which lies at [pos] in the file, that are inside the
    target. *)
Definition in_target (target : option Range) (p : Z) : bool :=
  match target with
  | Some t => bool_decide (start t ≤ p < end_ t)%Z
  | None => true
  end.

Fixpoint clip (pos : Z) (content : list byte) (target : option Range) : list byte :=
  match content with
  | [] => []
  | b :: content =>
      if in_target target pos then b :: clip (pos + 1) content target
      else clip (pos + 1) content target
  end.

Lemma clip_app pos a b target :
  clip pos (a ++ b) target = clip pos a target ++ clip (pos + vec_len a) b target.
Proof.
  revert pos. induction a as [|x a IH]; intros pos.
  - simpl. by rewrite Z.add_0_r.
  - simpl. rewrite IH. replace (pos + vec_len (x :: a))%Z with (pos + 1 + vec_len a)%Z
      by (unfold vec_len; simpl; lia). by case_match.
Qed.

Lemma clip_None pos content : clip pos content None = content.
Proof. revert pos. induction content as [|x a IH]; intros pos; [done|]. simpl. by rewrite IH. Qed.

(** A range that is inside a window is a slice. *)
Lemma clip_slice pos content s e :
  clip pos content (Some (mkRange s e)) =
  take (Z.to_nat (e - Z.max s pos)) (drop (Z.to_nat (s - pos)) content).
Proof.
  revert pos. induction content as [|x a IH]; intros pos; [by rewrite drop_nil, take_nil|].
  simpl. case_bool_decide as Hin.
  - replace (Z.to_nat (s - pos)) with 0 by lia. rewrite drop_0.
    replace (Z.to_nat (e - s `max` pos)) with (S (Z.to_nat (e - (pos + 1)))) by lia. simpl.
    f_equal. rewrite IH. replace (Z.to_nat (s - (pos + 1))) with 0 by lia. rewrite drop_0.
    do 2 f_equal. lia.
  - rewrite IH. destruct (decide (pos < s)%Z).
    + replace (Z.to_nat (s - pos)) with (S (Z.to_nat (s - (pos + 1)))) by lia. simpl.
      do 2 f_equal. lia.
    + replace (Z.to_nat (e - s `max` (pos + 1))) with 0 by lia.
      replace (Z.to_nat (e - s `max` pos)) with 0 by lia. done.
Qed.

Lemma slice_ok {A} (content : list A) from to :
  (0 ≤ from ≤ to)%Z → (to ≤ vec_len content)%Z →
  slice content from to = Done (take (Z.to_nat (to - from)) (drop (Z.to_nat from) content)).
Proof. intros. unfold slice. by rewrite bool_decide_eq_true_2 by lia. Qed.

(** [target_slice] returns the bytes of the block that are in the target. *)
Lemma target_slice_clip content block target :
  (0 ≤ start block)%Z → end_ block = (start block + vec_len content)%Z → (end_ block ≤ usize_max)%Z →
  target_slice content block target = Done (clip (start block) content (Some target)).
Proof.
  intros H0 He Hm. destruct block as [bs be], target as [ts te]. simpl in *. subst be.
  rewrite clip_slice. pose proof (Pb.vec_len_nonneg content) as Hlen.
  unfold target_slice, block_is_in_target_range. simpl. case_bool_decide as Hin; simpl; last first.
  { f_equal. symmetry. destruct (decide (ts < bs + vec_len content)%Z).
    - replace (Z.to_nat (te - ts `max` bs)) with 0 by lia. done.
    - rewrite drop_ge by (unfold vec_len in *; lia). apply take_nil. }
  assert (∀ n m (l : list byte), m = n ∨ length l ≤ n ∧ length l ≤ m → take n l = take m l) as Htk.
  { intros n m l [-> |[? ?]]; [done|]. by rewrite !take_ge. }
  unfold u64_sub, usize_add. case_bool_decide as H1; [|case_bool_decide as H2].
  - rewrite checked_ok by lia. cbn [mbind outcome_bind]. rewrite slice_ok by lia.
    replace (Z.to_nat (ts - bs)) with 0 by lia. rewrite !drop_0. f_equal.
    apply Htk. unfold vec_len in *. lia.
  - rewrite !checked_ok by lia. cbn [mbind outcome_bind]. rewrite slice_ok by lia. f_equal.
    apply Htk. rewrite length_drop. unfold vec_len in *. lia.
  - rewrite !checked_ok by lia. cbn [mbind outcome_bind]. rewrite !checked_ok by lia.
    cbn [mbind outcome_bind]. rewrite slice_ok by lia. f_equal. apply Htk. left. lia.
Qed.

Section visit.
  Context {ids : Ids} {cc : CidCodec} {qp : QuickProtobuf}.

Definition Pending : Type := Cid * Range.

(** [Cache]: a vector whose allocation is reused; it is cleared when it is put
    into the cache. *)
Definition Cache : Type := option (list Pending).
Definition cache_from (inner : list Pending) : list Pending := [].

Record IdleFileVisit := mkIdle { idle_range : option Range }.
Definition with_target_range (range : Range) : IdleFileVisit := mkIdle (Some range).

Record FileVisit := mkVisit {
  pending : list Pending;
  range : option Range;
  state : Traversal;
}.

Definition to_pending (nth : nat) (link : PBLink) (range : Range) :
    result Pending FileReadFailed :=
  let hash := default [] (Hash link) in
  match cid_try_from hash with
  | Ok cid => Ok (cid, range)
  | Err e => Err (InvalidCid nth link e)
  end.

(** The loops over the links of a block, which keep the links of interest. *)
Fixpoint collect_pending (fuel nth : nat) (target : option Range) (iter : RangeLinks)
    (links : list Pending) : outcome (result (list Pending) FileReadFailed) :=
  match fuel with
  | O => OutOfFuel
  | S fuel =>
      item ← range_links_next iter;
      match item with
      | None => Done (Ok links)
      | Some (link, range, iter) =>
          if negb (block_is_in_target_range range target)
          then collect_pending fuel (S nth) target iter links
          else
            let! p := Done (to_pending nth link range) in
            collect_pending fuel (S nth) target iter (links ++ [p])
      end
  end.

(** The iterator yields one item per link. *)
Definition links_fuel (iter : RangeLinks) : nat := S (length (inner iter)).

Definition FileVisitResult : Type := list byte * Z * Metadata * option FileVisit.

Definition start_from_reader (v : IdleFileVisit) (fr : FileReader) (cache : Cache) :
    outcome (result (FileVisitResult * Cache) FileReadFailed) :=
  let meta := metadata fr in
  let '(content, traversal) := reader_content fr in
  match content with
  | Bytes content =>
      content ← maybe_target_slice content (mkRange 0%Z (vec_len content)) (idle_range v);
      Done (Ok (content, trav_file_size traversal, meta, None, cache))
  | Links iter =>
      let links := default [] cache in
      let! links := collect_pending (links_fuel iter) 0 (idle_range v) iter links in
      let links := reverse links in
      if bool_decide (links = []) then
        Done (Ok ([], trav_file_size traversal, meta, None, Some (cache_from links)))
      else
        Done (Ok ([], trav_file_size traversal, meta,
                  Some (mkVisit links (idle_range v) traversal), None))
  end.

Definition visit_start (v : IdleFileVisit) (block : list byte) :
    outcome (result FileVisitResult FileReadFailed) :=
  let! fr := from_block block in
  let! r := start_from_reader v fr None in
  Done (Ok r.1).

Definition start_from_parsed (v : IdleFileVisit) (block : FlatUnixFs) (cache : Cache) :
    outcome (result (FileVisitResult * Cache) FileReadFailed) :=
  let! fr := from_parsed block in start_from_reader v fr cache.

(** The first component of [FileVisit::pending_links]; [expect] panics without one. *)
Definition pending_links (v : FileVisit) : outcome (Cid * list Cid) :=
  match reverse (pending v) with
  | [] => Panic
  | (first, _) :: iter => Done (first, fst <$> iter)
  end.

Definition continue_walk (v : FileVisit) (next : list byte) (cache : Cache) :
    outcome (result (list byte * option FileVisit * Cache) FileReadFailed) :=
  let traversal := state v in
  match reverse (pending v) with
  | [] => Panic
  | (_, range_) :: popped =>
      let pending := reverse popped in
      let! fr := traversal_continue_walk traversal next range_ in
      let '(content, traversal) := reader_content fr in
      match content with
      | Bytes content =>
          content ← maybe_target_slice content range_ (range v);
          if negb (bool_decide (pending = []))
          then Done (Ok (content, Some (mkVisit pending (range v) traversal), cache))
          else Done (Ok (content, None, Some (cache_from pending)))
      | Links iter =>
          let before := length pending in
          let! pending := collect_pending (links_fuel iter) 0 (range v) iter pending in
          let pending := take before pending ++ reverse (drop before pending) in
          Done (Ok ([], Some (mkVisit pending (range v) traversal), cache))
      end
  end.

(** ** The loop of [cat] (src/unixfs/cat.rs), from the root block on

    [get_block] is the repository the blocks come from.  The result is the list
    of items the stream yields. *)
Section cat.
  Context {LoadError : Type} (get_block : Cid → result (list byte) LoadError).

Inductive TraversalFailed :=
  | Loading (c : Cid) (e : LoadError)
  | Walking (c : Cid) (e : FileReadFailed).

Definition item : Type := result (list byte) TraversalFailed.

Definition yield_nonempty (bytes : list byte) : list item :=
  if bool_decide (bytes = []) then [] else [Ok bytes].

Fixpoint cat_loop (fuel : nat) (v : FileVisit) (cache : Cache) : outcome (list item) :=
  match fuel with
  | O => OutOfFuel
  | S fuel =>
      p ← pending_links v;
      let '(next, _) := p in
      match get_block next with
      | Err e => Done [Err (Loading next e)]
      | Ok block =>
          r ← continue_walk v block cache;
          match r with
          | Ok (bytes, next_visit, cache) =>
              match next_visit with
              | Some v =>
                  more ← cat_loop fuel v cache;
                  Done (yield_nonempty bytes ++ more)
              | None => Done (yield_nonempty bytes)
              end
          | Err e => Done [Err (Walking next e)]
          end
      end
  end.

Definition cat (fuel : nat) (root : Cid) (block : list byte) (range : option Range) :
    outcome (result (list item) TraversalFailed) :=
  let visit := match range with Some r => with_target_range r | None => mkIdle None end in
  r ← visit_start visit block;
  match r with
  | Err e => Done (Err (Walking root e))
  | Ok (bytes, _, _, v) =>
      match v with
      | None => Done (Ok (yield_nonempty bytes))
      | Some v =>
          more ← cat_loop fuel v None;
          Done (Ok (yield_nonempty bytes ++ more))
      end
  end.
End cat.

(** ** Consecutive ranges *)

(** A subtree that is still to be visited: its link and the tree. *)
Definition slot : Type := Pending * tree.
Definition slot_range (x : slot) : Range := x.1.2.

Fixpoint chained (l : list slot) : Prop :=
  match l with
  | x :: ((y :: _) as l') => end_ (slot_range x) = start (slot_range y) ∧ chained l'
  | _ => True
  end.

(** The subtrees [ts] at [cs], one after the other from offset [o]. *)
Fixpoint place (o : Z) (cs : list Cid) (ts : list tree) : list slot :=
  match cs, ts with
  | c :: cs, t :: ts => ((c, mkRange o (o + tree_size t)%Z), t) :: place (o + tree_size t)%Z cs ts
  | _, _ => []
  end.

Definition touched (target : option Range) (x : slot) : Prop :=
  block_is_in_target_range (slot_range x) target = true.
#[local] Instance touched_dec target x : Decision (touched target x).
Proof. unfold touched. apply _. Defined.

Definition positive (x : slot) : Prop := (start (slot_range x) < end_ (slot_range x))%Z.

Lemma chained_cons x l : chained (x :: l) → chained l.
Proof. destruct l as [|y l]; simpl; [done|]. by intros [_ ?]. Qed.

Lemma filter_after target x l :
  chained (x :: l) → Forall positive (x :: l) → touched (Some target) x →
  match l with y :: _ => ¬ touched (Some target) y | [] => True end →
  filter (touched (Some target)) l = [].
Proof.
  intros Hc Hp Hx Hy. destruct l as [|y l]; [done|].
  assert (end_ target < start (slot_range y))%Z as Hlt.
  { destruct Hc as [Hc _]. rewrite !Forall_cons in Hp. destruct Hp as (Hpx & Hpy & _).
    unfold touched, positive, block_is_in_target_range in *.
    apply bool_decide_eq_true in Hx. rewrite bool_decide_eq_true in Hy. lia. }
  clear Hx Hy. apply chained_cons in Hc. apply Forall_cons in Hp as [_ Hp].
  revert y Hlt Hc Hp. induction l as [|z l IH]; intros y Hlt Hc Hp.
  - rewrite filter_cons_False; [done|]. unfold touched, block_is_in_target_range.
    rewrite bool_decide_eq_true. lia.
  - rewrite filter_cons_False; last first.
    { unfold touched, block_is_in_target_range. rewrite bool_decide_eq_true. lia. }
    destruct Hc as [Hyz Hc]. apply Forall_cons in Hp as [Hpy Hp]. apply IH; [|done|done].
    unfold positive in Hpy. lia.
Qed.

Lemma filter_touched_all target (l : list slot) :
  Forall (touched target) l → filter (touched target) l = l.
Proof. induction 1 as [|x l Hx _ IH]; [done|]. rewrite filter_cons_True by done. by rewrite IH. Qed.

Lemma filter_touched_None (l : list slot) : filter (touched None) l = l.
Proof. apply filter_touched_all, Forall_true. done. Qed.

(** The touched ranges are consecutive. *)
Lemma filter_chained target l :
  chained l → Forall positive l → chained (filter (touched target) l).
Proof.
  destruct target as [target|]; last first.
  { intros Hc _. by rewrite filter_touched_None. }
  induction l as [|x l IH]; intros Hc Hp; [done|].
  destruct (decide (touched (Some target) x)) as [Hx|Hx].
  - rewrite filter_cons_True by done.
    destruct l as [|y l]; [done|].
    destruct (decide (touched (Some target) y)) as [Hy|Hy].
    + specialize (IH (chained_cons _ _ Hc)). rewrite filter_cons_True in IH |- * by done.
      simpl. destruct Hc as [Hxy _]. split; [done|]. apply IH. by apply Forall_cons in Hp as [_ ?].
    + rewrite (filter_after target x (y :: l)); done.
  - rewrite filter_cons_False by done. apply IH; [by eapply chained_cons|].
    by apply Forall_cons in Hp as [_ ?].
Qed.

Lemma place_chained o cs ts : chained (place o cs ts).
Proof.
  revert o ts. induction cs as [|c cs IH]; intros o [|t ts]; try done. simpl.
  specialize (IH (o + tree_size t)%Z ts). by destruct cs, ts.
Qed.

Lemma place_positive o cs ts :
  Forall (λ t, 0 < tree_size t)%Z ts → Forall positive (place o cs ts).
Proof.
  intros Ht. revert o cs. induction Ht as [|t ts Ht _ IH]; intros o [|c cs]; constructor; [|done].
  unfold positive, slot_range. simpl. lia.
Qed.

(** Subtrees placed before a chain that starts where they end. *)
Lemma place_app_chained o cs ts l :
  length cs = length ts → chained l →
  (∀ y l', l = y :: l' → start (slot_range y) = (o + Zsum (tree_size <$> ts))%Z) →
  chained (place o cs ts ++ l).
Proof.
  intros Hlen Hl. revert o ts Hlen.
  induction cs as [|c cs IH]; intros o [|t ts] Hlen Hy; try done. simpl in Hlen.
  assert (chained (place (o + tree_size t)%Z cs ts ++ l)) as Hrest.
  { apply IH; [lia|]. intros y l' ->. rewrite (Hy y l') by done. rewrite fmap_cons.
    unfold Zsum. simpl. lia. }
  cbn [place app]. destruct cs as [|c' cs], ts as [|t' ts]; try done.
  destruct l as [|y l]; [done|]. split; [|done].
  rewrite (Hy y l) by done. unfold slot_range, Zsum. simpl. lia.
Qed.

(** Some subtree of a touched range is touched. *)
Lemma place_touched target o cs ts :
  length cs = length ts → ts ≠ [] → Forall (λ t, 0 < tree_size t)%Z ts →
  block_is_in_target_range (mkRange o (o + Zsum (tree_size <$> ts)))%Z target = true →
  filter (touched target) (place o cs ts) ≠ [].
Proof.
  destruct target as [[s e]|]; last first.
  { intros Hlen Hne _ _. rewrite filter_touched_None. by destruct cs, ts. }
  revert o ts. induction cs as [|c cs IH]; intros o [|t ts] Hlen Hne Hpos Hr; try done.
  apply Forall_cons in Hpos as [Ht Hpos]. simpl in Hlen.
  rewrite fmap_cons in Hr. cbn [Zsum foldr] in Hr. fold Zsum in Hr. cbn [place].
  unfold block_is_in_target_range in Hr. apply bool_decide_eq_true in Hr. simpl in Hr.
  destruct (decide (touched (Some (mkRange s e)) (c, mkRange o (o + tree_size t)%Z, t))) as [Hx|Hx].
  { by rewrite filter_cons_True. }
  rewrite filter_cons_False by done. unfold touched, block_is_in_target_range in Hx.
  rewrite bool_decide_eq_true in Hx. unfold slot_range in Hx. simpl in Hx.
  apply IH; [lia| |done|].
  - intros ->. simpl in Hr. lia.
  - unfold block_is_in_target_range. apply bool_decide_eq_true. simpl. unfold Zsum in *. lia.
Qed.

(** An untouched subtree has no byte in the target. *)
Lemma clip_untouched pos content target :
  block_is_in_target_range (mkRange pos (pos + vec_len content))%Z target = false →
  clip pos content target = [].
Proof.
  destruct target as [[s e]|]; [|done]. intros Hr. unfold block_is_in_target_range in Hr.
  apply bool_decide_eq_false in Hr. simpl in Hr. rewrite clip_slice.
  pose proof (Pb.vec_len_nonneg content). destruct (decide (s < pos + vec_len content)%Z).
  - replace (Z.to_nat (e - s `max` pos)) with 0 by lia. done.
  - rewrite drop_ge by (unfold vec_len in *; lia). apply take_nil.
Qed.

(** The bytes that visiting the slots yields. *)
Definition slot_bytes (target : option Range) (x : slot) : list byte :=
  clip (start (slot_range x)) (content x.2) target.

Lemma place_bytes target o cs ts :
  length cs = length ts →
  concat (slot_bytes target <$> filter (touched target) (place o cs ts)) =
  clip o (contents ts) target.
Proof.
  revert o ts. induction cs as [|c cs IH]; intros o [|t ts] Hlen; try done. simpl in Hlen.
  cbn [place]. rewrite contents_cons, clip_app. rewrite <-(IH _ ts) by lia.
  destruct (decide (touched target (c, mkRange o (o + tree_size t)%Z, t))) as [Hx|Hx].
  - by rewrite filter_cons_True by done.
  - rewrite filter_cons_False by done. rewrite (clip_untouched o (content t)); [done|].
    by apply not_true_is_false in Hx.
Qed.

(** ** Blocks that represent a tree are read as that tree *)

Lemma collect_pending_ok fuel nth target pls cs ts o acc :
  Forall2 links_to pls cs → length cs = length ts → length pls < fuel → (0 ≤ o)%Z →
  (o + Zsum (tree_size <$> ts) ≤ usize_max)%Z →
  collect_pending fuel nth target (mkRangeLinks (zip pls (tree_size <$> ts)) o) acc =
  Done (Ok (acc ++ (filter (touched target) (place o cs ts)).*1)).
Proof.
  intros Hl. revert fuel nth ts o acc.
  induction Hl as [|l c pls cs Hlc _ IH]; intros fuel nth ts o acc Hlen Hfuel Ho Hs;
    (destruct fuel as [|fuel]; [simpl in Hfuel; lia|]).
  { destruct ts; [|done]. simpl. by rewrite app_nil_r. }
  destruct ts as [|t ts]; [done|]. simpl in Hlen, Hfuel.
  pose proof (tree_size_nonneg t).
  assert (0 ≤ Zsum (tree_size <$> ts))%Z.
  { apply Zsum_nonneg, Forall_fmap, Forall_true. apply tree_size_nonneg. }
  rewrite fmap_cons in Hs |- *. cbn [Zsum foldr] in Hs. fold Zsum in Hs. unfold Zsum in *.
  cbn [zip zip_with collect_pending]. unfold range_links_next. cbn [inner base].
  unfold u64_add. rewrite checked_ok by lia. cbn [mbind outcome_bind].
  destruct (block_is_in_target_range _ target) eqn:Hr; cbn [negb]; cbn [place].
  - rewrite filter_cons_True by done. unfold to_pending. unfold links_to in Hlc. rewrite Hlc.
    cbn [try_bind mbind outcome_bind]. rewrite IH by lia. rewrite fmap_cons, <-(assoc_L (++)). done.
  - rewrite filter_cons_False by (by apply not_true_iff_false). apply IH; lia.
Qed.

Definition ending_of (t : tree) (e : Z) : Ending :=
  match t with Leaf _ => Chunk e | Node _ => TreeCoverage e end.

Lemma describes_links f t cs :
  describes f t cs → length (links f) = length (children t) ∧ (links f = [] ↔ children t = []).
Proof.
  intros (_ & _ & Hl & Hlen & _). pose proof (Forall2_length _ _ _ Hl). split; [lia|].
  split; intros E; rewrite E in *; simpl in *; by apply nil_length_inv; lia.
Qed.

Lemma from_parts_ok f t cs o m :
  describes f t cs → (0 ≤ o)%Z → (o + tree_size t ≤ usize_max)%Z →
  from_parts f o m = Done (Ok (mkReader o (ending_of t (o + tree_size t)%Z) (links f)
    (default [] (Data (data f))) (blocksizes (data f)) m (tree_size t))).
Proof.
  intros Hd Ho Hs. destruct (describes_links _ _ _ Hd) as [Hlen Hnil].
  destruct Hd as ((Hty & Hh & Hf) & Hfs & Hl & Hcl & Hb & Ht).
  pose proof (tree_size_nonneg t). unfold from_parts. rewrite Hfs, Hh, Hf, Hb. cbn [default].
  replace (bool_decide (Type_ (data f) ≠ File) && bool_decide (Type_ (data f) ≠ Raw)) with false
    by (destruct Hty as [-> | ->]; done).
  rewrite length_fmap, bool_decide_eq_false_2 by lia.
  replace (empty_or_no_content (data f) && _ && _) with false; last first.
  { symmetry. destruct (bool_decide (links f = [])) eqn:El; [|by rewrite andb_false_r].
    apply bool_decide_eq_true in El. apply Hnil in El. rewrite andb_true_r.
    destruct t as [chunk|ts]; [|simpl in *; by destruct Ht].
    unfold empty_or_no_content, tree_size in *. simpl in *.
    destruct (Data (data f)) as [d|]; simpl in Ht; subst chunk; [|done].
    destruct d; [done|]. by rewrite bool_decide_eq_false_2. }
  rewrite !(bool_decide_eq_false_2 (is_Some None)) by by intros [? ?]. cbn [orb].
  unfold u64_add, id. rewrite !checked_ok by lia. cbn [mbind outcome_bind].
  destruct t as [chunk|ts]; simpl in *.
  - rewrite bool_decide_eq_true_2 by tauto. done.
  - rewrite bool_decide_eq_false_2; [done|]. rewrite Hnil. by destruct Ht.
Qed.

Section walk.
  Context (has : Cid → list byte → Prop) (target : option Range).

Definition slot_ok (x : slot) : Prop :=
  represents has x.1.1 x.2 ∧ (0 ≤ start (slot_range x))%Z ∧
  end_ (slot_range x) = (start (slot_range x) + tree_size x.2)%Z ∧ (0 < tree_size x.2)%Z ∧
  (end_ (slot_range x) ≤ usize_max)%Z ∧ touched target x.

(** The slots that a visit still has to visit, the next one first. *)
Record visiting (v : FileVisit) (stack : list slot) : Prop := {
  vis_pending : reverse (pending v) = stack.*1;
  vis_range : range v = target;
  vis_ok : Forall slot_ok stack;
  vis_chained : chained stack;
  vis_next : ∀ x l, stack = x :: l →
    check_is_suitable_next (last_ending (state v)) (last_offset (state v)) (slot_range x) = Ok ();
}.

Lemma slot_ok_positive l : Forall slot_ok l → Forall positive l.
Proof.
  intros Hl. eapply Forall_impl; [done|]. intros x (_ & _ & He & Hp & _). unfold positive. lia.
Qed.

(** The touched subtrees of a node, ready to be visited. *)
Lemma place_ok o cs ts :
  Forall2 (represents has) cs ts → Forall (λ t, 0 < tree_size t)%Z ts →
  (0 ≤ o)%Z → (o + Zsum (tree_size <$> ts) ≤ usize_max)%Z →
  Forall slot_ok (filter (touched target) (place o cs ts)).
Proof.
  intros Hr. revert o. induction Hr as [|c t cs ts Hct _ IH]; intros o Hp Ho Hs; [constructor|].
  apply Forall_cons in Hp as [Ht Hp].
  assert (0 ≤ Zsum (tree_size <$> ts))%Z.
  { apply Zsum_nonneg, Forall_fmap, Forall_true. apply tree_size_nonneg. }
  rewrite fmap_cons in Hs. cbn [Zsum foldr] in Hs. fold Zsum in Hs. unfold Zsum in *. cbn [place].
  specialize (IH (o + tree_size t)%Z Hp ltac:(lia) ltac:(lia)).
  destruct (decide (touched target (c, mkRange o (o + tree_size t)%Z, t))) as [Hx|Hx].
  - rewrite filter_cons_True by done. constructor; [|done].
    unfold slot_ok, slot_range. simpl. split_and!; try done; lia.
  - by rewrite filter_cons_False.
Qed.

Lemma place_within o cs ts x :
  Forall (λ t, 0 < tree_size t)%Z ts → x ∈ place o cs ts →
  (o ≤ start (slot_range x) ∧ end_ (slot_range x) ≤ o + Zsum (tree_size <$> ts))%Z.
Proof.
  intros Hp. revert o cs. induction Hp as [|t ts Ht Hp IH]; intros o [|c cs] Hx; simpl in Hx;
    try by apply elem_of_nil in Hx.
  assert (0 ≤ Zsum (tree_size <$> ts))%Z.
  { apply Zsum_nonneg, Forall_fmap, Forall_true. apply tree_size_nonneg. }
  rewrite fmap_cons. cbn [Zsum foldr]. fold Zsum. unfold Zsum in *.
  apply elem_of_cons in Hx as [-> |Hx]; [unfold slot_range; simpl; lia|].
  specialize (IH _ _ Hx). lia.
Qed.

Definition stack_bytes (stack : list slot) : list byte := concat (slot_bytes target <$> stack).
Definition stack_blocks (stack : list slot) : nat := sum_list_with (λ x, tree_blocks x.2) stack.

Lemma filter_blocks o cs ts :
  stack_blocks (filter (touched target) (place o cs ts)) ≤ sum_list_with tree_blocks ts.
Proof.
  revert o cs. induction ts as [|t ts IH]; intros o [|c cs]; simpl; try lia.
  specialize (IH (o + tree_size t)%Z cs).
  destruct (decide (touched target (c, mkRange o (o + tree_size t)%Z, t))) as [Hx|Hx].
  - rewrite filter_cons_True by done. unfold stack_blocks in *. simpl. lia.
  - rewrite filter_cons_False by done. lia.
Qed.

Lemma continue_ok tr b f t cs r :
  FlatUnixFs_try_from b = Done (Ok f) → describes f t cs → no_metadata f →
  check_is_suitable_next (last_ending tr) (last_offset tr) r = Ok () →
  (0 ≤ start r)%Z → (start r + tree_size t ≤ usize_max)%Z →
  traversal_continue_walk tr b r =
  Done (Ok (mkReader (start r) (ending_of t (start r + tree_size t)%Z) (links f)
    (default [] (Data (data f))) (blocksizes (data f)) (trav_metadata tr) (tree_size t))).
Proof.
  intros Hp Hd [Hm1 Hm2] Hc H0 Hs. unfold traversal_continue_walk. rewrite Hc.
  cbn [map_err try_bind mbind outcome_bind]. unfold from_continued, try_parse. rewrite Hp.
  cbn [fmap outcome_fmap map_err try_bind mbind outcome_bind]. rewrite Hm1, Hm2.
  rewrite !bool_decide_eq_false_2 by by intros [? ?]. cbn [orb]. by eapply from_parts_ok.
Qed.

Lemma Forall2_links_nil f chunk cs : describes f (Leaf chunk) cs → links f = [].
Proof. intros Hd. by apply (describes_links _ _ _ Hd). Qed.

Lemma walk_leaf v x rest b f cs chunk cache :
  visiting v (x :: rest) → x.2 = Leaf chunk →
  FlatUnixFs_try_from b = Done (Ok f) → describes f (Leaf chunk) cs → no_metadata f →
  ∃ next cache', continue_walk v b cache = Done (Ok (slot_bytes target x, next, cache')) ∧
    match next with Some v' => rest ≠ [] ∧ visiting v' rest | None => rest = [] end.
Proof.
  intros [Hpend Hrange Hok Hch Hnext] Hx Hp Hd Hm. apply Forall_cons in Hok as [Hx1 Hok].
  destruct Hx1 as (Hrep & H0 & He & Hpos & Hmax & Ht). rewrite Hx in He.
  pose proof (Hnext _ _ eq_refl) as Hchk.
  rewrite fmap_cons in Hpend. unfold continue_walk. rewrite Hpend.
  destruct x as [[c r] t]. unfold slot_range in *. simpl in *. subst t.
  rewrite (continue_ok _ b f (Leaf chunk) cs) by (done || lia). cbn [try_bind mbind outcome_bind].
  unfold reader_content. cbn [reader_links reader_data end_of offset].
  rewrite (Forall2_links_nil _ _ _ Hd), bool_decide_eq_true_2 by done.
  assert (default [] (Data (data f)) = chunk) as -> by apply Hd.
  assert (maybe_target_slice chunk r (range v) = Done (clip (start r) chunk target)) as ->.
  { rewrite Hrange. destruct target as [tg|]; simpl; [|by rewrite clip_None].
    apply target_slice_clip; [lia|done|lia]. }
  cbn [mbind outcome_bind]. destruct rest as [|y rest].
  - rewrite bool_decide_eq_true_2 by done. eexists None, _. split; [done|done].
  - rewrite bool_decide_eq_false_2; last first.
    { intros E. apply (f_equal reverse) in E. rewrite reverse_involutive in E. done. }
    eexists (Some _), _. split; [done|]. split; [done|].
    split; simpl.
    + by rewrite reverse_involutive.
    + done.
    + done.
    + apply Hch.
    + intros y' l' [= <- <-]. destruct Hch as [Hch _]. unfold slot_range in *. simpl in Hch.
      rewrite bool_decide_eq_false_2; [done|]. intros Hne. apply Hne. rewrite <-Hch, He. done.
Qed.

Lemma walk_node v x rest b f cs ts cache :
  visiting v (x :: rest) → x.2 = Node ts →
  FlatUnixFs_try_from b = Done (Ok f) → describes f (Node ts) cs → no_metadata f →
  Forall2 (represents has) cs ts →
  ∃ v' stack', continue_walk v b cache = Done (Ok ([], Some v', cache)) ∧
    stack' ≠ [] ∧ visiting v' (stack' ++ rest) ∧
    stack_bytes stack' = slot_bytes target x ∧ stack_blocks stack' < tree_blocks (Node ts).
Proof.
  intros [Hpend Hrange Hok Hch Hnext] Hx Hp Hd Hm Hrep. apply Forall_cons in Hok as [Hx1 Hok].
  destruct Hx1 as (_ & H0 & He & Hpos & Hmax & Ht). rewrite Hx in He, Hpos.
  pose proof (Hnext _ _ eq_refl) as Hchk.
  rewrite fmap_cons in Hpend. unfold continue_walk. rewrite Hpend.
  destruct x as [[c r] t]. unfold slot_range in *. simpl in H0, He, Hmax, Hx, Hchk. subst t. cbn [fst snd].
  rewrite (continue_ok _ b f (Node ts) cs) by (done || lia). cbn [try_bind mbind outcome_bind].
  unfold reader_content. cbn [reader_links reader_data reader_blocksizes end_of offset file_size metadata].
  destruct (describes_links _ _ _ Hd) as [Hlen Hnil].
  destruct Hd as (_ & _ & Hl & Hcl & Hb & Hne & Hposs).
  rewrite bool_decide_eq_false_2 by (by rewrite Hnil). rewrite Hb. cbn [children] in *.
  rewrite tree_size_Node in *. unfold from_links_and_blocksizes, links_fuel. cbn [inner default].
  rewrite (collect_pending_ok _ _ _ _ cs) by (try done; rewrite ?length_zip_with, ?length_fmap; simpl; lia).
  cbn [try_bind mbind outcome_bind]. rewrite Hrange.
  set (sel := filter (touched target) (place (start r) cs ts)).
  rewrite take_app_length, drop_app_length. eexists _, sel. split; [done|].
  assert (Forall slot_ok sel) as Hsel by (apply place_ok; try done; lia).
  assert (sel ≠ []) as Hselne.
  { apply place_touched; [done|done|done|]. unfold touched, slot_range in Ht. simpl in Ht.
    rewrite <-He. by destruct r. }
  split; [done|]. split; [|split].
  - split; cbn [pending range state last_ending last_offset].
    + by rewrite reverse_app, !reverse_involutive, fmap_app.
    + done.
    + by apply Forall_app.
    + assert (filter (touched target) rest = rest) as Hfr.
      { apply filter_touched_all. eapply Forall_impl; [done|]. intros y Hy. apply Hy. }
      unfold sel. rewrite <-Hfr, <-filter_app. apply filter_chained.
      * apply place_app_chained; [done|by eapply chained_cons|].
        intros y l' ->. destruct Hch as [Hch _]. rewrite <-Hch. unfold slot_range. simpl. lia.
      * apply Forall_app. split; [by apply place_positive|by apply slot_ok_positive].
    + intros y l Hy. destruct sel as [|y' sel'] eqn:Hs'; [done|]. injection Hy as <- _.
      assert (y' ∈ place (start r) cs ts) as Hin.
      { assert (y' ∈ sel) as Hin by (rewrite Hs'; set_solver).
        unfold sel in Hin. by apply list_elem_of_filter in Hin as [_ ?]. }
      destruct (place_within _ _ _ _ Hposs Hin) as [Hlo Hhi].
      unfold check_is_suitable_next, ending_of.
      rewrite !andb_false_intro2 by (apply bool_decide_eq_false_2; lia).
      by rewrite bool_decide_eq_false_2 by lia.
  - unfold stack_bytes, sel. rewrite place_bytes by done. done.
  - pose proof (filter_blocks (start r) cs ts). simpl. unfold sel. lia.
Qed.
End walk.

(** The whole loop yields exactly the bytes of the slots. *)
Section cat_ok.
  Context {LoadError : Type} (get_block : Cid → result (list byte) LoadError).
  Context (has : Cid → list byte → Prop) (target : option Range).
  Context (Hget : ∀ c b, has c b → get_block c = Ok b).

Lemma yield_nonempty_ok (bytes : list byte) :
  ∃ items, yield_nonempty (LoadError := LoadError) bytes = Ok <$> items ∧ concat items = bytes.
Proof.
  unfold yield_nonempty. case_bool_decide as Hb; [by exists []; subst|].
  exists [bytes]. simpl. by rewrite app_nil_r.
Qed.

Lemma cat_loop_ok fuel v stack cache :
  visiting has target v stack → stack ≠ [] → stack_blocks stack < fuel →
  ∃ items, cat_loop get_block fuel v cache = Done (Ok <$> items) ∧
    concat items = stack_bytes target stack.
Proof.
  revert v stack cache. induction fuel as [|fuel IH]; intros v stack cache Hv Hne Hf; [lia|].
  destruct stack as [|x rest]; [done|].
  pose proof Hv as [Hpend _ Hok _ _]. apply Forall_cons in Hok as [Hx _].
  destruct Hx as (Hrep & _). destruct Hrep as [b f cs Hhas Hp Hd Hm Hch].
  cbn [cat_loop]. unfold pending_links. rewrite Hpend, fmap_cons.
  destruct x as [[c r] t]. cbn [fst snd] in *. cbn [mbind outcome_bind]. rewrite (Hget _ _ Hhas).
  destruct t as [chunk|ts].
  - destruct (walk_leaf has target v _ rest b f cs chunk cache Hv eq_refl Hp Hd Hm)
      as (next & cache' & Hrun & Hnext). rewrite Hrun. cbn [mbind outcome_bind].
    match goal with |- context [yield_nonempty ?y] =>
      destruct (yield_nonempty_ok y) as (i1 & Hi1 & Hc1) end.
    destruct next as [v'|].
    + destruct Hnext as [Hr Hv']. destruct (IH v' rest cache' Hv' Hr) as (items & Hrest & Hc).
      { unfold stack_blocks in *. simpl in Hf. lia. }
      rewrite Hrest. cbn [mbind outcome_bind]. exists (i1 ++ items).
      rewrite Hi1, fmap_app. split; [done|]. rewrite concat_app, Hc1, Hc. done.
    + subst rest. exists i1. rewrite Hi1. split; [done|]. rewrite Hc1.
      unfold stack_bytes. cbn [fmap list_fmap concat]. by rewrite app_nil_r.
  - destruct (walk_node has target v _ rest b f cs ts cache Hv eq_refl Hp Hd Hm Hch)
      as (v' & stack' & Hrun & Hne' & Hv' & Hbytes & Hblocks).
    rewrite Hrun. cbn [mbind outcome_bind].
    destruct (IH v' (stack' ++ rest) cache Hv') as (items & Hrest & Hc).
    { by destruct stack'. }
    { unfold stack_blocks in *. rewrite sum_list_with_app. simpl in Hf, Hblocks. lia. }
    rewrite Hrest. cbn [mbind outcome_bind]. exists items. split; [done|].
    rewrite Hc. unfold stack_bytes in *. rewrite fmap_app, concat_app, Hbytes. done.
Qed.

Lemma visit_start_ok b f t cs :
  FlatUnixFs_try_from b = Done (Ok f) → describes f t cs → (tree_size t ≤ usize_max)%Z →
  Forall2 (represents has) cs (children t) →
  ∃ bytes m v, visit_start (mkIdle target) b = Done (Ok (bytes, tree_size t, m, v)) ∧
    match v with
    | None => bytes = clip 0 (content t) target
    | Some v => bytes = [] ∧ ∃ stack, stack ≠ [] ∧ visiting has target v stack ∧
        stack_bytes target stack = clip 0 (content t) target ∧ stack_blocks stack < tree_blocks t
    end.
Proof.
  intros Hp Hd Hs Hrep. unfold visit_start, from_block, try_parse. rewrite Hp.
  cbn [fmap outcome_fmap map_err try_bind mbind outcome_bind].
  rewrite (from_parts_ok f t cs) by (done || lia). cbn [try_bind mbind outcome_bind].
  unfold start_from_reader, reader_content. cbn [reader_links reader_data reader_blocksizes end_of offset].
  destruct (describes_links _ _ _ Hd) as [Hlen Hnil].
  pose proof Hd as (_ & _ & Hl & Hcl & Hb & Ht). destruct t as [chunk|ts].
  - rewrite bool_decide_eq_true_2 by tauto. rewrite Ht.
    assert (maybe_target_slice chunk (mkRange 0 (vec_len chunk)) (idle_range (mkIdle target)) =
      Done (clip 0 chunk target)) as ->.
    { simpl. destruct target as [tg|]; simpl; [|by rewrite clip_None].
      apply target_slice_clip; simpl; [lia|lia|]. done. }
    eexists _, _, None. split; [done|done].
  - destruct Ht as [Hne Hpos]. rewrite bool_decide_eq_false_2 by (by rewrite Hnil).
    rewrite Hb. cbn [children] in *. rewrite tree_size_Node in *.
    unfold from_links_and_blocksizes, links_fuel. cbn [inner default id idle_range].
    rewrite (collect_pending_ok _ _ _ _ cs) by (try done; rewrite ?length_zip_with, ?length_fmap; simpl; lia).
    cbn [try_bind mbind outcome_bind app].
    set (sel := filter (touched target) (place 0 cs ts)).
    case_bool_decide as Hsel.
    + eexists _, _, None. split; [done|]. assert (sel = []) as Hnil'.
      { apply (f_equal reverse) in Hsel. rewrite reverse_involutive in Hsel. by apply fmap_nil_inv in Hsel. }
      change (content (Node ts)) with (contents ts).
      rewrite <-(place_bytes target 0 cs ts) by done. unfold sel in Hnil'. by rewrite Hnil'.
    + eexists _, _, (Some _). split; [done|]. split; [done|]. exists sel. split_and!.
      * intros E. apply Hsel. by rewrite E.
      * assert (Forall (slot_ok has target) sel) as Hok by (apply place_ok; try done; lia).
        split; cbn [pending range state last_ending last_offset].
        -- by rewrite reverse_involutive.
        -- done.
        -- done.
        -- apply filter_chained; [apply place_chained|by apply place_positive].
        -- intros y l Hy. assert (y ∈ place 0 cs ts) as Hin.
           { assert (y ∈ sel) as Hin by (rewrite Hy; set_solver).
             unfold sel in Hin. by apply list_elem_of_filter in Hin as [_ ?]. }
           destruct (place_within _ _ _ _ Hpos Hin) as [Hlo Hhi].
           unfold check_is_suitable_next, ending_of.
           rewrite !andb_false_intro2 by (apply bool_decide_eq_false_2; lia).
           by rewrite bool_decide_eq_false_2 by lia.
      * unfold stack_bytes, sel. by rewrite place_bytes.
      * pose proof (filter_blocks target 0 cs ts). simpl. unfold sel. lia.
Qed.

Lemma cat_ok fuel root b f t cs :
  FlatUnixFs_try_from b = Done (Ok f) → describes f t cs → (tree_size t ≤ usize_max)%Z →
  Forall2 (represents has) cs (children t) → tree_blocks t ≤ fuel →
  ∃ items, cat get_block fuel root b target = Done (Ok (Ok <$> items)) ∧
    concat items = clip 0 (content t) target.
Proof.
  intros Hp Hd Hs Hrep Hfuel.
  destruct (visit_start_ok b f t cs Hp Hd Hs Hrep) as (bytes & m & v & Hrun & Hv).
  unfold cat. replace (match target with Some r => _ | None => _ end) with (mkIdle target)
    by by destruct target.
  rewrite Hrun. cbn [mbind outcome_bind]. destruct v as [v|].
  - destruct Hv as (-> & stack & Hne & Hv & Hb & Hbl).
    destruct (cat_loop_ok fuel v stack None Hv Hne) as (items & Hl & Hc); [lia|].
    rewrite Hl. cbn [mbind outcome_bind]. exists items. split; [done|congruence].
  - subst bytes. destruct (yield_nonempty_ok (clip 0 (content t) target)) as (i & Hi & Hc).
    exists i. by rewrite Hi.
Qed.
End cat_ok.
End visit.
End FileVisit.
