(* ===== verification/UnixFsAdd.v ===== *)
(** * Adding a file to a repository

    The stream of src/unixfs/add.rs that feeds buffers to a [FileAdder], stores
    the blocks that come out and reports its progress, up to the identifier of
    the root.  What follows, wrapping in a directory, pinning and providing, is in
    UnixFsWrap.v. *)
From stdpp Require Import base gmap list strings.
From Stdlib Require Import Strings.Byte.
From S2P Require Import Prelude Protobuf UnixFsPb FileTree FileAdder.

Module UnixFsAdd.
Import FileTree FileAdder.

Section add.
  Context {ids : Ids} {cc : CidCodec} {qp : QuickProtobuf}.
  (** The repository: [Block::new] checks an identifier against the bytes (crate
      [libipld]), [put_block] stores a block. *)
  Context {Repo Error IoError : Type}.
  Context (block_new : Cid → list byte → result Block Error).
  Context (put_block : Block → Repo → result Cid Error * Repo).

Inductive AddError := BlockError (e : Error) | StreamError (e : IoError).

Inductive UnixfsStatus :=
  | ProgressStatus (written : Z) (total_size : option Z)
  | CompletedStatus (root : Cid) (written : Z) (total_size : option Z)
  | FailedStatus (written : Z) (total_size : option Z) (error : option AddError).

(** The [for (cid, block) in blocks] loops; they end at the first error. *)
Fixpoint put_blocks (blocks : list Block) (last_cid : option Cid) (repo : Repo) :
    result (option Cid) Error * Repo :=
  match blocks with
  | [] => (Ok last_cid, repo)
  | (cid, block) :: blocks =>
      match block_new cid block with
      | Err e => (Err e, repo)
      | Ok block =>
          match put_block block repo with
          | (Ok _, repo) => put_blocks blocks (Some cid) repo
          | (Err e, repo) => (Err e, repo)
          end
      end
  end.

(** The loop over one buffer; an error carries how much was written before. *)
Fixpoint add_buffer (fuel : nat) (buffer : list byte) (a : FileAdder) (written : Z) (repo : Repo) :
    outcome (result (FileAdder * Z) (Z * Error) * Repo) :=
  match fuel with
  | O => OutOfFuel
  | S fuel =>
      if bool_decide (buffer = []) then mret (Ok (a, written), repo)
      else
        r ← push buffer a;
        let '(blocks, consumed, a) := r in
        match put_blocks blocks None repo with
        | (Err e, repo) => mret (Err (written, e), repo)
        | (Ok _, repo) =>
            written ← usize_add written consumed;
            add_buffer fuel (drop (Z.to_nat consumed) buffer) a written repo
        end
  end.

(** The [while let Some(buffer)] loop: the statuses and, unless it failed, the
    adder at the end of the stream. *)
Fixpoint add_loop (stream : list (result (list byte) IoError)) (total_size : option Z)
    (a : FileAdder) (written : Z) (repo : Repo) :
    outcome (list UnixfsStatus * option (FileAdder * Z) * Repo) :=
  match stream with
  | [] => mret ([], Some (a, written), repo)
  | Err e :: _ => mret ([FailedStatus written total_size (Some (StreamError e))], None, repo)
  | Ok buffer :: stream =>
      r ← add_buffer (S (length buffer)) buffer a written repo;
      match r with
      | (Err (written, e), repo) =>
          mret ([FailedStatus written total_size (Some (BlockError e))], None, repo)
      | (Ok (a, written), repo) =>
          r ← add_loop stream total_size a written repo;
          let '(statuses, a, repo) := r in
          mret (ProgressStatus written total_size :: statuses, a, repo)
      end
  end.

Definition add (chunk : Chunker) (total_size : option Z)
    (stream : list (result (list byte) IoError)) (repo : Repo) :
    outcome (list UnixfsStatus * Repo) :=
  bc ← with_branching_factor 174;
  r ← add_loop stream total_size (build chunk (Balanced bc)) 0%Z repo;
  let '(statuses, a, repo) := r in
  let statuses := ProgressStatus 0 total_size :: statuses in
  match a with
  | None => mret (statuses, repo)
  | Some (a, written) =>
      blocks ← finish a;
      match put_blocks blocks None repo with
      | (Err e, repo) =>
          mret (statuses ++ [FailedStatus written total_size (Some (BlockError e))], repo)
      | (Ok last_cid, repo) =>
          match last_cid with
          | Some cid => mret (statuses ++ [CompletedStatus cid written total_size], repo)
          | None => mret (statuses ++ [FailedStatus written total_size None], repo)
          end
      end
  end.

(** ** Running it on a repository that accepts every valid block *)
Section accepting.
  Context (stored : Repo → list Block).
  Context (Hnew : ∀ b, block_new (sha2_256_v0 b) b = Ok (sha2_256_v0 b, b)).
  Context (Hput : ∀ b r, (put_block b r).1 = Ok b.1 ∧ stored (put_block b r).2 = stored r ++ [b]).

Lemma put_blocks_ok blocks last_cid repo :
  Forall hashed blocks →
  ∃ repo', put_blocks blocks last_cid repo =
      (Ok (match last blocks.*1 with Some c => Some c | None => last_cid end), repo') ∧
    stored repo' = stored repo ++ blocks.
Proof.
  intros Hb. revert last_cid repo. induction Hb as [|[c b] blocks Hc _ IH]; intros last_cid repo.
  { exists repo. by rewrite app_nil_r. }
  cbn [put_blocks]. unfold hashed in Hc. simpl in Hc. subst c. rewrite Hnew.
  destruct (Hput (sha2_256_v0 b, b) repo) as [H1 H2].
  destruct (put_block _ repo) as [res repo1]. simpl in H1, H2. subst res.
  destruct (IH (Some (sha2_256_v0 b)) repo1) as (repo' & Hrun & Hst). exists repo'.
  rewrite Hrun, fmap_cons, last_cons. split; [by destruct (last blocks.*1)|].
  by rewrite Hst, H2, <-(assoc_L (++)).
Qed.

Lemma add_buffer_ok fuel buffer a blks a' written repo :
  push_buffer fuel buffer a = Done (blks, a') → (0 ≤ written)%Z →
  (written + vec_len buffer ≤ usize_max)%Z →
  ∃ repo', add_buffer fuel buffer a written repo =
      Done (Ok (a', (written + vec_len buffer)%Z), repo') ∧
    stored repo' = stored repo ++ blks.
Proof.
  revert buffer a blks written repo. induction fuel as [|fuel IH]; intros buffer a blks written repo Hr Hw Hlen;
    [done|].
  cbn [push_buffer] in Hr. cbn [add_buffer]. case_bool_decide as Hb.
  { inv_outcome. exists repo. by rewrite Z.add_0_r, app_nil_r. }
  apply bind_Done in Hr as ([[bl n] a1] & Hp & Hr). apply bind_Done in Hr as ([more a2] & Hp2 & Hr).
  inv_outcome. destruct (push_hashed _ _ _ _ _ Hp) as [Hh Hn]. rewrite Hp. cbn [mbind outcome_bind].
  destruct (put_blocks_ok bl None repo Hh) as (repo1 & Hput1 & Hst1). rewrite Hput1.
  unfold usize_add. rewrite checked_ok by lia. cbn [mbind outcome_bind].
  destruct (IH _ _ _ (written + n)%Z repo1 Hp2) as (repo' & Hrun & Hst); [lia| |].
  { unfold vec_len in *. rewrite length_drop. lia. }
  exists repo'. rewrite Hrun. split; [|by rewrite Hst, Hst1, <-(assoc_L (++))].
  replace (written + n + vec_len (drop (Z.to_nat n) buffer))%Z with (written + vec_len buffer)%Z; [done|].
  unfold vec_len in *. rewrite length_drop. lia.
Qed.

Lemma add_loop_ok buffers total_size a blks a' written repo :
  push_buffers buffers a = Done (blks, a') → (0 ≤ written)%Z →
  (written + vec_len (concat buffers) ≤ usize_max)%Z →
  ∃ statuses repo', add_loop (Ok <$> buffers) total_size a written repo =
      Done (statuses, Some (a', (written + vec_len (concat buffers))%Z), repo') ∧
    stored repo' = stored repo ++ blks.
Proof.
  revert a blks written repo. induction buffers as [|b buffers IH]; intros a blks written repo Hr Hw Hlen.
  { cbn in Hr. inv_outcome. exists [], repo. cbn. by rewrite Z.add_0_r, app_nil_r. }
  cbn [push_buffers] in Hr. apply bind_Done in Hr as ([bl a1] & Hp & Hr).
  apply bind_Done in Hr as ([more a2] & Hp2 & Hr).
  unfold mret, outcome_ret in Hr. injection Hr as <- <-.
  cbn [concat] in *. rewrite Pb.vec_len_app in *. pose proof (Pb.vec_len_nonneg (concat buffers)).
  pose proof (Pb.vec_len_nonneg b).
  cbn [fmap list_fmap add_loop].
  destruct (add_buffer_ok _ _ _ _ _ written repo Hp) as (repo1 & Hrun1 & Hst1); [lia|lia|].
  rewrite Hrun1. cbn [mbind outcome_bind].
  destruct (IH _ _ (written + vec_len b)%Z repo1 Hp2) as (sts & repo' & Hrun & Hst); [lia|lia|].
  rewrite Hrun. cbn [mbind outcome_bind]. eexists _, repo'. split; [|by rewrite Hst, Hst1, <-(assoc_L (++))].
  by rewrite Z.add_assoc.
Qed.
End accepting.
End add.
End UnixFsAdd.
