(* ===== verification/UnixFsClaims.v ===== *)
(** * Properties of UnixFS files

    Adding a file and reading it back, reading ranges of any file tree, the
    round trip of the block format, and the inputs on which the code does not do
    what it says. *)
From stdpp Require Import base gmap list strings.
From Stdlib Require Import Strings.Byte.
From S2P Require Import Prelude Protobuf UnixFsPb PbInstance FileTree FileAdder FileReader FileVisit UnixFsAdd.

Module UnixFsClaims.
Import Merkledag UnixFsData Flat FileTree.

Section claims.
  Context {ids : Ids} {cc : CidCodec} {qp : QuickProtobuf}.

(** A store that holds the blocks, and a file in it, read from its root. *)
Lemma cat_blocks (blocks : list FileAdder.Block) root t {E} (get_block : Cid → result (list byte) E) :
  represents (λ c b, (c, b) ∈ blocks) root t → (tree_size t ≤ usize_max)%Z →
  (∀ c b, (c, b) ∈ blocks → get_block c = Ok b) →
  ∃ block, get_block root = Ok block ∧
    ∀ range fuel, tree_blocks t ≤ fuel → ∃ items,
      FileVisit.cat get_block fuel root block range = Done (Ok (Ok <$> items)) ∧
      concat items = FileVisit.clip 0 (content t) range.
Proof.
  intros [b f cs Hb Hp Hd Hm Hch] Hs Hget. exists b. split; [by apply Hget|].
  intros range fuel Hfuel. by apply (FileVisit.cat_ok get_block (λ c b, (c, b) ∈ blocks) range Hget fuel root b f t cs).
Qed.

(** C1: round trip of a file.  For every chunk size and every branching factor
    from 2 up, a file given in any slices is turned into blocks without panics
    or overflow; the last block is the root, and reading from it, over any store
    that holds the blocks, yields exactly the bytes of the file, or of the
    requested range of it. *)
Theorem file_roundtrip (max : Z) (bf : nat) (buffers : list (list byte)) :
  (1 ≤ max ≤ FileAdder.max_chunk)%Z → 2 ≤ bf → (Z.of_nat bf ≤ FileAdder.max_branching)%Z →
  (vec_len (concat buffers) ≤ FileAdder.max_content)%Z →
  ∃ blocks root fuel0,
    FileAdder.add_buffers buffers
      (FileAdder.build (FileAdder.Size max) (FileAdder.Balanced (FileAdder.mkBalanced bf [] [])))
      = Done blocks ∧
    last blocks.*1 = Some root ∧
    ∀ E (get_block : Cid → result (list byte) E),
      (∀ c b, (c, b) ∈ blocks → get_block c = Ok b) →
      ∃ block, get_block root = Ok block ∧
        ∀ range fuel, fuel0 ≤ fuel → ∃ items,
          FileVisit.cat get_block fuel root block range = Done (Ok (Ok <$> items)) ∧
          concat items = FileVisit.clip 0 (concat buffers) range.
Proof.
  intros Hmax Hbf Hbm Hlen.
  destruct (FileAdder.add_buffers_ok max bf Hmax Hbf Hbm [] [] buffers Hlen)
    as (blocks & Hrun & root & t & Hlast & Hrep & Hc).
  exists blocks, root, (tree_blocks t). split_and!; [done|done|]. intros E get_block Hget.
  rewrite <-Hc. apply (cat_blocks blocks); [done| |done].
  unfold tree_size. rewrite Hc. unfold FileAdder.max_content, usize_max in *. lia.
Qed.

(** C4: reading a range.  For every file tree that the blocks represent, in
    whatever shape, [cat] with a range yields the bytes of the file inside that
    range and ends. *)
Theorem cat_range_correct {E} (get_block : Cid → result (list byte) E) root b f t cs range fuel :
  FlatUnixFs_try_from b = Done (Ok f) → describes f t cs → (tree_size t ≤ usize_max)%Z →
  Forall2 (represents (λ c b, get_block c = Ok b)) cs (children t) → tree_blocks t ≤ fuel →
  ∃ items, FileVisit.cat get_block fuel root b range = Done (Ok (Ok <$> items)) ∧
    concat items = FileVisit.clip 0 (content t) range ∧
    (∀ s e, range = Some (FileReader.mkRange s e) → (0 ≤ s)%Z →
      concat items = take (Z.to_nat (e - s)) (drop (Z.to_nat s) (content t))).
Proof.
  intros Hp Hd Hs Hrep Hfuel.
  destruct (FileVisit.cat_ok get_block (λ c b, get_block c = Ok b) range (λ _ _ H, H) fuel root b f t cs)
    as (items & Hrun & Hc); try done.
  exists items. split_and!; [done|done|]. intros s e -> H0. rewrite Hc, FileVisit.clip_slice.
  rewrite Z.max_l by done. by rewrite Z.sub_0_r.
Qed.

(** The slice of a block.  [target_slice] never panics on a block whose range
    is as long as its content, and returns the bytes inside the target. *)
Theorem target_slice_correct content block target :
  (0 ≤ FileReader.start block)%Z →
  FileReader.end_ block = (FileReader.start block + vec_len content)%Z →
  (FileReader.end_ block ≤ usize_max)%Z →
  FileVisit.target_slice content block target =
  Done (FileVisit.clip (FileReader.start block) content (Some target)).
Proof. apply FileVisit.target_slice_clip. Qed.

(** Round trip of a block.  What is written for a node is read back, and
    [get_size] is the number of bytes written. *)
Theorem flat_roundtrip f :
  FlatUnixFs_range f →
  FlatUnixFs_try_from (FlatUnixFs_write f) = Done (Ok f) ∧
  vec_len (FlatUnixFs_write f) = FlatUnixFs_get_size f.
Proof. intros Hf. split; [by apply FlatUnixFs_read_write|by apply FlatUnixFs_size]. Qed.

(** Parsing ends.  Whatever bytes are received, parsing a block returns a node
    or an error: it neither panics nor runs on. *)
Theorem flat_parse_total (bs : list byte) : is_done (FlatUnixFs_try_from bs) = true.
Proof. apply FlatUnixFs_try_from_done. Qed.

(** Content addressing.  Every block that [push] and [finish] return is
    identified by the hash of its bytes. *)
Theorem blocks_hashed a :
  (∀ input blocks n a', FileAdder.push input a = Done (blocks, n, a') →
     Forall (λ b, b.1 = sha2_256_v0 b.2) blocks) ∧
  (∀ blocks, FileAdder.finish a = Done blocks → Forall (λ b, b.1 = sha2_256_v0 b.2) blocks).
Proof.
  split.
  - intros input blocks n a' Hp. by apply FileAdder.push_hashed in Hp as [? _].
  - intros blocks Hf. by apply FileAdder.finish_hashed in Hf.
Qed.

(** A branching factor of one diverges.  [with_branching_factor] accepts one,
    but [flush_links] then never finishes two or more links, whatever the fuel. *)
Theorem branching_factor_one_diverges fuel pending sl sb :
  Forall (λ l, FileAdder.depth l = 0) pending → 2 ≤ length pending →
  is_done (FileAdder.with_branching_factor 1) = true ∧
  ∀ r, FileAdder.flush_links fuel (FileAdder.Balanced (FileAdder.mkBalanced 1 sl sb)) pending true ≠ Done r.
Proof.
  intros Hd Hlen. split; [done|]. intros r Hr. unfold FileAdder.flush_links in Hr.
  apply bind_Done in Hr as (st & Hr & _). by eapply FileAdder.flush_levels_one in Hr.
Qed.

Section add.
  Context {Repo Error IoError : Type}.
  Context (block_new : Cid → list byte → result FileAdder.Block Error).
  Context (put_block : FileAdder.Block → Repo → result Cid Error * Repo).
  Context (stored : Repo → list FileAdder.Block).
  Context (Hnew : ∀ b, block_new (sha2_256_v0 b) b = Ok (sha2_256_v0 b, b)).
  Context (Hput : ∀ b r, (put_block b r).1 = Ok b.1 ∧ stored (put_block b r).2 = stored r ++ [b]).

Lemma add_runs max total_size buffers repo :
  (1 ≤ max ≤ FileAdder.max_chunk)%Z → (vec_len (concat buffers) ≤ FileAdder.max_content)%Z →
  ∃ statuses repo' blks1 blks2,
    UnixFsAdd.add (IoError := IoError) block_new put_block (FileAdder.Size max) total_size
      (Ok <$> buffers) repo =
    Done (statuses ++ [match last blks2.*1 with
                       | Some root => UnixFsAdd.CompletedStatus root (vec_len (concat buffers)) total_size
                       | None => UnixFsAdd.FailedStatus (vec_len (concat buffers)) total_size None
                       end], repo') ∧
    stored repo' = stored repo ++ blks1 ++ blks2 ∧
    FileAdder.file_blocks (blks1 ++ blks2) (concat buffers) ∧
    (blks2 = [] → vec_len (concat buffers) = max) ∧ Forall FileAdder.hashed blks2.
Proof.
  intros Hmax Hlen.
  assert (Z.of_nat 174 ≤ FileAdder.max_branching)%Z as Hbf by done.
  destruct (FileAdder.push_buffers_ok max 174 Hmax ltac:(lia) Hbf buffers [] [] _ _ _ _ _
    (FileAdder.build_ok max 174 Hmax ltac:(lia) [] []) Hlen) as (blks & a & H & Z & hs & zs & Hrun & Hok).
  destruct (FileAdder.finish_ok max 174 Hmax ltac:(lia) Hbf _ _ _ _ _ _ _ Hok Hlen)
    as (blks' & Hrun' & Hfb & Hnil).
  destruct (UnixFsAdd.add_loop_ok (IoError := IoError) block_new put_block stored Hnew Hput
    buffers total_size _ _ _ 0%Z repo Hrun) as (sts & repo1 & Hloop & Hst1); [lia| |].
  { unfold FileAdder.max_content, usize_max in *. lia. }
  destruct (UnixFsAdd.put_blocks_ok block_new put_block stored Hnew Hput blks' None repo1)
    as (repo2 & Hp2 & Hst2); [by eapply FileAdder.finish_hashed|].
  exists (UnixFsAdd.ProgressStatus 0 total_size :: sts), repo2, blks, blks'. split_and!; try done.
  - unfold UnixFsAdd.add, FileAdder.with_branching_factor. rewrite bool_decide_eq_true_2 by lia.
    cbn [rust_assert mbind outcome_bind mret outcome_ret]. rewrite Hloop. cbn [mbind outcome_bind].
    rewrite Hrun'. cbn [mbind outcome_bind]. rewrite Hp2, Z.add_0_l. by destruct (last blks'.*1).
  - by rewrite Hst2, Hst1, <-(assoc_L (++)).
  - by eapply FileAdder.finish_hashed.
Qed.

(** Adding completes.  On a repository that accepts valid blocks, adding a
    file whose size is not exactly one chunk reports completion with the root of
    a tree in the repository that holds the file. *)
Theorem add_completes max total_size buffers repo :
  (1 ≤ max ≤ FileAdder.max_chunk)%Z → (vec_len (concat buffers) ≤ FileAdder.max_content)%Z →
  vec_len (concat buffers) ≠ max →
  ∃ statuses repo' blocks root t,
    UnixFsAdd.add (IoError := IoError) block_new put_block (FileAdder.Size max) total_size
      (Ok <$> buffers) repo =
    Done (statuses ++ [UnixFsAdd.CompletedStatus root (vec_len (concat buffers)) total_size], repo') ∧
    stored repo' = stored repo ++ blocks ∧
    represents (λ c b, (c, b) ∈ blocks) root t ∧ content t = concat buffers.
Proof.
  intros Hmax Hlen Hne.
  destruct (add_runs max total_size buffers repo Hmax Hlen)
    as (sts & repo' & b1 & b2 & Hrun & Hst & (root & t & Hlast & Hrep & Hc) & Hnil & _).
  assert (b2 ≠ []) by (intros E; by apply Hne, Hnil).
  rewrite fmap_app, last_app in Hlast. destruct (last b2.*1) as [root'|] eqn:Hb2; last first.
  { apply last_None in Hb2. by destruct b2. }
  injection Hlast as ->. by exists sts, repo', (b1 ++ b2), root, t.
Qed.

(** A file of exactly one chunk.  Its only block is emitted while pushing, so
    [finish] returns nothing and [add] reports a failure without an error,
    although the block that holds the whole file was stored. *)
Theorem add_one_chunk_fails max total_size content repo :
  (1 ≤ max ≤ FileAdder.max_chunk)%Z → vec_len content = max →
  ∃ statuses repo' block,
    UnixFsAdd.add (IoError := IoError) block_new put_block (FileAdder.Size max) total_size
      [Ok content] repo =
    Done (statuses ++ [UnixFsAdd.FailedStatus max total_size None], repo') ∧
    stored repo' = stored repo ++ [block] ∧
    represents (λ c b, (c, b) ∈ [block]) block.1 (Leaf content).
Proof.
  intros Hmax Hlen. unfold FileAdder.max_chunk in Hmax.
  assert (content ≠ []) as Hne by (intros ->; unfold vec_len in Hlen; simpl in Hlen; lia).
  assert (take (Z.to_nat (vec_len content)) content = content) as Hall.
  { apply take_ge. unfold vec_len. lia. }
  set (b := FileAdder.render_and_hash (FileAdder.leaf_node content)).
  set (l := FileAdder.mkLink 0 b.1 (vec_len b.2) (vec_len content)).
  set (a0 := FileAdder.build (FileAdder.Size max) (FileAdder.Balanced (FileAdder.mkBalanced 174 [] []))).
  set (a1 := FileAdder.mkAdder (FileAdder.Size max) (FileAdder.Balanced (FileAdder.mkBalanced 174 [] [])) [] [l]).
  assert (FileAdder.push content a0 = Done ([b], vec_len content, a1)) as Hpush.
  { unfold FileAdder.push, FileAdder.accept, a0, usize_sub, usize_add. cbn [FileAdder.build FileAdder.chunker FileAdder.block_buffer].
    change (vec_len []) with 0%Z. rewrite checked_ok by (unfold usize_max; lia).
    cbn [mbind outcome_bind]. rewrite Z.sub_0_r, Z.add_0_l, <-Hlen, Z.min_id.
    rewrite checked_ok by (unfold usize_max; lia). cbn [mbind outcome_bind mret outcome_ret].
    rewrite (bool_decide_eq_true_2 (_ ≤ _)%Z) by lia. rewrite bool_decide_eq_true_2 by done. cbn [andb].
    rewrite Hall.
    unfold FileAdder.flush_chunk, FileAdder.flush_buffered_leaf.
    rewrite bool_decide_eq_false_2 by done. cbn [andb]. fold b. rewrite (surjective_pairing b).
    rewrite bool_decide_eq_true_2 by done. cbn [rust_assert mbind outcome_bind].
    unfold FileAdder.flush_buffered_links, FileAdder.flush_links, FileAdder.flush_fuel. cbn -[b vec_len].
    rewrite (bool_decide_eq_true_2 (1 ≤ 174)) by lia. rewrite orb_true_r. unfold a1, l. by rewrite Hlen. }
  assert (FileAdder.push_buffers [content] a0 = Done ([b], a1)) as Hrun.
  { cbn [FileAdder.push_buffers FileAdder.push_buffer]. rewrite bool_decide_eq_false_2 by done.
    rewrite Hpush. cbn [mbind outcome_bind]. unfold vec_len. rewrite Nat2Z.id, drop_all.
    destruct (length content) eqn:Hl; [by apply nil_length_inv in Hl|]. done. }
  destruct (UnixFsAdd.add_loop_ok (IoError := IoError) block_new put_block stored Hnew Hput
    [content] total_size _ _ _ 0%Z repo Hrun) as (sts & repo1 & Hloop & Hst1); [lia| |].
  { cbn [concat]. rewrite app_nil_r. unfold usize_max. lia. }
  exists (UnixFsAdd.ProgressStatus 0 total_size :: sts), repo1, b. split_and!.
  - unfold UnixFsAdd.add, FileAdder.with_branching_factor. rewrite bool_decide_eq_true_2 by lia.
    cbn [rust_assert mbind outcome_bind mret outcome_ret]. fold a0.
    change [Ok content] with (Ok (E := IoError) <$> [content]). rewrite Hloop. cbn [mbind outcome_bind].
    cbn [concat]. rewrite app_nil_r, Z.add_0_l, Hlen. done.
  - done.
  - apply FileAdder.leaf_represents; [left; unfold FileAdder.max_chunk; lia|]. set_solver.
Qed.
End add.
End claims.
End UnixFsClaims.

(** Concrete runs: a wire format, identifiers with a toy hash, and a repository
    that is the list of the blocks it was given. *)
Module UnixFsWitness.
Import Merkledag UnixFsData Flat FileTree.

#[local] Existing Instance bytes_ids.
#[local] Existing Instance bytes_cids.
#[local] Existing Instance WireFormat.wire_format.

Definition text : list byte := str_bytes "a file of several chunks".

Lemma file_roundtrip_witness :
  ∃ blocks root fuel0,
    FileAdder.add_buffers [take 7 text; drop 7 text]
      (FileAdder.build (FileAdder.Size 3) (FileAdder.Balanced (FileAdder.mkBalanced 2 [] [])))
      = Done blocks ∧
    last blocks.*1 = Some root ∧
    ∀ E (get_block : Cid → result (list byte) E),
      (∀ c b, (c, b) ∈ blocks → get_block c = Ok b) →
      ∃ block, get_block root = Ok block ∧
        ∀ range fuel, fuel0 ≤ fuel → ∃ items,
          FileVisit.cat get_block fuel root block range = Done (Ok (Ok <$> items)) ∧
          concat items = FileVisit.clip 0 (concat [take 7 text; drop 7 text]) range.
Proof. apply UnixFsClaims.file_roundtrip; vm_compute; done || lia. Defined.

Lemma target_slice_correct_witness :
  FileVisit.target_slice (take 4 text) (FileReader.mkRange 10 14) (FileReader.mkRange 12 20) =
  Done (FileVisit.clip 10 (take 4 text) (Some (FileReader.mkRange 12 20))).
Proof. apply UnixFsClaims.target_slice_correct; vm_compute; done. Defined.

(** Two leaves under a root. *)
Definition leaf_block (chunk : list byte) : FileAdder.Block :=
  FileAdder.render_and_hash (FileAdder.leaf_node chunk).
Definition leaf_cids : list Cid := [(leaf_block (take 4 text)).1; (leaf_block (drop 4 text)).1].
Definition root_node : FlatUnixFs :=
  mkFlat ((λ c, mkPBLink (Some (cid_to_bytes c)) None None) <$> leaf_cids)
    (mkUnixFs File None (Some 24%Z) [4%Z; 20%Z] None None (Some 420%Z) None).
Definition root_tree : tree := Node [Leaf (take 4 text); Leaf (drop 4 text)].

(** A store of blocks. *)
Definition lookup_block (blocks : list FileAdder.Block) (c : Cid) : result (list byte) unit :=
  match list_find (λ b, b.1 = c) blocks with Some (_, b) => Ok b.2 | None => Err () end.
Definition two_leaves : Cid → result (list byte) unit :=
  lookup_block [leaf_block (take 4 text); leaf_block (drop 4 text)].

Lemma leaf_range (chunk : list byte) : (0 <? vec_len chunk)%Z = true → (vec_len chunk <? 100)%Z = true →
  (0 < vec_len chunk ≤ FileAdder.max_chunk)%Z.
Proof. intros ?%Z.ltb_lt ?%Z.ltb_lt. unfold FileAdder.max_chunk. lia. Qed.

Lemma two_leaves_represented :
  Forall2 (represents (λ c b, two_leaves c = Ok b)) leaf_cids (children root_tree).
Proof.
  assert (∀ chunk : list byte, (0 <? vec_len chunk)%Z = true → (vec_len chunk <? 100)%Z = true →
    two_leaves (leaf_block chunk).1 = Ok (leaf_block chunk).2 →
    represents (λ c b, two_leaves c = Ok b) (leaf_block chunk).1 (Leaf chunk)) as Hleaf.
  { intros chunk H1 H2 H3. eapply represents_mono; [|apply (FileAdder.leaf_represents [leaf_block chunk])].
    - intros c b Hcb%list_elem_of_singleton. rewrite <-Hcb in H3. exact H3.
    - left. by apply leaf_range.
    - set_solver. }
  repeat constructor; apply Hleaf; vm_compute; done.
Qed.

Lemma root_described : describes root_node root_tree leaf_cids.
Proof.
  unfold describes, is_file. split_and!; try done; [by left|repeat constructor|].
  by repeat constructor; vm_compute.
Qed.

Lemma root_node_range : FlatUnixFs_range root_node.
Proof.
  unfold FlatUnixFs_range. split_and!.
  - repeat constructor; vm_compute; done.
  - unfold UnixFs_range. split_and!; try done. repeat constructor; vm_compute; done.
  - vm_compute. done.
Qed.

Lemma cat_range_correct_witness :
  ∃ items, FileVisit.cat two_leaves 3 [] (FlatUnixFs_write root_node)
      (Some (FileReader.mkRange 2 9)) = Done (Ok (Ok <$> items)) ∧
    concat items = FileVisit.clip 0 (content root_tree) (Some (FileReader.mkRange 2 9)) ∧
    (∀ s e, Some (FileReader.mkRange 2 9) = Some (FileReader.mkRange s e) → (0 ≤ s)%Z →
      concat items = take (Z.to_nat (e - s)) (drop (Z.to_nat s) (content root_tree))).
Proof.
  apply (UnixFsClaims.cat_range_correct two_leaves [] _ root_node root_tree leaf_cids).
  - apply FlatUnixFs_read_write, root_node_range.
  - apply root_described.
  - vm_compute. done.
  - apply two_leaves_represented.
  - vm_compute. lia.
Defined.

Lemma flat_roundtrip_witness :
  FlatUnixFs_try_from (FlatUnixFs_write root_node) = Done (Ok root_node) ∧
  vec_len (FlatUnixFs_write root_node) = FlatUnixFs_get_size root_node.
Proof. apply UnixFsClaims.flat_roundtrip, root_node_range. Defined.

Lemma branching_factor_one_diverges_witness :
  is_done (FileAdder.with_branching_factor 1) = true ∧
  ∀ r, FileAdder.flush_links 100 (FileAdder.Balanced (FileAdder.mkBalanced 1 [] []))
    [FileAdder.mkLink 0 [] 9 1; FileAdder.mkLink 0 [] 9 1] true ≠ Done r.
Proof. apply UnixFsClaims.branching_factor_one_diverges; [repeat constructor|simpl; lia]. Defined.

Definition log_new (c : Cid) (b : list byte) : result FileAdder.Block unit :=
  if bool_decide (c = sha2_256_v0 b) then Ok (c, b) else Err ().
Definition log_put (b : FileAdder.Block) (r : list FileAdder.Block) :
    result Cid unit * list FileAdder.Block := (Ok b.1, r ++ [b]).

Lemma log_new_ok b : log_new (sha2_256_v0 b) b = Ok (sha2_256_v0 b, b).
Proof. unfold log_new. by rewrite bool_decide_eq_true_2. Qed.

Lemma add_completes_witness :
  ∃ statuses repo' blocks root t,
    UnixFsAdd.add (IoError := unit) log_new log_put (FileAdder.Size 5) (Some 24%Z)
      (Ok <$> [take 7 text; drop 7 text]) [] =
    Done (statuses ++ [UnixFsAdd.CompletedStatus root (vec_len (concat [take 7 text; drop 7 text])) (Some 24%Z)],
      repo') ∧
    repo' = [] ++ blocks ∧
    represents (λ c b, (c, b) ∈ blocks) root t ∧ content t = concat [take 7 text; drop 7 text].
Proof.
  apply (UnixFsClaims.add_completes (Repo := list FileAdder.Block) (Error := unit) (IoError := unit)
    log_new log_put (λ r, r) log_new_ok); vm_compute; done.
Defined.

Lemma add_one_chunk_fails_witness :
  ∃ statuses repo' block,
    UnixFsAdd.add (IoError := unit) log_new log_put (FileAdder.Size 24) (Some 24%Z) [Ok text] [] =
    Done (statuses ++ [UnixFsAdd.FailedStatus 24 (Some 24%Z) None], repo') ∧
    repo' = [] ++ [block] ∧ represents (λ c b, (c, b) ∈ [block]) block.1 (Leaf text).
Proof.
  apply (UnixFsClaims.add_one_chunk_fails (Repo := list FileAdder.Block) (Error := unit) (IoError := unit)
    log_new log_put (λ r, r) log_new_ok); vm_compute; done.
Defined.

(** A file whose inner node covers less than its parent says. *)
Definition crafted_inner : FileAdder.Block :=
  FileAdder.render_and_hash
    (mkFlat [mkPBLink (Some []) None None] (mkUnixFs File None (Some 10%Z) [1%Z] None None None None)).
Definition crafted_root : FileAdder.Block :=
  FileAdder.render_and_hash
    (mkFlat [mkPBLink (Some (cid_to_bytes crafted_inner.1)) None None]
       (mkUnixFs File None (Some 10%Z) [10%Z] None None None None)).

Definition panics {A} (m : outcome A) : bool := match m with Panic => true | _ => false end.

(** Reading a range of a crafted file panics.  When no link of an inner node
    touches the requested range, the walk goes on with no pending link, and
    [pending_links] panics with "the presence of links has been validated". *)
Theorem crafted_range_panics :
  panics (FileVisit.cat (lookup_block [crafted_inner]) 5 crafted_root.1 crafted_root.2
    (Some (FileReader.mkRange 8 10))) = true ∧
  panics (FileVisit.cat (lookup_block [crafted_inner]) 5 crafted_root.1 crafted_root.2 None) = false.
Proof. vm_compute. done. Qed.
End UnixFsWitness.
