(* ===== verification/BitswapPb.v ===== *)
(** * The Bitswap protocol messages

    packages/beetle-bitswap-next/src/pb/bitswap_pb.rs: the proto3 messages, where
    a field with its default value is not written. *)
From stdpp Require Import base gmap list strings.
From Stdlib Require Import Strings.Byte.
From S2P Require Import Prelude Protobuf Wantlist.
Local Open Scope Z_scope.

Module BitswapPb.
Import Pb.

Inductive BlockPresenceType := PresenceHave | PresenceDontHave.
#[export] Instance BlockPresenceType_eq_dec : EqDecision BlockPresenceType.
Proof. solve_decision. Defined.

Record Entry := mkEntry {
  block : list byte;
  priority : Z;
  cancel : bool;
  wantType : WantType;
  sendDontHave : bool;
}.
Record Wantlist := mkWantlist { entries : list Entry; full : bool }.
Record Block := mkBlock { prefix : list byte; bdata : list byte }.
Record BlockPresence := mkPresence { pcid : list byte; type_pb : BlockPresenceType }.
Record Message := mkMessage {
  wantlist : option Wantlist;
  blocks : list (list byte);
  payload : list Block;
  blockPresences : list BlockPresence;
  pendingBytes : Z;
}.

(** [From<i32>] and [as i32] of the two enumerations. *)
Definition WantType_from (i : Z) : WantType := if bool_decide (i = 1) then Have else Wantlist.Block.
Definition WantType_into (w : WantType) : Z := match w with Wantlist.Block => 0 | Have => 1 end.
Definition BlockPresenceType_from (i : Z) : BlockPresenceType :=
  if bool_decide (i = 1) then PresenceDontHave else PresenceHave.
Definition BlockPresenceType_into (t : BlockPresenceType) : Z :=
  match t with PresenceHave => 0 | PresenceDontHave => 1 end.

Definition Entry_default : Entry := mkEntry [] 0 false Wantlist.Block false.
Definition Wantlist_default : Wantlist := mkWantlist [] false.
Definition Block_default : Block := mkBlock [] [].
Definition BlockPresence_default : BlockPresence := mkPresence [] PresenceHave.
Definition Message_default : Message := mkMessage None [] [] [] 0.

Section bitswap_pb.
  Context {qp : QuickProtobuf}.

Definition Entry_fields : list (Z * handler) :=
  [ (10, on bytes (λ v m, mkEntry v (priority m) (cancel m) (wantType m) (sendDontHave m)));
    (16, on int32 (λ v m, mkEntry (block m) v (cancel m) (wantType m) (sendDontHave m)));
    (24, on boolean (λ v m, mkEntry (block m) (priority m) v (wantType m) (sendDontHave m)));
    (32, on int32 (λ v m, mkEntry (block m) (priority m) (cancel m) (WantType_from v) (sendDontHave m)));
    (40, on boolean (λ v m, mkEntry (block m) (priority m) (cancel m) (wantType m) v)) ].

Definition Entry_from_reader (bs : list byte) : outcome (result Entry PbError) :=
  read_fields Entry_fields bs Entry_default.

Definition Entry_get_size (e : Entry) : Z :=
  size_unless [] (λ b, sizeof_len (vec_len b)) (block e)
  + size_unless 0 (λ p, sizeof_varint (p mod 2 ^ 64)) (priority e)
  + size_unless false (λ b, sizeof_varint (Z.b2z b)) (cancel e)
  + size_unless Wantlist.Block (λ w, sizeof_varint (WantType_into w)) (wantType e)
  + size_unless false (λ b, sizeof_varint (Z.b2z b)) (sendDontHave e).

Definition Entry_write (e : Entry) : list byte :=
  write_unless [] 10 (λ b, wr bytes (id b)) (block e)
  ++ write_unless 0 16 (λ p, wr int32 (id p)) (priority e)
  ++ write_unless false 24 (λ b, wr boolean (id b)) (cancel e)
  ++ write_unless Wantlist.Block 32 (λ w, wr int32 (WantType_into w)) (wantType e)
  ++ write_unless false 40 (λ b, wr boolean (id b)) (sendDontHave e).

Definition Wantlist_fields : list (Z * handler) :=
  [ (10, on_message Entry_from_reader (λ v m, mkWantlist (entries m ++ [v]) (full m)));
    (16, on boolean (λ v m, mkWantlist (entries m) v)) ].

Definition Wantlist_from_reader (bs : list byte) : outcome (result Wantlist PbError) :=
  read_fields Wantlist_fields bs Wantlist_default.

Definition Wantlist_get_size (w : Wantlist) : Z :=
  Zsum ((λ s, 1 + sizeof_len (Entry_get_size s)) <$> entries w)
  + size_unless false (λ b, sizeof_varint (Z.b2z b)) (full w).

Definition Wantlist_write (w : Wantlist) : list byte :=
  concat ((λ s, write_with_tag 10 (write_message (Entry_get_size s) (Entry_write s))) <$> entries w)
  ++ write_unless false 16 (λ b, wr boolean (id b)) (full w).

Definition Block_fields : list (Z * handler) :=
  [ (10, on bytes (λ v m, mkBlock v (bdata m))); (18, on bytes (λ v m, mkBlock (prefix m) v)) ].

Definition Block_from_reader (bs : list byte) : outcome (result Block PbError) :=
  read_fields Block_fields bs Block_default.

Definition Block_get_size (b : Block) : Z :=
  size_unless [] (λ b, sizeof_len (vec_len b)) (prefix b)
  + size_unless [] (λ b, sizeof_len (vec_len b)) (bdata b).

Definition Block_write (b : Block) : list byte :=
  write_unless [] 10 (λ b, wr bytes (id b)) (prefix b)
  ++ write_unless [] 18 (λ b, wr bytes (id b)) (bdata b).

Definition BlockPresence_fields : list (Z * handler) :=
  [ (10, on bytes (λ v m, mkPresence v (type_pb m)));
    (16, on int32 (λ v m, mkPresence (pcid m) (BlockPresenceType_from v))) ].

Definition BlockPresence_from_reader (bs : list byte) : outcome (result BlockPresence PbError) :=
  read_fields BlockPresence_fields bs BlockPresence_default.

Definition BlockPresence_get_size (p : BlockPresence) : Z :=
  size_unless [] (λ b, sizeof_len (vec_len b)) (pcid p)
  + size_unless PresenceHave (λ t, sizeof_varint (BlockPresenceType_into t)) (type_pb p).

Definition BlockPresence_write (p : BlockPresence) : list byte :=
  write_unless [] 10 (λ b, wr bytes (id b)) (pcid p)
  ++ write_unless PresenceHave 16 (λ t, wr int32 (BlockPresenceType_into t)) (type_pb p).

Definition Message_fields : list (Z * handler) :=
  [ (10, on_message Wantlist_from_reader (λ v m,
       mkMessage (Some v) (blocks m) (payload m) (blockPresences m) (pendingBytes m)));
    (18, on bytes (λ v m,
       mkMessage (wantlist m) (blocks m ++ [v]) (payload m) (blockPresences m) (pendingBytes m)));
    (26, on_message Block_from_reader (λ v m,
       mkMessage (wantlist m) (blocks m) (payload m ++ [v]) (blockPresences m) (pendingBytes m)));
    (34, on_message BlockPresence_from_reader (λ v m,
       mkMessage (wantlist m) (blocks m) (payload m) (blockPresences m ++ [v]) (pendingBytes m)));
    (40, on int32 (λ v m,
       mkMessage (wantlist m) (blocks m) (payload m) (blockPresences m) v)) ].

Definition Message_from_reader (bs : list byte) : outcome (result Message PbError) :=
  read_fields Message_fields bs Message_default.

Definition Message_get_size (m : Message) : Z :=
  opt_size (λ w, sizeof_len (Wantlist_get_size w)) (wantlist m)
  + Zsum ((λ s, 1 + sizeof_len (vec_len s)) <$> blocks m)
  + Zsum ((λ s, 1 + sizeof_len (Block_get_size s)) <$> payload m)
  + Zsum ((λ s, 1 + sizeof_len (BlockPresence_get_size s)) <$> blockPresences m)
  + size_unless 0 (λ p, sizeof_varint (p mod 2 ^ 64)) (pendingBytes m).

Definition Message_write (m : Message) : list byte :=
  write_opt 10 (λ w, write_message (Wantlist_get_size w) (Wantlist_write w)) (wantlist m)
  ++ concat ((λ s, write_with_tag 18 (wr bytes s)) <$> blocks m)
  ++ concat ((λ s, write_with_tag 26 (write_message (Block_get_size s) (Block_write s))) <$> payload m)
  ++ concat ((λ s, write_with_tag 34 (write_message (BlockPresence_get_size s) (BlockPresence_write s)))
               <$> blockPresences m)
  ++ write_unless 0 40 (λ p, wr int32 (id p)) (pendingBytes m).

(** ** Round trips and sizes *)

Definition short (b : list byte) : Prop := vec_len b < pb_limit.
Definition i32_range (v : Z) : Prop := - 2 ^ 31 ≤ v < 2 ^ 31.

Definition Entry_range (e : Entry) : Prop :=
  short (block e) ∧ i32_range (priority e) ∧ Entry_get_size e < pb_limit.
Definition Wantlist_range (w : Wantlist) : Prop :=
  Forall Entry_range (entries w) ∧ Wantlist_get_size w < pb_limit.
Definition Block_range (b : Block) : Prop :=
  short (prefix b) ∧ short (bdata b) ∧ Block_get_size b < pb_limit.
Definition BlockPresence_range (p : BlockPresence) : Prop :=
  short (pcid p) ∧ BlockPresence_get_size p < pb_limit.
Definition Message_range (m : Message) : Prop :=
  opt_range Wantlist_range (wantlist m) ∧ Forall short (blocks m) ∧
  Forall Block_range (payload m) ∧ Forall BlockPresence_range (blockPresences m) ∧
  i32_range (pendingBytes m).

Lemma WantType_from_into w : WantType_from (WantType_into w) = w.
Proof. by destruct w. Qed.
Lemma BlockPresenceType_from_into t : BlockPresenceType_from (BlockPresenceType_into t) = t.
Proof. by destruct t. Qed.

Lemma Entry_good : Forall (λ p, good p.2) Entry_fields.
Proof. repeat constructor; apply good_on. Qed.
Lemma Block_good : Forall (λ p, good p.2) Block_fields.
Proof. repeat constructor; apply good_on. Qed.
Lemma BlockPresence_good : Forall (λ p, good p.2) BlockPresence_fields.
Proof. repeat constructor; apply good_on. Qed.
Lemma Wantlist_good : Forall (λ p, good p.2) Wantlist_fields.
Proof.
  repeat constructor; try apply good_on. apply good_on_message. intros bs.
  apply read_fields_done, Entry_good.
Qed.
Lemma Message_good : Forall (λ p, good p.2) Message_fields.
Proof.
  repeat constructor; try apply good_on; apply good_on_message; intros bs; apply read_fields_done;
    auto using Wantlist_good, Block_good, BlockPresence_good.
Qed.

Lemma Message_read_done bs : is_done (Message_from_reader bs) = true.
Proof. apply read_fields_done, Message_good. Qed.

(** One field that may be left out is read back. *)
Ltac read_field good :=
  erewrite (read_unless _ _ _ _ _ _ _ _ _ good); [|lia| |reflexivity| ]; simpl;
  [|done || (unfold i32_range, id in *; simpl; lia)|try (by intros ->)].

Lemma Entry_read_write e : Entry_range e → Entry_from_reader (Entry_write e) = Done (Ok e).
Proof.
  intros (Hb & Hp & _). unfold Entry_from_reader, Entry_write.
  rewrite <-(app_nil_r (write_unless false 40 _ _)).
  read_field Entry_good. read_field Entry_good. read_field Entry_good.
  erewrite (read_unless _ _ _ _ _ _ _ _ _ Entry_good); [|lia| |reflexivity| ]; simpl;
    [|destruct (wantType e); simpl; lia|by intros ->]. rewrite WantType_from_into.
  read_field Entry_good. rewrite read_fields_nil. by destruct e.
Qed.

Lemma small_mod v : 0 ≤ v < 2 ^ 31 → v mod 2 ^ 64 = v.
Proof. intros. apply Z.mod_small. lia. Qed.

Lemma Entry_size e : Entry_range e → vec_len (Entry_write e) = Entry_get_size e.
Proof.
  intros (Hb & Hp & _). unfold Entry_write, Entry_get_size. rewrite !vec_len_app.
  rewrite (unless_size [] 10 _ (λ b, sizeof_len (vec_len b))) by (try lia; by apply bytes_size).
  rewrite (unless_size 0 16 _ (λ p, sizeof_varint (p mod 2 ^ 64))) by (try lia; by apply int32_size).
  rewrite (unless_size false 24 _ (λ b, sizeof_varint (Z.b2z b))) by (try lia; by apply boolean_size).
  rewrite (unless_size Wantlist.Block 32 _ (λ w, sizeof_varint (WantType_into w))); [|lia|].
  2:{ rewrite int32_size, small_mod by (destruct (wantType e); simpl; lia). done. }
  rewrite (unless_size false 40 _ (λ b, sizeof_varint (Z.b2z b))) by (try lia; by apply boolean_size).
  lia.
Qed.

Lemma Block_read_write b : Block_range b → Block_from_reader (Block_write b) = Done (Ok b).
Proof.
  intros (Hp & Hd & _). unfold Block_from_reader, Block_write.
  rewrite <-(app_nil_r (write_unless [] 18 _ _)).
  read_field Block_good. read_field Block_good. rewrite read_fields_nil. by destruct b.
Qed.

Lemma Block_size b : Block_range b → vec_len (Block_write b) = Block_get_size b.
Proof.
  intros (Hp & Hd & _). unfold Block_write, Block_get_size. rewrite vec_len_app.
  rewrite (unless_size [] 10 _ (λ b, sizeof_len (vec_len b))) by (try lia; by apply bytes_size).
  by rewrite (unless_size [] 18 _ (λ b, sizeof_len (vec_len b))) by (try lia; by apply bytes_size).
Qed.

Lemma BlockPresence_read_write p :
  BlockPresence_range p → BlockPresence_from_reader (BlockPresence_write p) = Done (Ok p).
Proof.
  intros (Hp & _). unfold BlockPresence_from_reader, BlockPresence_write.
  rewrite <-(app_nil_r (write_unless PresenceHave 16 _ _)).
  read_field BlockPresence_good.
  erewrite (read_unless _ _ _ _ _ _ _ _ _ BlockPresence_good); [|lia| |reflexivity| ]; simpl;
    [|destruct (type_pb p); simpl; lia|by intros ->].
  rewrite BlockPresenceType_from_into, read_fields_nil. by destruct p.
Qed.

Lemma BlockPresence_size p :
  BlockPresence_range p → vec_len (BlockPresence_write p) = BlockPresence_get_size p.
Proof.
  intros (Hp & _). unfold BlockPresence_write, BlockPresence_get_size. rewrite vec_len_app.
  rewrite (unless_size [] 10 _ (λ b, sizeof_len (vec_len b))) by (try lia; by apply bytes_size).
  rewrite (unless_size PresenceHave 16 _ (λ t, sizeof_varint (BlockPresenceType_into t))); [done|lia|].
  rewrite int32_size, small_mod by (destruct (type_pb p); simpl; lia). done.
Qed.

Lemma push_entries es w :
  foldl (λ m v, mkWantlist (entries m ++ [v]) (full m)) w es = mkWantlist (entries w ++ es) (full w).
Proof.
  revert w. induction es as [|e es IH]; intros w; simpl; [by rewrite app_nil_r; destruct w|].
  rewrite IH. simpl. by rewrite <-(assoc_L (++)).
Qed.

Lemma Entry_message es :
  Forall Entry_range es →
  Forall (λ a, Entry_from_reader (Entry_write a) = Done (Ok a) ∧
    vec_len (Entry_write a) = Entry_get_size a ∧ Entry_get_size a < pb_limit) es.
Proof.
  intros Hes. eapply Forall_impl; [done|]. intros e He.
  split_and!; [by apply Entry_read_write|by apply Entry_size|apply He].
Qed.

Lemma Wantlist_read_write w :
  Wantlist_range w → Wantlist_from_reader (Wantlist_write w) = Done (Ok w).
Proof.
  intros (He & _). unfold Wantlist_from_reader, Wantlist_write.
  rewrite <-(app_nil_r (write_unless false 16 _ _)).
  rewrite (read_messages _ _ Entry_from_reader (λ v m, mkWantlist (entries m ++ [v]) (full m)) _ _ _ _ _ Wantlist_good);
    [|lia|by apply Entry_message|done].
  rewrite push_entries. read_field Wantlist_good. rewrite read_fields_nil. by destruct w.
Qed.

Lemma Wantlist_size w : Wantlist_range w → vec_len (Wantlist_write w) = Wantlist_get_size w.
Proof.
  intros (He & _). unfold Wantlist_write, Wantlist_get_size. rewrite vec_len_app.
  rewrite (messages_size 10 Entry_get_size Entry_write); [|lia|].
  2:{ eapply Forall_impl; [by apply Entry_message|]. simpl. tauto. }
  by rewrite (unless_size false 16 _ (λ b, sizeof_varint (Z.b2z b))) by (try lia; by apply boolean_size).
Qed.

Lemma push_blocks bs m :
  foldl (λ m v, mkMessage (wantlist m) (blocks m ++ [v]) (payload m) (blockPresences m) (pendingBytes m))
    m bs = mkMessage (wantlist m) (blocks m ++ bs) (payload m) (blockPresences m) (pendingBytes m).
Proof.
  revert m. induction bs as [|b bs IH]; intros m; simpl; [by rewrite app_nil_r; destruct m|].
  rewrite IH. simpl. by rewrite <-(assoc_L (++)).
Qed.
Lemma push_payload bs m :
  foldl (λ m v, mkMessage (wantlist m) (blocks m) (payload m ++ [v]) (blockPresences m) (pendingBytes m))
    m bs = mkMessage (wantlist m) (blocks m) (payload m ++ bs) (blockPresences m) (pendingBytes m).
Proof.
  revert m. induction bs as [|b bs IH]; intros m; simpl; [by rewrite app_nil_r; destruct m|].
  rewrite IH. simpl. by rewrite <-(assoc_L (++)).
Qed.
Lemma push_presences bs m :
  foldl (λ m v, mkMessage (wantlist m) (blocks m) (payload m) (blockPresences m ++ [v]) (pendingBytes m))
    m bs = mkMessage (wantlist m) (blocks m) (payload m) (blockPresences m ++ bs) (pendingBytes m).
Proof.
  revert m. induction bs as [|b bs IH]; intros m; simpl; [by rewrite app_nil_r; destruct m|].
  rewrite IH. simpl. by rewrite <-(assoc_L (++)).
Qed.

Lemma read_wantlist_field o rest :
  opt_range Wantlist_range o →
  read_fields Message_fields
    (write_opt 10 (λ w, write_message (Wantlist_get_size w) (Wantlist_write w)) o ++ rest) Message_default =
  read_fields Message_fields rest (mkMessage o [] [] [] 0).
Proof.
  intros Hw. destruct o as [w|]; [|done]. simpl in Hw. unfold write_opt.
  rewrite (read_fields_cons _ _ _ _ _ (mkMessage (Some w) [] [] [] 0)); [done|apply Message_good|lia|].
  simpl. rewrite <-Wantlist_size by done.
  apply (on_message_ok Wantlist_from_reader (λ v m,
    mkMessage (Some v) (blocks m) (payload m) (blockPresences m) (pendingBytes m))).
  - rewrite Wantlist_size by done. apply Hw.
  - by apply Wantlist_read_write.
Qed.

Lemma Message_read_write m : Message_range m → Message_from_reader (Message_write m) = Done (Ok m).
Proof.
  intros (Hw & Hb & Hp & Hbp & Hpb). unfold Message_from_reader, Message_write.
  rewrite <-(app_nil_r (write_unless 0 40 _ _)).
  rewrite read_wantlist_field by done.
  erewrite (read_repeated Message_fields); [|apply Message_good|lia|done|reflexivity]. rewrite push_blocks.
  rewrite (read_messages _ _ Block_from_reader (λ v m, mkMessage (wantlist m) (blocks m) (payload m ++ [v])
    (blockPresences m) (pendingBytes m)) _ _ _ _ _ Message_good); [|lia| |done].
  2:{ eapply Forall_impl; [done|]. intros b Hbr.
      split_and!; [by apply Block_read_write|by apply Block_size|apply Hbr]. }
  rewrite push_payload.
  rewrite (read_messages _ _ BlockPresence_from_reader (λ v m, mkMessage (wantlist m) (blocks m) (payload m)
    (blockPresences m ++ [v]) (pendingBytes m)) _ _ _ _ _ Message_good); [|lia| |done].
  2:{ eapply Forall_impl; [done|]. intros b Hbr.
      split_and!; [by apply BlockPresence_read_write|by apply BlockPresence_size|apply Hbr]. }
  rewrite push_presences. simpl. read_field Message_good. rewrite read_fields_nil. by destruct m.
Qed.

Lemma blocks_size bs :
  Forall short bs →
  vec_len (concat ((λ s, write_with_tag 18 (wr bytes s)) <$> bs)) =
  Zsum ((λ s, 1 + sizeof_len (vec_len s)) <$> bs).
Proof.
  induction 1 as [|b bs Hb _ IH]; [done|]. rewrite !fmap_cons. cbn [concat].
  by rewrite vec_len_app, IH, size_with_tag, bytes_size.
Qed.

Lemma Message_size m : Message_range m → vec_len (Message_write m) = Message_get_size m.
Proof.
  intros (Hw & Hb & Hp & Hbp & Hpb). unfold Message_write, Message_get_size.
  rewrite !vec_len_app, blocks_size by done.
  rewrite (size_opt 10 _ (λ w, sizeof_len (Wantlist_get_size w))); [|lia|].
  2:{ eapply opt_range_impl; [|done]. intros w Hwr. rewrite <-Wantlist_size by done.
      rewrite write_message_eq, bytes_size; [done|..]; rewrite Wantlist_size by done; apply Hwr. }
  rewrite (messages_size 26 Block_get_size Block_write); [|lia|].
  2:{ eapply Forall_impl; [done|]. intros b Hbr. split; [by apply Block_size|apply Hbr]. }
  rewrite (messages_size 34 BlockPresence_get_size BlockPresence_write); [|lia|].
  2:{ eapply Forall_impl; [done|]. intros b Hbr. split; [by apply BlockPresence_size|apply Hbr]. }
  rewrite (unless_size 0 40 _ (λ p, sizeof_varint (p mod 2 ^ 64))) by (try lia; by apply int32_size).
  lia.
Qed.
End bitswap_pb.
End BitswapPb.
