(* ===== verification/BitswapMessage.v ===== *)
(** * Bitswap messages

    packages/beetle-bitswap-next/src/message.rs, block.rs and prefix.rs: the
    message as the program uses it, its encoding for both protocol versions and
    its decoding, which recomputes the identifier of every received block. *)
From stdpp Require Import base gmap list strings.
From Stdlib Require Import Strings.Byte.
From S2P Require Import Prelude Protobuf PbInstance Wantlist BitswapPb.
Local Open Scope Z_scope.

(** The parts of an identifier (crates [cid], [multihash] and [unsigned_varint]):
    its version, codec and hash function, how one is built from data, and the
    varints of a prefix. *)
Class CidParts {ids : Ids} {cc : CidCodec} := {
  cid_version : Cid → Z;
  cid_codec : Cid → Z;
  cid_hash_code : Cid → Z;
  cid_digest_len : Cid → Z;
  cid_parts_range : ∀ c, (cid_version c = 0 ∨ cid_version c = 1) ∧ 0 ≤ cid_codec c < 2 ^ 64 ∧
    0 ≤ cid_hash_code c < 2 ^ 64 ∧ 0 ≤ cid_digest_len c < 2 ^ 64;
  (** [Code::try_from] succeeds. *)
  known_code : Z → bool;
  MultihashError : Type;
  unknown_code : Z → MultihashError;
  (** [Cid::new(version, codec, code.digest(data))]. *)
  cid_new : Z → Z → Z → list byte → result Cid CidError;
  cid_new_parts : ∀ v co h data c,
    cid_new v co h data = Ok c → cid_version c = v ∧ cid_codec c = co ∧ cid_hash_code c = h;
  (** [code.digest(bytes) == cid.hash()]. *)
  digest_matches : Cid → list byte → bool;
  digest_matches_new : ∀ v co h data c, cid_new v co h data = Ok c → digest_matches c data = true;
  digest_matches_v0 : ∀ data, digest_matches (sha2_256_v0 data) data = true;
  hash_code_v0 : ∀ data, known_code (cid_hash_code (sha2_256_v0 data)) = true;
  InvalidVersion : CidError;
  varint_encode : Z → list byte;
  varint_decode : list byte → result (Z * list byte) CidError;
  varint_decode_encode : ∀ v rest, 0 ≤ v < 2 ^ 64 → varint_decode (varint_encode v ++ rest) = Ok (v, rest);
}.

Module BitswapMessage.

Section message.
  Context {ids : Ids} {cc : CidCodec} {cp : CidParts} {qp : QuickProtobuf} {ho : HashOrder}.

(** block.rs *)
Record Block := mkBlock { block_cid : Cid; block_data : list byte }.
Definition from_v0_data (data : list byte) : Block := mkBlock (sha2_256_v0 data) data.

Inductive Error :=
  | QuickProtobufError (e : PbError)
  | CidParse (e : CidError)
  | MultihashParse (e : MultihashError).

(** ** prefix.rs *)
Record Prefix := mkPrefix { version : Z; codec : Z; mh_type : Z; mh_len : Z }.

(** [Version::try_from]. *)
Definition version_try_from (v : Z) : result Z CidError :=
  if bool_decide (v = 0) || bool_decide (v = 1) then Ok v else Err InvalidVersion.

Definition Prefix_new (data : list byte) : result Prefix Error :=
  let? (raw_version, remain) := map_err CidParse (varint_decode data) in
  let? version := map_err CidParse (version_try_from raw_version) in
  let? (codec, remain) := map_err CidParse (varint_decode remain) in
  let? (mh_type, remain) := map_err CidParse (varint_decode remain) in
  let? (mh_len, _) := map_err CidParse (varint_decode remain) in
  if known_code mh_type then Ok (mkPrefix version codec mh_type mh_len)
  else Err (MultihashParse (unknown_code mh_type)).

Definition Prefix_to_bytes (p : Prefix) : list byte :=
  varint_encode (version p) ++ varint_encode (codec p) ++ varint_encode (mh_type p)
  ++ varint_encode (mh_len p).

Definition Prefix_to_cid (p : Prefix) (data : list byte) : result Cid CidError :=
  cid_new (version p) (codec p) (mh_type p) data.

(** [From<&Cid> for Prefix]; [expect] panics on an unknown hash function. *)
Definition Prefix_from (c : Cid) : outcome Prefix :=
  if known_code (cid_hash_code c)
  then Done (mkPrefix (cid_version c) (cid_codec c) (cid_hash_code c) (cid_digest_len c))
  else Panic.

(** ** message.rs *)
Inductive BlockPresenceType := Have | DontHave.
#[global] Instance BlockPresenceType_eq_dec : EqDecision BlockPresenceType.
Proof. solve_decision. Defined.

Definition presence_into (t : BlockPresenceType) : BitswapPb.BlockPresenceType :=
  match t with Have => BitswapPb.PresenceHave | DontHave => BitswapPb.PresenceDontHave end.
Definition presence_from (t : BitswapPb.BlockPresenceType) : BlockPresenceType :=
  match t with BitswapPb.PresenceHave => Have | BitswapPb.PresenceDontHave => DontHave end.

Record Entry := mkEntry {
  cid : Cid;
  priority : Z;
  want_type : WantType;
  cancel : bool;
  send_dont_have : bool;
}.

(** [From<&Entry> for pb::Entry]. *)
Definition entry_into (e : Entry) : BitswapPb.Entry :=
  BitswapPb.mkEntry (cid_to_bytes (cid e)) (priority e) (cancel e) (want_type e) (send_dont_have e).
Definition entry_encoded_len (e : Entry) : Z := BitswapPb.Entry_get_size (entry_into e).

Record BlockPresence := mkPresence { presence_cid : Cid; typ : BlockPresenceType }.
#[global] Instance BlockPresence_eq_dec : EqDecision BlockPresence.
Proof. solve_decision. Defined.
Definition block_presence_into (p : BlockPresence) : BitswapPb.BlockPresence :=
  BitswapPb.mkPresence (cid_to_bytes (presence_cid p)) (presence_into (typ p)).
Definition presence_encoded_len (p : BlockPresence) : Z :=
  BitswapPb.BlockPresence_get_size (block_presence_into p).
Definition encoded_len_for_cid (c : Cid) : Z :=
  BitswapPb.BlockPresence_get_size (BitswapPb.mkPresence (cid_to_bytes c) BitswapPb.PresenceHave).

Record BitswapMessage := mkMessage {
  full : bool;
  wantlist : gmap Cid Entry;
  blocks : gmap Cid Block;
  block_presences : gmap Cid BlockPresenceType;
  pending_bytes : Z;
}.

Definition new (full : bool) : BitswapMessage := mkMessage full ∅ ∅ ∅ 0.
Definition clear (full : bool) (m : BitswapMessage) : BitswapMessage := mkMessage full ∅ ∅ ∅ 0.

(** [verify_hash] (lib.rs). *)
Definition verify_hash (c : Cid) (data : list byte) : option bool :=
  if known_code (cid_hash_code c) then Some (digest_matches c data) else None.

Definition verify_blocks (m : BitswapMessage) : BitswapMessage :=
  mkMessage (full m) (wantlist m)
    (filter (λ cb, verify_hash (block_cid cb.2) (block_data cb.2) = Some true) (blocks m))
    (block_presences m) (pending_bytes m).

Definition is_empty (m : BitswapMessage) : bool :=
  bool_decide (blocks m = ∅) && bool_decide (wantlist m = ∅) && bool_decide (block_presences m = ∅).

Definition get_block_presence_by_type (t : BlockPresenceType) (m : BitswapMessage) : list Cid :=
  fst <$> filter (λ ct, ct.2 = t) (iter_map (block_presences m)).
Definition haves : BitswapMessage → list Cid := get_block_presence_by_type Have.
Definition dont_haves : BitswapMessage → list Cid := get_block_presence_by_type DontHave.

Definition set_pending_bytes (bytes : Z) (m : BitswapMessage) : BitswapMessage :=
  mkMessage (full m) (wantlist m) (blocks m) (block_presences m) bytes.

Definition with_wantlist (w : gmap Cid Entry) (m : BitswapMessage) : BitswapMessage :=
  mkMessage (full m) w (blocks m) (block_presences m) (pending_bytes m).

Definition remove (c : Cid) (m : BitswapMessage) : BitswapMessage :=
  with_wantlist (delete c (wantlist m)) m.

(** The update of an entry that is already in the message. *)
Definition merge_entry (priority_ : Z) (cancel_ : bool) (want_type_ : WantType)
    (send_dont_have_ : bool) (e : Entry) : Entry :=
  mkEntry (cid e)
    (if bool_decide (want_type e = want_type_) then priority_ else priority e)
    (if bool_decide (want_type_ = Wantlist.Block) && bool_decide (want_type e = Wantlist.Have)
     then want_type_ else want_type e)
    (if cancel_ then cancel_ else cancel e)
    (if send_dont_have_ then send_dont_have_ else send_dont_have e).

Definition add_full_entry (c : Cid) (priority_ : Z) (cancel_ : bool) (want_type_ : WantType)
    (send_dont_have_ : bool) (m : BitswapMessage) : Z * BitswapMessage :=
  match wantlist m !! c with
  | Some e =>
      (0, with_wantlist
            (<[c := merge_entry priority_ cancel_ want_type_ send_dont_have_ e]> (wantlist m)) m)
  | None =>
      let e := mkEntry c priority_ want_type_ cancel_ send_dont_have_ in
      (entry_encoded_len e, with_wantlist (<[c := e]> (wantlist m)) m)
  end.

Definition cancel_entry (c : Cid) (m : BitswapMessage) : Z * BitswapMessage :=
  add_full_entry c 0 true Wantlist.Block false m.
Definition add_entry (c : Cid) (priority_ : Z) (want_type_ : WantType) (send_dont_have_ : bool)
    (m : BitswapMessage) : Z * BitswapMessage :=
  add_full_entry c priority_ false want_type_ send_dont_have_ m.

Definition add_block (b : Block) (m : BitswapMessage) : BitswapMessage :=
  mkMessage (full m) (wantlist m) (<[block_cid b := b]> (blocks m))
    (delete (block_cid b) (block_presences m)) (pending_bytes m).

Definition add_block_presence (c : Cid) (t : BlockPresenceType) (m : BitswapMessage) :
    BitswapMessage :=
  if bool_decide (is_Some (blocks m !! c)) then m
  else mkMessage (full m) (wantlist m) (blocks m) (<[c := t]> (block_presences m)) (pending_bytes m).
Definition add_have (c : Cid) : BitswapMessage → BitswapMessage := add_block_presence c Have.
Definition add_dont_have (c : Cid) : BitswapMessage → BitswapMessage := add_block_presence c DontHave.

Definition presences (m : BitswapMessage) : list BlockPresence :=
  (λ ct, mkPresence ct.1 ct.2) <$> iter_map (block_presences m).

Definition encoded_len (m : BitswapMessage) : Z :=
  let block_size := Zsum ((λ b, vec_len (block_data b)) <$> iter_values (blocks m)) in
  let block_presence_size := Zsum (presence_encoded_len <$> presences m) in
  let wantlist_size := Zsum (entry_encoded_len <$> iter_values (wantlist m)) in
  block_size + block_presence_size + wantlist_size.

Definition encode_wantlist (m : BitswapMessage) : BitswapPb.Wantlist :=
  BitswapPb.mkWantlist (entry_into <$> iter_values (wantlist m)) (full m).

Definition encode_as_proto_v0 (m : BitswapMessage) : BitswapPb.Message :=
  BitswapPb.mkMessage (Some (encode_wantlist m)) (block_data <$> iter_values (blocks m)) [] [] 0.

Fixpoint encode_payload (bs : list Block) : outcome (list BitswapPb.Block) :=
  match bs with
  | [] => mret []
  | b :: bs =>
      p ← Prefix_from (block_cid b);
      rest ← encode_payload bs;
      mret (BitswapPb.mkBlock (Prefix_to_bytes p) (block_data b) :: rest)
  end.

Definition encode_as_proto_v1 (m : BitswapMessage) : outcome BitswapPb.Message :=
  payload ← encode_payload (iter_values (blocks m));
  mret (BitswapPb.mkMessage (Some (encode_wantlist m)) [] payload
          ((λ ct, BitswapPb.mkPresence (cid_to_bytes ct.1) (presence_into ct.2))
             <$> iter_map (block_presences m))
          (pending_bytes m)).

(** The loops of [TryFrom<pb::Message>]. *)
Fixpoint decode_entries (es : list BitswapPb.Entry) (m : BitswapMessage) : result BitswapMessage Error :=
  match es with
  | [] => Ok m
  | e :: es =>
      let? c := map_err CidParse (cid_try_from (BitswapPb.block e)) in
      decode_entries es
        (add_full_entry c (BitswapPb.priority e) (BitswapPb.cancel e) (BitswapPb.wantType e)
           (BitswapPb.sendDontHave e) m).2
  end.

Definition decode_blocks (ds : list (list byte)) (m : BitswapMessage) : BitswapMessage :=
  foldl (λ m d, add_block (from_v0_data d) m) m ds.

Fixpoint decode_payload (bs : list BitswapPb.Block) (m : BitswapMessage) : result BitswapMessage Error :=
  match bs with
  | [] => Ok m
  | b :: bs =>
      let? prefix := Prefix_new (BitswapPb.prefix b) in
      let? c := map_err CidParse (Prefix_to_cid prefix (BitswapPb.bdata b)) in
      decode_payload bs (add_block (mkBlock c (BitswapPb.bdata b)) m)
  end.

Fixpoint decode_presences (ps : list BitswapPb.BlockPresence) (m : BitswapMessage) :
    result BitswapMessage Error :=
  match ps with
  | [] => Ok m
  | p :: ps =>
      let? c := map_err CidParse (cid_try_from (BitswapPb.pcid p)) in
      decode_presences ps (add_block_presence c (presence_from (BitswapPb.type_pb p)) m)
  end.

Definition try_from (pbm : BitswapPb.Message) : result BitswapMessage Error :=
  let full := match BitswapPb.wantlist pbm with Some w => BitswapPb.full w | None => false end in
  let m := new full in
  let? m := match BitswapPb.wantlist pbm with
            | Some w => decode_entries (BitswapPb.entries w) m
            | None => Ok m
            end in
  let m := decode_blocks (BitswapPb.blocks pbm) m in
  let? m := decode_payload (BitswapPb.payload pbm) m in
  let? m := decode_presences (BitswapPb.blockPresences pbm) m in
  Ok (set_pending_bytes (BitswapPb.pendingBytes pbm) m).

(** [TryFrom<Bytes>]. *)
Definition try_from_bytes (value : list byte) : outcome (result BitswapMessage Error) :=
  let! pbm := map_err QuickProtobufError <$> BitswapPb.Message_from_reader value in
  Done (try_from pbm).

(** ** Well-formed messages

    Entries and blocks are filed under their own identifier, and a block that is
    sent is not announced as well. *)
Record inv (m : BitswapMessage) : Prop := {
  inv_wants : map_Forall (λ c e, cid e = c) (wantlist m);
  inv_blocks : map_Forall (λ c b, block_cid b = c) (blocks m);
  inv_disjoint : ∀ c, is_Some (blocks m !! c) → block_presences m !! c = None;
}.

Lemma new_message_inv f : inv (new f).
Proof. split; [apply map_Forall_empty|apply map_Forall_empty|done]. Qed.

Lemma add_full_entry_inv c p ca w s m : inv m → inv (add_full_entry c p ca w s m).2.
Proof.
  intros [Hw Hb Hd]. unfold add_full_entry. destruct (wantlist m !! c) as [e|] eqn:He; simpl.
  - split; [|done|done]. simpl. apply map_Forall_insert_2; [|done]. simpl. by apply (Hw c).
  - split; [|done|done]. simpl. by apply map_Forall_insert_2.
Qed.

Lemma add_block_inv b m : inv m → inv (add_block b m).
Proof.
  intros [Hw Hb Hd]. split; simpl; [done|by apply map_Forall_insert_2|].
  intros c Hc. destruct (decide (c = block_cid b)) as [->|Hne]; [apply lookup_delete_eq|].
  rewrite lookup_insert_ne in Hc by done. rewrite lookup_delete_ne by done. by apply Hd.
Qed.

Lemma add_block_presence_inv c t m : inv m → inv (add_block_presence c t m).
Proof.
  intros [Hw Hb Hd]. unfold add_block_presence. case_bool_decide as Hc; [by split|].
  split; simpl; [done|done|]. intros c' Hc'.
  rewrite lookup_insert_ne; [by apply Hd|]. intros ->. done.
Qed.

Lemma verify_blocks_inv m : inv m → inv (verify_blocks m).
Proof.
  intros [Hw Hb Hd]. split; simpl; [done| |].
  - intros c b [Hc _]%map_lookup_filter_Some. eauto.
  - intros c [b [Hc _]%map_lookup_filter_Some]. eauto.
Qed.

(** ** Decoding *)

(** A block whose identifier was computed from its data. *)
Definition addressed (b : Block) : Prop :=
  known_code (cid_hash_code (block_cid b)) = true ∧ digest_matches (block_cid b) (block_data b) = true.

Lemma decode_entries_keep es m m' :
  decode_entries es m = Ok m' →
  full m' = full m ∧ blocks m' = blocks m ∧ block_presences m' = block_presences m ∧ (inv m → inv m').
Proof.
  revert m. induction es as [|e es IH]; intros m Hd; simpl in Hd; [by simplify_eq|].
  destruct (cid_try_from _) as [c|]; [simpl in Hd|done].
  apply IH in Hd as (Hf & Hb & Hp & Hi). rewrite Hf, Hb, Hp. unfold add_full_entry in *.
  split_and!; try by case_match. intros Hm. apply Hi.
  apply (add_full_entry_inv c (BitswapPb.priority e) (BitswapPb.cancel e) (BitswapPb.wantType e) (BitswapPb.sendDontHave e) m Hm).
Qed.

Lemma decode_blocks_ok ds m :
  inv m → map_Forall (λ _ b, addressed b) (blocks m) →
  inv (decode_blocks ds m) ∧ map_Forall (λ _ b, addressed b) (blocks (decode_blocks ds m)).
Proof.
  unfold decode_blocks. revert m. induction ds as [|d ds IH]; intros m Hm Ha; [done|]. simpl.
  apply IH; [by apply add_block_inv|]. simpl. apply map_Forall_insert_2; [|done].
  split; [apply hash_code_v0|apply digest_matches_v0].
Qed.

Lemma decode_payload_ok bs m m' :
  decode_payload bs m = Ok m' → inv m → map_Forall (λ _ b, addressed b) (blocks m) →
  inv m' ∧ map_Forall (λ _ b, addressed b) (blocks m').
Proof.
  revert m. induction bs as [|b bs IH]; intros m Hd Hm Ha; simpl in Hd; [by simplify_eq|].
  destruct (Prefix_new _) as [p|] eqn:Hp; [simpl in Hd|done].
  destruct (Prefix_to_cid p _) as [c|] eqn:Hc; [simpl in Hd|done].
  apply IH in Hd; [done|by apply add_block_inv|]. simpl. apply map_Forall_insert_2; [|done].
  unfold Prefix_to_cid in Hc. split; simpl.
  - apply cid_new_parts in Hc as (_ & _ & ->). unfold Prefix_new in Hp.
    repeat (destruct (varint_decode _) as [[]|]; simpl in Hp; [|done]).
    destruct (version_try_from _); simpl in Hp; [|done].
    repeat (destruct (varint_decode _) as [[]|]; simpl in Hp; [|done]).
    destruct (known_code _) eqn:Hk; [|done]. by simplify_eq/=.
  - by eapply digest_matches_new.
Qed.

Lemma decode_presences_ok ps m m' :
  decode_presences ps m = Ok m' → inv m → inv m' ∧ blocks m' = blocks m.
Proof.
  revert m. induction ps as [|p ps IH]; intros m Hd Hm; simpl in Hd; [by simplify_eq|].
  destruct (cid_try_from _) as [c|]; [simpl in Hd|done].
  apply IH in Hd as [Hi Hb]; [|by apply add_block_presence_inv]. split; [done|].
  rewrite Hb. unfold add_block_presence. by case_bool_decide.
Qed.

Lemma try_from_ok pbm m :
  try_from pbm = Ok m → inv m ∧ map_Forall (λ _ b, addressed b) (blocks m).
Proof.
  unfold try_from. intros Ht.
  destruct (match BitswapPb.wantlist pbm with Some w => _ | None => _ end) as [m1|] eqn:H1; [|done].
  simpl in Ht.
  assert (inv m1 ∧ blocks m1 = ∅) as [Hi1 Hb1].
  { destruct (BitswapPb.wantlist pbm) as [w|].
    - apply decode_entries_keep in H1 as (_ & Hb & _ & Hi). split; [apply Hi, new_message_inv|by rewrite Hb].
    - simplify_eq. split; [apply new_message_inv|done]. }
  destruct (decode_blocks_ok (BitswapPb.blocks pbm) m1 Hi1) as [Hi2 Ha2].
  { rewrite Hb1. apply map_Forall_empty. }
  destruct (decode_payload _ _) as [m3|] eqn:H3; [simpl in Ht|done].
  destruct (decode_payload_ok _ _ _ H3 Hi2 Ha2) as [Hi3 Ha3].
  destruct (decode_presences _ _) as [m4|] eqn:H4; [simpl in Ht|done].
  destruct (decode_presences_ok _ _ _ H4 Hi3) as [[Hw4 Hbl4 Hd4] Hb4]. simplify_eq.
  split; [by split|]. simpl. by rewrite Hb4.
Qed.

Lemma verify_addressed m :
  map_Forall (λ _ b, addressed b) (blocks m) → verify_blocks m = m.
Proof.
  intros Ha. destruct m as [f w b p n]. unfold verify_blocks. simpl in *. f_equal.
  apply map_filter_id. intros c bl Hc. destruct (Ha c bl Hc) as [Hk Hd].
  unfold verify_hash. simpl. by rewrite Hk, Hd.
Qed.

(** ** Encoding and decoding again *)

Lemma Prefix_roundtrip c :
  known_code (cid_hash_code c) = true →
  ∃ p, Prefix_from c = Done p ∧ Prefix_new (Prefix_to_bytes p) = Ok p ∧
    ∀ data, Prefix_to_cid p data = cid_new (cid_version c) (cid_codec c) (cid_hash_code c) data.
Proof.
  intros Hk. destruct (cid_parts_range c) as (Hv & Hco & Hh & Hl).
  eexists. unfold Prefix_from. rewrite Hk. split; [done|]. split; [|done].
  unfold Prefix_new, Prefix_to_bytes. simpl.
  rewrite varint_decode_encode by lia. simpl. unfold version_try_from.
  replace (bool_decide _ || bool_decide _) with true by (destruct Hv as [-> | ->]; done). simpl.
  rewrite varint_decode_encode by lia. simpl. rewrite varint_decode_encode by lia. simpl.
  rewrite <-(app_nil_r (varint_encode (cid_digest_len c))), varint_decode_encode by lia. simpl.
  by rewrite Hk.
Qed.

(** The block's identifier is the one that its prefix and its data give. *)
Definition valid_block (b : Block) : Prop :=
  known_code (cid_hash_code (block_cid b)) = true ∧
  cid_new (cid_version (block_cid b)) (cid_codec (block_cid b)) (cid_hash_code (block_cid b))
    (block_data b) = Ok (block_cid b).

Lemma values_keyed {A} (key : A → Cid) (m : gmap Cid A) :
  map_Forall (λ c a, key a = c) m → (λ a, (key a, a)) <$> iter_values m = iter_map m.
Proof.
  intros Hm. unfold iter_values.
  assert (Forall (λ ca : Cid * A, key ca.2 = ca.1) (iter_map m)) as Hall.
  { apply Forall_forall. intros [c a] Hin. apply Hm. by apply elem_of_iter_map. }
  induction Hall as [|[c a] l Hc _ IH]; [done|]. rewrite !fmap_cons, IH. simpl in *. by rewrite Hc.
Qed.

Lemma NoDup_keyed {A} (key : A → Cid) (m : gmap Cid A) :
  map_Forall (λ c a, key a = c) m → NoDup (key <$> iter_values m).
Proof.
  intros Hm. pose proof (NoDup_iter_map_keys m) as Hn. rewrite <-(values_keyed key) in Hn by done.
  by rewrite <-list_fmap_compose in Hn.
Qed.

Lemma list_to_map_keyed {A} (key : A → Cid) (m : gmap Cid A) :
  map_Forall (λ c a, key a = c) m → list_to_map ((λ a, (key a, a)) <$> iter_values m) = m.
Proof. intros Hm. rewrite values_keyed by done. apply list_to_map_iter. Qed.

Lemma decode_entries_fresh es m :
  NoDup (cid <$> es) → (∀ e, e ∈ es → wantlist m !! cid e = None) →
  decode_entries (entry_into <$> es) m =
  Ok (with_wantlist (list_to_map ((λ e, (cid e, e)) <$> es) ∪ wantlist m) m).
Proof.
  revert m. induction es as [|e es IH]; intros m Hn Hf.
  - simpl. rewrite (left_id_L ∅ (∪)). by destruct m.
  - rewrite fmap_cons in Hn. apply NoDup_cons in Hn as [Hni Hn].
    rewrite !fmap_cons. simpl. rewrite cid_try_from_to_bytes. simpl.
    unfold add_full_entry. rewrite Hf by set_solver. simpl.
    rewrite IH; [|done|].
    + simpl. f_equal. unfold with_wantlist. simpl. f_equal.
      rewrite <-insert_union_r; [by rewrite <-insert_union_l; destruct e|].
      apply not_elem_of_list_to_map. by rewrite <-list_fmap_compose.
    + simpl. intros e' He'. rewrite lookup_insert_ne by (intros Heq; apply Hni, list_elem_of_fmap; eauto).
      apply Hf. set_solver.
Qed.

Lemma encode_payload_fresh bs m :
  NoDup (block_cid <$> bs) → Forall valid_block bs → block_presences m = ∅ →
  (∀ b, b ∈ bs → blocks m !! block_cid b = None) →
  ∃ pbs, encode_payload bs = Done pbs ∧
    decode_payload pbs m =
    Ok (mkMessage (full m) (wantlist m) (list_to_map ((λ b, (block_cid b, b)) <$> bs) ∪ blocks m) ∅
          (pending_bytes m)).
Proof.
  intros Hn Hv. revert m Hn. induction Hv as [|b bs [Hk Hc] _ IH]; intros m Hn Hp Hf.
  - exists []. simpl. rewrite (left_id_L ∅ (∪)). split; [done|]. by destruct m; simplify_eq/=.
  - rewrite fmap_cons in Hn. apply NoDup_cons in Hn as [Hni Hn].
    destruct (Prefix_roundtrip _ Hk) as (p & Hp1 & Hp2 & Hp3).
    destruct (IH (add_block b m)) as (pbs & He & Hd); [done|simpl; by rewrite Hp, delete_empty|..].
    { simpl. intros b' Hb'. rewrite lookup_insert_ne by (intros Heq; apply Hni, list_elem_of_fmap; eauto).
      apply Hf. set_solver. }
    eexists. cbn [encode_payload]. rewrite Hp1. cbn [mbind outcome_bind]. rewrite He. split; [done|].
    cbn [decode_payload BitswapPb.prefix BitswapPb.bdata]. rewrite Hp2. cbn [result_bind].
    rewrite Hp3, Hc. cbn [map_err result_bind]. replace (mkBlock (block_cid b) (block_data b)) with b by by destruct b.
    rewrite Hd. cbn [add_block full wantlist blocks pending_bytes]. do 2 f_equal.
    rewrite fmap_cons. cbn [list_to_map foldr uncurry].
    rewrite <-insert_union_r; [by rewrite <-insert_union_l|].
    apply not_elem_of_list_to_map. by rewrite <-list_fmap_compose.
Qed.

Lemma decode_presences_fresh (ps : list (Cid * BlockPresenceType)) m :
  NoDup ps.*1 → (∀ c, c ∈ ps.*1 → blocks m !! c = None ∧ block_presences m !! c = None) →
  decode_presences ((λ ct, BitswapPb.mkPresence (cid_to_bytes ct.1) (presence_into ct.2)) <$> ps) m =
  Ok (mkMessage (full m) (wantlist m) (blocks m) (list_to_map ps ∪ block_presences m) (pending_bytes m)).
Proof.
  revert m. induction ps as [|[c t] ps IH]; intros m Hn Hf.
  - simpl. rewrite (left_id_L ∅ (∪)). by destruct m.
  - rewrite fmap_cons in Hn, Hf. apply NoDup_cons in Hn as [Hni Hn].
    rewrite fmap_cons. cbn [decode_presences BitswapPb.pcid BitswapPb.type_pb fst snd].
    rewrite cid_try_from_to_bytes. cbn [map_err result_bind].
    destruct (Hf c) as [Hb Hp]; [set_solver|]. unfold add_block_presence.
    rewrite bool_decide_eq_false_2 by (rewrite Hb; by intros [? ?]).
    rewrite IH; [|done|].
    + cbn [full wantlist blocks block_presences pending_bytes]. do 2 f_equal.
      replace (presence_from (presence_into t)) with t by by destruct t.
      cbn [list_to_map foldr uncurry].
      rewrite <-insert_union_r; [by rewrite <-insert_union_l|]. by apply not_elem_of_list_to_map.
    + cbn [blocks block_presences]. intros c' Hc'.
      rewrite lookup_insert_ne by (intros ->; done). apply Hf. set_solver.
Qed.

Lemma encode_decode m :
  inv m → map_Forall (λ _ b, valid_block b) (blocks m) →
  ∃ pbm, encode_as_proto_v1 m = Done pbm ∧ try_from pbm = Ok m.
Proof.
  intros [Hw Hb Hd] Hv.
  set (m1 := with_wantlist (wantlist m) (new (full m))).
  destruct (encode_payload_fresh (iter_values (blocks m)) m1) as (pbs & He & Hp).
  { by apply NoDup_keyed. }
  { apply Forall_forall. intros b [c Hc]%elem_of_iter_values. by eapply Hv. }
  { done. }
  { done. }
  eexists. unfold encode_as_proto_v1. rewrite He. split; [done|].
  unfold try_from. cbn [BitswapPb.wantlist BitswapPb.full BitswapPb.entries BitswapPb.blocks
    BitswapPb.payload BitswapPb.blockPresences BitswapPb.pendingBytes encode_wantlist].
  rewrite decode_entries_fresh; [|by apply NoDup_keyed|done]. cbn [result_bind].
  rewrite list_to_map_keyed by done. change (wantlist (new (full m))) with (∅ : gmap Cid Entry). rewrite (right_id_L ∅ (∪)). fold m1.
  unfold decode_blocks. cbn [foldl]. rewrite Hp. cbn [result_bind].
  rewrite list_to_map_keyed by done. change (blocks m1) with (∅ : gmap Cid Block).
  rewrite (right_id_L ∅ (∪)). change (full m1) with (full m). change (wantlist m1) with (wantlist m).
  rewrite decode_presences_fresh; [|apply NoDup_iter_map_keys|].
  - cbn [result_bind full wantlist blocks block_presences pending_bytes].
    rewrite list_to_map_iter, (right_id_L ∅ (∪)). by destruct m.
  - cbn [blocks block_presences]. intros c ([c' t] & -> & Hc)%list_elem_of_fmap.
    apply elem_of_iter_map in Hc. split; [|done].
    destruct (blocks m !! c') eqn:Hbc; [|done]. rewrite Hd in Hc by eauto. done.
Qed.
End message.
End BitswapMessage.

Module BitswapMessageClaims.
Import BitswapMessage.
Section claims.
  Context {ids : Ids} {cc : CidCodec} {cp : CidParts} {qp : QuickProtobuf} {ho : HashOrder}.

(** C8: round trip of a message.  A well-formed message whose blocks are valid can
    be encoded for protocol 1.1, and whenever the encoding fits the wire format,
    decoding its bytes gives the message back, in whatever order the hash maps
    are walked. *)
Theorem message_roundtrip m :
  inv m → map_Forall (λ _ b, valid_block b) (blocks m) →
  ∃ pbm, encode_as_proto_v1 m = Done pbm ∧
    (BitswapPb.Message_range pbm → try_from_bytes (BitswapPb.Message_write pbm) = Done (Ok m)).
Proof.
  intros Hi Hv. destruct (encode_decode m Hi Hv) as (pbm & He & Hd). exists pbm. split; [done|].
  intros Hr. unfold try_from_bytes. rewrite BitswapPb.Message_read_write by done.
  cbn [fmap outcome_fmap map_err try_bind mbind outcome_bind]. by rewrite Hd.
Qed.

(** Received blocks are addressed by their content.  Whatever bytes a peer
    sends, decoding ends; a message that decodes is well formed, every block in
    it is filed under an identifier computed from its data, and so the later
    verification of the blocks drops none. *)
Theorem received_blocks_addressed (value : list byte) :
  is_done (try_from_bytes value) = true ∧
  ∀ m, try_from_bytes value = Done (Ok m) →
    inv m ∧ verify_blocks m = m ∧
    ∀ c b, blocks m !! c = Some b → block_cid b = c ∧ digest_matches c (block_data b) = true.
Proof.
  unfold try_from_bytes. pose proof (BitswapPb.Message_read_done value) as Hd.
  destruct (BitswapPb.Message_from_reader value) as [[pbm|e]| |]; try done; split; try done.
  cbn. intros m [= Ht]. destruct (try_from_ok _ _ Ht) as [Hi Ha].
  split_and!; [done|by apply verify_addressed|]. intros c b Hc.
  pose proof (inv_blocks _ Hi c b Hc) as Hb. simpl in Hb. split; [done|].
  rewrite <-Hb. by apply (Ha c b).
Qed.

(** The entry that a sequence of requests for the same block leaves. *)
Definition request_all (c : Cid) (rs : list (Z * bool * WantType * bool)) (m : BitswapMessage) :
    BitswapMessage :=
  foldl (λ m '(p, ca, w, s), (add_full_entry c p ca w s m).2) m rs.

(** Requests for the same block are joined.  After any non-empty sequence of
    requests for a block, the message holds one entry for it: it asks for the
    block if any request did, it is a cancel if any request was, and it asks for
    a DONT_HAVE if any request did; no other entry is touched. *)
Theorem add_full_entry_joins c r rs m :
  wantlist m !! c = None →
  let all := r :: rs in
  ∃ e, wantlist (request_all c all m) !! c = Some e ∧ cid e = c ∧
    (want_type e = Wantlist.Block ↔ ∃ q, q ∈ all ∧ q.1.2 = Wantlist.Block) ∧
    (cancel e = true ↔ ∃ q, q ∈ all ∧ q.1.1.2 = true) ∧
    (send_dont_have e = true ↔ ∃ q, q ∈ all ∧ q.2 = true) ∧
    ∀ c', c' ≠ c → wantlist (request_all c all m) !! c' = wantlist m !! c'.
Proof.
  intros Hnone. cbn zeta. induction rs as [|q rs IH] using rev_ind.
  - destruct r as [[[p ca] w] s]. unfold request_all. simpl. unfold add_full_entry. rewrite Hnone. simpl.
    exists (mkEntry c p w ca s). simpl. rewrite lookup_insert_eq.
    split_and!; try done; [set_solver..|]. intros. by rewrite lookup_insert_ne.
  - destruct IH as (e & He & Hc & Hw & Hca & Hs & Hne).
    rewrite app_comm_cons. unfold request_all in *. rewrite foldl_app. set (m1 := foldl _ _ _) in *.
    destruct q as [[[p ca] w] s]. simpl. unfold add_full_entry. rewrite He. simpl.
    rewrite lookup_insert_eq. eexists. split; [done|]. unfold merge_entry. simpl.
    split_and!; [done|..|intros; rewrite lookup_insert_ne by done; by apply Hne].
    + assert ((if bool_decide (w = Wantlist.Block) && bool_decide (want_type e = Wantlist.Have)
        then w else want_type e) = Wantlist.Block ↔ want_type e = Wantlist.Block ∨ w = Wantlist.Block) as ->.
      { destruct w, (want_type e); simpl; naive_solver. }
      rewrite Hw. set_solver.
    + assert ((if ca then ca else cancel e) = true ↔ cancel e = true ∨ ca = true) as ->
        by (destruct ca; naive_solver).
      rewrite Hca. set_solver.
    + assert ((if s then s else send_dont_have e) = true ↔ send_dont_have e = true ∨ s = true) as ->
        by (destruct s; naive_solver).
      rewrite Hs. set_solver.
Qed.
End claims.
End BitswapMessageClaims.

(** Concrete runs: identifiers that start with their version, codec and hash
    function. *)
Module BitswapMessageWitness.
Import BitswapMessage.

#[local] Existing Instance bytes_ids.
#[local] Existing Instance bytes_cids.
#[local] Existing Instance WireFormat.wire_format.
#[local] Existing Instance key_order.

Definition nth_byte (i : nat) (c : list byte) : Z := byte_to_Z (default x00 (c !! i)).
Definition toy_digest (data : list byte) : list byte := sha2_256_v0 data.
Definition toy_cid_new (v co h : Z) (data : list byte) : result Cid unit :=
  if bool_decide ((v = 0 ∨ v = 1) ∧ 0 ≤ co < 256 ∧ 0 ≤ h < 256)
  then Ok (byte_of_Z v :: byte_of_Z co :: byte_of_Z h :: toy_digest data) else Err ().

Lemma nth_byte_range i c : 0 ≤ nth_byte i c < 256.
Proof. apply byte_to_Z_range. Qed.

Program Definition toy_parts : CidParts := {|
  cid_version := λ c, if bool_decide (nth_byte 0 c = 1) then 1 else 0;
  cid_codec := nth_byte 1;
  cid_hash_code := nth_byte 2;
  cid_digest_len := λ c, Z.min (vec_len c) 100;
  known_code := λ _, true;
  MultihashError := unit;
  unknown_code := λ _, ();
  cid_new := toy_cid_new;
  digest_matches := λ c data,
    bool_decide (c = toy_digest data) || bool_decide (drop 3 c = toy_digest data);
  InvalidVersion := ();
  varint_encode := WireFormat.varint 10;
  varint_decode := WireFormat.read_varint;
|}.
Next Obligation.
  intros c. simpl. pose proof (nth_byte_range 1 c). pose proof (nth_byte_range 2 c).
  pose proof (Pb.vec_len_nonneg (A := byte) c). split_and!; try lia. case_bool_decide; auto.
Qed.
Next Obligation.
  intros v co h data c. unfold toy_cid_new. case_bool_decide as Hr; [|done]. intros [= <-].
  unfold nth_byte. simpl. rewrite !byte_to_of_Z. destruct Hr as (Hv & Hco & Hh).
  rewrite !(Z.mod_small _ 256) by lia. destruct Hv as [-> | ->]; done.
Qed.
Next Obligation.
  intros v co h data c. unfold toy_cid_new. case_bool_decide as Hr; [|done]. intros [= <-].
  apply orb_true_intro. right. by apply bool_decide_eq_true_2.
Qed.
Next Obligation. intros data. simpl. by rewrite bool_decide_eq_true_2. Qed.
Next Obligation. done. Qed.
Next Obligation.
  intros v rest Hv. apply WireFormat.read_varint_ok; [done|]. by apply WireFormat.u64_varint.
Qed.
#[local] Existing Instance toy_parts.

Definition demo_cid : Cid := x01 :: x55 :: x12 :: toy_digest [x61; x62].
Definition demo : BitswapMessage :=
  add_have [x07] (add_block (mkBlock demo_cid [x61; x62])
    (add_entry [x05] 3 Wantlist.Have true (new true)).2).

Lemma demo_message_inv : inv demo.
Proof. apply add_block_presence_inv, add_block_inv, add_full_entry_inv, new_message_inv. Qed.

Lemma message_roundtrip_witness :
  ∃ pbm, encode_as_proto_v1 demo = Done pbm ∧
    (BitswapPb.Message_range pbm → try_from_bytes (BitswapPb.Message_write pbm) = Done (Ok demo)).
Proof.
  apply BitswapMessageClaims.message_roundtrip; [apply demo_message_inv|].
  change (blocks demo) with ({[demo_cid := mkBlock demo_cid [x61; x62]]} : gmap Cid Block).
  intros c b [<- <-]%lookup_singleton_Some. split; vm_compute; done.
Defined.

Definition c9 : Cid := [x09].
Definition requests : list (Z * bool * WantType * bool) :=
  [(1, false, Wantlist.Have, true); (2, true, Wantlist.Block, false)].

Lemma add_full_entry_joins_witness :
  ∃ e, wantlist (BitswapMessageClaims.request_all c9 requests demo) !! c9 = Some e ∧
    cid e = c9 ∧
    (want_type e = Wantlist.Block ↔ ∃ q, q ∈ requests ∧ q.1.2 = Wantlist.Block) ∧
    (cancel e = true ↔ ∃ q, q ∈ requests ∧ q.1.1.2 = true) ∧
    (send_dont_have e = true ↔ ∃ q, q ∈ requests ∧ q.2 = true) ∧
    ∀ c', c' ≠ c9 →
      wantlist (BitswapMessageClaims.request_all c9 requests demo) !! c' = wantlist demo !! c'.
Proof.
  apply (BitswapMessageClaims.add_full_entry_joins c9 (1, false, Wantlist.Have, true)
    [(2, true, Wantlist.Block, false)] demo).
  apply lookup_insert_None. done.
Defined.
End BitswapMessageWitness.
