(* ===== verification/Ledger.v ===== *)
(** * The ledgers of the bitswap server

    packages/beetle-bitswap-next/src/server/ledger.rs (what one peer wants),
    peer_ledger.rs (which peers wait for a block) and score_ledger.rs (bytes
    exchanged with a peer; the floating point scores are left out). *)
From stdpp Require Import base gmap list.
From S2P Require Import Prelude Wantlist.

Module Ledger.
Section ledger.
  Context {ids : Ids} {ho : HashOrder}.

Record Ledger := mk { partner : PeerId; wantlist : Wantlist.Wantlist }.

Definition new (partner : PeerId) : Ledger := mk partner Wantlist.default.
Definition clear_wantlist (l : Ledger) : Ledger := mk (partner l) (Wantlist.clear (wantlist l)).
Definition wants (c : Cid) (p : Z) (t : WantType) (l : Ledger) : Ledger :=
  mk (partner l) (Wantlist.add c p t (wantlist l)).2.
Definition cancel_want (c : Cid) (l : Ledger) : option Wantlist.Entry * Ledger :=
  let '(o, w) := Wantlist.remove c (wantlist l) in (o, mk (partner l) w).
Definition wantlist_get (c : Cid) (l : Ledger) : option Wantlist.Entry :=
  Wantlist.get c (wantlist l).
Definition entries (l : Ledger) : list Wantlist.Entry * Ledger :=
  let '(es, w) := Wantlist.entries (wantlist l) in (es, mk (partner l) w).
(** [ledger.wantlist_mut().remove_type(..)]. *)
Definition remove_type (c : Cid) (t : WantType) (l : Ledger) : Ledger :=
  mk (partner l) (Wantlist.remove_type c t (wantlist l)).2.

(** ** What the partner wants, as a map *)
Definition view (l : Ledger) : gmap Cid Wantlist.Entry := Wantlist.set (wantlist l).

(** The want that remains when [e] is asked for on top of [o]: a want-block is
    never replaced, and a want-have is only replaced by a want-block. *)
Definition upgrade (c : Cid) (p : Z) (t : WantType) (o : option Wantlist.Entry) : Wantlist.Entry :=
  match o with
  | Some e =>
      if bool_decide (Wantlist.want_type e = Block) || bool_decide (t = Have) then e
      else Wantlist.Entry_new c p t
  | None => Wantlist.Entry_new c p t
  end.

Lemma view_wants c p t l : view (wants c p t l) = <[c := upgrade c p t (view l !! c)]> (view l).
Proof.
  unfold view, wants, upgrade, Wantlist.add; simpl.
  destruct (Wantlist.set (wantlist l) !! c) as [e|] eqn:E; [|done].
  destruct (bool_decide _ || bool_decide _); [|done]. simpl. by rewrite insert_id.
Qed.

Lemma view_cancel c l : view (cancel_want c l).2 = delete c (view l).
Proof. done. Qed.
Lemma cancel_value c l : (cancel_want c l).1 = view l !! c.
Proof. done. Qed.

(** A want-have that was sent leaves a want-block in place. *)
Definition satisfied (t : WantType) (e : Wantlist.Entry) : Prop := want_le (Wantlist.want_type e) t.

Lemma view_remove_type c t l :
  view (remove_type c t l) =
    match view l !! c with
    | Some e => if decide (satisfied t e) then delete c (view l) else view l
    | None => view l
    end.
Proof.
  unfold view, remove_type, Wantlist.remove_type; simpl.
  destruct (Wantlist.set (wantlist l) !! c) as [e|]; [|done].
  destruct (decide _) as [Hd|Hd]; unfold satisfied, want_le in Hd;
    destruct (Wantlist.want_type e), t; simpl; naive_solver.
Qed.

Definition inv (p : PeerId) (l : Ledger) : Prop := partner l = p ∧ Wantlist.inv (wantlist l).

Lemma ledger_new_inv p : inv p (new p).
Proof. split; [done|]. apply Wantlist.default_inv. Qed.
Lemma clear_wantlist_inv p l : inv p l → inv p (clear_wantlist l).
Proof. intros [? _]. split; [done|]. apply Wantlist.default_inv. Qed.
Lemma wants_inv p c pr t l : inv p l → inv p (wants c pr t l).
Proof. intros [? Hw]. split; [done|]. by apply (Wantlist.exec_inv _ (Wantlist.Add c pr t)). Qed.
Lemma cancel_want_inv p c l : inv p l → inv p (cancel_want c l).2.
Proof. intros [? Hw]. split; [done|]. by apply (Wantlist.exec_inv _ (Wantlist.Remove c)). Qed.
Lemma remove_type_inv p c t l : inv p l → inv p (remove_type c t l).
Proof. intros [? Hw]. split; [done|]. by apply (Wantlist.exec_inv _ (Wantlist.RemoveType c t)). Qed.

Lemma view_keyed p l c e : inv p l → view l !! c = Some e → Wantlist.cid e = c.
Proof. intros [_ [Hk _]] He. by apply Hk. Qed.

Lemma entries_elem p l e :
  inv p l → e ∈ (entries l).1 ↔ view l !! Wantlist.cid e = Some e.
Proof.
  intros Hi. destruct Hi as [_ Hw]. pose proof (Wantlist.entries_of_inv _ Hw) as [Hp _].
  unfold entries. destruct (Wantlist.entries (wantlist l)) as [es w] eqn:E. simpl in *. rewrite Hp.
  rewrite list_elem_of_fmap. split.
  - intros ([c e'] & -> & He'%elem_of_map_to_list). simpl.
    destruct Hw as [Hk _]. by rewrite (Hk _ _ He').
  - intros He. exists (Wantlist.cid e, e). split; [done|]. by apply elem_of_map_to_list.
Qed.
End ledger.
End Ledger.

Module PeerLedger.
Section peer_ledger.
  Context {ids : Ids}.

Record PeerLedger := mk { cids : gmap Cid (gset PeerId) }.
Definition default : PeerLedger := mk ∅.

Definition wants (p : PeerId) (c : Cid) (l : PeerLedger) : PeerLedger :=
  mk (entry_or ∅ (λ s, {[p]} ∪ s) c (cids l)).

Definition cancel_want (p : PeerId) (c : Cid) (l : PeerLedger) : PeerLedger :=
  match cids l !! c with
  | Some ps =>
      let ps := ps ∖ {[p]} in
      mk (if bool_decide (ps = ∅) then delete c (cids l) else <[c := ps]> (cids l))
  | None => l
  end.

Definition peers (c : Cid) (l : PeerLedger) : option (gset PeerId) := cids l !! c.

(** ** A relation between peers and blocks *)
Definition waiting (l : PeerLedger) (p : PeerId) (c : Cid) : Prop :=
  ∃ ps, peers c l = Some ps ∧ p ∈ ps.

#[global] Instance waiting_dec l p c : Decision (waiting l p c).
Proof.
  refine (match peers c l as o return (peers c l = o → _) with
          | Some ps => λ E, cast_if (decide (p ∈ ps))
          | None => λ E, right _
          end eq_refl); unfold waiting; rewrite E; naive_solver.
Defined.

(** There is no entry without peers. *)
Definition inv (l : PeerLedger) : Prop := ∀ c, peers c l ≠ Some ∅.

Lemma waiting_wants l p c p' c' :
  waiting (wants p c l) p' c' ↔ (p' = p ∧ c' = c) ∨ waiting l p' c'.
Proof.
  unfold waiting, peers, wants; simpl. destruct (decide (c' = c)) as [->|Hc].
  - rewrite lookup_entry_or. destruct (cids l !! c) as [ps|]; simpl; split.
    + intros (? & [= <-] & [?%elem_of_singleton|?]%elem_of_union); naive_solver.
    + intros [[-> _]|(? & [= <-] & Hp)]; eexists; (split; [done|]); set_solver.
    + intros (? & [= <-] & [?%elem_of_singleton|?]%elem_of_union); set_solver.
    + intros [[-> _]|(? & [=] & Hp)]. eexists; (split; [done|]); set_solver.
  - rewrite lookup_entry_or_ne by done. naive_solver.
Qed.

Lemma waiting_cancel l p c p' c' :
  waiting (cancel_want p c l) p' c' ↔ waiting l p' c' ∧ ¬ (p' = p ∧ c' = c).
Proof.
  unfold waiting, peers, cancel_want. destruct (cids l !! c) as [ps|] eqn:E; simpl.
  - destruct (decide (c' = c)) as [->|Hc].
    + rewrite E. case_bool_decide as Hps.
      * rewrite lookup_delete_eq. split; [naive_solver|]. intros [(? & [= <-] & Hp) Hn].
        set_solver.
      * rewrite lookup_insert_eq. split.
        -- intros (? & [= <-] & [? ?]%elem_of_difference). set_solver.
        -- intros [(? & [= <-] & Hp) Hn]. eexists; (split; [done|]). set_solver.
    + case_bool_decide; [rewrite lookup_delete_ne by done|rewrite lookup_insert_ne by done];
        naive_solver.
  - destruct (decide (c' = c)) as [->|Hc]; [rewrite E|]; naive_solver.
Qed.

Lemma wants_peers_inv p c l : inv l → inv (wants p c l).
Proof.
  intros Hl c'. unfold peers, wants; simpl. destruct (decide (c' = c)) as [->|Hc].
  - rewrite lookup_entry_or. intros [=]. set_solver.
  - rewrite lookup_entry_or_ne by done. apply Hl.
Qed.

Lemma cancel_peers_inv p c l : inv l → inv (cancel_want p c l).
Proof.
  intros Hl c'. unfold peers, cancel_want. destruct (cids l !! c) as [ps|] eqn:E; [|apply Hl]. simpl.
  destruct (decide (c' = c)) as [->|Hc]; case_bool_decide;
    rewrite ?lookup_delete_eq, ?lookup_insert_eq, ?lookup_delete_ne, ?lookup_insert_ne by done;
    [done|congruence|apply Hl|apply Hl].
Qed.

(** Cancelling several wants of one peer. *)
Definition cancel_all (p : PeerId) (cs : list Cid) (l : PeerLedger) : PeerLedger :=
  foldl (λ l c, cancel_want p c l) l cs.

Lemma waiting_cancel_all cs l p p' c' :
  waiting (cancel_all p cs l) p' c' ↔ waiting l p' c' ∧ ¬ (p' = p ∧ c' ∈ cs).
Proof.
  revert l. induction cs as [|c cs IH]; intros l; simpl; [set_solver|].
  rewrite IH, waiting_cancel. set_solver.
Qed.

Lemma cancel_all_inv cs l p : inv l → inv (cancel_all p cs l).
Proof. revert l. induction cs; intros l Hl; simpl; auto using cancel_peers_inv. Qed.

Definition wants_all (p : PeerId) (cs : list Cid) (l : PeerLedger) : PeerLedger :=
  foldl (λ l c, wants p c l) l cs.

Lemma waiting_wants_all cs l p p' c' :
  waiting (wants_all p cs l) p' c' ↔ (p' = p ∧ c' ∈ cs) ∨ waiting l p' c'.
Proof.
  revert l. induction cs as [|c cs IH]; intros l; simpl; [set_solver|].
  rewrite IH, waiting_wants. set_solver.
Qed.

Lemma wants_all_inv cs l p : inv l → inv (wants_all p cs l).
Proof. revert l. induction cs; intros l Hl; simpl; auto using wants_peers_inv. Qed.
End peer_ledger.
End PeerLedger.

Module ScoreLedger.
Section score_ledger.
  Context {ids : Ids}.

(** [u64] counters; the scores and the time of the last exchange only feed the
    peer tagger, which the engine leaves empty. *)
Record IndividualScoreLedger := mk {
  partner : PeerId;
  bytes_sent : Z;
  bytes_recv : Z;
  last_exchange : Z;
  exchange_count : Z;
}.

Definition IndividualScoreLedger_new (now : Z) (partner : PeerId) : IndividualScoreLedger :=
  mk partner 0 0 now 0.

Definition sent_bytes (now n : Z) (l : IndividualScoreLedger) : outcome IndividualScoreLedger :=
  count ← u64_add (exchange_count l) 1;
  sent ← u64_add (bytes_sent l) n;
  mret (mk (partner l) sent (bytes_recv l) now count).

Definition recv_bytes (now n : Z) (l : IndividualScoreLedger) : outcome IndividualScoreLedger :=
  count ← u64_add (exchange_count l) 1;
  recv ← u64_add (bytes_recv l) n;
  mret (mk (partner l) (bytes_sent l) recv now count).

(** [DefaultScoreLedger]: the map of its shared state. *)
Notation ledgers := (gmap PeerId IndividualScoreLedger).

Definition or_new (now : Z) (p : PeerId) (m : ledgers) : IndividualScoreLedger :=
  default (IndividualScoreLedger_new now p) (m !! p).

Definition add_to_sent_bytes (now : Z) (p : PeerId) (n : Z) (m : ledgers) : outcome ledgers :=
  l ← sent_bytes now n (or_new now p m); mret (<[p := l]> m).

Definition add_to_recv_bytes (now : Z) (p : PeerId) (n : Z) (m : ledgers) : outcome ledgers :=
  l ← recv_bytes now n (or_new now p m); mret (<[p := l]> m).

Definition peer_connected (now : Z) (p : PeerId) (m : ledgers) : ledgers :=
  <[p := or_new now p m]> m.

Definition peer_disconnected (p : PeerId) (m : ledgers) : ledgers := delete p m.

(** The integers of a [Receipt]. *)
Record Receipt := mk_receipt { receipt_peer : PeerId; sent : Z; recv : Z; exchanged : Z }.
Definition receipt (p : PeerId) (m : ledgers) : option Receipt :=
  (λ l, mk_receipt (partner l) (bytes_sent l) (bytes_recv l) (exchange_count l)) <$> m !! p.

(** ** Accounting *)
Definition sent_to (m : ledgers) (p : PeerId) : Z := from_option bytes_sent 0%Z (m !! p).
Definition recv_from (m : ledgers) (p : PeerId) : Z := from_option bytes_recv 0%Z (m !! p).
Definition exchanges (m : ledgers) (p : PeerId) : Z := from_option exchange_count 0%Z (m !! p).

Definition inv (m : ledgers) : Prop :=
  map_Forall (λ p l, partner l = p ∧ 0 ≤ bytes_sent l ∧ 0 ≤ bytes_recv l ∧ 0 ≤ exchange_count l)%Z m.

Lemma or_new_inv now p m : inv m →
  let l := or_new now p m in
  (partner l = p ∧ 0 ≤ bytes_sent l ∧ 0 ≤ bytes_recv l ∧ 0 ≤ exchange_count l)%Z.
Proof. intros Hm. unfold or_new. destruct (m !! p) eqn:E; simpl; [by apply Hm|done]. Qed.

(** One block was sent: the counters of its receiver grow, no other ledger changes. *)
Lemma add_to_sent_bytes_ok now p n m :
  inv m → (0 ≤ n)%Z → (sent_to m p + n ≤ usize_max)%Z → (exchanges m p + 1 ≤ usize_max)%Z →
  ∃ m', add_to_sent_bytes now p n m = Done m' ∧ inv m' ∧
    sent_to m' p = (sent_to m p + n)%Z ∧ recv_from m' p = recv_from m p ∧
    exchanges m' p = (exchanges m p + 1)%Z ∧ ∀ p', p' ≠ p → m' !! p' = m !! p'.
Proof.
  intros Hm Hn Hs He. pose proof (or_new_inv now p m Hm) as Hl. simpl in Hl.
  assert (sent_to m p = bytes_sent (or_new now p m) ∧ recv_from m p = bytes_recv (or_new now p m)
    ∧ exchanges m p = exchange_count (or_new now p m)) as (Es & Er & Ee).
  { unfold sent_to, recv_from, exchanges, or_new. by destruct (m !! p). }
  rewrite Es in Hs. rewrite Ee in He.
  unfold add_to_sent_bytes, sent_bytes, u64_add.
  rewrite checked_ok by lia. simpl. rewrite checked_ok by lia. simpl.
  eexists. split; [done|]. split_and!.
  - apply map_Forall_insert_2; [simpl; lia || naive_solver lia|done].
  - rewrite Es. unfold sent_to. rewrite lookup_insert_eq. done.
  - rewrite Er. unfold recv_from. rewrite lookup_insert_eq. done.
  - rewrite Ee. unfold exchanges. rewrite lookup_insert_eq. done.
  - intros p' Hp. by rewrite lookup_insert_ne.
Qed.

Lemma add_to_recv_bytes_ok now p n m :
  inv m → (0 ≤ n)%Z → (recv_from m p + n ≤ usize_max)%Z → (exchanges m p + 1 ≤ usize_max)%Z →
  ∃ m', add_to_recv_bytes now p n m = Done m' ∧ inv m' ∧
    recv_from m' p = (recv_from m p + n)%Z ∧ sent_to m' p = sent_to m p ∧
    exchanges m' p = (exchanges m p + 1)%Z ∧ ∀ p', p' ≠ p → m' !! p' = m !! p'.
Proof.
  intros Hm Hn Hs He. pose proof (or_new_inv now p m Hm) as Hl. simpl in Hl.
  assert (sent_to m p = bytes_sent (or_new now p m) ∧ recv_from m p = bytes_recv (or_new now p m)
    ∧ exchanges m p = exchange_count (or_new now p m)) as (Es & Er & Ee).
  { unfold sent_to, recv_from, exchanges, or_new. by destruct (m !! p). }
  rewrite Er in Hs. rewrite Ee in He.
  unfold add_to_recv_bytes, recv_bytes, u64_add.
  rewrite checked_ok by lia. simpl. rewrite checked_ok by lia. simpl.
  eexists. split; [done|]. split_and!.
  - apply map_Forall_insert_2; [simpl; lia || naive_solver lia|done].
  - rewrite Er. unfold recv_from. rewrite lookup_insert_eq. done.
  - rewrite Es. unfold sent_to. rewrite lookup_insert_eq. done.
  - rewrite Ee. unfold exchanges. rewrite lookup_insert_eq. done.
  - intros p' Hp. by rewrite lookup_insert_ne.
Qed.

Lemma score_connected_inv now p m : inv m → inv (peer_connected now p m).
Proof. intros Hm. apply map_Forall_insert_2; [by apply or_new_inv|done]. Qed.
Lemma score_disconnected_inv p m : inv m → inv (peer_disconnected p m).
Proof. apply map_Forall_delete. Qed.
End score_ledger.
End ScoreLedger.
