(* ===== verification/Engine.v ===== *)
(** * The decision engine of the bitswap server

    packages/beetle-bitswap-next/src/server/decision.rs with
    blockstore_manager.rs and the sending loop of server.rs: what peers want,
    the tasks that answer them, the workers that turn tasks into messages and
    the bookkeeping when a message was sent.

    A handler is one transition of the engine here; [EngineLocks.v] is about the
    locks that the handlers take. *)
From stdpp Require Import base gmap list.
From Stdlib Require Import Strings.Byte.
From S2P Require Import Prelude KeyedPriorityQueue Wantlist PeerTracker TaskMerger PeerTaskQueue.
From S2P Require Import Protobuf BitswapPb BitswapMessage Ledger.

Module Engine.
Import PeerTask.
Section engine.
  Context {ids : Ids} {cc : CidCodec} {cp : CidParts} {qp : QuickProtobuf} {ho : HashOrder}.
  Notation TaskData := TaskMerger.TaskData.
  Notation Block := BitswapMessage.Block.
  Notation Message := BitswapMessage.BitswapMessage.
  Notation Entry := BitswapMessage.Entry.
  Context {kpq : KeyedPriorityQueue Cid (QueueTask Cid TaskData) QueueTask_cmp}.
  Notation PeerTracker := (PeerTracker.PeerTracker (T := Cid) (D := TaskData)).
  Context {pkpq : KeyedPriorityQueue PeerId PeerTracker PeerTracker.PeerTracker_cmp}.
  Notation Queue := (PeerTaskQueue.Inner (T := Cid) (D := TaskData)).

(** The trait [Store] (lib.rs), as it answers at the time of a call. *)
Record Store := mkStore { get_size : Cid → option Z; get : Cid → option Block }.

(** ** blockstore_manager.rs *)
Definition collect_found {A} (f : Cid → option A) (keys : list Cid) : gmap Cid A :=
  foldl (λ res c, match f c with Some a => <[c := a]> res | None => res end) ∅ keys.
Definition get_block_sizes (s : Store) (keys : list Cid) : result (gmap Cid Z) unit :=
  Ok (collect_found (get_size s) keys).
Definition get_blocks (s : Store) (keys : list Cid) : result (gmap Cid Block) unit :=
  Ok (collect_found (get s) keys).

(** ** The state *)
Record Envelope := mkEnvelope {
  env_peer : PeerId;
  message : Message;
  sent_tasks : list (Task Cid TaskData);
}.

Record Engine := mkEngine {
  peer_task_queue : Queue;
  outbox : list Envelope;
  ledger_map : gmap PeerId Ledger.Ledger;
  peer_ledger : PeerLedger.PeerLedger;
  score_ledger : gmap PeerId ScoreLedger.IndividualScoreLedger;
  max_block_size_replace_has_with_block : Z;
  send_dont_haves : bool;
  metrics_update_counter : Z;
  peer_block_request_filter : option (PeerId → Cid → bool);
  (** The stored permit of the [Notify]. *)
  work_signal : bool;
}.

Record Config := mkConfig {
  cfg_filter : option (PeerId → Cid → bool);
  cfg_send_dont_haves : bool;
  cfg_max_outstanding_bytes_per_peer : Z;
  cfg_max_replace_size : Z;
}.
Definition Config_default : Config := mkConfig None true (2 ^ 20) 1024.

Definition new (c : Config) : Engine :=
  mkEngine
    (PeerTaskQueue.add_hook (PeerTaskQueue.new true (cfg_max_outstanding_bytes_per_peer c)))
    [] ∅ PeerLedger.default ∅ (cfg_max_replace_size c) (cfg_send_dont_haves c) 0 (cfg_filter c) false.

Definition with_queue (q : Queue) (e : Engine) : Engine :=
  mkEngine q (outbox e) (ledger_map e) (peer_ledger e) (score_ledger e)
    (max_block_size_replace_has_with_block e) (send_dont_haves e) (metrics_update_counter e)
    (peer_block_request_filter e) (work_signal e).
Definition with_outbox (o : list Envelope) (e : Engine) : Engine :=
  mkEngine (peer_task_queue e) o (ledger_map e) (peer_ledger e) (score_ledger e)
    (max_block_size_replace_has_with_block e) (send_dont_haves e) (metrics_update_counter e)
    (peer_block_request_filter e) (work_signal e).
Definition with_ledgers (m : gmap PeerId Ledger.Ledger) (l : PeerLedger.PeerLedger) (e : Engine) : Engine :=
  mkEngine (peer_task_queue e) (outbox e) m l (score_ledger e)
    (max_block_size_replace_has_with_block e) (send_dont_haves e) (metrics_update_counter e)
    (peer_block_request_filter e) (work_signal e).
Definition with_scores (s : gmap PeerId ScoreLedger.IndividualScoreLedger) (e : Engine) : Engine :=
  mkEngine (peer_task_queue e) (outbox e) (ledger_map e) (peer_ledger e) s
    (max_block_size_replace_has_with_block e) (send_dont_haves e) (metrics_update_counter e)
    (peer_block_request_filter e) (work_signal e).
Definition with_counter (n : Z) (e : Engine) : Engine :=
  mkEngine (peer_task_queue e) (outbox e) (ledger_map e) (peer_ledger e) (score_ledger e)
    (max_block_size_replace_has_with_block e) (send_dont_haves e) n
    (peer_block_request_filter e) (work_signal e).
Definition signal_new_work (e : Engine) : Engine :=
  mkEngine (peer_task_queue e) (outbox e) (ledger_map e) (peer_ledger e) (score_ledger e)
    (max_block_size_replace_has_with_block e) (send_dont_haves e) (metrics_update_counter e)
    (peer_block_request_filter e) true.

Definition update_metrics (e : Engine) : outcome Engine :=
  counter ← usize_add (metrics_update_counter e) 1;
  let e := with_counter counter e in
  if bool_decide (counter `mod` 100 = 0)%Z
  then _ ← PeerTaskQueue.stats (peer_task_queue e); mret e
  else mret e.

Definition find_or_create (p : PeerId) (m : gmap PeerId Ledger.Ledger) : Ledger.Ledger :=
  default (Ledger.new p) (m !! p).

Definition send_as_block (e : Engine) (t : WantType) (block_size : Z) : bool :=
  bool_decide (t = Wantlist.Block)
  || bool_decide (block_size ≤ max_block_size_replace_has_with_block e)%Z.

Definition wantlist_for_peer (p : PeerId) (e : Engine) : list Wantlist.Entry * Engine :=
  let '(es, l) := Ledger.entries (find_or_create p (ledger_map e)) in
  (es, with_ledgers (<[p := l]> (ledger_map e)) (peer_ledger e) e).

Definition peers (e : Engine) : gset PeerId := dom (ledger_map e).

(** ** Messages from peers *)
Fixpoint split_wants (e : Engine) (p : PeerId) (es : list Entry) :
    list Entry * list Entry * list Entry :=
  match es with
  | [] => ([], [], [])
  | x :: es =>
      let '(wants, cancels, denials) := split_wants e p es in
      if BitswapMessage.cancel x then (wants, x :: cancels, denials)
      else match peer_block_request_filter e with
           | Some filter =>
               if filter p (BitswapMessage.cid x) then (x :: wants, cancels, denials)
               else (wants, cancels, x :: denials)
           | None => (x :: wants, cancels, denials)
           end
  end.

Fixpoint process_cancels (p : PeerId) (cancels : list Entry) (l : Ledger.Ledger) (q : Queue) :
    outcome (Ledger.Ledger * Queue) :=
  match cancels with
  | [] => mret (l, q)
  | x :: cancels =>
      let '(o, l) := Ledger.cancel_want (BitswapMessage.cid x) l in
      match o with
      | Some _ =>
          q ← PeerTaskQueue.remove (BitswapMessage.cid x) p q;
          process_cancels p cancels l q
      | None => process_cancels p cancels l q
      end
  end.

(** The closure [send_dont_have]. *)
Definition dont_have_task (e : Engine) (x : Entry) : list (Task Cid TaskData) :=
  if send_dont_haves e && BitswapMessage.send_dont_have x then
    [mk_task (BitswapMessage.cid x) (BitswapMessage.priority x)
       (BitswapMessage.encoded_len_for_cid (BitswapMessage.cid x))
       (TaskMerger.mk (bool_decide (BitswapMessage.want_type x = Wantlist.Block))
          (BitswapMessage.send_dont_have x) 0 false)]
  else [].

(** The loops over [denials] and [wants] share the list of tasks and the flag
    [new_work_exists]. *)
Record Work := mkWork { active_entries : list (Task Cid TaskData); new_work_exists : bool }.
Definition add_tasks (ts : list (Task Cid TaskData)) (w : Work) : Work :=
  mkWork (active_entries w ++ ts) (match ts with [] => new_work_exists w | _ => true end).

Definition process_denials (e : Engine) (p : PeerId) (denials : list Entry)
    (st : Work * PeerLedger.PeerLedger) : Work * PeerLedger.PeerLedger :=
  foldl (λ '(w, pl) x, (add_tasks (dont_have_task e x) w,
                        PeerLedger.cancel_want p (BitswapMessage.cid x) pl)) st denials.

Definition found_task (e : Engine) (x : Entry) (block_size : Z) : Task Cid TaskData :=
  let is_want_block := send_as_block e (BitswapMessage.want_type x) block_size in
  mk_task (BitswapMessage.cid x) (BitswapMessage.priority x)
    (if is_want_block then block_size
     else BitswapMessage.encoded_len_for_cid (BitswapMessage.cid x))
    (TaskMerger.mk is_want_block (BitswapMessage.send_dont_have x) block_size true).

Definition process_want (e : Engine) (p : PeerId) (sizes : gmap Cid Z)
    (st : Ledger.Ledger * Work * PeerLedger.PeerLedger) (x : Entry) :
    Ledger.Ledger * Work * PeerLedger.PeerLedger :=
  let '(l, w, pl) := st in
  let l := Ledger.wants (BitswapMessage.cid x) (BitswapMessage.priority x)
             (BitswapMessage.want_type x) l in
  match sizes !! BitswapMessage.cid x with
  | Some block_size => (l, add_tasks [found_task e x block_size] w, pl)
  | None => (l, add_tasks (dont_have_task e x) w,
             PeerLedger.cancel_want p (BitswapMessage.cid x) pl)
  end.

Definition message_received (now : Z) (s : Store) (p : PeerId) (m : Message) (e : Engine) :
    outcome Engine :=
  let '(wants, cancels, denials) := split_wants e p (iter_values (BitswapMessage.wantlist m)) in
  let want_ks := iter_set (list_to_set (BitswapMessage.cid <$> wants) : gset Cid) in
  match get_block_sizes s want_ks with
  | Err _ => mret e
  | Ok block_sizes =>
      let pl := PeerLedger.wants_all p (BitswapMessage.cid <$> wants) (peer_ledger e) in
      let pl := PeerLedger.cancel_all p (BitswapMessage.cid <$> cancels) pl in
      let ledger := find_or_create p (ledger_map e) in
      let ledger := if BitswapMessage.full m then Ledger.clear_wantlist ledger else ledger in
      '(ledger, q) ← process_cancels p cancels ledger (peer_task_queue e);
      let '(w, pl) := process_denials e p denials (mkWork [] false, pl) in
      let '(ledger, w, pl) := foldl (process_want e p block_sizes) (ledger, w, pl) wants in
      let e := with_ledgers (<[p := ledger]> (ledger_map e)) pl (with_queue q e) in
      e ← match active_entries w with
          | [] => mret e
          | ts => update_metrics (with_queue (PeerTaskQueue.push_tasks now p ts q) e)
          end;
      mret (if new_work_exists w then signal_new_work e else e)
  end.

(** ** Messages to peers *)
Fixpoint sent_blocks (now : Z) (bs : list Block) (l : Ledger.Ledger)
    (scores : gmap PeerId ScoreLedger.IndividualScoreLedger) :
    outcome (Ledger.Ledger * gmap PeerId ScoreLedger.IndividualScoreLedger) :=
  match bs with
  | [] => mret (l, scores)
  | b :: bs =>
      scores ← ScoreLedger.add_to_sent_bytes now (Ledger.partner l)
                 (vec_len (BitswapMessage.block_data b)) scores;
      sent_blocks now bs (Ledger.remove_type (BitswapMessage.block_cid b) Wantlist.Block l) scores
  end.

Definition sent_presences (ps : list BitswapMessage.BlockPresence) (l : Ledger.Ledger) : Ledger.Ledger :=
  foldl (λ l bp,
    match BitswapMessage.typ bp with
    | BitswapMessage.Have =>
        Ledger.remove_type (BitswapMessage.presence_cid bp) Wantlist.Have l
    | BitswapMessage.DontHave => l
    end) l ps.

Definition message_sent (now : Z) (p : PeerId) (m : Message) (e : Engine) : outcome Engine :=
  let ledger := find_or_create p (ledger_map e) in
  '(ledger, scores) ← sent_blocks now (iter_values (BitswapMessage.blocks m)) ledger (score_ledger e);
  let ledger := sent_presences (BitswapMessage.presences m) ledger in
  mret (with_scores scores (with_ledgers (<[p := ledger]> (ledger_map e)) (peer_ledger e) e)).

Fixpoint recv_blocks (now : Z) (partner : PeerId) (bs : list Block)
    (scores : gmap PeerId ScoreLedger.IndividualScoreLedger) :
    outcome (gmap PeerId ScoreLedger.IndividualScoreLedger) :=
  match bs with
  | [] => mret scores
  | b :: bs =>
      scores ← ScoreLedger.add_to_recv_bytes now partner (vec_len (BitswapMessage.block_data b)) scores;
      recv_blocks now partner bs scores
  end.

Definition received_blocks (now : Z) (from : PeerId) (bs : list Block) (e : Engine) : outcome Engine :=
  match bs with
  | [] => mret e
  | _ =>
      let ledger := find_or_create from (ledger_map e) in
      let e := with_ledgers (<[from := ledger]> (ledger_map e)) (peer_ledger e) e in
      scores ← recv_blocks now (Ledger.partner ledger) bs (score_ledger e);
      mret (with_scores scores e)
  end.

(** ** New blocks *)

(** The state of the loops of [notify_new_blocks]. *)
Record Notified := mkNotified {
  engine : Engine;
  work_found : bool;
  missing_wants : gmap PeerId (list Cid);
}.

Definition missing (p : PeerId) (c : Cid) (st : Notified) : Notified :=
  mkNotified (engine st) (work_found st) (entry_or [] (λ cs, cs ++ [c]) p (missing_wants st)).

Definition notify_task (e : Engine) (sizes : gmap Cid Z) (c : Cid) (entry : Wantlist.Entry) :
    Task Cid TaskData :=
  let block_size := default 0%Z (sizes !! c) in
  let is_want_block := send_as_block e (Wantlist.want_type entry) block_size in
  mk_task (Wantlist.cid entry) (Wantlist.priority entry)
    (if is_want_block then block_size else BitswapMessage.encoded_len_for_cid c)
    (TaskMerger.mk is_want_block false block_size true).

Definition notify_peer (now : Z) (sizes : gmap Cid Z) (c : Cid) (p : PeerId) (st : Notified) :
    outcome Notified :=
  let e := engine st in
  match ledger_map e !! p with
  | None => mret (missing p c st)
  | Some l =>
      match Ledger.wantlist_get c l with
      | None => mret (missing p c st)
      | Some entry =>
          let q := PeerTaskQueue.push_task now p (notify_task e sizes c entry) (peer_task_queue e) in
          e ← update_metrics (with_queue q e);
          mret (mkNotified e true (missing_wants st))
      end
  end.

Fixpoint notify_peers (now : Z) (sizes : gmap Cid Z) (c : Cid) (ps : list PeerId) (st : Notified) :
    outcome Notified :=
  match ps with
  | [] => mret st
  | p :: ps => st ← notify_peer now sizes c p st; notify_peers now sizes c ps st
  end.

Fixpoint notify_blocks (now : Z) (sizes : gmap Cid Z) (bs : list Block) (st : Notified) :
    outcome Notified :=
  match bs with
  | [] => mret st
  | b :: bs =>
      let c := BitswapMessage.block_cid b in
      match PeerLedger.peers c (peer_ledger (engine st)) with
      | None => notify_blocks now sizes bs st
      | Some ps => st ← notify_peers now sizes c (iter_set ps) st; notify_blocks now sizes bs st
      end
  end.

(** The clean-up of one peer's missing wants. *)
Definition forget_missing (m : gmap PeerId Ledger.Ledger) (pl : PeerLedger.PeerLedger)
    (pw : PeerId * list Cid) : PeerLedger.PeerLedger :=
  match m !! pw.1 with
  | Some l =>
      foldl (λ pl c, match Ledger.wantlist_get c l with
                     | Some _ => pl
                     | None => PeerLedger.cancel_want pw.1 c pl
                     end) pl pw.2
  | None => foldl (λ pl c, PeerLedger.cancel_want pw.1 c pl) pl pw.2
  end.

Definition block_sizes (bs : list Block) : gmap Cid Z :=
  foldl (λ m b, <[BitswapMessage.block_cid b := vec_len (BitswapMessage.block_data b)]> m) ∅ bs.

Definition notify_new_blocks (now : Z) (bs : list Block) (e : Engine) : outcome Engine :=
  match bs with
  | [] => mret e
  | _ =>
      st ← notify_blocks now (block_sizes bs) bs (mkNotified e false ∅);
      let e := engine st in
      let e := with_ledgers (ledger_map e)
                 (foldl (forget_missing (ledger_map e)) (peer_ledger e) (iter_map (missing_wants st))) e in
      mret (if work_found st then signal_new_work e else e)
  end.

(** ** Connections *)
Definition peer_connected (now : Z) (p : PeerId) (e : Engine) : Engine :=
  with_scores (ScoreLedger.peer_connected now p (score_ledger e))
    (with_ledgers (<[p := find_or_create p (ledger_map e)]> (ledger_map e)) (peer_ledger e) e).

Definition peer_disconnected (p : PeerId) (e : Engine) : Engine :=
  let pl :=
    match ledger_map e !! p with
    | Some l => PeerLedger.cancel_all p (Wantlist.cid <$> (Ledger.entries l).1) (peer_ledger e)
    | None => peer_ledger e
    end in
  with_scores (ScoreLedger.peer_disconnected p (score_ledger e))
    (with_ledgers (delete p (ledger_map e)) pl e).

(** ** The workers *)

(** [pending_bytes as i32]. *)
Definition as_i32 (z : Z) : Z := ((z + 2 ^ 31) `mod` 2 ^ 32 - 2 ^ 31)%Z.

(** The loop that sorts the tasks into blocks to load, HAVEs and DONT_HAVEs. *)
Definition sort_task (st : Message * list Cid * gmap Cid (Task Cid TaskData)) (t : Task Cid TaskData) :
    Message * list Cid * gmap Cid (Task Cid TaskData) :=
  let '(msg, block_cids, block_tasks) := st in
  if TaskMerger.have_block (data t) then
    if TaskMerger.is_want_block (data t)
    then (msg, block_cids ++ [topic t], <[topic t := t]> block_tasks)
    else (BitswapMessage.add_have (topic t) msg, block_cids, block_tasks)
  else (BitswapMessage.add_dont_have (topic t) msg, block_cids, block_tasks).

Definition add_loaded (st : Message * gmap Cid Block) (ct : Cid * Task Cid TaskData) :
    Message * gmap Cid Block :=
  let '(msg, blocks) := st in
  match blocks !! ct.1 with
  | Some b => (BitswapMessage.add_block b msg, delete ct.1 blocks)
  | None =>
      ((if TaskMerger.send_dont_have (data ct.2) then BitswapMessage.add_dont_have ct.1 msg else msg),
       blocks)
  end.

(** The message for a batch of tasks; [None] when the blocks cannot be loaded. *)
Definition fill_message (s : Store) (pending_bytes : Z) (ts : list (Task Cid TaskData)) : option Message :=
  let msg := BitswapMessage.set_pending_bytes (as_i32 pending_bytes) (BitswapMessage.new false) in
  let '(msg, block_cids, block_tasks) := foldl sort_task (msg, [], ∅) ts in
  match get_blocks s block_cids with
  | Ok blocks => Some (foldl add_loaded (msg, blocks) (iter_map block_tasks)).1
  | Err _ => None
  end.

(** One tick of a worker. *)
Definition worker_tick (target_message_size : Z) (s : Store) (e : Engine) : outcome Engine :=
  '(o, q) ← PeerTaskQueue.pop_tasks target_message_size (peer_task_queue e);
  let e := with_queue q e in
  match o with
  | None => mret e
  | Some (_, [], _) => mret e
  | Some (p, next_tasks, pending_bytes) =>
      match fill_message s pending_bytes next_tasks with
      | None => mret e
      | Some msg =>
          if BitswapMessage.is_empty msg then
            q ← PeerTaskQueue.tasks_done p next_tasks q; mret (with_queue q e)
          else mret (with_outbox (outbox e ++ [mkEnvelope p msg next_tasks]) e)
      end
  end.

(** server.rs: a sender takes the next envelope, records it as sent, sends it
    (whether or not that succeeds) and completes its tasks. *)
Definition send_envelope (now : Z) (e : Engine) : outcome (option (PeerId * Message) * Engine) :=
  match outbox e with
  | [] => mret (None, e)
  | env :: rest =>
      e ← message_sent now (env_peer env) (message env) (with_outbox rest e);
      q ← PeerTaskQueue.tasks_done (env_peer env) (sent_tasks env) (peer_task_queue e);
      mret (Some (env_peer env, message env), signal_new_work (with_queue q e))
  end.
End engine.
End Engine.
