(* ===== verification/EngineReceive.v ===== *)
(** * Receiving messages in the decision engine

    The invariant of the engine of [Engine.v], and what [message_received] does
    with the entries of a message. *)
From stdpp Require Import base gmap list.
From Stdlib Require Import Strings.Byte.
From S2P Require Import Prelude KeyedPriorityQueue Wantlist PeerTracker TaskMerger PeerTaskQueue.
From S2P Require Import Protobuf BitswapPb BitswapMessage Ledger Engine.

Module EngineReceive.
Import PeerTask Engine.
Section engine.
  Context {ids : Ids} {cc : CidCodec} {cp : CidParts} {qp : QuickProtobuf} {ho : HashOrder}.
  Notation TaskData := TaskMerger.TaskData.
  Notation Block := BitswapMessage.Block.
  Notation Message := BitswapMessage.BitswapMessage.
  Notation Entry := BitswapMessage.Entry.
  Context {kpq : KeyedPriorityQueue Cid (QueueTask Cid TaskData) QueueTask_cmp}.
  Notation PeerTracker := (PeerTracker.PeerTracker (T := Cid) (D := TaskData)).
  Context {pkpq : KeyedPriorityQueue PeerId PeerTracker PeerTracker.PeerTracker_cmp}.
  Notation Queue := (PeerTaskQueue.Inner (T := Cid) (D := TaskData)).

(** ** The contract of [message_received] *)
Inductive verdict := Wanted | Cancelled | Denied.
#[local] Instance verdict_eq_dec : EqDecision verdict.
Proof. solve_decision. Defined.

Definition classify (e : Engine) (p : PeerId) (x : Entry) : verdict :=
  if BitswapMessage.cancel x then Cancelled
  else match peer_block_request_filter e with
       | Some f => if f p (BitswapMessage.cid x) then Wanted else Denied
       | None => Wanted
       end.

Definition judged (e : Engine) (p : PeerId) (v : verdict) (es : list Entry) : list Entry :=
  filter (λ x, classify e p x = v) es.

Lemma split_wants_eq e p es :
  split_wants e p es = (judged e p Wanted es, judged e p Cancelled es, judged e p Denied es).
Proof.
  unfold judged. induction es as [|x es IH]; simpl; [done|]. rewrite IH, !filter_cons.
  unfold classify. destruct (BitswapMessage.cancel x); [done|].
  destruct (peer_block_request_filter e) as [f|]; [|done]. by destruct (f p _).
Qed.

(** The entries of a message, each under its own identifier. *)
Definition keyed (m : Message) : Prop :=
  map_Forall (λ c x, BitswapMessage.cid x = c) (BitswapMessage.wantlist m).
Definition entries_of (m : Message) : list Entry := iter_values (BitswapMessage.wantlist m).

Lemma elem_of_judged e p v m x :
  keyed m → x ∈ judged e p v (entries_of m) ↔
    BitswapMessage.wantlist m !! BitswapMessage.cid x = Some x ∧ classify e p x = v.
Proof.
  intros Hk. unfold judged, entries_of. rewrite list_elem_of_filter, elem_of_iter_values. split.
  - intros [Hv [c Hc]]. by rewrite (Hk _ _ Hc).
  - intros [Hc Hv]. eauto.
Qed.

Lemma elem_of_judged_cids e p v m c :
  keyed m → c ∈ BitswapMessage.cid <$> judged e p v (entries_of m) ↔
    ∃ x, BitswapMessage.wantlist m !! c = Some x ∧ classify e p x = v.
Proof.
  intros Hk. rewrite list_elem_of_fmap. split.
  - intros (x & -> & [Hx Hv]%elem_of_judged); [eauto|done].
  - intros (x & Hx & Hv). exists x. pose proof (Hk _ _ Hx) as Hc. simpl in Hc.
    rewrite elem_of_judged by done. by rewrite Hc.
Qed.

Lemma NoDup_judged e p v m : keyed m → NoDup (BitswapMessage.cid <$> judged e p v (entries_of m)).
Proof.
  intros Hk. pose proof (BitswapMessage.NoDup_keyed BitswapMessage.cid _ Hk) as Hn.
  unfold judged, entries_of. induction (iter_values (BitswapMessage.wantlist m)) as [|x l IH]; [constructor|].
  rewrite fmap_cons in Hn. apply NoDup_cons in Hn as [Hx Hn]. rewrite filter_cons.
  case_decide; [|auto]. rewrite fmap_cons. constructor; [|auto].
  intros (y & Hy & [_ Hin]%list_elem_of_filter)%list_elem_of_fmap. apply Hx. rewrite Hy.
  by apply list_elem_of_fmap_2.
Qed.

(** *** Cancelled wants *)
Definition cancel_pending (ks : list Cid) (tr : PeerTracker) : PeerTracker :=
  foldl (λ tr k, (PeerTracker.remove k tr).2) tr ks.

Lemma pending_remove k (tr : PeerTracker) :
  PeerTracker.pending_map (PeerTracker.remove k tr).2 = delete k (PeerTracker.pending_map tr) ∧
  PeerTracker.active_tasks (PeerTracker.remove k tr).2 = PeerTracker.active_tasks tr.
Proof.
  unfold PeerTracker.remove, PeerTracker.pending_map.
  destruct (kpq_remove k (PeerTracker.pending_tasks tr)) as [o q] eqn:E. simpl.
  by destruct (remove_eq _ _ _ _ E) as [_ ->].
Qed.

Lemma pending_cancel ks (tr : PeerTracker) k :
  PeerTracker.pending_map (cancel_pending ks tr) !! k =
    (if decide (k ∈ ks) then None else PeerTracker.pending_map tr !! k) ∧
  PeerTracker.active_tasks (cancel_pending ks tr) = PeerTracker.active_tasks tr.
Proof.
  revert tr. induction ks as [|j ks IH]; intros tr; simpl; [done|].
  destruct (IH (PeerTracker.remove j tr).2) as [-> ->].
  destruct (pending_remove j tr) as [-> ->]. split; [|done].
  destruct (decide (k = j)) as [->|Hne].
  - rewrite lookup_delete_eq. by repeat case_decide; set_solver.
  - rewrite lookup_delete_ne by done. repeat case_decide; set_solver.
Qed.

(** The cancelled wants that the ledger knew. *)
Definition known (l : Ledger.Ledger) (cs : list Cid) : list Cid :=
  filter (λ c, is_Some (Ledger.view l !! c)) cs.

Lemma process_cancels_ok p cancels l q :
  NoDup (BitswapMessage.cid <$> cancels) →
  Ledger.inv p l → PeerTaskQueue.inv q → PeerTaskQueue.ignore_freezing q = true →
  ∃ l' q', process_cancels p cancels l q = Done (l', q') ∧ Ledger.inv p l' ∧
    PeerTaskQueue.inv q' ∧ PeerTaskQueue.ignore_freezing q' = true ∧
    PeerTaskQueue.trackers q' =
      alter (cancel_pending (known l (BitswapMessage.cid <$> cancels))) p (PeerTaskQueue.trackers q) ∧
    PeerTaskQueue.max_outstanding_work_per_peer q' = PeerTaskQueue.max_outstanding_work_per_peer q ∧
    ∀ c, Ledger.view l' !! c =
      if decide (c ∈ BitswapMessage.cid <$> cancels) then None else Ledger.view l !! c.
Proof.
  revert l q. induction cancels as [|x xs IH]; intros l q Hnd Hl Hq Hig; cbn [process_cancels].
  { exists l, q. split_and!; try done. by rewrite alter_id. }
  rewrite fmap_cons in Hnd. apply NoDup_cons in Hnd as [Hx Hnd].
  set (c0 := BitswapMessage.cid x) in *.
  pose proof (Ledger.cancel_want_inv p c0 l Hl) as Hl'.
  pose proof (Ledger.cancel_value c0 l) as Hval. pose proof (Ledger.view_cancel c0 l) as Hview.
  destruct (Ledger.cancel_want c0 l) as [o l1]. cbn [fst snd] in *.
  assert (∀ q1, PeerTaskQueue.inv q1 → PeerTaskQueue.ignore_freezing q1 = true →
    ∃ l' q', process_cancels p xs l1 q1 = Done (l', q') ∧ Ledger.inv p l' ∧
      PeerTaskQueue.inv q' ∧ PeerTaskQueue.ignore_freezing q' = true ∧
      PeerTaskQueue.trackers q' =
        alter (cancel_pending (known l (BitswapMessage.cid <$> xs))) p (PeerTaskQueue.trackers q1) ∧
      PeerTaskQueue.max_outstanding_work_per_peer q' = PeerTaskQueue.max_outstanding_work_per_peer q1 ∧
      ∀ c, Ledger.view l' !! c =
        if decide (c ∈ c0 :: (BitswapMessage.cid <$> xs)) then None else Ledger.view l !! c) as Hrest.
  { intros q1 Hq1 Hig1. destruct (IH l1 q1 Hnd Hl' Hq1 Hig1) as (l' & q' & Hrun & ? & ? & ? & Ht & Hm & Hv).
    exists l', q'. split_and!; try done.
    - rewrite Ht. do 2 f_equal. unfold known. apply filter_agree. intros c Hc. rewrite Hview.
      rewrite lookup_delete_ne; [done|set_solver].
    - intros c. rewrite Hv, Hview. destruct (decide (c = c0)) as [->|Hne].
      + rewrite lookup_delete_eq. rewrite (decide_True (P := c0 ∈ c0 :: _)) by set_solver.
        by case_decide.
      + rewrite lookup_delete_ne by done. repeat case_decide; set_solver. }
  destruct o as [en|].
  - destruct (PeerTaskQueue.remove_ignoring c0 p q Hig) as (q1 & Hrem & Ht1 & Hig1 & Hm1).
    rewrite Hrem. simpl.
    destruct (Hrest q1) as (l' & q' & Hrun & ? & ? & ? & Ht & Hm & Hv); [by eapply PeerTaskQueue.queue_remove_inv|done|].
    exists l', q'. split_and!; try done || congruence. rewrite Ht, Ht1.
    unfold known. rewrite filter_cons.
    rewrite decide_True by (fold c0; rewrite <-Hval; eauto). by rewrite alter_twice.
  - destruct (Hrest q Hq Hig) as (l' & q' & Hrun & ? & ? & ? & Ht & Hm & Hv).
    exists l', q'. split_and!; try done. rewrite Ht. unfold known. rewrite fmap_cons, filter_cons.
    rewrite decide_False; [done|]. fold c0. rewrite <-Hval. by intros [].
Qed.

(** *** Denied and wanted blocks *)
Definition work_ok (w : Work) : Prop := new_work_exists w = bool_decide (active_entries w ≠ []).

Lemma add_tasks_ok ts w : work_ok w → work_ok (add_tasks ts w).
Proof.
  unfold work_ok. intros Hw. destruct w as [as_ b], ts as [|t ts]; simpl in *.
  - by rewrite app_nil_r.
  - symmetry. apply bool_decide_eq_true_2. by destruct as_.
Qed.

Lemma process_denials_eq e p ds w pl :
  process_denials e p ds (w, pl) =
    (foldl (λ w x, add_tasks (dont_have_task e x) w) w ds,
     PeerLedger.cancel_all p (BitswapMessage.cid <$> ds) pl).
Proof. revert w pl. induction ds as [|x ds IH]; intros w pl; simpl; [done|]. apply IH. Qed.

(** What a wanted block is answered with, given the sizes of the blocks we have. *)
Definition want_answer (e : Engine) (f : Cid → option Z) (x : Entry) : list (Task Cid TaskData) :=
  match f (BitswapMessage.cid x) with
  | Some n => [found_task e x n]
  | None => dont_have_task e x
  end.

Definition want_all (xs : list Entry) (l : Ledger.Ledger) : Ledger.Ledger :=
  foldl (λ l x, Ledger.wants (BitswapMessage.cid x) (BitswapMessage.priority x)
                  (BitswapMessage.want_type x) l) l xs.

Lemma process_wants_eq e p sizes xs l w pl :
  foldl (process_want e p sizes) (l, w, pl) xs =
    (want_all xs l,
     foldl (λ w x, add_tasks (want_answer e (λ c, sizes !! c) x) w) w xs,
     PeerLedger.cancel_all p
       (BitswapMessage.cid <$> filter (λ x, sizes !! BitswapMessage.cid x = None) xs) pl).
Proof.
  revert l w pl. induction xs as [|x xs IH]; intros l w pl; [done|].
  cbn [foldl]. unfold process_want at 2. rewrite filter_cons. unfold want_answer at 2.
  destruct (sizes !! BitswapMessage.cid x) as [n|] eqn:E; rewrite IH.
  - by rewrite decide_False by congruence.
  - by rewrite decide_True by done.
Qed.

Lemma foldl_add_tasks (f : Entry → list (Task Cid TaskData)) xs w :
  work_ok w →
  work_ok (foldl (λ w x, add_tasks (f x) w) w xs) ∧
  active_entries (foldl (λ w x, add_tasks (f x) w) w xs) = active_entries w ++ (xs ≫= f).
Proof.
  revert w. induction xs as [|x xs IH]; intros w Hw; simpl; [by rewrite app_nil_r|].
  destruct (IH (add_tasks (f x) w)) as [? ->]; [by apply add_tasks_ok|].
  split; [done|]. simpl. by rewrite (assoc_L (++)).
Qed.

Lemma want_all_inv p xs l : Ledger.inv p l → Ledger.inv p (want_all xs l).
Proof.
  revert l. induction xs as [|x xs IH]; intros l Hl; simpl; [done|]. by apply IH, Ledger.wants_inv.
Qed.

Lemma view_want_all_ne xs l c :
  c ∉ BitswapMessage.cid <$> xs → Ledger.view (want_all xs l) !! c = Ledger.view l !! c.
Proof.
  revert l. induction xs as [|x xs IH]; intros l Hc; [done|].
  rewrite fmap_cons in Hc. cbn [want_all foldl].
  change (foldl _ ?a xs) with (want_all xs a). rewrite IH by set_solver.
  rewrite Ledger.view_wants. rewrite lookup_insert_ne; [done|set_solver].
Qed.

Lemma view_want_all xs l x :
  NoDup (BitswapMessage.cid <$> xs) → x ∈ xs →
  let c := BitswapMessage.cid x in
  Ledger.view (want_all xs l) !! c =
    Some (Ledger.upgrade c (BitswapMessage.priority x) (BitswapMessage.want_type x) (Ledger.view l !! c)).
Proof.
  simpl. revert l. induction xs as [|y xs IH]; intros l Hn Hx; [set_solver|].
  rewrite fmap_cons in Hn. apply NoDup_cons in Hn as [Hy Hn].
  apply elem_of_cons in Hx as [->|Hx]; cbn [want_all foldl].
  - change (foldl _ ?a xs) with (want_all xs a). rewrite view_want_all_ne by done.
    by rewrite Ledger.view_wants, lookup_insert_eq.
  - change (foldl _ ?a xs) with (want_all xs a). rewrite IH by done.
    rewrite Ledger.view_wants, lookup_insert_ne; [done|].
    intros Heq. apply Hy. rewrite Heq. by apply list_elem_of_fmap_2.
Qed.

Lemma collect_found_lookup {A} (f : Cid → option A) ks c :
  collect_found f ks !! c = if decide (c ∈ ks) then f c else None.
Proof.
  unfold collect_found.
  assert (∀ m : gmap Cid A,
    foldl (λ res c, match f c with Some a => <[c := a]> res | None => res end) m ks !! c =
    if decide (c ∈ ks) then match f c with Some a => Some a | None => m !! c end else m !! c) as Hgen.
  { induction ks as [|k ks IH]; intros m; simpl; [done|]. rewrite IH.
    destruct (decide (c = k)) as [->|Hne].
    - rewrite (decide_True (P := k ∈ k :: ks)) by set_solver.
      destruct (f k) eqn:E; [rewrite lookup_insert_eq|]; by case_decide.
    - assert (match f k with Some a => <[k := a]> m | None => m end !! c = m !! c) as ->.
      { destruct (f k); [by rewrite lookup_insert_ne|done]. }
      repeat case_decide; set_solver. }
  rewrite Hgen, lookup_empty. case_decide; [|done]. by destruct (f c).
Qed.

(** *** Invariant of the engine *)
Definition cid_ok (c : Cid) : Prop := (0 ≤ BitswapMessage.encoded_len_for_cid c ≤ usize_max)%Z.
Definition message_ok (m : Message) : Prop :=
  keyed m ∧ map_Forall (λ c _, cid_ok c) (BitswapMessage.wantlist m).
Definition store_ok (s : Store) : Prop := ∀ c n, get_size s c = Some n → (0 ≤ n ≤ usize_max)%Z.

Record inv (e : Engine) : Prop := {
  inv_queue : PeerTaskQueue.inv (peer_task_queue e);
  inv_ignore : PeerTaskQueue.ignore_freezing (peer_task_queue e) = true;
  inv_ledgers : map_Forall Ledger.inv (ledger_map e);
  inv_cids : map_Forall (λ _ l, map_Forall (λ c _, cid_ok c) (Ledger.view l)) (ledger_map e);
  inv_peers : PeerLedger.inv (peer_ledger e);
  inv_scores : ScoreLedger.inv (score_ledger e);
  inv_counter : (0 ≤ metrics_update_counter e)%Z;
}.

(** There is room for [n] more tasks in the counters of the statistics. *)
Definition room (n : Z) (e : Engine) : Prop :=
  (metrics_update_counter e + n ≤ usize_max)%Z ∧
  (PeerTaskQueue.load (peer_task_queue e) + n ≤ usize_max)%Z.

Lemma engine_new_inv c : inv (new c).
Proof.
  split; simpl; try done. apply PeerTaskQueue.add_hook_inv, PeerTaskQueue.queue_new_inv.
Qed.

Lemma signal_inv e : inv e → inv (signal_new_work e).
Proof. intros Hi. split; apply Hi. Qed.

Lemma update_metrics_ok e :
  (0 ≤ metrics_update_counter e)%Z → (metrics_update_counter e + 1 ≤ usize_max)%Z →
  (PeerTaskQueue.load (peer_task_queue e) ≤ usize_max)%Z →
  update_metrics e = Done (with_counter (metrics_update_counter e + 1) e).
Proof.
  intros H0 H1 Hl. unfold update_metrics. rewrite usize_add_ok by lia. simpl.
  case_bool_decide; [|done]. destruct (PeerTaskQueue.stats_ok _ Hl) as [st ->]. done.
Qed.

Lemma found_task_ok e x n : cid_ok (BitswapMessage.cid x) → (0 ≤ n ≤ usize_max)%Z → task_ok (found_task e x n).
Proof.
  intros Hc Hn. unfold task_ok, found_task, data_ok, TaskMerger.TaskData_range; simpl.
  split; [|done]. by destruct (send_as_block _ _ _).
Qed.

Lemma dont_have_task_ok e x : cid_ok (BitswapMessage.cid x) → Forall task_ok (dont_have_task e x).
Proof.
  intros Hc. unfold dont_have_task. destruct (_ && _); [|constructor].
  constructor; [|constructor]. split; [done|]. unfold data_ok, TaskMerger.TaskData_range. simpl.
  unfold usize_max. lia.
Qed.

Lemma ledger_of_inv e p : inv e → Ledger.inv p (find_or_create p (ledger_map e)).
Proof.
  intros Hi. unfold find_or_create. destruct (ledger_map e !! p) as [l|] eqn:E; simpl.
  - by apply (inv_ledgers _ Hi).
  - apply Ledger.ledger_new_inv.
Qed.

(** What peer [p] wants, as far as the engine knows. *)
Definition wanted (e : Engine) (p : PeerId) : gmap Cid Wantlist.Entry :=
  Ledger.view (find_or_create p (ledger_map e)).
Definition waiting (e : Engine) : PeerId → Cid → Prop := PeerLedger.waiting (peer_ledger e).
Definition tracker (e : Engine) (p : PeerId) : option PeerTracker :=
  PeerTaskQueue.trackers (peer_task_queue e) !! p.

Lemma wanted_cids e p : inv e → map_Forall (λ c _, cid_ok c) (wanted e p).
Proof.
  intros Hi. unfold wanted, find_or_create. destruct (ledger_map e !! p) as [l|] eqn:E; simpl.
  - by apply (inv_cids _ Hi p).
  - apply map_Forall_empty.
Qed.

(** The tasks that answer one entry of a message. *)
Definition answer (e : Engine) (s : Store) (p : PeerId) (x : Entry) : list (Task Cid TaskData) :=
  match classify e p x with
  | Wanted => want_answer e (get_size s) x
  | Denied => dont_have_task e x
  | Cancelled => []
  end.

Lemma answers_split e s p es :
  es ≫= answer e s p ≡ₚ
    (judged e p Denied es ≫= dont_have_task e) ++ (judged e p Wanted es ≫= want_answer e (get_size s)).
Proof.
  unfold judged. induction es as [|x es IH]; [done|]. rewrite !filter_cons. simpl. rewrite IH.
  unfold answer at 1. destruct (classify e p x); simpl.
  - apply Permutation_app_swap_app.
  - done.
  - by rewrite (assoc_L (++)).
Qed.

Lemma want_answer_ok e s x :
  store_ok s → cid_ok (BitswapMessage.cid x) → Forall task_ok (want_answer e (get_size s) x).
Proof.
  intros Hs Hc. unfold want_answer. destruct (get_size s _) eqn:E; [|by apply dont_have_task_ok].
  constructor; [|constructor]. apply found_task_ok; [done|]. by eapply Hs.
Qed.

Lemma answer_ok e s p x :
  store_ok s → cid_ok (BitswapMessage.cid x) → Forall task_ok (answer e s p x).
Proof.
  intros Hs Hc. unfold answer. destruct (classify e p x);
    [by apply want_answer_ok|constructor|by apply dont_have_task_ok].
Qed.

Lemma answer_length e s p x : (length (answer e s p x) ≤ 1)%nat.
Proof.
  unfold answer, want_answer, dont_have_task.
  destruct (classify e p x), (get_size s (BitswapMessage.cid x)), (send_dont_haves e && BitswapMessage.send_dont_have x); simpl; lia.
Qed.

Lemma answers_length e s p es : (vec_len (es ≫= answer e s p) ≤ vec_len es)%Z.
Proof.
  unfold vec_len. induction es as [|x es IH]; [done|]. rewrite bind_cons, length_app. cbn [length].
  pose proof (answer_length e s p x). lia.
Qed.

Lemma cancel_load ks (tr : PeerTracker) :
  (PeerTaskQueue.tracker_load (cancel_pending ks tr) ≤ PeerTaskQueue.tracker_load tr)%Z.
Proof.
  revert tr. induction ks as [|k ks IH]; intros tr; simpl; [done|]. etransitivity; [apply IH|].
  unfold PeerTaskQueue.tracker_load, map_len. destruct (pending_remove k tr) as [-> ->].
  destruct (PeerTracker.pending_map tr !! k) as [t|] eqn:E.
  - rewrite (size_delete _ _ _ E). lia.
  - rewrite delete_id by done. lia.
Qed.

Lemma alter_load ks p (q q' : Queue) :
  PeerTaskQueue.trackers q' = alter (cancel_pending ks) p (PeerTaskQueue.trackers q) →
  (PeerTaskQueue.load q' ≤ PeerTaskQueue.load q)%Z.
Proof.
  intros Ht. unfold PeerTaskQueue.load at 1. rewrite Ht.
  destruct (PeerTaskQueue.trackers q !! p) as [tr|] eqn:E.
  - assert (alter (cancel_pending ks) p (PeerTaskQueue.trackers q) =
      <[p := cancel_pending ks tr]> (PeerTaskQueue.trackers q)) as ->.
    { apply map_eq. intros p'. destruct (decide (p' = p)) as [->|Hne].
      - by rewrite lookup_alter_eq, lookup_insert_eq, E.
      - by rewrite lookup_alter_ne, lookup_insert_ne. }
    rewrite PeerTaskQueue.load_insert, E. simpl. pose proof (cancel_load ks tr). lia.
  - rewrite alter_id' by done. done.
Qed.

(** The wants of [p] after a message: a full message replaces them, a cancel
    removes one, a want is added or upgraded, a denied want changes nothing. *)
Definition wants_after (e : Engine) (p : PeerId) (m : Message) (c : Cid) : option Wantlist.Entry :=
  let old := if BitswapMessage.full m then None else wanted e p !! c in
  match BitswapMessage.wantlist m !! c with
  | None => old
  | Some x =>
      match classify e p x with
      | Wanted => Some (Ledger.upgrade c (BitswapMessage.priority x) (BitswapMessage.want_type x) old)
      | Cancelled => None
      | Denied => old
      end
  end.

(** Whether [p] is registered as waiting for [c] after a message. *)
Definition waits_after (e : Engine) (s : Store) (p : PeerId) (m : Message) (c : Cid) : Prop :=
  match BitswapMessage.wantlist m !! c with
  | None => waiting e p c
  | Some x => classify e p x = Wanted ∧ is_Some (get_size s c)
  end.

(** The pending tasks that a message cancels. *)
Definition cancelled_tasks (e : Engine) (p : PeerId) (m : Message) : list Cid :=
  filter (λ c, BitswapMessage.full m = false ∧ is_Some (wanted e p !! c))
    (BitswapMessage.cid <$> judged e p Cancelled (entries_of m)).

Definition tracker_after (now : Z) (e : Engine) (p : PeerId) (m : Message)
    (ts : list (Task Cid TaskData)) : option PeerTracker :=
  let old := cancel_pending (cancelled_tasks e p m) <$> tracker e p in
  if bool_decide (ts = []) then old
  else Some (PeerTracker.push_tasks now ts
         (default (PeerTracker.new p
            (PeerTaskQueue.max_outstanding_work_per_peer (peer_task_queue e))) old)).

Record received (now : Z) (s : Store) (p : PeerId) (m : Message) (e e' : Engine) : Prop := {
  received_wants c : wanted e' p !! c = wants_after e p m c;
  received_waits c : waiting e' p c ↔ waits_after e s p m c;
  received_tasks : ∃ ts, ts ≡ₚ (entries_of m ≫= answer e s p) ∧
    tracker e' p = tracker_after now e p m ts ∧
    work_signal e' = bool_decide (ts ≠ []) || work_signal e;
  received_others p' : p' ≠ p →
    ledger_map e' !! p' = ledger_map e !! p' ∧ tracker e' p' = tracker e p' ∧
    ∀ c, waiting e' p' c ↔ waiting e p' c;
  received_rest : outbox e' = outbox e ∧ score_ledger e' = score_ledger e;
}.

(** The ledger that the wants of a message are applied to. *)
Definition start_ledger (e : Engine) (p : PeerId) (m : Message) : Ledger.Ledger :=
  let l := find_or_create p (ledger_map e) in
  if BitswapMessage.full m then Ledger.clear_wantlist l else l.

Lemma start_ledger_view e p m c :
  Ledger.view (start_ledger e p m) !! c = if BitswapMessage.full m then None else wanted e p !! c.
Proof. unfold start_ledger, wanted. by destruct (BitswapMessage.full m). Qed.

Lemma start_ledger_inv e p m : inv e → Ledger.inv p (start_ledger e p m).
Proof.
  intros Hi. unfold start_ledger. destruct (BitswapMessage.full m);
    [apply Ledger.clear_wantlist_inv|]; by apply ledger_of_inv.
Qed.

Lemma known_start e p m :
  known (start_ledger e p m) (BitswapMessage.cid <$> judged e p Cancelled (entries_of m)) =
  cancelled_tasks e p m.
Proof.
  apply filter_agree. intros c _. rewrite start_ledger_view.
  destruct (BitswapMessage.full m); [|naive_solver]. split; [intros []|]; naive_solver.
Qed.

(** The wants in the ledger after the loops of [message_received]. *)
Lemma ledger_after e p m l c :
  keyed m →
  (∀ c, Ledger.view l !! c =
     if decide (c ∈ BitswapMessage.cid <$> judged e p Cancelled (entries_of m)) then None
     else Ledger.view (start_ledger e p m) !! c) →
  Ledger.view (want_all (judged e p Wanted (entries_of m)) l) !! c = wants_after e p m c.
Proof.
  intros Hk Hl. unfold wants_after. rewrite <-start_ledger_view.
  destruct (BitswapMessage.wantlist m !! c) as [x|] eqn:Ex.
  - pose proof (Hk _ _ Ex) as Hc. simpl in Hc. destruct (classify e p x) eqn:Ev.
    + rewrite <-Hc at 1. rewrite (view_want_all _ l x), Hl, Hc; [|by apply NoDup_judged|].
      * rewrite decide_False; [done|]. rewrite elem_of_judged_cids by done. naive_solver congruence.
      * rewrite elem_of_judged by done. by rewrite Hc.
    + rewrite view_want_all_ne, Hl.
      * rewrite decide_True; [done|]. rewrite elem_of_judged_cids by done. eauto.
      * rewrite elem_of_judged_cids by done. naive_solver congruence.
    + rewrite view_want_all_ne, Hl.
      * rewrite decide_False; [done|]. rewrite elem_of_judged_cids by done. naive_solver congruence.
      * rewrite elem_of_judged_cids by done. naive_solver congruence.
  - rewrite view_want_all_ne, Hl.
    + rewrite decide_False; [done|]. rewrite elem_of_judged_cids by done. naive_solver congruence.
    + rewrite elem_of_judged_cids by done. naive_solver congruence.
Qed.

(** Who waits for what after the loops. *)
Lemma peers_after e s p m p' c (sizes : gmap Cid Z) :
  keyed m →
  (∀ x, x ∈ judged e p Wanted (entries_of m) →
     sizes !! BitswapMessage.cid x = get_size s (BitswapMessage.cid x)) →
  PeerLedger.waiting
    (PeerLedger.cancel_all p
       (BitswapMessage.cid <$> filter (λ x, sizes !! BitswapMessage.cid x = None)
                                 (judged e p Wanted (entries_of m)))
       (PeerLedger.cancel_all p (BitswapMessage.cid <$> judged e p Denied (entries_of m))
          (PeerLedger.cancel_all p (BitswapMessage.cid <$> judged e p Cancelled (entries_of m))
             (PeerLedger.wants_all p (BitswapMessage.cid <$> judged e p Wanted (entries_of m))
                (peer_ledger e))))) p' c
  ↔ if decide (p' = p) then waits_after e s p m c else waiting e p' c.
Proof.
  intros Hk Hs. rewrite !PeerLedger.waiting_cancel_all, PeerLedger.waiting_wants_all.
  rewrite !elem_of_judged_cids by done. unfold waits_after, waiting.
  destruct (decide (p' = p)) as [->|Hne]; [|naive_solver].
  assert (c ∈ BitswapMessage.cid <$> filter (λ x, sizes !! BitswapMessage.cid x = None)
      (judged e p Wanted (entries_of m)) ↔
    ∃ x, BitswapMessage.wantlist m !! c = Some x ∧ classify e p x = Wanted ∧ get_size s c = None) as ->.
  { rewrite list_elem_of_fmap. split.
    - intros (x & -> & [Hn Hx]%list_elem_of_filter). rewrite Hs in Hn by done.
      apply elem_of_judged in Hx as [Hx Hv]; [|done]. eauto.
    - intros (x & Hx & Hv & Hn). exists x. pose proof (Hk _ _ Hx) as Hc. simpl in Hc. split; [done|].
      assert (x ∈ judged e p Wanted (entries_of m)) as Hin by (rewrite elem_of_judged by done; by rewrite Hc).
      rewrite list_elem_of_filter, Hs, Hc by done. done. }
  destruct (BitswapMessage.wantlist m !! c) as [x|]; [|naive_solver].
  assert (∀ P : Entry → Prop, (∃ y, Some x = Some y ∧ P y) ↔ P x) as Hex by naive_solver.
  rewrite !Hex. assert (is_Some (get_size s c) ↔ get_size s c ≠ None) as ->.
  { symmetry. apply not_eq_None_Some. }
  destruct (classify e p x); intuition congruence.
Qed.

(** The state before tasks are pushed, with the list of tasks. *)
Lemma message_received_eq now s p m e :
  inv e → message_ok m →
  ∃ ledger q pl ts,
    message_received now s p m e =
      (let e1 := with_ledgers (<[p := ledger]> (ledger_map e)) pl (with_queue q e) in
       e2 ← match ts with
            | [] => mret e1
            | _ => update_metrics (with_queue (PeerTaskQueue.push_tasks now p ts q) e1)
            end;
       mret (if bool_decide (ts ≠ []) then signal_new_work e2 else e2)) ∧
    Ledger.inv p ledger ∧ PeerTaskQueue.inv q ∧ PeerTaskQueue.ignore_freezing q = true ∧
    PeerTaskQueue.trackers q = alter (cancel_pending (cancelled_tasks e p m)) p
                                 (PeerTaskQueue.trackers (peer_task_queue e)) ∧
    PeerTaskQueue.max_outstanding_work_per_peer q =
      PeerTaskQueue.max_outstanding_work_per_peer (peer_task_queue e) ∧
    PeerLedger.inv pl ∧
    (∀ c, Ledger.view ledger !! c = wants_after e p m c) ∧
    (∀ p' c, PeerLedger.waiting pl p' c ↔
       if decide (p' = p) then waits_after e s p m c else waiting e p' c) ∧
    ts ≡ₚ (entries_of m ≫= answer e s p).
Proof.
  intros Hi [Hk Hc]. unfold message_received. fold (entries_of m). rewrite split_wants_eq.
  cbn [get_block_sizes]. set (sizes := collect_found _ _).
  assert (∀ x, x ∈ judged e p Wanted (entries_of m) →
    sizes !! BitswapMessage.cid x = get_size s (BitswapMessage.cid x)) as Hsizes.
  { intros x Hx. unfold sizes. rewrite collect_found_lookup, decide_True; [done|].
    rewrite elem_of_iter_set, elem_of_list_to_set. by apply list_elem_of_fmap_2. }
  fold (start_ledger e p m).
  destruct (process_cancels_ok p (judged e p Cancelled (entries_of m)) (start_ledger e p m)
    (peer_task_queue e)) as (l1 & q & Hrun & Hl1 & Hq & Hig & Ht & Hm & Hv);
    [by apply NoDup_judged|by apply start_ledger_inv|apply Hi|apply Hi|].
  rewrite known_start in Ht. rewrite Hrun. cbn [mbind outcome_bind].
  rewrite process_denials_eq, process_wants_eq.
  set (w0 := mkWork [] false). assert (work_ok w0) as Hw0 by done.
  destruct (foldl_add_tasks (dont_have_task e) (judged e p Denied (entries_of m)) w0 Hw0) as [Hw1 Ha1].
  set (w1 := foldl _ w0 _) in *.
  destruct (foldl_add_tasks (want_answer e (λ c, sizes !! c)) (judged e p Wanted (entries_of m)) w1 Hw1)
    as [Hw2 Ha2]. set (w2 := foldl _ w1 _) in *.
  eexists (want_all _ l1), q, _, (active_entries w2). split.
  { red in Hw2. rewrite <-Hw2. by destruct (active_entries w2). }
  split_and!; try done.
  - by apply want_all_inv.
  - do 3 apply PeerLedger.cancel_all_inv. apply PeerLedger.wants_all_inv, Hi.
  - intros c. by apply ledger_after.
  - intros p' c. by apply peers_after.
  - rewrite Ha2, Ha1, answers_split. cbn [active_entries w0 app].
    rewrite (bind_agree (want_answer e (λ c, sizes !! c)) (want_answer e (get_size s))); [done|].
    intros x Hx. unfold want_answer. by rewrite Hsizes.
Qed.

Lemma wants_after_cids e p m c en :
  inv e → message_ok m → wants_after e p m c = Some en → cid_ok c.
Proof.
  intros Hi [Hk Hc] Hw. destruct (BitswapMessage.wantlist m !! c) as [x|] eqn:Ex; [by eapply Hc|].
  unfold wants_after in Hw. rewrite Ex in Hw. destruct (BitswapMessage.full m); [done|].
  by eapply (wanted_cids _ _ Hi).
Qed.

(** An engine that differs from [e] in the queue, in the ledger of one peer, in
    who waits and in the counters. *)
Definition updated (e : Engine) (q : Queue) (p : PeerId) (l : Ledger.Ledger)
    (pl : PeerLedger.PeerLedger) (n : Z) (b : bool) : Engine :=
  mkEngine q (outbox e) (<[p := l]> (ledger_map e)) pl (score_ledger e)
    (max_block_size_replace_has_with_block e) (send_dont_haves e) n (peer_block_request_filter e) b.

Lemma inv_update e p ledger pl q n b :
  inv e → Ledger.inv p ledger → map_Forall (λ c _, cid_ok c) (Ledger.view ledger) →
  PeerLedger.inv pl → PeerTaskQueue.inv q → PeerTaskQueue.ignore_freezing q = true → (0 ≤ n)%Z →
  inv (updated e q p ledger pl n b).
Proof.
  intros Hi ??????. split; simpl; try done; try apply Hi.
  - apply map_Forall_insert_2; [done|apply Hi].
  - apply map_Forall_insert_2; [done|apply Hi].
Qed.

Lemma wanted_insert e p ledger m :
  ledger_map e = <[p := ledger]> m → wanted e p = Ledger.view ledger.
Proof. intros Hm. unfold wanted, find_or_create. by rewrite Hm, lookup_insert_eq. Qed.

Lemma received_intro now s p m e ts l q pl n b :
  (∀ c, Ledger.view l !! c = wants_after e p m c) →
  (∀ p' c, PeerLedger.waiting pl p' c ↔
     if decide (p' = p) then waits_after e s p m c else waiting e p' c) →
  ts ≡ₚ (entries_of m ≫= answer e s p) →
  PeerTaskQueue.trackers q !! p = tracker_after now e p m ts →
  (∀ p', p' ≠ p → PeerTaskQueue.trackers q !! p' = tracker e p') →
  b = bool_decide (ts ≠ []) || work_signal e →
  received now s p m e (updated e q p l pl n b).
Proof.
  intros Hv Hw Hts Ht Ho Hb. split.
  - intros c. by erewrite wanted_insert.
  - intros c. unfold waiting at 1; simpl. rewrite Hw. by rewrite decide_True.
  - by exists ts.
  - intros p' Hp'. simpl. rewrite lookup_insert_ne by done. split; [done|]. split; [by apply Ho|].
    intros c. unfold waiting at 1; simpl. rewrite Hw. by rewrite decide_False.
  - done.
Qed.

Lemma message_received_ok now s p m e :
  inv e → message_ok m → store_ok s → room (vec_len (entries_of m)) e →
  ∃ e', message_received now s p m e = Done e' ∧ inv e' ∧ received now s p m e e'.
Proof.
  intros Hi Hm Hs [Hroom Hload].
  destruct (message_received_eq now s p m e Hi Hm)
    as (l & q & pl & ts & Hrun & Hl & Hq & Hig & Ht & Hmax & Hpl & Hv & Hw & Hts).
  assert (vec_len ts ≤ vec_len (entries_of m))%Z as Hlen.
  { unfold vec_len at 1. rewrite Hts. apply answers_length. }
  assert (Forall task_ok ts) as Hok.
  { rewrite Hts. apply Forall_bind, Forall_forall. intros x [c Hx]%elem_of_iter_values.
    apply answer_ok; [done|]. destruct Hm as [Hk Hc]. pose proof (Hk _ _ Hx) as Hcx. simpl in Hcx.
    rewrite Hcx. by eapply Hc. }
  assert (map_Forall (λ c _, cid_ok c) (Ledger.view l)) as Hcids.
  { intros c en Hc. rewrite Hv in Hc. by eapply wants_after_cids. }
  pose proof (inv_counter _ Hi) as Hcnt. rewrite Hrun. cbv zeta.
  destruct (decide (ts = [])) as [->|Hne].
  - rewrite bool_decide_eq_false_2 by naive_solver.
    exists (updated e q p l pl (metrics_update_counter e) (work_signal e)).
    split; [reflexivity|]. split; [by apply inv_update|].
    apply (received_intro now s p m e [] l); try done.
    + unfold tracker_after. rewrite bool_decide_eq_true_2 by done. by rewrite Ht, lookup_alter_eq.
    + intros p' Hp'. by rewrite Ht, lookup_alter_ne.
  - rewrite bool_decide_eq_true_2 by done.
    destruct (PeerTaskQueue.push_trackers now p ts q) as (Hpt & Hpig & Hpm).
    pose proof (alter_load _ _ _ _ Ht). pose proof (PeerTaskQueue.push_tasks_load now p ts q).
    assert (1 ≤ vec_len ts)%Z by (unfold vec_len; destruct ts; simpl; [done|lia]).
    destruct ts as [|t ts']; [done|]. rewrite update_metrics_ok by (simpl; lia).
    exists (updated e (PeerTaskQueue.push_tasks now p (t :: ts') q) p l pl
              (metrics_update_counter e + 1) true).
    split; [reflexivity|]. split.
    + apply inv_update; try done; [|congruence|lia]. by apply PeerTaskQueue.queue_push_inv.
    + apply (received_intro now s p m e (t :: ts') l); try done.
      * unfold tracker_after. rewrite bool_decide_eq_false_2 by done.
        rewrite Hpt, lookup_insert_eq, Ht, lookup_alter_eq, Hmax. done.
      * intros p' Hp'. rewrite Hpt, lookup_insert_ne by done. by rewrite Ht, lookup_alter_ne.
Qed.
End engine.
End EngineReceive.
