(* ===== verification/EngineNotify.v ===== *)
(** * New blocks in the decision engine

    What [notify_new_blocks] of [Engine.v] does: the peers that wait for a block
    get a task, and waits without a want are forgotten. *)
From stdpp Require Import base gmap list.
From Stdlib Require Import Strings.Byte.
From S2P Require Import Prelude KeyedPriorityQueue Wantlist PeerTracker TaskMerger PeerTaskQueue.
From S2P Require Import Protobuf BitswapPb BitswapMessage Ledger Engine EngineReceive.

Module EngineNotify.
Import PeerTask Engine EngineReceive.
Section engine.
  Context {ids : Ids} {cc : CidCodec} {cp : CidParts} {qp : QuickProtobuf} {ho : HashOrder}.
  Notation TaskData := TaskMerger.TaskData.
  Notation Block := BitswapMessage.Block.
  Notation Message := BitswapMessage.BitswapMessage.
  Notation Entry := BitswapMessage.Entry.
  Context {kpq : KeyedPriorityQueue Cid (QueueTask Cid TaskData) QueueTask_cmp}.
  Notation PeerTracker := (PeerTracker.PeerTracker (T := Cid) (D := TaskData)).
  Context {pkpq : KeyedPriorityQueue PeerId PeerTracker PeerTracker.PeerTracker_cmp}.
  Notation Queue := (PeerTaskQueue.Inner (T := Cid) (D := TaskData)).

(** ** The contract of [notify_new_blocks] *)

(** The loops only touch the queue and the metrics. *)
Definition requeue (e : Engine) (q : Queue) (n : Z) : Engine := with_counter n (with_queue q e).

(** Tasks pushed for a peer that may be new. *)
Definition push_opt (now max_work : Z) (p : PeerId) (ts : list (Task Cid TaskData))
    (o : option PeerTracker) : option PeerTracker :=
  match ts with
  | [] => o
  | _ => Some (PeerTracker.push_tasks now ts (default (PeerTracker.new p max_work) o))
  end.

Lemma push_opt_app now w p ts us o :
  push_opt now w p (ts ++ us) o = push_opt now w p us (push_opt now w p ts o).
Proof.
  destruct ts as [|t ts]; [done|]. destruct us as [|u us].
  - by rewrite app_nil_r.
  - cbn [app push_opt default]. unfold PeerTracker.push_tasks. cbn [foldl]. by rewrite foldl_app.
Qed.

Definition missed (st : Notified) (p : PeerId) (c : Cid) : Prop :=
  ∃ cs, missing_wants st !! p = Some cs ∧ c ∈ cs.

(** From [st] to [st']: at most [k] pushes, the tasks [f p] pushed for each peer
    [p], and the pairs of [g] recorded as missing. *)
Record advance (now : Z) (e : Engine) (k : Z) (f : PeerId → list (Task Cid TaskData))
    (g : PeerId → Cid → Prop) (st st' : Notified) : Prop := {
  adv_base : engine st' =
    requeue e (peer_task_queue (engine st')) (metrics_update_counter (engine st'));
  adv_inv : PeerTaskQueue.inv (peer_task_queue (engine st'));
  adv_ignore : PeerTaskQueue.ignore_freezing (peer_task_queue (engine st')) = true;
  adv_max : PeerTaskQueue.max_outstanding_work_per_peer (peer_task_queue (engine st')) =
    PeerTaskQueue.max_outstanding_work_per_peer (peer_task_queue (engine st));
  adv_counter : (0 ≤ metrics_update_counter (engine st') ≤ metrics_update_counter (engine st) + k)%Z;
  adv_load : (PeerTaskQueue.load (peer_task_queue (engine st')) ≤
    PeerTaskQueue.load (peer_task_queue (engine st)) + k)%Z;
  adv_tracker p : tracker (engine st') p =
    push_opt now (PeerTaskQueue.max_outstanding_work_per_peer (peer_task_queue (engine st))) p (f p)
      (tracker (engine st) p);
  adv_missed p c : missed st' p c ↔ missed st p c ∨ g p c;
  adv_work : work_found st' = true ↔ work_found st = true ∨ ∃ p, f p ≠ [];
}.

(** Nothing happens. *)
Lemma advance_refl now e k f g st :
  engine st = requeue e (peer_task_queue (engine st)) (metrics_update_counter (engine st)) →
  PeerTaskQueue.inv (peer_task_queue (engine st)) →
  PeerTaskQueue.ignore_freezing (peer_task_queue (engine st)) = true →
  (0 ≤ metrics_update_counter (engine st))%Z → (0 ≤ k)%Z →
  (∀ p, f p = []) → (∀ p c, ¬ g p c) → advance now e k f g st st.
Proof.
  intros ????? Hf Hg. split; try done; try lia.
  - intros p. by rewrite Hf.
  - intros p c. specialize (Hg p c). naive_solver.
  - split; [naive_solver|]. intros [?|[p Hp]]; [done|]. by rewrite Hf in Hp.
Qed.

Lemma advance_trans now e k1 k2 f1 f2 g1 g2 st1 st2 st3 :
  advance now e k1 f1 g1 st1 st2 → advance now e k2 f2 g2 st2 st3 →
  advance now e (k1 + k2) (λ p, f1 p ++ f2 p) (λ p c, g1 p c ∨ g2 p c) st1 st3.
Proof.
  intros H1 H2. split; try apply H2.
  - by rewrite (adv_max _ _ _ _ _ _ _ H2), (adv_max _ _ _ _ _ _ _ H1).
  - pose proof (adv_counter _ _ _ _ _ _ _ H1). pose proof (adv_counter _ _ _ _ _ _ _ H2). lia.
  - pose proof (adv_load _ _ _ _ _ _ _ H1). pose proof (adv_load _ _ _ _ _ _ _ H2). lia.
  - intros p. rewrite (adv_tracker _ _ _ _ _ _ _ H2), (adv_tracker _ _ _ _ _ _ _ H1).
    rewrite (adv_max _ _ _ _ _ _ _ H1). by rewrite push_opt_app.
  - intros p c. rewrite (adv_missed _ _ _ _ _ _ _ H2), (adv_missed _ _ _ _ _ _ _ H1). tauto.
  - rewrite (adv_work _ _ _ _ _ _ _ H2), (adv_work _ _ _ _ _ _ _ H1). split.
    + intros [[?|[p Hp]]|[p Hp]]; [by left|right; exists p|right; exists p].
      * intros [? ?]%app_eq_nil. done.
      * intros [? ?]%app_eq_nil. done.
    + intros [?|[p Hp]]; [by left; left|]. destruct (decide (f1 p = [])) as [Hn|Hn].
      * right. exists p. by rewrite Hn in Hp.
      * left. right. eauto.
Qed.

Lemma advance_mono now e k k' f f' g g' st st' :
  advance now e k f g st st' → (k ≤ k')%Z → (∀ p, f p = f' p) → (∀ p c, g p c ↔ g' p c) →
  advance now e k' f' g' st st'.
Proof.
  intros Ha Hk Hf Hg. split; try apply Ha.
  - pose proof (adv_counter _ _ _ _ _ _ _ Ha). lia.
  - pose proof (adv_load _ _ _ _ _ _ _ Ha). lia.
  - intros p. rewrite <-Hf. apply Ha.
  - intros p c. rewrite <-Hg. apply Ha.
  - rewrite (adv_work _ _ _ _ _ _ _ Ha). by setoid_rewrite Hf.
Qed.

(** The tasks for [p] when block [c] has arrived. *)
Definition new_block_task (e : Engine) (sizes : gmap Cid Z) (c : Cid) (p : PeerId) :
    list (Task Cid TaskData) :=
  match wanted e p !! c with Some en => [notify_task e sizes c en] | None => [] end.

Definition sizes_ok (sizes : gmap Cid Z) : Prop := map_Forall (λ _ n, 0 ≤ n ≤ usize_max)%Z sizes.

Lemma notify_task_ok e sizes c p en :
  inv e → sizes_ok sizes → wanted e p !! c = Some en → task_ok (notify_task e sizes c en).
Proof.
  intros Hi Hs Hw. pose proof (wanted_cids _ _ Hi _ _ Hw) as Hc.
  assert (0 ≤ default 0 (sizes !! c) ≤ usize_max)%Z as Hn.
  { destruct (sizes !! c) eqn:E; simpl; [by apply (Hs c)|unfold usize_max; lia]. }
  unfold task_ok, notify_task, data_ok, TaskMerger.TaskData_range; simpl.
  split; [|done]. by destruct (send_as_block _ _ _).
Qed.

Lemma missed_missing p c st p' c' :
  missed (missing p c st) p' c' ↔ missed st p' c' ∨ (p' = p ∧ c' = c).
Proof.
  unfold missed, missing; simpl. destruct (decide (p' = p)) as [->|Hne].
  - rewrite lookup_entry_or. destruct (missing_wants st !! p) as [cs|]; simpl.
    + split; [intros (? & [= <-] & Hin); apply elem_of_app in Hin as [?|?%list_elem_of_singleton]; eauto|].
      intros [(? & [= <-] & ?)|[_ ->]]; eexists; (split; [done|]); set_solver.
    + split; [intros (? & [= <-] & Hin%list_elem_of_singleton); eauto|].
      intros [(? & [=] & ?)|[_ ->]]. eexists; (split; [done|]); set_solver.
  - rewrite lookup_entry_or_ne by done. naive_solver.
Qed.

(** A state of the loops: it differs from [e] in the queue and the metrics, and
    has room for [k] pushes. *)
Definition ready (e : Engine) (k : Z) (st : Notified) : Prop :=
  engine st = requeue e (peer_task_queue (engine st)) (metrics_update_counter (engine st)) ∧
  PeerTaskQueue.inv (peer_task_queue (engine st)) ∧
  PeerTaskQueue.ignore_freezing (peer_task_queue (engine st)) = true ∧
  (0 ≤ metrics_update_counter (engine st))%Z ∧ room k (engine st).

Lemma ready_advance now e k j f g st st' :
  ready e (k + j) st → advance now e k f g st st' → (0 ≤ j)%Z → ready e j st'.
Proof.
  intros (_ & _ & _ & _ & Hr1 & Hr2) Ha Hj. pose proof (adv_counter _ _ _ _ _ _ _ Ha).
  pose proof (adv_load _ _ _ _ _ _ _ Ha). split_and!; try apply Ha. split; lia.
Qed.

Lemma notify_peer_ok now e sizes c p st :
  inv e → sizes_ok sizes → ready e 1 st →
  ∃ st', notify_peer now sizes c p st = Done st' ∧
    advance now e 1 (λ p', if decide (p' = p) then new_block_task e sizes c p else [])
      (λ p' c', p' = p ∧ c' = c ∧ wanted e p !! c = None) st st'.
Proof.
  intros Hi Hs (Hb & Hq & Hig & Hn & Hr1 & Hr2). unfold notify_peer.
  assert (ledger_map (engine st) = ledger_map e) as Hl by (by rewrite Hb).
  assert (∀ en, notify_task (engine st) sizes c en = notify_task e sizes c en) as Hnt by (by rewrite Hb).
  rewrite Hl. unfold new_block_task.
  assert ((∃ en, wanted e p !! c = Some en ∧ ∃ l, ledger_map e !! p = Some l ∧
             Ledger.wantlist_get c l = Some en) ∨
    (wanted e p !! c = None ∧ match ledger_map e !! p with
       | None => True | Some l => Ledger.wantlist_get c l = None end)) as [Hsome|Hnone].
  { unfold wanted, find_or_create. destruct (ledger_map e !! p) as [l|]; simpl; [|by right].
    destruct (Ledger.view l !! c) as [en|] eqn:E; [left|by right]. exists en. split; [done|].
    by exists l. }
  - destruct Hsome as (en & Hw & l & -> & ->). rewrite Hnt, Hw.
    set (t := notify_task e sizes c en).
    assert (task_ok t) as Ht by by eapply notify_task_ok.
    pose proof (PeerTaskQueue.push_tasks_load now p [t] (peer_task_queue (engine st))) as Hload.
    destruct (PeerTaskQueue.push_trackers now p [t] (peer_task_queue (engine st))) as (Hpt & Hpi & Hpm).
    unfold vec_len in Hload. simpl in Hload. unfold PeerTaskQueue.push_task.
    rewrite update_metrics_ok by (simpl; lia). simpl.
    eexists. split; [done|]. split; simpl; try done; try lia.
    + by rewrite Hb.
    + apply PeerTaskQueue.queue_push_inv; [done|by constructor].
    + congruence.
    + intros p'. unfold tracker; simpl. rewrite Hpt. destruct (decide (p' = p)) as [->|Hne].
      * by rewrite lookup_insert_eq.
      * by rewrite lookup_insert_ne.
    + intros p' c'. unfold missed; simpl. naive_solver.
    + split; [|done]. intros _. right. exists p. by rewrite decide_True.
  - destruct Hnone as [Hw Hl']. exists (missing p c st).
    split; [by destruct (ledger_map e !! p); [rewrite Hl'|]|]. rewrite Hw.
    split; simpl; try done; try lia.
    + intros p'. by case_decide.
    + intros p' c'. rewrite missed_missing. naive_solver.
    + split; [by left|]. intros [?|[p' Hp']]; [done|]. by case_decide.
Qed.

Lemma notify_peers_ok now e sizes c ps st :
  inv e → sizes_ok sizes → NoDup ps → ready e (vec_len ps) st →
  ∃ st', notify_peers now sizes c ps st = Done st' ∧
    advance now e (vec_len ps) (λ p, if decide (p ∈ ps) then new_block_task e sizes c p else [])
      (λ p c', p ∈ ps ∧ c' = c ∧ wanted e p !! c = None) st st'.
Proof.
  intros Hi Hs. revert st. induction ps as [|p ps IH]; intros st Hnd Hr; simpl.
  - exists st. destruct Hr as (? & ? & ? & ? & ?). split; [done|].
    apply advance_refl; try done. intros ?? [?%not_elem_of_nil _]. done.
  - apply NoDup_cons in Hnd as [Hp Hnd].
    assert (vec_len (p :: ps) = 1 + vec_len ps)%Z as Hlen by (unfold vec_len; simpl; lia).
    rewrite Hlen in *. assert (0 ≤ vec_len ps)%Z by (unfold vec_len; lia).
    destruct (notify_peer_ok now e sizes c p st Hi Hs) as (st1 & -> & H1).
    { destruct Hr as (? & ? & ? & ? & ? & ?). split_and!; try done. split; lia. }
    destruct (IH st1 Hnd (ready_advance _ _ _ _ _ _ _ _ Hr H1 ltac:(lia))) as (st2 & Hrun & H2).
    exists st2. split; [done|]. eapply advance_mono; [by eapply advance_trans|done| |].
    + intros p'. simpl. destruct (decide (p' = p)) as [->|Hne].
      * rewrite decide_False by done. rewrite decide_True by set_solver. by rewrite app_nil_r.
      * repeat case_decide; set_solver.
    + intros p' c'. rewrite elem_of_cons. naive_solver.
Qed.

(** The tasks that new blocks [bs] bring for [p], and how many there can be. *)
Definition new_blocks_tasks (e : Engine) (sizes : gmap Cid Z) (bs : list Block) (p : PeerId) :
    list (Task Cid TaskData) :=
  bs ≫= λ b, let c := BitswapMessage.block_cid b in
             if decide (waiting e p c) then new_block_task e sizes c p else [].

Definition waiters (e : Engine) (b : Block) : Z :=
  from_option set_len 0%Z (PeerLedger.peers (BitswapMessage.block_cid b) (peer_ledger e)).
Definition notifications (e : Engine) (bs : list Block) : Z := Zsum (waiters e <$> bs).

Lemma waiters_nonneg e b : (0 ≤ waiters e b)%Z.
Proof. unfold waiters, set_len. destruct (PeerLedger.peers _ _); simpl; lia. Qed.

Lemma notify_block_ok now e sizes b st :
  inv e → sizes_ok sizes → ready e (waiters e b) st →
  ∃ st', match PeerLedger.peers (BitswapMessage.block_cid b) (peer_ledger e) with
         | None => mret st
         | Some ps => notify_peers now sizes (BitswapMessage.block_cid b) (iter_set ps) st
         end = Done st' ∧
    advance now e (waiters e b) (new_blocks_tasks e sizes [b])
      (λ p c, c = BitswapMessage.block_cid b ∧ waiting e p c ∧ wanted e p !! c = None) st st'.
Proof.
  intros Hi Hs Hr.
  assert (∀ p, waiting e p (BitswapMessage.block_cid b) ↔
    ∃ ps, PeerLedger.peers (BitswapMessage.block_cid b) (peer_ledger e) = Some ps ∧ p ∈ ps) as Hwait.
  { done. }
  unfold waiters, new_blocks_tasks in *. cbn [mbind list_bind].
  destruct (PeerLedger.peers _ _) as [ps|] eqn:Eps; cbn [from_option] in *.
  - assert (set_len ps = vec_len (iter_set ps)) as Hlen.
    { unfold set_len, vec_len, size, set_size. simpl. by rewrite iter_set_perm. }
    rewrite Hlen in *.
    destruct (notify_peers_ok now e sizes (BitswapMessage.block_cid b) (iter_set ps) st Hi Hs
      (NoDup_iter_set ps) Hr) as (st' & Hrun & Ha).
    exists st'. split; [done|]. eapply advance_mono; [done|done| |].
    + intros p. simpl. rewrite app_nil_r. pose proof (elem_of_iter_set ps p).
      specialize (Hwait p). repeat case_decide; naive_solver.
    + intros p c. pose proof (elem_of_iter_set ps p). specialize (Hwait p). naive_solver.
  - exists st. split; [done|]. destruct Hr as (? & ? & ? & ? & ?). apply advance_refl; try done.
    + intros p. simpl. rewrite app_nil_r. rewrite decide_False; [done|]. rewrite Hwait. naive_solver.
    + intros p c (-> & Hw & _). rewrite Hwait in Hw. naive_solver.
Qed.

Lemma notify_blocks_ok now e sizes bs st :
  inv e → sizes_ok sizes → ready e (notifications e bs) st →
  ∃ st', notify_blocks now sizes bs st = Done st' ∧
    advance now e (notifications e bs) (new_blocks_tasks e sizes bs)
      (λ p c, c ∈ BitswapMessage.block_cid <$> bs ∧ waiting e p c ∧ wanted e p !! c = None) st st'.
Proof.
  intros Hi Hs. revert st. induction bs as [|b bs IH]; intros st Hr; cbn [notify_blocks].
  - exists st. destruct Hr as (? & ? & ? & ? & ?). split; [done|]. apply advance_refl; try done.
    intros p c [?%not_elem_of_nil _]. done.
  - assert (notifications e (b :: bs) = waiters e b + notifications e bs)%Z as Hn by done.
    assert (0 ≤ notifications e bs)%Z as Hnn.
    { apply Zsum_nonneg, Forall_fmap, Forall_forall. intros ? _. apply waiters_nonneg. }
    rewrite Hn in *. pose proof (waiters_nonneg e b).
    assert (peer_ledger (engine st) = peer_ledger e) as Hpl by (destruct Hr as [-> _]; done).
    destruct (notify_block_ok now e sizes b st Hi Hs) as (st1 & Hrun1 & H1).
    { destruct Hr as (? & ? & ? & ? & ? & ?). split_and!; try done. split; lia. }
    destruct (IH st1 (ready_advance _ _ _ _ _ _ _ _ Hr H1 Hnn)) as (st2 & Hrun2 & H2).
    exists st2. split.
    + rewrite Hpl. destruct (PeerLedger.peers _ _); [by rewrite Hrun1|].
      injection Hrun1 as ->. done.
    + eapply advance_mono; [by eapply advance_trans|done| |].
      * intros p. unfold new_blocks_tasks. cbn [mbind list_bind]. by rewrite app_nil_r.
      * intros p c. rewrite fmap_cons, elem_of_cons. naive_solver.
Qed.

(** *** Forgetting wants that are gone *)
Definition gone (m : gmap PeerId Ledger.Ledger) (p : PeerId) (c : Cid) : Prop :=
  Ledger.view (find_or_create p m) !! c = None.

Lemma forget_missing_waiting m pl p cs p' c' :
  PeerLedger.waiting (forget_missing m pl (p, cs)) p' c' ↔
    PeerLedger.waiting pl p' c' ∧ ¬ (p' = p ∧ c' ∈ cs ∧ gone m p c').
Proof.
  unfold forget_missing, gone, find_or_create; simpl. destruct (m !! p) as [l|]; simpl.
  - revert pl. induction cs as [|c cs IH]; intros pl; simpl; [set_solver|]. rewrite IH.
    change (Ledger.wantlist_get c l) with (Ledger.view l !! c). rewrite elem_of_cons.
    destruct (Ledger.view l !! c) as [en|] eqn:E; [naive_solver|].
    rewrite PeerLedger.waiting_cancel. naive_solver.
  - change (foldl _ pl cs) with (PeerLedger.cancel_all p cs pl).
    rewrite PeerLedger.waiting_cancel_all. naive_solver.
Qed.

Lemma forget_missing_inv m pl pw : PeerLedger.inv pl → PeerLedger.inv (forget_missing m pl pw).
Proof.
  intros Hpl. unfold forget_missing. destruct (m !! pw.1); [|by apply PeerLedger.cancel_all_inv].
  revert pl Hpl. induction pw.2 as [|c cs IH]; intros pl Hpl; simpl; [done|]. apply IH.
  destruct (Ledger.wantlist_get c l); [done|]. by apply PeerLedger.cancel_peers_inv.
Qed.

Lemma forget_all_waiting m pl ws p c :
  PeerLedger.waiting (foldl (forget_missing m) pl ws) p c ↔
    PeerLedger.waiting pl p c ∧ ¬ ((∃ cs, (p, cs) ∈ ws ∧ c ∈ cs) ∧ gone m p c).
Proof.
  revert pl. induction ws as [|[p' cs] ws IH]; intros pl; simpl; [set_solver|].
  rewrite IH, forget_missing_waiting. setoid_rewrite elem_of_cons. naive_solver.
Qed.

Lemma forget_all_inv m pl ws : PeerLedger.inv pl → PeerLedger.inv (foldl (forget_missing m) pl ws).
Proof. revert pl. induction ws; intros pl Hpl; simpl; auto using forget_missing_inv. Qed.

Lemma block_sizes_ok bs :
  Forall (λ b, vec_len (BitswapMessage.block_data b) ≤ usize_max)%Z bs → sizes_ok (block_sizes bs).
Proof.
  unfold block_sizes, sizes_ok. assert (map_Forall (λ _ n, 0 ≤ n ≤ usize_max)%Z (∅ : gmap Cid Z)) as H0.
  { apply map_Forall_empty. }
  revert H0. generalize (∅ : gmap Cid Z) as m. induction bs as [|b bs IH]; intros m Hm Hbs; simpl; [done|].
  apply Forall_cons in Hbs as [Hb Hbs]. apply IH; [|done].
  apply map_Forall_insert_2; [unfold vec_len in *; lia|done].
Qed.

Record notified (now : Z) (bs : list Block) (e e' : Engine) : Prop := {
  notified_tracker p : tracker e' p =
    push_opt now (PeerTaskQueue.max_outstanding_work_per_peer (peer_task_queue e)) p
      (new_blocks_tasks e (block_sizes bs) bs p) (tracker e p);
  notified_waiting p c : waiting e' p c ↔
    waiting e p c ∧ ¬ (c ∈ BitswapMessage.block_cid <$> bs ∧ wanted e p !! c = None);
  notified_signal : work_signal e' = true ↔
    work_signal e = true ∨ ∃ p, new_blocks_tasks e (block_sizes bs) bs p ≠ [];
  notified_rest : ledger_map e' = ledger_map e ∧ outbox e' = outbox e ∧ score_ledger e' = score_ledger e;
}.

Lemma notify_new_blocks_ok now bs e :
  inv e → Forall (λ b, vec_len (BitswapMessage.block_data b) ≤ usize_max)%Z bs →
  room (notifications e bs) e →
  ∃ e', notify_new_blocks now bs e = Done e' ∧ inv e' ∧ notified now bs e e'.
Proof.
  intros Hi Hbs Hroom. unfold notify_new_blocks. destruct bs as [|b0 bs0] eqn:Ebs.
  { exists e. split; [done|]. split; [done|]. split; try done.
    - intros p c. set_solver.
    - split; [by left|]. intros [?|[p Hp]]; done. }
  rewrite <-Ebs in *. clear Ebs b0 bs0.
  destruct (notify_blocks_ok now e (block_sizes bs) bs (mkNotified e false ∅) Hi (block_sizes_ok _ Hbs))
    as (st & Hrun & Ha).
  { split_and!; try apply Hi; [by destruct e|apply Hroom]. }
  rewrite Hrun. cbn [mbind outcome_bind]. pose proof (adv_base _ _ _ _ _ _ _ Ha) as Hb.
  set (q' := peer_task_queue (engine st)) in *. set (n' := metrics_update_counter (engine st)) in *.
  assert (ledger_map (engine st) = ledger_map e ∧ peer_ledger (engine st) = peer_ledger e) as [Hlm Hpl]
    by (by rewrite Hb).
  cbv zeta. rewrite Hlm, Hpl. set (pl := foldl _ _ _). eexists. split; [reflexivity|].
  assert (∀ p c, PeerLedger.waiting pl p c ↔
    waiting e p c ∧ ¬ (c ∈ BitswapMessage.block_cid <$> bs ∧ wanted e p !! c = None)) as Hw.
  { intros p c. unfold pl. rewrite forget_all_waiting.
    change (gone (ledger_map e) p c) with (wanted e p !! c = None).
    pose proof (adv_missed _ _ _ _ _ _ _ Ha p c) as Hm. unfold missed in Hm. simpl in Hm.
    setoid_rewrite lookup_empty in Hm. setoid_rewrite elem_of_iter_map. unfold waiting in *. naive_solver. }
  assert (inv (with_ledgers (ledger_map e) pl (engine st))) as Hi'.
  { rewrite Hb. split; simpl; try apply Hi; try apply Ha. apply forget_all_inv, Hi. }
  pose proof (adv_work _ _ _ _ _ _ _ Ha) as Hwork. simpl in Hwork.
  split; [destruct (work_found st); [by apply signal_inv|done]|]. split.
  - intros p. pose proof (adv_tracker _ _ _ _ _ _ _ Ha p) as Ht. by destruct (work_found st).
  - intros p c. rewrite <-Hw. by destruct (work_found st).
  - destruct (work_found st); simpl; [split; naive_solver|].
    rewrite Hb. simpl. split; [by left|]. naive_solver.
  - destruct (work_found st); simpl; by rewrite Hb.
Qed.
End engine.
End EngineNotify.
