(* ===== verification/EngineSend.v ===== *)
(** * Sending messages from the decision engine

    [message_sent], the workers that turn tasks into messages, and connections
    ([Engine.v]). *)
From stdpp Require Import base gmap list.
From Stdlib Require Import Strings.Byte.
From S2P Require Import Prelude KeyedPriorityQueue Wantlist PeerTracker TaskMerger PeerTaskQueue.
From S2P Require Import Protobuf BitswapPb BitswapMessage Ledger Engine EngineReceive.

Module EngineSend.
Import PeerTask Engine EngineReceive.
Section engine.
  Context {ids : Ids} {cc : CidCodec} {cp : CidParts} {qp : QuickProtobuf} {ho : HashOrder}.
  Notation TaskData := TaskMerger.TaskData.
  Notation Block := BitswapMessage.Block.
  Notation Message := BitswapMessage.BitswapMessage.
  Notation Entry := BitswapMessage.Entry.
  Context {kpq : KeyedPriorityQueue Cid (QueueTask Cid TaskData) QueueTask_cmp}.
  Notation PeerTracker := (PeerTracker.PeerTracker (T := Cid) (D := TaskData)).
  Context {pkpq : KeyedPriorityQueue PeerId PeerTracker PeerTracker.PeerTracker_cmp}.
  Notation Queue := (PeerTaskQueue.Inner (T := Cid) (D := TaskData)).

(** ** Bookkeeping when a message was sent *)

(** The bytes and the number of the blocks of a message. *)
Definition block_bytes (bs : list Block) : Z :=
  Zsum ((λ b, vec_len (BitswapMessage.block_data b)) <$> bs).

Lemma block_bytes_nonneg bs : (0 ≤ block_bytes bs)%Z.
Proof. apply Zsum_nonneg, Forall_fmap, Forall_forall. intros b _. simpl. unfold vec_len. lia. Qed.

Lemma sent_blocks_ok now p bs l scores :
  Ledger.inv p l → ScoreLedger.inv scores →
  (ScoreLedger.sent_to scores p + block_bytes bs ≤ usize_max)%Z →
  (ScoreLedger.exchanges scores p + vec_len bs ≤ usize_max)%Z →
  ∃ l' scores', sent_blocks now bs l scores = Done (l', scores') ∧
    Ledger.inv p l' ∧ ScoreLedger.inv scores' ∧
    (∀ c, Ledger.view l' !! c =
       if decide (c ∈ BitswapMessage.block_cid <$> bs) then None else Ledger.view l !! c) ∧
    ScoreLedger.sent_to scores' p = (ScoreLedger.sent_to scores p + block_bytes bs)%Z ∧
    ScoreLedger.exchanges scores' p = (ScoreLedger.exchanges scores p + vec_len bs)%Z ∧
    ScoreLedger.recv_from scores' p = ScoreLedger.recv_from scores p ∧
    ∀ p', p' ≠ p → scores' !! p' = scores !! p'.
Proof.
  revert l scores. induction bs as [|b bs IH]; intros l scores Hl Hs Hb He; cbn [sent_blocks].
  { unfold vec_len, block_bytes in *. simpl in *. exists l, scores. split_and!; try done; lia. }
  assert (block_bytes (b :: bs) = vec_len (BitswapMessage.block_data b) + block_bytes bs)%Z as Eb by done.
  assert (vec_len (b :: bs) = 1 + vec_len bs)%Z as El by (unfold vec_len; simpl; lia).
  rewrite Eb, El in *. pose proof (block_bytes_nonneg bs).
  assert (0 ≤ vec_len bs ∧ 0 ≤ vec_len (BitswapMessage.block_data b))%Z by (unfold vec_len; lia).
  assert (Ledger.partner l = p) as Hp by apply Hl. rewrite Hp.
  destruct (ScoreLedger.add_to_sent_bytes_ok now p (vec_len (BitswapMessage.block_data b)) scores Hs)
    as (s1 & -> & Hs1 & Hsent & Hrecv & Hex & Hoth); [lia|lia|lia|]. cbn [mbind outcome_bind].
  destruct (IH (Ledger.remove_type (BitswapMessage.block_cid b) Wantlist.Block l) s1)
    as (l' & s' & Hrun & Hl' & Hs' & Hv & Hs'' & He' & Hr' & Ho'); [by apply Ledger.remove_type_inv|done|lia|lia|].
  exists l', s'. split_and!; try done; try lia.
  - intros c. rewrite Hv, Ledger.view_remove_type, fmap_cons.
    destruct (decide (c ∈ BitswapMessage.block_cid <$> bs)).
    { by rewrite decide_True by set_solver. }
    destruct (Ledger.view l !! BitswapMessage.block_cid b) as [en|] eqn:E.
    + rewrite decide_True by (by right). destruct (decide (c = BitswapMessage.block_cid b)) as [->|Hne].
      * rewrite lookup_delete_eq. by rewrite decide_True by set_solver.
      * rewrite lookup_delete_ne by done. by rewrite decide_False by set_solver.
    + case_decide as Hin; [|done]. assert (c = BitswapMessage.block_cid b) as -> by set_solver. done.
  - intros p' Hp'. by rewrite Ho', Hoth.
Qed.

(** A HAVE answers a want-have; a want-block stays. *)
Definition without_have (o : option Wantlist.Entry) : option Wantlist.Entry :=
  en ← o; if decide (Wantlist.want_type en = Wantlist.Have) then None else Some en.

Lemma without_have_twice o : without_have (without_have o) = without_have o.
Proof. destruct o as [en|]; [|done]. unfold without_have. simpl. repeat (case_decide; simpl); done. Qed.

Lemma view_sent_have c l c' :
  Ledger.view (Ledger.remove_type c Wantlist.Have l) !! c' =
    if decide (c' = c) then without_have (Ledger.view l !! c') else Ledger.view l !! c'.
Proof.
  rewrite Ledger.view_remove_type. destruct (Ledger.view l !! c) as [en|] eqn:E.
  - destruct (decide (c' = c)) as [->|Hne].
    + rewrite E. unfold without_have, Ledger.satisfied, want_le. simpl.
      destruct (decide (_ ∨ _)), (decide (_ = _)); naive_solver (rewrite ?lookup_delete_eq; done).
    + case_decide; [by rewrite lookup_delete_ne|done].
  - case_decide; [|done]. subst. by rewrite E.
Qed.

Lemma sent_presences_inv p ps l : Ledger.inv p l → Ledger.inv p (sent_presences ps l).
Proof.
  unfold sent_presences. revert l. induction ps as [|[c' []] ps IH]; intros l Hl; simpl; [done| |auto].
  by apply IH, Ledger.remove_type_inv.
Qed.

Lemma sent_presences_view ps l c :
  (BitswapMessage.mkPresence c BitswapMessage.Have ∈ ps →
     Ledger.view (sent_presences ps l) !! c = without_have (Ledger.view l !! c)) ∧
  (BitswapMessage.mkPresence c BitswapMessage.Have ∉ ps →
     Ledger.view (sent_presences ps l) !! c = Ledger.view l !! c).
Proof.
  unfold sent_presences. revert l. induction ps as [|[c' t] ps IH]; intros l; cbn [foldl]; [set_solver|].
  cbn [BitswapMessage.typ BitswapMessage.presence_cid]. destruct t.
  - destruct (IH (Ledger.remove_type c' Wantlist.Have l)) as [IH1 IH2]. rewrite view_sent_have in IH1, IH2.
    destruct (decide (c = c')) as [->|Hne]; (split; [|set_solver]); intros Hin.
    + destruct (decide (BitswapMessage.mkPresence c' BitswapMessage.Have ∈ ps)).
      * rewrite IH1 by done. apply without_have_twice.
      * by apply IH2.
    + apply IH1. set_solver.
  - destruct (IH l) as [IH1 IH2]. split; [intros [|]%elem_of_cons; naive_solver|set_solver].
Qed.

(** The score counters have room for blocks [bs] sent to [p]. *)
Definition score_room (e : Engine) (p : PeerId) (bs : list Block) : Prop :=
  (ScoreLedger.sent_to (score_ledger e) p + block_bytes bs ≤ usize_max)%Z ∧
  (ScoreLedger.recv_from (score_ledger e) p + block_bytes bs ≤ usize_max)%Z ∧
  (ScoreLedger.exchanges (score_ledger e) p + vec_len bs ≤ usize_max)%Z.

Definition blocks_of (m : Message) : list Block := iter_values (BitswapMessage.blocks m).

(** What [p] still wants when [m] was sent. *)
Definition wants_left (m : Message) (c : Cid) (o : option Wantlist.Entry) : option Wantlist.Entry :=
  match BitswapMessage.blocks m !! c, BitswapMessage.block_presences m !! c with
  | Some _, _ => None
  | None, Some BitswapMessage.Have => without_have o
  | None, _ => o
  end.

Record sent (p : PeerId) (m : Message) (e e' : Engine) : Prop := {
  sent_wants c : wanted e' p !! c = wants_left m c (wanted e p !! c);
  sent_total : ScoreLedger.sent_to (score_ledger e') p =
    (ScoreLedger.sent_to (score_ledger e) p + block_bytes (blocks_of m))%Z;
  sent_count : ScoreLedger.exchanges (score_ledger e') p =
    (ScoreLedger.exchanges (score_ledger e) p + vec_len (blocks_of m))%Z;
  sent_recv : ScoreLedger.recv_from (score_ledger e') p = ScoreLedger.recv_from (score_ledger e) p;
  sent_others p' : p' ≠ p →
    ledger_map e' !! p' = ledger_map e !! p' ∧ score_ledger e' !! p' = score_ledger e !! p';
  sent_rest : peer_task_queue e' = peer_task_queue e ∧ outbox e' = outbox e ∧
    peer_ledger e' = peer_ledger e ∧ metrics_update_counter e' = metrics_update_counter e;
}.

Lemma elem_of_presences c t m :
  BitswapMessage.mkPresence c t ∈ BitswapMessage.presences m ↔
    BitswapMessage.block_presences m !! c = Some t.
Proof.
  unfold BitswapMessage.presences. rewrite list_elem_of_fmap. split.
  - intros ([c' t'] & [= -> ->] & Hin). by apply elem_of_iter_map.
  - intros Hc. exists (c, t). split; [done|]. by apply elem_of_iter_map.
Qed.

Lemma elem_of_block_cids m c :
  map_Forall (λ c b, BitswapMessage.block_cid b = c) (BitswapMessage.blocks m) →
  c ∈ BitswapMessage.block_cid <$> blocks_of m ↔ is_Some (BitswapMessage.blocks m !! c).
Proof.
  intros Hk. unfold blocks_of. rewrite list_elem_of_fmap. split.
  - intros (b & -> & [c' Hc]%elem_of_iter_values). rewrite (Hk _ _ Hc). eauto.
  - intros [b Hb]. exists b. split; [by rewrite (Hk _ _ Hb)|]. apply elem_of_iter_values. eauto.
Qed.

Lemma wants_left_Some m c o en : wants_left m c o = Some en → o = Some en.
Proof.
  unfold wants_left, without_have. destruct (BitswapMessage.blocks m !! c); [done|].
  destruct (BitswapMessage.block_presences m !! c) as [[]|]; [|done|done].
  destruct o as [en'|]; simpl; [|done]. by case_decide.
Qed.

Lemma message_sent_ok now p m e :
  inv e → BitswapMessage.inv m → score_room e p (blocks_of m) →
  ∃ e', message_sent now p m e = Done e' ∧ inv e' ∧ sent p m e e'.
Proof.
  intros Hi [_ Hk _] (Hr1 & _ & Hr2). unfold message_sent.
  destruct (sent_blocks_ok now p (blocks_of m) (find_or_create p (ledger_map e)) (score_ledger e)
    (ledger_of_inv _ _ Hi) (inv_scores _ Hi) Hr1 Hr2)
    as (l & scores & Hrun & Hl & Hs & Hv & Hst & Hex & Hrc & Ho).
  fold (blocks_of m). rewrite Hrun. cbn [mbind outcome_bind]. eexists. split; [reflexivity|].
  set (l' := sent_presences _ l).
  assert (∀ c, Ledger.view l' !! c = wants_left m c (wanted e p !! c)) as Hv'.
  { intros c. unfold l'. destruct (sent_presences_view (BitswapMessage.presences m) l c) as [H1 H2].
    rewrite elem_of_presences in H1, H2. pose proof (elem_of_block_cids m c Hk) as Hb.
    rewrite Hv in H1, H2. unfold wants_left, wanted.
    destruct (BitswapMessage.blocks m !! c) as [b|].
    - rewrite decide_True in H1, H2 by (apply Hb; eauto).
      destruct (BitswapMessage.block_presences m !! c) as [[]|]; [by rewrite H1|by rewrite H2|by rewrite H2].
    - rewrite decide_False in H1, H2 by (rewrite Hb; by intros []).
      destruct (BitswapMessage.block_presences m !! c) as [[]|]; [by rewrite H1|by rewrite H2|by rewrite H2]. }
  split.
  - split; simpl; try apply Hi; [| |done].
    + apply map_Forall_insert_2; [by apply sent_presences_inv|apply Hi].
    + apply map_Forall_insert_2; [|apply Hi]. intros c en Hc. rewrite Hv' in Hc.
      apply wants_left_Some in Hc. by eapply (wanted_cids _ _ Hi).
  - split; simpl; try done.
    + intros c. by erewrite wanted_insert.
    + intros p' Hp'. rewrite lookup_insert_ne by done. auto.
Qed.

Lemma recv_blocks_ok now p bs scores :
  ScoreLedger.inv scores →
  (ScoreLedger.recv_from scores p + block_bytes bs ≤ usize_max)%Z →
  (ScoreLedger.exchanges scores p + vec_len bs ≤ usize_max)%Z →
  ∃ scores', recv_blocks now p bs scores = Done scores' ∧ ScoreLedger.inv scores' ∧
    ScoreLedger.recv_from scores' p = (ScoreLedger.recv_from scores p + block_bytes bs)%Z ∧
    ScoreLedger.sent_to scores' p = ScoreLedger.sent_to scores p.
Proof.
  revert scores. induction bs as [|b bs IH]; intros scores Hs Hb He; cbn [recv_blocks].
  { unfold vec_len, block_bytes in *. simpl in *. exists scores. split_and!; try done; lia. }
  assert (block_bytes (b :: bs) = vec_len (BitswapMessage.block_data b) + block_bytes bs)%Z as Eb by done.
  assert (vec_len (b :: bs) = 1 + vec_len bs)%Z as El by (unfold vec_len; simpl; lia).
  rewrite Eb, El in *. pose proof (block_bytes_nonneg bs).
  assert (0 ≤ vec_len bs ∧ 0 ≤ vec_len (BitswapMessage.block_data b))%Z by (unfold vec_len; lia).
  destruct (ScoreLedger.add_to_recv_bytes_ok now p (vec_len (BitswapMessage.block_data b)) scores Hs)
    as (s1 & -> & Hs1 & Hrecv & Hsent & Hex & _); [lia|lia|lia|]. cbn [mbind outcome_bind].
  destruct (IH s1 Hs1) as (s' & -> & ? & ? & ?); [lia|lia|].
  exists s'. split_and!; try done; lia.
Qed.

(** Received blocks are accounted to their sender. *)
Lemma received_blocks_ok now p bs e :
  inv e → score_room e p bs →
  ∃ e', received_blocks now p bs e = Done e' ∧ inv e' ∧
    ScoreLedger.recv_from (score_ledger e') p =
      (ScoreLedger.recv_from (score_ledger e) p + block_bytes bs)%Z ∧
    ∀ p', wanted e' p' = wanted e p'.
Proof.
  intros Hi (_ & Hr1 & Hr2). unfold received_blocks.
  destruct bs as [|b bs]. { exists e. split_and!; try done. unfold block_bytes. simpl. lia. }
  pose proof (ledger_of_inv e p Hi) as Hl. assert (Ledger.partner (find_or_create p (ledger_map e)) = p) as ->
    by apply Hl.
  destruct (recv_blocks_ok now p (b :: bs) (score_ledger e) (inv_scores _ Hi) Hr1 Hr2)
    as (s' & Hrun & Hs' & Hrecv & _).
  cbn [score_ledger with_ledgers]. rewrite Hrun. cbn [mbind outcome_bind].
  eexists. split; [reflexivity|]. split_and!; [|done|].
  - split; simpl; try apply Hi; [| |done].
    + apply map_Forall_insert_2; [done|apply Hi].
    + apply map_Forall_insert_2; [|apply Hi]. apply (wanted_cids e p Hi).
  - intros p'. unfold wanted, find_or_create; simpl. destruct (decide (p' = p)) as [->|Hne].
    + by rewrite lookup_insert_eq.
    + by rewrite lookup_insert_ne.
Qed.

Lemma peer_connected_inv now p e : inv e → inv (peer_connected now p e).
Proof.
  intros Hi. split; simpl; try apply Hi.
  - apply map_Forall_insert_2; [by apply ledger_of_inv|apply Hi].
  - apply map_Forall_insert_2; [by apply (wanted_cids e p Hi)|apply Hi].
  - apply ScoreLedger.score_connected_inv, Hi.
Qed.

Lemma peer_disconnected_ok p e :
  inv e → inv (peer_disconnected p e) ∧
  ledger_map (peer_disconnected p e) = delete p (ledger_map e) ∧
  ∀ p' c, waiting (peer_disconnected p e) p' c ↔
    waiting e p' c ∧ ¬ (p' = p ∧ is_Some (wanted e p !! c)).
Proof.
  intros Hi. unfold peer_disconnected. split; [|split; [done|]].
  - split; simpl; try apply Hi.
    + apply map_Forall_delete, Hi.
    + apply map_Forall_delete, Hi.
    + destruct (ledger_map e !! p); [apply PeerLedger.cancel_all_inv|]; apply Hi.
    + apply ScoreLedger.score_disconnected_inv, Hi.
  - intros p' c. unfold waiting at 1; simpl. unfold wanted, find_or_create.
    destruct (ledger_map e !! p) as [l|] eqn:E; simpl.
    + rewrite PeerLedger.waiting_cancel_all. assert (c ∈ Wantlist.cid <$> (Ledger.entries l).1 ↔
        is_Some (Ledger.view l !! c)) as ->; [|done].
      pose proof (inv_ledgers _ Hi _ _ E) as Hl. rewrite list_elem_of_fmap. split.
      * intros (en & -> & Hen). apply (Ledger.entries_elem p) in Hen; [eauto|done].
      * intros [en Hen]. exists en. pose proof (Ledger.view_keyed _ _ _ _ Hl Hen) as Hk.
        split; [done|]. apply (Ledger.entries_elem p); [done|]. by rewrite Hk.
    + split; [intros ?; split; [done|]|by intros [? _]]. intros [_ []]. done.
Qed.

(** ** The message that answers a batch of tasks *)

(** What a message says about a block. *)
Definition slot (m : Message) (c : Cid) : option Block * option BitswapMessage.BlockPresenceType :=
  (BitswapMessage.blocks m !! c, BitswapMessage.block_presences m !! c).

Definition is_block_task (t : Task Cid TaskData) : bool :=
  TaskMerger.have_block (data t) && TaskMerger.is_want_block (data t).

(** What a task is answered with. *)
Definition reply (s : Store) (t : Task Cid TaskData) :
    option Block * option BitswapMessage.BlockPresenceType :=
  if is_block_task t then
    match get s (topic t) with
    | Some b => (Some b, None)
    | None => (None, if TaskMerger.send_dont_have (data t) then Some BitswapMessage.DontHave else None)
    end
  else (None, Some (if TaskMerger.have_block (data t) then BitswapMessage.Have else BitswapMessage.DontHave)).

(** The store files a block under its identifier. *)
Definition store_keyed (s : Store) : Prop := ∀ c b, get s c = Some b → BitswapMessage.block_cid b = c.

(** The fields that answers leave alone. *)
Definition header (m : Message) : bool * gmap Cid Entry * Z :=
  (BitswapMessage.full m, BitswapMessage.wantlist m, BitswapMessage.pending_bytes m).

Lemma slot_add_presence c t m c' :
  BitswapMessage.blocks m !! c = None →
  slot (BitswapMessage.add_block_presence c t m) c' = (if decide (c' = c) then (None, Some t) else slot m c') ∧
  header (BitswapMessage.add_block_presence c t m) = header m.
Proof.
  intros Hb. unfold slot, BitswapMessage.add_block_presence.
  rewrite bool_decide_eq_false_2 by (rewrite Hb; by intros []). simpl. split; [|done].
  case_decide; [subst; by rewrite lookup_insert_eq, Hb|by rewrite lookup_insert_ne].
Qed.

Lemma slot_add_block b m c' :
  slot (BitswapMessage.add_block b m) c' =
    (if decide (c' = BitswapMessage.block_cid b) then (Some b, None) else slot m c') ∧
  header (BitswapMessage.add_block b m) = header m.
Proof.
  unfold slot, BitswapMessage.add_block. simpl. split; [|done].
  case_decide; [subst; by rewrite lookup_insert_eq, lookup_delete_eq|].
  by rewrite lookup_insert_ne, lookup_delete_ne.
Qed.

Lemma sort_task_eq m cids bt t :
  sort_task (m, cids, bt) t =
    if is_block_task t then (m, cids ++ [topic t], <[topic t := t]> bt)
    else (BitswapMessage.add_block_presence (topic t)
            (if TaskMerger.have_block (data t) then BitswapMessage.Have else BitswapMessage.DontHave) m,
          cids, bt).
Proof.
  unfold sort_task, is_block_task. destruct (TaskMerger.have_block _), (TaskMerger.is_want_block _); done.
Qed.

(** The first loop: presences are in the message, the blocks to load are listed. *)
Lemma sort_tasks_ok ts m cids bt :
  NoDup (topic <$> ts) → (∀ c, BitswapMessage.blocks m !! c = None) →
  (∀ t, t ∈ ts → slot m (topic t) = (None, None) ∧ bt !! topic t = None) →
  ∃ m' bt', foldl sort_task (m, cids, bt) ts =
      (m', cids ++ (topic <$> filter (λ t, is_block_task t = true) ts), bt') ∧
    header m' = header m ∧ (∀ c, BitswapMessage.blocks m' !! c = None) ∧
    (∀ t, t ∈ ts → is_block_task t = false →
       slot m' (topic t) = (None, Some (if TaskMerger.have_block (data t) then BitswapMessage.Have
                                        else BitswapMessage.DontHave))) ∧
    (∀ t, t ∈ ts → is_block_task t = true → slot m' (topic t) = (None, None)) ∧
    (∀ c, c ∉ topic <$> ts → slot m' c = slot m c) ∧
    (∀ c t, bt' !! c = Some t ↔
       (t ∈ ts ∧ topic t = c ∧ is_block_task t = true) ∨ (bt !! c = Some t ∧ c ∉ topic <$> ts)).
Proof.
  revert m cids bt. induction ts as [|t ts IH]; intros m cids bt Hnd Hb Hs.
  { exists m, bt. rewrite app_nil_r. split_and!; try done; try set_solver. }
  rewrite fmap_cons in Hnd. apply NoDup_cons in Hnd as [Ht Hnd]. cbn [foldl]. rewrite sort_task_eq, filter_cons.
  assert (∀ u, u ∈ ts → topic u ≠ topic t) as Hne.
  { intros u Hu Heq. apply Ht. rewrite <-Heq. by apply list_elem_of_fmap_2. }
  destruct (Hs t) as [Hst Hbt]; [set_solver|]. destruct (is_block_task t) eqn:Eb.
  - rewrite decide_True by done.
    destruct (IH m (cids ++ [topic t]) (<[topic t := t]> bt) Hnd Hb)
      as (m' & bt' & -> & Hh & Hb' & H1 & H2 & H3 & H4).
    { intros u Hu. destruct (Hs u) as [? ?]; [set_solver|]. split; [done|].
      rewrite lookup_insert_ne; [done|]. by apply not_eq_sym, Hne. }
    exists m', bt'. rewrite fmap_cons, <-(assoc_L (++)). split_and!; try done.
    + intros u [->|Hu]%elem_of_cons; [congruence|auto].
    + intros u [->|Hu]%elem_of_cons Hub; [|auto]. by rewrite H3.
    + intros c Hc. apply H3. set_solver.
    + intros c u. rewrite H4. destruct (decide (c = topic t)) as [->|Hct].
      * rewrite lookup_insert_eq. split.
        -- intros [(?&?&?)|[[= ->] _]]; left; set_solver.
        -- intros [([->|Hu]%elem_of_cons & Hut & ?)|[? ?]]; [by right|by left|congruence].
      * rewrite lookup_insert_ne by done. split.
        -- intros [(?&?&?)|[? ?]]; [left; set_solver|right; set_solver].
        -- intros [([->|Hu]%elem_of_cons & Hut & ?)|[? ?]]; [done|by left|right; set_solver].
  - rewrite decide_False by congruence. set (v := if TaskMerger.have_block _ then _ else _).
    pose proof (λ c, slot_add_presence (topic t) v m c (Hb _)) as Hsl.
    set (m1 := BitswapMessage.add_block_presence _ _ m) in *.
    destruct (IH m1 cids bt Hnd) as (m' & bt' & -> & Hh & Hb' & H1 & H2 & H3 & H4).
    { intros c. destruct (Hsl c) as [Hc _]. pose proof (Hb c). unfold slot in Hc.
      case_decide; congruence. }
    { intros u Hu. destruct (Hs u) as [? ?]; [set_solver|]. split; [|done].
      destruct (Hsl (topic u)) as [-> _]. by rewrite decide_False by auto. }
    exists m', bt'. split_and!; try done.
    + by destruct (Hsl (topic t)) as [_ <-].
    + intros u [->|Hu]%elem_of_cons Hub; [|auto]. rewrite H3 by done.
      destruct (Hsl (topic t)) as [-> _]. by rewrite decide_True.
    + intros u [->|Hu]%elem_of_cons Hub; [congruence|auto].
    + intros c Hc. rewrite H3 by set_solver. destruct (Hsl c) as [-> _].
      rewrite decide_False; [done|set_solver].
    + intros c u. rewrite H4. split.
      * intros [(?&?&?)|[? ?]]; [left; set_solver|right]. split; [done|].
        rewrite fmap_cons, not_elem_of_cons. split; [congruence|done].
      * intros [([->|Hu]%elem_of_cons & Hut & ?)|[? ?]]; [congruence|by left|right; set_solver].
Qed.

(** What loading a block task adds to a message without that block. *)
Definition loaded (o : option Block) (t : Task Cid TaskData) :
    option Block * option BitswapMessage.BlockPresenceType :=
  match o with
  | Some b => (Some b, None)
  | None => (None, if TaskMerger.send_dont_have (data t) then Some BitswapMessage.DontHave else None)
  end.

Lemma add_loaded_slot m bl c t c' :
  slot m c = (None, None) → (∀ b, bl !! c = Some b → BitswapMessage.block_cid b = c) →
  slot (add_loaded (m, bl) (c, t)).1 c' =
    (if decide (c' = c) then loaded (bl !! c) t else slot m c') ∧
  header (add_loaded (m, bl) (c, t)).1 = header m ∧
  (c' ≠ c → (add_loaded (m, bl) (c, t)).2 !! c' = bl !! c').
Proof.
  intros Hs Hk. unfold add_loaded, loaded. cbn [fst snd].
  destruct (bl !! c) as [b|] eqn:E; cbn [fst snd].
  - destruct (slot_add_block b m c') as [-> ->]. rewrite (Hk b eq_refl).
    split_and!; [done|done|]. intros Hne. by rewrite lookup_delete_ne.
  - split; [|split; [|done]]; (destruct (TaskMerger.send_dont_have (data t));
      [assert (BitswapMessage.blocks m !! c = None) as Hn by (by injection Hs);
       destruct (slot_add_presence c BitswapMessage.DontHave m c' Hn) as [H1 H2]; done|]); [|done].
    case_decide; [by subst|done].
Qed.

Lemma add_all_loaded l m bl :
  NoDup l.*1 → (∀ c b, bl !! c = Some b → BitswapMessage.block_cid b = c) →
  (∀ c, c ∈ l.*1 → slot m c = (None, None)) →
  let m' := (foldl add_loaded (m, bl) l).1 in
  header m' = header m ∧
  (∀ c t, (c, t) ∈ l → slot m' c = loaded (bl !! c) t) ∧
  (∀ c, c ∉ l.*1 → slot m' c = slot m c).
Proof.
  simpl. revert m bl. induction l as [|[c t] l IH]; intros m bl Hnd Hk Hs.
  { split_and!; try done. intros c t Hin. by apply not_elem_of_nil in Hin. }
  rewrite fmap_cons in Hnd. apply NoDup_cons in Hnd as [Hc Hnd]. cbn [foldl].
  destruct (add_loaded (m, bl) (c, t)) as [m1 bl1] eqn:E1.
  pose proof (λ c', add_loaded_slot m bl c t c' (Hs c ltac:(set_solver)) (Hk c)) as H1.
  rewrite E1 in H1. cbn [fst snd] in H1.
  assert (∀ c' b, bl1 !! c' = Some b → BitswapMessage.block_cid b = c') as Hk1.
  { intros c' b Hb. unfold add_loaded in E1. cbn [fst snd] in E1.
    destruct (bl !! c) as [b0|] eqn:Eb; injection E1 as _ <-; [|by apply Hk].
    apply lookup_delete_Some in Hb as [_ Hb]. by apply Hk. }
  destruct (IH m1 bl1 Hnd Hk1) as (Hh & Hin & Hout).
  { intros c' Hc'. destruct (H1 c') as [-> _]. rewrite decide_False by set_solver.
    apply Hs. set_solver. }
  split_and!.
  - rewrite Hh. apply (H1 c).
  - intros c' t' [[= -> ->]|Hin']%elem_of_cons.
    + rewrite Hout by done. destruct (H1 c) as [-> _]. by rewrite decide_True.
    + rewrite (Hin _ _ Hin'). destruct (H1 c') as (_ & _ & Hbl). rewrite Hbl; [done|].
      intros ->. apply Hc. by apply (list_elem_of_fmap_2 fst _ (c, t')).
  - intros c' Hc'. rewrite Hout by set_solver. destruct (H1 c') as [-> _].
    rewrite decide_False; [done|set_solver].
Qed.

(** Every task of a batch is answered, and nothing else is in the message. *)
Lemma fill_message_ok s pb ts :
  store_keyed s → NoDup (topic <$> ts) →
  ∃ m, fill_message s pb ts = Some m ∧ header m = (false, ∅, as_i32 pb) ∧
    (∀ t, t ∈ ts → slot m (topic t) = reply s t) ∧
    (∀ c, c ∉ topic <$> ts → slot m c = (None, None)).
Proof.
  intros Hk Hnd. unfold fill_message. set (m0 := BitswapMessage.set_pending_bytes _ _).
  assert (∀ c, slot m0 c = (None, None)) as Hm0 by done.
  destruct (sort_tasks_ok ts m0 [] ∅ Hnd) as (m1 & bt & -> & Hh & Hb & H1 & H2 & H3 & H4).
  { done. }
  { done. }
  cbn [get_blocks]. eexists. split; [reflexivity|]. set (bl := collect_found _ _).
  assert (∀ c b, bl !! c = Some b → BitswapMessage.block_cid b = c) as Hbl.
  { intros c b. unfold bl. rewrite collect_found_lookup. case_decide; [apply Hk|done]. }
  assert (∀ c t, (c, t) ∈ iter_map bt → t ∈ ts ∧ topic t = c ∧ is_block_task t = true) as Hbt.
  { intros c t [?|[? _]]%elem_of_iter_map%H4; [done|]. set_solver. }
  destruct (add_all_loaded (iter_map bt) m1 bl) as (Hh' & Hin & Hout).
  { apply NoDup_iter_map_keys. }
  { done. }
  { intros c ([c' t] & -> & (Ht & <- & Hbt')%Hbt)%list_elem_of_fmap. simpl. by apply H2. }
  split_and!; [by rewrite Hh', Hh| |].
  - intros t Ht. unfold reply. destruct (is_block_task t) eqn:Eb.
    + rewrite (Hin _ t); [|apply elem_of_iter_map, H4; by left].
      unfold bl. rewrite collect_found_lookup, decide_True; [done|].
      apply list_elem_of_fmap_2, list_elem_of_filter. done.
    + rewrite Hout; [by apply H1|]. intros ([c u] & Hc & (Hu & Htu & Hub)%Hbt)%list_elem_of_fmap.
      simpl in Hc. subst c. assert (u = t) as ->; [|congruence].
      apply list_elem_of_lookup in Ht as [i Hi]. apply list_elem_of_lookup in Hu as [j Hj].
      assert (i = j) as ->; [|congruence].
      eapply (NoDup_lookup (topic <$> ts) i j (topic t)); [done| |]; rewrite list_lookup_fmap.
      * by rewrite Hi.
      * rewrite Hj. simpl. by rewrite Htu.
  - intros c Hc. rewrite Hout; [by rewrite H3|]. intros ([c' u] & -> & (Hu & <- & _)%Hbt)%list_elem_of_fmap.
    apply Hc. simpl. by apply list_elem_of_fmap_2.
Qed.

(** ** The workers *)

(** All work of a peer fits a [usize]. *)
Definition work_fits (e : Engine) : Prop :=
  ∀ p tr, tracker e p = Some tr →
    (PeerTracker.active_work tr + PeerTracker.pending_total tr ≤ usize_max)%Z.

(** A message with answers for [ts]. *)
Definition answers (s : Store) (ts : list (Task Cid TaskData)) (m : Message) : Prop :=
  (∀ t, t ∈ ts → slot m (topic t) = reply s t) ∧ (∀ c, c ∉ topic <$> ts → slot m c = (None, None)).

Lemma answers_empty s ts m pb :
  header m = (false, ∅, pb) → answers s ts m → BitswapMessage.is_empty m = true →
  Forall (λ t, reply s t = (None, None)) ts.
Proof.
  intros Hh [Hin _] He. apply Forall_forall. intros t Ht. rewrite <-(Hin _ Ht).
  unfold BitswapMessage.is_empty in He. apply andb_true_iff in He as [[Hb _]%andb_true_iff Hp].
  apply bool_decide_eq_true in Hb, Hp. unfold slot. by rewrite Hb, Hp, !lookup_empty.
Qed.

Lemma popped_topics tmw (tr tr' : PeerTracker) ts :
  PeerTracker.inv tr → PeerTracker.pop_tasks tmw tr = Done (ts, tr') → NoDup (topic <$> ts).
Proof.
  intros Hi Hrun. destruct (PeerTracker.pop_tasks_sound _ _ _ _ Hi Hrun) as (qs & -> & Hp).
  rewrite <-list_fmap_compose.
  apply (PeerTracker.pops_split _ _ _ (λ k q Hq, proj1 (PeerTracker.inv_pending _ Hi k q Hq))
           (PeerTracker.popped_pops _ _ _ _ _ Hp)).
Qed.

(** The engine after the queue changed. *)
Lemma with_queue_inv q e :
  inv e → PeerTaskQueue.inv q → PeerTaskQueue.ignore_freezing q = true → inv (with_queue q e).
Proof. intros Hi ??. split; try done; apply Hi. Qed.

Lemma with_outbox_inv o e : inv e → inv (with_outbox o e).
Proof. intros Hi. split; apply Hi. Qed.

(** One tick serves one peer: it takes a batch of its tasks and either queues a
    message that answers each of them, or, when there is nothing to say, marks
    them as done. *)
Inductive ticked (tmw : Z) (s : Store) (e : Engine) : Engine → Prop :=
  | tick_idle e' :
      PeerTaskQueue.trackers (peer_task_queue e) = ∅ → outbox e' = outbox e →
      ticked tmw s e e'
  | tick_nothing p tr tr' e' :
      tracker e p = Some tr → PeerTracker.pop_tasks tmw tr = Done ([], tr') →
      outbox e' = outbox e → ticked tmw s e e'
  | tick_silent p tr tr' ts e' :
      tracker e p = Some tr → PeerTracker.pop_tasks tmw tr = Done (ts, tr') →
      Forall (λ t, reply s t = (None, None)) ts → outbox e' = outbox e → ticked tmw s e e'
  | tick_message p tr tr' ts m e' :
      tracker e p = Some tr → PeerTracker.pop_tasks tmw tr = Done (ts, tr') → ts ≠ [] →
      header m = (false, ∅, as_i32 (PeerTracker.pending_total tr')) → answers s ts m →
      BitswapMessage.is_empty m = false →
      outbox e' = outbox e ++ [mkEnvelope p m ts] → ticked tmw s e e'.

Lemma pop_ignoring tmw (q q' : Queue) o :
  PeerTaskQueue.pop_tasks tmw q = Done (o, q') →
  PeerTaskQueue.ignore_freezing q' = PeerTaskQueue.ignore_freezing q.
Proof.
  unfold PeerTaskQueue.pop_tasks. destruct (kpq_pop _) as [[[p tr]|] qq]; intros Hrun; inv_outcome; [|done].
  destruct a as [out tr']. inv_outcome. by destruct (PeerTracker.is_idle tr').
Qed.

Lemma done_ignoring p ts (q q' : Queue) :
  PeerTaskQueue.tasks_done p ts q = Done q' →
  PeerTaskQueue.ignore_freezing q' = PeerTaskQueue.ignore_freezing q.
Proof.
  unfold PeerTaskQueue.tasks_done. destruct (kpq_remove _ _) as [[tr|] qq]; intros Hrun; by inv_outcome.
Qed.

Lemma worker_tick_ok tmw s e :
  inv e → store_keyed s → work_fits e →
  ∃ e', worker_tick tmw s e = Done e' ∧ inv e' ∧ ticked tmw s e e' ∧
    ledger_map e' = ledger_map e ∧ peer_ledger e' = peer_ledger e ∧ score_ledger e' = score_ledger e.
Proof.
  intros Hi Hk Hw. unfold worker_tick.
  destruct (PeerTaskQueue.queue_pop_ok tmw (peer_task_queue e) (inv_queue _ Hi) Hw) as (o & q & Hrun & Hspec).
  pose proof (PeerTaskQueue.queue_pop_inv _ _ _ _ (inv_queue _ Hi) Hrun) as Hq.
  pose proof (pop_ignoring _ _ _ _ Hrun) as Hig. rewrite (inv_ignore _ Hi) in Hig.
  pose proof (with_queue_inv q e Hi Hq Hig) as Hi'.
  rewrite Hrun. cbn [mbind outcome_bind]. destruct o as [[[p ts] pw]|].
  - destruct Hspec as (tr & tr' & Htr & Hpop & -> & Ht).
    destruct ts as [|t ts'] eqn:Ets.
    { eexists. split; [reflexivity|]. split; [done|]. split; [by apply (tick_nothing _ _ _ p tr tr')|done]. }
    rewrite <-Ets in *. assert (ts ≠ []) as Hne by (by subst).
    destruct (PeerTaskQueue.inv_tracker _ (inv_queue _ Hi) _ _ Htr) as [Hti _].
    destruct (fill_message_ok s (PeerTracker.pending_total tr') ts Hk (popped_topics _ _ _ _ Hti Hpop))
      as (m & Hfill & Hh & Ha). rewrite Hfill.
    destruct (BitswapMessage.is_empty m) eqn:Em.
    + destruct (PeerTaskQueue.tasks_done_ok p ts q Hq) as (q' & Hd & Hq'). rewrite Hd. clear Ets.
      pose proof (done_ignoring _ _ _ _ Hd) as Hig'. rewrite Hig in Hig'.
      eexists. split; [reflexivity|]. split; [by apply with_queue_inv|]. split; [|done].
      apply (tick_silent _ _ _ p tr tr' ts); [done|done| |done]. by eapply answers_empty.
    + clear Ets. eexists. split; [reflexivity|]. split; [by apply with_outbox_inv|]. split; [|done].
      by apply (tick_message _ _ _ p tr tr' ts m).
  - eexists. split; [reflexivity|]. split; [done|]. split; [|done]. apply tick_idle; [apply Hspec|done].
Qed.

(** server.rs: sending the next message. *)
Lemma send_envelope_ok now e env rest :
  inv e → outbox e = env :: rest → BitswapMessage.inv (message env) →
  score_room e (env_peer env) (blocks_of (message env)) →
  ∃ e' e1, send_envelope now e = Done (Some (env_peer env, message env), e') ∧ inv e' ∧
    outbox e' = rest ∧ sent (env_peer env) (message env) (with_outbox rest e) e1 ∧
    ledger_map e' = ledger_map e1 ∧ peer_ledger e' = peer_ledger e1 ∧ score_ledger e' = score_ledger e1 ∧
    PeerTaskQueue.tasks_done (env_peer env) (sent_tasks env) (peer_task_queue e) = Done (peer_task_queue e').
Proof.
  intros Hi Ho Hm Hr. unfold send_envelope. rewrite Ho.
  destruct (message_sent_ok now (env_peer env) (message env) (with_outbox rest e))
    as (e1 & -> & Hi1 & Hs); [by apply with_outbox_inv|done|done|]. cbn [mbind outcome_bind].
  destruct (PeerTaskQueue.tasks_done_ok (env_peer env) (sent_tasks env) (peer_task_queue e1) (inv_queue _ Hi1))
    as (q & Hd & Hq). rewrite Hd. pose proof (done_ignoring _ _ _ _ Hd) as Hig.
  rewrite (inv_ignore _ Hi1) in Hig. destruct (sent_rest _ _ _ _ Hs) as (Hqe & Hoe & _).
  eexists _, e1. split; [reflexivity|]. split; [by apply signal_inv, with_queue_inv|].
  split; [done|]. split; [done|]. split_and!; try done. by rewrite Hqe in Hd.
Qed.
End engine.
End EngineSend.
