(* ===== verification/EngineClaims.v ===== *)
(** * Properties of the decision engine

    What the handlers of [Engine.v] guarantee, alone and one after the other:
    every request is answered, wanted blocks are sent and accounted for, and the
    waits that the engine loses or keeps for ever. *)
From stdpp Require Import base gmap list relations.
From Stdlib Require Import Strings.Byte.
From S2P Require Import Prelude KeyedPriorityQueue Wantlist PeerTracker TaskMerger PeerTaskQueue.
From S2P Require Import Protobuf PbInstance BitswapPb BitswapMessage Ledger Engine EngineReceive EngineNotify EngineSend.

Module EngineClaims.
Import PeerTask Engine EngineReceive EngineNotify EngineSend.
Section engine.
  Context {ids : Ids} {cc : CidCodec} {cp : CidParts} {qp : QuickProtobuf} {ho : HashOrder}.
  Notation TaskData := TaskMerger.TaskData.
  Notation Block := BitswapMessage.Block.
  Notation Message := BitswapMessage.BitswapMessage.
  Context {kpq : KeyedPriorityQueue Cid (QueueTask Cid TaskData) QueueTask_cmp}.
  Notation PeerTracker := (PeerTracker.PeerTracker (T := Cid) (D := TaskData)).
  Context {pkpq : KeyedPriorityQueue PeerId PeerTracker PeerTracker.PeerTracker_cmp}.

(** ** The engine as a transition system

    Messages and stores respect the machine integers and the counters do not
    overflow; nothing else is assumed of peers, of the store or of the order of
    events. *)
Inductive step : Engine → Engine → Prop :=
  | step_received now s p m e e' :
      message_ok m → store_ok s → room (vec_len (entries_of m)) e →
      message_received now s p m e = Done e' → step e e'
  | step_notify now bs e e' :
      Forall (λ b, vec_len (BitswapMessage.block_data b) ≤ usize_max)%Z bs →
      room (notifications e bs) e → notify_new_blocks now bs e = Done e' → step e e'
  | step_blocks now p bs e e' :
      score_room e p bs → received_blocks now p bs e = Done e' → step e e'
  | step_connected now p e : step e (peer_connected now p e)
  | step_disconnected p e : step e (peer_disconnected p e)
  | step_tick tmw s e e' :
      store_keyed s → work_fits e → worker_tick tmw s e = Done e' → step e e'
  | step_send now e o e' :
      (∀ env rest, outbox e = env :: rest →
         score_room e (env_peer env) (blocks_of (message env))) →
      send_envelope now e = Done (o, e') → step e e'.

(** Queued messages are well formed. *)
Definition envelopes_ok (e : Engine) : Prop :=
  Forall (λ env, BitswapMessage.inv (message env)) (outbox e).

Lemma answers_message_inv s ts m pb :
  store_keyed s → header m = (false, ∅, pb) → answers s ts m → BitswapMessage.inv m.
Proof.
  intros Hk Hh [Hin Hout].
  assert (∀ c, slot m c = (None, None) ∨ ∃ t, topic t = c ∧ slot m c = reply s t) as Hs.
  { intros c. destruct (decide (c ∈ topic <$> ts)) as [(t & -> & Ht)%list_elem_of_fmap|Hc]; [|by auto].
    right. exists t. split; [done|]. by apply Hin. }
  assert (BitswapMessage.wantlist m = ∅) as Hw by (unfold header in Hh; congruence).
  split.
  - rewrite Hw. apply map_Forall_empty.
  - intros c b Hb. destruct (Hs c) as [Hn|(t & <- & Hr)].
    + unfold slot in Hn. congruence.
    + unfold slot, reply in Hr. destruct (is_block_task t); [|congruence].
      destruct (get s (topic t)) as [b'|] eqn:E; [|congruence].
      assert (b = b') as -> by congruence. by apply Hk.
  - intros c [b Hb]. destruct (Hs c) as [Hn|(t & <- & Hr)].
    + unfold slot in Hn. congruence.
    + unfold slot, reply in Hr. destruct (is_block_task t); [|congruence].
      destruct (get s (topic t)) as [b'|] eqn:E; congruence.
Qed.

Lemma step_keeps e e' : step e e' → inv e → envelopes_ok e → inv e' ∧ envelopes_ok e'.
Proof.
  unfold envelopes_ok. destruct 1 as [now s p m e e' Hm Hs Hr Hrun|now bs e e' Hb Hr Hrun|
    now p bs e e' Hr Hrun|now p e|p e|tmw s e e' Hk Hw Hrun|now e o e' Hr Hrun]; intros Hi Ho.
  - destruct (message_received_ok now s p m e Hi Hm Hs Hr) as (e1 & Hrun1 & Hi1 & Hrec).
    assert (e1 = e') as -> by congruence. split; [done|]. by rewrite (proj1 (received_rest _ _ _ _ _ _ Hrec)).
  - destruct (notify_new_blocks_ok now bs e Hi Hb Hr) as (e1 & Hrun1 & Hi1 & Hn).
    assert (e1 = e') as -> by congruence. split; [done|].
    by rewrite (proj1 (proj2 (notified_rest _ _ _ _ Hn))).
  - destruct (received_blocks_ok now p bs e Hi Hr) as (e1 & Hrun1 & Hi1 & _).
    assert (e1 = e') as -> by congruence. split; [done|].
    unfold received_blocks in Hrun. destruct bs as [|b bs]; [by injection Hrun as <-|].
    inv_outcome. done.
  - split; [by apply peer_connected_inv|done].
  - split; [by apply peer_disconnected_ok|done].
  - destruct (worker_tick_ok tmw s e Hi Hk Hw) as (e1 & Hrun1 & Hi1 & Ht & _).
    assert (e1 = e') as -> by congruence. split; [done|].
    destruct Ht as [e2 _ ->|p tr tr' e2 _ _ ->|p tr tr' ts e2 _ _ _ ->|
      p tr tr' ts m e2 _ _ _ Hh Ha _ ->]; try done.
    apply Forall_app. split; [done|]. constructor; [|constructor]. by eapply answers_message_inv.
  - destruct (outbox e) as [|env rest] eqn:Eo.
    + unfold send_envelope in Hrun. rewrite Eo in Hrun. injection Hrun as <- <-. by rewrite Eo.
    + apply Forall_cons in Ho as [Hm Ho].
      destruct (send_envelope_ok now e env rest Hi Eo Hm (Hr _ _ eq_refl)) as (e1 & e2 & Hrun1 & Hi1 & Ho1 & _).
      assert (e1 = e') as -> by congruence. by rewrite Ho1.
Qed.

Lemma engine_reachable_inv c e : rtc step (new c) e → inv e ∧ envelopes_ok e.
Proof.
  intros Hr. assert (∀ e0, rtc step e0 e → inv e0 → envelopes_ok e0 → inv e ∧ envelopes_ok e) as Hs.
  { induction 1; [done|]. intros. edestruct step_keeps; eauto. }
  apply (Hs _ Hr); [apply engine_new_inv|constructor].
Qed.

(** ** A request from beginning to end *)
Lemma push_new now p w t :
  let tr := PeerTracker.push_tasks now [t] (PeerTracker.new p w) in
  PeerTracker.pending_map tr = {[topic t := QueueTask_new t p now]} ∧
  PeerTracker.active_work tr = 0%Z ∧ PeerTracker.freeze_val tr = 0%Z.
Proof.
  simpl. unfold PeerTracker.push_task, PeerTracker.task_has_more_info_than_active_tasks. simpl.
  rewrite lookup_empty. simpl. destruct (kpq_remove (topic t) kpq_empty) as [o q] eqn:E.
  apply remove_eq in E as [Ho Hq]. rewrite content_empty, lookup_empty in Ho. subst o. simpl.
  split; [|done]. unfold PeerTracker.pending_map. simpl.
  by rewrite content_push, Hq, content_empty, delete_empty.
Qed.

(** A tracker with one pending task, nothing active and not frozen gives it out. *)
Lemma pop_single tmw (tr tr' : PeerTracker) ts c q :
  PeerTracker.inv tr → PeerTracker.pending_map tr = {[c := q]} →
  PeerTracker.active_work tr = 0%Z → PeerTracker.freeze_val tr = 0%Z → (0 < tmw)%Z →
  PeerTracker.pop_tasks tmw tr = Done (ts, tr') → ts = [task q].
Proof.
  intros Hi Hm Ha Hf Ht Hrun.
  destruct (PeerTracker.pop_tasks_sound _ _ _ _ Hi Hrun) as (qs & -> & Hp).
  destruct (PeerTracker.pops_split _ _ _ (λ k q Hq, proj1 (PeerTracker.inv_pending _ Hi k q Hq))
    (PeerTracker.popped_pops _ _ _ _ _ Hp)) as (Hnd & Hin & Hsplit).
  rewrite Hm in Hin, Hsplit.
  assert (∀ u, u ∈ qs → u = q) as Hq.
  { intros u Hu. destruct (Hin u Hu) as [[_ Heq]%lookup_singleton_Some _]. done. }
  destruct qs as [|u [|v qs]].
  - exfalso. destruct (Hsplit c q) as [?%not_elem_of_nil|Hc]; [apply lookup_singleton_eq|done|].
    destruct (PeerTracker.popped_stop _ _ _ _ _ Hp) as [Hn|[Hn|[Hn|Hn]]].
    + rewrite Hn in Hc. by apply lookup_empty_Some in Hc.
    + done.
    + unfold PeerTracker.work_of in Hn. simpl in Hn. lia.
    + rewrite (PeerTracker.popped_work _ _ _ _ _ Hp), Ha in Hn. unfold PeerTracker.work_of in Hn.
      simpl in Hn. lia.
  - simpl. f_equal. f_equal. apply Hq. set_solver.
  - exfalso. rewrite (Hq u), (Hq v) in Hnd by set_solver. rewrite !fmap_cons in Hnd.
    apply NoDup_cons in Hnd as [Hnd _]. set_solver.
Qed.

(** The message with a single request for a block. *)
Definition asks_only (m : Message) (c : Cid) (x : BitswapMessage.Entry) : Prop :=
  BitswapMessage.wantlist m = {[c := x]} ∧ BitswapMessage.cid x = c ∧
  BitswapMessage.want_type x = Wantlist.Block.

Lemma entries_asks m c x : asks_only m c x → entries_of m = [x].
Proof.
  intros (Hm & _ & _). unfold entries_of, iter_values. rewrite Hm.
  assert (iter_map ({[c := x]} : gmap Cid BitswapMessage.Entry) = [(c, x)]) as ->; [|done].
  apply Permutation_singleton_r. rewrite iter_map_perm. by rewrite map_to_list_singleton.
Qed.

(** A request for a block we have becomes the only task of an empty queue. *)
Lemma request_queued now s p m c x n e :
  inv e → store_ok s → PeerTaskQueue.trackers (peer_task_queue e) = ∅ →
  asks_only m c x → cid_ok c → classify e p x = Wanted → get_size s c = Some n → room 1 e →
  ∃ e1 tr, message_received now s p m e = Done e1 ∧ inv e1 ∧ received now s p m e e1 ∧
    PeerTaskQueue.trackers (peer_task_queue e1) = {[p := tr]} ∧
    PeerTracker.pending_map tr = {[c := QueueTask_new (found_task e x n) p now]} ∧
    PeerTracker.active_work tr = 0%Z ∧ PeerTracker.freeze_val tr = 0%Z.
Proof.
  intros Hi Hs Hemp Ha Hc Hcl Hn Hr. pose proof (entries_asks _ _ _ Ha) as He.
  destruct Ha as (Hm & Hx & Hb).
  assert (message_ok m) as Hmok.
  { split; [unfold keyed|]; rewrite Hm; by apply map_Forall_singleton. }
  destruct (message_received_ok now s p m e Hi Hmok Hs) as (e1 & Hrun & Hi1 & Hrec).
  { rewrite He. exact Hr. }
  destruct (received_tasks _ _ _ _ _ _ Hrec) as (ts & Hts & Ht & _).
  rewrite He in Hts. cbn [mbind list_bind app] in Hts. unfold answer, want_answer in Hts.
  rewrite Hcl, Hx, Hn in Hts. apply Permutation_singleton_r in Hts as ->.
  unfold tracker_after, tracker in Ht. rewrite Hemp, lookup_empty in Ht.
  rewrite bool_decide_eq_false_2 in Ht by done. simpl in Ht.
  eexists e1, _. split; [done|]. split; [done|]. split; [done|]. split.
  - apply map_eq. intros p'. destruct (decide (p' = p)) as [->|Hne].
    + rewrite lookup_singleton_eq. exact Ht.
    + rewrite lookup_singleton_ne by done.
      destruct (received_others _ _ _ _ _ _ Hrec p' Hne) as (_ & Ho & _). unfold tracker in Ho.
      by rewrite Ho, Hemp, lookup_empty.
  - rewrite <-Hx at 1. apply (push_new now p _ (found_task e x n)).
Qed.

(** A worker turns that task into a message with the block. *)
Lemma task_served now tmw s p c x n b e e1 tr :
  inv e1 → store_ok s → store_keyed s → (0 < tmw)%Z → outbox e1 = [] →
  BitswapMessage.cid x = c → BitswapMessage.want_type x = Wantlist.Block →
  get_size s c = Some n → get s c = Some b →
  PeerTaskQueue.trackers (peer_task_queue e1) = {[p := tr]} →
  PeerTracker.pending_map tr = {[c := QueueTask_new (found_task e x n) p now]} →
  PeerTracker.active_work tr = 0%Z → PeerTracker.freeze_val tr = 0%Z →
  ∃ e2 msg, worker_tick tmw s e1 = Done e2 ∧ inv e2 ∧
    outbox e2 = [mkEnvelope p msg [found_task e x n]] ∧ BitswapMessage.blocks msg = {[c := b]} ∧
    BitswapMessage.inv msg ∧ ledger_map e2 = ledger_map e1 ∧ score_ledger e2 = score_ledger e1.
Proof.
  intros Hi Hso Hk Hpos Ho Hx Hb Hn Hg Htr Hp Ha Hf.
  assert (work_fits e1) as Hw.
  { intros p' tr' Htr'. unfold tracker in Htr'. rewrite Htr in Htr'.
    apply lookup_singleton_Some in Htr' as [<- <-]. rewrite Ha. unfold PeerTracker.pending_total.
    rewrite Hp. rewrite <-insert_empty, map_sum_insert, map_sum_empty by apply lookup_empty. simpl.
    specialize (Hso _ _ Hn). unfold send_as_block. rewrite Hb. simpl. lia. }
  destruct (worker_tick_ok tmw s e1 Hi Hk Hw) as (e2 & Hrun & Hi2 & Ht & Hl & _ & Hsc).
  assert (∀ p' tr1 tr' ts, tracker e1 p' = Some tr1 → PeerTracker.pop_tasks tmw tr1 = Done (ts, tr') →
    p' = p ∧ ts = [found_task e x n]) as Hone.
  { intros p' tr1 tr' ts H1 H2. unfold tracker in H1. rewrite Htr in H1.
    apply lookup_singleton_Some in H1 as [<- <-]. split; [done|].
    refine (pop_single tmw tr tr' ts c (QueueTask_new (found_task e x n) p now) _ _ _ _ _ _); try done.
    eapply PeerTaskQueue.inv_tracker; [apply Hi|]. rewrite Htr. apply lookup_singleton_eq. }
  assert (reply s (found_task e x n) = (Some b, None)) as Hrep.
  { unfold reply, is_block_task. simpl. unfold send_as_block. rewrite Hb. simpl. by rewrite Hx, Hg. }
  exists e2. destruct Ht as [e2 Hnone _|p' tr1 tr' e2 H1 H2 _|p' tr1 tr' ts e2 H1 H2 H3 _|
    p' tr1 tr' ts msg e2 H1 H2 _ Hh Hans _ Ho2].
  - rewrite Htr in Hnone. by apply map_non_empty_singleton in Hnone.
  - by destruct (Hone _ _ _ _ H1 H2) as [_ [=]].
  - destruct (Hone _ _ _ _ H1 H2) as [_ ->]. apply Forall_cons in H3 as [H3 _]. by rewrite Hrep in H3.
  - destruct (Hone _ _ _ _ H1 H2) as [-> ->]. exists msg. split_and!; try done.
    + by rewrite Ho2, Ho.
    + pose proof Hans as [Hin Hout]. apply map_eq. intros c'. destruct (decide (c' = c)) as [->|Hne].
      * rewrite lookup_singleton_eq. specialize (Hin (found_task e x n)).
        rewrite Hrep in Hin. unfold slot in Hin. simpl in Hin. rewrite Hx in Hin.
        assert (found_task e x n ∈ [found_task e x n]) as Hel by set_solver. specialize (Hin Hel). congruence.
      * rewrite lookup_singleton_ne by done.
        assert (slot msg c' = (None, None)) as Hs'; [|unfold slot in Hs'; congruence].
        apply Hout. simpl. rewrite Hx. set_solver.
    + by eapply answers_message_inv.
Qed.

(** A decidable check of [work_fits]. *)
Lemma work_fits_check e :
  forallb (λ kt, bool_decide (PeerTracker.active_work kt.2 + PeerTracker.pending_total kt.2 ≤ usize_max)%Z)
    (map_to_list (PeerTaskQueue.trackers (peer_task_queue e))) = true → work_fits e.
Proof.
  intros Hall p tr Htr. apply forallb_forall with (x := (p, tr)) in Hall.
  - by apply bool_decide_eq_true in Hall.
  - apply list_elem_of_In. by apply elem_of_map_to_list.
Qed.

(** C23: invariant and progress of the engine.  In every state reachable from a
    new engine, whatever peers, store and workers do, each ledger is filed under
    its peer with a well-formed wantlist, no block is registered without a peer
    that waits for it, the task queue is well formed, and each queued message
    files its blocks under their identifiers and announces no block it carries;
    and none of the five handlers that can panic does so there as long as the
    counters have room: a message, new blocks, received blocks, a tick of a worker
    and the sending of a message. *)
Theorem engine_invariant (c : Config) (e : Engine) :
  rtc step (new c) e →
  (map_Forall Ledger.inv (ledger_map e) ∧ PeerLedger.inv (peer_ledger e) ∧
   PeerTaskQueue.inv (peer_task_queue e) ∧ ScoreLedger.inv (score_ledger e) ∧ envelopes_ok e) ∧
  (∀ now s p m, message_ok m → store_ok s → room (vec_len (entries_of m)) e →
     is_done (message_received now s p m e) = true) ∧
  (∀ now bs, Forall (λ b, vec_len (BitswapMessage.block_data b) ≤ usize_max)%Z bs →
     room (notifications e bs) e → is_done (notify_new_blocks now bs e) = true) ∧
  (∀ now p bs, score_room e p bs → is_done (received_blocks now p bs e) = true) ∧
  (∀ tmw s, store_keyed s → work_fits e → is_done (worker_tick tmw s e) = true) ∧
  (∀ now, (∀ env rest, outbox e = env :: rest → score_room e (env_peer env) (blocks_of (message env))) →
     is_done (send_envelope now e) = true).
Proof.
  intros [Hi Ho]%engine_reachable_inv. split_and!; try done; try apply Hi.
  - intros now s p m Hm Hs Hr. by destruct (message_received_ok now s p m e Hi Hm Hs Hr) as (? & -> & _).
  - intros now bs Hb Hr. by destruct (notify_new_blocks_ok now bs e Hi Hb Hr) as (? & -> & _).
  - intros now p bs Hr. by destruct (received_blocks_ok now p bs e Hi Hr) as (? & -> & _).
  - intros tmw s Hk Hw. by destruct (worker_tick_ok tmw s e Hi Hk Hw) as (? & -> & _).
  - intros now Hr. unfold envelopes_ok in Ho. destruct (outbox e) as [|env rest] eqn:Eo; [unfold send_envelope; by rewrite Eo|].
    apply Forall_cons in Ho as [Hm _]. by destruct (send_envelope_ok now e env rest Hi Eo Hm (Hr _ _ eq_refl)) as (? & ? & -> & _).
Qed.

(** C7: a message of a peer is applied entry by entry.  A full message replaces
    the wants of the peer; a cancel removes one; a want is added, or upgrades a
    want-have to a want-block, and is registered as waiting exactly when the
    store has the block; a denied want is not recorded.  The tasks pushed are
    those that answer the entries, and no other peer is affected. *)
Theorem message_received_correct now s p m e :
  inv e → message_ok m → store_ok s → room (vec_len (entries_of m)) e →
  ∃ e', message_received now s p m e = Done e' ∧ inv e' ∧
    (∀ c, wanted e' p !! c = wants_after e p m c) ∧
    (∀ c, waiting e' p c ↔ waits_after e s p m c) ∧
    (∃ ts, ts ≡ₚ (entries_of m ≫= answer e s p) ∧ tracker e' p = tracker_after now e p m ts) ∧
    (∀ p', p' ≠ p → ledger_map e' !! p' = ledger_map e !! p' ∧ tracker e' p' = tracker e p' ∧
       ∀ c, waiting e' p' c ↔ waiting e p' c).
Proof.
  intros Hi Hm Hs Hr. destruct (message_received_ok now s p m e Hi Hm Hs Hr) as (e' & Hrun & Hi' & Hrec).
  exists e'. split_and!; try done; try apply Hrec.
  destruct (received_tasks _ _ _ _ _ _ Hrec) as (ts & ? & ? & _). eauto.
Qed.

(** New blocks are announced to those who wait for them.  For every block and
    every peer registered as waiting for it that still wants it, a task with the
    block, or with a HAVE for a large block that was only asked about, is pushed
    for the peer, once per block and in the order of the blocks; waits without a
    want are forgotten, and no other wait is. *)
Theorem new_blocks_announced now bs e :
  inv e → Forall (λ b, vec_len (BitswapMessage.block_data b) ≤ usize_max)%Z bs →
  room (notifications e bs) e →
  ∃ e', notify_new_blocks now bs e = Done e' ∧ inv e' ∧ ledger_map e' = ledger_map e ∧
    (∀ p, tracker e' p =
       push_opt now (PeerTaskQueue.max_outstanding_work_per_peer (peer_task_queue e)) p
         (new_blocks_tasks e (block_sizes bs) bs p) (tracker e p)) ∧
    (∀ p c, waiting e' p c ↔
       waiting e p c ∧ ¬ (c ∈ BitswapMessage.block_cid <$> bs ∧ wanted e p !! c = None)).
Proof.
  intros Hi Hb Hr. destruct (notify_new_blocks_ok now bs e Hi Hb Hr) as (e' & Hrun & Hi' & Hn).
  exists e'. split_and!; try done; apply Hn.
Qed.

(** A worker answers each task it takes.  One tick serves at most one peer; the
    message it queues carries for each task the block, a HAVE or a DONT_HAVE as
    the task asks and the store has it, and says nothing about other blocks; a
    batch with nothing to say is completed without a message. *)
Theorem worker_answers tmw s e :
  inv e → store_keyed s → work_fits e →
  ∃ e', worker_tick tmw s e = Done e' ∧ inv e' ∧ ticked tmw s e e' ∧
    ledger_map e' = ledger_map e ∧ peer_ledger e' = peer_ledger e.
Proof.
  intros Hi Hk Hw. destruct (worker_tick_ok tmw s e Hi Hk Hw) as (e' & ? & ? & ? & ? & ? & _).
  exists e'. split_and!; done.
Qed.

(** C2: a request is served from beginning to end.  When an engine with no other
    tasks and an empty outbox receives a message with nothing but one want for a block
    of the store that the peer may have, the next tick of a worker and the next send
    deliver that block to that peer; afterwards the peer does not want the block any
    more and its size was accounted. *)
Theorem request_served now now' tmw s p m c x n b e :
  inv e → store_ok s → store_keyed s → (0 < tmw)%Z →
  PeerTaskQueue.trackers (peer_task_queue e) = ∅ → outbox e = [] →
  asks_only m c x → cid_ok c → classify e p x = Wanted →
  get_size s c = Some n → get s c = Some b → room 1 e → score_room e p [b] →
  ∃ e1 e2 e3 msg, message_received now s p m e = Done e1 ∧ worker_tick tmw s e1 = Done e2 ∧
    send_envelope now' e2 = Done (Some (p, msg), e3) ∧ BitswapMessage.blocks msg = {[c := b]} ∧
    wanted e3 p !! c = None ∧
    ScoreLedger.sent_to (score_ledger e3) p =
      (ScoreLedger.sent_to (score_ledger e) p + vec_len (BitswapMessage.block_data b))%Z.
Proof.
  intros Hi Hs Hk Ht Hemp Ho Ha Hc Hcl Hn Hg Hr Hsr.
  destruct (request_queued now s p m c x n e Hi Hs Hemp Ha Hc Hcl Hn Hr)
    as (e1 & tr & Hrun1 & Hi1 & Hrec & Htr & Hp & Haw & Hf).
  destruct (received_rest _ _ _ _ _ _ Hrec) as [Ho1 Hsc1]. rewrite Ho in Ho1.
  destruct Ha as (_ & Hx & Hb).
  destruct (task_served now tmw s p c x n b e e1 tr)
    as (e2 & msg & Hrun2 & Hi2 & Ho2 & Hbl & Hmi & _ & Hsc2); try done.
  assert (blocks_of msg = [b]) as Hbs.
  { unfold blocks_of, iter_values. rewrite Hbl.
    assert (iter_map ({[c := b]} : gmap Cid Block) = [(c, b)]) as ->; [|done].
    apply Permutation_singleton_r. rewrite iter_map_perm. by rewrite map_to_list_singleton. }
  destruct (send_envelope_ok now' e2 _ [] Hi2 Ho2 Hmi) as (e3 & e2' & Hrun3 & Hi3 & _ & Hsent & Hl3 & _ & Hs3 & _).
  { cbn [message env_peer]. rewrite Hbs. unfold score_room. by rewrite Hsc2, Hsc1. }
  cbn [message env_peer] in *. exists e1, e2, e3, msg. split_and!; try done.
  - unfold wanted. rewrite Hl3. fold (wanted e2' p). rewrite (sent_wants _ _ _ _ Hsent).
    unfold wants_left. by rewrite Hbl, lookup_singleton_eq.
  - rewrite Hs3, (sent_total _ _ _ _ Hsent), Hbs. cbn [score_ledger with_outbox].
    rewrite Hsc2, Hsc1. unfold block_bytes. simpl. lia.
Qed.

(** A block that arrives late is not announced.  A want for a block that the
    store lacks stays in the wantlist of the peer, but the peer is not registered
    as waiting; when the block arrives, nothing is queued for the peer. *)
Theorem late_block_not_announced now now' s p m x b e :
  inv e → message_ok m → store_ok s → room (vec_len (entries_of m)) e →
  BitswapMessage.wantlist m !! BitswapMessage.block_cid b = Some x → classify e p x = Wanted →
  get_size s (BitswapMessage.block_cid b) = None →
  (vec_len (BitswapMessage.block_data b) ≤ usize_max)%Z →
  ∃ e1, message_received now s p m e = Done e1 ∧
    is_Some (wanted e1 p !! BitswapMessage.block_cid b) ∧
    (room (notifications e1 [b]) e1 →
       ∃ e2, notify_new_blocks now' [b] e1 = Done e2 ∧ tracker e2 p = tracker e1 p).
Proof.
  intros Hi Hm Hs Hr Hx Hcl Hn Hb.
  destruct (message_received_ok now s p m e Hi Hm Hs Hr) as (e1 & Hrun & Hi1 & Hrec).
  exists e1. split; [done|]. split.
  - rewrite (received_wants _ _ _ _ _ _ Hrec). unfold wants_after. rewrite Hx, Hcl. eauto.
  - intros Hr1. destruct (notify_new_blocks_ok now' [b] e1 Hi1) as (e2 & Hrun2 & _ & Hnot);
      [by constructor|done|].
    exists e2. split; [done|]. rewrite (notified_tracker _ _ _ _ Hnot).
    unfold new_blocks_tasks. cbn [mbind list_bind]. rewrite decide_False; [done|].
    rewrite (received_waits _ _ _ _ _ _ Hrec). unfold waits_after. rewrite Hx, Hn.
    intros [_ []]. done.
Qed.

(** Waits of served peers are never released.  Sending a block removes the want
    but not the registration of the peer as waiting, and a disconnect only
    releases the blocks that are still wanted: the entry stays for a peer that
    is gone. *)
Theorem served_wait_leaks now p m c b e :
  inv e → BitswapMessage.inv m → score_room e p (blocks_of m) →
  waiting e p c → BitswapMessage.blocks m !! c = Some b →
  ∃ e1, message_sent now p m e = Done e1 ∧ wanted e1 p !! c = None ∧
    ledger_map (peer_disconnected p e1) !! p = None ∧ waiting (peer_disconnected p e1) p c.
Proof.
  intros Hi Hm Hr Hw Hb. destruct (message_sent_ok now p m e Hi Hm Hr) as (e1 & Hrun & Hi1 & Hs).
  assert (wanted e1 p !! c = None) as Hn.
  { rewrite (sent_wants _ _ _ _ Hs). unfold wants_left. by rewrite Hb. }
  exists e1. split; [done|]. split; [done|].
  destruct (peer_disconnected_ok p e1 Hi1) as (_ & Hl & Hwait). split.
  - rewrite Hl. apply lookup_delete_eq.
  - apply Hwait. destruct (sent_rest _ _ _ _ Hs) as (_ & _ & Hp & _). unfold waiting. rewrite Hp.
    split; [done|]. intros [_ Hsome]. rewrite Hn in Hsome. by destruct Hsome.
Qed.
End engine.
End EngineClaims.

(** Concrete runs. *)
Module EngineWitness.
Import PeerTask Engine EngineReceive EngineNotify EngineSend EngineClaims.

#[local] Existing Instance bytes_ids.
#[local] Existing Instance bytes_cids.
#[local] Existing Instance WireFormat.wire_format.
#[local] Existing Instance key_order.
#[local] Existing Instance BitswapMessageWitness.toy_parts.
#[local] Instance task_queue : KeyedPriorityQueue Cid (QueueTask Cid TaskMerger.TaskData) QueueTask_cmp :=
  map_queue QueueTask_cmp.
#[local] Instance peer_queue : KeyedPriorityQueue PeerId PeerTracker.PeerTracker PeerTracker.PeerTracker_cmp :=
  map_queue PeerTracker.PeerTracker_cmp.

Definition c1 : Cid := [x01].
Definition b1 : BitswapMessage.Block := BitswapMessage.mkBlock c1 [x61; x62].
Definition x1 : BitswapMessage.Entry := BitswapMessage.mkEntry c1 5 Wantlist.Block false true.
Definition ask : BitswapMessage.BitswapMessage :=
  BitswapMessage.mkMessage false {[c1 := x1]} ∅ ∅ 0.
Definition give : BitswapMessage.BitswapMessage :=
  BitswapMessage.mkMessage false ∅ {[c1 := b1]} ∅ 0.
Definition start : Engine := new Config_default.
Definition full_store : Store :=
  mkStore (λ c, if bool_decide (c = c1) then Some 2%Z else None)
          (λ c, if bool_decide (c = c1) then Some b1 else None).
Definition empty_store : Store := mkStore (λ _, None) (λ _, None).

Lemma ask_ok : message_ok ask.
Proof.
  split; (apply map_Forall_singleton; [done]) || (apply map_Forall_singleton; vm_compute; split; discriminate).
Qed.
Lemma full_store_ok : store_ok full_store.
Proof. intros c n. simpl. case_bool_decide; [|done]. intros [= <-]. unfold usize_max. lia. Qed.
Lemma full_store_keyed : store_keyed full_store.
Proof. intros c b. simpl. case_bool_decide as Hc; [|done]. intros [= <-]. by rewrite Hc. Qed.
Lemma start_room n : (0 ≤ n ≤ 1000)%Z → room n start.
Proof. intros Hn. split; [|change (PeerTaskQueue.load _) with 0%Z]; unfold usize_max; simpl; lia. Qed.
Lemma start_scores p : score_room start p [b1].
Proof.
  split_and!; unfold ScoreLedger.sent_to, ScoreLedger.recv_from, ScoreLedger.exchanges; simpl;
    rewrite lookup_empty; vm_compute; discriminate.
Qed.

Lemma request_served_witness :
  ∃ e1 e2 e3 msg, message_received 0 full_store 7%nat ask start = Done e1 ∧
    worker_tick 16384 full_store e1 = Done e2 ∧
    send_envelope 1 e2 = Done (Some (7%nat, msg), e3) ∧ BitswapMessage.blocks msg = {[c1 := b1]} ∧
    wanted e3 7%nat !! c1 = None ∧ ScoreLedger.sent_to (score_ledger e3) 7%nat = 2%Z.
Proof.
  apply (request_served 0 1 16384 full_store 7%nat ask c1 x1 2 b1 start).
  - apply engine_new_inv.
  - apply full_store_ok.
  - apply full_store_keyed.
  - lia.
  - reflexivity.
  - reflexivity.
  - split; [reflexivity|split; reflexivity].
  - vm_compute. split; discriminate.
  - reflexivity.
  - reflexivity.
  - reflexivity.
  - apply start_room. lia.
  - apply start_scores.
Defined.

Lemma message_received_correct_witness :
  ∃ e', message_received 0 full_store 7%nat ask start = Done e' ∧
    wanted e' 7%nat !! c1 = Some (Wantlist.Entry_new c1 5 Wantlist.Block) ∧ waiting e' 7%nat c1.
Proof.
  destruct (message_received_correct 0 full_store 7%nat ask start) as (e' & Hrun & _ & Hw & Hwait & _).
  - apply engine_new_inv.
  - apply ask_ok.
  - apply full_store_ok.
  - apply start_room. vm_compute. split; discriminate.
  - exists e'. split; [exact Hrun|]. split; [rewrite Hw; reflexivity|].
    apply Hwait. split; [reflexivity|]. exists 2%Z. reflexivity.
Defined.

Lemma late_block_not_announced_witness :
  ∃ e1, message_received 0 empty_store 7%nat ask start = Done e1 ∧
    is_Some (wanted e1 7%nat !! c1) ∧
    (room (notifications e1 [b1]) e1 →
       ∃ e2, notify_new_blocks 1 [b1] e1 = Done e2 ∧ tracker e2 7%nat = tracker e1 7%nat).
Proof.
  apply (late_block_not_announced 0 1 empty_store 7%nat ask x1 b1 start).
  - apply engine_new_inv.
  - apply ask_ok.
  - intros c n Hn. discriminate Hn.
  - apply start_room. vm_compute. split; discriminate.
  - reflexivity.
  - reflexivity.
  - reflexivity.
  - vm_compute. discriminate.
Defined.

(** An engine in which peer 7 waits for the block. *)
Definition waits : Engine :=
  run_or start (message_received 0 full_store 7%nat ask start).

Lemma waits_run : message_received 0 full_store 7%nat ask start = Done waits.
Proof. apply run_or_Done. vm_compute. reflexivity. Qed.
Lemma waits_step : step start waits.
Proof.
  eapply step_received; [apply ask_ok|apply full_store_ok| |apply waits_run].
  apply start_room. vm_compute. split; discriminate.
Qed.
Lemma waits_inv : inv waits.
Proof. by apply (step_keeps start waits); [apply waits_step|apply engine_new_inv|constructor]. Qed.

Lemma engine_invariant_witness :
  map_Forall Ledger.inv (ledger_map waits) ∧ is_done (worker_tick 100 full_store waits) = true.
Proof.
  destruct (engine_invariant Config_default waits (rtc_once _ _ waits_step))
    as ((Hl & _) & _ & _ & Ht).
  split; [exact Hl|]. apply Ht; [apply full_store_keyed|]. apply work_fits_check. vm_compute. reflexivity.
Defined.

Lemma new_blocks_announced_witness :
  ∃ e', notify_new_blocks 1 [b1] waits = Done e' ∧ inv e' ∧
    new_blocks_tasks waits (block_sizes [b1]) [b1] 7%nat ≠ [].
Proof.
  destruct (new_blocks_announced 1 [b1] waits) as (e' & Hrun & Hi & _).
  - apply waits_inv.
  - constructor; [vm_compute; discriminate|constructor].
  - split; vm_compute; discriminate.
  - exists e'. split; [exact Hrun|]. split; [exact Hi|]. vm_compute. discriminate.
Defined.

Lemma worker_answers_witness :
  ∃ e', worker_tick 100 full_store waits = Done e' ∧ ticked 100 full_store waits e' ∧
    length (outbox (run_or waits (worker_tick 100 full_store waits))) = 1%nat.
Proof.
  destruct (worker_answers 100 full_store waits) as (e' & Hrun & _ & Ht & _).
  - apply waits_inv.
  - apply full_store_keyed.
  - apply work_fits_check. vm_compute. reflexivity.
  - exists e'. split; [exact Hrun|]. split; [exact Ht|]. vm_compute. reflexivity.
Defined.

Lemma give_inv : BitswapMessage.inv give.
Proof.
  split; simpl; [apply map_Forall_empty|by apply map_Forall_singleton|].
  intros c _. apply lookup_empty.
Qed.

Lemma served_wait_leaks_witness :
  ∃ e1, message_sent 1 7%nat give waits = Done e1 ∧ wanted e1 7%nat !! c1 = None ∧
    ledger_map (peer_disconnected 7%nat e1) !! 7%nat = None ∧
    waiting (peer_disconnected 7%nat e1) 7%nat c1.
Proof.
  apply (served_wait_leaks (ids := bytes_ids) 1 7%nat give c1 b1 waits).
  - apply waits_inv.
  - apply give_inv.
  - split; [|split]; vm_compute; discriminate.
  - exists (singleton (A := nat) (B := gset nat) 7%nat). split; [vm_compute; reflexivity|]. apply elem_of_singleton. reflexivity.
  - reflexivity.
Defined.
End EngineWitness.
