(* ===== verification/EngineLocks.v ===== *)
(** * The locks of the decision engine

    The handlers of server/decision.rs share an engine behind [Mutex]es and an
    [RwLock] and run concurrently.  This file gives the sequence of lock
    operations of [message_received] and of [notify_new_blocks] in a state of
    the engine ([Engine.v]), an interleaving semantics of tasks that take and
    release locks, and shows that the two handlers can block each other. *)
From stdpp Require Import base gmap list relations.
From Stdlib Require Import Strings.Byte.
From S2P Require Import Prelude KeyedPriorityQueue Wantlist PeerTracker TaskMerger PeerTaskQueue.
From S2P Require Import Protobuf PbInstance BitswapPb BitswapMessage Ledger Engine EngineReceive EngineClaims.

Module Locks.
Section locks.
  Context {ids : Ids}.

Inductive lock :=
  | LedgerMap
  | PeerLedgerLock
  | LedgerOf (p : PeerId)
  | TaskQueue
  | Metrics.
#[global] Instance lock_eq_dec : EqDecision lock.
Proof. solve_decision. Defined.

(** [Acquire l false] is [RwLock::read]; other acquisitions are exclusive. *)
Inductive action := Acquire (l : lock) (exclusive : bool) | Release (l : lock).

(** ** Tasks and their interleavings *)
Record task := mkTask { todo : list action; held : list (lock * bool) }.

Definition conflicts (l : lock) (x : bool) (h : lock * bool) : bool :=
  bool_decide (h.1 = l) && (x || h.2).
(** No task holds [l] in a mode that excludes [x]. *)
Definition free (l : lock) (x : bool) (ts : list task) : bool :=
  forallb (λ t, negb (existsb (conflicts l x) (held t))) ts.

Definition perform (a : action) (ts : list task) (t : task) : option task :=
  match a with
  | Acquire l x =>
      if free l x ts then Some (mkTask (tail (todo t)) ((l, x) :: held t)) else None
  | Release l => Some (mkTask (tail (todo t)) (filter (λ h, h.1 ≠ l) (held t)))
  end.

Inductive step : list task → list task → Prop :=
  | step_task i t a t' ts :
      ts !! i = Some t → head (todo t) = Some a → perform a ts t = Some t' → step ts (<[i := t']> ts).

(** Some task is not finished and no task can go on. *)
Definition deadlocked (ts : list task) : Prop :=
  (∃ t, t ∈ ts ∧ todo t ≠ []) ∧ ∀ ts', ¬ step ts ts'.

Definition start (as_ : list (list action)) : list task := (λ a, mkTask a []) <$> as_.

Lemma step_first t a t' u :
  head (todo t) = Some a → perform a [t; u] t = Some t' → step [t; u] [t'; u].
Proof. intros H1 H2. by apply (step_task 0 t a t' [t; u]). Qed.

Lemma step_second t u a u' :
  head (todo u) = Some a → perform a [t; u] u = Some u' → step [t; u] [t; u'].
Proof. intros H1 H2. by apply (step_task 1 u a u' [t; u]). Qed.

(** A lock that is taken and released at once. *)
Definition guarded (l : lock) : list action := [Acquire l true; Release l].

Lemma run_guarded l n rest h u :
  free l true [mkTask rest h; u] = true → (∀ k, k ∈ h → k.1 ≠ l) →
  rtc step [mkTask (concat (replicate n (guarded l)) ++ rest) h; u] [mkTask rest h; u].
Proof.
  intros Hf Hh. induction n as [|n IH]; simpl; [done|].
  eapply rtc_l; [|eapply rtc_l; [|exact IH]].
  - apply step_first with (a := Acquire l true); [done|]. simpl.
    unfold free in *. simpl in *. by rewrite Hf.
  - apply step_first with (a := Release l); [done|].
    unfold perform. cbn [held todo tail app]. rewrite filter_cons, decide_False by naive_solver. do 2 f_equal.
    clear -Hh. induction h as [|k h IH]; [done|].
    rewrite filter_cons, decide_True by set_solver. f_equal. apply IH. set_solver.
Qed.
End locks.
End Locks.

Module EngineLocks.
Import PeerTask Engine EngineReceive Locks.
Section engine.
  Context {ids : Ids} {cc : CidCodec} {cp : CidParts} {qp : QuickProtobuf} {ho : HashOrder}.
  Notation TaskData := TaskMerger.TaskData.
  Notation Block := BitswapMessage.Block.
  Notation Message := BitswapMessage.BitswapMessage.
  Context {kpq : KeyedPriorityQueue Cid (QueueTask Cid TaskData) QueueTask_cmp}.
  Notation PeerTracker := (PeerTracker.PeerTracker (T := Cid) (D := TaskData)).
  Context {pkpq : KeyedPriorityQueue PeerId PeerTracker PeerTracker.PeerTracker_cmp}.

(** [update_metrics] with the counter at [n]: it holds its own lock, and reads
    the statistics of the task queue now and then. *)
Definition metrics_locks (n : Z) : list action :=
  [Acquire Metrics true] ++ (if bool_decide ((n + 1) `mod` 100 = 0)%Z then guarded TaskQueue else [])
  ++ [Release Metrics].

Definition message_received_locks (s : Store) (p : PeerId) (m : Message) (e : Engine) : list action :=
  let '(wants, cancels, denials) := split_wants e p (iter_values (BitswapMessage.wantlist m)) in
  let ledger := start_ledger e p m in
  guarded PeerLedgerLock ++ guarded LedgerMap ++ [Acquire (LedgerOf p) true]
  ++ (cancels ≫= λ x,
        match Ledger.wantlist_get (BitswapMessage.cid x) ledger with
        | Some _ => guarded TaskQueue
        | None => []
        end)
  ++ (denials ≫= λ _, guarded PeerLedgerLock)
  ++ (wants ≫= λ x,
        match get_size s (BitswapMessage.cid x) with
        | Some _ => []
        | None => guarded PeerLedgerLock
        end)
  ++ (match (denials ≫= dont_have_task e) ++ (wants ≫= want_answer e (get_size s)) with
      | [] => []
      | _ => guarded TaskQueue ++ metrics_locks (metrics_update_counter e)
      end)
  ++ [Release (LedgerOf p)].

(** One peer that waits for [c]; the counter of the metrics is threaded through. *)
Definition notify_peer_locks (e : Engine) (c : Cid) (st : list action * Z) (p : PeerId) :
    list action * Z :=
  let '(as_, n) := st in
  let read_map := [Acquire LedgerMap false; Release LedgerMap] in
  match ledger_map e !! p with
  | None => (as_ ++ read_map, n)
  | Some l =>
      match Ledger.wantlist_get c l with
      | None => (as_ ++ read_map ++ guarded (LedgerOf p), n)
      | Some _ =>
          (as_ ++ read_map ++ [Acquire (LedgerOf p) true] ++ guarded TaskQueue ++ metrics_locks n
               ++ [Release (LedgerOf p)], n + 1)%Z
      end
  end.

Definition notify_block_locks (e : Engine) (st : list action * Z) (b : Block) : list action * Z :=
  let '(as_, n) := st in
  let c := BitswapMessage.block_cid b in
  match PeerLedger.peers c (peer_ledger e) with
  | None => (as_ ++ guarded PeerLedgerLock, n)
  | Some ps =>
      let '(as_, n) := foldl (notify_peer_locks e c) (as_ ++ [Acquire PeerLedgerLock true], n) (iter_set ps) in
      (as_ ++ [Release PeerLedgerLock], n)
  end.

(** The clean-up at the end, for the peers [ps] with missing wants. *)
Definition forget_locks (e : Engine) (ps : list PeerId) : list action :=
  match ps with
  | [] => []
  | _ =>
      [Acquire LedgerMap false; Acquire PeerLedgerLock true]
      ++ (ps ≫= λ p, match ledger_map e !! p with Some _ => guarded (LedgerOf p) | None => [] end)
      ++ [Release PeerLedgerLock; Release LedgerMap]
  end.

(** The keys of [missing_wants]. *)
Definition missing_peers (e : Engine) (bs : list Block) : list PeerId :=
  iter_set (list_to_set (bs ≫= λ b,
    match PeerLedger.peers (BitswapMessage.block_cid b) (peer_ledger e) with
    | Some ps => filter (λ p, wanted e p !! BitswapMessage.block_cid b = None) (iter_set ps)
    | None => []
    end) : gset PeerId).

Definition notify_new_blocks_locks (bs : list Block) (e : Engine) : list action :=
  match bs with
  | [] => []
  | _ => (foldl (notify_block_locks e) ([], metrics_update_counter e) bs).1
         ++ forget_locks e (missing_peers e bs)
  end.

(** ** Two handlers that wait for each other *)
Lemma guards_replicate {A} (P : A → bool) l (xs : list A) :
  ∃ n, (xs ≫= λ x, if P x then guarded l else []) = concat (replicate n (guarded l)) ∧
    (n = 0%nat ↔ Forall (λ x, P x = false) xs).
Proof.
  induction xs as [|x xs (n & IH & Hn)]; [by exists 0%nat|]. rewrite bind_cons, IH.
  destruct (P x) eqn:E; [exists (S n)|exists n]; (split; [done|]).
  - rewrite Forall_cons, E. naive_solver.
  - rewrite Forall_cons, E. naive_solver.
Qed.

Lemma concat_replicate_add {A} (xs : list A) n k :
  concat (replicate n xs) ++ concat (replicate k xs) = concat (replicate (n + k) xs).
Proof. by rewrite replicate_add, concat_app. Qed.

(** [message_received] takes the ledger of the peer, does some work on the task
    queue, and then waits for the peer ledger. *)
Lemma message_received_prefix s p m e c x :
  keyed m → BitswapMessage.wantlist m !! c = Some x → classify e p x = Wanted → get_size s c = None →
  ∃ n rest, message_received_locks s p m e =
    guarded PeerLedgerLock ++ guarded LedgerMap ++ Acquire (LedgerOf p) true ::
    concat (replicate n (guarded TaskQueue)) ++ Acquire PeerLedgerLock true :: rest.
Proof.
  intros Hk Hx Hcl Hn. unfold message_received_locks. fold (entries_of m). rewrite split_wants_eq.
  set (wants := judged e p Wanted _). set (cancels := judged e p Cancelled _). set (denials := judged e p Denied _).
  assert (x ∈ wants ∧ BitswapMessage.cid x = c) as [Hin Hc].
  { pose proof (Hk _ _ Hx) as Hc. simpl in Hc. split; [|done]. apply elem_of_judged; [done|]. by rewrite Hc. }
  destruct (guards_replicate (λ x, match Ledger.wantlist_get (BitswapMessage.cid x) (start_ledger e p m) with
    Some _ => true | None => false end) TaskQueue cancels) as (n & Hcan & _).
  rewrite (bind_agree _ (λ x, match Ledger.wantlist_get (BitswapMessage.cid x) (start_ledger e p m) with
    Some _ => guarded TaskQueue | None => [] end)) in Hcan.
  2: { intros y _. by destruct (Ledger.wantlist_get _ _). }
  destruct (guards_replicate (λ _, true) PeerLedgerLock denials) as (nd & Hden & _).
  destruct (guards_replicate (λ x, match get_size s (BitswapMessage.cid x) with Some _ => false | None => true end)
    PeerLedgerLock wants) as (nw & Hwan & Hnw).
  rewrite (bind_agree _ (λ x, match get_size s (BitswapMessage.cid x) with
    Some _ => [] | None => guarded PeerLedgerLock end)) in Hwan.
  2: { intros y _. by destruct (get_size s (BitswapMessage.cid y)). }
  rewrite Hcan, Hden, Hwan. set (tl := match _ with [] => [] | _ :: _ => _ end ++ _).
  destruct nw as [|nw].
  { destruct Hnw as [Hnw _]. specialize (Hnw eq_refl). rewrite Forall_forall in Hnw.
    specialize (Hnw x Hin). simpl in Hnw. by rewrite Hc, Hn in Hnw. }
  exists n. rewrite (assoc_L (++) (concat (replicate nd _))), concat_replicate_add.
  rewrite Nat.add_succ_r. simpl. eexists. reflexivity.
Qed.

(** [notify_new_blocks] takes the peer ledger, looks the ledger of the only peer
    that waits up, and waits for it. *)
Lemma notify_prefix e b p :
  PeerLedger.peers (BitswapMessage.block_cid b) (peer_ledger e) = Some {[p]} →
  is_Some (ledger_map e !! p) →
  ∃ rest, notify_new_blocks_locks [b] e =
    Acquire PeerLedgerLock true :: Acquire LedgerMap false :: Release LedgerMap ::
    Acquire (LedgerOf p) true :: rest.
Proof.
  intros Hp [l Hl]. unfold notify_new_blocks_locks. cbn [foldl]. unfold notify_block_locks. rewrite Hp.
  assert (iter_set ({[p]} : gset PeerId) = [p]) as ->.
  { apply Permutation_singleton_r. rewrite iter_set_perm. by rewrite elements_singleton. }
  cbn [foldl]. unfold notify_peer_locks. rewrite Hl.
  destruct (Ledger.wantlist_get _ l); simpl; by eexists.
Qed.

(** Two tasks that have reached these points. *)
Lemma crossed_locks p r1 r2 :
  deadlocked
    [mkTask (Acquire PeerLedgerLock true :: r1) [(LedgerOf p, true)];
     mkTask (Acquire (LedgerOf p) true :: r2) [(PeerLedgerLock, true)]].
Proof.
  split; [eexists; split; [left|done]|]. intros ts' Hs. inversion Hs as [i t a t' ts Hi Ha Hp]; subst.
  destruct i as [|[|i]]; simplify_eq/=; unfold free, conflicts in Hp; simpl in Hp;
    by repeat case_bool_decide.
Qed.

Lemma deadlock_reached n r1 r2 p :
  rtc step
    (start [guarded PeerLedgerLock ++ guarded LedgerMap ++ Acquire (LedgerOf p) true ::
              concat (replicate n (guarded TaskQueue)) ++ Acquire PeerLedgerLock true :: r1;
            Acquire PeerLedgerLock true :: Acquire LedgerMap false :: Release LedgerMap ::
              Acquire (LedgerOf p) true :: r2])
    [mkTask (Acquire PeerLedgerLock true :: r1) [(LedgerOf p, true)];
     mkTask (Acquire (LedgerOf p) true :: r2) [(PeerLedgerLock, true)]].
Proof.
  unfold start. simpl. do 5 (eapply rtc_l; [eapply step_first; [done|reflexivity]|]; simpl).
  etrans; [apply (run_guarded TaskQueue n); [done|by intros ? ->%list_elem_of_singleton]|].
  do 3 (eapply rtc_l; [eapply step_second; [done|reflexivity]|]; simpl). done.
Qed.

(** Two handlers can block each other for ever.  When a peer asks for a block
    that the store lacks while a block that only this peer waits for is
    announced, there is an interleaving after which [message_received] holds the
    ledger of the peer and waits for the peer ledger, [notify_new_blocks] holds
    the peer ledger and waits for the ledger of the peer, and no task can go
    on. *)
Theorem handlers_deadlock s p m e c x b :
  keyed m → BitswapMessage.wantlist m !! c = Some x → classify e p x = Wanted →
  get_size s c = None →
  PeerLedger.peers (BitswapMessage.block_cid b) (peer_ledger e) = Some {[p]} →
  is_Some (ledger_map e !! p) →
  ∃ ts, rtc step (start [message_received_locks s p m e; notify_new_blocks_locks [b] e]) ts ∧
    deadlocked ts.
Proof.
  intros Hk Hx Hcl Hn Hp Hl.
  destruct (message_received_prefix s p m e c x Hk Hx Hcl Hn) as (n & r1 & ->).
  destruct (notify_prefix e b p Hp Hl) as [r2 ->].
  eexists. split; [apply deadlock_reached|apply crossed_locks].
Qed.
End engine.
End EngineLocks.

Module EngineLocksWitness.
Import PeerTask Engine EngineReceive Locks EngineLocks EngineWitness.

#[local] Existing Instance bytes_ids.
#[local] Existing Instance bytes_cids.
#[local] Existing Instance WireFormat.wire_format.
#[local] Existing Instance key_order.
#[local] Existing Instance BitswapMessageWitness.toy_parts.
#[local] Existing Instance task_queue.
#[local] Existing Instance peer_queue.

Definition c2 : Cid := [x02].
Definition x2 : BitswapMessage.Entry := BitswapMessage.mkEntry c2 5 Wantlist.Block false true.
(** Peer 7, which waits for the block of [c1], asks for another block. *)
Definition ask_more : BitswapMessage.BitswapMessage :=
  BitswapMessage.mkMessage false {[c2 := x2]} ∅ ∅ 0.

Lemma handlers_deadlock_witness :
  ∃ ts, rtc Locks.step (Locks.start [message_received_locks full_store 7%nat ask_more waits;
                         notify_new_blocks_locks [b1] waits]) ts ∧ deadlocked ts.
Proof.
  apply (handlers_deadlock full_store 7%nat ask_more waits c2 x2 b1).
  - apply map_Forall_singleton. reflexivity.
  - reflexivity.
  - reflexivity.
  - reflexivity.
  - vm_compute. reflexivity.
  - vm_compute. eexists. reflexivity.
Defined.
End EngineLocksWitness.
