(* ===== verification/PeerWants.v ===== *)
(** * What has been asked of each peer

    packages/beetle-bitswap-next/src/client/peer_want_manager.rs: the want-blocks
    and want-haves sent to each peer, the broadcast wants and the reverse index
    from blocks to peers; and the handle of a message queue (the methods of
    [MessageQueue] in client/message_queue.rs that post to its actor). *)
From stdpp Require Import base gmap list relations.
From S2P Require Import Prelude Wantlist Ledger.

Module QueueHandle.
Section handle.
  Context {ids : Ids}.

Inductive WantsUpdate :=
  | BroadcastWantHaves (want_haves : gset Cid)
  | SendWants (want_blocks want_haves : list Cid)
  | Cancels (cancels : gset Cid).

(** [sender_wants] and [sender_responses] are the channels to the actor: closed,
    or open with all that was posted, in order. *)
Record MessageQueue := mkHandle {
  is_running : bool;
  inbox : list WantsUpdate;
  responses : list (list Cid);
}.
Definition new : MessageQueue := mkHandle true [] [].

Definition send_wants_update (u : WantsUpdate) (q : MessageQueue) : MessageQueue :=
  if is_running q then mkHandle true (inbox q ++ [u]) (responses q) else q.

Definition add_broadcast_want_haves (ws : gset Cid) (q : MessageQueue) : MessageQueue :=
  if bool_decide (ws = ∅) || negb (is_running q) then q
  else send_wants_update (BroadcastWantHaves ws) q.

Definition add_wants (bs hs : list Cid) (q : MessageQueue) : MessageQueue :=
  if (bool_decide (bs = []) && bool_decide (hs = [])) || negb (is_running q) then q
  else send_wants_update (SendWants bs hs) q.

Definition add_cancels (cs : gset Cid) (q : MessageQueue) : MessageQueue :=
  if bool_decide (cs = ∅) || negb (is_running q) then q
  else send_wants_update (Cancels cs) q.

(** [room] tells whether [try_send] finds room in the channel. *)
Definition response_received (room : bool) (cids : list Cid) (q : MessageQueue) : MessageQueue :=
  if bool_decide (cids = []) || negb (is_running q) then q
  else if room then mkHandle (is_running q) (inbox q) (responses q ++ [cids]) else q.

(** ** What the updates amount to

    The wants that the peer is to be asked, after all updates: a want-have never
    replaces a want-block, a cancel withdraws both. *)
Definition demand_update (d : gmap Cid WantType) (u : WantsUpdate) : gmap Cid WantType :=
  match u with
  | BroadcastWantHaves ws => d ∪ gset_to_gmap Have ws
  | SendWants bs hs =>
      gset_to_gmap Block (list_to_set bs) ∪ (d ∪ gset_to_gmap Have (list_to_set hs))
  | Cancels cs => filter (λ ct, ct.1 ∉ cs) d
  end.
Definition demand (us : list WantsUpdate) : gmap Cid WantType := foldl demand_update ∅ us.

Lemma demand_app us u : demand (us ++ [u]) = demand_update (demand us) u.
Proof. unfold demand. by rewrite foldl_app. Qed.

(** The handle's methods as functions of the demand: an update without content
    is not posted, and would not change anything. *)
Lemma add_broadcast_demand ws q :
  is_running q = true →
  demand (inbox (add_broadcast_want_haves ws q)) = demand_update (demand (inbox q)) (BroadcastWantHaves ws).
Proof.
  intros Hr. unfold add_broadcast_want_haves, send_wants_update. rewrite Hr, orb_false_r.
  case_bool_decide as Hw; [|simpl; apply demand_app]. subst. simpl. by rewrite gset_to_gmap_empty, (right_id_L ∅ (∪)).
Qed.

Lemma add_wants_demand bs hs q :
  is_running q = true →
  demand (inbox (add_wants bs hs q)) = demand_update (demand (inbox q)) (SendWants bs hs).
Proof.
  intros Hr. unfold add_wants, send_wants_update. rewrite Hr, orb_false_r.
  destruct (bool_decide (bs = []) && bool_decide (hs = [])) eqn:E; [|simpl; apply demand_app].
  apply andb_true_iff in E as [->%bool_decide_eq_true ->%bool_decide_eq_true]. simpl.
  by rewrite !gset_to_gmap_empty, (right_id_L ∅ (∪)), (left_id_L ∅ (∪)).
Qed.

Lemma add_cancels_demand cs q :
  is_running q = true →
  demand (inbox (add_cancels cs q)) = demand_update (demand (inbox q)) (Cancels cs).
Proof.
  intros Hr. unfold add_cancels, send_wants_update. rewrite Hr, orb_false_r.
  case_bool_decide as Hw; [|simpl; apply demand_app]. subst. simpl. symmetry. apply map_filter_id. set_solver.
Qed.

Lemma update_running u q : is_running (send_wants_update u q) = is_running q.
Proof. unfold send_wants_update. by destruct (is_running q) eqn:E. Qed.
Lemma add_running ws bs hs cs q :
  is_running (add_broadcast_want_haves ws q) = is_running q ∧
  is_running (add_wants bs hs q) = is_running q ∧ is_running (add_cancels cs q) = is_running q.
Proof.
  unfold add_broadcast_want_haves, add_wants, add_cancels.
  split_and!; (destruct (_ || _); [done|apply update_running]).
Qed.
End handle.
End QueueHandle.

Module PeerWantManager.
Import QueueHandle.
Section manager.
  Context {ids : Ids} {ho : HashOrder}.

Record PeerWant := mkWant { want_blocks : gset Cid; want_haves : gset Cid }.
Record PeerWantManager := mk {
  peer_wants : gmap PeerId PeerWant;
  want_peers : gmap Cid (gset PeerId);
  broadcast_wants : gset Cid;
}.
Definition default : PeerWantManager := mk ∅ ∅ ∅.

(** The [message_queue]s of the peer manager's [PeerState]s. *)
Notation queues := (gmap PeerId MessageQueue).

Definition add_peer (p : PeerId) (q : MessageQueue) (m : PeerWantManager) :
    MessageQueue * PeerWantManager :=
  if bool_decide (is_Some (peer_wants m !! p)) then (q, m)
  else
    ((if bool_decide (broadcast_wants m = ∅) then q
      else add_broadcast_want_haves (broadcast_wants m) q),
     mk (<[p := mkWant ∅ ∅]> (peer_wants m)) (want_peers m) (broadcast_wants m)).

Definition reverse_index_remove (c : Cid) (p : PeerId) (m : PeerWantManager) : PeerWantManager :=
  match want_peers m !! c with
  | Some ps =>
      let ps := ps ∖ {[p]} in
      mk (peer_wants m) (if bool_decide (ps = ∅) then delete c (want_peers m) else <[c := ps]> (want_peers m))
         (broadcast_wants m)
  | None => m
  end.

Record WantPeerCounts := mkCounts { want_block : Z; want_have : Z; is_broadcast : bool }.
Definition wanted (c : WantPeerCounts) : bool :=
  bool_decide (0 < want_block c)%Z || bool_decide (0 < want_have c)%Z || is_broadcast c.

(** The body of the loop of [want_peer_counts]. *)
Definition count_peer (c : Cid) (m : PeerWantManager) (acc : outcome WantPeerCounts) (p : PeerId) :
    outcome WantPeerCounts :=
  n ← acc;
  match peer_wants m !! p with
  | Some pw =>
      if bool_decide (c ∈ want_blocks pw) then
        b ← usize_add (want_block n) 1; mret (mkCounts b (want_have n) (is_broadcast n))
      else if bool_decide (c ∈ want_haves pw) then
        h ← usize_add (want_have n) 1; mret (mkCounts (want_block n) h (is_broadcast n))
      else mret n
  | None => mret n
  end.

Definition want_peer_counts (c : Cid) (m : PeerWantManager) : outcome WantPeerCounts :=
  let counts := mkCounts 0 0 (bool_decide (c ∈ broadcast_wants m)) in
  match want_peers m !! c with
  | Some ps => foldl (count_peer c m) (mret counts) (iter_set ps)
  | None => mret counts
  end.

(** The counts only feed gauges that are not implemented: they do not change the
    state, so the operations below leave them out. *)
Definition remove_peer (p : PeerId) (m : PeerWantManager) : PeerWantManager :=
  match peer_wants m !! p with
  | Some pw =>
      let m := mk (delete p (peer_wants m)) (want_peers m) (broadcast_wants m) in
      let m := foldl (λ m c, reverse_index_remove c p m) m (iter_set (want_blocks pw)) in
      foldl (λ m c, reverse_index_remove c p m) m (iter_set (want_haves pw))
  | None => m
  end.

(** The body of the loop of [broadcast_want_haves] over the peers. *)
Definition broadcast_to (unsent : gset Cid) (qs : queues) (pw : PeerId * PeerWant) : queues :=
  let peer_unsent := filter (λ c, c ∉ want_blocks pw.2 ∧ c ∉ want_haves pw.2) unsent in
  if bool_decide (peer_unsent = ∅) then qs
  else alter (add_broadcast_want_haves peer_unsent) pw.1 qs.

Definition broadcast_want_haves (ws : gset Cid) (qs : queues) (m : PeerWantManager) :
    queues * PeerWantManager :=
  let unsent := ws ∖ broadcast_wants m in
  let m := mk (peer_wants m) (want_peers m) (broadcast_wants m ∪ unsent) in
  (foldl (broadcast_to unsent) qs (iter_map (peer_wants m)), m).

(** The loops of [send_wants]. *)
Record Sending := mkSending {
  sd_wants : PeerWant;
  sd_index : gmap Cid (gset PeerId);
  sd_out : list Cid;
}.
Definition index_add (c : Cid) (p : PeerId) (ix : gmap Cid (gset PeerId)) : gmap Cid (gset PeerId) :=
  entry_or ∅ (λ ps, {[p]} ∪ ps) c ix.

Definition send_block (p : PeerId) (st : Sending) (c : Cid) : Sending :=
  let pw := sd_wants st in
  if bool_decide (c ∈ want_blocks pw) then st
  else mkSending (mkWant ({[c]} ∪ want_blocks pw) (want_haves pw ∖ {[c]}))
         (index_add c p (sd_index st)) (sd_out st ++ [c]).

Definition send_have (bw : gset Cid) (p : PeerId) (st : Sending) (c : Cid) : Sending :=
  let pw := sd_wants st in
  if bool_decide (c ∈ bw) then st
  else if negb (bool_decide (c ∈ want_blocks pw)) && negb (bool_decide (c ∈ want_haves pw)) then
    mkSending (mkWant (want_blocks pw) ({[c]} ∪ want_haves pw)) (index_add c p (sd_index st))
      (sd_out st ++ [c])
  else st.

Definition send_wants (p : PeerId) (bs hs : list Cid) (q : MessageQueue) (m : PeerWantManager) :
    MessageQueue * PeerWantManager :=
  match peer_wants m !! p with
  | Some pw =>
      let st := foldl (send_block p) (mkSending pw (want_peers m) []) bs in
      let flt_want_blocks := sd_out st in
      let st := foldl (send_have (broadcast_wants m) p) (mkSending (sd_wants st) (sd_index st) []) hs in
      let flt_want_haves := sd_out st in
      ((if negb (bool_decide (flt_want_blocks = [])) || negb (bool_decide (flt_want_haves = []))
        then add_wants flt_want_blocks flt_want_haves q else q),
       mk (<[p := sd_wants st]> (peer_wants m)) (sd_index st) (broadcast_wants m))
  | None => (q, m)
  end.

(** The macro [send!] of [send_cancels]: one key, then all keys of one peer. *)
Definition cancel_key (bw : gset Cid) (st : PeerWant * gset Cid) (c : Cid) : PeerWant * gset Cid :=
  let '(pw, to_cancel) := st in
  if negb (bool_decide (c ∈ want_blocks pw)) && negb (bool_decide (c ∈ want_haves pw)) then st
  else (mkWant (want_blocks pw ∖ {[c]}) (want_haves pw ∖ {[c]}),
        if bool_decide (c ∈ bw) then to_cancel else {[c]} ∪ to_cancel).

Definition cancel_peer (bw bc : gset Cid) (cancels : list Cid)
    (st : gmap PeerId PeerWant * queues) (p : PeerId) : gmap PeerId PeerWant * queues :=
  let '(pws, qs) := st in
  match pws !! p with
  | Some pw =>
      let '(pw, to_cancel) := foldl (cancel_key bw) (pw, bc) cancels in
      (<[p := pw]> pws,
       if bool_decide (to_cancel = ∅) then qs else alter (add_cancels to_cancel) p qs)
  | None => (pws, qs)
  end.

Definition send_cancels (cancels : list Cid) (qs : queues) (m : PeerWantManager) :
    queues * PeerWantManager :=
  match cancels with
  | [] => (qs, m)
  | _ =>
      let bw := broadcast_wants m in
      let bc : gset Cid := list_to_set (filter (λ c, c ∈ bw) cancels) in
      let ps :=
        if bool_decide (bc = ∅) then
          iter_set (list_to_set
            (omap (λ c, want_peers m !! c) cancels ≫= λ ps, iter_set ps) : gset PeerId)
        else (iter_map (peer_wants m)).*1 in
      let '(pws, qs) := foldl (cancel_peer bw bc cancels) (peer_wants m, qs) ps in
      (qs, mk pws (foldl (λ ix c, delete c ix) (want_peers m) cancels) (bw ∖ bc))
  end.

Definition get_want_blocks (m : PeerWantManager) : gset Cid :=
  list_to_set (iter_values (peer_wants m) ≫= λ pw, iter_set (want_blocks pw)).
Definition get_want_haves (m : PeerWantManager) : gset Cid :=
  list_to_set ((iter_values (peer_wants m) ≫= λ pw, iter_set (want_haves pw))
               ++ iter_set (broadcast_wants m)).
Definition get_wants (m : PeerWantManager) : gset Cid :=
  list_to_set (iter_set (broadcast_wants m) ++ (iter_map (want_peers m)).*1).

(** ** Invariant: the reverse index is exact

    [asked] is the relation between peers and blocks that [peer_wants] records;
    [indexed] is the one of the reverse index. *)
Definition in_want (pw : PeerWant) (c : Cid) : Prop := c ∈ want_blocks pw ∨ c ∈ want_haves pw.
Definition asked (m : PeerWantManager) (p : PeerId) (c : Cid) : Prop :=
  ∃ pw, peer_wants m !! p = Some pw ∧ in_want pw c.
Definition indexed (ix : gmap Cid (gset PeerId)) : PeerId → Cid → Prop :=
  PeerLedger.waiting (PeerLedger.mk ix).

#[global] Instance in_want_dec pw c : Decision (in_want pw c).
Proof. unfold in_want. apply _. Defined.

Record inv (m : PeerWantManager) : Prop := {
  inv_index p c : indexed (want_peers m) p c ↔ asked m p c;
  inv_nonempty c : want_peers m !! c ≠ Some ∅;
  inv_disjoint p pw : peer_wants m !! p = Some pw → want_blocks pw ## want_haves pw;
}.

Lemma wants_default_inv : inv default.
Proof.
  split; simpl; [|done|done]. intros p c. split; [intros (? & ? & _)|intros (? & ? & _)]; done.
Qed.

Lemma reverse_index_cancel c p m :
  reverse_index_remove c p m =
    mk (peer_wants m) (PeerLedger.cids (PeerLedger.cancel_want p c (PeerLedger.mk (want_peers m))))
       (broadcast_wants m).
Proof.
  unfold reverse_index_remove, PeerLedger.cancel_want. simpl.
  destruct (want_peers m !! c); [done|]. by destruct m.
Qed.

Lemma reverse_index_cancels cs p m :
  foldl (λ m c, reverse_index_remove c p m) m cs =
    mk (peer_wants m) (PeerLedger.cids (PeerLedger.cancel_all p cs (PeerLedger.mk (want_peers m))))
       (broadcast_wants m).
Proof.
  revert m. induction cs as [|c cs IH]; intros m; cbn [foldl PeerLedger.cancel_all]; [by destruct m|].
  rewrite IH, reverse_index_cancel. simpl. by destruct (PeerLedger.cancel_want p c _).
Qed.

Lemma mk_cids (k : PeerLedger.PeerLedger) : PeerLedger.mk (PeerLedger.cids k) = k.
Proof. by destruct k. Qed.

Lemma remove_peer_ok p m :
  inv m → inv (remove_peer p m) ∧ peer_wants (remove_peer p m) = delete p (peer_wants m) ∧
    broadcast_wants (remove_peer p m) = broadcast_wants m.
Proof.
  intros Hi. unfold remove_peer. destruct (peer_wants m !! p) as [pw|] eqn:E.
  - rewrite !reverse_index_cancels. simpl. set (l := PeerLedger.mk (want_peers m)).
    split; [|done]. split; simpl.
    + intros p' c. unfold indexed.
      rewrite !mk_cids, !PeerLedger.waiting_cancel_all, !elem_of_iter_set.
      assert (PeerLedger.waiting l p' c ↔ asked m p' c) as -> by apply (inv_index _ Hi p' c).
      unfold asked; simpl. destruct (decide (p' = p)) as [->|Hne].
      * rewrite lookup_delete_eq, E. unfold in_want. naive_solver.
      * rewrite lookup_delete_ne by done. naive_solver.
    + assert (PeerLedger.inv l) as Hl by exact (inv_nonempty _ Hi).
      pose proof (PeerLedger.cancel_all_inv (iter_set (want_blocks pw)) l p Hl) as H1.
      rewrite mk_cids. exact (PeerLedger.cancel_all_inv (iter_set (want_haves pw)) _ p H1).
    + intros p' pw' [_ Hp]%lookup_delete_Some. by apply (inv_disjoint _ Hi p').
  - rewrite delete_id by done. done.
Qed.

Lemma add_peer_inv p q m : inv m → inv (add_peer p q m).2.
Proof.
  intros Hi. unfold add_peer. case_bool_decide as Hp; [done|].
  assert (peer_wants m !! p = None) as Hn by (by apply eq_None_not_Some).
  split; simpl; [|apply Hi|].
  - intros p' c. rewrite (inv_index _ Hi). unfold asked; simpl. destruct (decide (p' = p)) as [->|Hne].
    + rewrite lookup_insert_eq, Hn. split; [naive_solver|]. intros (? & [= <-] & [Hc|Hc]); simpl in Hc; set_solver.
    + by rewrite lookup_insert_ne.
  - intros p' pw [[<- <-]|[? ?]]%lookup_insert_Some; [set_solver|by apply (inv_disjoint _ Hi p')].
Qed.

Lemma broadcast_inv ws qs m : inv m → inv (broadcast_want_haves ws qs m).2.
Proof. intros Hi. split; apply Hi. Qed.

(** *** Sending *)
Record sending_ok (p : PeerId) (ix : gmap Cid (gset PeerId)) (st : Sending) : Prop := {
  so_index p' c : indexed (sd_index st) p' c ↔
    (p' = p ∧ in_want (sd_wants st) c) ∨ (p' ≠ p ∧ indexed ix p' c);
  so_nonempty c : sd_index st !! c ≠ Some ∅;
  so_disjoint : want_blocks (sd_wants st) ## want_haves (sd_wants st);
}.

Lemma index_add_indexed c p ix p' c' : indexed (index_add c p ix) p' c' ↔ (p' = p ∧ c' = c) ∨ indexed ix p' c'.
Proof. apply (PeerLedger.waiting_wants (PeerLedger.mk ix)). Qed.

Lemma index_add_nonempty c p ix :
  (∀ c, ix !! c ≠ Some ∅) → ∀ c', index_add c p ix !! c' ≠ Some ∅.
Proof. intros Hix. apply (PeerLedger.wants_peers_inv p c (PeerLedger.mk ix)). exact Hix. Qed.

Lemma send_block_ok p ix st c : sending_ok p ix st → sending_ok p ix (send_block p st c).
Proof.
  intros [Hi Hn Hd]. unfold send_block. case_bool_decide as Hc; [done|]. split; simpl.
  - intros p' c'. rewrite index_add_indexed, Hi. unfold in_want; simpl.
    destruct (decide (c' = c)) as [->|Hne]; set_solver.
  - by apply index_add_nonempty.
  - set_solver.
Qed.

Lemma send_have_ok bw p ix st c : sending_ok p ix st → sending_ok p ix (send_have bw p st c).
Proof.
  intros [Hi Hn Hd]. unfold send_have. case_bool_decide; [done|].
  destruct (_ && _) eqn:E; [|done].
  apply andb_true_iff in E as [E1%negb_true_iff%bool_decide_eq_false E2%negb_true_iff%bool_decide_eq_false].
  split; simpl.
  - intros p' c'. rewrite index_add_indexed, Hi. unfold in_want; simpl. set_solver.
  - by apply index_add_nonempty.
  - set_solver.
Qed.

Lemma send_wants_inv p bs hs q m : inv m → inv (send_wants p bs hs q m).2.
Proof.
  intros Hi. unfold send_wants. destruct (peer_wants m !! p) as [pw|] eqn:E; [|done]. cbn [snd].
  assert (sending_ok p (want_peers m) (mkSending pw (want_peers m) [])) as H0.
  { split; simpl; [|apply Hi|by apply (inv_disjoint _ Hi p)]. intros p' c.
    rewrite (inv_index _ Hi). unfold asked. destruct (decide (p' = p)) as [->|Hne]; [|naive_solver].
    rewrite E. naive_solver. }
  assert (∀ cs st, sending_ok p (want_peers m) st →
    sending_ok p (want_peers m) (foldl (send_block p) st cs)) as Hb.
  { induction cs; simpl; auto using send_block_ok. }
  assert (∀ cs st, sending_ok p (want_peers m) st →
    sending_ok p (want_peers m) (foldl (send_have (broadcast_wants m) p) st cs)) as Hh.
  { induction cs; simpl; auto using send_have_ok. }
  set (st1 := foldl (send_block p) _ bs). set (st2 := foldl _ _ hs).
  assert (sending_ok p (want_peers m) st2) as [H1 H2 H3].
  { apply Hh. destruct (Hb bs _ H0) as [? ? ?]. by split. }
  split; simpl; [|done|].
  - intros p' c. rewrite H1, (inv_index _ Hi). unfold asked; simpl.
    destruct (decide (p' = p)) as [->|Hne].
    + rewrite lookup_insert_eq. naive_solver.
    + rewrite lookup_insert_ne by done. naive_solver.
  - intros p' pw' [[<- <-]|[? ?]]%lookup_insert_Some; [done|by apply (inv_disjoint _ Hi p')].
Qed.

(** What is sent: a want-block is sent once, a want-have when the block was not
    asked for before in any way. *)
Lemma send_blocks_out p bs st :
  let st' := foldl (send_block p) st bs in
  (∀ c, c ∈ want_blocks (sd_wants st') ↔ c ∈ want_blocks (sd_wants st) ∨ c ∈ bs) ∧
  (∀ c, in_want (sd_wants st') c ↔ in_want (sd_wants st) c ∨ c ∈ bs) ∧
  ∃ l, sd_out st' = sd_out st ++ l ∧ NoDup l ∧
    ∀ c, c ∈ l ↔ c ∈ bs ∧ c ∉ want_blocks (sd_wants st).
Proof.
  simpl. revert st. induction bs as [|b bs IH]; intros st; cbn [foldl].
  { split_and!; [set_solver|set_solver|]. exists []. rewrite app_nil_r. split_and!; [done|constructor|set_solver]. }
  destruct (IH (send_block p st b)) as (H1 & H2 & l & H3 & H4 & H5). unfold send_block in *.
  case_bool_decide as Hb; simpl in *.
  - split_and!; [set_solver|unfold in_want in *; set_solver|]. exists l. split_and!; [done|done|set_solver].
  - split_and!.
    + set_solver.
    + intros c. rewrite H2. unfold in_want; simpl. destruct (decide (c = b)) as [->|]; set_solver.
    + exists (b :: l). split_and!; [by rewrite H3, <-(assoc_L (++))|constructor; set_solver|].
      intros c. rewrite elem_of_cons, H5. destruct (decide (c = b)) as [->|]; set_solver.
Qed.

Lemma send_haves_out bw p hs st :
  let st' := foldl (send_have bw p) st hs in
  want_blocks (sd_wants st') = want_blocks (sd_wants st) ∧
  (∀ c, in_want (sd_wants st') c ↔ in_want (sd_wants st) c ∨ (c ∈ hs ∧ c ∉ bw)) ∧
  ∃ l, sd_out st' = sd_out st ++ l ∧ NoDup l ∧
    ∀ c, c ∈ l ↔ c ∈ hs ∧ c ∉ bw ∧ ¬ in_want (sd_wants st) c.
Proof.
  simpl. revert st. induction hs as [|h hs IH]; intros st; cbn [foldl].
  { split_and!; [done|set_solver|]. exists []. rewrite app_nil_r. split_and!; [done|constructor|set_solver]. }
  destruct (IH (send_have bw p st h)) as (H1 & H2 & l & H3 & H4 & H5). unfold send_have in *.
  case_bool_decide as Hb; [|destruct (_ && _) eqn:E].
  - split_and!; [done|set_solver|]. exists l. split_and!; [done|done|set_solver].
  - apply andb_true_iff in E as [E1%negb_true_iff%bool_decide_eq_false E2%negb_true_iff%bool_decide_eq_false].
    simpl in *. split_and!.
    + done.
    + intros c. rewrite H2. unfold in_want; simpl. set_solver.
    + exists (h :: l). unfold in_want in *; simpl in *.
      split_and!; [by rewrite H3, <-(assoc_L (++))|constructor; set_solver|].
      intros c. rewrite elem_of_cons, H5. destruct (decide (c = h)) as [->|]; set_solver.
  - assert (in_want (sd_wants st) h) as Hin.
    { unfold in_want. apply andb_false_iff in E as [E%negb_false_iff%bool_decide_eq_true|
        E%negb_false_iff%bool_decide_eq_true]; auto. }
    split_and!; [done| |].
    + intros c. rewrite H2. rewrite elem_of_cons. naive_solver.
    + exists l. split_and!; [done|done|]. intros c. rewrite H5, elem_of_cons. naive_solver.
Qed.

(** *** Cancelling *)

(** What is left of a peer's wants, and what the peer is told. *)
Definition without (cs : gset Cid) (pw : PeerWant) : PeerWant :=
  mkWant (want_blocks pw ∖ cs) (want_haves pw ∖ cs).
Definition to_cancel (bw : gset Cid) (cs : gset Cid) (pw : PeerWant) : gset Cid :=
  filter (λ c, c ∈ bw ∨ in_want pw c) cs.

Lemma cancel_keys_ok bw cs pw (bc : gset Cid) :
  foldl (cancel_key bw) (pw, bc) cs =
    (without (list_to_set cs) pw,
     bc ∪ filter (λ c, c ∉ bw ∧ in_want pw c) (list_to_set cs)).
Proof.
  revert pw bc. induction cs as [|c cs IH]; intros pw bc; cbn [foldl list_to_set].
  - unfold without. destruct pw as [wb wh]. simpl. f_equal; [f_equal; set_solver|set_solver].
  - unfold cancel_key at 2. destruct (negb _ && negb _) eqn:E; rewrite IH.
    + apply andb_true_iff in E as [E1%negb_true_iff%bool_decide_eq_false E2%negb_true_iff%bool_decide_eq_false].
      f_equal; [unfold without; f_equal; set_solver|].
      apply set_eq. intros d. unfold in_want.
      rewrite !elem_of_union, !elem_of_filter, !elem_of_union, elem_of_singleton.
      destruct (decide (d = c)) as [->|]; tauto.
    + f_equal; [unfold without; f_equal; simpl; set_solver|].
      assert (in_want pw c) as Hin.
      { unfold in_want. apply andb_false_iff in E as [E%negb_false_iff%bool_decide_eq_true|
          E%negb_false_iff%bool_decide_eq_true]; auto. }
      apply set_eq. intros d. unfold in_want in *. simpl.
      destruct (decide (c ∈ bw)) as [Hb|Hb];
        [rewrite bool_decide_eq_true_2 by done|rewrite bool_decide_eq_false_2 by done];
        rewrite !elem_of_union, !elem_of_filter, !elem_of_union, ?elem_of_difference, ?elem_of_singleton;
        destruct (decide (d = c)) as [->|Hne]; tauto.
Qed.

Lemma cancel_peer_eq bw cs pws (qs : queues) p :
  let bc : gset Cid := list_to_set (filter (λ c, c ∈ bw) cs) in
  cancel_peer bw bc cs (pws, qs) p =
    match pws !! p with
    | Some pw => (<[p := without (list_to_set cs) pw]> pws,
                  alter (add_cancels (to_cancel bw (list_to_set cs) pw)) p qs)
    | None => (pws, qs)
    end.
Proof.
  simpl. unfold cancel_peer. destruct (pws !! p) as [pw|]; [|done]. rewrite cancel_keys_ok.
  assert ((list_to_set (filter (λ c, c ∈ bw) cs) : gset Cid)
    ∪ filter (λ c, c ∉ bw ∧ in_want pw c) (list_to_set cs) = to_cancel bw (list_to_set cs) pw) as ->.
  { apply set_eq. intros c. unfold to_cancel.
    rewrite elem_of_union, !elem_of_filter, !elem_of_list_to_set, list_elem_of_filter.
    destruct (decide (c ∈ bw)); naive_solver. }
  f_equal. case_bool_decide as He; [|done]. rewrite He. symmetry. apply alter_id. intros q _.
  unfold add_cancels. by rewrite bool_decide_eq_true_2.
Qed.

Lemma cancel_peers_ok bw cs ps pws (qs : queues) :
  let bc : gset Cid := list_to_set (filter (λ c, c ∈ bw) cs) in
  NoDup ps →
  let '(pws', qs') := foldl (cancel_peer bw bc cs) (pws, qs) ps in
  ∀ p, pws' !! p = (if decide (p ∈ ps) then without (list_to_set cs) <$> pws !! p else pws !! p) ∧
    qs' !! p = match pws !! p with
               | Some pw => if decide (p ∈ ps)
                            then add_cancels (to_cancel bw (list_to_set cs) pw) <$> qs !! p else qs !! p
               | None => qs !! p
               end.
Proof.
  simpl. revert pws qs. induction ps as [|p ps IH]; intros pws qs Hnd; cbn [foldl].
  { intros p. by destruct (pws !! p). }
  apply NoDup_cons in Hnd as [Hp Hnd]. rewrite cancel_peer_eq.
  destruct (pws !! p) as [pw|] eqn:E.
  - specialize (IH (<[p := without (list_to_set cs) pw]> pws)
      (alter (add_cancels (to_cancel bw (list_to_set cs) pw)) p qs) Hnd).
    destruct (foldl _ _ ps) as [pws' qs']. intros p'. destruct (IH p') as [H1 H2].
    rewrite H1, H2. clear IH H1 H2. destruct (decide (p' = p)) as [->|Hne].
    + rewrite lookup_insert_eq, lookup_alter_eq, E.
      rewrite !(decide_False (P := p ∈ ps)) by done. by rewrite !decide_True by set_solver.
    + rewrite lookup_insert_ne, lookup_alter_ne by done.
      by destruct (pws !! p'); rewrite !(decide_ext (p' ∈ ps) (p' ∈ p :: ps)) by (rewrite elem_of_cons; tauto).
  - specialize (IH pws qs Hnd). destruct (foldl _ _ ps) as [pws' qs']. intros p'.
    destruct (IH p') as [H1 H2]. rewrite H1, H2. clear IH H1 H2. destruct (decide (p' = p)) as [->|Hne].
    + rewrite E. by repeat case_decide.
    + by destruct (pws !! p'); rewrite !(decide_ext (p' ∈ ps) (p' ∈ p :: ps)) by (rewrite elem_of_cons; tauto).
Qed.

(** What [send_cancels] does to every peer, whichever of its two loops runs. *)
Lemma send_cancels_peers cs qs m :
  inv m →
  let '(qs', m') := send_cancels cs qs m in
  (∀ p, peer_wants m' !! p = without (list_to_set cs) <$> peer_wants m !! p) ∧
  (∀ p, qs' !! p = match peer_wants m !! p with
                   | Some pw => add_cancels (to_cancel (broadcast_wants m) (list_to_set cs) pw) <$> qs !! p
                   | None => qs !! p
                   end) ∧
  broadcast_wants m' = broadcast_wants m ∖ list_to_set cs ∧
  (∀ c, want_peers m' !! c = if decide (c ∈ cs) then None else want_peers m !! c).
Proof.
  intros Hi. unfold send_cancels. destruct cs as [|c0 cs0] eqn:Ecs.
  { split_and!; simpl; [| |set_solver|done].
    - intros p. destruct (peer_wants m !! p) as [[wb wh]|]; simpl; [|done]. unfold without. simpl.
      by rewrite !difference_empty_L.
    - intros p. destruct (peer_wants m !! p); [|done]. destruct (qs !! p); simpl; [|done].
      unfold to_cancel. rewrite filter_empty_L by apply _. unfold add_cancels.
      by rewrite bool_decide_eq_true_2. }
  rewrite <-Ecs. clear Ecs c0 cs0.
  set (bw := broadcast_wants m). set (bc := list_to_set (filter (λ c, c ∈ bw) cs) : gset Cid).
  set (ps := if bool_decide (bc = ∅) then _ else _).
  assert (NoDup ps) as Hnd.
  { unfold ps. case_bool_decide; [apply NoDup_iter_set|apply NoDup_iter_map_keys]. }
  pose proof (cancel_peers_ok bw cs ps (peer_wants m) qs Hnd) as Hc. fold bc in Hc.
  destruct (foldl (cancel_peer bw bc cs) (peer_wants m, qs) ps) as [pws' qs'].
  assert (∀ p pw, peer_wants m !! p = Some pw → p ∉ ps →
    without (list_to_set cs) pw = pw ∧ to_cancel bw (list_to_set cs) pw = ∅) as Hout.
  { intros p pw Hp Hps. unfold ps in Hps. case_bool_decide as Hbc.
    - assert (∀ c, c ∈ cs → ¬ in_want pw c) as Hno.
      { intros c Hin Hw. apply Hps. rewrite elem_of_iter_set, elem_of_list_to_set, list_elem_of_bind.
        destruct (proj2 (inv_index _ Hi p c)) as (ps' & Hps' & Hin'); [by exists pw|].
        exists ps'. rewrite elem_of_iter_set, list_elem_of_omap. eauto. }
      split.
      + unfold without. destruct pw as [wb wh]. unfold in_want in Hno. simpl in *. f_equal; set_solver.
      + apply set_eq. intros c. unfold to_cancel.
        rewrite elem_of_filter, elem_of_list_to_set. split; [|set_solver].
        intros [[Hb|Hw] Hin]; [|by destruct (Hno c)].
        assert (c ∈ bc); [|set_solver]. unfold bc. rewrite elem_of_list_to_set, list_elem_of_filter. done.
    - destruct Hps. apply list_elem_of_fmap. exists (p, pw). split; [done|]. by apply elem_of_iter_map. }
  split_and!; simpl.
  - intros p. rewrite (proj1 (Hc p)). case_decide as Hp; [done|].
    destruct (peer_wants m !! p) as [pw|] eqn:E; [|done]. simpl. by rewrite (proj1 (Hout p pw E Hp)).
  - intros p. rewrite (proj2 (Hc p)). destruct (peer_wants m !! p) as [pw|] eqn:E; [|done].
    case_decide as Hp; [done|]. rewrite (proj2 (Hout p pw E Hp)). destruct (qs !! p); simpl; [|done].
    unfold add_cancels. by rewrite bool_decide_eq_true_2.
  - apply set_eq. intros c. unfold bc. rewrite !elem_of_difference, !elem_of_list_to_set, list_elem_of_filter.
    naive_solver.
  - intros c. apply delete_keys_lookup.
Qed.

Lemma send_cancels_inv cs qs m : inv m → inv (send_cancels cs qs m).2.
Proof.
  intros Hi. pose proof (send_cancels_peers cs qs m Hi) as Hs.
  destruct (send_cancels cs qs m) as [qs' m']. destruct Hs as (Hp & _ & _ & Hix). split; simpl.
  - intros p c. unfold indexed, PeerLedger.waiting, PeerLedger.peers. simpl. rewrite Hix.
    pose proof (inv_index _ Hi p c) as Hic. unfold asked in *. rewrite Hp.
    destruct (decide (c ∈ cs)) as [Hin|Hin].
    + split; [intros (? & ? & _); done|]. intros (pw & (pw0 & _ & ->)%fmap_Some_1 & [Hc|Hc]); simpl in Hc; set_solver.
    + transitivity (∃ pw, peer_wants m !! p = Some pw ∧ in_want pw c); [exact Hic|]. split.
      * intros (pw & -> & Hw). eexists. split; [done|]. unfold in_want in *. simpl. set_solver.
      * intros (pw & (pw0 & -> & ->)%fmap_Some_1 & Hw). exists pw0. split; [done|].
        unfold in_want in *. simpl in Hw. set_solver.
  - intros c. rewrite Hix. case_decide; [done|]. apply Hi.
  - intros p pw. rewrite Hp. intros (pw0 & Hpw0 & ->)%fmap_Some_1. simpl.
    pose proof (inv_disjoint _ Hi p pw0 Hpw0). set_solver.
Qed.

(** ** The manager as a transition system *)
Inductive step : PeerWantManager → PeerWantManager → Prop :=
  | step_add p q m : step m (add_peer p q m).2
  | step_remove p m : step m (remove_peer p m)
  | step_broadcast ws qs m : step m (broadcast_want_haves ws qs m).2
  | step_send p bs hs q m : step m (send_wants p bs hs q m).2
  | step_cancel cs qs m : step m (send_cancels cs qs m).2.

Lemma wants_step_inv m m' : step m m' → inv m → inv m'.
Proof.
  intros [] Hi.
  - by apply add_peer_inv.
  - by apply remove_peer_ok.
  - by apply broadcast_inv.
  - by apply send_wants_inv.
  - by apply send_cancels_inv.
Qed.

Lemma wants_reachable_inv m : rtc step default m → inv m.
Proof.
  revert m. apply rtc_ind_r; [apply wants_default_inv|]. intros m m' _ Hs Hi.
  by apply (wants_step_inv m).
Qed.

(** The getters. *)
Lemma get_want_blocks_ok m c :
  c ∈ get_want_blocks m ↔ ∃ p pw, peer_wants m !! p = Some pw ∧ c ∈ want_blocks pw.
Proof.
  unfold get_want_blocks. rewrite elem_of_list_to_set, list_elem_of_bind. split.
  - intros (pw & Hc%elem_of_iter_set & (p & Hp)%elem_of_iter_values). eauto.
  - intros (p & pw & Hp & Hc). exists pw. rewrite elem_of_iter_set, elem_of_iter_values. eauto.
Qed.

Lemma get_want_haves_ok m c :
  c ∈ get_want_haves m ↔
    (∃ p pw, peer_wants m !! p = Some pw ∧ c ∈ want_haves pw) ∨ c ∈ broadcast_wants m.
Proof.
  unfold get_want_haves. rewrite elem_of_list_to_set, elem_of_app, list_elem_of_bind, elem_of_iter_set.
  f_equiv. split.
  - intros (pw & Hc%elem_of_iter_set & (p & Hp)%elem_of_iter_values). eauto.
  - intros (p & pw & Hp & Hc). exists pw. rewrite elem_of_iter_set, elem_of_iter_values. eauto.
Qed.

Lemma get_wants_ok m c : inv m → c ∈ get_wants m ↔ c ∈ broadcast_wants m ∨ ∃ p, asked m p c.
Proof.
  intros Hi. unfold get_wants. rewrite elem_of_list_to_set, elem_of_app, elem_of_iter_set. f_equiv.
  rewrite list_elem_of_fmap. split.
  - intros ([c' ps] & -> & Hps%elem_of_iter_map). simpl in *.
    destruct (decide (ps = ∅)) as [->|(p & Hp)%set_choose_L]; [by destruct (inv_nonempty _ Hi c')|].
    exists p. apply (inv_index _ Hi). by exists ps.
  - intros (p & (ps & Hps & _)%(inv_index _ Hi)). exists (c, ps). by rewrite elem_of_iter_map.
Qed.

(** ** What the queues were told

    [recorded] is what the manager believes that a peer was asked; [told]: the
    updates posted to every peer's queue amount to that. *)
Definition recorded (bw : gset Cid) (pw : PeerWant) (c : Cid) : option WantType :=
  if bool_decide (c ∈ want_blocks pw) then Some Block
  else if bool_decide (c ∈ want_haves pw) || bool_decide (c ∈ bw) then Some Have else None.

Definition told_one (bw : gset Cid) (pw : PeerWant) (q : MessageQueue) : Prop :=
  is_running q = true ∧ ∀ c, demand (inbox q) !! c = recorded bw pw c.
Definition told (qs : queues) (m : PeerWantManager) : Prop :=
  ∀ p pw q, peer_wants m !! p = Some pw → qs !! p = Some q → told_one (broadcast_wants m) pw q.

Lemma broadcast_queues ws qs m p :
  let unsent := ws ∖ broadcast_wants m in
  (broadcast_want_haves ws qs m).1 !! p =
    match peer_wants m !! p with
    | Some pw => add_broadcast_want_haves
        (filter (λ c, c ∉ want_blocks pw ∧ c ∉ want_haves pw) unsent) <$> qs !! p
    | None => qs !! p
    end.
Proof.
  unfold broadcast_want_haves. simpl. set (un := ws ∖ broadcast_wants m).
  assert (∀ l, NoDup l.*1 → ∀ qs, foldl (broadcast_to un) qs l !! p =
    match (list_to_map l : gmap PeerId PeerWant) !! p with
    | Some pw => add_broadcast_want_haves
        (filter (λ c, c ∉ want_blocks pw ∧ c ∉ want_haves pw) un) <$> qs !! p
    | None => qs !! p
    end) as Hl.
  { induction l as [|[p' pw] l IH]; intros Hnd qs0; simpl; [done|]. apply NoDup_cons in Hnd as [Hp Hnd].
    rewrite IH by done. assert (∀ p0, broadcast_to un qs0 (p', pw) !! p0 =
      if decide (p0 = p') then add_broadcast_want_haves
        (filter (λ c, c ∉ want_blocks pw ∧ c ∉ want_haves pw) un) <$> qs0 !! p0 else qs0 !! p0) as ->.
    { intros p0. unfold broadcast_to. simpl. case_decide as Hd; subst.
      - case_bool_decide as He; [|by rewrite lookup_alter_eq]. rewrite He. unfold add_broadcast_want_haves.
        rewrite bool_decide_eq_true_2 by done. simpl. by destruct (qs0 !! p').
      - case_bool_decide; [done|]. by rewrite lookup_alter_ne. }
    destruct (decide (p = p')) as [->|Hne].
    - rewrite lookup_insert_eq, (not_elem_of_list_to_map_1 _ _ Hp). done.
    - by rewrite lookup_insert_ne. }
  rewrite Hl by apply NoDup_iter_map_keys.
  assert ((list_to_map (iter_map (peer_wants m)) : gmap PeerId PeerWant) = peer_wants m) as -> by apply list_to_map_iter.
  done.
Qed.

Lemma broadcast_told ws qs m :
  told qs m → told (broadcast_want_haves ws qs m).1 (broadcast_want_haves ws qs m).2.
Proof.
  intros Ht p pw q Hp. rewrite broadcast_queues. simpl in Hp. rewrite Hp.
  intros (q0 & Hq0 & ->)%fmap_Some_1. destruct (Ht p pw q0 Hp Hq0) as [Hr Hd]. split.
  { by rewrite (proj1 (add_running _ [] [] ∅ q0)). }
  intros c. rewrite add_broadcast_demand by done. simpl. unfold recorded in *. simpl.
  rewrite lookup_union, Hd, lookup_gset_to_gmap. repeat case_bool_decide; simpl; try done;
    case_guard as Hg; rewrite ?elem_of_filter in *; simpl; set_solver.
Qed.

Lemma send_wants_effect p bs hs q m pw :
  inv m → peer_wants m !! p = Some pw →
  ∃ pw' lb lh, (send_wants p bs hs q m).1 = add_wants lb lh q ∧
    peer_wants (send_wants p bs hs q m).2 = <[p := pw']> (peer_wants m) ∧
    broadcast_wants (send_wants p bs hs q m).2 = broadcast_wants m ∧
    (∀ c, c ∈ want_blocks pw' ↔ c ∈ want_blocks pw ∨ c ∈ bs) ∧
    (∀ c, c ∈ want_haves pw' ↔
       (c ∈ want_haves pw ∨ (c ∈ hs ∧ c ∉ broadcast_wants m)) ∧ c ∉ want_blocks pw ∧ c ∉ bs) ∧
    NoDup lb ∧ (∀ c, c ∈ lb ↔ c ∈ bs ∧ c ∉ want_blocks pw) ∧
    NoDup lh ∧ (∀ c, c ∈ lh ↔ c ∈ hs ∧ c ∉ broadcast_wants m ∧ ¬ in_want pw c ∧ c ∉ bs).
Proof.
  intros Hi Hp. pose proof (send_wants_inv p bs hs q m Hi) as Hi'. unfold send_wants in *. rewrite Hp in *.
  destruct (send_blocks_out p bs (mkSending pw (want_peers m) [])) as (B1 & B2 & lb & B3 & B5 & B4).
  set (st1 := foldl (send_block p) _ bs) in *. simpl in *.
  destruct (send_haves_out (broadcast_wants m) p hs (mkSending (sd_wants st1) (sd_index st1) []))
    as (H1 & H2 & lh & H3 & H5 & H4).
  set (st2 := foldl (send_have _ p) _ hs) in *. simpl in *.
  pose proof (inv_disjoint _ Hi' p (sd_wants st2)) as Hdj. simpl in Hdj. rewrite lookup_insert_eq in Hdj.
  specialize (Hdj eq_refl).
  exists (sd_wants st2), lb, lh. rewrite B3, H3. split_and!; try done.
  - unfold add_wants. by destruct (bool_decide (lb = [])), (bool_decide (lh = [])).
  - intros c. by rewrite H1, B1.
  - intros c. specialize (H2 c). rewrite B2 in H2. specialize (B1 c). rewrite <-H1 in B1.
    unfold in_want in H2. assert (¬ (c ∈ want_blocks (sd_wants st2) ∧ c ∈ want_haves (sd_wants st2))) by set_solver.
    destruct (decide (c ∈ want_blocks (sd_wants st2))); tauto.
  - intros c. rewrite H4, B2. tauto.
Qed.

Lemma send_wants_told p bs hs q m pw :
  inv m → peer_wants m !! p = Some pw → told_one (broadcast_wants m) pw q →
  ∃ pw', peer_wants (send_wants p bs hs q m).2 = <[p := pw']> (peer_wants m) ∧
    broadcast_wants (send_wants p bs hs q m).2 = broadcast_wants m ∧
    told_one (broadcast_wants m) pw' (send_wants p bs hs q m).1 ∧
    ∀ c, recorded (broadcast_wants m) pw' c = demand_update (demand (inbox q)) (SendWants bs hs) !! c.
Proof.
  intros Hi Hp [Hr Hd].
  destruct (send_wants_effect p bs hs q m pw Hi Hp) as (pw' & lb & lh & -> & Hw & Hb & E1 & E2 & _ & E3 & _ & E4).
  assert (∀ c, recorded (broadcast_wants m) pw' c = if bool_decide (c ∈ bs) then Some Block
    else recorded (broadcast_wants m) pw c ∪ (if bool_decide (c ∈ hs) then Some Have else None)) as Hrec.
  { intros c. unfold recorded. rewrite (bool_decide_ext _ _ (E1 c)), (bool_decide_ext _ _ (E2 c)).
    repeat case_bool_decide; simpl; try done; exfalso; tauto. }
  exists pw'. split_and!; [done|done| |].
  - split; [by rewrite (proj1 (proj2 (add_running ∅ lb lh ∅ q)))|]. intros c. rewrite add_wants_demand by done.
    simpl. rewrite !lookup_union, Hd, !lookup_gset_to_gmap, Hrec.
    specialize (E3 c). specialize (E4 c). rewrite <-(elem_of_list_to_set (C := gset Cid)) in E3, E4.
    unfold recorded, in_want in *. repeat first [case_guard|case_bool_decide]; simpl; try done; exfalso; tauto.
  - intros c. simpl. rewrite !lookup_union, Hd, !lookup_gset_to_gmap, Hrec.
    rewrite <-(bool_decide_ext _ _ (elem_of_list_to_set (C := gset Cid) c bs)).
    rewrite <-(bool_decide_ext _ _ (elem_of_list_to_set (C := gset Cid) c hs)).
    unfold recorded. repeat first [case_guard|case_bool_decide]; simpl; done.
Qed.

Lemma send_cancels_told cs qs m :
  inv m → told qs m → told (send_cancels cs qs m).1 (send_cancels cs qs m).2.
Proof.
  intros Hi Ht. pose proof (send_cancels_peers cs qs m Hi) as Hs.
  destruct (send_cancels cs qs m) as [qs' m']. destruct Hs as (Hp' & Hq' & Hb' & _). simpl.
  intros p pw' q'. rewrite Hp', Hq', Hb'. intros (pw & Hp & ->)%fmap_Some_1. rewrite Hp.
  intros (q & Hq & ->)%fmap_Some_1. destruct (Ht p pw q Hp Hq) as [Hr Hd]. split.
  { by rewrite (proj2 (proj2 (add_running ∅ [] [] _ q))). }
  intros c. rewrite add_cancels_demand by done. simpl.
  assert (c ∈ to_cancel (broadcast_wants m) (list_to_set cs) pw ↔
    c ∈ (list_to_set cs : gset Cid) ∧ (c ∈ broadcast_wants m ∨ in_want pw c)) as Hc.
  { unfold to_cancel. rewrite elem_of_filter. tauto. }
  rewrite map_lookup_filter, Hd. unfold recorded, without. simpl. unfold in_want in Hc.
  rewrite !(bool_decide_ext _ _ (elem_of_difference _ _ c)).
  destruct (decide (c ∈ (list_to_set cs : gset Cid))) as [Hin|Hin];
    repeat case_bool_decide; simpl; try tauto; try (case_guard; tauto).
Qed.

Lemma add_peer_told p m qs q :
  told qs m → peer_wants m !! p = None → is_running q = true → inbox q = [] →
  told (<[p := (add_peer p q m).1]> qs) (add_peer p q m).2.
Proof.
  intros Ht Hn Hr Hin. unfold add_peer. rewrite bool_decide_eq_false_2 by (by rewrite Hn; intros []). simpl.
  replace (if bool_decide (broadcast_wants m = ∅) then q else add_broadcast_want_haves (broadcast_wants m) q)
    with (add_broadcast_want_haves (broadcast_wants m) q).
  2: { unfold add_broadcast_want_haves. by case_bool_decide. }
  intros p' pw' q'. destruct (decide (p' = p)) as [->|Hne].
  - simpl. rewrite !lookup_insert_eq. intros [= <-] [= <-]. split.
    { by rewrite (proj1 (add_running _ [] [] ∅ q)). }
    intros c. rewrite add_broadcast_demand, Hin by done. unfold recorded, demand. simpl.
    rewrite (left_id_L ∅ (∪)), lookup_gset_to_gmap, !bool_decide_eq_false_2 by set_solver. simpl.
    by case_guard; case_bool_decide.
  - simpl. rewrite !lookup_insert_ne by done. apply Ht.
Qed.
End manager.
End PeerWantManager.
