(* ===== verification/PeerManager.v ===== *)
(** * The peer manager

    packages/beetle-bitswap-next/src/client/peer_manager.rs: the actor that owns
    the message queue of every connected peer, the wants sent to each
    ([PeerWantManager]) and the sessions.  The actor handles one message at a
    time ([handle]); its calls to the network and to the sessions' signalers are
    recorded in the order in which they are made. *)
From stdpp Require Import base gmap list relations.
From S2P Require Import Prelude Wantlist Ledger PeerWants.

Module PeerManager.
Import QueueHandle.
Section manager.
  Context {ids : Ids} {ho : HashOrder}.

(** A [Signaler] is known by the [u64] identifier of its session. *)
Record PeerState := mkPeer { message_queue : MessageQueue; peer_sessions : gset Z }.
Record SessionState := mkSession {
  signaler : Z;
  session_peers : gset PeerId;
  peers_discovered : bool;
}.

Inductive call :=
  | ProtectPeer (p : PeerId)
  | UnprotectPeer (p : PeerId)
  | SignalAvailability (session : Z) (p : PeerId) (is_connected : bool).

Record PeerManagerActor := mk {
  peers : gmap PeerId PeerState;
  peer_want_manager : PeerWantManager.PeerWantManager;
  sessions : gmap Z SessionState;
  calls : list call;
}.
Definition new : PeerManagerActor := mk ∅ PeerWantManager.default ∅ [].

Definition with_peers (ps : gmap PeerId PeerState) (a : PeerManagerActor) : PeerManagerActor :=
  mk ps (peer_want_manager a) (sessions a) (calls a).
Definition with_sessions (ss : gmap Z SessionState) (a : PeerManagerActor) : PeerManagerActor :=
  mk (peers a) (peer_want_manager a) ss (calls a).
Definition log (cs : list call) (a : PeerManagerActor) : PeerManagerActor :=
  mk (peers a) (peer_want_manager a) (sessions a) (calls a ++ cs).

(** The queues of [peers], which the want manager posts to. *)
Definition queues (a : PeerManagerActor) : gmap PeerId MessageQueue := message_queue <$> peers a.
Definition set_queue (q : MessageQueue) (st : PeerState) : PeerState := mkPeer q (peer_sessions st).
Definition with_queues (qs : gmap PeerId MessageQueue) (ps : gmap PeerId PeerState) :
    gmap PeerId PeerState :=
  map_imap (λ p st, Some (set_queue (default (message_queue st) (qs !! p)) st)) ps.

Definition connected_peers (a : PeerManagerActor) : list PeerId := (iter_map (peers a)).*1.

Definition insert_peer (p : PeerId) (session : option Z) (a : PeerManagerActor) : PeerManagerActor :=
  match peers a !! p with
  | Some st =>
      match session with
      | Some id => with_peers (<[p := mkPeer (message_queue st) ({[id]} ∪ peer_sessions st)]> (peers a)) a
      | None => a
      end
  | None =>
      with_peers (<[p := mkPeer QueueHandle.new
                      (match session with Some id => {[id]} | None => ∅ end)]> (peers a)) a
  end.

Definition signal_availability (p : PeerId) (is_connected : bool) (a : PeerManagerActor) :
    PeerManagerActor :=
  match peers a !! p with
  | Some st =>
      log (omap (λ id, s ← sessions a !! id; Some (SignalAvailability (signaler s) p is_connected))
             (iter_set (peer_sessions st))) a
  | None => a
  end.

(** [connected]; the lookup after [insert_peer] is the one that unwraps. *)
Definition connected (p : PeerId) (a : PeerManagerActor) : outcome PeerManagerActor :=
  let a := insert_peer p None a in
  match peers a !! p with
  | None => Panic
  | Some st =>
      let q := if is_running (message_queue st) then message_queue st else QueueHandle.new in
      let '(q, m) := PeerWantManager.add_peer p q (peer_want_manager a) in
      let a := mk (<[p := set_queue q st]> (peers a)) m (sessions a) (calls a) in
      Done (signal_availability p true a)
  end.

Definition disconnected (p : PeerId) (a : PeerManagerActor) : PeerManagerActor :=
  match peers a !! p with
  | Some _ =>
      mk (delete p (peers a)) (PeerWantManager.remove_peer p (peer_want_manager a)) (sessions a) (calls a)
  | None => a
  end.

Definition response_received (room : bool) (p : PeerId) (cids : list Cid) (a : PeerManagerActor) :
    PeerManagerActor :=
  with_peers (alter (λ st, set_queue (QueueHandle.response_received room cids (message_queue st)) st) p
                (peers a)) a.

Definition broadcast_want_haves (ws : gset Cid) (a : PeerManagerActor) : PeerManagerActor :=
  let '(qs, m) := PeerWantManager.broadcast_want_haves ws (queues a) (peer_want_manager a) in
  mk (with_queues qs (peers a)) m (sessions a) (calls a).

Definition send_wants (p : PeerId) (bs hs : list Cid) (a : PeerManagerActor) : PeerManagerActor :=
  match peers a !! p with
  | Some st =>
      let '(q, m) := PeerWantManager.send_wants p bs hs (message_queue st) (peer_want_manager a) in
      mk (<[p := set_queue q st]> (peers a)) m (sessions a) (calls a)
  | None => a
  end.

Definition send_cancels (cs : list Cid) (a : PeerManagerActor) : PeerManagerActor :=
  let '(qs, m) := PeerWantManager.send_cancels cs (queues a) (peer_want_manager a) in
  mk (with_queues qs (peers a)) m (sessions a) (calls a).

Definition register_session (p : PeerId) (id : Z) (a : PeerManagerActor) : bool * PeerManagerActor :=
  match sessions a !! id with
  | Some s =>
      (negb (bool_decide (p ∈ session_peers s)),
       with_sessions (<[id := mkSession (signaler s) ({[p]} ∪ session_peers s) true]> (sessions a)) a)
  | None => (true, with_sessions (<[id := mkSession id {[p]} true]> (sessions a)) a)
  end.

Definition unregister_session (id : Z) (a : PeerManagerActor) : PeerManagerActor :=
  let a := with_peers ((λ st, mkPeer (message_queue st) (peer_sessions st ∖ {[id]})) <$> peers a) a in
  match sessions a !! id with
  | Some s => log (UnprotectPeer <$> iter_set (session_peers s)) (with_sessions (delete id (sessions a)) a)
  | None => a
  end.

Definition add_peer_to_session (id : Z) (p : PeerId) (a : PeerManagerActor) : bool * PeerManagerActor :=
  match sessions a !! id with
  | Some s =>
      if bool_decide (p ∈ session_peers s) then (false, a)
      else (true, with_sessions (<[id := mkSession (signaler s) ({[p]} ∪ session_peers s) true]> (sessions a)) a)
  | None => (true, a)
  end.

Definition protect_connection (id : Z) (p : PeerId) (a : PeerManagerActor) : PeerManagerActor :=
  match sessions a !! id with
  | Some s => if bool_decide (p ∈ session_peers s) then log [ProtectPeer p] a else a
  | None => a
  end.

Definition remove_peer_from_session (id : Z) (p : PeerId) (a : PeerManagerActor) :
    bool * PeerManagerActor :=
  match sessions a !! id with
  | Some s =>
      let existed := bool_decide (p ∈ session_peers s) in
      let a := with_sessions
        (<[id := mkSession (signaler s) (session_peers s ∖ {[p]}) (peers_discovered s)]> (sessions a)) a in
      (existed, if existed then log [UnprotectPeer p] a else a)
  | None => (false, a)
  end.

Definition peers_discovered_for_session (id : Z) (a : PeerManagerActor) : bool :=
  match sessions a !! id with Some s => peers_discovered s | None => false end.
Definition peers_for_session (id : Z) (a : PeerManagerActor) : list PeerId :=
  match sessions a !! id with Some s => iter_set (session_peers s) | None => [] end.
Definition session_has_peers (id : Z) (a : PeerManagerActor) : bool :=
  match sessions a !! id with Some s => negb (bool_decide (session_peers s = ∅)) | None => false end.
Definition session_has_peer (id : Z) (p : PeerId) (a : PeerManagerActor) : bool :=
  match sessions a !! id with Some s => bool_decide (p ∈ session_peers s) | None => false end.

(** ** The event loop

    The messages of the actor and the answers that it sends back; [SetCb]
    replaces a callback that only new queues are given and is not part of the
    state. *)
Inductive Message :=
  | GetConnectedPeers
  | GetCurrentWants
  | GetCurrentWantBlocks
  | GetCurrentWantHaves
  | Connected (p : PeerId)
  | Disconnected (p : PeerId)
  | ResponseReceived (p : PeerId) (cids : list Cid) (room : bool)
  | BroadcastWants (ws : gset Cid)
  | SendWantsTo (p : PeerId) (want_blocks want_haves : list Cid)
  | SendCancels (cs : list Cid)
  | RegisterSession (p : PeerId) (id : Z)
  | UnregisterSession (id : Z)
  | AddPeerToSession (id : Z) (p : PeerId)
  | RemovePeerFromSession (id : Z) (p : PeerId)
  | ProtectConnection (id : Z) (p : PeerId)
  | PeersDiscoveredForSession (id : Z)
  | PeersForSession (id : Z)
  | SessionHasPeers (id : Z)
  | SessionHasPeer (id : Z) (p : PeerId)
  | SetCb.

Inductive answer := Nothing | Flag (b : bool) | Peers (ps : list PeerId) | Wants (cs : gset Cid).

Definition handle (msg : Message) (a : PeerManagerActor) : outcome (answer * PeerManagerActor) :=
  let flag (r : bool * PeerManagerActor) := (Flag r.1, r.2) in
  match msg with
  | GetConnectedPeers => mret (Peers (connected_peers a), a)
  | GetCurrentWants => mret (Wants (PeerWantManager.get_wants (peer_want_manager a)), a)
  | GetCurrentWantBlocks => mret (Wants (PeerWantManager.get_want_blocks (peer_want_manager a)), a)
  | GetCurrentWantHaves => mret (Wants (PeerWantManager.get_want_haves (peer_want_manager a)), a)
  | Connected p => a ← connected p a; mret (Nothing, a)
  | Disconnected p => mret (Nothing, disconnected p a)
  | ResponseReceived p cids room => mret (Nothing, response_received room p cids a)
  | BroadcastWants ws => mret (Nothing, broadcast_want_haves ws a)
  | SendWantsTo p bs hs => mret (Nothing, send_wants p bs hs a)
  | SendCancels cs => mret (Nothing, send_cancels cs a)
  | RegisterSession p id => mret (flag (register_session p id a))
  | UnregisterSession id => mret (Nothing, unregister_session id a)
  | AddPeerToSession id p => mret (flag (add_peer_to_session id p a))
  | RemovePeerFromSession id p => mret (flag (remove_peer_from_session id p a))
  | ProtectConnection id p => mret (Nothing, protect_connection id p a)
  | PeersDiscoveredForSession id => mret (Flag (peers_discovered_for_session id a), a)
  | PeersForSession id => mret (Peers (peers_for_session id a), a)
  | SessionHasPeers id => mret (Flag (session_has_peers id a), a)
  | SessionHasPeer id p => mret (Flag (session_has_peer id p a), a)
  | SetCb => mret (Nothing, a)
  end.

(** ** Invariant

    Every connected peer, and no other, has an entry in the want manager; and no
    peer state ever holds a session. *)
Record inv (a : PeerManagerActor) : Prop := {
  inv_peers p : is_Some (peers a !! p) ↔ is_Some (PeerWantManager.peer_wants (peer_want_manager a) !! p);
  inv_wants : PeerWantManager.inv (peer_want_manager a);
  inv_sessions p st : peers a !! p = Some st → peer_sessions st = ∅;
  inv_calls s p b : SignalAvailability s p b ∉ calls a;
}.

Lemma lookup_with_queues qs ps p :
  with_queues qs ps !! p =
    (λ st, set_queue (default (message_queue st) (qs !! p)) st) <$> ps !! p.
Proof. unfold with_queues. rewrite map_lookup_imap. by destruct (ps !! p). Qed.

Lemma queues_with_queues qs ps p :
  (message_queue <$> with_queues qs ps) !! p = (λ st, default (message_queue st) (qs !! p)) <$> ps !! p.
Proof. rewrite lookup_fmap, lookup_with_queues. by destruct (ps !! p). Qed.

Lemma pm_new_inv : inv new.
Proof.
  split; simpl; [|apply PeerWantManager.wants_default_inv|done|].
  - intros p. by rewrite !lookup_empty.
  - intros s p b Hs. by apply elem_of_nil in Hs.
Qed.

(** [connected] unwraps an entry that [insert_peer] put there. *)
Lemma connected_eq p a :
  let st := default (mkPeer QueueHandle.new ∅) (peers a !! p) in
  let q := if is_running (message_queue st) then message_queue st else QueueHandle.new in
  let r := PeerWantManager.add_peer p q (peer_want_manager a) in
  connected p a = Done (signal_availability p true
    (mk (<[p := set_queue r.1 st]> (peers a)) r.2 (sessions a) (calls a))).
Proof.
  unfold connected, insert_peer. destruct (peers a !! p) as [st|] eqn:E; simpl.
  - rewrite E. by destruct (PeerWantManager.add_peer _ _ _).
  - rewrite lookup_insert_eq. simpl. destruct (PeerWantManager.add_peer _ _ _). simpl.
    by rewrite insert_insert_eq.
Qed.

(** A peer without sessions gets no signals: only the peer and its wants change. *)
Lemma signal_nothing p b a :
  (∀ st, peers a !! p = Some st → peer_sessions st = ∅) → signal_availability p b a = a.
Proof.
  intros Hs. unfold signal_availability. destruct (peers a !! p) as [st|] eqn:E; [|done].
  rewrite (Hs st eq_refl). assert (iter_set (∅ : gset Z) = []) as ->.
  { apply Permutation_nil. rewrite iter_set_perm. by rewrite elements_empty. }
  unfold log. simpl. rewrite app_nil_r. by destruct a.
Qed.

Lemma add_peer_keys p q m p' :
  is_Some (PeerWantManager.peer_wants (PeerWantManager.add_peer p q m).2 !! p') ↔
    p' = p ∨ is_Some (PeerWantManager.peer_wants m !! p').
Proof.
  unfold PeerWantManager.add_peer. case_bool_decide as Hp; simpl.
  - split; [by auto|]. by intros [->|].
  - rewrite lookup_insert_is_Some. destruct (decide (p = p')); naive_solver.
Qed.

Lemma send_wants_keys p bs hs q m p' :
  is_Some (PeerWantManager.peer_wants (PeerWantManager.send_wants p bs hs q m).2 !! p') ↔
    is_Some (PeerWantManager.peer_wants m !! p').
Proof.
  unfold PeerWantManager.send_wants. destruct (PeerWantManager.peer_wants m !! p) as [pw|] eqn:E; [|done].
  simpl. rewrite lookup_insert_is_Some. destruct (decide (p = p')) as [->|]; [rewrite E|]; naive_solver.
Qed.

Lemma inv_intro a a' :
  (∀ p, is_Some (peers a' !! p) ↔ is_Some (peers a !! p)) →
  (∀ p, is_Some (PeerWantManager.peer_wants (peer_want_manager a') !! p) ↔
        is_Some (PeerWantManager.peer_wants (peer_want_manager a) !! p)) →
  PeerWantManager.inv (peer_want_manager a') →
  (∀ p st, peers a' !! p = Some st → ∃ st0, peers a !! p = Some st0 ∧ peer_sessions st ⊆ peer_sessions st0) →
  (∀ s p b, SignalAvailability s p b ∈ calls a' → SignalAvailability s p b ∈ calls a) →
  inv a → inv a'.
Proof.
  intros H1 H2 H3 H4 H5 [I1 I2 I3 I4]. split; [|done| |].
  - intros p. by rewrite H1, H2.
  - intros p st Hst. destruct (H4 p st Hst) as (st0 & Hst0 & Hsub). specialize (I3 p st0 Hst0). set_solver.
  - intros s p b Hin%H5. by apply I4 in Hin.
Qed.

Lemma peer_state_refl a p st :
  peers a !! p = Some st → ∃ st0, peers a !! p = Some st0 ∧ peer_sessions st ⊆ peer_sessions st0.
Proof. eauto. Qed.
#[local] Hint Resolve peer_state_refl : ipfs.

Lemma connected_ok p a : inv a →
  let st := default (mkPeer QueueHandle.new ∅) (peers a !! p) in
  let q := if is_running (message_queue st) then message_queue st else QueueHandle.new in
  let r := PeerWantManager.add_peer p q (peer_want_manager a) in
  let a' := mk (<[p := set_queue r.1 st]> (peers a)) r.2 (sessions a) (calls a) in
  connected p a = Done a' ∧ inv a'.
Proof.
  intros Hi st. cbv zeta. rewrite connected_eq. fold st.
  assert (peer_sessions st = ∅) as Hst.
  { unfold st. destruct (peers a !! p) as [st0|] eqn:E; [|done]. by apply (inv_sessions _ Hi p). }
  rewrite signal_nothing. 2: { intros st'. simpl. rewrite lookup_insert_eq. by intros [= <-]. }
  split; [done|]. split; simpl.
  - intros p'. rewrite add_peer_keys, lookup_insert_is_Some, (inv_peers _ Hi).
    destruct (decide (p = p')); naive_solver.
  - apply PeerWantManager.add_peer_inv, Hi.
  - intros p' st' [[<- <-]|[_ ?]]%lookup_insert_Some; [done|by apply (inv_sessions _ Hi p')].
  - apply Hi.
Qed.

Lemma disconnected_inv p a : inv a → inv (disconnected p a).
Proof.
  intros Hi. unfold disconnected. destruct (peers a !! p) as [st|] eqn:E; [|done].
  destruct (PeerWantManager.remove_peer_ok p (peer_want_manager a) (inv_wants _ Hi)) as (H1 & H2 & H3).
  split; simpl; [|done| |apply Hi].
  - intros p'. rewrite H2, !lookup_delete_is_Some. by rewrite (inv_peers _ Hi).
  - intros p' st' [_ ?]%lookup_delete_Some. by apply (inv_sessions _ Hi p').
Qed.

Lemma alter_queue_inv f p a :
  inv a → inv (with_peers (alter (λ st, set_queue (f (message_queue st)) st) p (peers a)) a).
Proof.
  intros Hi. apply (inv_intro a); try done; [|apply Hi|]; simpl.
  - intros p'. apply lookup_alter_is_Some.
  - intros p' st'. rewrite lookup_alter_Some. intros [(-> & st0 & -> & ->)|[_ ?]]; eauto.
Qed.

Lemma pm_broadcast_inv ws a : inv a → inv (broadcast_want_haves ws a).
Proof.
  intros Hi. unfold broadcast_want_haves, PeerWantManager.broadcast_want_haves.
  apply (inv_intro a); try done; simpl.
  - intros p'. rewrite lookup_with_queues. apply fmap_is_Some.
  - apply (PeerWantManager.broadcast_inv ws ∅), Hi.
  - intros p' st'. rewrite lookup_with_queues. intros (st0 & -> & ->)%fmap_Some_1. by eauto.
Qed.

Lemma pm_send_wants_inv p bs hs a : inv a → inv (send_wants p bs hs a).
Proof.
  intros Hi. unfold send_wants. destruct (peers a !! p) as [st|] eqn:E; [|done].
  pose proof (PeerWantManager.send_wants_inv p bs hs (message_queue st) _ (inv_wants _ Hi)) as Hw.
  pose proof (send_wants_keys p bs hs (message_queue st) (peer_want_manager a)) as Hk.
  destruct (PeerWantManager.send_wants _ _ _ _ _) as [q m]. simpl in *.
  apply (inv_intro a); try done; simpl.
  - intros p'. rewrite lookup_insert_is_Some. destruct (decide (p = p')) as [->|]; [rewrite E|]; naive_solver.
  - intros p' st' [[<- <-]|[_ ?]]%lookup_insert_Some; eauto.
Qed.

Lemma pm_send_cancels_inv cs a : inv a → inv (send_cancels cs a).
Proof.
  intros Hi. unfold send_cancels.
  pose proof (PeerWantManager.send_cancels_inv cs (queues a) _ (inv_wants _ Hi)) as Hw.
  pose proof (PeerWantManager.send_cancels_peers cs (queues a) _ (inv_wants _ Hi)) as Hk.
  destruct (PeerWantManager.send_cancels _ _ _) as [qs m]. destruct Hk as (Hk & _ & _). simpl in *.
  apply (inv_intro a); try done; simpl.
  - intros p'. rewrite lookup_with_queues. apply fmap_is_Some.
  - intros p'. rewrite Hk. apply fmap_is_Some.
  - intros p' st'. rewrite lookup_with_queues. intros (st0 & -> & ->)%fmap_Some_1. by eauto.
Qed.

Lemma unregister_inv id a : inv a → inv (unregister_session id a).
Proof.
  intros Hi. unfold unregister_session. simpl.
  destruct (sessions a !! id) as [s|]; apply (inv_intro a); try done; try apply Hi; simpl;
    try (intros p'; rewrite lookup_fmap; apply fmap_is_Some);
    try (intros p' st'; rewrite lookup_fmap; intros (st0 & -> & ->)%fmap_Some_1; eexists; split; [done|];
         simpl; set_solver).
  intros s' p' b [?|Hin]%elem_of_app; [done|]. by apply list_elem_of_fmap in Hin as (? & ? & _).
Qed.

(** The other operations on sessions change [sessions] and log a call. *)
Lemma session_inv ss cs a :
  (∀ s p b, SignalAvailability s p b ∉ cs) → inv a → inv (log cs (with_sessions ss a)).
Proof.
  intros Hcs Hi. apply (inv_intro a); try done; try apply Hi.
  1: { simpl. eauto using peer_state_refl. }
  intros s p b [?|Hin]%elem_of_app; [done|by apply Hcs in Hin].
Qed.
Lemma with_sessions_log ss a : with_sessions ss a = log [] (with_sessions ss a).
Proof. unfold log, with_sessions. simpl. by rewrite app_nil_r. Qed.
Lemma log_with_sessions cs a : log cs a = log cs (with_sessions (sessions a) a).
Proof. by destruct a. Qed.

Lemma handle_inv msg a : inv a → ∃ r a', handle msg a = Done (r, a') ∧ inv a'.
Proof.
  intros Hi.
  assert (∀ s p b, SignalAvailability s p b ∉ []) as Hnil by (intros s p b Hin; by apply elem_of_nil in Hin).
  assert (∀ c s p b, (∀ s p b, SignalAvailability s p b ≠ c) → SignalAvailability s p b ∉ [c]) as Hone.
  { intros c s p b Hc <-%list_elem_of_singleton. by apply (Hc s p b). }
  destruct msg; cbn [handle]; try (by eexists _, _);
    try (destruct (connected_ok p a Hi) as [-> ?]; by eexists _, _);
    eexists _, _; (split; [done|]); simpl;
    auto using disconnected_inv, pm_broadcast_inv, pm_send_wants_inv, pm_send_cancels_inv, unregister_inv.
  - by apply (alter_queue_inv (QueueHandle.response_received room cids)).
  - unfold register_session. destruct (sessions a !! id); simpl; rewrite with_sessions_log; by apply session_inv.
  - unfold add_peer_to_session. destruct (sessions a !! id); [case_bool_decide|]; try done; simpl.
    rewrite with_sessions_log. by apply session_inv.
  - unfold remove_peer_from_session. destruct (sessions a !! id); [case_bool_decide|]; try done; simpl.
    + apply session_inv; auto.
    + rewrite with_sessions_log. by apply session_inv.
  - unfold protect_connection. destruct (sessions a !! id); [case_bool_decide|]; try done.
    rewrite log_with_sessions. apply session_inv; auto.
Qed.

(** ** Specification

    What every connected peer is to be asked, told by the messages alone: a
    broadcast reaches the peers that are connected and those that connect later,
    a cancel withdraws the wants of everyone. *)
Record Spec := mkSpec { sp_broadcast : gset Cid; sp_wants : gmap PeerId (gmap Cid WantType) }.

Definition spec_handle (sp : Spec) (msg : Message) : Spec :=
  let 'mkSpec bw ws := sp in
  match msg with
  | Connected p => mkSpec bw (if decide (is_Some (ws !! p)) then ws else <[p := gset_to_gmap Have bw]> ws)
  | Disconnected p => mkSpec bw (delete p ws)
  | BroadcastWants b => mkSpec (bw ∪ b) ((λ d, demand_update d (BroadcastWantHaves b)) <$> ws)
  | SendWantsTo p bs hs => mkSpec bw (alter (λ d, demand_update d (SendWants bs hs)) p ws)
  | SendCancels cs => mkSpec (bw ∖ list_to_set cs)
                        ((λ d, demand_update d (Cancels (list_to_set cs))) <$> ws)
  | _ => sp
  end.

Fixpoint run (msgs : list Message) (a : PeerManagerActor) : outcome PeerManagerActor :=
  match msgs with
  | [] => mret a
  | msg :: msgs => ra ← handle msg a; run msgs ra.2
  end.

(** The simulation. *)
Record sim (sp : Spec) (a : PeerManagerActor) : Prop := {
  sim_inv : inv a;
  sim_broadcast : sp_broadcast sp = PeerWantManager.broadcast_wants (peer_want_manager a);
  sim_told : PeerWantManager.told (queues a) (peer_want_manager a);
  sim_wants p : sp_wants sp !! p = (λ st, demand (inbox (message_queue st))) <$> peers a !! p;
}.

Lemma sim_peer sp a p st :
  sim sp a → peers a !! p = Some st →
  ∃ pw, PeerWantManager.peer_wants (peer_want_manager a) !! p = Some pw ∧
    PeerWantManager.told_one (PeerWantManager.broadcast_wants (peer_want_manager a)) pw (message_queue st).
Proof.
  intros Hs Hp. destruct (proj1 (inv_peers _ (sim_inv _ _ Hs) p)) as [pw Hpw]; [by eexists|].
  exists pw. split; [done|]. apply (sim_told _ _ Hs p); [done|]. unfold queues. by rewrite lookup_fmap, Hp.
Qed.

Lemma sim_connected sp a p :
  sim sp a → ∃ a', connected p a = Done a' ∧ sim (spec_handle sp (Connected p)) a'.
Proof.
  intros Hs. destruct (connected_ok p a (sim_inv _ _ Hs)) as [Hc Hi']. eexists. split; [exact Hc|]. clear Hc.
  destruct sp as [bw ws]. pose proof (sim_wants _ _ Hs) as Hw. pose proof (sim_broadcast _ _ Hs) as Hb.
  simpl in *. destruct (peers a !! p) as [st|] eqn:E; simpl in *.
  - rewrite decide_True by (rewrite Hw, E; by eexists).
    destruct (sim_peer _ _ p st Hs E) as (pw & Hpw & [Hr _]). rewrite Hr in *.
    unfold PeerWantManager.add_peer in *. rewrite bool_decide_eq_true_2 in * by (rewrite Hpw; by eexists).
    simpl in *. replace (set_queue (message_queue st) st) with st in * by (by destruct st).
    rewrite insert_id in * by done. destruct a. exact Hs.
  - rewrite decide_False by (rewrite Hw, E; by intros []).
    assert (PeerWantManager.peer_wants (peer_want_manager a) !! p = None) as Hn.
    { apply eq_None_not_Some. rewrite <-(inv_peers _ (sim_inv _ _ Hs)), E. by intros []. }
    pose proof (PeerWantManager.add_peer_told p _ (queues a) QueueHandle.new (sim_told _ _ Hs) Hn eq_refl eq_refl) as Ht.
    assert (∀ m', PeerWantManager.broadcast_wants (PeerWantManager.add_peer p QueueHandle.new m').2 =
      PeerWantManager.broadcast_wants m') as Hbw.
    { intros m'. unfold PeerWantManager.add_peer. by case_bool_decide. }
    split; [done| | |]; simpl.
    + by rewrite Hbw.
    + unfold queues. simpl. by rewrite fmap_insert.
    + intros p'. destruct (decide (p' = p)) as [->|Hne]; [|by rewrite !lookup_insert_ne].
      rewrite !lookup_insert_eq. simpl. f_equal. apply map_eq. intros c. rewrite lookup_gset_to_gmap, Hb.
      destruct (Ht p (PeerWantManager.mkWant ∅ ∅)
        (PeerWantManager.add_peer p QueueHandle.new (peer_want_manager a)).1) as [_ ->].
      { unfold PeerWantManager.add_peer. rewrite bool_decide_eq_false_2 by (rewrite Hn; by intros []).
        simpl. by rewrite lookup_insert_eq. }
      { by rewrite lookup_insert_eq. }
      rewrite Hbw. unfold PeerWantManager.recorded. simpl. rewrite !bool_decide_eq_false_2 by set_solver. simpl.
      by case_guard; case_bool_decide.
Qed.

Lemma sim_disconnected sp a p : sim sp a → sim (spec_handle sp (Disconnected p)) (disconnected p a).
Proof.
  intros Hs. pose proof (disconnected_inv p a (sim_inv _ _ Hs)) as Hi'. destruct sp as [bw ws].
  pose proof (sim_wants _ _ Hs) as Hw. simpl in *. unfold disconnected in *.
  destruct (peers a !! p) as [st|] eqn:E.
  - destruct (PeerWantManager.remove_peer_ok p (peer_want_manager a) (inv_wants _ (sim_inv _ _ Hs))) as (_ & H2 & H3).
    split; [done| | |]; simpl.
    + rewrite H3. apply Hs.
    + unfold queues. simpl. rewrite fmap_delete. intros p' pw q. rewrite H2, H3.
      intros [_ Hp]%lookup_delete_Some [_ Hq]%lookup_delete_Some. by apply (sim_told _ _ Hs p').
    + intros p'. destruct (decide (p' = p)) as [->|Hne]; [by rewrite !lookup_delete_eq|].
      rewrite !lookup_delete_ne by done. apply Hw.
  - rewrite delete_id; [done|]. by rewrite Hw, E.
Qed.

(** A message that posts to every queue. *)
Lemma sim_posted bw ws a qs m bw' f :
  sim (mkSpec bw ws) a → inv (mk (with_queues qs (peers a)) m (sessions a) (calls a)) →
  bw' = PeerWantManager.broadcast_wants m → PeerWantManager.told qs m →
  (∀ p pw q, PeerWantManager.peer_wants (peer_want_manager a) !! p = Some pw → queues a !! p = Some q →
     ∃ q', qs !! p = Some q' ∧ demand (inbox q') = f (demand (inbox q))) →
  sim (mkSpec bw' (f <$> ws)) (mk (with_queues qs (peers a)) m (sessions a) (calls a)).
Proof.
  intros Hs Hi' Hb' Ht Hq. assert (∀ p st, peers a !! p = Some st → ∃ q',
    qs !! p = Some q' ∧ demand (inbox q') = f (demand (inbox (message_queue st)))) as Hq'.
  { intros p st Hp. destruct (sim_peer _ _ p st Hs Hp) as (pw & Hpw & _). apply (Hq p pw); [done|].
    unfold queues. by rewrite lookup_fmap, Hp. }
  split; [done|done| |]; simpl.
  - intros p pw q Hp. unfold queues. simpl. rewrite queues_with_queues.
    intros (st & Hst & ->)%fmap_Some_1. destruct (Hq' p st Hst) as (q' & Hqq & _). rewrite Hqq. simpl.
    by apply (Ht p).
  - intros p. rewrite lookup_fmap, lookup_with_queues. pose proof (sim_wants _ _ Hs p) as Hw. simpl in Hw.
    rewrite Hw. destruct (peers a !! p) as [st|] eqn:E; [|done]. simpl. destruct (Hq' p st E) as (q' & -> & Hd). simpl. by rewrite Hd.
Qed.

Lemma sim_broadcast_wants sp a ws : sim sp a → sim (spec_handle sp (BroadcastWants ws)) (broadcast_want_haves ws a).
Proof.
  intros Hs. pose proof (pm_broadcast_inv ws a (sim_inv _ _ Hs)) as Hi'. destruct sp as [bw dws]. simpl.
  unfold broadcast_want_haves in *.
  pose proof (PeerWantManager.broadcast_told ws _ _ (sim_told _ _ Hs)) as Ht.
  pose proof (PeerWantManager.broadcast_queues ws (queues a) (peer_want_manager a)) as Hq.
  assert (PeerWantManager.broadcast_wants (PeerWantManager.broadcast_want_haves ws (queues a) (peer_want_manager a)).2 =
    bw ∪ ws) as Hb.
  { simpl. rewrite <-(sim_broadcast _ _ Hs). simpl. apply set_eq. intros c.
    rewrite !elem_of_union, elem_of_difference. destruct (decide (c ∈ bw)); tauto. }
  assert (∀ p pw, PeerWantManager.peer_wants (PeerWantManager.broadcast_want_haves ws (queues a) (peer_want_manager a)).2 !! p
    = Some pw ↔ PeerWantManager.peer_wants (peer_want_manager a) !! p = Some pw) as Hpw by done.
  destruct (PeerWantManager.broadcast_want_haves ws (queues a) (peer_want_manager a)) as [qs m]. simpl in *.
  apply (sim_posted bw); try done. intros p pw q Hp Hpq. specialize (Hq p). rewrite Hp, Hpq in Hq. simpl in Hq.
  eexists. split; [done|]. apply map_eq. intros c.
  destruct (Ht p pw _ (proj2 (Hpw _ _) Hp) Hq) as [_ ->]. rewrite Hb.
  destruct (sim_told _ _ Hs p pw q Hp Hpq) as [_ Hd]. simpl.
  rewrite lookup_union, Hd, lookup_gset_to_gmap, <-(sim_broadcast _ _ Hs). unfold PeerWantManager.recorded. simpl.
  rewrite (bool_decide_ext _ _ (elem_of_union bw ws c)).
  repeat first [case_guard|case_bool_decide]; simpl; try done; exfalso; tauto.
Qed.

Lemma sim_send_cancels sp a cs : sim sp a → sim (spec_handle sp (SendCancels cs)) (send_cancels cs a).
Proof.
  intros Hs. pose proof (pm_send_cancels_inv cs a (sim_inv _ _ Hs)) as Hi'. destruct sp as [bw dws]. simpl.
  pose proof (sim_broadcast _ _ Hs) as Hbw. simpl in Hbw. unfold send_cancels in *.
  pose proof (PeerWantManager.send_cancels_told cs _ _ (inv_wants _ (sim_inv _ _ Hs)) (sim_told _ _ Hs)) as Ht.
  pose proof (PeerWantManager.send_cancels_peers cs (queues a) _ (inv_wants _ (sim_inv _ _ Hs))) as Hp'.
  destruct (PeerWantManager.send_cancels cs (queues a) (peer_want_manager a)) as [qs m].
  destruct Hp' as (Hw & Hq & Hb & _). simpl in *.
  apply (sim_posted bw); [done|done|by rewrite Hb, Hbw|done|].
  intros p pw q Hp Hpq. specialize (Hq p). rewrite Hp, Hpq in Hq. simpl in Hq. eexists. split; [done|].
  destruct (sim_told _ _ Hs p pw q Hp Hpq) as [Hr Hd]. rewrite add_cancels_demand by done. simpl.
  apply map_filter_ext. intros c t Hc. rewrite Hd in Hc. unfold PeerWantManager.recorded in Hc. simpl.
  unfold PeerWantManager.to_cancel, PeerWantManager.in_want. rewrite elem_of_filter.
  repeat case_bool_decide; simpl in Hc; try done; tauto.
Qed.

Lemma sim_send_wants sp a p bs hs : sim sp a → sim (spec_handle sp (SendWantsTo p bs hs)) (send_wants p bs hs a).
Proof.
  intros Hs. pose proof (pm_send_wants_inv p bs hs a (sim_inv _ _ Hs)) as Hi'. destruct sp as [bw dws]. simpl.
  pose proof (sim_wants _ _ Hs) as Hws. simpl in Hws. unfold send_wants in *.
  destruct (peers a !! p) as [st|] eqn:E.
  2: { rewrite alter_id; [done|]. intros d Hd. by rewrite Hws, E in Hd. }
  destruct (sim_peer _ _ p st Hs E) as (pw & Hpw & Ht).
  destruct (PeerWantManager.send_wants_told p bs hs _ _ pw (inv_wants _ (sim_inv _ _ Hs)) Hpw Ht)
    as (pw' & Hw' & Hb' & Ht' & Hrec).
  destruct (PeerWantManager.send_wants p bs hs (message_queue st) (peer_want_manager a)) as [q m]. simpl in *.
  split; [done| | |]; simpl.
  - rewrite Hb'. apply Hs.
  - intros p' pw0 q0. rewrite Hw', Hb'. unfold queues. simpl. rewrite fmap_insert. simpl.
    destruct (decide (p' = p)) as [->|Hne].
    + rewrite !lookup_insert_eq. by intros [= <-] [= <-].
    + rewrite !lookup_insert_ne by done. apply Hs.
  - intros p'. destruct (decide (p' = p)) as [->|Hne].
    + rewrite lookup_insert_eq, lookup_alter_eq, Hws, E. simpl. f_equal. apply map_eq. intros c.
      destruct Ht' as [_ ->]. symmetry. apply Hrec.
    + rewrite lookup_insert_ne, lookup_alter_ne by done. apply Hws.
Qed.

(** The other messages leave the wants alone. *)
Lemma sim_same sp a a' :
  sim sp a → inv a' → peer_want_manager a' = peer_want_manager a →
  (∀ p, (λ st, (is_running (message_queue st), inbox (message_queue st))) <$> peers a' !! p =
        (λ st, (is_running (message_queue st), inbox (message_queue st))) <$> peers a !! p) → sim sp a'.
Proof.
  intros Hs Hi Hm Hp. split; [done|rewrite Hm; apply Hs| |].
  - intros p pw q. rewrite Hm. unfold queues. rewrite lookup_fmap. intros Hpw (st & Hst & ->)%fmap_Some_1.
    specialize (Hp p). rewrite Hst in Hp. simpl in Hp. symmetry in Hp.
    apply fmap_Some_1 in Hp as (st0 & Hst0 & [= H1 H2]). unfold PeerWantManager.told_one. rewrite H1, H2.
    apply (sim_told _ _ Hs p); [done|]. unfold queues. by rewrite lookup_fmap, Hst0.
  - intros p. rewrite (sim_wants _ _ Hs). specialize (Hp p).
    destruct (peers a !! p), (peers a' !! p); simplify_eq/=; congruence.
Qed.

Lemma sim_handle sp a msg : sim sp a → ∃ r a', handle msg a = Done (r, a') ∧ sim (spec_handle sp msg) a'.
Proof.
  intros Hs. destruct (handle_inv msg a (sim_inv _ _ Hs)) as (r & a' & Hh & Hi'). exists r, a'. split; [done|].
  destruct msg; cbn [handle] in Hh; try (injection Hh as <- <-);
    auto using sim_disconnected, sim_broadcast_wants, sim_send_wants, sim_send_cancels;
    try (destruct sp; exact Hs).
  - destruct (sim_connected sp a p Hs) as (a2 & Ha2 & Hs2). rewrite Ha2 in Hh. by injection Hh as <- <-.
  - destruct sp. apply (sim_same _ a); [done|done|done|]. intros p'. simpl.
    destruct (decide (p' = p)) as [->|Hne]; [|by rewrite lookup_alter_ne].
    rewrite lookup_alter_eq. destruct (peers a !! p) as [st|]; [|done]. simpl.
    unfold QueueHandle.response_received. destruct (_ || _); [done|]. by destruct room.
  - destruct sp. apply (sim_same _ a); try done; unfold register_session; by destruct (sessions a !! id).
  - destruct sp. unfold unregister_session in *. simpl in *.
    apply (sim_same _ a); [done|done|by destruct (sessions a !! id)|]. intros p'.
    destruct (sessions a !! id); simpl; rewrite lookup_fmap; by destruct (peers a !! p').
  - destruct sp. apply (sim_same _ a); try done; unfold add_peer_to_session; destruct (sessions a !! id); try done;
      by case_bool_decide.
  - destruct sp. apply (sim_same _ a); try done; unfold remove_peer_from_session; destruct (sessions a !! id); try done;
      simpl; by case_bool_decide.
  - destruct sp. apply (sim_same _ a); try done; unfold protect_connection; destruct (sessions a !! id); try done;
      by case_bool_decide.
Qed.

Lemma sim_new : sim (mkSpec ∅ ∅) new.
Proof. split; [apply pm_new_inv|done|done|]. intros p. simpl. by rewrite !lookup_empty. Qed.

Lemma sim_run msgs sp a : sim sp a → ∃ a', run msgs a = Done a' ∧ sim (foldl spec_handle sp msgs) a'.
Proof.
  revert sp a. induction msgs as [|msg msgs IH]; intros sp a Hs; simpl; [by exists a|].
  destruct (sim_handle sp a msg Hs) as (r & a1 & -> & Hs1). simpl. by apply IH.
Qed.

(** ** The environment

    The actor behind a queue ends when it cannot send to its peer; the channel
    is then closed. *)
Definition stop_queue (p : PeerId) (a : PeerManagerActor) : PeerManagerActor :=
  with_peers (alter (λ st, set_queue (mkHandle false (inbox (message_queue st)) (responses (message_queue st))) st)
                p (peers a)) a.

Inductive step : PeerManagerActor → PeerManagerActor → Prop :=
  | step_handle msg a r a' : handle msg a = Done (r, a') → step a a'
  | step_stop p a : step a (stop_queue p a).

Lemma pm_reachable_inv a : rtc step new a → inv a.
Proof.
  revert a. apply rtc_ind_r; [apply pm_new_inv|]. intros a a' _ Hs Hi. destruct Hs as [msg a r a' Hh|p a].
  - destruct (handle_inv msg a Hi) as (r0 & a0 & Hh0 & Hi0). congruence.
  - by apply (alter_queue_inv (λ q, mkHandle false (inbox q) (responses q))).
Qed.

(** No session is told that a peer connected or disconnected: sessions are never
    recorded with the peers that they ask. *)
Lemma no_availability_signal a s p b : rtc step new a → SignalAvailability s p b ∉ calls a.
Proof. intros Hr. apply (inv_calls _ (pm_reachable_inv a Hr)). Qed.
End manager.
Arguments PeerManagerActor {ids}.
Arguments Message {ids}.
End PeerManager.

Module PeerManagerClaims.
Import QueueHandle PeerManager.
Section claims.
  Context {ids : Ids} {ho : HashOrder}.

(** C17: for every sequence of messages the actor ends without a panic, the
    connected peers are those that connected since they last disconnected, and
    the updates posted to the queue of each of them amount exactly to what the
    messages ask of it: the broadcasts of the past and the wants for that peer,
    want-blocks winning over want-haves, less all that was cancelled. *)
Theorem peer_manager_refines (msgs : list Message) :
  ∃ a, run msgs new = Done a ∧
    ∀ p, (λ st, demand (inbox (message_queue st))) <$> peers a !! p =
         sp_wants (foldl spec_handle (mkSpec ∅ ∅) msgs) !! p.
Proof.
  destruct (sim_run msgs _ _ sim_new) as (a & Ha & Hs). exists a. split; [done|].
  intros p. symmetry. apply Hs.
Qed.

(** Whatever the messages and whichever queues stop, the want manager tracks
    exactly the connected peers, its reverse index relates a block to a peer if
    and only if the peer was asked for it, no peer is recorded with the same
    block as a want-block and a want-have, and the lists of current wants are
    the ones asked of the peers together with the broadcasts. *)
Theorem peer_wants_invariant (a : PeerManagerActor) :
  rtc step new a →
  let m := peer_want_manager a in
  (∀ p, p ∈ connected_peers a ↔ is_Some (PeerWantManager.peer_wants m !! p)) ∧
  (∀ p c, (∃ ps, PeerWantManager.want_peers m !! c = Some ps ∧ p ∈ ps) ↔ PeerWantManager.asked m p c) ∧
  (∀ p pw, PeerWantManager.peer_wants m !! p = Some pw →
     PeerWantManager.want_blocks pw ## PeerWantManager.want_haves pw) ∧
  (∀ c, c ∈ PeerWantManager.get_wants m ↔
     c ∈ PeerWantManager.get_want_blocks m ∨ c ∈ PeerWantManager.get_want_haves m) ∧
  (∀ c, c ∈ PeerWantManager.get_wants m ↔
     c ∈ PeerWantManager.broadcast_wants m ∨ ∃ p, PeerWantManager.asked m p c).
Proof.
  intros Hr. pose proof (pm_reachable_inv a Hr) as Hi. cbv zeta. split_and!.
  - intros p. rewrite <-(inv_peers _ Hi). unfold connected_peers. rewrite list_elem_of_fmap. split.
    + intros ([p' st] & -> & Hst%elem_of_iter_map). by eexists.
    + intros [st Hst]. exists (p, st). by rewrite elem_of_iter_map.
  - intros p c. apply (PeerWantManager.inv_index _ (inv_wants _ Hi) p c).
  - apply (PeerWantManager.inv_disjoint _ (inv_wants _ Hi)).
  - intros c. rewrite (PeerWantManager.get_wants_ok _ _ (inv_wants _ Hi)).
    rewrite PeerWantManager.get_want_blocks_ok, PeerWantManager.get_want_haves_ok.
    unfold PeerWantManager.asked, PeerWantManager.in_want. naive_solver.
  - intros c. by apply PeerWantManager.get_wants_ok, Hi.
Qed.
End claims.
End PeerManagerClaims.

Module PeerManagerWitness.
Import QueueHandle PeerManager PeerManagerClaims.
#[local] Existing Instance nat_ids.
#[local] Existing Instance key_order.

Definition demo : list Message :=
  [Connected (1 : PeerId); BroadcastWants {[7 : Cid]}; SendWantsTo (1 : PeerId) [8 : Cid] [7 : Cid; 9 : Cid];
   Connected (2 : PeerId); SendCancels [8 : Cid]].
Definition demo_end : PeerManagerActor := run_or new (run demo new).

Lemma demo_reachable : rtc step new demo_end.
Proof.
  assert (∀ msgs a a', run msgs a = Done a' → rtc step a a') as Hrun.
  { induction msgs as [|msg msgs IH]; simpl; intros a a' H; [by injection H as <-|].
    destruct (handle msg a) as [[r a1]| |] eqn:E; try done. simpl in H.
    eapply rtc_l; [by apply (step_handle msg a r a1)|]. by apply IH. }
  apply (Hrun demo). by vm_compute.
Qed.

Lemma peer_wants_invariant_witness :
  PeerWantManager.asked (peer_want_manager demo_end) (1 : PeerId) (9 : Cid) ∧
  ¬ PeerWantManager.asked (peer_want_manager demo_end) (1 : PeerId) (8 : Cid) ∧
  PeerWantManager.get_wants (peer_want_manager demo_end) = {[7 : Cid; 9 : Cid]}.
Proof.
  destruct (peer_wants_invariant demo_end demo_reachable) as (_ & H & _). split_and!.
  - apply H. eexists. split; [by vm_compute|]. by vm_compute.
  - rewrite <-H. intros (ps & Hps & _). by vm_compute in Hps.
  - by vm_compute.
Defined.

(** A queue that stopped is replaced when the peer connects again, but the new
    queue is told nothing of what the peer was asked before, and asking again is
    filtered out. *)
Example restarted_queue_untold :
  ∃ st, peers (run_or new (run [Connected (1 : PeerId); SendWantsTo (1 : PeerId) [] [9 : Cid]]
                 (stop_queue (1 : PeerId) demo_end))) !! (1 : PeerId) = Some st ∧
    is_running (message_queue st) = true ∧ inbox (message_queue st) = [].
Proof. eexists. split; [by vm_compute|]. by vm_compute. Qed.
End PeerManagerWitness.
