(* ===== verification/DontHaveTimeout.v ===== *)
(** * Simulated DONT_HAVE responses

    packages/beetle-bitswap-next/src/client/message_queue/dont_have_timeout_manager.rs:
    the wants that were sent to a peer and wait for an answer.  Instants and
    durations are nanoseconds.  The new timeout that follows from a measured
    latency is computed with floating point numbers and is an argument here. *)
From stdpp Require Import base gmap list.
From S2P Require Import Prelude.
Local Open Scope Z_scope.

Module DontHaveTimeoutManager.
Section manager.
  Context {ids : Ids}.

Definition DONT_HAVE_TIMEOUT : Z := 5000000000.
Definition MAX_TIMEOUT : Z := 7000000000.

Record PendingWant := mkPending { cid : Cid; active : bool; sent : Z }.

(** [triggers] counts the wake-ups sent to the worker, [fired] are the calls of
    [on_dont_have_timeout]. *)
Record DontHaveTimeoutManager := mk {
  active_wants : gmap Cid PendingWant;
  want_queue : list PendingWant;
  timeout : Z;
  samples : Z;
  worker : bool;
  triggers : nat;
  fired : list (list Cid);
}.
Definition new : DontHaveTimeoutManager := mk ∅ [] DONT_HAVE_TIMEOUT 0 false 0 [].

Definition start (d : DontHaveTimeoutManager) : DontHaveTimeoutManager :=
  mk (active_wants d) (want_queue d) (timeout d) (samples d) true (triggers d) (fired d).

Definition trigger (d : DontHaveTimeoutManager) : DontHaveTimeoutManager :=
  if worker d
  then mk (active_wants d) (want_queue d) (timeout d) (samples d) true (S (triggers d)) (fired d)
  else d.

Definition set_timeout (t n : Z) (d : DontHaveTimeoutManager) : DontHaveTimeoutManager :=
  mk (active_wants d) (want_queue d) t n (worker d) (triggers d) (fired d).

(** [update_message_latency]; [t] is the timeout that follows from the average
    latency, which [calculate_timeout_from_message_latency] cuts at [MAX_TIMEOUT]. *)
Definition update_message_latency (t : Z) (d : DontHaveTimeoutManager) : DontHaveTimeoutManager :=
  let t := if bool_decide (MAX_TIMEOUT < t) then MAX_TIMEOUT else t in
  let d' := set_timeout t (samples d + 1) d in
  if bool_decide (t < timeout d) then trigger d' else d'.

(** One key of the loop of [add_pending]. *)
Definition add_pending_one (now : Z) (st : gmap Cid PendingWant * list PendingWant) (c : Cid) :
    gmap Cid PendingWant * list PendingWant :=
  let '(aw, wq) := st in
  if bool_decide (is_Some (aw !! c)) then st
  else let pw := mkPending c true now in (<[c := pw]> aw, wq ++ [pw]).

Definition add_pending (now : Z) (pending : list Cid) (d : DontHaveTimeoutManager) :
    DontHaveTimeoutManager :=
  match pending with
  | [] => d
  | _ =>
      let queue_was_empty := bool_decide (active_wants d = ∅) in
      let '(aw, wq) := foldl (add_pending_one now) (active_wants d, want_queue d) pending in
      let d := mk aw wq (timeout d) (samples d) (worker d) (triggers d) (fired d) in
      if queue_was_empty then trigger d else d
  end.

(** The flag that is cleared is the one of the entry that is removed next. *)
Definition cancel_pending (cancels : list Cid) (d : DontHaveTimeoutManager) : DontHaveTimeoutManager :=
  mk (foldl (λ aw c, delete c aw) (active_wants d) cancels) (want_queue d) (timeout d) (samples d)
     (worker d) (triggers d) (fired d).

(** The [while let Some(pw) = want_queue.pop()] loop, on the reversed queue: the
    wants that expired, the wants that stay active and the rest of the queue. *)
Fixpoint pop_expired (now timeout_ : Z) (rq : list PendingWant) (aw : gmap Cid PendingWant)
    (expired : list Cid) : list Cid * gmap Cid PendingWant * list PendingWant :=
  match rq with
  | [] => (expired, aw, [])
  | pw :: rq =>
      if active pw then
        if bool_decide (now - sent pw < timeout_) then (expired, aw, rq)
        else pop_expired now timeout_ rq (delete (cid pw) aw) (expired ++ [cid pw])
      else pop_expired now timeout_ rq aw expired
  end.

Definition check_for_timeouts (now : Z) (d : DontHaveTimeoutManager) :
    option Z * DontHaveTimeoutManager :=
  match want_queue d with
  | [] => (None, d)
  | _ =>
      let '(expired, aw, rq) := pop_expired now (timeout d) (reverse (want_queue d)) (active_wants d) [] in
      let wq := reverse rq in
      (oldest ← head wq; Some (Z.max 0 (sent oldest + timeout d - now)),
       mk aw wq (timeout d) (samples d) (worker d) (triggers d)
          (fired d ++ (if bool_decide (expired = []) then [] else [expired])))
  end.

Lemma check_eq now d :
  check_for_timeouts now d =
    let '(expired, aw, rq) := pop_expired now (timeout d) (reverse (want_queue d)) (active_wants d) [] in
    (oldest ← head (reverse rq); Some (Z.max 0 (sent oldest + timeout d - now)),
     mk aw (reverse rq) (timeout d) (samples d) (worker d) (triggers d)
        (fired d ++ (if bool_decide (expired = []) then [] else [expired]))).
Proof.
  unfold check_for_timeouts. destruct (want_queue d) as [|x l] eqn:E; [|done].
  destruct d. simpl in *. subst. by rewrite app_nil_r.
Qed.

(** ** What the check does

    The queue is filled at its end and emptied from its end, so a check looks at
    the newest want first. *)
Lemma check_drops_newest now d pw wq :
  want_queue d = wq ++ [pw] → active pw = true → now - sent pw < timeout d →
  let d' := (check_for_timeouts now d).2 in
  want_queue d' = wq ∧ active_wants d' = active_wants d ∧ fired d' = fired d.
Proof.
  intros Hq Ha Ht. rewrite check_eq, Hq, reverse_snoc. simpl. rewrite Ha, bool_decide_eq_true_2 by done. simpl.
  by rewrite reverse_involutive, app_nil_r.
Qed.

(** A want whose entry was taken off the queue that way stays active for ever, is
    never queued again and never times out, until it is cancelled. *)
Definition forgotten (c : Cid) (d : DontHaveTimeoutManager) : Prop :=
  is_Some (active_wants d !! c) ∧ Forall (λ pw, cid pw ≠ c) (want_queue d).

Lemma pop_expired_forgotten now t rq aw ex c :
  is_Some (aw !! c) → Forall (λ pw, cid pw ≠ c) rq →
  let '(ex', aw', rq') := pop_expired now t rq aw ex in
  is_Some (aw' !! c) ∧ Forall (λ pw, cid pw ≠ c) rq' ∧ (c ∈ ex' ↔ c ∈ ex).
Proof.
  revert aw ex. induction rq as [|pw rq IH]; simpl; intros aw ex Haw Hrq; [done|].
  apply Forall_cons in Hrq as [Hc Hrq]. destruct (active pw); [|by apply IH].
  case_bool_decide; [done|].
  pose proof (IH (delete (cid pw) aw) (ex ++ [cid pw])) as IH'. rewrite lookup_delete_ne in IH' by done.
  specialize (IH' Haw Hrq). destruct (pop_expired _ _ _ _ _) as [[ex' aw'] rq'].
  destruct IH' as (H1 & H2 & H3). split_and!; [done|done|]. rewrite H3. set_solver.
Qed.

Lemma forgotten_check now c d :
  forgotten c d → forgotten c (check_for_timeouts now d).2 ∧
    ∀ f, f ∈ fired (check_for_timeouts now d).2 → c ∈ f → f ∈ fired d.
Proof.
  intros [Haw Hq]. rewrite check_eq.
  pose proof (pop_expired_forgotten now (timeout d) (reverse (want_queue d)) (active_wants d) [] c Haw) as H.
  destruct (pop_expired _ _ _ _ _) as [[ex aw] rq]. destruct H as (H1 & H2 & H3); [by apply Forall_reverse|].
  simpl. split; [split; [done|by apply Forall_reverse]|].
  intros f [?|Hf]%elem_of_app; [done|]. case_bool_decide; [by apply elem_of_nil in Hf|].
  apply list_elem_of_singleton in Hf as ->. intros Hc%H3. by apply elem_of_nil in Hc.
Qed.

Lemma forgotten_add now cs c d : forgotten c d → forgotten c (add_pending now cs d).
Proof.
  assert (∀ cs aw wq, is_Some (aw !! c) → Forall (λ pw, cid pw ≠ c) wq →
    let '(aw', wq') := foldl (add_pending_one now) (aw, wq) cs in
    is_Some (aw' !! c) ∧ Forall (λ pw, cid pw ≠ c) wq') as Hf.
  { induction cs0 as [|x xs IH]; intros aw wq Haw Hwq; cbn [foldl]; [done|]. unfold add_pending_one at 2.
    case_bool_decide as Hx; [by apply IH|]. apply IH.
    - rewrite lookup_insert_is_Some. destruct (decide (x = c)) as [->|]; auto.
    - apply Forall_app. split; [done|]. apply Forall_singleton. simpl. by intros ->. }
  intros [Haw Hq]. unfold add_pending. destruct cs as [|c0 cs0]; [done|].
  specialize (Hf (c0 :: cs0) _ _ Haw Hq). destruct (foldl _ _ _) as [aw wq]. destruct Hf.
  unfold trigger. case_bool_decide; [destruct (worker _)|]; by split.
Qed.

(** A simulated DONT_HAVE is only fired for wants that waited for the timeout. *)
Lemma pop_expired_late now t rq aw ex c :
  c ∈ (pop_expired now t rq aw ex).1.1 →
  c ∈ ex ∨ ∃ pw, pw ∈ rq ∧ cid pw = c ∧ active pw = true ∧ t <= now - sent pw.
Proof.
  revert aw ex. induction rq as [|pw rq IH]; simpl; intros aw ex Hc; [by left|].
  destruct (active pw) eqn:Ha; [case_bool_decide as Hl; [by left|]|].
  - apply IH in Hc as [[?|Hx%list_elem_of_singleton]%elem_of_app|(pw' & ? & ?)].
    + by left.
    + right. subst. exists pw. split_and!; [by left|done|done|lia].
    + right. exists pw'. split; [by right|done].
  - apply IH in Hc as [?|(pw' & ? & ?)]; [by left|]. right. exists pw'. split; [by right|done].
Qed.

Lemma fired_late now d f c :
  f ∈ fired (check_for_timeouts now d).2 → f ∉ fired d → c ∈ f →
  ∃ pw, pw ∈ want_queue d ∧ cid pw = c ∧ active pw = true ∧ timeout d <= now - sent pw.
Proof.
  rewrite check_eq. intros Hf Hn Hc.
  pose proof (pop_expired_late now (timeout d) (reverse (want_queue d)) (active_wants d) [] c) as H.
  destruct (pop_expired _ _ _ _ _) as [[ex aw] rq]. simpl in *.
  apply elem_of_app in Hf as [?|Hf]; [done|]. case_bool_decide; [by apply elem_of_nil in Hf|].
  apply list_elem_of_singleton in Hf as ->. destruct (H Hc) as [Hx|(pw & Hin & ?)]; [by apply elem_of_nil in Hx|].
  exists pw. by rewrite elem_of_reverse in Hin.
Qed.

(** A cancelled want is still in the queue, with its flag set: it fires. *)
Lemma cancelled_still_fires now now' c :
  DONT_HAVE_TIMEOUT <= now' - now →
  fired (check_for_timeouts now' (cancel_pending [c] (add_pending now [c] new))).2 = [[c]].
Proof.
  intros Ht. unfold add_pending. cbn [foldl]. unfold add_pending_one. simpl.
  rewrite bool_decide_eq_false_2 by (rewrite lookup_empty; by intros []).
  rewrite bool_decide_eq_true_2 by done. rewrite check_eq. simpl. by rewrite bool_decide_eq_false_2 by lia.
Qed.
End manager.
End DontHaveTimeoutManager.
