(* ===== verification/MessageQueue.v ===== *)
(** * The message queue of a peer

    packages/beetle-bitswap-next/src/client/message_queue.rs: the actor that turns
    the updates posted by the peer manager into Bitswap messages: wants and
    cancels that wait to be sent, wants that were sent, rebroadcasts, and the
    message that is cut when it gets too big.  Opening a stream and sending on it
    are the network's: whether they succeed are arguments. *)
From stdpp Require Import base gmap list.
From S2P Require Import Prelude Protobuf PbInstance Wantlist BitswapPb BitswapMessage.
From S2P Require Import Ledger PeerWants DontHaveTimeout.
Local Open Scope Z_scope.

Module MessageQueue.
Import QueueHandle.
Section queue.
  Context {ids : Ids} {cc : CidCodec} {cp : CidParts} {qp : QuickProtobuf} {ho : HashOrder}.
  Notation Message := BitswapMessage.BitswapMessage.
  Notation RecallWantlist := RecallWantlist.RecallWantlist.
  Notation DontHave := DontHaveTimeoutManager.DontHaveTimeoutManager.

(** Durations are nanoseconds. *)
Record Config := mkConfig {
  max_message_size : Z;
  max_valid_latency : Z;
  max_priority : Z;
}.
Definition Config_default : Config := mkConfig (1024 * 1024 * 2) 30000000000 i32_max.

(** [sender] holds what the peer's stream [supports_have]; [outgoing_work] is the
    number of signals in the channel, which has room for two. *)
Record MessageQueueActor := mk {
  config : Config;
  wants : Wants.Wants;
  dh_timeout_manager : DontHave;
  outgoing_work : nat;
  sender : option bool;
}.

Definition new (cfg : Config) : MessageQueueActor :=
  mk cfg (Wants.mk RecallWantlist.default RecallWantlist.default ∅ (max_priority cfg))
     DontHaveTimeoutManager.new 0 None.

Definition with_wants (w : Wants.Wants) (a : MessageQueueActor) : MessageQueueActor :=
  mk (config a) w (dh_timeout_manager a) (outgoing_work a) (sender a).
Definition with_dh (d : DontHave) (a : MessageQueueActor) : MessageQueueActor :=
  mk (config a) (wants a) d (outgoing_work a) (sender a).
Definition signal_work (a : MessageQueueActor) : MessageQueueActor :=
  mk (config a) (wants a) (dh_timeout_manager a) (Nat.min 2 (S (outgoing_work a))) (sender a).

(** ** handle_wants_update

    One key of each of its loops. *)
Definition add_bcst_have (w : outcome Wants.Wants) (c : Cid) : outcome Wants.Wants :=
  w ← w;
  let b := RecallWantlist.add c (Wants.priority w) Have (Wants.bcst_wants w) in
  p ← i32_sub (Wants.priority w) 1;
  mret (Wants.mk b (Wants.peer_wants w) (Wants.cancels w ∖ {[c]}) p).

Definition add_peer_want (t : WantType) (w : outcome Wants.Wants) (c : Cid) : outcome Wants.Wants :=
  w ← w;
  let r := RecallWantlist.add c (Wants.priority w) t (Wants.peer_wants w) in
  p ← i32_sub (Wants.priority w) 1;
  mret (Wants.mk (Wants.bcst_wants w) r (Wants.cancels w ∖ {[c]}) p).

Definition cancel_want (st : Wants.Wants * bool) (c : Cid) : Wants.Wants * bool :=
  let '(w, work_ready) := st in
  let was_sent_bcst := Wantlist.contains c (RecallWantlist.sent (Wants.bcst_wants w)) in
  let was_sent_peer := Wantlist.contains c (RecallWantlist.sent (Wants.peer_wants w)) in
  let b := RecallWantlist.remove c (Wants.bcst_wants w) in
  let p := RecallWantlist.remove c (Wants.peer_wants w) in
  if was_sent_bcst || was_sent_peer
  then (Wants.mk b p ({[c]} ∪ Wants.cancels w) (Wants.priority w), true)
  else (Wants.mk b p (Wants.cancels w) (Wants.priority w), work_ready).

Definition handle_wants_update (u : WantsUpdate) (a : MessageQueueActor) : outcome MessageQueueActor :=
  match u with
  | BroadcastWantHaves want_haves =>
      w ← foldl add_bcst_have (mret (wants a)) (iter_set want_haves);
      mret (signal_work (with_wants w a))
  | SendWants want_blocks want_haves =>
      w ← foldl (add_peer_want Have) (mret (wants a)) want_haves;
      w ← foldl (add_peer_want Block) (mret w) want_blocks;
      mret (signal_work (with_wants w a))
  | Cancels cancels =>
      let a := with_dh (DontHaveTimeoutManager.cancel_pending (iter_set cancels) (dh_timeout_manager a)) a in
      let '(w, work_ready) := foldl cancel_want (wants a, false) (iter_set cancels) in
      let a := with_wants w a in
      mret (if work_ready then signal_work a else a)
  end.

(** ** Rebroadcast *)
Definition recall_again (r : RecallWantlist) : RecallWantlist :=
  RecallWantlist.mk (Wantlist.extend (RecallWantlist.pending r) (RecallWantlist.sent r))
    (RecallWantlist.sent r) (RecallWantlist.sent_at r).

Definition transfer_rebroadcast_wants (a : MessageQueueActor) : bool * MessageQueueActor :=
  let w := wants a in
  if Wantlist.is_empty (RecallWantlist.sent (Wants.bcst_wants w)) &&
     Wantlist.is_empty (RecallWantlist.sent (Wants.peer_wants w))
  then (false, a)
  else (true, with_wants (Wants.mk (recall_again (Wants.bcst_wants w)) (recall_again (Wants.peer_wants w))
                            (Wants.cancels w) (Wants.priority w)) a).

(** ** extract_outgoing_message

    The loops that fill the message: the message, its size, the number of items
    added and whether the message is full. *)
Fixpoint fill {A} (put : A → Message → Z * Message) (max : Z) (xs : list A) (msg : Message)
    (msg_size : Z) (n : nat) : outcome (Message * Z * nat * bool) :=
  match xs with
  | [] => mret (msg, msg_size, n, false)
  | x :: xs =>
      let '(k, msg) := put x msg in
      msg_size ← usize_add msg_size k;
      if bool_decide (max <= msg_size) then mret (msg, msg_size, S n, true)
      else fill put max xs msg msg_size (S n)
  end.

Definition put_cancel (c : Cid) (msg : Message) : Z * Message := BitswapMessage.cancel_entry c msg.
Definition put_peer (e : Wantlist.Entry) (msg : Message) : Z * Message :=
  BitswapMessage.add_entry (Wantlist.cid e) (Wantlist.priority e) (Wantlist.want_type e) true msg.
Definition put_bcst (supports_have : bool) (e : Wantlist.Entry) (msg : Message) : Z * Message :=
  BitswapMessage.add_entry (Wantlist.cid e) (Wantlist.priority e)
    (if supports_have then Have else Block) false msg.

(** The closure that drops the want-haves for a peer that does not know them. *)
Definition drop_have (st : list Wantlist.Entry * RecallWantlist) (e : Wantlist.Entry) :
    list Wantlist.Entry * RecallWantlist :=
  let '(kept, r) := st in
  if bool_decide (Wantlist.want_type e = Have)
  then (kept, RecallWantlist.remove_type (Wantlist.cid e) Have r)
  else (kept ++ [e], r).

(** [entries] with the list's cache updated. *)
Definition pending_entries (r : RecallWantlist) : list Wantlist.Entry * RecallWantlist :=
  let '(es, p) := Wantlist.entries (RecallWantlist.pending r) in
  (es, RecallWantlist.mk p (RecallWantlist.sent r) (RecallWantlist.sent_at r)).

(** The [retain] that marks the entries as sent. *)
Definition mark_entry (st : list Wantlist.Entry * RecallWantlist * Message) (e : Wantlist.Entry) :
    list Wantlist.Entry * RecallWantlist * Message :=
  let '(kept, r, msg) := st in
  let '(ok, r) := RecallWantlist.mark_sent e r in
  if ok then (kept ++ [e], r, msg) else (kept, r, BitswapMessage.remove (Wantlist.cid e) msg).

Definition mark_cancel (st : gset Cid * Message) (c : Cid) : gset Cid * Message :=
  let '(cs, msg) := st in
  if bool_decide (c ∈ cs) then (cs ∖ {[c]}, msg) else (cs, BitswapMessage.remove c msg).

Definition extract (supports_have : bool) (max : Z) (w : Wants.Wants) :
    outcome (Message * list Wantlist.Entry * list Wantlist.Entry * Wants.Wants * Z) :=
  let '(peer_entries, pr) := pending_entries (Wants.peer_wants w) in
  let '(peer_entries, pr) :=
    if supports_have then (peer_entries, pr) else foldl drop_have ([], pr) peer_entries in
  let '(bcst_entries, br) := pending_entries (Wants.bcst_wants w) in
  let cancels := iter_set (Wants.cancels w) in
  s ← fill put_cancel max cancels (BitswapMessage.new false) 0 0%nat;
  let '(msg, msg_size, sent_cancels, done) := s in
  s ← (if done : bool then mret (msg, msg_size, 0%nat, true)
       else fill put_peer max peer_entries msg msg_size 0%nat);
  let '(msg, msg_size, sent_peer_entries, done) := s in
  s ← (if done : bool then mret (msg, msg_size, 0%nat, true)
       else fill (put_bcst supports_have) max bcst_entries msg msg_size 0%nat);
  let '(msg, msg_size, sent_bcst_entries, _) := s in
  let '(peer_entries, pr, msg) := foldl mark_entry ([], pr, msg) (take sent_peer_entries peer_entries) in
  let '(bcst_entries, br, msg) := foldl mark_entry ([], br, msg) (take sent_bcst_entries bcst_entries) in
  let '(cs, msg) := foldl mark_cancel (Wants.cancels w, msg) (take sent_cancels cancels) in
  mret (msg, peer_entries, bcst_entries, Wants.mk br pr cs (Wants.priority w), msg_size).

(** [open] is what [new_message_sender] returns: an error, or a stream and whether
    it supports want-haves. *)
Definition extract_outgoing_message (open : option bool) (a : MessageQueueActor) :
    outcome (option (Message * list Wantlist.Entry * list Wantlist.Entry) * MessageQueueActor) :=
  match (match sender a with Some s => Some s | None => open end) with
  | None => mret (None, a)
  | Some supports_have =>
      r ← extract supports_have (max_message_size (config a)) (wants a);
      let '(msg, peer_entries, bcst_entries, w, _) := r in
      mret (Some (msg, peer_entries, bcst_entries),
            mk (config a) w (dh_timeout_manager a) (outgoing_work a) (Some supports_have))
  end.

(** ** send_message *)
Definition simulate_dont_have_with_timeout (now : Z) (wantlist : list BitswapMessage.Entry)
    (a : MessageQueueActor) : MessageQueueActor :=
  let pending_wants := omap (λ e : BitswapMessage.Entry,
    if bool_decide (BitswapMessage.want_type e = Block) && BitswapMessage.send_dont_have e
       && Wantlist.contains (BitswapMessage.cid e) (RecallWantlist.sent (Wants.peer_wants (wants a)))
    then Some (BitswapMessage.cid e) else None) wantlist in
  with_dh (DontHaveTimeoutManager.add_pending now pending_wants (dh_timeout_manager a)) a.

Definition record_all (now : Z) (r : RecallWantlist) (es : list Wantlist.Entry) : RecallWantlist :=
  foldl (λ r e, RecallWantlist.record_sent_at (Wantlist.cid e) now r) r es.

(** Whether the loop must end, the message that went out, and the new state. *)
Definition send_message (open : option bool) (sends : bool) (now : Z) (a : MessageQueueActor) :
    outcome (bool * option Message * MessageQueueActor) :=
  let a := with_dh (DontHaveTimeoutManager.start (dh_timeout_manager a)) a in
  r ← extract_outgoing_message open a;
  match r with
  | (None, a) => mret (true, None, a)
  | (Some (msg, peer_entries, bcst_entries), a) =>
      if BitswapMessage.is_empty msg then mret (false, None, a)
      else if negb sends then mret (true, None, a)
      else
        let w := wants a in
        let a := with_wants (Wants.mk (record_all now (Wants.bcst_wants w) bcst_entries)
                   (record_all now (Wants.peer_wants w) peer_entries) (Wants.cancels w) (Wants.priority w)) a in
        let a := simulate_dont_have_with_timeout now (iter_values (BitswapMessage.wantlist msg)) a in
        more ← Wants.has_pending_work (wants a);
        mret (false, Some msg, if more : bool then signal_work a else a)
  end.

Definition rebroadcast_wantlist (open : option bool) (sends : bool) (now : Z) (a : MessageQueueActor) :
    outcome (bool * option Message * MessageQueueActor) :=
  let '(again, a) := transfer_rebroadcast_wants a in
  if again then send_message open sends now a else mret (false, None, a).

Definition send_if_ready (open : option bool) (sends : bool) (now : Z) (a : MessageQueueActor) :
    outcome (bool * option Message * MessageQueueActor) :=
  ready ← Wants.has_pending_work (wants a);
  if ready : bool then send_message open sends now a else mret (false, None, a).

(** ** handle_response

    One key of the loop; [Instant] subtraction saturates. *)
Definition earlier (now max : Z) (earliest : option Z) (at_ : Z) : bool :=
  (match earliest with None => true | Some e => bool_decide (at_ < e) end)
  && bool_decide (Z.max 0 (now - at_) < max).

Definition respond_one (now max : Z) (st : option Z * Wants.Wants) (c : Cid) : option Z * Wants.Wants :=
  let '(earliest, w) := st in
  let '(earliest, b) :=
    match RecallWantlist.sent_at (Wants.bcst_wants w) !! c with
    | Some at_ => (if earlier now max earliest at_ then Some at_ else earliest,
                   RecallWantlist.clear_sent_at c (Wants.bcst_wants w))
    | None => (earliest, Wants.bcst_wants w)
    end in
  let '(earliest, p) :=
    match RecallWantlist.sent_at (Wants.peer_wants w) !! c with
    | Some at_ =>
        if earlier now max earliest at_
        then (Some at_, RecallWantlist.clear_sent_at c (Wants.peer_wants w))
        else (earliest, Wants.peer_wants w)
    | None => (earliest, Wants.peer_wants w)
    end in
  (earliest, Wants.mk b p (Wants.cancels w) (Wants.priority w)).

(** [new_timeout] is the timeout that follows from the latency. *)
Definition handle_response (now : Z) (new_timeout : Z → Z) (response : list Cid)
    (a : MessageQueueActor) : MessageQueueActor :=
  let '(earliest, w) := foldl (respond_one now (max_valid_latency (config a))) (None, wants a) response in
  let a := with_wants w a in
  match earliest with
  | Some e => with_dh (DontHaveTimeoutManager.update_message_latency (new_timeout (Z.max 0 (now - e)))
                         (dh_timeout_manager a)) a
  | None => a
  end.
End queue.
End MessageQueue.
