(* ===== verification/MessageQueueProofs.v ===== *)
(** * What the message queue tells its peer

    The wants of [MessageQueue.v] as functions of the identifier; what the
    messages that went out amount to for the peer that receives them. *)
From stdpp Require Import base gmap list.
From S2P Require Import Prelude Protobuf PbInstance Wantlist BitswapPb BitswapMessage.
From S2P Require Import Ledger PeerWants DontHaveTimeout MessageQueue.
Local Open Scope Z_scope.

Module MessageQueueProofs.
Import QueueHandle MessageQueue.

(** ** Want types

    Two wants for the same block amount to the stronger one. *)
Definition wjoin (o o' : option WantType) : option WantType :=
  match o, o' with
  | None, o | o, None => o
  | Some Have, Some Have => Some Have
  | _, _ => Some Block
  end.

#[export] Instance wjoin_none_l : LeftId (=) None wjoin.
Proof. by intros [[]|]. Qed.
#[export] Instance wjoin_none_r : RightId (=) None wjoin.
Proof. by intros [[]|]. Qed.
#[export] Instance wjoin_comm : Comm (=) wjoin.
Proof. by intros [[]|] [[]|]. Qed.
#[export] Instance wjoin_assoc : Assoc (=) wjoin.
Proof. by intros [[]|] [[]|] [[]|]. Qed.
#[export] Instance wjoin_idemp : IdemP (=) wjoin.
Proof. by intros [[]|]. Qed.
Lemma wjoin_some o t : is_Some (wjoin o (Some t)).
Proof. destruct o as [[]|], t; by eexists. Qed.
Lemma wjoin_is_Some o o' : is_Some (wjoin o o') ↔ is_Some o ∨ is_Some o'.
Proof. rewrite <-!not_eq_None_Some. destruct o as [[]|], o' as [[]|]; naive_solver. Qed.

Section proofs.
  Context {ids : Ids} {cc : CidCodec} {cp : CidParts} {qp : QuickProtobuf} {ho : HashOrder}.
  Notation Message := BitswapMessage.BitswapMessage.
  Notation RecallWantlist := RecallWantlist.RecallWantlist.

(** The type under which a list holds a block. *)
Definition ty (w : Wantlist.Wantlist) (c : Cid) : option WantType :=
  Wantlist.want_type <$> Wantlist.set w !! c.

Lemma ty_join_entry o o' :
  Wantlist.want_type <$> Wantlist.join_entry o o' = wjoin (Wantlist.want_type <$> o) (Wantlist.want_type <$> o').
Proof. destruct o as [[? ? []]|], o' as [[? ? []]|]; done. Qed.

Lemma ty_add c p t w d :
  ty (Wantlist.add c p t w).2 d = if decide (d = c) then wjoin (ty w d) (Some t) else ty w d.
Proof.
  unfold ty. rewrite (Wantlist.exec_spec w (Wantlist.Add c p t)). simpl. case_decide as Hd.
  - subst. by rewrite lookup_partial_alter_eq, ty_join_entry.
  - by rewrite lookup_partial_alter_ne.
Qed.

Lemma ty_remove c w d : ty (Wantlist.remove c w).2 d = if decide (d = c) then None else ty w d.
Proof.
  unfold ty. simpl. case_decide; [subst; by rewrite lookup_delete_eq|by rewrite lookup_delete_ne].
Qed.

Lemma ty_extend w o d : ty (Wantlist.extend w o) d = wjoin (ty w d) (ty o d).
Proof. unfold ty. by rewrite Wantlist.extend_lookup, ty_join_entry. Qed.

Lemma contains_ty c w : Wantlist.contains c w = bool_decide (is_Some (ty w c)).
Proof. unfold Wantlist.contains, ty. apply bool_decide_ext. by rewrite fmap_is_Some. Qed.

(** Well-formed lists. *)
Definition rinv (r : RecallWantlist) : Prop :=
  Wantlist.inv (RecallWantlist.pending r) ∧ Wantlist.inv (RecallWantlist.sent r).
Notation pending r := (ty (RecallWantlist.pending r)).
Notation sent r := (ty (RecallWantlist.sent r)).

Lemma rinv_add c p t r : rinv r → rinv (RecallWantlist.add c p t r).
Proof. intros [Hp Hs]. split; [|done]. by apply (Wantlist.exec_inv _ (Wantlist.Add c p t)). Qed.
Lemma rinv_remove c r : rinv r → rinv (RecallWantlist.remove c r).
Proof.
  intros [Hp Hs]. split; [by apply (Wantlist.exec_inv _ (Wantlist.Remove c))|].
  by apply (Wantlist.exec_inv _ (Wantlist.Remove c)).
Qed.
Lemma rinv_recall r : rinv r → rinv (recall_again r).
Proof. intros [Hp Hs]. split; [|done]. by apply (Wantlist.exec_inv _ (Wantlist.Extend _)). Qed.

Lemma recall_remove c r x :
  pending (RecallWantlist.remove c r) x = (if decide (x = c) then None else pending r x) ∧
  sent (RecallWantlist.remove c r) x = (if decide (x = c) then None else sent r x).
Proof. split; apply ty_remove. Qed.

(** The wants of a list of entries. *)
Definition tys (es : list Wantlist.Entry) : gmap Cid WantType :=
  list_to_map ((λ e, (Wantlist.cid e, Wantlist.want_type e)) <$> es).

Lemma tys_None es c : tys es !! c = None ↔ c ∉ Wantlist.cid <$> es.
Proof.
  unfold tys. rewrite <-not_elem_of_list_to_map, <-list_fmap_compose. done.
Qed.

Lemma pending_entries_ok r :
  rinv r →
  let '(es, r') := pending_entries r in
  rinv r' ∧ RecallWantlist.sent r' = RecallWantlist.sent r ∧
  Wantlist.set (RecallWantlist.pending r') = Wantlist.set (RecallWantlist.pending r) ∧
  NoDup (Wantlist.cid <$> es) ∧ (∀ c, tys es !! c = pending r c) ∧
  length es = size (Wantlist.set (RecallWantlist.pending r)).
Proof.
  intros [Hp Hs]. unfold pending_entries.
  pose proof (Wantlist.entries_of_inv _ Hp) as [Hperm _].
  pose proof (Wantlist.exec_inv _ Wantlist.Entries Hp I) as Hp'.
  pose proof (Wantlist.exec_spec (RecallWantlist.pending r) Wantlist.Entries) as He. simpl in Hp', He.
  destruct (Wantlist.entries (RecallWantlist.pending r)) as [es p]. simpl in *.
  destruct Hp as [Hk _]. set (m := Wantlist.set (RecallWantlist.pending r)) in *.
  assert ((λ e, (Wantlist.cid e, e)) <$> es ≡ₚ map_to_list m) as Hm.
  { rewrite Hperm, <-list_fmap_compose. rewrite <-(list_fmap_id (map_to_list m)) at 2.
    apply reflexive_eq, list_fmap_ext. intros i [c e] Hi. simpl. f_equal. apply Hk.
    by apply list_elem_of_lookup_2, elem_of_map_to_list in Hi. }
  assert (NoDup (Wantlist.cid <$> es)) as Hnd.
  { assert (Wantlist.cid <$> es = ((λ e, (Wantlist.cid e, e)) <$> es).*1) as ->.
    { by rewrite <-list_fmap_compose. }
    rewrite Hm. apply NoDup_fst_map_to_list. }
  split_and!; try done.
  - intros c. assert ((list_to_map ((λ e, (Wantlist.cid e, e)) <$> es) : gmap Cid Wantlist.Entry) = m) as Hlm.
    { rewrite <-(list_to_map_to_list m). apply list_to_map_proper; [by rewrite <-list_fmap_compose|done]. }
    unfold ty, tys. fold m. rewrite <-Hlm, <-lookup_fmap, <-list_to_map_fmap, <-list_fmap_compose. done.
  - rewrite Hperm, length_fmap. apply length_map_to_list.
Qed.

Lemma tys_cons e es c :
  tys (e :: es) !! c = if decide (c = Wantlist.cid e) then Some (Wantlist.want_type e) else tys es !! c.
Proof.
  unfold tys. simpl. case_decide; [subst; by rewrite lookup_insert_eq|by rewrite lookup_insert_ne].
Qed.

Lemma mark_sent_pending e r :
  rinv r → pending r (Wantlist.cid e) = Some (Wantlist.want_type e) →
  ∃ r', RecallWantlist.mark_sent e r = (true, r') ∧ rinv r' ∧
    (∀ c, pending r' c = if decide (c = Wantlist.cid e) then None else pending r c) ∧
    (∀ c, sent r' c = if decide (c = Wantlist.cid e) then wjoin (sent r c) (Some (Wantlist.want_type e))
                      else sent r c).
Proof.
  intros [Hp Hs] He. unfold RecallWantlist.mark_sent.
  pose proof (Wantlist.exec_inv _ (Wantlist.RemoveType (Wantlist.cid e) (Wantlist.want_type e)) Hp I) as Hp'.
  simpl in Hp'. unfold Wantlist.remove_type in *. unfold ty in He.
  destruct (Wantlist.set (RecallWantlist.pending r) !! Wantlist.cid e) as [e0|] eqn:E0; [|done].
  simpl in He. injection He as He0. rewrite He0 in *.
  replace (bool_decide (Wantlist.want_type e = Block) && bool_decide (Wantlist.want_type e = Have)) with false in *
    by (by destruct (Wantlist.want_type e)).
  eexists. split; [done|]. split_and!.
  - split; [done|]. by apply (Wantlist.exec_inv _ (Wantlist.Add _ _ _)).
  - intros c. unfold ty. simpl. case_decide; [subst; by rewrite lookup_delete_eq|by rewrite lookup_delete_ne].
  - intros c. simpl. by rewrite ty_add.
Qed.

Lemma mark_entries es : ∀ kept r (msg : Message),
  rinv r → NoDup (Wantlist.cid <$> es) →
  (∀ e, e ∈ es → pending r (Wantlist.cid e) = Some (Wantlist.want_type e)) →
  ∃ r', foldl mark_entry (kept, r, msg) es = (kept ++ es, r', msg) ∧ rinv r' ∧
    (∀ c, pending r' c = if decide (c ∈ Wantlist.cid <$> es) then None else pending r c) ∧
    (∀ c, sent r' c = wjoin (sent r c) (tys es !! c)).
Proof.
  induction es as [|e es IH]; intros kept r msg Hr Hnd He.
  { exists r. rewrite app_nil_r. split_and!; [done|done|done|].
    - intros c. unfold tys. simpl. by rewrite lookup_empty, (right_id_L None wjoin). }
  simpl in Hnd. apply NoDup_cons in Hnd as [Hni Hnd]. cbn [foldl].
  destruct (mark_sent_pending e r Hr) as (r1 & Hm & Hr1 & Hp1 & Hs1); [apply He; by left|].
  unfold mark_entry at 2. rewrite Hm.
  destruct (IH (kept ++ [e]) r1 msg Hr1 Hnd) as (r' & Hf & Hr' & Hp' & Hs').
  { intros e' He'. rewrite Hp1, decide_False; [apply He; by right|].
    intros Heq. apply Hni. rewrite <-Heq. by apply list_elem_of_fmap_2. }
  exists r'. rewrite Hf, <-(assoc_L (++)). split_and!; [done|done| |].
  - intros c. rewrite Hp', Hp1. destruct (decide (c = Wantlist.cid e)) as [->|Hne].
    + rewrite (decide_True (P := Wantlist.cid e ∈ Wantlist.cid <$> e :: es)) by (simpl; by left). by case_decide.
    + rewrite (decide_ext (c ∈ Wantlist.cid <$> e :: es) (c ∈ Wantlist.cid <$> es)); [done|].
      simpl. rewrite elem_of_cons. tauto.
  - intros c. rewrite Hs', Hs1, tys_cons. destruct (decide (c = Wantlist.cid e)) as [->|Hne]; [|done].
    rewrite (proj2 (tys_None es _) Hni), (right_id_L None wjoin). done.
Qed.

(** ** What a message says of a block *)
Definition mtype (msg : Message) (c : Cid) : option WantType :=
  BitswapMessage.want_type <$> BitswapMessage.wantlist msg !! c.
Definition mcancel (msg : Message) (c : Cid) : bool :=
  match BitswapMessage.wantlist msg !! c with Some e => BitswapMessage.cancel e | None => false end.
Definition only_wants (msg : Message) : Prop :=
  BitswapMessage.blocks msg = ∅ ∧ BitswapMessage.block_presences msg = ∅.

Lemma add_full_entry_says c p cn t b (msg : Message) d :
  let msg' := (BitswapMessage.add_full_entry c p cn t b msg).2 in
  mtype msg' d = (if decide (d = c) then wjoin (mtype msg d) (Some t) else mtype msg d) ∧
  mcancel msg' d = (if decide (d = c) then cn || mcancel msg d else mcancel msg d) ∧
  (only_wants msg → only_wants msg').
Proof.
  unfold BitswapMessage.add_full_entry, mtype, mcancel, only_wants.
  destruct (BitswapMessage.wantlist msg !! c) as [[c0 p0 t0 cn0 b0]|] eqn:E; simpl;
    (split_and!; [| |done]); (destruct (decide (d = c)) as [->|Hne];
      [rewrite lookup_insert_eq, E; simpl|by rewrite lookup_insert_ne]).
  - destruct t, t0; done.
  - by destruct cn.
  - by destruct t.
  - by rewrite orb_false_r.
Qed.

Lemma put_entries_says (put : Wantlist.Entry → Message → Z * Message) es (msg : Message) :
  (∀ e m, e ∈ es → ∃ p b, put e m = BitswapMessage.add_entry (Wantlist.cid e) p (Wantlist.want_type e) b m) →
  NoDup (Wantlist.cid <$> es) →
  let msg' := foldl (λ m e, (put e m).2) msg es in
  (∀ c, mtype msg' c = wjoin (mtype msg c) (tys es !! c)) ∧ (∀ c, mcancel msg' c = mcancel msg c) ∧
  (only_wants msg → only_wants msg').
Proof.
  intros Hput. revert msg. induction es as [|e es IH]; intros msg Hnd; simpl.
  { split_and!; [|done|done]. intros c. unfold tys. simpl. by rewrite lookup_empty, (right_id_L None wjoin). }
  simpl in Hnd. apply NoDup_cons in Hnd as [Hni Hnd].
  destruct (Hput e msg) as (p & b & Hpe); [by left|].
  destruct (IH ltac:(intros; apply Hput; by right) (put e msg).2 Hnd) as (H1 & H2 & H3).
  rewrite Hpe in *. unfold BitswapMessage.add_entry in *.
  pose proof (add_full_entry_says (Wantlist.cid e) p false (Wantlist.want_type e) b msg) as Hs. split_and!.
  - intros c. rewrite H1, tys_cons. destruct (Hs c) as (-> & _ & _).
    destruct (decide (c = Wantlist.cid e)) as [->|Hne]; [|done].
    by rewrite (proj2 (tys_None es _) Hni), (right_id_L None wjoin).
  - intros c. rewrite H2. destruct (Hs c) as (_ & -> & _). by case_decide.
  - intros Hw. apply H3. by apply (Hs (Wantlist.cid e)).
Qed.

Lemma put_cancels_says cs (msg : Message) :
  let msg' := foldl (λ m c, (put_cancel c m).2) msg cs in
  (∀ c, mtype msg' c = if decide (c ∈ cs) then wjoin (mtype msg c) (Some Block) else mtype msg c) ∧
  (∀ c, mcancel msg' c = bool_decide (c ∈ cs) || mcancel msg c) ∧ (only_wants msg → only_wants msg').
Proof.
  revert msg. induction cs as [|x cs IH]; intros msg; simpl; [done|].
  destruct (IH (put_cancel x msg).2) as (H1 & H2 & H3). unfold put_cancel, BitswapMessage.cancel_entry in *.
  pose proof (add_full_entry_says x 0 true Block false msg) as Hs. split_and!.
  - intros c. rewrite H1. destruct (Hs c) as (-> & _ & _). destruct (decide (c = x)) as [->|Hne].
    + rewrite (decide_True (P := x ∈ x :: cs)) by (by left). case_decide; [|done]. by destruct (mtype msg x) as [[]|].
    + by rewrite (decide_ext (c ∈ x :: cs) (c ∈ cs)) by (rewrite elem_of_cons; tauto).
  - intros c. rewrite H2. destruct (Hs c) as (_ & -> & _). rewrite (bool_decide_ext _ _ (elem_of_cons cs c x)).
    destruct (decide (c = x)) as [->|Hne]; repeat case_bool_decide; simpl; try done; exfalso; tauto.
  - intros Hw. apply H3. by apply (Hs x).
Qed.

(** ** Filling a message

    The sum of the sizes of the items that are put into a message. *)
Fixpoint put_size {A} (put : A → Message → Z * Message) (xs : list A) (msg : Message) : Z :=
  match xs with [] => 0 | x :: xs => (put x msg).1 + put_size put xs (put x msg).2 end.

Lemma fill_ok {A} (put : A → Message → Z * Message) max bound xs :
  (∀ x m, x ∈ xs → 0 <= (put x m).1 <= bound) → 0 <= bound → max + bound <= usize_max →
  ∀ msg size n, 0 <= size < max →
  ∃ k done, let ys := take k xs in
    fill put max xs msg size n =
      Done (foldl (λ m x, (put x m).2) msg ys, size + put_size put ys msg, (n + k)%nat, done) ∧
    (k <= length xs)%nat ∧ (xs ≠ [] → 0 < k)%nat ∧
    0 <= size + put_size put ys msg < max + bound ∧
    (if done then max <= size + put_size put ys msg
     else k = length xs ∧ size + put_size put ys msg < max).
Proof.
  intros Hput Hb Hmax. induction xs as [|x xs IH]; intros msg size n Hsize.
  { exists 0%nat, false. simpl. rewrite Z.add_0_r, Nat.add_0_r. split_and!; try done; lia. }
  cbn [fill]. pose proof (Hput x msg ltac:(by left)) as Hx. destruct (put x msg) as [k0 msg1] eqn:Ep. simpl in Hx.
  rewrite usize_add_ok by lia. simpl. case_bool_decide as Hfull.
  - exists 1%nat, true. simpl. rewrite ?take_0, Ep. simpl. rewrite Z.add_0_r, Nat.add_1_r. split_and!; try done; lia.
  - destruct (IH ltac:(intros; apply Hput; by right) msg1 (size + k0) (S n)) as (k & dn & Hf & Hk & _ & Hs & Hd); [lia|].
    exists (S k), dn. simpl. rewrite Ep. simpl in *. rewrite Hf, Z.add_assoc, Nat.add_succ_r.
    split_and!; try done; try lia. destruct dn; [done|]. destruct Hd. split; [lia|done].
Qed.

Lemma mark_cancels_ok ys cs (msg : Message) :
  NoDup ys → (∀ c, c ∈ ys → c ∈ cs) → foldl mark_cancel (cs, msg) ys = (cs ∖ list_to_set ys, msg).
Proof.
  revert cs. induction ys as [|y ys IH]; intros cs Hnd Hin; simpl.
  { by rewrite difference_empty_L. }
  apply NoDup_cons in Hnd as [Hy Hnd]. rewrite bool_decide_eq_true_2 by (apply Hin; by left).
  rewrite IH; [f_equal; set_solver|done|set_solver].
Qed.

Lemma tys_elem es e :
  NoDup (Wantlist.cid <$> es) → e ∈ es → tys es !! Wantlist.cid e = Some (Wantlist.want_type e).
Proof.
  intros Hnd He. unfold tys. apply elem_of_list_to_map_1.
  - by rewrite <-list_fmap_compose.
  - by apply (list_elem_of_fmap_2 (λ e, (Wantlist.cid e, Wantlist.want_type e))).
Qed.

Lemma NoDup_cid_take k es : NoDup (Wantlist.cid <$> es) → NoDup (Wantlist.cid <$> take k es).
Proof. intros Hnd. rewrite fmap_take. eapply sublist_NoDup; [done|apply sublist_take]. Qed.

(** The wants of [es] move from the pending list of [r] to the sent list of [r']. *)
Record moved (r : RecallWantlist) (es : list Wantlist.Entry) (r' : RecallWantlist) : Prop := {
  mv_inv : rinv r';
  mv_sub c t : tys es !! c = Some t → pending r c = Some t;
  mv_nodup : NoDup (Wantlist.cid <$> es);
  mv_pending c : pending r' c = if tys es !! c then None else pending r c;
  mv_sent c : sent r' c = wjoin (sent r c) (tys es !! c);
}.

Lemma moved_take r k es r1 (msg : Message) :
  rinv r → pending_entries r = (es, r1) →
  ∃ r', foldl mark_entry ([], r1, msg) (take k es) = (take k es, r', msg) ∧ moved r (take k es) r'.
Proof.
  intros Hr He. pose proof (pending_entries_ok r Hr) as Ho. rewrite He in Ho.
  destruct Ho as (Hr1 & Hs1 & Hp1 & Hnd & Ht & _).
  assert (∀ c, pending r1 c = pending r c) as Hp by (intros c; unfold ty; by rewrite Hp1).
  destruct (mark_entries (take k es) [] r1 msg Hr1 (NoDup_cid_take k es Hnd)) as (r' & Hf & Hr' & H1 & H2).
  { intros e Hin. rewrite Hp, <-Ht. apply tys_elem; [done|]. by eapply elem_of_take_list. }
  exists r'. split; [done|]. split; [done| |by apply NoDup_cid_take| |].
  - intros c t Hc. rewrite <-Ht. unfold tys in *. apply elem_of_list_to_map_2 in Hc.
    apply elem_of_list_to_map_1; [by rewrite <-list_fmap_compose|].
    apply list_elem_of_fmap in Hc as (e & [= -> ->] & Hin).
    apply (list_elem_of_fmap_2 (λ e, (Wantlist.cid e, Wantlist.want_type e))). by eapply elem_of_take_list.
  - intros c. rewrite H1, Hp. destruct (tys (take k es) !! c) as [t|] eqn:E.
    + apply decide_True. apply dec_stable. intros Hn%tys_None. congruence.
    + apply decide_False. by apply tys_None.
  - intros c. rewrite H2, Hs1. done.
Qed.

(** ** The size of a message

    The size that the loops count and the size of the entries of the message: they
    differ only where a broadcast want changes the priority of a want that is
    already in the message, by the size of a varint at most. *)
Definition entries_size (msg : Message) : Z :=
  map_sum BitswapMessage.entry_encoded_len (BitswapMessage.wantlist msg).

Lemma encoded_len_entries (msg : Message) : only_wants msg → BitswapMessage.encoded_len msg = entries_size msg.
Proof.
  intros [Hb Hp]. unfold BitswapMessage.encoded_len, BitswapMessage.presences, entries_size.
  assert (∀ {A} (m : gmap Cid A), m = ∅ → iter_map m = []) as Hnil.
  { intros A m ->. apply Permutation_nil. rewrite iter_map_perm. by rewrite map_to_list_empty. }
  unfold iter_values at 1. rewrite !Hnil by done. cbn [fmap list_fmap Zsum foldr].
  rewrite map_sum_to_list. rewrite !Z.add_0_l. apply Zsum_perm. unfold iter_values. by rewrite iter_map_perm.
Qed.

Lemma put_fresh_size c p cn t b (msg : Message) :
  mtype msg c = None →
  entries_size (BitswapMessage.add_full_entry c p cn t b msg).2 =
    entries_size msg + (BitswapMessage.add_full_entry c p cn t b msg).1.
Proof.
  intros Hm. unfold mtype in Hm. apply fmap_None in Hm. unfold BitswapMessage.add_full_entry, entries_size.
  rewrite Hm. simpl. rewrite map_sum_insert by done. lia.
Qed.

Lemma put_bcst_size e (msg : Message) :
  entries_size (put_bcst true e msg).2 <= entries_size msg + (put_bcst true e msg).1 + 11.
Proof.
  unfold put_bcst, BitswapMessage.add_entry.
  destruct (mtype msg (Wantlist.cid e)) eqn:E; [|rewrite put_fresh_size by done; lia].
  apply fmap_Some_1 in E as (x & Hx & ->).
  unfold BitswapMessage.add_full_entry, entries_size. rewrite Hx. simpl.
  rewrite (map_sum_update _ _ _ x) by done.
  enough (BitswapMessage.entry_encoded_len (BitswapMessage.merge_entry (Wantlist.priority e) false Have false x)
    <= BitswapMessage.entry_encoded_len x + 11) by lia.
  unfold BitswapMessage.merge_entry, BitswapMessage.entry_encoded_len, BitswapPb.Entry_get_size. simpl.
  assert (∀ p, 0 <= Pb.size_unless 0 (λ p, sizeof_varint (p `mod` 2 ^ 64)) p <= 11) as Hp.
  { intros p. unfold Pb.size_unless. case_bool_decide; [lia|].
    assert (0 <= p `mod` 2 ^ 64 < 2 ^ 64) as Hr by (apply Z.mod_pos_bound; lia).
    pose proof (sizeof_varint_bound _ Hr). lia. }
  pose proof (Hp (Wantlist.priority e)). pose proof (Hp (BitswapMessage.priority x)).
  case_bool_decide; lia.
Qed.

Lemma fresh_sizes {A} (key : A → Cid) (put : A → Message → Z * Message) xs (msg : Message) :
  (∀ x m, ∃ p cn t b, put x m = BitswapMessage.add_full_entry (key x) p cn t b m) →
  NoDup (key <$> xs) → (∀ x, x ∈ xs → mtype msg (key x) = None) →
  entries_size (foldl (λ m x, (put x m).2) msg xs) = entries_size msg + put_size put xs msg.
Proof.
  intros Hput. revert msg. induction xs as [|x xs IH]; intros msg Hnd Hfr; simpl; [lia|].
  simpl in Hnd. apply NoDup_cons in Hnd as [Hx Hnd].
  destruct (Hput x msg) as (p & cn & t & b & Hp). rewrite IH; [|done|].
  - rewrite Hp, put_fresh_size; [lia|]. apply Hfr. by left.
  - intros y Hy. rewrite Hp. destruct (add_full_entry_says (key x) p cn t b msg (key y)) as (-> & _ & _).
    rewrite decide_False; [apply Hfr; by right|]. intros Heq. apply Hx. rewrite <-Heq. by apply list_elem_of_fmap_2.
Qed.

Lemma bcst_sizes bs (msg : Message) :
  entries_size (foldl (λ m e, (put_bcst true e m).2) msg bs) <=
    entries_size msg + put_size (put_bcst true) bs msg + 11 * vec_len bs.
Proof.
  unfold vec_len. revert msg. induction bs as [|e bs IH]; intros msg; cbn [foldl put_size length]; [lia|].
  pose proof (IH (put_bcst true e msg).2). pose proof (put_bcst_size e msg). lia.
Qed.

Lemma message_size cs ps bs :
  NoDup cs → NoDup (Wantlist.cid <$> ps) → (∀ c, c ∈ cs → tys ps !! c = None) →
  let msg1 := foldl (λ m c, (put_cancel c m).2) (BitswapMessage.new false) cs in
  let msg2 := foldl (λ m e, (put_peer e m).2) msg1 ps in
  entries_size (foldl (λ m e, (put_bcst true e m).2) msg2 bs) <=
    0 + put_size put_cancel cs (BitswapMessage.new false) + put_size put_peer ps msg1
    + put_size (put_bcst true) bs msg2 + 11 * vec_len bs.
Proof.
  intros Hcs Hps Hd. cbv zeta. etrans; [apply bcst_sizes|]. rewrite (fresh_sizes Wantlist.cid put_peer); [|..].
  - rewrite (fresh_sizes (λ c, c) put_cancel); [|by intros; eexists _, _, _, _|by rewrite list_fmap_id|].
    + unfold entries_size at 1. simpl. rewrite map_sum_empty. lia.
    + intros c _. unfold mtype. simpl. by rewrite lookup_empty.
  - by intros; eexists _, _, _, _.
  - done.
  - intros e He. destruct (put_cancels_says cs (BitswapMessage.new false)) as (-> & _ & _).
    rewrite decide_False; [unfold mtype; simpl; by rewrite lookup_empty|].
    intros Hc%Hd. by rewrite (tys_elem ps e Hps He) in Hc.
Qed.

(** ** extract_outgoing_message for a peer that understands want-haves *)
Definition entry_bound (bound : Z) (c : Cid) : Prop :=
  ∀ p t cn b, 0 <= BitswapMessage.entry_encoded_len (BitswapMessage.mkEntry c p t cn b) <= bound.

Lemma add_full_entry_size c p cn t b bound (msg : Message) :
  0 <= bound → entry_bound bound c → 0 <= (BitswapMessage.add_full_entry c p cn t b msg).1 <= bound.
Proof.
  intros Hb He. unfold BitswapMessage.add_full_entry. destruct (_ !! c); simpl; [lia|]. apply He.
Qed.

Record extracted (max bound : Z) (w : Wants.Wants) (cs : list Cid) (msg : Message)
    (ps bs : list Wantlist.Entry) (w' : Wants.Wants) (size : Z) : Prop := {
  ex_peer : moved (Wants.peer_wants w) ps (Wants.peer_wants w');
  ex_bcst : moved (Wants.bcst_wants w) bs (Wants.bcst_wants w');
  ex_cancels : Wants.cancels w' = Wants.cancels w ∖ list_to_set cs;
  ex_cancelled c : c ∈ cs → c ∈ Wants.cancels w;
  ex_nodup : NoDup cs;
  ex_priority : Wants.priority w' = Wants.priority w;
  ex_mcancel c : mcancel msg c = bool_decide (c ∈ cs);
  ex_mtype c : c ∉ cs → mtype msg c = wjoin (tys ps !! c) (tys bs !! c);
  ex_only : only_wants msg;
  ex_size : 0 <= size < max + bound;
  ex_len : entries_size msg <= size + 11 * vec_len bs;
  ex_all : size < max →
    length cs = base.size (Wants.cancels w) ∧
    length ps = base.size (Wantlist.set (RecallWantlist.pending (Wants.peer_wants w))) ∧
    length bs = base.size (Wantlist.set (RecallWantlist.pending (Wants.bcst_wants w)));
  ex_some : cs = [] → ps = [] → bs = [] → size < max;
}.

(** [fill], when an earlier loop may already have filled the message. *)
Lemma fill_unless_ok {A} (put : A → Message → Z * Message) max bound xs (full : bool) msg size :
  (∀ x m, x ∈ xs → 0 <= (put x m).1 <= bound) → 0 <= bound → max + bound <= usize_max → 0 < max →
  (if full then max <= size < max + bound else 0 <= size < max) →
  ∃ (k : nat) (full' : bool), let ys := take k xs in
    (if full then mret (msg, size, 0%nat, true) else fill put max xs msg size 0%nat) =
      Done (foldl (λ m x, (put x m).2) msg ys, size + put_size put ys msg, k, full') ∧
    (if full' then max <= size + put_size put ys msg < max + bound
     else full = false ∧ k = length xs ∧ 0 <= size + put_size put ys msg < max) ∧
    (full = false → full' = true → 0 < length ys)%nat.
Proof.
  intros Hput Hb Hmax Hpos Hsize. destruct full.
  - exists 0%nat, true. rewrite take_0. simpl. rewrite Z.add_0_r. split_and!; done || lia.
  - destruct (fill_ok put max bound xs Hput Hb Hmax msg size 0%nat Hsize) as (k & dn & Hf & Hk & Hk' & Hs & Hd).
    exists k, dn. simpl in *. split_and!; [done| |].
    + destruct dn; [lia|]. destruct Hd. split_and!; done || lia.
    + intros _ ->. rewrite length_take. destruct xs as [|x xs].
      { rewrite take_nil in Hd, Hs. simpl in *. lia. }
      specialize (Hk' ltac:(done)). simpl in *. lia.
Qed.

(** What the message says after the three loops. *)
Lemma message_says cs ps bs :
  NoDup (Wantlist.cid <$> ps) → NoDup (Wantlist.cid <$> bs) →
  (∀ c, c ∈ cs → tys ps !! c = None ∧ tys bs !! c = None) →
  (∀ e, e ∈ bs → Wantlist.want_type e = Have) →
  let msg1 := foldl (λ m c, (put_cancel c m).2) (BitswapMessage.new false) cs in
  let msg2 := foldl (λ m e, (put_peer e m).2) msg1 ps in
  let msg3 := foldl (λ m e, (put_bcst true e m).2) msg2 bs in
  (∀ c, mcancel msg3 c = bool_decide (c ∈ cs)) ∧
  (∀ c, c ∉ cs → mtype msg3 c = wjoin (tys ps !! c) (tys bs !! c)) ∧ only_wants msg3.
Proof.
  intros Hps Hbs Hcs Hhave. cbv zeta.
  destruct (put_cancels_says cs (BitswapMessage.new false)) as (A1 & A2 & A3).
  destruct (put_entries_says put_peer ps (foldl (λ m c, (put_cancel c m).2) (BitswapMessage.new false) cs))
    as (B1 & B2 & B3); [by intros; eexists _, _|done|].
  set (msg2 := foldl _ _ ps) in *.
  destruct (put_entries_says (put_bcst true) bs msg2) as (C1 & C2 & C3); [|done|].
  { intros e m He. unfold put_bcst. rewrite (Hhave e He). by eexists _, _. }
  split_and!.
  - intros c. rewrite C2, B2, A2. unfold mcancel. simpl. by rewrite lookup_empty, orb_false_r.
  - intros c Hc. rewrite C1, B1, A1, decide_False by done. unfold mtype. simpl.
    by rewrite lookup_empty, (left_id_L None wjoin).
  - by apply C3, B3, A3.
Qed.

Lemma extract_ok max bound w :
  rinv (Wants.peer_wants w) → rinv (Wants.bcst_wants w) →
  (∀ c, c ∈ Wants.cancels w → pending (Wants.peer_wants w) c = None ∧ pending (Wants.bcst_wants w) c = None) →
  (∀ c t, pending (Wants.bcst_wants w) c = Some t → t = Have) →
  (∀ c, c ∈ Wants.cancels w ∨ is_Some (pending (Wants.peer_wants w) c) ∨
        is_Some (pending (Wants.bcst_wants w) c) → entry_bound bound c) →
  0 <= bound → 0 < max → max + bound <= usize_max →
  ∃ cs msg ps bs w' size, extract true max w = Done (msg, ps, bs, w', size) ∧
    extracted max bound w cs msg ps bs w' size.
Proof.
  intros Hpr Hbr Hcs Hhave Hbound Hb Hpos Hmax. unfold extract.
  destruct (pending_entries (Wants.peer_wants w)) as [pes pr] eqn:Ep.
  pose proof (pending_entries_ok _ Hpr) as Hpo. rewrite Ep in Hpo. destruct Hpo as (_ & _ & _ & Hpnd & Hpt & Hpl).
  destruct (pending_entries (Wants.bcst_wants w)) as [bes br] eqn:Eb.
  pose proof (pending_entries_ok _ Hbr) as Hbo. rewrite Eb in Hbo. destruct Hbo as (_ & _ & _ & Hbnd & Hbt & Hbl).
  destruct (fill_unless_ok put_cancel max bound (iter_set (Wants.cancels w)) false (BitswapMessage.new false) 0)
    as (k1 & d1 & Hf1 & Hs1 & Hn1); try done; try lia.
  { intros c m Hc%elem_of_iter_set. apply add_full_entry_size; auto. }
  simpl in Hf1. rewrite Hf1. cbn [mbind outcome_bind].
  set (cs := take k1 (iter_set (Wants.cancels w))) in *. set (msg1 := foldl _ _ cs) in *.
  set (s1 := 0 + _) in *. 
  destruct (fill_unless_ok put_peer max bound pes d1 msg1 s1) as (k2 & d2 & Hf2 & Hs2 & Hn2); try done; try lia.
  { intros e m He. apply add_full_entry_size; [done|]. apply Hbound. right. left. rewrite <-Hpt, (tys_elem pes e); done || by eexists. }
  { destruct d1; lia. }
  rewrite Hf2. cbn [mbind outcome_bind]. set (ps := take k2 pes) in *. set (msg2 := foldl _ msg1 ps) in *.
  set (s2 := s1 + _) in *.
  destruct (fill_unless_ok (put_bcst true) max bound bes d2 msg2 s2) as (k3 & d3 & Hf3 & Hs3 & Hn3); try done; try lia.
  { intros e m He. apply add_full_entry_size; [done|]. apply Hbound. right. right. rewrite <-Hbt, (tys_elem bes e); done || by eexists. }
  { destruct d2; lia. }
  rewrite Hf3. cbn [mbind outcome_bind]. set (bs := take k3 bes) in *. set (msg3 := foldl _ msg2 bs) in *.
  set (s3 := s2 + _) in *.
  destruct (moved_take _ k2 pes pr msg3 Hpr Ep) as (pr' & Hmp & Hpm). fold ps in Hmp, Hpm. rewrite Hmp.
  destruct (moved_take _ k3 bes br msg3 Hbr Eb) as (br' & Hmb & Hbm). fold bs in Hmb, Hbm. rewrite Hmb.
  assert (NoDup cs ∧ ∀ c, c ∈ cs → c ∈ Wants.cancels w) as [Hcnd Hcin].
  { split; [eapply sublist_NoDup; [apply NoDup_iter_set|apply sublist_take]|].
    intros c Hc%elem_of_take_list. by apply elem_of_iter_set. }
  fold cs. rewrite (mark_cancels_ok cs) by done. eexists cs, msg3, ps, bs, _, s3. split; [done|].
  destruct (message_says cs ps bs) as (M1 & M2 & M3); [apply Hpm|apply Hbm| | |].
  { intros c Hc. destruct (Hcs c (Hcin c Hc)) as [H1 H2].
    split; apply eq_None_not_Some; intros [t Ht]; [apply (mv_sub _ _ _ Hpm) in Ht|apply (mv_sub _ _ _ Hbm) in Ht]; congruence. }
  { intros e He. apply (Hhave (Wantlist.cid e)). apply (mv_sub _ _ _ Hbm), tys_elem; [apply Hbm|done]. }
  fold msg1 in M1, M2, M3. fold msg2 in M1, M2, M3. fold msg3 in M1, M2, M3.
  split; simpl; try done.
  - destruct d3; lia.
  - apply message_size; [done|apply Hpm|]. intros c Hc. destruct (Hcs c (Hcin c Hc)) as [H1 _].
    apply eq_None_not_Some. intros [t Ht%(mv_sub _ _ _ Hpm)]. congruence.
  - intros Hlt. destruct d3 as []; [lia|]. destruct Hs3 as (-> & -> & _). destruct Hs2 as (-> & -> & _).
    destruct Hs1 as (_ & -> & _). unfold cs, ps, bs. rewrite !firstn_all. split_and!; [|done|done].
    by rewrite iter_set_perm.
  - intros Hc Hp Hbn. rewrite Hc, Hp, Hbn in *. simpl in *. destruct d1; [by specialize (Hn1 eq_refl eq_refl); lia|].
    destruct d2; [by specialize (Hn2 eq_refl eq_refl); lia|]. destruct d3; [by specialize (Hn3 eq_refl eq_refl); lia|]. lia.
Qed.

End proofs.
End MessageQueueProofs.
