(* ===== verification/MessageQueueClaims.v ===== *)
(** * Properties of the message queue

    The peer that receives the messages of a queue ends up with the wants that
    the updates of the queue amount to. *)
From stdpp Require Import base gmap list fin_sets.
From S2P Require Import Prelude Protobuf PbInstance Wantlist BitswapPb BitswapMessage.
From S2P Require Import Ledger PeerWants DontHaveTimeout MessageQueue MessageQueueProofs.
Local Open Scope Z_scope.

Module QueueRun.
Import QueueHandle MessageQueue MessageQueueProofs.
Section run.
  Context {ids : Ids} {cc : CidCodec} {cp : CidParts} {qp : QuickProtobuf} {ho : HashOrder}.
  Notation Message := BitswapMessage.BitswapMessage.
  Notation RecallWantlist := RecallWantlist.RecallWantlist.
  Notation pending r := (ty (RecallWantlist.pending r)).
  Notation sent r := (ty (RecallWantlist.sent r)).

(** The wants of a peer's point of view: a message adds and cancels wants; the
    receiver's list never weakens a want-block. *)
Definition receive (v : gmap Cid WantType) (msg : Message) : gmap Cid WantType :=
  merge (λ o e, match e with
                | None => o
                | Some e => if BitswapMessage.cancel e then None
                            else wjoin o (Some (BitswapMessage.want_type e))
                end) v (BitswapMessage.wantlist msg).

Lemma lookup_receive v (msg : Message) c :
  receive v msg !! c = if mcancel msg c then None else wjoin (v !! c) (mtype msg c).
Proof.
  unfold receive, mcancel, mtype. rewrite lookup_merge.
  destruct (v !! c) as [[]|], (BitswapMessage.wantlist msg !! c) as [[? ? ? [] ?]|]; done.
Qed.

(** ** Invariant

    [d] is the demand of the updates so far, [v] the view of the peer, [seen] the
    identifiers that occur in the updates. *)
Definition held (w : Wants.Wants) (c : Cid) : option WantType :=
  wjoin (wjoin (pending (Wants.bcst_wants w) c) (sent (Wants.bcst_wants w) c))
        (wjoin (pending (Wants.peer_wants w) c) (sent (Wants.peer_wants w) c)).
Definition was_sent (w : Wants.Wants) (c : Cid) : option WantType :=
  wjoin (sent (Wants.bcst_wants w) c) (sent (Wants.peer_wants w) c).

Record winv (seen : gset Cid) (d v : gmap Cid WantType) (w : Wants.Wants) : Prop := {
  wi_bcst : rinv (Wants.bcst_wants w);
  wi_peer : rinv (Wants.peer_wants w);
  wi_have c : pending (Wants.bcst_wants w) c ≠ Some Block ∧ sent (Wants.bcst_wants w) c ≠ Some Block;
  wi_demand c : d !! c = held w c;
  wi_cancels c : c ∈ Wants.cancels w → d !! c = None;
  wi_told c : wjoin (was_sent w c) (v !! c) = v !! c;
  wi_seen c : c ∈ Wants.cancels w ∨ is_Some (d !! c) → c ∈ seen;
}.

(** The peer holds no want that was withdrawn, unless the cancel still waits. *)
Definition vinv (v : gmap Cid WantType) (w : Wants.Wants) : Prop :=
  ∀ c, is_Some (v !! c) → is_Some (was_sent w c) ∨ c ∈ Wants.cancels w.

(** Case analysis on the want types at hand. *)
Ltac by_types :=
  repeat match goal with
  | |- context [ty ?w ?c] => destruct (ty w c) as [[]|] eqn:?
  | |- context [?m !! ?c] => destruct (m !! c) as [[]|] eqn:?
  end; simpl in *; try congruence; try tauto.

Lemma winv_new cfg : winv ∅ ∅ ∅ (wants (new cfg)) ∧ vinv ∅ (wants (new cfg)).
Proof.
  assert (rinv RecallWantlist.default) as Hr by (split; apply Wantlist.default_inv).
  split; [split; simpl; try done|].
  - intros c. rewrite lookup_empty. intros [?|[]]; set_solver.
  - intros c. rewrite lookup_empty. by intros [].
Qed.

(** ** Updates *)
Definition want (t : WantType) (d : gmap Cid WantType) (c : Cid) : gmap Cid WantType :=
  partial_alter (λ o, wjoin o (Some t)) c d.

Lemma lookup_want t d c x : want t d c !! x = if decide (x = c) then wjoin (d !! x) (Some t) else d !! x.
Proof.
  unfold want. case_decide; [subst; by rewrite lookup_partial_alter_eq|by rewrite lookup_partial_alter_ne].
Qed.

(** A want that joins a pending list. *)
Lemma winv_want seen d v w w' c t :
  winv seen d v w → rinv (Wants.bcst_wants w') → rinv (Wants.peer_wants w') →
  (∀ x, pending (Wants.bcst_wants w') x ≠ Some Block) →
  (∀ x, held w' x = if decide (x = c) then wjoin (held w x) (Some t) else held w x) →
  RecallWantlist.sent (Wants.bcst_wants w') = RecallWantlist.sent (Wants.bcst_wants w) →
  RecallWantlist.sent (Wants.peer_wants w') = RecallWantlist.sent (Wants.peer_wants w) →
  Wants.cancels w' = Wants.cancels w ∖ {[c]} →
  winv ({[c]} ∪ seen) (want t d c) v w' ∧ (c ∉ Wants.cancels w → vinv v w → vinv v w').
Proof.
  intros Hw Hb Hp Hh Hheld Hsb Hsp Hc.
  assert (∀ x, was_sent w' x = was_sent w x) as Hs by (intros x; unfold was_sent; by rewrite Hsb, Hsp).
  split; [split; try done|].
  - intros x. split; [done|]. rewrite Hsb. apply Hw.
  - intros x. by rewrite lookup_want, Hheld, (wi_demand _ _ _ _ Hw).
  - intros x. rewrite Hc. intros [Hx Hne]%elem_of_difference. rewrite lookup_want, decide_False by set_solver.
    by apply Hw.
  - intros x. rewrite Hs. apply Hw.
  - intros x. rewrite Hc, lookup_want. intros Hx. destruct (decide (x = c)) as [->|Hne]; [set_solver|].
    apply elem_of_union. right. apply (wi_seen _ _ _ _ Hw). set_solver.
  - intros Hn Hv x Hx. rewrite Hs, Hc. destruct (Hv x Hx) as [?|?]; [by left|]. right. set_solver.
Qed.

(** The loop of an update that adds wants. *)
Definition adds (t : WantType) (f : outcome Wants.Wants → Cid → outcome Wants.Wants) : Prop :=
  ∀ seen d v w c, winv seen d v w → i32_min < Wants.priority w <= i32_max →
  ∃ w', f (Done w) c = Done w' ∧ Wants.priority w' = Wants.priority w - 1 ∧
    winv ({[c]} ∪ seen) (want t d c) v w' ∧ (c ∉ Wants.cancels w → vinv v w → vinv v w') ∧
    Wants.cancels w' ⊆ Wants.cancels w.

Lemma adds_bcst : adds Have add_bcst_have.
Proof.
  intros seen d v w c Hw Hp. unfold add_bcst_have. cbn [mbind outcome_bind].
  unfold i32_sub. rewrite checked_ok by lia. cbn [mbind outcome_bind]. eexists. split; [done|]. split; [done|].
  refine ((λ H, conj (proj1 H) (conj (proj2 H) _)) (winv_want seen d v w _ c Have Hw _ _ _ _ _ _ _)); simpl; try done.
  - set_solver.
  - apply rinv_add, Hw.
  - apply Hw.
  - intros x. destruct (wi_have _ _ _ _ Hw x) as [H1 H2]. rewrite ty_add. case_decide; [|done]. revert H1. by_types.
  - intros x. unfold held. simpl. rewrite ty_add. case_decide; [|done]. by_types.
Qed.

Lemma adds_peer t : adds t (add_peer_want t).
Proof.
  intros seen d v w c Hw Hp. unfold add_peer_want. cbn [mbind outcome_bind].
  unfold i32_sub. rewrite checked_ok by lia. cbn [mbind outcome_bind]. eexists. split; [done|]. split; [done|].
  refine ((λ H, conj (proj1 H) (conj (proj2 H) _)) (winv_want seen d v w _ c t Hw _ _ _ _ _ _ _)); simpl; try done.
  - set_solver.
  - apply Hw.
  - apply rinv_add, Hw.
  - intros x. apply Hw.
  - intros x. unfold held. simpl. rewrite ty_add. case_decide; [|done]. destruct t; by_types.
Qed.

Lemma adds_all t f cs : adds t f → ∀ seen d v w,
  winv seen d v w → i32_min + vec_len cs <= Wants.priority w <= i32_max →
  ∃ w', foldl f (Done w) cs = Done w' ∧ Wants.priority w' = Wants.priority w - vec_len cs ∧
    winv (list_to_set cs ∪ seen) (foldl (want t) d cs) v w' ∧
    ((∀ c, c ∈ cs → c ∉ Wants.cancels w) → vinv v w → vinv v w') ∧ Wants.cancels w' ⊆ Wants.cancels w.
Proof.
  intros Hf. unfold vec_len. induction cs as [|c cs IH]; intros seen d v w Hw Hp; cbn [foldl length] in *.
  { exists w. simpl. rewrite Z.sub_0_r, (left_id_L ∅ (∪)). split_and!; done. }
  destruct (Hf seen d v w c Hw) as (w1 & E1 & P1 & W1 & V1 & C1); [lia|]. rewrite E1.
  destruct (IH _ _ _ _ W1) as (w2 & E2 & P2 & W2 & V2 & C2); [lia|]. exists w2.
  split_and!; [done|lia| | |set_solver].
  - simpl. replace ({[c]} ∪ list_to_set cs ∪ seen) with (list_to_set cs ∪ ({[c]} ∪ seen)) by set_solver. done.
  - intros Hn Hv. apply V2; [|by apply V1, Hv; apply Hn; left]. intros x Hx Hin. apply (Hn x); [by right|set_solver].
Qed.

(** One key of a cancel. *)
Lemma cancel_want_ok seen d v w b c :
  winv seen d v w →
  let '(w', b') := cancel_want (w, b) c in
  Wants.priority w' = Wants.priority w ∧ winv seen (delete c d) v w' ∧ (vinv v w → vinv v w') ∧
  Wants.cancels w' ⊆ {[c]} ∪ Wants.cancels w.
Proof.
  intros Hw. unfold cancel_want. rewrite !contains_ty.
  set (b0 := bool_decide _ || bool_decide _).
  assert (b0 = bool_decide (is_Some (was_sent w c))) as Hb0.
  { unfold b0, was_sent. rewrite (bool_decide_ext _ _ (wjoin_is_Some _ _)). symmetry. apply bool_decide_or. }
  set (br := RecallWantlist.remove c (Wants.bcst_wants w)). set (pr := RecallWantlist.remove c (Wants.peer_wants w)).
  assert (∀ cs x, held (Wants.mk br pr cs (Wants.priority w)) x = if decide (x = c) then None else held w x) as Hh.
  { intros cs x. unfold held, br, pr. cbn [Wants.bcst_wants Wants.peer_wants]. rewrite !(proj1 (recall_remove c _ x)), !(proj2 (recall_remove c _ x)).
    by case_decide. }
  assert (∀ cs x, was_sent (Wants.mk br pr cs (Wants.priority w)) x = if decide (x = c) then None else was_sent w x) as Hs.
  { intros cs x. unfold was_sent, br, pr. cbn [Wants.bcst_wants Wants.peer_wants]. rewrite !(proj2 (recall_remove c _ x)). by case_decide. }
  assert (is_Some (was_sent w c) → c ∈ seen) as Hseen.
  { intros Hc. apply (wi_seen _ _ _ _ Hw). right. rewrite (wi_demand _ _ _ _ Hw). unfold held, was_sent in *.
    rewrite !wjoin_is_Some in *. tauto. }
  assert (∀ cs, (∀ x, x ∈ cs → x = c ∧ c ∈ seen ∨ x ∈ Wants.cancels w) →
    winv seen (delete c d) v (Wants.mk br pr cs (Wants.priority w))) as Hinv.
  { intros cs Hcs. split; cbn [Wants.bcst_wants Wants.peer_wants Wants.cancels].
    - apply rinv_remove, Hw.
    - apply rinv_remove, Hw.
    - intros x. unfold br. rewrite (proj1 (recall_remove c _ x)), (proj2 (recall_remove c _ x)).
      case_decide; [done|apply Hw].
    - intros x. rewrite Hh. destruct (decide (x = c)) as [->|]; [by rewrite lookup_delete_eq|].
      rewrite lookup_delete_ne by done. apply Hw.
    - intros x [[-> _]|Hx]%Hcs; [by rewrite lookup_delete_eq|]. destruct (decide (x = c)) as [->|]; [by rewrite lookup_delete_eq|].
      rewrite lookup_delete_ne by done. by apply Hw.
    - intros x. rewrite Hs. case_decide; [by destruct (v !! x) as [[]|]|apply Hw].
    - intros x. rewrite lookup_delete_is_Some. pose proof (wi_seen _ _ _ _ Hw x). specialize (Hcs x). naive_solver. }
  assert (∀ cs : gset Cid, (∀ x, x ∈ Wants.cancels w → x ∈ cs) → (b0 = true → c ∈ cs) → vinv v w →
    vinv v (Wants.mk br pr cs (Wants.priority w))) as Hvinv.
  { intros cs Hcs Hc Hv x Hx. rewrite Hs. simpl. destruct (Hv x Hx) as [Hx'|Hx']; [|by right; apply Hcs].
    case_decide as Hd; [|by left]. subst. right. apply Hc. rewrite Hb0. by apply bool_decide_eq_true_2. }
  clearbody b0. destruct b0; split_and!; try done.
  - apply Hinv. symmetry in Hb0. apply bool_decide_eq_true in Hb0. intros x [->%elem_of_singleton|?]%elem_of_union; auto.
  - apply Hvinv; set_solver.
  - apply Hinv. auto.
  - by apply Hvinv.
  - set_solver.
Qed.

Lemma foldl_want t cs d x :
  foldl (want t) d cs !! x = if decide (x ∈ cs) then wjoin (d !! x) (Some t) else d !! x.
Proof.
  revert d. induction cs as [|c cs IH]; intros d; cbn [foldl]; [done|]. rewrite IH, lookup_want.
  destruct (decide (x = c)) as [->|Hne].
  - rewrite (decide_True (P := c ∈ c :: cs)) by (by left). case_decide; [|done]. by destruct (d !! c) as [[]|], t.
  - by rewrite (decide_ext (x ∈ c :: cs) (x ∈ cs)) by (rewrite elem_of_cons; tauto).
Qed.

(** The identifiers that an update wants, and the number of its wants. *)
Definition wanted (u : WantsUpdate) : gset Cid :=
  match u with
  | BroadcastWantHaves ws => ws
  | SendWants bs hs => list_to_set bs ∪ list_to_set hs
  | Cancels _ => ∅
  end.
Definition cost (u : WantsUpdate) : Z :=
  match u with
  | BroadcastWantHaves ws => set_len ws
  | SendWants bs hs => vec_len bs + vec_len hs
  | Cancels _ => 0
  end.

Lemma cost_wanted u : 0 <= set_len (wanted u) <= cost u.
Proof.
  unfold set_len, vec_len. destruct u as [ws|bs hs|cs]; simpl; unfold set_len, vec_len; [lia| |].
  - pose proof (size_union_alt (list_to_set bs : gset Cid) (list_to_set hs)) as ->.
    pose proof (size_list_to_set_le bs). pose proof (size_list_to_set_le hs).
    assert (size ((list_to_set hs : gset Cid) ∖ list_to_set bs) ≤ size (list_to_set hs : gset Cid))%nat
      by (apply subseteq_size; set_solver). lia.
  - done.
Qed.

Lemma cancels_ok cs : ∀ seen d v w b,
  winv seen d v w →
  let '(w', b') := foldl cancel_want (w, b) cs in
  Wants.priority w' = Wants.priority w ∧ winv seen (filter (λ ct, ct.1 ∉ cs) d) v w' ∧ (vinv v w → vinv v w') ∧
  Wants.cancels w' ⊆ list_to_set cs ∪ Wants.cancels w.
Proof.
  induction cs as [|c cs IH]; intros seen d v w b Hw; cbn [foldl].
  { split_and!; [done| |done|set_solver]. rewrite map_filter_id by (intros; apply not_elem_of_nil). done. }
  pose proof (cancel_want_ok seen d v w b c Hw) as H1. destruct (cancel_want (w, b) c) as [w1 b1].
  destruct H1 as (P1 & W1 & V1 & C1). specialize (IH _ _ _ _ b1 W1).
  destruct (foldl cancel_want (w1, b1) cs) as [w2 b2]. destruct IH as (P2 & W2 & V2 & C2).
  split_and!; [congruence| |auto|set_solver].
  replace (filter _ d) with (filter (λ ct : Cid * WantType, ct.1 ∉ cs) (delete c d)); [done|].
  apply map_eq. intros x. rewrite !map_lookup_filter. destruct (decide (x = c)) as [->|Hne].
  - rewrite lookup_delete_eq. destruct (d !! c); [|done]. simpl. case_guard as Hg; [|done]. set_solver.
  - rewrite lookup_delete_ne by done. destruct (d !! x); [|done]. simpl.
    repeat case_guard; try done; exfalso; set_solver.
Qed.

(** The identifiers that an update cancels. *)
Definition cancelled (u : WantsUpdate) : gset Cid := match u with Cancels cs => cs | _ => ∅ end.

Lemma update_ok u seen d v a :
  winv seen d v (wants a) → i32_min + cost u <= Wants.priority (wants a) <= i32_max →
  ∃ a', handle_wants_update u a = Done a' ∧ config a' = config a ∧ sender a' = sender a ∧
    Wants.priority (wants a') = Wants.priority (wants a) - cost u ∧
    winv (wanted u ∪ seen) (demand_update d u) v (wants a') ∧
    (wanted u ## Wants.cancels (wants a) → vinv v (wants a) → vinv v (wants a')) ∧
    Wants.cancels (wants a') ⊆ cancelled u ∪ Wants.cancels (wants a).
Proof.
  intros Hw Hp. destruct u as [ws|bs hs|cs]; cbn [handle_wants_update cost] in *;
    try change (mret (wants a)) with (Done (wants a)).
  - assert (vec_len (iter_set ws) = set_len ws) as Hl.
    { unfold vec_len, set_len. f_equal. by rewrite iter_set_perm. }
    destruct (adds_all Have _ (iter_set ws) adds_bcst _ _ _ _ Hw) as (w' & -> & P & W & V & C); [lia|].
    eexists. split; [done|]. simpl. split_and!; try done; [lia| | |set_solver].
    + replace (d ∪ gset_to_gmap Have ws) with (foldl (want Have) d (iter_set ws)).
      { replace (ws ∪ seen) with (list_to_set (iter_set ws) ∪ seen); [done|]. apply set_eq. intros c.
        by rewrite !elem_of_union, elem_of_list_to_set, elem_of_iter_set. }
      apply map_eq. intros x. rewrite foldl_want, lookup_union, lookup_gset_to_gmap.
      rewrite (decide_ext (x ∈ iter_set ws) (x ∈ ws)) by apply elem_of_iter_set.
      destruct (d !! x) as [[]|]; simpl; case_decide; case_guard; done.
    + intros Hd. apply V. intros c Hc%elem_of_iter_set. set_solver.
  - unfold vec_len in *.
    destruct (adds_all Have _ hs (adds_peer Have) _ _ _ _ Hw) as (w1 & -> & P1 & W1 & V1 & C1); [unfold vec_len; lia|].
    cbn [mbind outcome_bind]. unfold vec_len in *. change (mret w1) with (Done w1).
    destruct (adds_all Block _ bs (adds_peer Block) _ _ _ _ W1) as (w2 & -> & P2 & W2 & V2 & C2); [unfold vec_len; lia|].
    unfold vec_len in *. eexists. split; [done|]. simpl. split_and!; try done; [lia| | |set_solver].
    + replace (gset_to_gmap Block (list_to_set bs) ∪ (d ∪ gset_to_gmap Have (list_to_set hs)))
        with (foldl (want Block) (foldl (want Have) d hs) bs).
      { by rewrite <-(assoc_L (∪)). }
      apply map_eq. intros x. rewrite !foldl_want, !lookup_union, !lookup_gset_to_gmap.
      rewrite <-(decide_ext (x ∈ (list_to_set bs : gset Cid)) (x ∈ bs)) by apply elem_of_list_to_set.
      rewrite <-(decide_ext (x ∈ (list_to_set hs : gset Cid)) (x ∈ hs)) by apply elem_of_list_to_set.
      destruct (d !! x) as [[]|]; simpl; repeat case_decide; repeat case_guard; done.
    + intros Hd Hv. apply V2; [|apply V1; [set_solver|done]]. set_solver.
  - pose proof (cancels_ok (iter_set cs) seen d v (wants a) false Hw) as Hc. simpl.
    destruct (foldl cancel_want (wants a, false) (iter_set cs)) as [w' b]. destruct Hc as (P & W & V & C).
    eexists. split; [done|]. rewrite (left_id_L ∅ (∪)).
    assert (∀ a0, wants (if b then signal_work a0 else a0) = wants a0 ∧ config (if b then signal_work a0 else a0) = config a0
      ∧ sender (if b then signal_work a0 else a0) = sender a0) as Hb by (by destruct b).
    rewrite !(proj1 (Hb _)), !(proj1 (proj2 (Hb _))), !(proj2 (proj2 (Hb _))). simpl.
    split_and!; try done; [lia| |].
    + replace (filter (λ ct : Cid * WantType, ct.1 ∉ cs) d) with (filter (λ ct : Cid * WantType, ct.1 ∉ iter_set cs) d); [done|].
      apply map_filter_ext. intros c t _. simpl. by rewrite elem_of_iter_set.
    + intros c Hc%C. rewrite elem_of_union, elem_of_list_to_set, elem_of_iter_set in Hc. set_solver.
Qed.

(** ** Sending *)
Lemma moved_join (t p x : option WantType) :
  (∀ u, t = Some u → p = Some u) → wjoin (if t then None else p) (wjoin x t) = wjoin p x.
Proof. intros H. destruct t as [u|]; [rewrite (H u eq_refl); by destruct u, x as [[]|]|by rewrite (right_id_L None wjoin)]. Qed.

Lemma told_join a b x y v :
  wjoin (wjoin a b) v = v →
  wjoin (wjoin (wjoin a x) (wjoin b y)) (wjoin v (wjoin y x)) = wjoin v (wjoin y x).
Proof. destruct a as [[]|], b as [[]|], x as [[]|], y as [[]|], v as [[]|]; simpl; congruence. Qed.

Lemma extracted_winv max bound seen d v w cs (msg : Message) ps bs w' size :
  winv seen d v w → extracted max bound w cs msg ps bs w' size →
  winv seen d (receive v msg) w' ∧ (vinv v w → vinv (receive v msg) w').
Proof.
  intros Hw He. destruct (ex_peer _ _ _ _ _ _ _ _ _ He) as [P1 P2 P3 P4 P5].
  destruct (ex_bcst _ _ _ _ _ _ _ _ _ He) as [B1 B2 B3 B4 B5].
  pose proof (ex_cancels _ _ _ _ _ _ _ _ _ He) as Hcs.
  assert (∀ c, held w' c = held w c) as Hheld.
  { intros c. unfold held. rewrite P4, P5, B4, B5. f_equal; apply moved_join; eauto. }
  assert (∀ c, c ∈ cs → held w c = None) as Hnone.
  { intros c Hc%(ex_cancelled _ _ _ _ _ _ _ _ _ He). rewrite <-(wi_demand _ _ _ _ Hw). by apply Hw. }
  assert (∀ c, c ∈ cs → was_sent w' c = None) as Hsent.
  { intros c Hc. apply eq_None_not_Some. intros Hs. apply (eq_None_not_Some (held w' c)).
    - rewrite Hheld. by apply Hnone.
    - unfold held, was_sent in *. rewrite !wjoin_is_Some in *. tauto. }
  split; [split|].
  - done.
  - done.
  - intros c. destruct (wi_have _ _ _ _ Hw c) as [H1 H2]. rewrite B4, B5.
    destruct (tys bs !! c) as [t|] eqn:Et; [|by rewrite (right_id_L None wjoin)].
    rewrite (B2 _ _ Et) in H1. split; [done|]. destruct t, (sent (Wants.bcst_wants w) c) as [[]|]; done.
  - intros c. rewrite Hheld. apply Hw.
  - intros c. rewrite Hcs. intros [Hc _]%elem_of_difference. by apply Hw.
  - intros c. rewrite lookup_receive, (ex_mcancel _ _ _ _ _ _ _ _ _ He). case_bool_decide as Hc.
    + by rewrite Hsent.
    + rewrite (ex_mtype _ _ _ _ _ _ _ _ _ He c Hc). unfold was_sent. rewrite P5, B5.
      apply told_join, (wi_told _ _ _ _ Hw c).
  - intros c Hc. apply (wi_seen _ _ _ _ Hw). set_solver.
  - intros Hv c. rewrite lookup_receive, (ex_mcancel _ _ _ _ _ _ _ _ _ He).
    case_bool_decide as Hc; [by intros []|]. rewrite (ex_mtype _ _ _ _ _ _ _ _ _ He c Hc).
    rewrite Hcs. unfold was_sent. rewrite P5, B5, !wjoin_is_Some. intros [H|H]; [|tauto].
    destruct (Hv c H) as [Hx|Hx]; [|set_solver]. unfold was_sent in Hx. rewrite wjoin_is_Some in Hx. tauto.
Qed.

(** The work that waits. *)
Definition npending (r : RecallWantlist) : nat := base.size (Wantlist.set (RecallWantlist.pending r)).
Definition work (w : Wants.Wants) : nat :=
  (npending (Wants.bcst_wants w) + npending (Wants.peer_wants w) + base.size (Wants.cancels w))%nat.

Lemma moved_size r es r' : moved r es r' → (npending r' + length es = npending r)%nat.
Proof.
  intros [_ H1 H2 H3 _]. unfold npending. rewrite <-!size_dom.
  rewrite <-(length_fmap Wantlist.cid es), <-(size_list_to_set (C := gset Cid) (Wantlist.cid <$> es)) by done.
  assert (∀ c, is_Some (tys es !! c) ↔ c ∈ (list_to_set (Wantlist.cid <$> es) : gset Cid)) as Ht.
  { intros c. rewrite elem_of_list_to_set, <-not_eq_None_Some, tys_None.
    destruct (decide (c ∈ Wantlist.cid <$> es)); tauto. }
  assert (∀ r c, c ∈ dom (Wantlist.set (RecallWantlist.pending r)) ↔ is_Some (pending r c)) as Hd.
  { intros r0 c. unfold ty. by rewrite elem_of_dom, fmap_is_Some. }
  rewrite <-size_union.
  - f_equal. apply set_eq. intros c. rewrite elem_of_union, !Hd, <-Ht, H3.
    destruct (tys es !! c) as [t|] eqn:E; [rewrite (H1 _ _ E)|]; split; try (intros [[]|[]]; done);
      intros; (by right; eexists) || (by left) || by eexists.
  - intros c. rewrite Hd, <-Ht, H3. intros [? Hx] [t Hc]. by rewrite Hc in Hx.
Qed.

Lemma extracted_work max bound w cs (msg : Message) ps bs w' size :
  extracted max bound w cs msg ps bs w' size →
  (work w' + (length cs + length ps + length bs) = work w)%nat ∧
  (work w ≠ 0 → 0 < length cs + length ps + length bs)%nat.
Proof.
  intros He. pose proof (moved_size _ _ _ (ex_peer _ _ _ _ _ _ _ _ _ He)).
  pose proof (moved_size _ _ _ (ex_bcst _ _ _ _ _ _ _ _ _ He)).
  assert (base.size (Wants.cancels w') + length cs = base.size (Wants.cancels w))%nat as Hc.
  { rewrite (ex_cancels _ _ _ _ _ _ _ _ _ He), <-(size_list_to_set (C := gset Cid) cs) by apply He.
    rewrite <-size_union by set_solver. f_equal. pose proof (ex_cancelled _ _ _ _ _ _ _ _ _ He) as Hin.
    apply set_eq. intros c. rewrite elem_of_union, elem_of_difference, elem_of_list_to_set.
    destruct (decide (c ∈ cs)); naive_solver. }
  unfold work. split; [lia|]. intros Hn.
  destruct cs, ps, bs; simpl in *; try lia.
  destruct (ex_all _ _ _ _ _ _ _ _ _ He) as (H1 & H2 & H3); [by apply (ex_some _ _ _ _ _ _ _ _ _ He)|].
  unfold npending in *. simpl in *. lia.
Qed.

Lemma winv_work seen d v w : winv seen d v w → Z.of_nat (work w) <= 3 * set_len seen.
Proof.
  intros Hw. unfold set_len.
  assert (∀ r, (∀ c, is_Some (pending r c) → is_Some (held w c)) → npending r <= base.size seen)%nat as Hn.
  { intros r Hr. unfold npending. rewrite <-size_dom. apply subseteq_size. intros c Hc%elem_of_dom.
    apply (wi_seen _ _ _ _ Hw). right. rewrite (wi_demand _ _ _ _ Hw). apply Hr. unfold ty. by apply fmap_is_Some. }
  assert (npending (Wants.bcst_wants w) <= base.size seen)%nat.
  { apply Hn. intros c. unfold held. rewrite !wjoin_is_Some. tauto. }
  assert (npending (Wants.peer_wants w) <= base.size seen)%nat.
  { apply Hn. intros c. unfold held. rewrite !wjoin_is_Some. tauto. }
  assert (base.size (Wants.cancels w) <= base.size seen)%nat.
  { apply subseteq_size. intros c Hc. apply (wi_seen _ _ _ _ Hw). by left. }
  unfold work. lia.
Qed.

Lemma pending_work_ok w :
  Z.of_nat (work w) <= usize_max → Wants.has_pending_work w = Done (bool_decide (work w ≠ 0%nat)).
Proof.
  intros Hl. unfold Wants.has_pending_work, Wants.pending_work_count, Wantlist.len, map_len, set_len.
  unfold work, npending in *. rewrite usize_add_ok by lia. simpl. rewrite usize_add_ok by lia. simpl.
  f_equal. apply bool_decide_ext. lia.
Qed.

Lemma record_all_same now es r :
  RecallWantlist.pending (record_all now r es) = RecallWantlist.pending r ∧
  RecallWantlist.sent (record_all now r es) = RecallWantlist.sent r.
Proof.
  unfold record_all. revert r. induction es as [|e es IH]; intros r; simpl; [done|].
  destruct (IH (RecallWantlist.record_sent_at (Wantlist.cid e) now r)) as [-> ->].
  unfold RecallWantlist.record_sent_at. by destruct (Wantlist.contains _ _).
Qed.

(** The instants at which wants were sent are not part of the picture. *)
Definition same_wants (w w' : Wants.Wants) : Prop :=
  RecallWantlist.pending (Wants.bcst_wants w') = RecallWantlist.pending (Wants.bcst_wants w) ∧
  RecallWantlist.sent (Wants.bcst_wants w') = RecallWantlist.sent (Wants.bcst_wants w) ∧
  RecallWantlist.pending (Wants.peer_wants w') = RecallWantlist.pending (Wants.peer_wants w) ∧
  RecallWantlist.sent (Wants.peer_wants w') = RecallWantlist.sent (Wants.peer_wants w) ∧
  Wants.cancels w' = Wants.cancels w ∧ Wants.priority w' = Wants.priority w.

Lemma same_wants_ok seen d v w w' :
  same_wants w w' → winv seen d v w →
  winv seen d v w' ∧ (vinv v w → vinv v w') ∧ work w' = work w ∧ Wants.priority w' = Wants.priority w.
Proof.
  intros (E1 & E2 & E3 & E4 & E5 & E6) Hw.
  assert (∀ c, held w' c = held w c) as Hh by (intros c; unfold held; by rewrite E1, E2, E3, E4).
  assert (∀ c, was_sent w' c = was_sent w c) as Hs by (intros c; unfold was_sent; by rewrite E2, E4).
  split_and!; [split| | |done].
  - unfold rinv. rewrite E1, E2. apply Hw.
  - unfold rinv. rewrite E3, E4. apply Hw.
  - intros c. rewrite E1, E2. apply Hw.
  - intros c. rewrite Hh. apply Hw.
  - intros c. rewrite E5. apply Hw.
  - intros c. rewrite Hs. apply Hw.
  - intros c. rewrite E5. apply Hw.
  - intros Hv c. rewrite Hs, E5. apply Hv.
  - unfold work, npending. by rewrite E1, E3, E5.
Qed.

Lemma record_same now bs ps w cs :
  cs = Wants.cancels w →
  same_wants w (Wants.mk (record_all now (Wants.bcst_wants w) bs) (record_all now (Wants.peer_wants w) ps) cs
    (Wants.priority w)).
Proof. intros ->. unfold same_wants. simpl. destruct (record_all_same now bs (Wants.bcst_wants w)), (record_all_same now ps (Wants.peer_wants w)). done. Qed.

Definition receive_opt (v : gmap Cid WantType) (o : option Message) : gmap Cid WantType :=
  match o with Some msg => receive v msg | None => v end.

Lemma receive_empty v (msg : Message) : only_wants msg → BitswapMessage.is_empty msg = true → receive v msg = v.
Proof.
  intros _ He. unfold BitswapMessage.is_empty in He.
  apply andb_true_iff in He as [[_ He%bool_decide_eq_true]%andb_true_iff _].
  apply map_eq. intros c. rewrite lookup_receive. unfold mcancel, mtype. rewrite He, lookup_empty. simpl.
  apply (right_id_L None wjoin).
Qed.

(** What the environment grants: the peer's stream understands want-haves, sizes
    fit. *)
Record fits (bound : Z) (seen : gset Cid) (a : MessageQueueActor) : Prop := {
  ft_max : 0 < max_message_size (config a);
  ft_bound : 0 <= bound;
  ft_usize : max_message_size (config a) + bound <= usize_max;
  ft_entries c : c ∈ seen → entry_bound bound c;
  ft_seen : 3 * set_len seen <= usize_max;
  ft_sender : sender a = None ∨ sender a = Some true;
}.

Lemma winv_extract bound seen d v a :
  winv seen d v (wants a) → fits bound seen a →
  ∃ cs msg ps bs w' size, extract true (max_message_size (config a)) (wants a) = Done (msg, ps, bs, w', size) ∧
    extracted (max_message_size (config a)) bound (wants a) cs msg ps bs w' size.
Proof.
  intros Hw Hf. apply extract_ok; try apply Hf; try apply Hw.
  - intros c Hc%(wi_cancels _ _ _ _ Hw). rewrite (wi_demand _ _ _ _ Hw) in Hc. unfold held in Hc.
    destruct (pending (Wants.peer_wants (wants a)) c), (pending (Wants.bcst_wants (wants a)) c); try done;
      exfalso; revert Hc; apply not_eq_None_Some; rewrite !wjoin_is_Some; eauto.
  - intros c t Ht. destruct (wi_have _ _ _ _ Hw c) as [H _]. rewrite Ht in H. by destruct t.
  - intros c Hc. apply (ft_entries _ _ _ Hf), (wi_seen _ _ _ _ Hw). rewrite (wi_demand _ _ _ _ Hw).
    unfold held. rewrite !wjoin_is_Some. tauto.
Qed.

Lemma send_message_ok bound seen d v now a :
  winv seen d v (wants a) → fits bound seen a →
  ∃ o a', send_message (Some true) true now a = Done (false, o, a') ∧ config a' = config a ∧
    fits bound seen a' ∧ Wants.priority (wants a') = Wants.priority (wants a) ∧
    Wants.cancels (wants a') ⊆ Wants.cancels (wants a) ∧
    winv seen d (receive_opt v o) (wants a') ∧ (vinv v (wants a) → vinv (receive_opt v o) (wants a')) ∧
    (work (wants a') + (if decide (work (wants a) = 0) then 0 else 1) <= work (wants a))%nat.
Proof.
  intros Hw Hf. unfold send_message, extract_outgoing_message. cbn [with_dh sender config wants].
  replace (match sender a with Some s => Some s | None => Some true end) with (Some true)
    by (by destruct (ft_sender _ _ _ Hf) as [->| ->]).
  destruct (winv_extract bound seen d v a Hw Hf) as (cs & msg & ps & bs & w' & size & -> & He).
  cbn [mret outcome_ret mbind outcome_bind wants with_wants dh_timeout_manager outgoing_work sender config].
  destruct (extracted_winv _ _ _ _ _ _ _ _ _ _ _ _ Hw He) as [Hw' Hv'].
  destruct (extracted_work _ _ _ _ _ _ _ _ _ He) as [Hwork Hprog].
  assert (work w' + (if decide (work (wants a) = 0) then 0 else 1) <= work (wants a))%nat as Hdec
    by (case_decide; lia).
  assert (∀ a', config a' = config a → sender a' = Some true → fits bound seen a') as Hfits.
  { intros a' Hc Hs. destruct Hf. split; rewrite ?Hc; auto. }
  assert (Wants.cancels w' ⊆ Wants.cancels (wants a)) as Hsub by (rewrite (ex_cancels _ _ _ _ _ _ _ _ _ He); set_solver).
  destruct (BitswapMessage.is_empty msg) eqn:Eempty.
  - rewrite (receive_empty v msg) in Hw', Hv' by (done || apply He).
    eexists None, _. split; [done|]. cbn [config wants]. split_and!; [done|by apply Hfits|apply He|done|done|done|done].
  - pose proof (record_same now bs ps w' (Wants.cancels w') eq_refl) as Hsame.
    destruct (same_wants_ok _ _ _ _ _ Hsame Hw') as (Hw2 & Hv2 & Hk2 & Hp2).
    cbn [negb with_wants wants simulate_dont_have_with_timeout with_dh mbind outcome_bind].
    rewrite pending_work_ok.
    2: { rewrite Hk2. pose proof (winv_work _ _ _ _ Hw'). pose proof (ft_seen _ _ _ Hf). lia. }
    cbn [mbind outcome_bind]. eexists (Some msg), _. split; [done|].
    set (b := bool_decide _).
    assert (∀ a0, wants (if b then signal_work a0 else a0) = wants a0 ∧ config (if b then signal_work a0 else a0) = config a0
      ∧ sender (if b then signal_work a0 else a0) = sender a0) as Hb by (by destruct b).
    rewrite !(proj1 (Hb _)), !(proj1 (proj2 (Hb _))). cbn [config wants].
    split_and!; [done|apply Hfits; by rewrite ?(proj1 (proj2 (Hb _))), ?(proj2 (proj2 (Hb _)))| |done|done|auto|].
    + etrans; [exact Hp2|]. apply He.
    + etrans; [|exact Hdec]. apply Nat.add_le_mono_r, Nat.eq_le_incl. exact Hk2.
Qed.

Lemma transfer_ok seen d v a :
  winv seen d v (wants a) →
  let a' := (transfer_rebroadcast_wants a).2 in
  config a' = config a ∧ sender a' = sender a ∧ Wants.priority (wants a') = Wants.priority (wants a) ∧
  Wants.cancels (wants a') = Wants.cancels (wants a) ∧
  winv seen d v (wants a') ∧ (vinv v (wants a) → vinv v (wants a')).
Proof.
  intros Hw. unfold transfer_rebroadcast_wants. destruct (_ && _); [done|]. simpl. split_and!; try done.
  split; simpl.
  - apply rinv_recall, Hw.
  - apply rinv_recall, Hw.
  - intros c. destruct (wi_have _ _ _ _ Hw c) as [H1 H2]. rewrite ty_extend. split; [|done].
    revert H1 H2. by_types.
  - intros c. rewrite (wi_demand _ _ _ _ Hw). unfold held. simpl. rewrite !ty_extend.
    f_equal; rewrite <-(assoc_L wjoin), (idemp_L wjoin); done.
  - apply Hw.
  - apply (wi_told _ _ _ _ Hw).
  - apply Hw.
Qed.

Lemma respond_same now max cids e w :
  same_wants w (foldl (respond_one now max) (e, w) cids).2.
Proof.
  assert (∀ x y z, same_wants x y → same_wants y z → same_wants x z) as Htr.
  { unfold same_wants. intros x y z (A1 & A2 & A3 & A4 & A5 & A6) (B1 & B2 & B3 & B4 & B5 & B6).
    split_and!; congruence. }
  revert e w. induction cids as [|c cids IH]; intros e w; cbn [foldl]; [done|].
  destruct (respond_one now max (e, w) c) as [e1 w1] eqn:E.
  eapply Htr; [|apply IH]. unfold respond_one in E.
  repeat case_match; simplify_eq; done.
Qed.

(** ** Runs

    The events of the loop of the actor.  A send finds the network in some state: what
    opening a stream gives, and whether sending on it works.  The view of the peer
    follows the messages, and the loop ends when a send fails. *)
Record Net := mkNet { opens : option bool; sends : bool }.
Definition working : Net := mkNet (Some true) true.
Inductive event :=
  | Update (u : WantsUpdate)
  | Response (now : Z) (new_timeout : Z → Z) (cids : list Cid)
  | Rebroadcast (n : Net) (now : Z)
  | Ready (n : Net) (now : Z).

Record State := mkState { actor : MessageQueueActor; view : gmap Cid WantType; ended : bool }.
Definition start : State := mkState (new Config_default) ∅ false.
Definition exec (ev : event) (s : State) : outcome State :=
  if ended s then mret s
  else
    match ev with
    | Update u => a ← handle_wants_update u (actor s); mret (mkState a (view s) false)
    | Response now t cids => mret (mkState (handle_response now t cids (actor s)) (view s) false)
    | Rebroadcast n now =>
        r ← rebroadcast_wantlist (opens n) (sends n) now (actor s);
        let '(fatal, msg, a) := r in mret (mkState a (receive_opt (view s) msg) fatal)
    | Ready n now =>
        r ← send_if_ready (opens n) (sends n) now (actor s);
        let '(fatal, msg, a) := r in mret (mkState a (receive_opt (view s) msg) fatal)
    end.

Fixpoint run (evs : list event) (s : State) : outcome State :=
  match evs with [] => mret s | ev :: evs => s ← exec ev s; run evs s end.
Lemma run_ended evs s : ended s = true → run evs s = Done s.
Proof. intros He. induction evs as [|ev evs IH]; [done|]. cbn [run]. unfold exec. by rewrite He. Qed.

(** A network on which streams understand want-haves and nothing fails. *)
Definition reliable (evs : list event) : Prop :=
  Forall (λ ev, match ev with Rebroadcast n _ | Ready n _ => n = working | _ => True end) evs.

Definition updates (evs : list event) : list WantsUpdate :=
  omap (λ ev, match ev with Update u => Some u | _ => None end) evs.

(** No update wants a block again that an earlier one cancelled. *)
Fixpoint no_rewant (gone : gset Cid) (us : list WantsUpdate) : Prop :=
  match us with
  | [] => True
  | u :: us => wanted u ## gone ∧ no_rewant (cancelled u ∪ gone) us
  end.

#[global] Instance no_rewant_dec gone us : Decision (no_rewant gone us).
Proof. revert gone. induction us; intros gone; simpl; apply _. Defined.

(** The state of a run: [spent] wants so far. *)
Record rinvariant (bound : Z) (seen gone : gset Cid) (d v : gmap Cid WantType) (spent : Z)
    (a : MessageQueueActor) : Prop := {
  ri_winv : winv seen d v (wants a);
  ri_fits : fits bound seen a;
  ri_priority : Wants.priority (wants a) = i32_max - spent;
  ri_seen : set_len seen <= spent;
  ri_gone : Wants.cancels (wants a) ⊆ gone;
}.

Lemma rinvariant_send bound seen gone d v spent now a :
  rinvariant bound seen gone d v spent a →
  ∃ o a', send_message (Some true) true now a = Done (false, o, a') ∧
    rinvariant bound seen gone d (receive_opt v o) spent a' ∧
    (vinv v (wants a) → vinv (receive_opt v o) (wants a')) ∧
    (work (wants a') + (if decide (work (wants a) = 0) then 0 else 1) <= work (wants a))%nat.
Proof.
  intros [Hw Hf Hp Hs Hg].
  destruct (send_message_ok bound seen d v now a Hw Hf) as (o & a' & He & _ & Hf' & Hp' & Hc' & Hw' & Hv' & Hk).
  exists o, a'. split_and!; [done| |done|done]. split; [done|done|congruence|done|set_solver].
Qed.

Lemma rinvariant_ready bound seen gone d v spent now a :
  rinvariant bound seen gone d v spent a → spent < 2 ^ 32 →
  ∃ a' v', exec (Ready working now) (mkState a v false) = Done (mkState a' v' false) ∧ rinvariant bound seen gone d v' spent a' ∧
    (vinv v (wants a) → vinv v' (wants a')) ∧
    (work (wants a') <= work (wants a) - 1)%nat.
Proof.
  intros Hr Hsp. unfold exec, send_if_ready. cbn [ended actor view opens sends working].
  pose proof (winv_work _ _ _ _ (ri_winv _ _ _ _ _ _ _ Hr)). pose proof (ri_seen _ _ _ _ _ _ _ Hr).
  rewrite pending_work_ok by (unfold usize_max; lia). cbn [mbind outcome_bind]. case_bool_decide as Hb.
  - destruct (rinvariant_send _ _ _ _ _ _ now _ Hr) as (o & a' & -> & Hr' & Hv' & Hk).
    eexists a', _. split; [done|]. split_and!; [done|done|]. rewrite decide_False in Hk by done. lia.
  - eexists a, v. split; [done|]. split_and!; [done|done|lia].
Qed.

Lemma rinvariant_same bound seen gone d v spent a a' :
  rinvariant bound seen gone d v spent a → config a' = config a → sender a' = sender a →
  Wants.priority (wants a') = Wants.priority (wants a) → Wants.cancels (wants a') = Wants.cancels (wants a) →
  winv seen d v (wants a') → rinvariant bound seen gone d v spent a'.
Proof.
  intros [Hw Hf Hp Hs Hg] Hc Hse Hp' Hca Hw'. split; [done| |congruence|done|by rewrite Hca].
  destruct Hf. split; by rewrite ?Hc, ?Hse.
Qed.

Lemma handle_response_wants now t cids a :
  same_wants (wants a) (wants (handle_response now t cids a)) ∧
  config (handle_response now t cids a) = config a ∧ sender (handle_response now t cids a) = sender a.
Proof.
  unfold handle_response. pose proof (respond_same now (max_valid_latency (config a)) cids None (wants a)) as Hs.
  destruct (foldl _ _ cids) as [[e|] w]; done.
Qed.

(** An event, for identifiers of [ids] that are short enough. *)
Lemma rinvariant_exec bound seen gone d v spent a ev :
  let us := updates [ev] in
  reliable [ev] → rinvariant bound seen gone d v spent a →
  spent + Zsum (cost <$> us) < 2 ^ 32 → (∀ u c, u ∈ us → c ∈ wanted u → entry_bound bound c) →
  ∃ a' v' seen', exec ev (mkState a v false) = Done (mkState a' v' false) ∧
    rinvariant bound seen' (foldl (λ g u, cancelled u ∪ g) gone us) (foldl demand_update d us) v'
      (spent + Zsum (cost <$> us)) a' ∧
    ((∀ u, u ∈ us → wanted u ## gone) → vinv v (wants a) → vinv v' (wants a')).
Proof.
  intros us [Hnet _]%Forall_cons Hr Hsp Hb. pose proof Hr as [Hw Hf Hp Hs Hg].
  destruct ev as [u|now t cids|n now|n now]; simpl in us, Hsp; cbn [foldl fmap list_fmap Zsum foldr us];
    rewrite ?Z.add_0_r in *.
  - pose proof (cost_wanted u) as Hcu.
    unfold exec. cbn [ended actor view]. destruct (update_ok u seen d v a Hw) as (a' & -> & Hc & Hse & Hp' & Hw' & Hv' & Hca).
    { unfold i32_min, i32_max, set_len in *. lia. }
    eexists a', v, _. split; [done|]. split; [split; [exact Hw'| |lia| |set_solver]|].
    + assert (set_len (wanted u ∪ seen) <= set_len (wanted u) + set_len seen).
      { unfold set_len. rewrite size_union_alt.
        assert (base.size (seen ∖ wanted u) <= base.size seen)%nat by (apply subseteq_size; set_solver). lia. }
      destruct Hf. split; rewrite ?Hc, ?Hse; try done.
      * intros c [Hin|Hin]%elem_of_union; [|by auto]. apply (Hb u); [by left|done].
      * unfold usize_max. lia.
    + unfold set_len in *. rewrite size_union_alt.
      assert (base.size (seen ∖ wanted u) <= base.size seen)%nat by (apply subseteq_size; set_solver). lia.
    + intros Hd Hv. apply Hv'; [|done]. specialize (Hd u ltac:(by left)). set_solver.
  - destruct (handle_response_wants now t cids a) as (Hsame & Hc & Hse).
    destruct (same_wants_ok _ _ _ _ _ Hsame Hw) as (Hw' & Hv' & _ & Hp').
    eexists _, v, seen. split; [done|]. split; [|auto].
    apply (rinvariant_same _ _ _ _ _ _ a); try done. apply Hsame.
  - subst n. unfold exec, rebroadcast_wantlist. cbn [ended actor view opens sends working]. destruct (transfer_ok _ _ _ _ Hw) as (T1 & T2 & T3 & T4 & T5 & T6).
    destruct (transfer_rebroadcast_wants a) as [again a1]. simpl in *.
    assert (rinvariant bound seen gone d v spent a1) as Hr1 by (by apply (rinvariant_same _ _ _ _ _ _ a)).
    destruct again.
    + destruct (rinvariant_send _ _ _ _ _ _ now _ Hr1) as (o & a' & -> & Hr' & Hv' & _).
      eexists a', _, seen. split; [done|]. split; [done|]. auto.
    + eexists a1, v, seen. split; [done|]. split; [done|auto].
  - subst n. destruct (rinvariant_ready _ _ _ _ _ _ now _ Hr) as (a' & v' & -> & Hr' & Hv' & _); [done|].
    eexists a', v', seen. split; [done|]. split; [done|auto].
Qed.

Lemma updates_cons ev evs : updates (ev :: evs) = updates [ev] ++ updates evs.
Proof. unfold updates. simpl. by destruct ev. Qed.

Lemma run_ok bound evs : ∀ seen gone d v spent a,
  reliable evs → rinvariant bound seen gone d v spent a →
  spent + Zsum (cost <$> updates evs) < 2 ^ 32 →
  (∀ u c, u ∈ updates evs → c ∈ wanted u → entry_bound bound c) →
  ∃ a' v' seen' gone', run evs (mkState a v false) = Done (mkState a' v' false) ∧
    rinvariant bound seen' gone' (foldl demand_update d (updates evs)) v'
      (spent + Zsum (cost <$> updates evs)) a' ∧
    (no_rewant gone (updates evs) → vinv v (wants a) → vinv v' (wants a')).
Proof.
  induction evs as [|ev evs IH]; intros seen gone d v spent a Hnet Hr Hsp Hb.
  { exists a, v, seen, gone. simpl. rewrite Z.add_0_r. split_and!; done. }
  apply Forall_cons in Hnet as [Hn1 Hn2]. rewrite updates_cons, fmap_app, Zsum_app in *.
  assert (0 <= Zsum (cost <$> updates evs)).
  { apply Zsum_nonneg, Forall_fmap, Forall_forall. intros u _. simpl. pose proof (cost_wanted u). lia. }
  destruct (rinvariant_exec bound seen gone d v spent a ev) as (a1 & v1 & seen1 & E1 & R1 & V1).
  { by constructor. } { done. } { lia. } { intros u c Hu. apply Hb, elem_of_app. by left. }
  destruct (IH _ _ _ _ _ _ Hn2 R1) as (a2 & v2 & seen2 & gone2 & E2 & R2 & V2).
  { lia. } { intros u c Hu. apply Hb, elem_of_app. by right. }
  exists a2, v2, seen2, gone2. cbn [run]. rewrite E1. cbn [mbind outcome_bind]. rewrite foldl_app, Z.add_assoc.
  split_and!; [done|done|]. intros Hn Hv. destruct ev as [u|? ? ?|? ?|? ?]; simpl in *.
  - destruct Hn as [Hn' Hn'']. apply V2; [done|]. apply V1; [|done]. by intros u' ->%list_elem_of_singleton.
  - apply V2; [done|]. apply V1; [|done]. by intros u' ?%elem_of_nil.
  - apply V2; [done|]. apply V1; [|done]. by intros u' ?%elem_of_nil.
  - apply V2; [done|]. apply V1; [|done]. by intros u' ?%elem_of_nil.
Qed.

Lemma drain_ok bound seen gone d spent now n : ∀ v a,
  rinvariant bound seen gone d v spent a → spent < 2 ^ 32 → (work (wants a) <= n)%nat →
  ∃ a' v', run (replicate n (Ready working now)) (mkState a v false) = Done (mkState a' v' false) ∧
    rinvariant bound seen gone d v' spent a' ∧ (vinv v (wants a) → vinv v' (wants a')) ∧ work (wants a') = 0%nat.
Proof.
  induction n as [|n IH]; intros v a Hr Hsp Hn; cbn [replicate run].
  { exists a, v. split_and!; try done. lia. }
  destruct (rinvariant_ready _ _ _ _ _ _ now _ Hr Hsp) as (a1 & v1 & -> & R1 & V1 & K1). cbn [mbind outcome_bind].
  destruct (IH v1 a1 R1 Hsp) as (a2 & v2 & E2 & R2 & V2 & K2); [lia|].
  exists a2, v2. split_and!; auto.
Qed.

(** A message is empty only when there is nothing to say. *)
Lemma extracted_empty max bound w cs (msg : Message) ps bs w' size :
  extracted max bound w cs msg ps bs w' size → BitswapMessage.is_empty msg = true → work w = 0%nat.
Proof.
  intros He Hm. destruct (decide (work w = 0%nat)) as [|Hw]; [done|exfalso].
  destruct (extracted_work _ _ _ _ _ _ _ _ _ He) as [_ Hpos]. specialize (Hpos Hw).
  unfold BitswapMessage.is_empty in Hm. apply andb_true_iff in Hm as [[_ Hm%bool_decide_eq_true]%andb_true_iff _].
  destruct cs as [|c cs].
  - assert (∀ c, wjoin (tys ps !! c) (tys bs !! c) = None) as Hn.
    { intros c. rewrite <-(ex_mtype _ _ _ _ _ _ _ _ _ He c ltac:(apply not_elem_of_nil)). unfold mtype. by rewrite Hm, lookup_empty. }
    assert (∀ es c, tys es !! c = None → c ∉ Wantlist.cid <$> es) as Ht by (intros es c; apply tys_None).
    destruct ps as [|e ps]; [destruct bs as [|e bs]; [simpl in Hpos; lia|]|]; specialize (Hn (Wantlist.cid e)).
    + destruct (tys (e :: bs) !! Wantlist.cid e) eqn:E; [by destruct (tys [] !! Wantlist.cid e) as [[]|], w0|]. apply Ht in E. set_solver.
    + destruct (tys (e :: ps) !! Wantlist.cid e) eqn:E; [by destruct (tys bs !! Wantlist.cid e) as [[]|], w0|]. apply Ht in E. set_solver.
  - pose proof (ex_mcancel _ _ _ _ _ _ _ _ _ He c) as Hc. rewrite bool_decide_eq_true_2 in Hc by set_solver. unfold mcancel in Hc.
    by rewrite Hm, lookup_empty in Hc.
Qed.
(** A send that fails: the peer is told nothing and the loop ends. *)
Lemma failed_send bound seen gone d v spent now a n :
  rinvariant bound seen gone d v spent a → spent < 2 ^ 32 → work (wants a) ≠ 0%nat → opens n = Some true → sends n = false →
  ∃ a', exec (Ready n now) (mkState a v false) = Done (mkState a' v true).
Proof.
  intros [Hw Hf _ Hs _] Hsp Hk Ho Hn. unfold exec, send_if_ready. cbn [ended actor view]. rewrite Ho, Hn. pose proof (winv_work _ _ _ _ Hw).
  rewrite pending_work_ok by (unfold usize_max; lia). cbn [mbind outcome_bind]. rewrite bool_decide_eq_true_2 by done.
  unfold send_message, extract_outgoing_message. cbn [with_dh sender config wants].
  replace (match sender a with Some s => Some s | None => Some true end) with (Some true)
    by (by destruct (ft_sender _ _ _ Hf) as [->| ->]).
  destruct (winv_extract bound seen d v a Hw Hf) as (cs & msg & ps & bs & w' & size & -> & He).
  cbn [mret outcome_ret mbind outcome_bind]. destruct (BitswapMessage.is_empty msg) eqn:E; [by apply (extracted_empty _ _ _ _ _ _ _ _ _ He) in E|].
  by eexists.
Qed.

Lemma quiet_sent seen d v w c : winv seen d v w → work w = 0%nat → d !! c = was_sent w c ∧ c ∉ Wants.cancels w.
Proof.
  intros Hw Hk. unfold work, npending in Hk.
  assert (∀ r, base.size (Wantlist.set (RecallWantlist.pending r)) = 0%nat → pending r c = None) as Hn.
  { intros r Hr. unfold ty. apply map_size_empty_iff in Hr. by rewrite Hr, lookup_empty. }
  split.
  - rewrite (wi_demand _ _ _ _ Hw). unfold held, was_sent. rewrite !Hn by lia. by rewrite !(left_id_L None wjoin).
  - assert (Wants.cancels w = ∅) as -> by (apply leibniz_equiv, size_empty_inv; lia). set_solver.
Qed.

Lemma wjoin_le (o : option WantType) t x : wjoin (Some t) o = o → o = Some x → want_le t x.
Proof. intros H ->. unfold want_le. destruct t, x; simpl in H; auto; congruence. Qed.

(** Entries of short identifiers are small. *)
Lemma short_entry_bound c : vec_len (cid_to_bytes c) < pb_limit → entry_bound (pb_limit + 64) c.
Proof.
  intros Hc p t cn b. unfold BitswapMessage.entry_encoded_len, BitswapPb.Entry_get_size. simpl.
  assert (∀ v, 0 <= v < 2 ^ 64 → 0 <= sizeof_varint v <= 10) as Hv.
  { intros v Hr. pose proof (sizeof_varint_bound v Hr). lia. }
  assert (0 <= vec_len (cid_to_bytes c)) as H0 by (unfold vec_len; lia).
  unfold pb_limit in *.
  assert (0 <= vec_len (cid_to_bytes c) < 2 ^ 64) as Hr by lia.
  pose proof (sizeof_len_eq _ Hr) as Hl.
  pose proof (Hv _ Hr).
  pose proof (Hv (p mod 2 ^ 64) ltac:(apply Z.mod_pos_bound; lia)).
  pose proof (Hv (Z.b2z cn) ltac:(destruct cn; simpl; lia)).
  pose proof (Hv (Z.b2z b) ltac:(destruct b; simpl; lia)).
  pose proof (Hv (BitswapPb.WantType_into t) ltac:(destruct t; simpl; lia)).
  unfold Pb.size_unless. repeat case_bool_decide; lia.
Qed.
End run.
End QueueRun.

Module QueueClaims.
Import QueueHandle MessageQueue MessageQueueProofs QueueRun.
Section claims.
  Context {ids : Ids} {cc : CidCodec} {cp : CidParts} {qp : QuickProtobuf} {ho : HashOrder}.
  Notation Message := BitswapMessage.BitswapMessage.

(** What a run must satisfy: streams understand want-haves and nothing fails, there are
    fewer than 2^32 wants, and every entry has at most [bound] bytes. *)
Definition admissible (bound : Z) (evs : list event) : Prop :=
  reliable evs ∧ Zsum (cost <$> updates evs) < 2 ^ 32 ∧ 0 <= bound <= 2 ^ 32 ∧
  ∀ u c, u ∈ updates evs → c ∈ wanted u → entry_bound bound c.

Lemma run_from_new bound evs :
  admissible bound evs →
  ∃ a v seen gone, run evs start = Done (mkState a v false) ∧
    rinvariant bound seen gone (demand (updates evs)) v (Zsum (cost <$> updates evs)) a ∧
    (no_rewant ∅ (updates evs) → vinv v (wants a)).
Proof.
  intros (Hnet & Hc & Hb & He). destruct (winv_new Config_default) as [Hw Hv].
  assert (rinvariant bound ∅ ∅ ∅ ∅ 0 (new Config_default)) as Hr.
  { split; [done| |done|done|done].
    split; try (by left); try set_solver; try done; unfold usize_max; simpl; lia. }
  destruct (run_ok bound evs _ _ _ _ _ _ Hnet Hr) as (a & v & seen & gone & E & R & V); [done|done|].
  exists a, v, seen, gone. split_and!; [done|done|auto].
Qed.

(** C19: for a peer whose stream understands want-haves, and as long as sends succeed:
    whatever updates, responses, rebroadcasts and sends the queue goes through, no
    step panics, and as many further sends as there is work leave nothing to send; the
    messages that went out until then amount, for the peer that received them, to at
    least every want that the updates ask for, as a want-block where they ask for a
    want-block; and to no other want, unless a block is wanted again after it was
    cancelled.  A send that fails tells the peer nothing and ends the queue. *)
Theorem queue_tells_peer (bound now : Z) (evs : list event) :
  admissible bound evs →
  ∃ a v a' v', run evs start = Done (mkState a v false) ∧
    run (replicate (work (wants a)) (Ready working now)) (mkState a v false) = Done (mkState a' v' false) ∧
    Wants.has_pending_work (wants a') = Done false ∧
    (∀ c t, demand (updates evs) !! c = Some t → ∃ t', v' !! c = Some t' ∧ want_le t t') ∧
    (no_rewant ∅ (updates evs) → ∀ c, is_Some (v' !! c) → is_Some (demand (updates evs) !! c)) ∧
    (∀ n, work (wants a) ≠ 0%nat → opens n = Some true → sends n = false →
      ∃ a'', ∀ more, run (Ready n now :: more) (mkState a v false) = Done (mkState a'' v true)).
Proof.
  intros Ha. destruct (run_from_new bound evs Ha) as (a & v & seen & gone & E & R & V).
  destruct (drain_ok bound seen gone _ _ now (work (wants a)) v a R) as (a' & v' & E' & R' & V' & K);
    [apply Ha|done|].
  pose proof (ri_winv _ _ _ _ _ _ _ R') as Hw.
  exists a, v, a', v'. split_and!; [done|done| | | |].
  - rewrite pending_work_ok by (rewrite K; unfold usize_max; lia). by rewrite K.
  - intros c t Hd. destruct (quiet_sent _ _ _ _ c Hw K) as [Hq _]. rewrite Hd in Hq.
    pose proof (wi_told _ _ _ _ Hw c) as Ht. rewrite <-Hq in Ht.
    destruct (v' !! c) as [t'|] eqn:Ev; [|by destruct t]. exists t'. split; [done|]. by eapply wjoin_le.
  - intros Hn c Hc. destruct (quiet_sent _ _ _ _ c Hw K) as [-> Hq]. destruct (V' (V Hn) c Hc); done.
  - intros n Hk Ho Hs. destruct (failed_send _ _ _ _ _ _ now _ n R) as (a'' & He); [apply Ha|done..|]. exists a''. intros more.
    cbn [run]. rewrite He. cbn [mbind outcome_bind]. by apply run_ended.
Qed.

(** The message that a queue builds next holds at least one item of the work
    that waits, is at most one entry larger than the limit and 11 bytes for
    every broadcast want in it, and leaves work behind only if the entries reach
    the limit. *)
Theorem outgoing_message_bounded (bound : Z) (evs : list event) a v :
  admissible bound evs → run evs start = Done (mkState a v false) →
  ∃ msg ps bs w' size,
    extract true (max_message_size (config a)) (wants a) = Done (msg, ps, bs, w', size) ∧
    BitswapMessage.encoded_len msg < max_message_size (config a) + bound + 11 * vec_len bs ∧
    (size < max_message_size (config a) → work w' = 0%nat) ∧
    (work (wants a) ≠ 0%nat → work w' < work (wants a))%nat ∧
    (∀ c, is_Some (BitswapMessage.wantlist msg !! c) →
       c ∈ Wants.cancels (wants a) ∨ is_Some (held (wants a) c)).
Proof.
  intros Ha Hrun. destruct (run_from_new bound evs Ha) as (a0 & v0 & seen & gone & E & R & _).
  rewrite Hrun in E. injection E as <- <-. destruct R as [Hw Hf _ _ _].
  destruct (winv_extract bound seen _ v a Hw Hf) as (cs & msg & ps & bs & w' & size & -> & He).
  exists msg, ps, bs, w', size. split; [done|].
  destruct (extracted_work _ _ _ _ _ _ _ _ _ He) as [Hk Hp].
  pose proof (ex_size _ _ _ _ _ _ _ _ _ He). pose proof (ex_len _ _ _ _ _ _ _ _ _ He).
  split_and!.
  - rewrite encoded_len_entries by apply He. lia.
  - intros Hs. destruct (ex_all _ _ _ _ _ _ _ _ _ He Hs) as (H1 & H2 & H3). unfold work, npending in *. lia.
  - lia.
  - intros c Hc. destruct (decide (c ∈ cs)) as [Hin|Hin]; [left; by apply He|]. right.
    assert (is_Some (mtype msg c)) as Hm by (unfold mtype; by apply fmap_is_Some).
    rewrite (ex_mtype _ _ _ _ _ _ _ _ _ He c Hin), wjoin_is_Some in Hm.
    unfold held. rewrite !wjoin_is_Some. destruct Hm as [[t Ht]|[t Ht]].
    + rewrite (mv_sub _ _ _ (ex_peer _ _ _ _ _ _ _ _ _ He) _ _ Ht). eauto.
    + rewrite (mv_sub _ _ _ (ex_bcst _ _ _ _ _ _ _ _ _ He) _ _ Ht). eauto.
Qed.
End claims.
End QueueClaims.

Module QueueWitness.
Import QueueHandle MessageQueue MessageQueueProofs QueueRun QueueClaims.

#[local] Existing Instance bytes_ids.
#[local] Existing Instance bytes_cids.
#[local] Existing Instance WireFormat.wire_format.
#[local] Existing Instance key_order.
#[local] Existing Instance BitswapMessageWitness.toy_parts.

Definition c1 : Cid := [Byte.x01].
Definition c2 : Cid := [Byte.x02].
Definition c3 : Cid := [Byte.x03].
Definition demo : list event :=
  [Update (BroadcastWantHaves {[c1]}); Update (SendWants [c2] [c1; c3]); Ready working 1;
   Update (Cancels {[c2]}); Response 2 (λ t, t) [c3]; Rebroadcast working 3; Update (SendWants [c3] [])].

Lemma demo_admissible : admissible (pb_limit + 64) demo.
Proof.
  split_and!; [by repeat constructor|by vm_compute|by vm_compute|by vm_compute|].
  intros u c Hu Hc. apply short_entry_bound.
  assert (c ∈ [c1; c2; c3]) as Hin.
  { cbn in Hu. repeat (apply elem_of_cons in Hu as [->|Hu]; [cbn in Hc; clear -Hc; set_solver|]).
    by apply elem_of_nil in Hu. }
  repeat (apply elem_of_cons in Hin as [->|Hin]; [by vm_compute|]). by apply elem_of_nil in Hin.
Qed.

Definition after : State := run_or start (run demo start).

Lemma queue_tells_peer_witness :
  ∃ a v a' v', run demo start = Done (mkState a v false) ∧
    run (replicate (work (wants a)) (Ready working 9)) (mkState a v false) = Done (mkState a' v' false) ∧
    (v' !! c1, v' !! c2, v' !! c3) = (Some Have, None, Some Block) ∧
    (∀ c, is_Some (v' !! c) → is_Some (demand (updates demo) !! c)).
Proof.
  destruct (queue_tells_peer (pb_limit + 64) 9 demo demo_admissible) as (a & v & a' & v' & H1 & H2 & _ & _ & H4 & _).
  exists a, v, a', v'. split_and!; [done|done| |].
  - assert (∀ x, x = mkState a v false → v' = view (run_or x (run (replicate (work (wants (actor x))) (Ready working 9)) x))) as Hv
      by (intros x ->; cbn [actor]; by rewrite H2).
    rewrite (Hv after); [by vm_compute|]. unfold after. by rewrite H1.
  - apply H4. apply (bool_decide_unpack _). by vm_compute.
Defined.

Lemma outgoing_message_bounded_witness :
  ∃ msg ps bs w' size,
    extract true (max_message_size (config (actor after))) (wants (actor after)) = Done (msg, ps, bs, w', size) ∧
    size = 11 ∧ work w' = 0%nat.
Proof.
  assert (run demo start = Done (mkState (actor after) (view after) false)) as E.
  { rewrite (run_or_Done start (run demo start)) by (by vm_compute). fold after. destruct after as [a v e] eqn:Ea. simpl. repeat f_equal.
    change (ended (mkState a v e) = false). rewrite <-Ea. by vm_compute. }
  destruct (outgoing_message_bounded (pb_limit + 64) demo (actor after) (view after) demo_admissible E)
    as (msg & ps & bs & w' & size & H1 & _ & H3 & _).
  exists msg, ps, bs, w', size.
  assert (size = 11) as Hs.
  { assert ((λ r, r.2) <$> extract true (max_message_size (config (actor after))) (wants (actor after)) = Done size) as Hz
      by (by rewrite H1). vm_compute in Hz. congruence. }
  split_and!; [done|done|]. apply H3. rewrite Hs. by vm_compute.
Defined.

(** A block that is wanted, cancelled, wanted and cancelled again before the queue
    sends stays wanted for the peer: the second want clears the cancel that waits,
    and the second cancel finds nothing that was sent. *)
Definition twice : list event :=
  [Update (SendWants [c1] []); Ready working 1; Update (Cancels {[c1]}); Update (SendWants [] [c1]);
   Update (Cancels {[c1]}); Ready working 2].
Definition lost : State := run_or start (run twice start).

Example cancel_lost :
  is_done (run twice start) = true ∧ work (wants (actor lost)) = 0%nat ∧
  held (wants (actor lost)) c1 = None ∧ view lost !! c1 = Some Block.
Proof. by vm_compute. Qed.
End QueueWitness.
