(* ===== verification/Interest.v ===== *)
(** * What sessions are interested in and what peers have

    packages/beetle-bitswap-next/src/client/session_interest_manager.rs,
    client/block_presence_manager.rs, client/session/sent_want_blocks_tracker.rs
    and client/session/peer_response_tracker.rs: the tables that the sessions of
    the client share. *)
From stdpp Require Import base gmap list.
From S2P Require Import Prelude.

Module SessionInterestManager.
Section manager.
  Context {ids : Ids} {ho : HashOrder}.

(** Blocks, the sessions (by their [u64]) that are interested in each, and
    whether a session still wants it. *)
Notation SessionInterestManager := (gmap Cid (gmap Z bool)).

Definition record_session_interest (session : Z) (keys : list Cid) (m : SessionInterestManager) :
    SessionInterestManager :=
  foldl (λ m key, entry_or ∅ (<[session := true]>) key m) m keys.

(** [remove_session]: the keys are visited in hash order. *)
Definition remove_session (session : Z) (m : SessionInterestManager) :
    list Cid * SessionInterestManager :=
  let m := delete session <$> m in
  let deleted_keys := fst <$> filter (λ kw, kw.2 = ∅) (iter_map m) in
  (deleted_keys, foldl (λ m key, delete key m) m deleted_keys).

Definition remove_session_wants (session : Z) (keys : list Cid) (m : SessionInterestManager) :
    SessionInterestManager :=
  foldl (λ m key, alter (alter (λ _, false) session) key m) m keys.

(** One key of the first loop of [remove_session_interested]. *)
Definition remove_interest (session : Z) (st : SessionInterestManager * list Cid) (key : Cid) :
    SessionInterestManager * list Cid :=
  let '(m, deleted_keys) := st in
  match m !! key with
  | Some wants =>
      let wants := delete session wants in
      (<[key := wants]> m, if bool_decide (wants = ∅) then deleted_keys ++ [key] else deleted_keys)
  | None => (m, deleted_keys)
  end.

Definition remove_session_interested (session : Z) (keys : list Cid) (m : SessionInterestManager) :
    list Cid * SessionInterestManager :=
  let '(m, deleted_keys) := foldl (remove_interest session) (m, []) keys in
  (deleted_keys, foldl (λ m key, delete key m) m deleted_keys).

Definition wanted_by (session : Z) (m : SessionInterestManager) (key : Cid) : bool :=
  match m !! key with Some wants => default false (wants !! session) | None => false end.

Definition filter_session_interested (session : Z) (key_sets : list (list Cid))
    (m : SessionInterestManager) : list (list Cid) :=
  (λ key_set, filter (λ key, wanted_by session m key = true) key_set) <$> key_sets.

(** [block] is the type of blocks and [cid] gives their identifiers. *)
Definition split_wanted_unwanted {block} (cid : block → Cid) (blocks : list block)
    (m : SessionInterestManager) : list block * list block :=
  let wanted_keys : gset Cid := list_to_set (
    blocks ≫= λ b, match m !! cid b with
                   | Some wants => replicate (length (filter (λ w, w = true) (iter_values wants))) (cid b)
                   | None => []
                   end) in
  (filter (λ b, cid b ∈ wanted_keys) blocks, filter (λ b, cid b ∉ wanted_keys) blocks).

Definition interested_sessions (blocks haves dont_haves : list Cid) (m : SessionInterestManager) : gset Z :=
  list_to_set ((blocks ++ haves ++ dont_haves) ≫= λ key,
    match m !! key with Some wants => (iter_map wants).*1 | None => [] end).

(** ** What the table means

    The status of a block for a session: [None] is no interest, [Some true] a
    want, [Some false] interest in news about the block only. *)
Definition status (m : SessionInterestManager) (session : Z) (key : Cid) : option bool :=
  wants ← m !! key; wants !! session.
Definition interested (m : SessionInterestManager) (key : Cid) : Prop := ∃ s, is_Some (status m s key).

(** No block is kept without a session. *)
Definition inv (m : SessionInterestManager) : Prop := ∀ key, m !! key ≠ Some ∅.

Lemma interested_lookup m key : inv m → is_Some (m !! key) ↔ interested m key.
Proof.
  intros Hi. unfold interested, status. split.
  - intros [wants Hw]. rewrite Hw. simpl. destruct (decide (wants = ∅)) as [->|Hne]; [by destruct (Hi key)|].
    apply map_choose in Hne as (s & b & Hb). exists s. by rewrite Hb.
  - intros [s [b Hb]]. destruct (m !! key); [by eexists|done].
Qed.

Lemma record_status session keys m s key :
  status (record_session_interest session keys m) s key =
    if decide (s = session ∧ key ∈ keys) then Some true else status m s key.
Proof.
  revert m. induction keys as [|k keys IH]; intros m; cbn [record_session_interest foldl].
  { rewrite decide_False; [done|]. intros [_ H]. by apply elem_of_nil in H. }
  fold (record_session_interest session keys (entry_or ∅ (<[session := true]>) k m)). rewrite IH.
  assert (status (entry_or ∅ (<[session := true]>) k m) s key =
    if decide (s = session ∧ key = k) then Some true else status m s key) as ->.
  { unfold status. destruct (decide (key = k)) as [->|Hk].
    - rewrite lookup_entry_or. simpl. destruct (decide (s = session)) as [->|Hs].
      + rewrite lookup_insert_eq. by rewrite decide_True.
      + rewrite lookup_insert_ne, decide_False by naive_solver. by destruct (m !! k).
    - rewrite lookup_entry_or_ne by done. by rewrite decide_False by naive_solver. }
  repeat case_decide; try done; exfalso; set_solver.
Qed.

Lemma record_inv session keys m : inv m → inv (record_session_interest session keys m).
Proof.
  revert m. induction keys as [|k keys IH]; intros m Hm; [done|]. apply IH. intros key.
  destruct (decide (key = k)) as [->|Hk].
  - rewrite lookup_entry_or. intros [= H]. by apply insert_non_empty in H.
  - by rewrite lookup_entry_or_ne.
Qed.

(** Both ways to withdraw interest, in one statement: of the keys in [P] the
    session is forgotten, and the keys that nobody is interested in any more are
    the ones returned. *)
Record withdrawn (session : Z) (P : Cid → bool) (m : SessionInterestManager) (deleted : list Cid)
    (m' : SessionInterestManager) : Prop := {
  wd_inv : inv m';
  wd_status s key : status m' s key = if bool_decide (s = session) && P key then None else status m s key;
  wd_deleted key : key ∈ deleted ↔ P key = true ∧ interested m key ∧ ¬ interested m' key;
}.

(** From a table in which the session was taken out of the keys of [P]. *)
Lemma withdrawn_cleanup session P m m1 deleted :
  inv m →
  (∀ key, m1 !! key = (λ w, if P key : bool then delete session w else w) <$> m !! key) →
  (∀ key, key ∈ deleted ↔ P key = true ∧ m1 !! key = Some ∅) →
  withdrawn session P m deleted (foldl (λ m key, delete key m) m1 deleted).
Proof.
  intros Hi H1 Hd. set (m' := foldl _ _ _).
  assert (∀ key, m' !! key = if decide (key ∈ deleted) then None else m1 !! key) as Hm'
    by (intros key; apply delete_keys_lookup).
  assert (∀ s key, status m' s key = if bool_decide (s = session) && P key then None else status m s key) as Hs.
  { intros s key. unfold status. rewrite Hm'. case_decide as Hk.
    - apply Hd in Hk as [HP Hk]. rewrite HP, andb_true_r. rewrite H1, HP in Hk.
      apply fmap_Some_1 in Hk as (w & -> & Hw). simpl. case_bool_decide as Hsn; [done|].
      rewrite <-(lookup_delete_ne w session s) by done. by rewrite <-Hw, lookup_empty.
    - rewrite H1. destruct (m !! key) as [w|]; simpl; [|by destruct (_ && _)].
      destruct (P key); [|by rewrite andb_false_r]. rewrite andb_true_r. case_bool_decide as Hsn.
      + subst. apply lookup_delete_eq.
      + by apply lookup_delete_ne. }
  assert (inv m') as Hi'.
  { intros key. rewrite Hm'. case_decide as Hk; [done|]. intros He. destruct (P key) eqn:HP.
    - apply Hk, Hd. done.
    - rewrite H1, HP in He. destruct (m !! key) as [w|] eqn:Ew; [|done]. simpl in He. by apply (Hi key); rewrite Ew. }
  split; [done|done|]. intros key. rewrite <-!interested_lookup by done. rewrite Hd, Hm'. split.
  - intros [HP Hk]. split_and!; [done| |].
    + rewrite H1 in Hk. apply fmap_Some_1 in Hk as (w & -> & _). by eexists.
    + rewrite decide_True by (by apply Hd). by intros [].
  - intros (HP & [w Hw] & Hn). split; [done|]. destruct (decide (key ∈ deleted)) as [Hk|Hk].
    { by apply Hd in Hk as [_ ?]. }
    destruct Hn. rewrite H1, Hw. by eexists.
Qed.

Lemma remove_session_ok session m :
  inv m → withdrawn session (λ _, true) m (remove_session session m).1 (remove_session session m).2.
Proof.
  intros Hi. apply withdrawn_cleanup; [done| |].
  - intros key. by rewrite lookup_fmap.
  - intros key. rewrite list_elem_of_fmap. split.
    + intros ([k w] & -> & [Hw Hin]%list_elem_of_filter). apply elem_of_iter_map in Hin. simpl in *. by subst.
    + intros [_ Hk]. exists (key, ∅). split; [done|]. apply list_elem_of_filter. by rewrite elem_of_iter_map.
Qed.

Lemma remove_interest_all session keys : ∀ (m0 m : SessionInterestManager) (deleted seen : list Cid),
  (∀ key, m !! key = (λ w, if bool_decide (key ∈ seen) then delete session w else w) <$> m0 !! key) →
  (∀ key, key ∈ deleted ↔ bool_decide (key ∈ seen) = true ∧ m !! key = Some ∅) →
  let '(m', deleted') := foldl (remove_interest session) (m, deleted) keys in
  (∀ key, m' !! key = (λ w, if bool_decide (key ∈ seen ++ keys) then delete session w else w) <$> m0 !! key) ∧
  (∀ key, key ∈ deleted' ↔ bool_decide (key ∈ seen ++ keys) = true ∧ m' !! key = Some ∅).
Proof.
  induction keys as [|k keys IH]; intros m0 m deleted seen Hm Hd; cbn [foldl].
  { by rewrite app_nil_r. }
  unfold remove_interest at 2.
  assert (∀ key, bool_decide (key ∈ seen ++ [k]) = bool_decide (key = k) || bool_decide (key ∈ seen)) as Hin.
  { intros key. rewrite <-bool_decide_or. apply bool_decide_ext. set_solver. }
  replace (seen ++ k :: keys) with ((seen ++ [k]) ++ keys) by (by rewrite <-(assoc_L (++))).
  assert (∀ m1 : SessionInterestManager, (∀ key, m1 !! key = if decide (key = k) then delete session <$> m !! k else m !! key) →
    ∀ key, m1 !! key = (λ w, if bool_decide (key ∈ seen ++ [k]) then delete session w else w) <$> m0 !! key) as Hm1.
  { intros m1 H1 key. rewrite H1, Hin. destruct (decide (key = k)) as [->|Hne].
    - rewrite Hm, (bool_decide_eq_true_2 (k = k)) by done. simpl. destruct (m0 !! k) as [w|]; [|done]. simpl. f_equal.
      case_bool_decide; [|done]. by rewrite delete_delete_eq.
    - rewrite (bool_decide_eq_false_2 (key = k)) by done. apply Hm. }
  destruct (m !! k) as [w|] eqn:Ek.
  - apply IH.
    + apply Hm1. intros key. case_decide; [subst; by rewrite lookup_insert_eq|by rewrite lookup_insert_ne].
    + intros key. rewrite Hin. destruct (decide (key = k)) as [->|Hne].
      * rewrite lookup_insert_eq, (bool_decide_eq_true_2 (k = k)) by done. simpl.
        case_bool_decide as He.
        { rewrite He, elem_of_app, list_elem_of_singleton. split; [done|by right]. }
        split; [|by intros [_ [= ?]]]. intros [Hs Hk]%Hd. exfalso. apply He. rewrite Ek in Hk. injection Hk as ->.
        apply delete_empty.
      * rewrite lookup_insert_ne, (bool_decide_eq_false_2 (key = k)) by done. simpl. rewrite <-Hd.
        case_bool_decide; [|done]. set_solver.
  - apply IH.
    + apply Hm1. intros key. case_decide; [subst; by rewrite Ek|done].
    + intros key. rewrite Hd, Hin. destruct (decide (key = k)) as [->|Hne]; [rewrite Ek; naive_solver|].
      by rewrite (bool_decide_eq_false_2 (key = k)) by done.
Qed.

Lemma remove_session_interested_ok session keys m :
  inv m → withdrawn session (λ key, bool_decide (key ∈ keys)) m
    (remove_session_interested session keys m).1 (remove_session_interested session keys m).2.
Proof.
  intros Hi. unfold remove_session_interested.
  pose proof (remove_interest_all session keys m m [] []) as H.
  destruct (foldl (remove_interest session) (m, []) keys) as [m1 deleted]. destruct H as [H1 H2].
  - intros key. rewrite bool_decide_eq_false_2 by apply not_elem_of_nil. by destruct (m !! key).
  - intros key. rewrite bool_decide_eq_false_2 by apply not_elem_of_nil. set_solver.
  - by apply withdrawn_cleanup.
Qed.

Lemma remove_wants_status session keys m s key :
  status (remove_session_wants session keys m) s key =
    if decide (s = session ∧ key ∈ keys) then (λ _, false) <$> status m s key else status m s key.
Proof.
  revert m. induction keys as [|k keys IH]; intros m; cbn [remove_session_wants foldl].
  { rewrite decide_False; [done|]. intros [_ H]. by apply elem_of_nil in H. }
  fold (remove_session_wants session keys (alter (alter (λ _, false) session) k m)). rewrite IH.
  assert (status (alter (alter (λ _, false) session) k m) s key =
    if decide (s = session ∧ key = k) then (λ _, false) <$> status m s key else status m s key) as ->.
  { clear IH. unfold status. destruct (decide (key = k)) as [->|Hk].
    - rewrite lookup_alter_eq. destruct (m !! k) as [w|]; simpl; [|by case_match].
      destruct (decide (s = session)) as [->|Hs].
      + rewrite lookup_alter_eq. by rewrite decide_True.
      + rewrite lookup_alter_ne, decide_False by naive_solver. done.
    - rewrite lookup_alter_ne by done. by rewrite decide_False by naive_solver. }
  repeat case_decide; try done; try (exfalso; set_solver). by destruct (status m s key).
Qed.

Lemma remove_wants_inv session keys m : inv m → inv (remove_session_wants session keys m).
Proof.
  revert m. induction keys as [|k keys IH]; intros m Hm; [done|]. apply IH. intros key.
  destruct (decide (key = k)) as [->|Hk]; [|by rewrite lookup_alter_ne].
  rewrite lookup_alter_eq. destruct (m !! k) as [w|] eqn:E; [|done]. simpl. intros [= H].
  apply (Hm k). rewrite E. f_equal. apply map_eq. intros s. rewrite lookup_empty.
  apply (f_equal (.!! s)) in H. rewrite lookup_empty in H. destruct (decide (s = session)) as [->|Hs].
  - rewrite lookup_alter_eq in H. by destruct (w !! session).
  - by rewrite lookup_alter_ne in H.
Qed.

(** ** The queries *)
Lemma wanted_by_status session m key : wanted_by session m key = true ↔ status m session key = Some true.
Proof.
  unfold wanted_by, status. destruct (m !! key) as [w|]; simpl; [|done].
  destruct (w !! session) as [[]|]; simpl; naive_solver.
Qed.

Lemma interested_sessions_ok blocks haves dont_haves m s :
  s ∈ interested_sessions blocks haves dont_haves m ↔
    ∃ key, key ∈ blocks ++ haves ++ dont_haves ∧ is_Some (status m s key).
Proof.
  unfold interested_sessions, status. rewrite elem_of_list_to_set, list_elem_of_bind. split.
  - intros (key & Hs & Hk). exists key. split; [done|]. destruct (m !! key) as [w|]; [|by apply elem_of_nil in Hs].
    apply list_elem_of_fmap in Hs as ([s' b] & -> & Hb%elem_of_iter_map). simpl. by rewrite Hb.
  - intros (key & Hk & [b Hb]). exists key. split; [|done]. destruct (m !! key) as [w|]; [|done].
    apply list_elem_of_fmap. exists (s, b). by rewrite elem_of_iter_map.
Qed.

Lemma split_ok {block} (cid : block → Cid) blocks m :
  let '(wanted_blocks, not_wanted_blocks) := split_wanted_unwanted cid blocks m in
  wanted_blocks ++ not_wanted_blocks ≡ₚ blocks ∧
  (∀ b, b ∈ wanted_blocks → ∃ s, status m s (cid b) = Some true) ∧
  (∀ b, b ∈ not_wanted_blocks → ∀ s, status m s (cid b) ≠ Some true).
Proof.
  unfold split_wanted_unwanted. set (wk := list_to_set _).
  assert (∀ b, b ∈ blocks → cid b ∈ wk ↔ ∃ s, status m s (cid b) = Some true) as Hwk.
  { intros b Hb. unfold wk. rewrite elem_of_list_to_set, list_elem_of_bind. unfold status. split.
    - intros (b' & Hin & _). destruct (m !! cid b') as [w|] eqn:E; [|by apply elem_of_nil in Hin].
      apply elem_of_replicate in Hin as [Heq Hn]. rewrite Heq, E. simpl.
      destruct (filter _ (iter_values w)) as [|x l] eqn:Ef; [done|].
      assert (x ∈ filter (λ w, w = true) (iter_values w)) as Hx by (rewrite Ef; by left).
      apply list_elem_of_filter in Hx as [-> (s & Hs)%elem_of_iter_values]. by exists s.
    - intros [s Hs]. exists b. split; [|done]. destruct (m !! cid b) as [w|] eqn:E; [|done]. simpl in Hs.
      apply elem_of_replicate. split; [done|]. intros Hl%length_zero_iff_nil.
      assert (true ∈ filter (λ w, w = true) (iter_values w)) as Hx.
      { apply list_elem_of_filter. split; [done|]. apply elem_of_iter_values. by exists s. }
      rewrite Hl in Hx. by apply elem_of_nil in Hx. }
  split_and!.
  - clearbody wk. clear Hwk. induction blocks as [|b bs IH]; [done|]. rewrite !filter_cons. case_decide; simpl.
    + rewrite decide_False by tauto. by rewrite IH.
    + rewrite decide_True by done. by rewrite <-Permutation_middle, IH.
  - intros b [Hb Hin]%list_elem_of_filter. by apply Hwk.
  - intros b [Hb Hin]%list_elem_of_filter s Hs. apply Hb, Hwk; eauto.
Qed.
End manager.
End SessionInterestManager.

Module BlockPresenceManager.
Section manager.
  Context {ids : Ids}.
Notation BlockPresenceManager := (gmap Cid (gmap PeerId bool)).

Definition update_block_presence (peer : PeerId) (present : bool) (m : BlockPresenceManager) (key : Cid) :
    BlockPresenceManager :=
  entry_or ∅ (λ entry, if decide (entry !! peer = Some true) then entry else <[peer := present]> entry) key m.

Definition receive_from (peer : PeerId) (haves dont_haves : list Cid) (m : BlockPresenceManager) :
    BlockPresenceManager :=
  foldl (update_block_presence peer false) (foldl (update_block_presence peer true) m haves) dont_haves.

Definition peer_has_block (peer : PeerId) (c : Cid) (m : BlockPresenceManager) : bool :=
  match m !! c with
  | Some l => match l !! peer with Some have => have | None => false end
  | None => false
  end.
Definition peer_does_not_have_block (peer : PeerId) (c : Cid) (m : BlockPresenceManager) : bool :=
  match m !! c with
  | Some l => match l !! peer with Some have => negb have | None => false end
  | None => false
  end.

Fixpoint all_peers (ps : gmap PeerId bool) (peers : list PeerId) : bool :=
  match peers with
  | [] => true
  | peer :: peers =>
      match ps !! peer with
      | Some has => if has : bool then false else all_peers ps peers
      | None => false
      end
  end.
Definition all_dont_have (m : BlockPresenceManager) (peers : list PeerId) (key : Cid) : bool :=
  match m !! key with Some ps => all_peers ps peers | None => false end.
Definition all_peers_do_not_have_block (peers : list PeerId) (keys : list Cid) (m : BlockPresenceManager) :
    list Cid :=
  filter (λ key, all_dont_have m peers key = true) keys.

Definition remove_keys (keys : list Cid) (m : BlockPresenceManager) : BlockPresenceManager :=
  foldl (λ m key, delete key m) m keys.
Definition has_key (c : Cid) (m : BlockPresenceManager) : bool := bool_decide (is_Some (m !! c)).

(** What is known of a block at a peer. *)
Definition known (m : BlockPresenceManager) (peer : PeerId) (c : Cid) : option bool :=
  l ← m !! c; l !! peer.

Lemma update_known peer present m key p c :
  known (update_block_presence peer present m key) p c =
    if decide (p = peer ∧ c = key) then Some (present || bool_decide (known m p c = Some true))
    else known m p c.
Proof.
  unfold known, update_block_presence. destruct (decide (c = key)) as [->|Hc].
  - rewrite lookup_entry_or. simpl.
    assert (∀ x, default ∅ (m !! key) !! x = m !! key ≫= λ l, l !! x) as Hd
      by (intros x; destruct (m !! key); simpl; [done|apply lookup_empty]).
    destruct (decide (default ∅ (m !! key) !! peer = Some true)) as [Ht|Ht]; rewrite Hd in Ht.
    + rewrite Hd. case_decide as Hp; [|done]. destruct Hp as [-> _]. rewrite Ht.
      rewrite bool_decide_eq_true_2 by done. by rewrite orb_true_r.
    + destruct (decide (p = peer)) as [->|Hp].
      * rewrite lookup_insert_eq, decide_True by done. rewrite bool_decide_eq_false_2 by done. by rewrite orb_false_r.
      * rewrite lookup_insert_ne, Hd by done. by rewrite decide_False by naive_solver.
  - rewrite lookup_entry_or_ne by done. by rewrite decide_False by naive_solver.
Qed.

Lemma updates_known peer present keys : ∀ m p c,
  known (foldl (update_block_presence peer present) m keys) p c =
    if decide (p = peer ∧ c ∈ keys) then Some (present || bool_decide (known m p c = Some true))
    else known m p c.
Proof.
  induction keys as [|k keys IH]; intros m p c; cbn [foldl].
  { rewrite decide_False; [done|]. intros [_ H]. by apply elem_of_nil in H. }
  rewrite IH, update_known. destruct (decide (p = peer)) as [->|Hp].
  - destruct (decide (c = k)) as [->|Hc].
    + rewrite (decide_True (P := peer = peer ∧ k = k)) by done.
      rewrite (decide_True (P := peer = peer ∧ k ∈ k :: keys)) by (split; [done|by left]). case_decide; [|done].
      f_equal. destruct present; [done|]. simpl. apply bool_decide_ext.
      case_bool_decide; naive_solver.
    + rewrite (decide_False (P := peer = peer ∧ c = k)) by naive_solver.
      by rewrite (decide_ext (peer = peer ∧ c ∈ k :: keys) (peer = peer ∧ c ∈ keys))
        by (rewrite elem_of_cons; naive_solver).
  - rewrite !decide_False by naive_solver. done.
Qed.

(** A HAVE is never turned into a DONT_HAVE. *)
Lemma receive_known peer haves dont_haves m p c :
  known (receive_from peer haves dont_haves m) p c =
    if decide (p = peer ∧ c ∈ haves ++ dont_haves)
    then Some (bool_decide (c ∈ haves) || bool_decide (known m p c = Some true)) else known m p c.
Proof.
  unfold receive_from. rewrite !updates_known.
  destruct (decide (p = peer)) as [->|Hp]; [|by rewrite !decide_False by naive_solver].
  assert (∀ (l : list Cid) (x y : option bool), (if decide (peer = peer ∧ c ∈ l) then x else y) =
    if bool_decide (c ∈ l) then x else y) as Hif.
  { intros l x y. case_decide; case_bool_decide; naive_solver. }
  rewrite !Hif. rewrite (bool_decide_ext _ _ (elem_of_app haves dont_haves c)), bool_decide_or.
  destruct (bool_decide (c ∈ haves)), (bool_decide (c ∈ dont_haves)); done.
Qed.

Lemma all_dont_have_ok m peers c :
  all_dont_have m peers c = true ↔ is_Some (m !! c) ∧ ∀ p, p ∈ peers → known m p c = Some false.
Proof.
  unfold all_dont_have, known. destruct (m !! c) as [l|]; simpl; [|naive_solver].
  induction peers as [|p peers IH]; simpl.
  - split; [|done]. intros _. split; [by eexists|]. intros p Hp. by apply elem_of_nil in Hp.
  - destruct (l !! p) as [[]|] eqn:E.
    + split; [done|]. intros [_ H]. specialize (H p ltac:(by left)). congruence.
    + rewrite IH. split; intros [H1 H2]; (split; [done|]); intros p' Hp'; [|by apply H2; right].
      apply elem_of_cons in Hp' as [->|Hp']; [done|by apply H2].
    + split; [done|]. intros [_ H]. specialize (H p ltac:(by left)). congruence.
Qed.
End manager.
End BlockPresenceManager.

Module SentWantBlocksTracker.
Section tracker.
  Context {ids : Ids}.
Notation SentWantBlocksTracker := (gmap PeerId (gset Cid)).
Definition add_sent_want_blocks_to (peer : PeerId) (keys : list Cid) (t : SentWantBlocksTracker) :
    SentWantBlocksTracker :=
  entry_or ∅ (λ entry, foldl (λ entry key, {[key]} ∪ entry) entry keys) peer t.
Definition have_sent_want_block_to (peer : PeerId) (c : Cid) (t : SentWantBlocksTracker) : bool :=
  match t !! peer with Some cids => bool_decide (c ∈ cids) | None => false end.

Lemma sent_to_ok peer keys t p c :
  have_sent_want_block_to p c (add_sent_want_blocks_to peer keys t) = true ↔
    (p = peer ∧ c ∈ keys) ∨ have_sent_want_block_to p c t = true.
Proof.
  assert (∀ (keys : list Cid) (s : gset Cid), c ∈ foldl (λ entry key, {[key]} ∪ entry) s keys ↔ c ∈ keys ∨ c ∈ s) as Hf.
  { induction keys0 as [|k ks IH]; intros s; cbn [foldl]; [set_solver|]. rewrite IH. set_solver. }
  unfold have_sent_want_block_to, add_sent_want_blocks_to. destruct (decide (p = peer)) as [->|Hp].
  - rewrite lookup_entry_or, bool_decide_eq_true, Hf. destruct (t !! peer) as [s|]; simpl.
    + rewrite bool_decide_eq_true. naive_solver.
    + set_solver.
  - rewrite lookup_entry_or_ne by done. naive_solver.
Qed.
End tracker.
End SentWantBlocksTracker.

Module PeerResponseTracker.
Section tracker.
  Context {ids : Ids}.
Notation PeerResponseTracker := (gmap PeerId Z).
Definition received_block_from (from : PeerId) (t : PeerResponseTracker) : outcome PeerResponseTracker :=
  n ← usize_add (default 0%Z (t !! from)) 1; mret (<[from := n]> t).
Definition get_peer_count (peer : PeerId) (t : PeerResponseTracker) : Z := default 1%Z (t !! peer).

(** [choose]: which peer is chosen depends on a random number; [pick] is the
    place of the first peer whose share exceeds it. *)
Definition choose (pick : nat) (peers : list PeerId) : option PeerId :=
  match peers !! pick with Some p => Some p | None => last peers end.

Lemma choose_ok pick peers p : choose pick peers = Some p → p ∈ peers.
Proof.
  unfold choose. destruct (peers !! pick) as [q|] eqn:E.
  - intros [= <-]. by eapply list_elem_of_lookup_2.
  - intros H. rewrite last_lookup in H. by eapply list_elem_of_lookup_2.
Qed.
Lemma choose_some pick peers : peers ≠ [] → is_Some (choose pick peers).
Proof. intros Hp. unfold choose. destruct (peers !! pick); [by eexists|]. by apply last_is_Some. Qed.
End tracker.
End PeerResponseTracker.
