(* ===== verification/SessionWants.v ===== *)
(** * The wants of a session

    packages/beetle-bitswap-next/src/client/session/cid_queue.rs and
    client/session/session_wants.rs: the wants that wait to be sent and the wants
    that are live.  Instants and durations are nanoseconds. *)
From stdpp Require Import base gmap list.
From S2P Require Import Prelude.
Local Open Scope Z_scope.

Module CidQueue.
Section queue.
  Context {ids : Ids}.

Record CidQueue := mk { elements : list Cid; set : gset Cid }.
Definition default : CidQueue := mk [] ∅.

Fixpoint pop_elements (els : list Cid) (s : gset Cid) : option Cid * list Cid :=
  match els with
  | [] => (None, [])
  | el :: els => if bool_decide (el ∈ s) then (Some el, els) else pop_elements els s
  end.
Definition pop (q : CidQueue) : option Cid * CidQueue :=
  let '(o, els) := pop_elements (elements q) (set q) in (o, mk els (set q)).

Definition cids (q : CidQueue) : list Cid * CidQueue :=
  let els := filter (λ el, el ∈ set q) (elements q) in (els, mk els (set q)).
Definition push (c : Cid) (q : CidQueue) : CidQueue :=
  if bool_decide (c ∈ set q) then q else mk (elements q ++ [c]) ({[c]} ∪ set q).
Definition remove (c : Cid) (q : CidQueue) : CidQueue := mk (elements q) (set q ∖ {[c]}).
Definition has (c : Cid) (q : CidQueue) : bool := bool_decide (c ∈ set q).
Definition len (q : CidQueue) : Z := set_len (set q).

(** A popped identifier is one of the set and the first such in the queue; it
    stays in the set. *)
Lemma pop_ok q :
  match pop q with
  | (Some c, q') => ∃ skipped, elements q = skipped ++ c :: elements q' ∧ c ∈ set q ∧
      Forall (λ x, x ∉ set q) skipped ∧ set q' = set q
  | (None, q') => Forall (λ x, x ∉ set q) (elements q) ∧ q' = mk [] (set q)
  end.
Proof.
  unfold pop. destruct q as [els s]. simpl. induction els as [|el els IH]; simpl; [done|].
  case_bool_decide as He; [by exists []|]. destruct (pop_elements els s) as [[c|] els']; simpl in *.
  - destruct IH as (sk & -> & H1 & H2 & _). exists (el :: sk). split_and!; try done. by constructor.
  - destruct IH as [H1 H2]. split; [by constructor|done].
Qed.

(** Since [pop] leaves the set alone, an identifier that was removed and pushed
    again is popped once for every push. *)
Example popped_twice (c : Cid) :
  (pop (pop (push c (remove c (push c default)))).2).1 = Some c.
Proof.
  unfold push, pop. simpl. rewrite bool_decide_eq_false_2 by set_solver. simpl.
  rewrite bool_decide_eq_false_2 by set_solver. simpl.
  rewrite bool_decide_eq_true_2 by set_solver. simpl. by rewrite bool_decide_eq_true_2 by set_solver.
Qed.
End queue.
End CidQueue.

Module SessionWants.
Section wants.
  Context {ids : Ids} {ho : HashOrder}.

Definition LIVE_WANTS_ORDER_GC_LIMIT : Z := 32.

Record SessionWants := mk {
  to_fetch : CidQueue.CidQueue;
  live_wants : gmap Cid Z;
  live_wants_order : list Cid;
  broadcast_limit : Z;
}.
Definition new (limit : Z) : SessionWants := mk CidQueue.default ∅ [] limit.

Definition blocks_requested (new_wants : list Cid) (w : SessionWants) : SessionWants :=
  mk (foldl (λ q c, CidQueue.push c q) (to_fetch w) new_wants) (live_wants w) (live_wants_order w)
     (broadcast_limit w).

(** The loop of [get_next_wants], [n] times. *)
Fixpoint take_wants (now : Z) (n : nat) (live : gset Cid) (w : SessionWants) : gset Cid * SessionWants :=
  match n with
  | O => (live, w)
  | S n =>
      match CidQueue.pop (to_fetch w) with
      | (Some c, q) =>
          take_wants now n ({[c]} ∪ live)
            (mk q (<[c := now]> (live_wants w)) (live_wants_order w ++ [c]) (broadcast_limit w))
      | (None, q) => (live, mk q (live_wants w) (live_wants_order w) (broadcast_limit w))
      end
  end.

Definition get_next_wants (now : Z) (w : SessionWants) : outcome (gset Cid * SessionWants) :=
  to_add ← usize_sub (broadcast_limit w) (map_len (live_wants w));
  mret (take_wants now (Z.to_nat to_add) ∅ w).

Definition want_sent (now : Z) (w : SessionWants) (key : Cid) : SessionWants :=
  if negb (bool_decide (is_Some (live_wants w !! key))) && CidQueue.has key (to_fetch w) then
    mk (CidQueue.remove key (to_fetch w)) (<[key := now]> (live_wants w)) (live_wants_order w ++ [key])
       (broadcast_limit w)
  else w.
Definition wants_sent (now : Z) (keys : list Cid) (w : SessionWants) : SessionWants :=
  foldl (want_sent now) w keys.

Definition is_wanted (key : Cid) (w : SessionWants) : bool :=
  if negb (bool_decide (is_Some (live_wants w !! key))) then CidQueue.has key (to_fetch w) else true.

(** One key of the loop of [blocks_received]; [Instant] subtraction saturates. *)
Definition block_received (now : Z) (st : list Cid * Z * SessionWants) (key : Cid) :
    list Cid * Z * SessionWants :=
  let '(wanted, total_latency, w) := st in
  if is_wanted key w then
    (wanted ++ [key],
     total_latency + match live_wants w !! key with Some sent_at => Z.max 0 (now - sent_at) | None => 0 end,
     mk (CidQueue.remove key (to_fetch w)) (delete key (live_wants w)) (live_wants_order w) (broadcast_limit w))
  else st.

Definition blocks_received (now : Z) (keys : list Cid) (w : SessionWants) :
    outcome (list Cid * Z * SessionWants) :=
  let '(wanted, total_latency, w) := foldl (block_received now) ([], 0, w) keys in
  over ← usize_sub (vec_len (live_wants_order w)) (map_len (live_wants w));
  let w := if bool_decide (LIVE_WANTS_ORDER_GC_LIMIT < over)
           then mk (to_fetch w) (live_wants w)
                   (filter (λ key, is_Some (live_wants w !! key)) (live_wants_order w)) (broadcast_limit w)
           else w in
  mret (wanted, total_latency, w).

(** The loop of [prepare_broadcast]. *)
Fixpoint broadcast_loop (now : Z) (keys : list Cid) (live : gset Cid) (lw : gmap Cid Z) (limit : Z) :
    gset Cid * gmap Cid Z :=
  match keys with
  | [] => (live, lw)
  | key :: keys =>
      if bool_decide (is_Some (lw !! key)) then
        let lw := <[key := now]> lw in
        let live := {[key]} ∪ live in
        if bool_decide (set_len live = limit) then (live, lw) else broadcast_loop now keys live lw limit
      else broadcast_loop now keys live lw limit
  end.
Definition prepare_broadcast (now : Z) (w : SessionWants) : gset Cid * SessionWants :=
  let '(live, lw) := broadcast_loop now (live_wants_order w) ∅ (live_wants w) (broadcast_limit w) in
  (live, mk (to_fetch w) lw (live_wants_order w) (broadcast_limit w)).

Definition cancel_pending (keys : list Cid) (w : SessionWants) : SessionWants :=
  mk (foldl (λ q key, CidQueue.remove key q) (to_fetch w) keys) (live_wants w) (live_wants_order w)
     (broadcast_limit w).

(** [random_live_want]: [i] is the random index. *)
Definition random_live_want (i : nat) (w : SessionWants) : option Cid :=
  if bool_decide (live_wants w = ∅) then None else fst <$> iter_map (live_wants w) !! i.
Definition has_live_wants (w : SessionWants) : bool := negb (bool_decide (live_wants w = ∅)).

(** ** Invariant

    Every live want is in the order; hence no subtraction of [blocks_received]
    underflows. *)
Definition inv (w : SessionWants) : Prop :=
  ∀ c, is_Some (live_wants w !! c) → c ∈ live_wants_order w.

Lemma inv_order w : inv w → map_len (live_wants w) <= vec_len (live_wants_order w).
Proof.
  intros Hi. unfold map_len, vec_len. apply inj_le. rewrite <-size_dom.
  etrans; [|apply (size_list_to_set_le (live_wants_order w))].
  apply subseteq_size. intros c Hc%elem_of_dom. rewrite elem_of_list_to_set. by apply Hi.
Qed.

Lemma take_wants_inv now n live w : inv w → inv (take_wants now n live w).2.
Proof.
  revert live w. induction n as [|n IH]; intros live w Hi; simpl; [done|].
  destruct (CidQueue.pop (to_fetch w)) as [[c|] q]; [|done]. apply IH. intros c'. simpl.
  rewrite lookup_insert_is_Some, elem_of_app, list_elem_of_singleton.
  destruct (decide (c = c')) as [->|]; [by right|]. intros [?|[_ ?]]; [done|]. left. by apply Hi.
Qed.

Lemma wants_sent_inv now keys w : inv w → inv (wants_sent now keys w).
Proof.
  unfold wants_sent. revert w. induction keys as [|k keys IH]; intros w Hi; cbn [foldl]; [done|].
  apply IH. unfold want_sent. destruct (_ && _); [|done]. intros c'. simpl.
  rewrite lookup_insert_is_Some, elem_of_app, list_elem_of_singleton.
  destruct (decide (k = c')) as [->|]; [by right|]. intros [?|[_ ?]]; [done|]. left. by apply Hi.
Qed.

Lemma is_wanted_ok key w : is_wanted key w = true ↔ is_Some (live_wants w !! key) ∨ key ∈ CidQueue.set (to_fetch w).
Proof.
  unfold is_wanted, CidQueue.has. case_bool_decide; simpl; [tauto|]. rewrite bool_decide_eq_true. tauto.
Qed.

(** The received blocks that were wanted, each once and in order. *)
Lemma blocks_loop_ok now keys : ∀ acc lat w,
  let '(wanted, lat', w') := foldl (block_received now) (acc, lat, w) keys in
  (∃ l, wanted = acc ++ l ∧ NoDup l ∧ (∀ c, c ∈ l ↔ c ∈ keys ∧ is_wanted c w = true) ∧ l `sublist_of` keys) ∧
  (∀ c, is_wanted c w' = true ↔ is_wanted c w = true ∧ c ∉ keys) ∧
  live_wants w' ⊆ live_wants w ∧ live_wants_order w' = live_wants_order w ∧ lat <= lat'.
Proof.
  induction keys as [|k keys IH]; intros acc lat w; cbn [foldl].
  { split_and!; try done; [|set_solver]. exists []. rewrite app_nil_r. split_and!; try done; [constructor|set_solver]. }
  unfold block_received at 2. destruct (is_wanted k w) eqn:Ek.
  - set (w1 := mk _ _ _ _). assert (∀ c, is_wanted c w1 = true ↔ is_wanted c w = true ∧ c ≠ k) as H1.
    { intros c. rewrite !is_wanted_ok. unfold w1. simpl. rewrite lookup_delete_is_Some. set_solver. }
    specialize (IH (acc ++ [k]) (lat + match live_wants w !! k with Some sent_at => Z.max 0 (now - sent_at) | None => 0 end) w1).
    destruct (foldl (block_received now) _ keys) as [[wanted lat'] w'].
    destruct IH as ((l & -> & Hnd & Hl & Hsub) & Hw & Hlw & Ho & Hlat). split_and!.
    + exists (k :: l). rewrite <-(assoc_L (++)). split_and!; [done| | |by constructor].
      * constructor; [|done]. rewrite Hl, H1. tauto.
      * intros c. rewrite !elem_of_cons, Hl, H1. destruct (decide (c = k)) as [->|]; naive_solver.
    + intros c. rewrite Hw, H1, not_elem_of_cons. tauto.
    + etrans; [done|]. apply delete_subseteq.
    + done.
    + destruct (live_wants w !! k); lia.
  - specialize (IH acc lat w). destruct (foldl (block_received now) _ keys) as [[wanted lat'] w'].
    destruct IH as ((l & -> & Hnd & Hl & Hsub) & Hw & Hlw & Ho & Hlat). split_and!; try done.
    + exists l. split_and!; [done|done| |by constructor]. intros c. rewrite Hl, elem_of_cons.
      destruct (decide (c = k)) as [->|]; [rewrite Ek; naive_solver|naive_solver].
    + intros c. rewrite Hw, not_elem_of_cons. destruct (decide (c = k)) as [->|]; [rewrite Ek; naive_solver|naive_solver].
Qed.

(** No panic; exactly the wanted blocks are reported, once, and no longer wanted. *)
Lemma blocks_received_ok now keys w :
  inv w → vec_len (live_wants_order w) <= usize_max →
  ∃ wanted lat w', blocks_received now keys w = Done (wanted, lat, w') ∧ inv w' ∧ 0 <= lat ∧
    NoDup wanted ∧ (∀ c, c ∈ wanted ↔ c ∈ keys ∧ is_wanted c w = true) ∧
    (∀ c, is_wanted c w' = true ↔ is_wanted c w = true ∧ c ∉ keys).
Proof.
  intros Hi Hlen. unfold blocks_received. pose proof (blocks_loop_ok now keys [] 0 w) as Hl.
  destruct (foldl _ _ keys) as [[wanted lat] w1]. destruct Hl as ((l & -> & Hnd & Hin & _) & Hw & Hlw & Ho & Hlat).
  assert (inv w1) as Hi1.
  { intros c [x Hx]. rewrite Ho. apply Hi. exists x. by eapply lookup_weaken. }
  pose proof (inv_order w1 Hi1). rewrite Ho in *. unfold map_len in *.
  rewrite usize_sub_ok by lia. simpl. eexists l, lat, _. split; [done|]. split_and!; try done.
  - case_bool_decide; [|done]. intros c Hc. simpl in *. apply list_elem_of_filter. split; [done|].
    rewrite <-Ho. by apply Hi1.
  - intros c. rewrite <-Hw. by case_bool_decide.
Qed.

(** The broadcast limit bounds what a broadcast asks for. *)
Lemma get_next_wants_ok now w :
  map_len (live_wants w) <= broadcast_limit w <= usize_max →
  ∃ live w', get_next_wants now w = Done (live, w') ∧ map_len (live_wants w') <= broadcast_limit w' ∧
    broadcast_limit w' = broadcast_limit w ∧ (∀ c, c ∈ live → is_Some (live_wants w' !! c)) ∧
    (∀ c, is_wanted c w' = is_wanted c w).
Proof.
  intros Hl. unfold get_next_wants. unfold map_len in *. rewrite usize_sub_ok by lia. cbn [mbind outcome_bind].
  set (n := Z.to_nat _).
  assert (∀ n live w0, (∀ c, c ∈ live → is_Some (live_wants w0 !! c)) →
    Z.of_nat (size (live_wants w0)) + Z.of_nat n <= broadcast_limit w0 →
    let '(live', w') := take_wants now n live w0 in
    Z.of_nat (size (live_wants w')) <= broadcast_limit w' ∧ broadcast_limit w' = broadcast_limit w0 ∧
    (∀ c, c ∈ live' → is_Some (live_wants w' !! c)) ∧ (∀ c, is_wanted c w' = is_wanted c w0)) as Ht.
  { induction n0 as [|n0 IH]; intros live w0 Hlv Hn; cbn [take_wants]; [split_and!; try done; lia|].
    pose proof (CidQueue.pop_ok (to_fetch w0)) as Hp. destruct (CidQueue.pop (to_fetch w0)) as [[c|] q].
    - destruct Hp as (sk & _ & Hc & _ & Hset).
      specialize (IH ({[c]} ∪ live) (mk q (<[c := now]> (live_wants w0)) (live_wants_order w0 ++ [c]) (broadcast_limit w0))).
      destruct (take_wants now n0 _ _) as [live' w']. simpl in IH. destruct IH as (H1 & H2 & H3 & H4).
      + intros c' Hc'. rewrite lookup_insert_is_Some. destruct (decide (c = c')); [by left|right]. set_solver.
      + rewrite map_size_insert. destruct (live_wants w0 !! c); simpl; lia.
      + split_and!; try done. intros c'. rewrite H4. apply eq_bool_prop_intro. rewrite !Is_true_true, !is_wanted_ok. simpl.
        rewrite Hset, lookup_insert_is_Some. destruct (decide (c = c')) as [->|]; naive_solver.
    - destruct Hp as [_ ->]. split_and!; simpl; try done. lia. }
  specialize (Ht n ∅ w). destruct (take_wants now n ∅ w) as [live w'].
  destruct Ht as (H1 & H2 & H3 & H4); [set_solver|unfold n; lia|]. by exists live, w'.
Qed.
End wants.
End SessionWants.
