(* ===== verification/WantSender.v ===== *)
(** * The want sender of a session

    packages/beetle-bitswap-next/src/client/session/session_want_sender.rs and the
    parts of client/session_manager.rs that it calls: what is known of every want
    of a session, which peer it was sent to, and the changes that the sender
    handles.  The peer manager, the block presences and the interest of sessions
    are shared between sessions; a call of one of them is one step. *)
From stdpp Require Import base gmap list.
From S2P Require Import Prelude Wantlist Ledger PeerWants PeerManager Interest.
Local Open Scope Z_scope.

Module SessionManager.
Section manager.
  Context {ids : Ids} {ho : HashOrder}.

(** What the sessions share (the managers of [Inner]). *)
Record Shared := mkShared {
  session_interest_manager : gmap Cid (gmap Z bool);
  block_presence_manager : gmap Cid (gmap PeerId bool);
  peer_manager : PeerManager.PeerManagerActor;
}.
Definition with_pm (pm : PeerManager.PeerManagerActor) (s : Shared) : Shared :=
  mkShared (session_interest_manager s) (block_presence_manager s) pm.

Definition cancel_wants (wants : list Cid) (s : Shared) : Shared :=
  mkShared (session_interest_manager s) (BlockPresenceManager.remove_keys wants (block_presence_manager s))
    (PeerManager.send_cancels wants (peer_manager s)).

Definition cancel_session_wants (session : Z) (wants : list Cid) (s : Shared) : Shared :=
  let '(cancels, sim) := SessionInterestManager.remove_session_interested session wants
                           (session_interest_manager s) in
  cancel_wants cancels (mkShared sim (block_presence_manager s) (peer_manager s)).

(** [remove_session], without the table of running sessions. *)
Definition forget_session (session : Z) (s : Shared) : Shared :=
  let '(cancels, sim) := SessionInterestManager.remove_session session (session_interest_manager s) in
  cancel_wants cancels (mkShared sim (block_presence_manager s) (peer_manager s)).
End manager.
End SessionManager.

Module SessionWantSender.
Import SessionManager.
Section sender.
  Context {ids : Ids} {ho : HashOrder}.
  (** The random choices of the peer response tracker. *)
  Context (pick : list PeerId → nat).

Definition CHANGES_BUFFER_SIZE : nat := 128.
Definition PEER_DONT_HAVE_LIMIT : Z := 16.

Inductive BlockPresence := DontHave | Unknown | Have.
#[global] Instance BlockPresence_eq_dec : EqDecision BlockPresence.
Proof. solve_decision. Defined.
(** The derived order. *)
Definition bp_rank (b : BlockPresence) : nat := match b with DontHave => 0 | Unknown => 1 | Have => 2 end.

Record Update := mkUpdate { from : PeerId; keys : list Cid; haves : list Cid; dont_haves : list Cid }.
Inductive Change :=
  | Add (cids : list Cid)
  | Cancel (cids : list Cid)
  | ChangeUpdate (u : Update)
  | Availability (target : PeerId) (is_available : bool).

(** What the sender tells its session ([super::Op]). *)
Inductive Op :=
  | Broadcast (cids : gset Cid)
  | WantsSent (cids : list Cid).

Record WantSets := mkSets { want_blocks : gset Cid; want_haves : gset Cid }.
(** [for_peer(peer).want_blocks.insert(cid)] and the same for want-haves. *)
Definition insert_want_block (p : PeerId) (c : Cid) (m : gmap PeerId WantSets) : gmap PeerId WantSets :=
  entry_or (mkSets ∅ ∅) (λ s, mkSets ({[c]} ∪ want_blocks s) (want_haves s)) p m.
Definition insert_want_have (p : PeerId) (c : Cid) (m : gmap PeerId WantSets) : gmap PeerId WantSets :=
  entry_or (mkSets ∅ ∅) (λ s, mkSets (want_blocks s) ({[c]} ∪ want_haves s)) p m.

(** ** WantInfo *)
Record WantInfo := mkInfo {
  block_presence : gmap PeerId BlockPresence;
  sent_to : option PeerId;
  best_peer : option PeerId;
  exhausted : bool;
}.
Definition WantInfo_new : WantInfo := mkInfo ∅ None None false.

(** The loop of [calculate_best_peer]. *)
Definition best_of (st : BlockPresence * option PeerId * nat) (pb : PeerId * BlockPresence) :
    BlockPresence * option PeerId * nat :=
  let '(best_bp, best, count_with_best) := st in
  if bool_decide (bp_rank best_bp < bp_rank pb.2)%nat then (pb.2, Some pb.1, 1%nat)
  else if bool_decide (bp_rank pb.2 = bp_rank best_bp) then (best_bp, best, S count_with_best)
  else st.

Definition calculate_best_peer (wi : WantInfo) : WantInfo :=
  let '(best_bp, best, count_with_best) :=
    foldl best_of (DontHave, None, 0%nat) (iter_map (block_presence wi)) in
  let best :=
    match best with
    | None => None
    | Some _ =>
        if bool_decide (count_with_best <= 1)%nat then best
        else
          let peers_with_best := fst <$> filter (λ pb, pb.2 = best_bp) (iter_map (block_presence wi)) in
          PeerResponseTracker.choose (pick peers_with_best) peers_with_best
    end in
  mkInfo (block_presence wi) (sent_to wi) best (exhausted wi).

Definition set_peer_block_presence (p : PeerId) (bp : BlockPresence) (wi : WantInfo) : WantInfo :=
  let wi := calculate_best_peer
    (mkInfo (<[p := bp]> (block_presence wi)) (sent_to wi) (best_peer wi) (exhausted wi)) in
  if bool_decide (bp = Have) then mkInfo (block_presence wi) (sent_to wi) (best_peer wi) false else wi.

Definition update_want_block_presence (bpm : gmap Cid (gmap PeerId bool)) (c : Cid) (p : PeerId)
    (wi : WantInfo) : WantInfo :=
  let info :=
    if BlockPresenceManager.peer_has_block p c bpm then Have
    else if BlockPresenceManager.peer_does_not_have_block p c bpm then DontHave else Unknown in
  set_peer_block_presence p info wi.

Definition remove_peer (p : PeerId) (wi : WantInfo) : WantInfo :=
  calculate_best_peer
    (mkInfo (delete p (block_presence wi)) (if bool_decide (sent_to wi = Some p) then None else sent_to wi)
       (best_peer wi) (exhausted wi)).

(** ** LoopState

    [ops] is what was sent to the session, [signals] the availability changes that
    the sender posts to itself. *)
Record LoopState := mk {
  id : Z;
  wants : gmap Cid WantInfo;
  peer_consecutive_dont_haves : gmap PeerId Z;
  sent_want_blocks_tracker : gmap PeerId (gset Cid);
  peer_response_tracker : gmap PeerId Z;
  shared : Shared;
  ops : list Op;
  signals : list Change;
}.
Definition new (id : Z) (sh : Shared) : LoopState := mk id ∅ ∅ ∅ ∅ sh [] [].

Definition with_wants (w : gmap Cid WantInfo) (s : LoopState) : LoopState :=
  mk (id s) w (peer_consecutive_dont_haves s) (sent_want_blocks_tracker s) (peer_response_tracker s) (shared s)
     (ops s) (signals s).
Definition with_counts (d : gmap PeerId Z) (s : LoopState) : LoopState :=
  mk (id s) (wants s) d (sent_want_blocks_tracker s) (peer_response_tracker s) (shared s) (ops s) (signals s).
Definition with_shared (sh : Shared) (s : LoopState) : LoopState :=
  mk (id s) (wants s) (peer_consecutive_dont_haves s) (sent_want_blocks_tracker s) (peer_response_tracker s) sh
     (ops s) (signals s).
Definition pm (s : LoopState) : PeerManager.PeerManagerActor := peer_manager (shared s).
Definition bpm (s : LoopState) : gmap Cid (gmap PeerId bool) := block_presence_manager (shared s).

Definition track_want (peers : list PeerId) (s : LoopState) (c : Cid) : LoopState :=
  if bool_decide (is_Some (wants s !! c)) then s
  else
    let want_info := foldl (λ wi p, update_want_block_presence (bpm s) c p wi) WantInfo_new peers in
    with_wants (<[c := want_info]> (wants s)) s.
Definition track_wants (cids : list Cid) (s : LoopState) : LoopState :=
  foldl (track_want (PeerManager.peers_for_session (id s) (pm s))) s cids.

Definition untrack_want (c : Cid) (s : LoopState) : LoopState := with_wants (delete c (wants s)) s.

(** The loop of [on_change] over the changes. *)
Record Changes := mkChanges {
  availability : gmap PeerId (bool * option bool);
  cancels : list Cid;
  updates : list Update;
}.
Definition apply_change (st : LoopState * Changes) (ch : Change) : LoopState * Changes :=
  let '(s, cs) := st in
  match ch with
  | Add cids => (track_wants cids s, cs)
  | Cancel cids =>
      (foldl (λ s c, untrack_want c s) s cids, mkChanges (availability cs) (cancels cs ++ cids) (updates cs))
  | ChangeUpdate u =>
      if negb (bool_decide (keys u = [])) || negb (bool_decide (haves u = [])) then
        let '(is_new, a) := PeerManager.register_session (from u) (id s) (pm s) in
        (with_shared (with_pm a (shared s)) s,
         mkChanges (<[from u := (true, Some is_new)]> (availability cs)) (cancels cs) (updates cs ++ [u]))
      else (s, mkChanges (availability cs) (cancels cs) (updates cs ++ [u]))
  | Availability target is_available =>
      (s, mkChanges (<[target := (is_available, None)]> (availability cs)) (cancels cs) (updates cs))
  end.

Definition update_wants_peer_availability (p : PeerId) (is_now_available : bool) (s : LoopState) : LoopState :=
  with_wants (map_imap (λ c wi, Some (if is_now_available then update_want_block_presence (bpm s) c p wi
                                      else remove_peer p wi)) (wants s)) s.

(** One peer of [process_availability]. *)
Definition process_peer (st : LoopState * list PeerId * list PeerId) (pa : PeerId * (bool * option bool)) :
    LoopState * list PeerId * list PeerId :=
  let '(s, newly_available, newly_unavailable) := st in
  let '(p, (is_now_available, is_new)) := pa in
  let changed s := with_counts (delete p (peer_consecutive_dont_haves s))
                     (update_wants_peer_availability p is_now_available s) in
  if is_now_available : bool then
    let '(is_new_peer, a) := PeerManager.add_peer_to_session (id s) p (pm s) in
    let s := with_shared (with_pm a (shared s)) s in
    if is_new_peer || default false is_new
    then (changed s, newly_available ++ [p], newly_unavailable)
    else (s, newly_available, newly_unavailable)
  else
    let '(was_available, a) := PeerManager.remove_peer_from_session (id s) p (pm s) in
    let s := with_shared (with_pm a (shared s)) s in
    if was_available then (changed s, newly_available, newly_unavailable ++ [p])
    else (s, newly_available, newly_unavailable).
Definition process_availability (av : gmap PeerId (bool * option bool)) (s : LoopState) :
    LoopState * list PeerId * list PeerId :=
  foldl process_peer (s, [], []) (iter_map av).

(** ** process_updates

    The three loops over the updates. *)
Definition update_block (p : PeerId) (st : outcome (LoopState * gset Cid)) (c : Cid) :
    outcome (LoopState * gset Cid) :=
  sb ← st;
  let '(s, block_cids) := sb in
  let block_cids := {[c]} ∪ block_cids in
  match wants s !! c with
  | Some _ =>
      t ← PeerResponseTracker.received_block_from p (peer_response_tracker s);
      mret (mk (id s) (delete c (wants s)) (delete p (peer_consecutive_dont_haves s))
              (sent_want_blocks_tracker s) t
              (with_pm (PeerManager.protect_connection (id s) p (pm s)) (shared s)) (ops s) (signals s), block_cids)
  | None => mret (s, block_cids)
  end.
Definition update_blocks (st : outcome (LoopState * gset Cid)) (u : Update) : outcome (LoopState * gset Cid) :=
  foldl (update_block (from u)) st (keys u).

Definition get_want_sent_to (c : Cid) (s : LoopState) : option PeerId := wi ← wants s !! c; sent_to wi.
Definition set_want_sent_to (c : Cid) (p : option PeerId) (s : LoopState) : LoopState :=
  with_wants (alter (λ wi, mkInfo (block_presence wi) p (best_peer wi) (exhausted wi)) c (wants s)) s.
Definition update_presence (c : Cid) (p : PeerId) (s : LoopState) : LoopState :=
  with_wants (alter (update_want_block_presence (bpm s) c p) c (wants s)) s.

Definition update_dont_have (block_cids : gset Cid) (p : PeerId) (st : LoopState * gset Cid * gset PeerId) (c : Cid) :
    LoopState * gset Cid * gset PeerId :=
  let '(s, dont_haves_, prune_peers) := st in
  let n := default 0 (peer_consecutive_dont_haves s !! p) in
  let full := bool_decide (n = PEER_DONT_HAVE_LIMIT) in
  let s := with_counts (<[p := if full then n else n + 1]> (peer_consecutive_dont_haves s)) s in
  let prune_peers := if full then {[p]} ∪ prune_peers else prune_peers in
  if bool_decide (c ∈ block_cids) then (s, dont_haves_, prune_peers)
  else
    let s := update_presence c p s in
    let s := if SentWantBlocksTracker.have_sent_want_block_to p c (sent_want_blocks_tracker s)
                && bool_decide (get_want_sent_to c s = Some p)
             then set_want_sent_to c None s else s in
    (s, {[c]} ∪ dont_haves_, prune_peers).
Definition update_dont_haves (block_cids : gset Cid) (st : LoopState * gset Cid * gset PeerId) (u : Update) :
    LoopState * gset Cid * gset PeerId :=
  foldl (update_dont_have block_cids (from u)) st (dont_haves u).

Definition update_have (block_cids : gset Cid) (p : PeerId) (st : LoopState * gset PeerId) (c : Cid) :
    LoopState * gset PeerId :=
  let '(s, prune_peers) := st in
  let s := if bool_decide (c ∈ block_cids) then s else update_presence c p s in
  (with_counts (delete p (peer_consecutive_dont_haves s)) s, prune_peers ∖ {[p]}).
Definition update_haves (block_cids : gset Cid) (st : LoopState * gset PeerId) (u : Update) :
    LoopState * gset PeerId :=
  foldl (update_have block_cids (from u)) st (haves u).

Definition process_updates (us : list Update) (s : LoopState) : outcome (gset Cid * LoopState) :=
  r ← foldl update_blocks (mret (s, ∅)) us;
  let '(s, block_cids) := r in
  let '(s, dont_haves_, prune_peers) := foldl (update_dont_haves block_cids) (s, ∅, ∅) us in
  let '(s, prune_peers) := foldl (update_haves block_cids) (s, prune_peers) us in
  let prune_peers := filter (λ p, ¬ Exists (λ c, BlockPresenceManager.peer_has_block p c (bpm s) = true)
                                      (iter_map (wants s)).*1) prune_peers in
  mret (dont_haves_, mk (id s) (wants s) (peer_consecutive_dont_haves s) (sent_want_blocks_tracker s)
          (peer_response_tracker s) (shared s) (ops s)
          (signals s ++ ((λ p, Availability p false) <$> iter_set prune_peers))).

(** ** Exhausted wants *)
Definition newly_exhausted_one (st : LoopState * list Cid) (c : Cid) : LoopState * list Cid :=
  let '(s, acc) := st in
  match wants s !! c with
  | Some wi =>
      if exhausted wi then st
      else (with_wants (<[c := mkInfo (block_presence wi) (sent_to wi) (best_peer wi) true]> (wants s)) s, acc ++ [c])
  | None => st
  end.
Definition newly_exhausted (cids : list Cid) (s : LoopState) : LoopState * list Cid :=
  foldl newly_exhausted_one (s, []) cids.

Definition process_exhausted_wants (cids : list Cid) (s : LoopState) : LoopState :=
  let '(s, newly) := newly_exhausted cids s in
  if bool_decide (newly = []) then s
  else mk (id s) (wants s) (peer_consecutive_dont_haves s) (sent_want_blocks_tracker s) (peer_response_tracker s)
          (shared s) (ops s ++ [Broadcast (list_to_set newly)]) (signals s).

Definition check_for_exhausted_wants (dont_haves_ : gset Cid) (newly_unavailable : list PeerId)
    (s : LoopState) : LoopState :=
  if bool_decide (dont_haves_ = ∅) && bool_decide (newly_unavailable = []) then s
  else
    let gone := negb (bool_decide (newly_unavailable = [])) in
    let ws : gset Cid := if gone then dont_haves_ ∪ list_to_set (iter_map (wants s)).*1 else dont_haves_ in
    if gone && negb (PeerManager.session_has_peers (id s) (pm s)) then process_exhausted_wants (iter_set ws) s
    else if bool_decide (ws = ∅) then s
    else process_exhausted_wants
           (BlockPresenceManager.all_peers_do_not_have_block
              (PeerManager.peers_for_session (id s) (pm s)) (iter_set ws) (bpm s)) s.

(** ** Sending *)
Definition get_piggyback_want_haves (p : PeerId) (blocks : gset Cid) (s : LoopState) : list Cid :=
  filter (λ c, c ∉ blocks ∧
    SentWantBlocksTracker.have_sent_want_block_to p c (sent_want_blocks_tracker s) = false)
    (iter_map (wants s)).*1.

(** One peer of [send_wants]. *)
Definition send_to_peer (s : LoopState) (ps : PeerId * WantSets) : LoopState :=
  let '(p, snd) := ps in
  let hs := want_haves snd ∪ list_to_set (get_piggyback_want_haves p (want_blocks snd) s) in
  let bs := iter_set (want_blocks snd) in
  let hs := iter_set hs in
  mk (id s) (wants s) (peer_consecutive_dont_haves s)
     (SentWantBlocksTracker.add_sent_want_blocks_to p bs (sent_want_blocks_tracker s))
     (peer_response_tracker s)
     (with_pm (PeerManager.send_wants p bs hs (pm s)) (shared s)) (ops s ++ [WantsSent (bs ++ hs)]) (signals s).
Definition send_wants (sends : gmap PeerId WantSets) (s : LoopState) : LoopState :=
  foldl send_to_peer s (iter_map sends).

(** One want of the loop of [send_next_wants]. *)
Definition next_want (newly_available session_peers : list PeerId)
    (st : gmap Cid WantInfo * gmap PeerId WantSets) (cw : Cid * WantInfo) :
    gmap Cid WantInfo * gmap PeerId WantSets :=
  let '(ws, to_send) := st in
  let '(c, wi) := cw in
  let to_send := foldl (λ m p, insert_want_have p c m) to_send newly_available in
  match sent_to wi, best_peer wi with
  | None, Some bp =>
      let ws := <[c := mkInfo (block_presence wi) (Some bp) (best_peer wi) (exhausted wi)]> ws in
      let to_send := insert_want_block bp c to_send in
      (ws, foldl (λ m op, if bool_decide (op = bp) then m else insert_want_have op c m) to_send session_peers)
  | _, _ => (ws, to_send)
  end.

Definition send_next_wants (newly_available : list PeerId) (s : LoopState) : LoopState :=
  let session_peers := PeerManager.peers_for_session (id s) (pm s) in
  let '(ws, to_send) := foldl (next_want newly_available session_peers) (wants s, ∅) (iter_map (wants s)) in
  send_wants to_send (with_wants ws s).

(** [on_change]: the changes are the one received and those that
    [collect_changes] takes from the channel. *)
Definition collect_changes (change : Change) (channel : list Change) : list Change * list Change :=
  (change :: take (CHANGES_BUFFER_SIZE - 1) channel, drop (CHANGES_BUFFER_SIZE - 1) channel).

Definition on_change (changes : list Change) (s : LoopState) : outcome LoopState :=
  let '(s, cs) := foldl apply_change (s, mkChanges ∅ [] []) changes in
  let '(s, newly_available, newly_unavailable) := process_availability (availability cs) s in
  r ← process_updates (updates cs) s;
  let '(dont_haves_, s) := r in
  let s := check_for_exhausted_wants dont_haves_ newly_unavailable s in
  let s := if bool_decide (cancels cs = []) then s
           else with_shared (cancel_session_wants (id s) (cancels cs) (shared s)) s in
  mret (if PeerManager.session_has_peers (id s) (pm s) then send_next_wants newly_available s else s).
End sender.
End SessionWantSender.
