(* ===== verification/WantSenderProofs.v ===== *)
(** * Properties of the want sender *)
From stdpp Require Import base gmap list.
From S2P Require Import Prelude Wantlist Ledger PeerWants PeerManager Interest WantSender.
Local Open Scope Z_scope.

Module WantSenderProofs.
Import SessionManager SessionWantSender.
Section proofs.
  Context {ids : Ids} {ho : HashOrder} (pick : list PeerId → nat).

(** ** The best peer

    The peer with the strongest presence, if there is one better than
    DONT_HAVE. *)
Definition best_ok (wi : WantInfo) : Prop :=
  match best_peer wi with
  | Some p => ∃ bp, block_presence wi !! p = Some bp ∧ bp ≠ DontHave ∧
      ∀ p' bp', block_presence wi !! p' = Some bp' → (bp_rank bp' <= bp_rank bp)%nat
  | None => ∀ p bp, block_presence wi !! p = Some bp → bp = DontHave
  end.

Lemma best_of_ok l : ∀ bp best n,
  let '(bp', best', n') := foldl best_of (bp, best, n) l in
  (bp_rank bp <= bp_rank bp')%nat ∧ (∀ p b, (p, b) ∈ l → (bp_rank b <= bp_rank bp')%nat) ∧
  ((bp' = bp ∧ best' = best) ∨
   ((bp_rank bp < bp_rank bp')%nat ∧ ∃ p, best' = Some p ∧ (p, bp') ∈ l)).
Proof.
  induction l as [|[p b] l IH]; intros bp best n; cbn [foldl].
  { split_and!; [lia| |by left]. intros p b H. by apply elem_of_nil in H. }
  unfold best_of at 2. simpl. case_bool_decide as H1.
  - specialize (IH b (Some p) 1%nat). destruct (foldl best_of _ l) as [[bp' best'] n'].
    destruct IH as (I1 & I2 & I3). split_and!; [lia| |].
    + intros p0 b0 [[= -> ->]|Hin]%elem_of_cons; [done|by eapply I2].
    + right. destruct I3 as [[-> ->]|[Hlt (p0 & -> & Hin)]].
      * split; [done|]. exists p. split; [done|by left].
      * split; [lia|]. exists p0. split; [done|by right].
  - assert (bp_rank b <= bp_rank bp)%nat by lia.
    set (st := if bool_decide _ then _ else _). assert (∃ n1, st = (bp, best, n1)) as [n1 ->]
      by (unfold st; case_bool_decide; by eexists).
    specialize (IH bp best n1). destruct (foldl best_of _ l) as [[bp' best'] n'].
    destruct IH as (I1 & I2 & I3). split_and!; [lia| |].
    + intros p0 b0 [[= -> ->]|Hin]%elem_of_cons; [lia|by eapply I2].
    + destruct I3 as [?|[Hlt (p0 & -> & Hin)]]; [by left|]. right. split; [lia|]. exists p0. split; [done|by right].
Qed.

Lemma calculate_best_peer_ok wi : best_ok (calculate_best_peer pick wi).
Proof.
  unfold calculate_best_peer, best_ok.
  pose proof (best_of_ok (iter_map (block_presence wi)) DontHave None 0%nat) as Hb.
  destruct (foldl best_of _ _) as [[bp best] n]. destruct Hb as (_ & Hmax & Hb). simpl.
  assert (∀ p b, block_presence wi !! p = Some b → (bp_rank b <= bp_rank bp)%nat) as Hle.
  { intros p b Hp. apply (Hmax p), elem_of_iter_map. done. }
  assert (∀ p, (p, bp) ∈ iter_map (block_presence wi) → bp ≠ DontHave → ∃ b, block_presence wi !! p = Some b ∧
    b ≠ DontHave ∧ ∀ p' b', block_presence wi !! p' = Some b' → (bp_rank b' <= bp_rank b)%nat) as Hgood.
  { intros p Hp%elem_of_iter_map Hne. exists bp. done. }
  destruct Hb as [[-> ->]|[Hlt (p & -> & Hin)]].
  - intros p b Hp%Hle. destruct b; simpl in Hp; [done|lia..].
  - assert (bp ≠ DontHave) as Hne by (intros ->; simpl in Hlt; lia).
    case_bool_decide; [by apply Hgood|]. set (ps := fst <$> _).
    assert (p ∈ ps) as Hps.
    { apply list_elem_of_fmap. exists (p, bp). split; [done|]. by apply list_elem_of_filter. }
    destruct (PeerResponseTracker.choose_some (pick ps) ps) as [q Hq]; [by intros Hn; rewrite Hn in Hps; apply elem_of_nil in Hps|].
    rewrite Hq. apply PeerResponseTracker.choose_ok in Hq. apply list_elem_of_fmap in Hq as ([q' b] & -> & Hq).
    apply list_elem_of_filter in Hq as [Hb Hq]. simpl in *. subst b. by apply Hgood.
Qed.

Lemma set_presence_ok p bp wi :
  best_ok (set_peer_block_presence pick p bp wi) ∧ sent_to (set_peer_block_presence pick p bp wi) = sent_to wi ∧
  block_presence (set_peer_block_presence pick p bp wi) = <[p := bp]> (block_presence wi).
Proof.
  unfold set_peer_block_presence.
  pose proof (calculate_best_peer_ok (mkInfo (<[p := bp]> (block_presence wi)) (sent_to wi) (best_peer wi) (exhausted wi))) as Hb.
  unfold calculate_best_peer in *. destruct (foldl best_of _ _) as [[b best] n]. simpl in *.
  by destruct (bool_decide (bp = Have)).
Qed.

Lemma drop_peer_ok p wi :
  best_ok (remove_peer pick p wi) ∧
  sent_to (remove_peer pick p wi) = (if bool_decide (sent_to wi = Some p) then None else sent_to wi).
Proof.
  split; [apply calculate_best_peer_ok|]. unfold remove_peer, calculate_best_peer. simpl.
  by destruct (foldl best_of _ _) as [[b best] n].
Qed.

(** ** Invariant of the sender

    [sent_to] is a peer that a want-block was sent to. *)
Definition want_ok (t : gmap PeerId (gset Cid)) (c : Cid) (wi : WantInfo) : Prop :=
  best_ok wi ∧ ∀ p, sent_to wi = Some p → SentWantBlocksTracker.have_sent_want_block_to p c t = true.
Definition linv (s : LoopState) : Prop := ∀ c wi, wants s !! c = Some wi → want_ok (sent_want_blocks_tracker s) c wi.

(** A want-block for [c] was sent to [p], and the answer is awaited. *)
Definition waits (c : Cid) (p : PeerId) (s : LoopState) : Prop := get_want_sent_to c s = Some p.

Lemma waits_lookup c p s : waits c p s ↔ ∃ wi, wants s !! c = Some wi ∧ sent_to wi = Some p.
Proof. unfold waits, get_want_sent_to. destruct (wants s !! c); simpl; naive_solver. Qed.

Lemma info_new_ok t c : want_ok t c WantInfo_new.
Proof. split; [|done]. intros p b. cbn. by rewrite lookup_empty. Qed.

Lemma update_presence_set m c p wi :
  ∃ b, update_want_block_presence pick m c p wi = set_peer_block_presence pick p b wi.
Proof. by eexists. Qed.

Lemma want_ok_presence t m c p wi : want_ok t c wi → want_ok t c (update_want_block_presence pick m c p wi).
Proof.
  intros [_ Hs]. destruct (update_presence_set m c p wi) as [b ->].
  destruct (set_presence_ok p b wi) as (H1 & H2 & _). split; [done|]. by rewrite H2.
Qed.

Lemma sent_to_presence m c p wi : sent_to (update_want_block_presence pick m c p wi) = sent_to wi.
Proof.
  destruct (update_presence_set m c p wi) as [b ->]. by destruct (set_presence_ok p b wi) as (_ & H2 & _).
Qed.

Lemma want_ok_info t c wi b : want_ok t c wi →
  want_ok t c (mkInfo (block_presence wi) (sent_to wi) (best_peer wi) b) ∧
  want_ok t c (mkInfo (block_presence wi) None (best_peer wi) b).
Proof. intros [H1 H2]. by split. Qed.

Lemma want_ok_drop t c p wi : want_ok t c wi → want_ok t c (remove_peer pick p wi).
Proof.
  intros [_ Hs]. destruct (drop_peer_ok p wi) as [H1 H2]. split; [done|]. intros q. rewrite H2.
  case_bool_decide; [done|apply Hs].
Qed.

(** ** Stages of [on_change]

    Every step before the sending keeps the invariant, the record of what was
    sent, and a peer manager whose queues hold what was asked of them. *)
Definition told (s : LoopState) : Prop := ∃ sp, PeerManager.sim sp (pm s).
Record stage (s s' : LoopState) : Prop := {
  stg_id : id s' = id s;
  stg_tracker : sent_want_blocks_tracker s' = sent_want_blocks_tracker s;
  stg_linv : linv s → linv s';
  stg_told : told s → told s';
}.
#[global] Instance stage_preorder : PreOrder stage.
Proof. split; [by split|]. intros a b c [H1 H2 H3 H4] [H5 H6 H7 H8]. split; [congruence|congruence|auto..]. Qed.

Lemma stage_wants ws s :
  (∀ c wi', ws !! c = Some wi' → want_ok (sent_want_blocks_tracker s) c wi' ∨
     ∃ wi, wants s !! c = Some wi ∧ ∀ t, want_ok t c wi → want_ok t c wi') →
  stage s (with_wants ws s).
Proof.
  intros Hw. split; try done. intros Hl c wi' H. destruct (Hw c wi' H) as [?|(wi & Hwi & Ht)]; [done|].
  apply Ht, Hl, Hwi.
Qed.

Lemma stage_alter f c s :
  (∀ t wi, want_ok t c wi → want_ok t c (f wi)) → stage s (with_wants (alter f c (wants s)) s).
Proof.
  intros Hf. apply stage_wants. intros c' wi'. destruct (decide (c' = c)) as [->|Hc].
  - rewrite lookup_alter_eq. intros (wi & Hwi & ->)%fmap_Some_1. right. eauto.
  - rewrite lookup_alter_ne by done. eauto.
Qed.

Lemma stage_shared sh s : (told s → ∃ sp, PeerManager.sim sp (peer_manager sh)) → stage s (with_shared sh s).
Proof. intros Hs. by split. Qed.

Lemma stage_message msg r a s :
  (∀ sp, PeerManager.spec_handle sp msg = sp) → PeerManager.handle msg (pm s) = Done (r, a) →
  stage s (with_shared (with_pm a (shared s)) s).
Proof.
  intros Hsp Hm. apply stage_shared. intros [sp Hs]. exists sp. simpl.
  destruct (PeerManager.sim_handle sp _ msg Hs) as (r' & a' & Hm' & Ha'). rewrite Hsp in Ha'. congruence.
Qed.

(** Folds that step along a preorder. *)
Lemma foldl_along {A B C} (R : C → C → Prop) `{!PreOrder R} (g : A → C) (f : A → B → A) l :
  (∀ a x, x ∈ l → R (g a) (g (f a x))) → ∀ a, R (g a) (g (foldl f a l)).
Proof.
  induction l as [|x l IH]; intros Hf a; cbn [foldl]; [reflexivity|].
  etransitivity; [apply Hf; by left|]. apply IH. intros a' y Hy. apply Hf. by right.
Qed.

Lemma foldl_keep {A B} (P : A → Prop) (f : A → B → A) l a :
  P a → (∀ a x, x ∈ l → P a → P (f a x)) → P (foldl f a l).
Proof.
  intros Ha Hf. revert a Ha. induction l as [|x l IH]; intros a Ha; cbn [foldl]; [done|].
  apply IH; [|by apply Hf; [left|]]. intros a' y Hy. apply Hf. by right.
Qed.

(** [holds c p]: a want that waits for [p] goes on waiting. *)
Definition holds (c : Cid) (p : PeerId) (s s' : LoopState) : Prop := waits c p s → waits c p s'.
#[global] Instance holds_preorder c p : PreOrder (holds c p).
Proof. split; [by intros s H|]. intros s1 s2 s3 H1 H2 H. by apply H2, H1. Qed.

Lemma holds_wants c p ws s :
  (∀ wi, wants s !! c = Some wi → ∃ wi', ws !! c = Some wi' ∧ sent_to wi' = sent_to wi) →
  holds c p s (with_wants ws s).
Proof.
  intros Hw. unfold holds. rewrite !waits_lookup. intros (wi & Hwi & Hs). destruct (Hw wi Hwi) as (wi' & ? & ?).
  exists wi'. split; [done|congruence].
Qed.

(** [shrinks]: no want is added. *)
Definition shrinks (s s' : LoopState) : Prop := ∀ c, wants s !! c = None → wants s' !! c = None.
#[global] Instance shrinks_preorder : PreOrder shrinks.
Proof. split; [by intros s c|]. intros s1 s2 s3 H1 H2 c H. by apply H2, H1. Qed.

Lemma shrinks_alter f c s : shrinks s (with_wants (alter f c (wants s)) s).
Proof. intros c' H. simpl. by rewrite lookup_alter_None. Qed.

(** The steps on one want. *)
Lemma track_want_stage peers s c : stage s (track_want pick peers s c).
Proof.
  unfold track_want. case_bool_decide; [done|]. apply stage_wants. intros c' wi'.
  destruct (decide (c' = c)) as [->|Hc]; [|rewrite lookup_insert_ne by done; eauto].
  rewrite lookup_insert_eq. intros [= <-]. left.
  apply (foldl_keep (want_ok (sent_want_blocks_tracker s) c)); [apply info_new_ok|].
  intros wi p _. apply want_ok_presence.
Qed.
Lemma track_want_holds peers s c c0 p : holds c0 p s (track_want pick peers s c).
Proof.
  unfold track_want. case_bool_decide as Hc; [done|]. apply holds_wants. intros wi Hwi. exists wi. split; [|done].
  rewrite lookup_insert_ne; [done|]. intros ->. by destruct Hc; eexists.
Qed.

Lemma untrack_stage c s : stage s (untrack_want c s).
Proof. apply stage_wants. intros c' wi' [_ H]%lookup_delete_Some. eauto. Qed.
Lemma untrack_holds c c0 p s : c0 ≠ c → holds c0 p s (untrack_want c s).
Proof. intros Hc. apply holds_wants. intros wi Hwi. exists wi. by rewrite lookup_delete_ne. Qed.

Lemma presence_stage c p s : stage s (update_presence pick c p s).
Proof. apply stage_alter. intros t wi. apply want_ok_presence. Qed.
Lemma presence_holds c p c0 p0 s : holds c0 p0 s (update_presence pick c p s).
Proof.
  apply holds_wants. intros wi Hwi. destruct (decide (c0 = c)) as [->|Hc].
  - rewrite lookup_alter_eq, Hwi. simpl. eexists. split; [done|]. apply sent_to_presence.
  - exists wi. by rewrite lookup_alter_ne.
Qed.

Lemma availability_stage p b s : stage s (update_wants_peer_availability pick p b s).
Proof.
  apply stage_wants. intros c wi'. rewrite map_lookup_imap. destruct (wants s !! c) as [wi|] eqn:E; [|done].
  simpl. intros [= <-]. right. exists wi. split; [done|]. intros t Ht.
  destruct b; [by apply want_ok_presence|by apply want_ok_drop].
Qed.
Lemma availability_holds p b c0 p0 s :
  (p = p0 → b = true) → holds c0 p0 s (update_wants_peer_availability pick p b s).
Proof.
  intros Hb. unfold holds. rewrite !waits_lookup. intros (wi & Hwi & Hs). simpl. rewrite map_lookup_imap, Hwi. simpl.
  eexists. split; [done|]. destruct b; [by rewrite sent_to_presence|].
  destruct (drop_peer_ok p wi) as [_ ->]. rewrite bool_decide_eq_false_2; [done|]. rewrite Hs. intros [= ->].
  by specialize (Hb eq_refl).
Qed.

Lemma clear_stage c s : stage s (set_want_sent_to c None s).
Proof. apply stage_alter. intros t wi H. by apply want_ok_info. Qed.
Lemma clear_holds c c0 p s : c0 ≠ c → holds c0 p s (set_want_sent_to c None s).
Proof. intros Hc. apply holds_wants. intros wi Hwi. exists wi. by rewrite lookup_alter_ne. Qed.

Lemma counts_stage d s : stage s (with_counts d s).
Proof. by split. Qed.
Lemma counts_holds d s c p : holds c p s (with_counts d s).
Proof. by intros H. Qed.

(** A step that does not touch the wants. *)
Lemma same_wants_holds s s' c p : wants s' = wants s → holds c p s s'.
Proof. intros Hw. unfold holds, waits, get_want_sent_to. by rewrite Hw. Qed.

(** ** Availability and cancels *)
Definition quiet (c : Cid) (p : PeerId) (ch : Change) : Prop :=
  match ch with
  | Add _ => True
  | Cancel cids => c ∉ cids
  | ChangeUpdate u => c ∉ keys u ∧ (from u = p → c ∉ dont_haves u)
  | Availability target is_available => target = p → is_available = true
  end.

Definition update_of (ch : Change) : option Update := match ch with ChangeUpdate u => Some u | _ => None end.

Lemma apply_change_stage st ch : stage st.1 (apply_change pick st ch).1.
Proof.
  destruct st as [s cs], ch as [cids|cids|u|p b]; simpl; [| | |done].
  - apply (foldl_along stage (λ s, s)). intros s' c _. apply track_want_stage.
  - apply (foldl_along stage (λ s, s)). intros s' c _. apply untrack_stage.
  - case_match; [|done]. destruct (PeerManager.register_session _ _ _) as [b a] eqn:E. simpl.
    apply (stage_message (PeerManager.RegisterSession (from u) (id s)) (PeerManager.Flag b)).
    + by intros [].
    + simpl. by rewrite E.
Qed.
Lemma apply_change_holds c p st ch : quiet c p ch → holds c p st.1 (apply_change pick st ch).1.
Proof.
  destruct st as [s cs], ch as [cids|cids|u|q b]; simpl; intros Hq; [| | |done].
  - apply (foldl_along (holds c p) (λ s, s)). intros s' c' _. apply track_want_holds.
  - apply (foldl_along (holds c p) (λ s, s)). intros s' c' Hc'. apply untrack_holds. by intros ->.
  - case_match; [|done]. destruct (PeerManager.register_session _ _ _) as [b a] eqn:E. by apply same_wants_holds.
Qed.

Lemma apply_changes_updates chs : ∀ st,
  updates (foldl (apply_change pick) st chs).2 = updates st.2 ++ omap update_of chs.
Proof.
  induction chs as [|ch chs IH]; intros [s cs]; cbn [foldl]; [by rewrite app_nil_r|].
  rewrite IH. destruct ch as [cids|cids|u|q b]; simpl; try done.
  destruct (_ || _); [destruct (PeerManager.register_session _ _ _)|]; simpl; by rewrite <-app_assoc.
Qed.

Lemma apply_changes_available c p chs : Forall (quiet c p) chs → ∀ st,
  (∀ o, availability st.2 !! p ≠ Some (false, o)) →
  ∀ o, availability (foldl (apply_change pick) st chs).2 !! p ≠ Some (false, o).
Proof.
  induction 1 as [|ch chs Hq _ IH]; intros st Hst; [done|]. cbn [foldl]. apply IH.
  destruct st as [s cs], ch as [cids|cids|u|q b]; simpl in *; try done.
  - destruct (_ || _); [|done]. destruct (PeerManager.register_session _ _ _) as [b a]. simpl. intros o.
    destruct (decide (from u = p)) as [->|Hne]; [by rewrite lookup_insert_eq|by rewrite lookup_insert_ne].
  - intros o. destruct (decide (q = p)) as [->|Hne]; [|by rewrite lookup_insert_ne].
    rewrite lookup_insert_eq. by rewrite Hq.
Qed.

Lemma process_peer_stage st pa : stage st.1.1 (process_peer pick st pa).1.1.
Proof.
  destruct st as [[s na] nu], pa as [p [b is_new]]. simpl. destruct b.
  - destruct (PeerManager.add_peer_to_session (id s) p (pm s)) as [n a] eqn:E.
    assert (stage s (with_shared (with_pm a (shared s)) s)) as Hs.
    { apply (stage_message (PeerManager.AddPeerToSession (id s) p) (PeerManager.Flag n)); [by intros []|].
      simpl. by rewrite E. }
    destruct (_ || _); simpl; [|done]. etransitivity; [apply Hs|]. etransitivity; [|apply counts_stage].
    apply availability_stage.
  - destruct (PeerManager.remove_peer_from_session (id s) p (pm s)) as [n a] eqn:E.
    assert (stage s (with_shared (with_pm a (shared s)) s)) as Hs.
    { apply (stage_message (PeerManager.RemovePeerFromSession (id s) p) (PeerManager.Flag n)); [by intros []|].
      simpl. by rewrite E. }
    destruct n; simpl; [|done]. etransitivity; [apply Hs|]. etransitivity; [|apply counts_stage].
    apply availability_stage.
Qed.
Lemma process_peer_holds c p st pa :
  (∀ o, pa ≠ (p, (false, o))) → holds c p st.1.1 (process_peer pick st pa).1.1.
Proof.
  intros Hpa. destruct st as [[s na] nu], pa as [q [b is_new]]. simpl. destruct b.
  - destruct (PeerManager.add_peer_to_session (id s) q (pm s)) as [n a].
    destruct (_ || _); simpl; [|by apply same_wants_holds].
    intros Hw. by apply counts_holds, availability_holds.
  - destruct (PeerManager.remove_peer_from_session (id s) q (pm s)) as [n a].
    destruct n; simpl; [|by apply same_wants_holds].
    intros Hw. apply counts_holds, availability_holds; [|done]. intros ->. by destruct (Hpa is_new).
Qed.

Lemma process_availability_stage av s : stage s (process_availability pick av s).1.1.
Proof. apply (foldl_along stage (λ st, st.1.1) _ _ (λ st pa _, process_peer_stage st pa) (s, [], [])). Qed.
Lemma process_availability_holds c p av s :
  (∀ o, av !! p ≠ Some (false, o)) → holds c p s (process_availability pick av s).1.1.
Proof.
  intros Hav. refine (foldl_along (holds c p) (λ st, st.1.1) (process_peer pick) _ _ (s, [], [])).
  intros st pa Hpa. apply process_peer_holds. intros o ->. apply elem_of_iter_map in Hpa. by apply (Hav o).
Qed.

(** ** Updates

    The counters of blocks per peer have room for [n] more. *)
Definition room (n : nat) (s : LoopState) : Prop :=
  ∀ p, 0 ≤ default 0 (peer_response_tracker s !! p) ∧
       default 0 (peer_response_tracker s !! p) + Z.of_nat n ≤ usize_max.

Record received (n : nat) (ks : list Cid) (s s' : LoopState) : Prop := {
  rcv_stage : stage s s';
  rcv_room : room n s';
  rcv_holds c p : c ∉ ks → holds c p s s';
  rcv_shrinks : shrinks s s';
  rcv_gone c : c ∈ ks → wants s' !! c = None;
}.

Lemma update_block_ok p n s bs c : room (S n) s →
  ∃ s' bs', update_block p (Done (s, bs)) c = Done (s', bs') ∧ received n [c] s s'.
Proof.
  intros Hr. unfold update_block. cbn [mbind outcome_bind]. destruct (wants s !! c) as [wi|] eqn:E.
  2: { eexists _, _. split; [done|]. split; try done; [|by intros c' ->%list_elem_of_singleton].
       intros q. specialize (Hr q). lia. }
  unfold PeerResponseTracker.received_block_from. rewrite usize_add_ok by (specialize (Hr p); lia).
  cbn [mbind outcome_bind mret outcome_ret]. eexists _, _. split; [done|]. split; simpl.
  - split; simpl; try done.
    + intros Hl c' wi' H. simpl in H. apply lookup_delete_Some in H as [_ H]. by apply Hl.
    + intros Ht. apply (stg_told _ _ (stage_message (PeerManager.ProtectConnection (id s) p) PeerManager.Nothing
        (PeerManager.protect_connection (id s) p (pm s)) s ltac:(by intros []) eq_refl) Ht).
  - intros q. simpl. destruct (decide (q = p)) as [->|Hq].
    + rewrite lookup_insert_eq. simpl. specialize (Hr p). lia.
    + rewrite lookup_insert_ne by done. specialize (Hr q). lia.
  - intros c' q Hc'. intros (wi' & Hwi' & Hs)%waits_lookup. apply waits_lookup. simpl. exists wi'.
    rewrite lookup_delete_ne; [done|]. set_solver.
  - intros c' H. simpl. by rewrite lookup_delete_None; right.
  - intros c' ->%list_elem_of_singleton. simpl. by rewrite lookup_delete_eq.
Qed.

Lemma received_trans n m k1 k2 s1 s2 s3 :
  received n k1 s1 s2 → received m k2 s2 s3 → received m (k1 ++ k2) s1 s3.
Proof.
  intros [A1 A2 A3 A4 A5] [B1 B2 B3 B4 B5]. split; [by etransitivity|done| |by etransitivity|].
  - intros c p Hc. etransitivity; [apply A3|apply B3]; set_solver.
  - intros c [Hc|Hc]%elem_of_app; [by apply B4, A5|by apply B5].
Qed.

Lemma update_keys_ok p ks : ∀ n s bs, room (length ks + n) s →
  ∃ s' bs', foldl (update_block p) (Done (s, bs)) ks = Done (s', bs') ∧ received n ks s s'.
Proof.
  induction ks as [|c ks IH]; intros n s bs Hr; cbn [foldl].
  { eexists _, _. split; [done|]. split; try done. by intros c Hc%elem_of_nil. }
  destruct (update_block_ok p (length ks + n) s bs c Hr) as (s1 & bs1 & -> & H1).
  destruct (IH n s1 bs1 (rcv_room _ _ _ _ H1)) as (s2 & bs2 & -> & H2).
  eexists _, _. split; [done|]. by apply (received_trans _ _ [c] ks _ _ _ H1).
Qed.

Lemma update_all_ok us : ∀ s bs, room (length (us ≫= keys)) s →
  ∃ s' bs', foldl update_blocks (Done (s, bs)) us = Done (s', bs') ∧ received 0 (us ≫= keys) s s'.
Proof.
  induction us as [|u us IH]; intros s bs Hr.
  { eexists _, _. split; [done|]. split; try done. by intros c Hc%elem_of_nil. }
  cbn [foldl]. unfold update_blocks at 2. cbn in Hr. rewrite length_app in Hr.
  destruct (update_keys_ok (from u) (keys u) _ s bs Hr) as (s1 & bs1 & -> & H1).
  destruct (IH s1 bs1 (rcv_room _ _ _ _ H1)) as (s2 & bs2 & -> & H2).
  eexists _, _. split; [done|]. by apply (received_trans _ _ _ _ _ _ _ H1).
Qed.

Lemma update_dont_have_stage bs p st c : stage st.1.1 (update_dont_have pick bs p st c).1.1.
Proof.
  destruct st as [[s dh] pp]. simpl. case_bool_decide; simpl; [apply counts_stage|].
  case_match; (etransitivity; [apply counts_stage|]).
  - etransitivity; [apply presence_stage|apply clear_stage].
  - apply presence_stage.
Qed.
Lemma update_dont_have_holds bs p st c c0 p0 :
  (p = p0 → c ≠ c0) → holds c0 p0 st.1.1 (update_dont_have pick bs p st c).1.1.
Proof.
  intros Hne. destruct st as [[s dh] pp]. simpl. case_bool_decide; simpl; [by intros Hw|].
  intros Hw. set (s1 := with_counts _ s). assert (waits c0 p0 (update_presence pick c p s1)) as H1
    by by apply presence_holds.
  case_match eqn:E; [|done]. apply andb_true_iff in E as [_ E%bool_decide_eq_true].
  destruct (decide (c = c0)) as [->|Hc]; [|by apply clear_holds]. unfold waits in H1. rewrite H1 in E.
  injection E as ->. by destruct (Hne eq_refl).
Qed.

Lemma update_dont_have_shrinks bs p st c : shrinks st.1.1 (update_dont_have pick bs p st c).1.1.
Proof.
  destruct st as [[s dh] pp]. simpl. case_bool_decide; simpl; [by intros c'|].
  set (s1 := with_counts _ s). assert (shrinks s (update_presence pick c p s1)) as Hs
    by (intros c' H'; by apply (shrinks_alter _ c s1)).
  case_match; [|done]. etransitivity; [apply Hs|apply shrinks_alter].
Qed.

Lemma update_dont_haves_stage bs us st : stage st.1.1 (foldl (update_dont_haves pick bs) st us).1.1.
Proof.
  apply (foldl_along stage (λ st, st.1.1)). intros st' u _.
  apply (foldl_along stage (λ st, st.1.1)). intros st'' c _. apply update_dont_have_stage.
Qed.
Lemma update_dont_haves_holds bs us st c p :
  (∀ u, u ∈ us → from u = p → c ∉ dont_haves u) → holds c p st.1.1 (foldl (update_dont_haves pick bs) st us).1.1.
Proof.
  intros Hus. apply (foldl_along (holds c p) (λ st, st.1.1)). intros st' u Hu.
  apply (foldl_along (holds c p) (λ st, st.1.1)). intros st'' c' Hc'. apply update_dont_have_holds.
  intros Hp ->. by eapply Hus.
Qed.

Lemma update_dont_haves_shrinks bs us st : shrinks st.1.1 (foldl (update_dont_haves pick bs) st us).1.1.
Proof.
  apply (foldl_along shrinks (λ st, st.1.1)). intros st' u _.
  apply (foldl_along shrinks (λ st, st.1.1)). intros st'' c _. apply update_dont_have_shrinks.
Qed.

Lemma update_have_ok bs p st c : stage st.1 (update_have pick bs p st c).1 ∧
  shrinks st.1 (update_have pick bs p st c).1 ∧ ∀ c0 p0, holds c0 p0 st.1 (update_have pick bs p st c).1.
Proof.
  destruct st as [s pp]. simpl. case_bool_decide; simpl.
  - split_and!; [apply counts_stage|by intros c'|by intros c0 p0 Hw].
  - split_and!; [etransitivity; [apply presence_stage|apply counts_stage]|apply (shrinks_alter _ c s)|].
    intros c0 p0 Hw. by apply counts_holds, presence_holds.
Qed.
Lemma update_haves_ok bs us st : stage st.1 (foldl (update_haves pick bs) st us).1 ∧
  shrinks st.1 (foldl (update_haves pick bs) st us).1 ∧ ∀ c0 p0, holds c0 p0 st.1 (foldl (update_haves pick bs) st us).1.
Proof.
  split_and!; [| |intros c0 p0].
  - apply (foldl_along stage fst). intros st' u _. apply (foldl_along stage fst). intros st'' c _. apply update_have_ok.
  - apply (foldl_along shrinks fst). intros st' u _. apply (foldl_along shrinks fst). intros st'' c _. apply update_have_ok.
  - apply (foldl_along (holds c0 p0) fst). intros st' u _. apply (foldl_along (holds c0 p0) fst). intros st'' c _.
    apply update_have_ok.
Qed.

Lemma process_updates_ok us s : room (length (us ≫= keys)) s →
  ∃ dh s', process_updates pick us s = Done (dh, s') ∧ stage s s' ∧ (∀ c, c ∈ us ≫= keys → wants s' !! c = None) ∧
    ∀ c p, c ∉ us ≫= keys → (∀ u, u ∈ us → from u = p → c ∉ dont_haves u) → holds c p s s'.
Proof.
  intros Hr. unfold process_updates. destruct (update_all_ok us s ∅ Hr) as (s1 & bs & E & [A1 _ A2 _ A3]).
  change (mret (s, ∅)) with (Done (s, ∅ : gset Cid)). rewrite E. cbn [mbind outcome_bind].
  pose proof (update_dont_haves_stage bs us (s1, ∅, ∅)) as B1.
  pose proof (update_dont_haves_holds bs us (s1, ∅, ∅)) as B2.
  pose proof (update_dont_haves_shrinks bs us (s1, ∅, ∅)) as B3.
  destruct (foldl (update_dont_haves pick bs) (s1, ∅, ∅) us) as [[s2 dh] pp]. simpl in B1, B2, B3.
  destruct (update_haves_ok bs us (s2, pp)) as (C1 & C3 & C2).
  destruct (foldl (update_haves pick bs) (s2, pp) us) as [s3 pp']. simpl in C1, C2, C3.
  eexists _, _. split; [done|]. split_and!.
  - etransitivity; [apply A1|]. etransitivity; [apply B1|]. etransitivity; [apply C1|]. by split.
  - intros c Hc. by apply C3, B3, A3.
  - intros c p Hk Hd. etransitivity; [by apply A2|]. etransitivity; [by apply B2|]. etransitivity; [apply C2|].
    by apply same_wants_holds.
Qed.

(** ** Exhausted wants and cancels *)
Lemma exhausted_ok cids s : stage s (process_exhausted_wants cids s) ∧ shrinks s (process_exhausted_wants cids s) ∧
  ∀ c p, holds c p s (process_exhausted_wants cids s).
Proof.
  assert (∀ st c, stage st.1 (newly_exhausted_one st c).1 ∧ shrinks st.1 (newly_exhausted_one st c).1 ∧
    ∀ c0 p, holds c0 p st.1 (newly_exhausted_one st c).1) as H1.
  { intros [s0 acc] c. simpl. destruct (wants s0 !! c) as [wi|] eqn:E; [|by split_and!; [|intros c0|intros c0 p Hw]].
    destruct (exhausted wi); [by split_and!; [|intros c0|intros c0 p Hw]|]. simpl. split_and!.
    - apply stage_wants. intros c' wi'. destruct (decide (c' = c)) as [->|Hc]; [|rewrite lookup_insert_ne by done; eauto].
      rewrite lookup_insert_eq. intros [= <-]. right. exists wi. split; [done|]. intros t Ht. by apply want_ok_info.
    - intros c0 H0. simpl. rewrite lookup_insert_ne; [done|]. congruence.
    - intros c0 p. apply holds_wants. intros wi0 H0. destruct (decide (c0 = c)) as [->|Hc].
      + rewrite lookup_insert_eq. eexists. split; [done|]. simpl. congruence.
      + rewrite lookup_insert_ne by done. eauto. }
  unfold process_exhausted_wants, newly_exhausted.
  pose proof (foldl_along stage fst newly_exhausted_one cids (λ st c _, proj1 (H1 st c)) (s, [])) as A1.
  pose proof (λ c p, foldl_along (holds c p) fst newly_exhausted_one cids (λ st c' _, proj2 (proj2 (H1 st c')) c p) (s, [])) as A2.
  pose proof (foldl_along shrinks fst newly_exhausted_one cids (λ st c _, proj1 (proj2 (H1 st c))) (s, [])) as A3.
  destruct (foldl newly_exhausted_one (s, []) cids) as [s' newly]. simpl in A1, A2, A3.
  case_bool_decide; [done|]. split_and!.
  - etransitivity; [apply A1|]. by split.
  - by intros c Hc%A3.
  - intros c p. etransitivity; [apply A2|]. by apply same_wants_holds.
Qed.

Lemma check_exhausted_ok dh nu s : stage s (check_for_exhausted_wants dh nu s) ∧
  shrinks s (check_for_exhausted_wants dh nu s) ∧ ∀ c p, holds c p s (check_for_exhausted_wants dh nu s).
Proof.
  unfold check_for_exhausted_wants.
  repeat (case_match; [first [apply exhausted_ok|by split_and!; [|intros c|intros c p Hw]]|]). apply exhausted_ok.
Qed.

Lemma cancels_stage cs s : stage s (with_shared (cancel_session_wants (id s) cs (shared s)) s).
Proof.
  apply stage_shared. intros [sp Hs]. unfold cancel_session_wants.
  destruct (SessionInterestManager.remove_session_interested _ _ _) as [ks m]. simpl.
  eexists. apply PeerManager.sim_send_cancels, Hs.
Qed.

(** ** Sending *)
Definition blocks_for (p : PeerId) (m : gmap PeerId WantSets) : gset Cid :=
  match m !! p with Some s => want_blocks s | None => ∅ end.

Lemma insert_have_blocks q c m p : blocks_for p (insert_want_have q c m) = blocks_for p m.
Proof.
  unfold blocks_for, insert_want_have. destruct (decide (p = q)) as [->|Hp]; [|by rewrite lookup_entry_or_ne].
  rewrite lookup_entry_or. simpl. by destruct (m !! q).
Qed.
Lemma insert_block_blocks q c m p c' :
  c' ∈ blocks_for p (insert_want_block q c m) ↔ (p = q ∧ c' = c) ∨ c' ∈ blocks_for p m.
Proof.
  unfold blocks_for, insert_want_block. destruct (decide (p = q)) as [->|Hp].
  - rewrite lookup_entry_or. simpl. destruct (m !! q); set_solver.
  - rewrite lookup_entry_or_ne by done. naive_solver.
Qed.
Lemma foldl_have_blocks {A} (f : gmap PeerId WantSets → A → gmap PeerId WantSets) l p :
  (∀ m x, blocks_for p (f m x) = blocks_for p m) → ∀ m, blocks_for p (foldl f m l) = blocks_for p m.
Proof. intros Hf. induction l as [|x l IH]; intros m; cbn [foldl]; [done|]. by rewrite IH, Hf. Qed.

(** What one pass makes of a want. *)
Definition next_info (wi : WantInfo) : WantInfo :=
  match sent_to wi, best_peer wi with
  | None, Some bp => mkInfo (block_presence wi) (Some bp) (best_peer wi) (exhausted wi)
  | _, _ => wi
  end.
Definition next_target (wi : WantInfo) : option PeerId :=
  match sent_to wi with None => best_peer wi | Some _ => None end.

Lemma next_want_ok na sps ws m c wi : ws !! c = Some wi →
  (next_want na sps (ws, m) (c, wi)).1 = <[c := next_info wi]> ws ∧
  ∀ p c', c' ∈ blocks_for p (next_want na sps (ws, m) (c, wi)).2 ↔
    (c' = c ∧ next_target wi = Some p) ∨ c' ∈ blocks_for p m.
Proof.
  intros Hc. unfold next_want, next_info, next_target.
  assert (∀ p m, blocks_for p (foldl (λ m p, insert_want_have p c m) m na) = blocks_for p m) as Hna
    by (intros p m'; apply foldl_have_blocks; intros; apply insert_have_blocks).
  destruct (sent_to wi) as [q|], (best_peer wi) as [bp|]; simpl;
    try (split; [by rewrite insert_id|]; intros p c'; rewrite Hna; naive_solver).
  split; [done|]. intros p c'. rewrite foldl_have_blocks; [|intros; case_bool_decide; [done|apply insert_have_blocks]].
  rewrite insert_block_blocks, Hna. naive_solver.
Qed.

Lemma next_wants_ok na sps l : ∀ ws m, NoDup l.*1 → (∀ c wi, (c, wi) ∈ l → ws !! c = Some wi) →
  (∀ c, (foldl (next_want na sps) (ws, m) l).1 !! c =
        if decide (c ∈ l.*1) then next_info <$> ws !! c else ws !! c) ∧
  ∀ p c, c ∈ blocks_for p (foldl (next_want na sps) (ws, m) l).2 ↔
    (∃ wi, (c, wi) ∈ l ∧ next_target wi = Some p) ∨ c ∈ blocks_for p m.
Proof.
  induction l as [|[c wi] l IH]; intros ws m Hnd Hl; cbn [foldl].
  { split; [done|]. intros p c. set_solver. }
  apply NoDup_cons in Hnd as [Hc Hnd]. simpl in Hc.
  destruct (next_want_ok na sps ws m c wi) as [E1 E2]; [apply Hl; by left|].
  destruct (next_want na sps (ws, m) (c, wi)) as [ws1 m1]. simpl in E1, E2. subst ws1.
  destruct (IH (<[c := next_info wi]> ws) m1 Hnd) as [I1 I2].
  { intros c' wi' H. rewrite lookup_insert_ne; [apply Hl; by right|]. intros ->. apply Hc, list_elem_of_fmap. by exists (c', wi'). }
  split.
  - intros c'. rewrite I1. destruct (decide (c' = c)) as [->|Hne].
    + rewrite decide_False by done. rewrite decide_True by (simpl; by left).
      rewrite lookup_insert_eq, (Hl c wi) by (by left). done.
    + rewrite lookup_insert_ne by done. simpl. repeat case_decide; set_solver.
  - intros p c'. rewrite I2, E2. split.
    + intros [(wi' & H & Ht)|[[-> Ht]|H]]; [left; exists wi'; by split; [right|]|left; exists wi; by split; [left|]|by right].
    + intros [(wi' & [[= -> ->]|H]%elem_of_cons & Ht)|H]; naive_solver.
Qed.

(** The queue of [p], if it is connected, holds a want-block for [c]. *)
Definition block_asked (p : PeerId) (c : Cid) (s : LoopState) : Prop :=
  ∀ st, PeerManager.peers (pm s) !! p = Some st →
    QueueHandle.demand (QueueHandle.inbox (PeerManager.message_queue st)) !! c = Some Block.

Lemma send_to_peer_ok s q sets :
  let s' := send_to_peer s (q, sets) in
  id s' = id s ∧ wants s' = wants s ∧
  (∀ p c, SentWantBlocksTracker.have_sent_want_block_to p c (sent_want_blocks_tracker s') = true ↔
     (p = q ∧ c ∈ want_blocks sets) ∨
     SentWantBlocksTracker.have_sent_want_block_to p c (sent_want_blocks_tracker s) = true) ∧
  (told s → told s' ∧ ∀ p c, (p = q ∧ c ∈ want_blocks sets) ∨ block_asked p c s → block_asked p c s').
Proof.
  cbv zeta. split_and!; [done|done| |].
  - intros p c. simpl. rewrite SentWantBlocksTracker.sent_to_ok. by rewrite elem_of_iter_set.
  - intros [sp Hs]. cbn [send_to_peer]. set (bs := iter_set (want_blocks sets)). set (hs := iter_set _).
    pose proof (PeerManager.sim_send_wants sp (pm s) q bs hs Hs) as Hs'. split; [by eexists|].
    intros p c Hpc st Hst. simpl in Hst. pose proof (PeerManager.sim_wants _ _ Hs' p) as Hw.
    unfold pm in *. simpl in *. rewrite Hst in Hw. pose proof (PeerManager.sim_wants _ _ Hs p) as Hw0.
    destruct sp as [bw ws]. simpl in *. destruct (decide (p = q)) as [->|Hne].
    + rewrite lookup_alter_eq, Hw0 in Hw. apply fmap_Some_1 in Hw as (d & Hd & ->). simpl.
      apply fmap_Some_1 in Hd as (st0 & Hst0 & ->). rewrite lookup_union_Some_raw.
      destruct (decide (c ∈ bs)) as [Hc|Hc]; [left; apply lookup_gset_to_gmap_Some; set_solver|].
      right. split; [apply lookup_gset_to_gmap_None; set_solver|]. apply lookup_union_Some_raw. left.
      destruct Hpc as [[_ H]|H]; [by rewrite <-elem_of_iter_set in H|]. by apply H.
    + rewrite lookup_alter_ne, Hw0 in Hw by done. apply fmap_Some_1 in Hw as (st0 & Hst0 & ->).
      destruct Hpc as [[-> _]|H]; [done|]. by apply H.
Qed.

Lemma send_all_ok l : ∀ s, NoDup l.*1 →
  let s' := foldl send_to_peer s l in
  id s' = id s ∧ wants s' = wants s ∧
  (∀ p c, SentWantBlocksTracker.have_sent_want_block_to p c (sent_want_blocks_tracker s') = true ↔
     c ∈ blocks_for p (list_to_map l) ∨
     SentWantBlocksTracker.have_sent_want_block_to p c (sent_want_blocks_tracker s) = true) ∧
  (told s → told s' ∧ ∀ p c, c ∈ blocks_for p (list_to_map l) ∨ block_asked p c s → block_asked p c s').
Proof.
  induction l as [|[q sets] l IH]; intros s Hnd; cbn [foldl list_to_map].
  { assert (∀ p c, c ∉ blocks_for p (list_to_map [])) as Hn by (intros p c; unfold blocks_for; simpl; rewrite lookup_empty; set_solver).
    cbv zeta. split_and!; [done..| |].
    - intros p c. specialize (Hn p c). tauto.
    - intros Ht. split; [done|]. intros p c. specialize (Hn p c). tauto. }
  apply NoDup_cons in Hnd as [Hq Hnd]. destruct (send_to_peer_ok s q sets) as (A1 & A2 & A3 & A4).
  destruct (IH (send_to_peer s (q, sets)) Hnd) as (B1 & B2 & B3 & B4). cbv zeta.
  assert (∀ p c, c ∈ blocks_for p (list_to_map ((q, sets) :: l)) ↔
    (p = q ∧ c ∈ want_blocks sets) ∨ c ∈ blocks_for p (list_to_map l)) as Hb.
  { intros p c. unfold blocks_for. simpl. destruct (decide (p = q)) as [->|Hne].
    - rewrite lookup_insert_eq, (not_elem_of_list_to_map_1 l q) by done. set_solver.
    - rewrite lookup_insert_ne by done. naive_solver. }
  split_and!; [congruence|congruence| |].
  - intros p c. rewrite B3, A3, Hb. tauto.
  - intros Ht. destruct (A4 Ht) as [At A5]. destruct (B4 At) as [Bt B5]. split; [done|].
    intros p c Hpc. apply B5. rewrite Hb in Hpc. destruct Hpc as [[?|?]|?]; auto.
Qed.

Record sent_next (s s' : LoopState) : Prop := {
  sn_id : id s' = id s;
  sn_wants c : wants s' !! c = next_info <$> wants s !! c;
  sn_tracker p c : SentWantBlocksTracker.have_sent_want_block_to p c (sent_want_blocks_tracker s') = true ↔
    (∃ wi, wants s !! c = Some wi ∧ next_target wi = Some p) ∨
    SentWantBlocksTracker.have_sent_want_block_to p c (sent_want_blocks_tracker s) = true;
  sn_told : told s → told s';
  sn_asked p c wi : told s → wants s !! c = Some wi → next_target wi = Some p → block_asked p c s';
}.

Lemma send_next_wants_ok na s : sent_next s (send_next_wants na s).
Proof.
  unfold send_next_wants.
  destruct (next_wants_ok na (PeerManager.peers_for_session (id s) (pm s)) (iter_map (wants s)) (wants s) ∅)
    as [H1 H2]; [apply NoDup_iter_map_keys|by intros c wi H%elem_of_iter_map|].
  destruct (foldl (next_want _ _) (wants s, ∅) _) as [ws m]. simpl in H1, H2. unfold send_wants.
  destruct (send_all_ok (iter_map m) (with_wants ws s) (NoDup_iter_map_keys m)) as (A1 & A2 & A3 & A4).
  rewrite list_to_map_iter in A3, A4. set (s' := foldl send_to_peer _ _) in *.
  assert (∀ p c, c ∈ blocks_for p m ↔ ∃ wi, wants s !! c = Some wi ∧ next_target wi = Some p) as Hb.
  { intros p c. rewrite H2. unfold blocks_for at 1. rewrite lookup_empty. setoid_rewrite elem_of_iter_map. set_solver. }
  split; [done| | | |].
  - intros c. rewrite A2. simpl. rewrite H1. case_decide as Hc; [done|].
    destruct (wants s !! c) as [wi|] eqn:E; [|done]. destruct Hc. apply list_elem_of_fmap. exists (c, wi).
    by rewrite elem_of_iter_map.
  - intros p c. by rewrite A3, Hb.
  - intros Ht. by apply A4.
  - intros p c wi Ht Hwi Hn. apply A4; [done|]. left. apply Hb. eauto.
Qed.

Lemma next_linv s s' : sent_next s s' → linv s → linv s'.
Proof.
  intros Hn Hl c wi'. rewrite (sn_wants _ _ Hn). intros (wi & Hwi & ->)%fmap_Some_1.
  destruct (Hl c wi Hwi) as [Hb Hs].
  split; [unfold next_info; destruct (sent_to wi); [done|]; unfold best_ok in *; by destruct (best_peer wi) eqn:E; simpl; rewrite ?E|]. intros p Hp. apply (sn_tracker _ _ Hn).
  unfold next_info in Hp. destruct (sent_to wi) as [q|] eqn:E; [right; apply Hs; congruence|].
  destruct (best_peer wi) as [bp|] eqn:E2; [|congruence]. simpl in Hp. left. exists wi. split; [done|].
  unfold next_target. rewrite E. congruence.
Qed.

(** ** A whole round *)
Lemma foldl_same {A B C} (g : A → C) (f : A → B → A) l :
  (∀ a x, g (f a x) = g a) → ∀ a, g (foldl f a l) = g a.
Proof. intros Hf. induction l as [|x l IH]; intros a; cbn [foldl]; [done|]. by rewrite IH. Qed.

Lemma apply_change_responses st ch :
  peer_response_tracker (apply_change pick st ch).1 = peer_response_tracker st.1.
Proof.
  destruct st as [s cs], ch as [cids|cids|u|p b]; simpl; [| | |done].
  - apply (foldl_same peer_response_tracker). intros s' c. unfold track_want. by case_bool_decide.
  - by apply (foldl_same peer_response_tracker).
  - case_match; [|done]. by destruct (PeerManager.register_session _ _ _).
Qed.
Lemma process_peer_responses st pa :
  peer_response_tracker (process_peer pick st pa).1.1 = peer_response_tracker st.1.1.
Proof.
  destruct st as [[s na] nu], pa as [p [b is_new]]. simpl. destruct b.
  - destruct (PeerManager.add_peer_to_session _ _ _) as [n a]. by destruct (_ || _).
  - destruct (PeerManager.remove_peer_from_session _ _ _) as [n a]. by destruct n.
Qed.

Lemma quiet_updates c p chs : Forall (quiet c p) chs →
  c ∉ omap update_of chs ≫= keys ∧ ∀ u, u ∈ omap update_of chs → from u = p → c ∉ dont_haves u.
Proof.
  intros Hq. assert (∀ u, u ∈ omap update_of chs → quiet c p (ChangeUpdate u)) as Hu.
  { intros u (ch & Hch & E)%list_elem_of_omap. eapply Forall_forall in Hch; [|done]. destruct ch; simplify_eq/=. done. }
  split.
  - intros (u & Hc & H)%list_elem_of_bind. by apply Hu in H as [? _].
  - intros u H. by apply Hu.
Qed.

(** Up to the updates. *)
Lemma before_updates chs s :
  let st := foldl (apply_change pick) (s, mkChanges ∅ [] []) chs in
  let s2 := (process_availability pick (availability st.2) st.1).1.1 in
  stage s s2 ∧ updates st.2 = omap update_of chs ∧ peer_response_tracker s2 = peer_response_tracker s ∧
  ∀ c p, Forall (quiet c p) chs → holds c p s s2.
Proof.
  cbv zeta. set (st0 := (s, mkChanges ∅ [] [])). split_and!.
  - etransitivity; [|apply process_availability_stage].
    apply (foldl_along stage fst (apply_change pick) chs (λ st ch _, apply_change_stage st ch) st0).
  - apply apply_changes_updates.
  - unfold process_availability.
    etransitivity; [apply (foldl_same (λ st, peer_response_tracker st.1.1)); intros; apply process_peer_responses|].
    apply (foldl_same (λ st, peer_response_tracker st.1) (apply_change pick) chs apply_change_responses st0).
  - intros c p Hq. etransitivity.
    + refine (foldl_along (holds c p) fst (apply_change pick) chs _ st0). intros st ch Hch.
      apply apply_change_holds. by eapply Forall_forall in Hch.
    + apply process_availability_holds, (apply_changes_available c p chs Hq). intros o. simpl. by rewrite lookup_empty.
Qed.

Lemma on_change_ok chs s : room (length (omap update_of chs ≫= keys)) s →
  ∃ s1 s', on_change pick chs s = Done s' ∧ stage s s1 ∧
    (if PeerManager.session_has_peers (id s1) (pm s1) then sent_next s1 s' else s' = s1) ∧
    (∀ c, c ∈ omap update_of chs ≫= keys → wants s' !! c = None) ∧
    ∀ c p, Forall (quiet c p) chs → holds c p s s1.
Proof.
  intros Hr. unfold on_change. destruct (before_updates chs s) as (A1 & Hu & Hresp & A2).
  destruct (foldl (apply_change pick) _ chs) as [s1 cs]. simpl in *.
  destruct (process_availability pick (availability cs) s1) as [[s2 na] nu]. simpl in *. rewrite Hu.
  destruct (process_updates_ok (omap update_of chs) s2) as (dh & s3 & -> & B1 & B3 & B2).
  { unfold room. by rewrite Hresp. }
  cbn [mbind outcome_bind]. destruct (check_exhausted_ok dh nu s3) as (C1 & C3 & C2).
  set (s4 := check_for_exhausted_wants dh nu s3) in *. set (s5 := if bool_decide (cancels cs = []) then _ else _).
  assert (stage s4 s5 ∧ wants s5 = wants s4 ∧ ∀ c p, holds c p s4 s5) as (D1 & D3 & D2).
  { unfold s5. case_bool_decide; [by split_and!; [| |intros c p Hw]|].
    split_and!; [apply cancels_stage|done|intros c p; by apply same_wants_holds]. }
  eexists s5, _. split; [done|]. split_and!.
  - etransitivity; [apply A1|]. etransitivity; [apply B1|]. by etransitivity.
  - destruct (PeerManager.session_has_peers (id s5) (pm s5)); [apply send_next_wants_ok|done].
  - intros c Hc. assert (wants s5 !! c = None) as H5 by (rewrite D3; by apply C3, B3).
    destruct (PeerManager.session_has_peers (id s5) (pm s5)); [|done].
    rewrite (sn_wants _ _ (send_next_wants_ok na s5)). by rewrite H5.
  - intros c p Hq. destruct (quiet_updates c p chs Hq) as [Q1 Q2].
    etransitivity; [by apply A2|]. etransitivity; [by apply B2|]. etransitivity; [apply C2|apply D2].
Qed.
End proofs.
End WantSenderProofs.
