(* ===== verification/WantSenderClaims.v ===== *)
(** * What the want sender guarantees

    The claims about client/session/session_want_sender.rs and the cancelling of
    client/session_manager.rs, from the stages of WantSenderProofs. *)
From stdpp Require Import base gmap list.
From S2P Require Import Prelude Wantlist Ledger PeerWants PeerManager Interest WantSender WantSenderProofs.
Local Open Scope Z_scope.

Module WantSenderClaims.
Import SessionManager SessionWantSender WantSenderProofs.
Section claims.
  Context {ids : Ids} {ho : HashOrder} (pick : list PeerId → nat).

(** ** The sender among the others

    Between two rounds the shared managers are used by everyone else: they may
    change in any way that leaves the peer manager one that tells its peers what
    it is asked to. *)
Inductive step : LoopState → LoopState → Prop :=
  | step_change chs s s' :
      room (length (omap update_of chs ≫= keys)) s → on_change pick chs s = Done s' → step s s'
  | step_others sh s : (∃ sp, PeerManager.sim sp (peer_manager sh)) → step s (with_shared sh s).

Definition reachable (s : LoopState) : Prop :=
  ∃ session sh, (∃ sp, PeerManager.sim sp (peer_manager sh)) ∧ rtc step (new session sh) s.

Lemma sender_linv s s' : step s s' → linv s ∧ told s → linv s' ∧ told s'.
Proof.
  intros [chs s0 s1 Hr Hd|sh s0 Hsh] [Hl Ht]; [|split; [exact Hl|exact Hsh]].
  destruct (on_change_ok pick chs s0 Hr) as (s2 & s3 & E & Hst & Hn & _). rewrite E in Hd. injection Hd as ->.
  pose proof (stg_linv _ _ Hst Hl) as Hl2. pose proof (stg_told _ _ Hst Ht) as Ht2.
  destruct (PeerManager.session_has_peers _ _); [|by subst s1].
  split; [by apply (next_linv s2)|by apply (sn_told _ _ Hn)].
Qed.

Lemma sender_reachable s : reachable s → linv s ∧ told s.
Proof.
  intros (session & sh & Hsh & Hr).
  assert (linv (new session sh) ∧ told (new session sh)) as H0 by (split; [intros c wi; simpl; by rewrite lookup_empty|done]).
  revert H0. induction Hr as [|s1 s2 s3 H1 _ IH]; intros H0; [done|]. apply IH. by eapply sender_linv.
Qed.

(** C13: a round of the want sender ends without a panic as long as the counters
    of received blocks have room, and if the session still has peers then every
    want is with a peer that a want-block for it was sent to, or all the peers
    that are known for it lack the block; and whatever is newly recorded as
    sent is a want-block in the queue of that peer, if it is connected. *)
Theorem want_sender_progress (chs : list Change) (s : LoopState) :
  reachable s → room (length (omap update_of chs ≫= keys)) s →
  ∃ s', on_change pick chs s = Done s' ∧
    (PeerManager.session_has_peers (id s') (pm s') = true →
     ∀ c wi, wants s' !! c = Some wi →
       match sent_to wi with
       | Some p => SentWantBlocksTracker.have_sent_want_block_to p c (sent_want_blocks_tracker s') = true
       | None => ∀ p b, block_presence wi !! p = Some b → b = DontHave
       end) ∧
    ∀ p c, SentWantBlocksTracker.have_sent_want_block_to p c (sent_want_blocks_tracker s') = true →
           SentWantBlocksTracker.have_sent_want_block_to p c (sent_want_blocks_tracker s) = false →
           block_asked p c s'.
Proof.
  intros [Hl Ht]%sender_reachable Hr. destruct (on_change_ok pick chs s Hr) as (s1 & s' & E & Hst & Hn & _).
  exists s'. split; [done|]. pose proof (stg_linv _ _ Hst Hl) as Hl1. pose proof (stg_told _ _ Hst Ht) as Ht1.
  destruct (PeerManager.session_has_peers (id s1) (pm s1)) eqn:Ep.
  2: { subst s'. split; [congruence|]. intros p c. rewrite (stg_tracker _ _ Hst). congruence. }
  pose proof (next_linv _ _ Hn Hl1) as Hl'. split.
  - intros _ c wi Hwi. destruct (Hl' c wi Hwi) as [Hb Hs]. destruct (sent_to wi) as [p|] eqn:Es; [by apply Hs|].
    unfold best_ok in Hb. rewrite (sn_wants _ _ Hn) in Hwi. apply fmap_Some_1 in Hwi as (wi0 & _ & ->).
    unfold next_info in *. destruct (sent_to wi0) as [q|] eqn:E0; [congruence|].
    destruct (best_peer wi0) eqn:E1; [done|]. by rewrite E1 in Hb.
  - intros p c Hs Hf. apply (sn_tracker _ _ Hn) in Hs as [(wi & Hwi & Htg)|Hs].
    + by eapply (sn_asked _ _ Hn).
    + rewrite (stg_tracker _ _ Hst) in Hs. congruence.
Qed.

(** ** A want whose peer is gone

    Rounds with news of any kind but about this want from this peer, and
    anything the others do. *)
Inductive quiet_step (c : Cid) (p : PeerId) : LoopState → LoopState → Prop :=
  | quiet_change chs s s' :
      Forall (quiet c p) chs → room (length (omap update_of chs ≫= keys)) s →
      on_change pick chs s = Done s' → quiet_step c p s s'
  | quiet_others sh s : quiet_step c p s (with_shared sh s).

Lemma quiet_step_ok c p s s' : quiet_step c p s s' → waits c p s →
  waits c p s' ∧ ∀ q, SentWantBlocksTracker.have_sent_want_block_to q c (sent_want_blocks_tracker s') =
                      SentWantBlocksTracker.have_sent_want_block_to q c (sent_want_blocks_tracker s).
Proof.
  intros [chs s0 s1 Hq Hr Hd|sh s0] Hw; [|done].
  destruct (on_change_ok pick chs s0 Hr) as (s2 & s3 & E & Hst & Hn & _ & Hh). rewrite E in Hd. injection Hd as ->.
  specialize (Hh c p Hq Hw). rewrite <-(stg_tracker _ _ Hst).
  destruct (PeerManager.session_has_peers _ _); [|by subst s1].
  apply waits_lookup in Hh as (wi & Hwi & Hs). split.
  - apply waits_lookup. rewrite (sn_wants _ _ Hn), Hwi. simpl. eexists. split; [done|]. unfold next_info. by rewrite Hs.
  - intros q. apply eq_true_iff_eq. rewrite (sn_tracker _ _ Hn). split; [|by right].
    intros [(wi' & Hwi' & Ht)|?]; [|done]. rewrite Hwi in Hwi'. injection Hwi' as <-. unfold next_target in Ht.
    by rewrite Hs in Ht.
Qed.

(** A want that was sent to a peer stays with that peer, and no other peer is
    sent a want-block for it, until it is cancelled, the block comes, that peer
    answers DONT_HAVE or is signalled unavailable; and the peer manager never
    signals that a peer became unavailable, not when it disconnects either. *)
Theorem want_waits_for_its_peer (c : Cid) (p : PeerId) (s s' : LoopState) :
  waits c p s → rtc (quiet_step c p) s s' →
  waits c p s' ∧
  (∀ q, SentWantBlocksTracker.have_sent_want_block_to q c (sent_want_blocks_tracker s') =
        SentWantBlocksTracker.have_sent_want_block_to q c (sent_want_blocks_tracker s)) ∧
  ∀ a session b, rtc PeerManager.step PeerManager.new a →
    PeerManager.SignalAvailability session p b ∉ PeerManager.calls a.
Proof.
  intros Hw Hr. assert (waits c p s' ∧ ∀ q, SentWantBlocksTracker.have_sent_want_block_to q c (sent_want_blocks_tracker s') =
        SentWantBlocksTracker.have_sent_want_block_to q c (sent_want_blocks_tracker s)) as [H1 H2].
  { induction Hr as [|s1 s2 s3 H1 _ IH]; [done|]. destruct (quiet_step_ok _ _ _ _ H1 Hw) as [Hw2 E].
    destruct (IH Hw2) as [Hw3 E3]. split; [done|]. intros q. by rewrite E3, E. }
  split_and!; [done..|]. intros a session b. apply PeerManager.no_availability_signal.
Qed.

(** Cancelling the wants of a session withdraws its interest and no other
    session's, and takes back from every connected peer exactly those of the
    blocks in which no session is interested any more. *)
Theorem cancel_session_wants_exact (session : Z) (wants : list Cid) (s : Shared) (sp : PeerManager.Spec) :
  SessionInterestManager.inv (session_interest_manager s) → PeerManager.sim sp (peer_manager s) →
  let s' := cancel_session_wants session wants s in
  let still k := SessionInterestManager.interested (session_interest_manager s') k in
  (∀ t k, SessionInterestManager.status (session_interest_manager s') t k =
     if bool_decide (t = session) && bool_decide (k ∈ wants) then None
     else SessionInterestManager.status (session_interest_manager s) t k) ∧
  ∀ p st, PeerManager.peers (peer_manager s) !! p = Some st →
    ∃ st', PeerManager.peers (peer_manager s') !! p = Some st' ∧
      let asked x k := QueueHandle.demand (QueueHandle.inbox (PeerManager.message_queue x)) !! k in
      ∀ k, (asked st' k = asked st k ∨ asked st' k = None) ∧
        (asked st' k ≠ asked st k → k ∈ wants ∧ ¬ still k) ∧
        (k ∈ wants → SessionInterestManager.interested (session_interest_manager s) k → ¬ still k → asked st' k = None).
Proof.
  intros Hi Hs. unfold cancel_session_wants.
  pose proof (SessionInterestManager.remove_session_interested_ok session wants _ Hi) as Hw.
  destruct (SessionInterestManager.remove_session_interested _ _ _) as [ks m]. simpl.
  destruct Hw as [_ Hst Hdel]. split; [done|].
  pose proof (PeerManager.sim_send_cancels sp _ ks Hs) as Hs'. intros p st Hp.
  pose proof (PeerManager.sim_wants _ _ Hs p) as H0. pose proof (PeerManager.sim_wants _ _ Hs' p) as H1.
  rewrite Hp in H0. destruct sp as [bw ws]. simpl in H0, H1. rewrite lookup_fmap, H0 in H1. simpl in H1.
  symmetry in H1. apply fmap_Some_1 in H1 as (st' & Hp' & E). exists st'. split; [done|]. intros k. simpl. rewrite <-E.
  specialize (Hdel k). rewrite bool_decide_eq_true in Hdel. rewrite map_lookup_filter.
  destruct (QueueHandle.demand _ !! k) as [t|]; simpl; [|split_and!; [by left|done|done]].
  destruct (decide (k ∈ ks)) as [Hk|Hk].
  - rewrite option_guard_False by set_solver. split_and!; [by right|naive_solver|done].
  - rewrite option_guard_True by set_solver. split_and!; [by left|done|]. naive_solver.
Qed.
End claims.
End WantSenderClaims.

Module WantSenderWitness.
Import SessionManager SessionWantSender WantSenderProofs WantSenderClaims.
#[local] Existing Instance nat_ids.
#[local] Existing Instance key_order.
Local Open Scope nat_scope.

Definition first : list PeerId → nat := λ _, 0%nat.
(** Peers 1 and 2 are connected and belong to session 5, which is interested, as
    session 6 is, in block 8. *)
Definition demo_messages : list PeerManager.Message :=
  [PeerManager.Connected (1 : PeerId); PeerManager.Connected (2 : PeerId);
   PeerManager.RegisterSession (1 : PeerId) 5%Z; PeerManager.RegisterSession (2 : PeerId) 5%Z].
Definition demo_manager : PeerManager.PeerManagerActor :=
  run_or PeerManager.new (PeerManager.run demo_messages PeerManager.new).
Definition demo_interest : gmap Cid (gmap Z bool) :=
  SessionInterestManager.record_session_interest 6%Z [8 : Cid]
    (SessionInterestManager.record_session_interest 5%Z [7 : Cid; 8 : Cid] ∅).
Definition demo_shared : Shared := mkShared demo_interest ∅ demo_manager.
Definition demo_start : LoopState := new 5%Z demo_shared.
Definition demo_block : Cid := 7.
Definition demo_peer : PeerId := 2.
Definition demo_keys : list Cid := [7 : Cid; 8 : Cid].
Definition demo_add : list Change := [Add demo_keys].
Definition demo_sent : LoopState := run_or demo_start (on_change first demo_add demo_start).
Definition demo_spec : PeerManager.Spec :=
  foldl PeerManager.spec_handle (PeerManager.mkSpec ∅ ∅) demo_messages.

Lemma demo_sim : PeerManager.sim demo_spec demo_manager.
Proof.
  unfold demo_manager. destruct (PeerManager.sim_run demo_messages _ _ PeerManager.sim_new) as (a & -> & Ha). exact Ha.
Qed.

Lemma demo_room n s : peer_response_tracker s = ∅ → (Z.of_nat n ≤ usize_max)%Z → room n s.
Proof. intros E Hn p. rewrite E, lookup_empty. simpl. lia. Qed.

(** The first peer is asked for both blocks. *)
Lemma want_sender_progress_witness :
  ∃ s', on_change first demo_add demo_start = Done s' ∧
    size (wants s') = 2%nat ∧ block_asked (2 : PeerId) (7 : Cid) s' ∧
    is_Some (PeerManager.peers (pm s') !! demo_peer).
Proof.
  destruct (want_sender_progress first demo_add demo_start) as (s' & E & _ & H).
  - exists 5%Z, demo_shared. split; [exists demo_spec; apply demo_sim|apply rtc_refl].
  - apply demo_room; [by vm_compute|vm_compute; discriminate].
  - exists s'. split; [done|]. assert (s' = demo_sent) as -> by (unfold demo_sent; by rewrite E).
    split_and!; [by vm_compute| |by vm_compute; eexists]. apply H; by vm_compute.
Defined.

(** The peer that was asked disconnects; the other one then offers both blocks
    and is still not asked for them. *)
Definition demo_gone : LoopState :=
  with_shared (mkShared demo_interest (BlockPresenceManager.receive_from (1 : PeerId) [7 : Cid; 8 : Cid] [] ∅)
                 (PeerManager.disconnected (2 : PeerId) (pm demo_sent))) demo_sent.
Definition demo_offer : list Change := [ChangeUpdate (mkUpdate (1 : PeerId) [] [7 : Cid; 8 : Cid] [])].
Definition demo_stuck : LoopState := run_or demo_gone (on_change first demo_offer demo_gone).

Lemma want_waits_for_its_peer_witness :
  waits demo_block demo_peer demo_stuck ∧
  SentWantBlocksTracker.have_sent_want_block_to (1 : PeerId) demo_block (sent_want_blocks_tracker demo_stuck) = false ∧
  PeerManager.peers (pm demo_stuck) !! demo_peer = None.
Proof.
  destruct (want_waits_for_its_peer first demo_block demo_peer demo_sent demo_stuck) as (H1 & H2 & _).
  - by vm_compute.
  - eapply rtc_l; [apply quiet_others|]. eapply rtc_l; [|apply rtc_refl].
    apply (quiet_change first demo_block demo_peer demo_offer demo_gone demo_stuck).
    + apply Forall_cons. split; [|by apply Forall_nil]. split; [by apply not_elem_of_nil|done].
    + apply demo_room; [by vm_compute|vm_compute; discriminate].
    + by vm_compute.
  - split_and!; [done| |by vm_compute]. rewrite H2. by vm_compute.
Defined.

(** Session 5 cancels both blocks: only the one that session 6 does not want is
    taken back from the peer. *)
Definition demo_sends : list PeerManager.Message :=
  [PeerManager.SendWantsTo (1 : PeerId) [] [8 : Cid; 7 : Cid]; PeerManager.SendWantsTo (2 : PeerId) [8 : Cid; 7 : Cid] []].

Lemma demo_sent_sim : ∃ sp, PeerManager.sim sp (peer_manager (shared demo_sent)).
Proof.
  destruct (PeerManager.sim_run (demo_messages ++ demo_sends) _ _ PeerManager.sim_new) as (a & Ha & Hs).
  eexists. enough (peer_manager (shared demo_sent) = a) as -> by exact Hs.
  assert (Done (peer_manager (shared demo_sent)) = Done a) as [= ->] by (rewrite <-Ha; by vm_compute). done.
Qed.

Lemma demo_interest_inv : SessionInterestManager.inv (session_interest_manager (shared demo_sent)).
Proof. apply (SessionInterestManager.record_inv 6%Z), SessionInterestManager.record_inv. intros key. by rewrite lookup_empty. Qed.

Lemma cancel_session_wants_witness :
  ∃ st, PeerManager.peers (peer_manager (cancel_session_wants 5%Z demo_keys (shared demo_sent))) !! demo_peer = Some st ∧
    QueueHandle.demand (QueueHandle.inbox (PeerManager.message_queue st)) = {[ (8 : Cid) := Block ]}.
Proof.
  destruct demo_sent_sim as [sp Hs].
  destruct (cancel_session_wants_exact 5%Z demo_keys (shared demo_sent) sp demo_interest_inv Hs) as [_ H].
  destruct (PeerManager.peers (peer_manager (shared demo_sent)) !! demo_peer) as [st0|] eqn:E; [|by vm_compute in E].
  destruct (H demo_peer st0 E) as (st & Hst & _). exists st. split; [done|].
  assert ((λ st, QueueHandle.demand (QueueHandle.inbox (PeerManager.message_queue st))) <$> Some st =
    Some {[ (8 : Cid) := Block ]}) as [= ->]; [|done].
  rewrite <-Hst. by vm_compute.
Defined.
End WantSenderWitness.
