(* ===== verification/Session.v ===== *)
(** * A session of the bitswap client

    packages/beetle-bitswap-next/src/client/session.rs: the operations of the
    event loop of a session, and the task behind [get_blocks] that hands blocks to
    its caller.  The want sender is a task of its own; what the loop posts to it is
    [changes].  The idle timer and the provider search of the network are not part
    of the state: a tick and the providers found are events. *)
From stdpp Require Import base gmap list.
From S2P Require Import Prelude Wantlist Ledger PeerWants PeerManager Interest SessionWants WantSender.
Local Open Scope Z_scope.

Module Session.
Import SessionManager.
Section session.
  Context {ids : Ids} {ho : HashOrder}.
  Notation Change := SessionWantSender.Change.

Definition BROADCAST_LIVE_WANTS_LIMIT : Z := 64.
(** The largest [Duration], in nanoseconds. *)
Definition duration_max : Z := 2 ^ 64 * 1000000000 - 1.

Inductive Op :=
  | Receive (keys : list Cid)
  | Want (keys : list Cid)
  | Cancel (keys : list Cid)
  | Broadcast (keys : gset Cid)
  | WantsSent (keys : list Cid)
  | UpdateWantSender (from : PeerId) (keys haves dont_haves : list Cid).

(** What the want sender sends to its session. *)
Definition of_sender (op : SessionWantSender.Op) : Op :=
  match op with
  | SessionWantSender.Broadcast cids => Broadcast cids
  | SessionWantSender.WantsSent cids => WantsSent cids
  end.

(** ** LatencyTracker *)
Record LatencyTracker := mkLatency { total_latency : Z; count : Z }.
Definition receive_update (n latency : Z) (t : LatencyTracker) : outcome LatencyTracker :=
  c ← usize_add (count t) n;
  l ← checked 0 duration_max (total_latency t + latency);
  mret (mkLatency l c).

(** ** LoopState *)
Record LoopState := mk {
  id : Z;
  consecutive_ticks : Z;
  session_wants : SessionWants.SessionWants;
  latency_tracker : LatencyTracker;
  provider_search_queue : list Cid;
  changes : list Change;
}.
Definition new (id : Z) : LoopState :=
  mk id 0 (SessionWants.new BROADCAST_LIVE_WANTS_LIMIT) (mkLatency 0 0) [] [].

Definition with_session_wants (w : SessionWants.SessionWants) (s : LoopState) : LoopState :=
  mk (id s) (consecutive_ticks s) w (latency_tracker s) (provider_search_queue s) (changes s).
Definition add_change (ch : Change) (s : LoopState) : LoopState :=
  mk (id s) (consecutive_ticks s) (session_wants s) (latency_tracker s) (provider_search_queue s)
     (changes s ++ [ch]).
Definition find_more_peers (c : Cid) (s : LoopState) : LoopState :=
  mk (id s) (consecutive_ticks s) (session_wants s) (latency_tracker s) (provider_search_queue s ++ [c]) (changes s).

(** [SessionWantSender::add], [cancel] and [update]. *)
Definition sender_add (keys : list Cid) (s : LoopState) : LoopState :=
  if bool_decide (keys = []) then s else add_change (SessionWantSender.Add keys) s.
Definition sender_cancel (keys : list Cid) (s : LoopState) : LoopState :=
  if bool_decide (keys = []) then s else add_change (SessionWantSender.Cancel keys) s.
Definition sender_update (from : PeerId) (keys haves dont_haves : list Cid) (s : LoopState) : LoopState :=
  if bool_decide (keys = []) && bool_decide (haves = []) && bool_decide (dont_haves = []) then s
  else add_change (SessionWantSender.ChangeUpdate (SessionWantSender.mkUpdate from keys haves dont_haves)) s.

Definition broadcast_want_haves (wants : gset Cid) (sh : Shared) : Shared :=
  with_pm (PeerManager.broadcast_want_haves wants (peer_manager sh)) sh.

Definition broadcast (now : Z) (wants : option (gset Cid)) (st : Shared * LoopState) :
    outcome (Shared * LoopState) :=
  let '(sh, s) := st in
  let '(wants, s) := match wants with
                     | Some ws => (ws, s)
                     | None => let '(ws, w) := SessionWants.prepare_broadcast now (session_wants s) in
                               (ws, with_session_wants w s)
                     end in
  let sh := if bool_decide (wants = ∅) then sh else broadcast_want_haves wants sh in
  let s := if negb (bool_decide (wants = ∅)) && bool_decide (consecutive_ticks s = 0)
           then match iter_set wants with c :: _ => find_more_peers c s | [] => s end else s in
  if SessionWants.has_live_wants (session_wants s) then
    t ← usize_add (consecutive_ticks s) 1;
    mret (sh, mk (id s) t (session_wants s) (latency_tracker s) (provider_search_queue s) (changes s))
  else mret (sh, s).

(** [i] is the random index of the want that is searched. *)
Definition handle_periodic_search (i : nat) (st : Shared * LoopState) : Shared * LoopState :=
  let '(sh, s) := st in
  match SessionWants.random_live_want i (session_wants s) with
  | Some random_want => (broadcast_want_haves {[random_want]} sh, find_more_peers random_want s)
  | None => (sh, s)
  end.

Definition with_interest (m : gmap Cid (gmap Z bool)) (sh : Shared) : Shared :=
  mkShared m (block_presence_manager sh) (peer_manager sh).

Definition handle_receive (now : Z) (keys : list Cid) (st : Shared * LoopState) :
    outcome (Shared * LoopState) :=
  let '(sh, s) := st in
  r ← SessionWants.blocks_received now keys (session_wants s);
  let '(wanted, total_latency, w) := r in
  let s := with_session_wants w s in
  if bool_decide (wanted = []) then mret (sh, s)
  else
    t ← receive_update (vec_len wanted) total_latency (latency_tracker s);
    let sh := with_interest
      (SessionInterestManager.remove_session_wants (id s) wanted (session_interest_manager sh)) sh in
    mret (sh, mk (id s) 0 (session_wants s) t (provider_search_queue s) (changes s)).

Definition want_blocks (now : Z) (new_keys : list Cid) (st : Shared * LoopState) :
    outcome (Shared * LoopState) :=
  let '(sh, s) := st in
  let '(sh, s) :=
    if bool_decide (new_keys = []) then (sh, s)
    else
      let sh := with_interest
        (SessionInterestManager.record_session_interest (id s) new_keys (session_interest_manager sh)) sh in
      let s := with_session_wants (SessionWants.blocks_requested new_keys (session_wants s)) s in
      (sh, sender_add new_keys s) in
  if PeerManager.peers_discovered_for_session (id s) (peer_manager sh) then mret (sh, s)
  else
    r ← SessionWants.get_next_wants now (session_wants s);
    let '(keys, w) := r in
    let s := with_session_wants w s in
    mret (if bool_decide (keys = ∅) then sh else broadcast_want_haves keys sh, s).

(** One operation of the event loop. *)
Definition handle_op (now : Z) (op : Op) (st : Shared * LoopState) : outcome (Shared * LoopState) :=
  let '(sh, s) := st in
  match op with
  | Receive keys => handle_receive now keys (sh, s)
  | Want keys => want_blocks now keys (sh, s)
  | Cancel keys =>
      mret (sh, sender_cancel keys (with_session_wants (SessionWants.cancel_pending keys (session_wants s)) s))
  | WantsSent keys => mret (sh, with_session_wants (SessionWants.wants_sent now keys (session_wants s)) s)
  | Broadcast keys => broadcast now (Some keys) (sh, s)
  | UpdateWantSender from keys haves dont_haves => mret (sh, sender_update from keys haves dont_haves s)
  end.

(** [Session::receive_from]: the operations that it posts to the loop. *)
Definition receive_from (id : Z) (from : option PeerId) (keys haves dont_haves : list Cid)
    (m : gmap Cid (gmap Z bool)) : list Op :=
  match SessionInterestManager.filter_session_interested id [keys; haves; dont_haves] m with
  | [keys; haves; dont_haves] =>
      match from with Some p => [UpdateWantSender p keys haves dont_haves] | None => [] end ++
      if bool_decide (keys = []) then [] else [Receive keys]
  | _ => []
  end.

Definition add_provider (c : Cid) (provider : PeerId) : Op := UpdateWantSender provider [] [c] [].
End session.
End Session.

(** ** The task of [get_blocks] *)
Module BlockReceiver.
Section receiver.
  Context {ids : Ids} {Block : Type} (cid : Block → Cid).

(** What the task sees: a block that was announced (with whether the caller still
    takes it), blocks that were lost because it lagged behind, the end of the
    announcements, or the end of the caller's interest. *)
Inductive Event :=
  | Announced (b : Block) (receiver_open : bool)
  | Overflowed
  | Closed
  | Dropped.

(** The task runs, or has ended with the operation that it then posts. *)
Record Receiver := mk { remaining : gset Cid; delivered : list Block; cancelled : option (list Cid) }.
Definition running (r : Receiver) : bool := bool_decide (cancelled r = None).

Context {ho : HashOrder}.
Definition finish (r : Receiver) : Receiver := mk (remaining r) (delivered r) (Some (iter_set (remaining r))).

Definition get_blocks (keys : list Cid) : option (Receiver * Session.Op) :=
  if bool_decide (keys = []) then None else Some (mk (list_to_set keys) [] None, Session.Want keys).

Definition on_event (r : Receiver) (e : Event) : Receiver :=
  if running r then
    match e with
    | Announced b receiver_open =>
        if bool_decide (cid b ∈ remaining r) then
          if receiver_open : bool then
            let r := mk (remaining r ∖ {[cid b]}) (delivered r ++ [b]) None in
            if bool_decide (remaining r = ∅) then finish r else r
          else finish r
        else if bool_decide (remaining r = ∅) then finish r else r
    | Overflowed => r
    | Closed | Dropped => finish r
    end
  else r.
(** The cancel that an ended task sends. *)
Definition cancel_op (r : Receiver) : option Session.Op :=
  match cancelled r with
  | Some keys => if bool_decide (keys = []) then None else Some (Session.Cancel keys)
  | None => None
  end.
End receiver.
End BlockReceiver.
