(* ===== verification/Client.v ===== *)
(** * The bitswap client

    packages/beetle-bitswap-next/src/client.rs and client/session_manager.rs: the
    running sessions with the channels of their two tasks, and what happens when a
    message arrives, a caller asks for blocks or a session is stopped.  Channels
    are lists; their capacities are not modelled. *)
From stdpp Require Import base gmap list.
From S2P Require Import Prelude Wantlist Ledger PeerWants PeerManager Interest SessionWants WantSender.
From S2P Require Import Protobuf BitswapPb BitswapMessage Session.
Local Open Scope Z_scope.

Module Client.
Import SessionManager.
Section client.
  Context {ids : Ids} {ho : HashOrder}.
  Context (pick : list PeerId → nat).
  Notation Block := BitswapMessage.Block.
  Notation Message := BitswapMessage.BitswapMessage.

(** The two tasks of a session, and the channel of its loop; the channel of the
    want sender is [changes] of the loop. *)
Record SessionTask := mkTask {
  loop : Session.LoopState;
  incoming : list Session.Op;
  sender : SessionWantSender.LoopState;
}.
Record Client := mk {
  shared : Shared;
  sessions : gmap Z SessionTask;
  session_index : Z;
  (** What was broadcast to the callers. *)
  notified : list Block;
  (** Whether there is a callback for received blocks, and the calls of it. *)
  blocks_received_cb : bool;
  received : list (PeerId * list Block);
}.
Definition with_shared (sh : Shared) (cl : Client) : Client :=
  mk sh (sessions cl) (session_index cl) (notified cl) (blocks_received_cb cl) (received cl).
Definition with_sessions (ss : gmap Z SessionTask) (cl : Client) : Client :=
  mk (shared cl) ss (session_index cl) (notified cl) (blocks_received_cb cl) (received cl).
Definition post (ops : list Session.Op) (t : SessionTask) : SessionTask :=
  mkTask (loop t) (incoming t ++ ops) (sender t).

(** ** Sessions *)
Fixpoint next_id (n : nat) (index : Z) (ss : gmap Z SessionTask) : outcome (Z * Z) :=
  match n with
  | O => Panic
  | S n =>
      let next := (index + 1) mod 2 ^ 64 in
      if bool_decide (is_Some (ss !! index)) then next_id n next ss else mret (index, next)
  end.
Definition get_next_session_id (cl : Client) : outcome (Z * Client) :=
  r ← next_id 1000 (session_index cl) (sessions cl);
  mret (r.1, mk (shared cl) (sessions cl) r.2 (notified cl) (blocks_received_cb cl) (received cl)).

Definition new_session_with_id (session_id : Z) (cl : Client) : Client :=
  with_sessions (<[session_id := mkTask (Session.new session_id) [] (SessionWantSender.new session_id (shared cl))]>
                   (sessions cl)) cl.
Definition new_session (cl : Client) : outcome (Z * Client) :=
  r ← get_next_session_id cl; mret (r.1, new_session_with_id r.1 r.2).
Definition get_or_create_session (session_id : Z) (cl : Client) : Client :=
  if bool_decide (is_Some (sessions cl !! session_id)) then cl else new_session_with_id session_id cl.

(** [SessionManager::remove_session]. *)
Definition remove_session (session_id : Z) (cl : Client) : Client :=
  with_sessions (delete session_id (sessions cl)) (with_shared (forget_session session_id (shared cl)) cl).
(** [Session::stop] with [refs] references to the session: the loop ends, and the
    want sender unregisters the session from the peer manager. *)
Definition stop_session (refs : Z) (session_id : Z) (cl : Client) : result Client unit :=
  match sessions cl !! session_id with
  | Some _ =>
      if bool_decide (refs = 2) then
        let cl := remove_session session_id cl in
        Ok (with_shared (with_pm (PeerManager.unregister_session session_id (peer_manager (shared cl)))
                           (shared cl)) cl)
      else Err tt
  | None => Ok cl
  end.

(** [Session::get_blocks] posts what it wants. *)
Definition post_to (session_id : Z) (ops : list Session.Op) (cl : Client) : Client :=
  with_sessions (alter (post ops) session_id (sessions cl)) cl.

(** ** Messages *)
Definition receive_from (peer : option PeerId) (blocks haves dont_haves : list Cid) (cl : Client) : Client :=
  let sh := shared cl in
  let bpm := match peer with
             | Some p => BlockPresenceManager.receive_from p haves dont_haves (block_presence_manager sh)
             | None => block_presence_manager sh
             end in
  let sim := session_interest_manager sh in
  let ss := foldl (λ ss id, alter (post (Session.receive_from id peer blocks haves dont_haves sim)) id ss)
              (sessions cl) (iter_set (SessionInterestManager.interested_sessions blocks haves dont_haves sim)) in
  mk (mkShared sim bpm (PeerManager.send_cancels blocks (peer_manager sh))) ss (session_index cl) (notified cl)
    (blocks_received_cb cl) (received cl).

Definition broadcast_blocks (bs : list Block) (cl : Client) : Client :=
  mk (shared cl) (sessions cl) (session_index cl) (notified cl ++ bs) (blocks_received_cb cl) (received cl).
Definition call_received (from : PeerId) (bs : list Block) (cl : Client) : Client :=
  mk (shared cl) (sessions cl) (session_index cl) (notified cl) (blocks_received_cb cl)
    (if blocks_received_cb cl then received cl ++ [(from, bs)] else received cl).

Definition notify_new_blocks (bs : list Block) (cl : Client) : Client :=
  broadcast_blocks bs (receive_from None (BitswapMessage.block_cid <$> bs) [] [] cl).

(** [room]: there is room in the channel for the responses of the queue. *)
Definition receive_blocks_from (room : bool) (from : PeerId) (bs : list Block) (haves dont_haves : list Cid)
    (cl : Client) : Client :=
  let all_keys := BitswapMessage.block_cid <$> bs in
  let '(wanted, not_wanted) := SessionInterestManager.split_wanted_unwanted BitswapMessage.block_cid bs
                                 (session_interest_manager (shared cl)) in
  let cl := with_shared (with_pm (PeerManager.response_received room from (all_keys ++ haves ++ dont_haves)
                                    (peer_manager (shared cl))) (shared cl)) cl in
  call_received from wanted (broadcast_blocks wanted (receive_from (Some from) all_keys haves dont_haves cl)).

Definition receive_message (room : bool) (peer : PeerId) (msg : Message) (cl : Client) : Client :=
  let bs := iter_values (BitswapMessage.blocks msg) in
  let haves := BitswapMessage.haves msg in
  let dont_haves := BitswapMessage.dont_haves msg in
  if negb (bool_decide (bs = [])) || negb (bool_decide (haves = [])) || negb (bool_decide (dont_haves = []))
  then receive_blocks_from room peer bs haves dont_haves cl else cl.

Definition peer_connected (p : PeerId) (cl : Client) : outcome Client :=
  a ← PeerManager.connected p (peer_manager (shared cl));
  mret (with_shared (with_pm a (shared cl)) cl).
Definition peer_disconnected (p : PeerId) (cl : Client) : Client :=
  with_shared (with_pm (PeerManager.disconnected p (peer_manager (shared cl))) (shared cl)) cl.
Definition get_wantlist (cl : Client) : gset Cid :=
  PeerWantManager.get_wants (PeerManager.peer_want_manager (peer_manager (shared cl))).

(** ** The tasks of a session *)
Definition run_op (now : Z) (session_id : Z) (cl : Client) : outcome Client :=
  match sessions cl !! session_id with
  | Some t =>
      match incoming t with
      | op :: ops =>
          r ← Session.handle_op now op (shared cl, loop t);
          let '(sh, l) := r in
          mret (with_shared sh (with_sessions (<[session_id := mkTask l ops (sender t)]> (sessions cl)) cl))
      | [] => mret cl
      end
  | None => mret cl
  end.

Definition with_changes (chs : list SessionWantSender.Change) (l : Session.LoopState) : Session.LoopState :=
  Session.mk (Session.id l) (Session.consecutive_ticks l) (Session.session_wants l) (Session.latency_tracker l)
    (Session.provider_search_queue l) chs.

(** A round of the want sender; what it posts to the session and to itself is
    taken from its state. *)
Definition run_round (session_id : Z) (cl : Client) : outcome Client :=
  match sessions cl !! session_id with
  | Some t =>
      match Session.changes (loop t) with
      | ch :: chs =>
          let '(now_, rest) := SessionWantSender.collect_changes ch chs in
          s ← SessionWantSender.on_change pick now_ (SessionWantSender.with_shared (shared cl) (sender t));
          let s' := SessionWantSender.mk (SessionWantSender.id s) (SessionWantSender.wants s)
            (SessionWantSender.peer_consecutive_dont_haves s) (SessionWantSender.sent_want_blocks_tracker s)
            (SessionWantSender.peer_response_tracker s) (SessionWantSender.shared s) [] [] in
          mret (with_shared (SessionWantSender.shared s) (with_sessions
            (<[session_id := mkTask (with_changes (rest ++ SessionWantSender.signals s) (loop t))
                 (incoming t ++ (Session.of_sender <$> SessionWantSender.ops s)) s']> (sessions cl)) cl))
      | [] => mret cl
      end
  | None => mret cl
  end.
End client.
End Client.
