(* ===== verification/ClientClaims.v ===== *)
(** * What the bitswap client guarantees

    The claims about client.rs, client/session.rs and client/session_manager.rs:
    a received block reaches its session and its caller, a cancelled want is still
    broadcast, and the task of [get_blocks] hands out every block once. *)
From stdpp Require Import base gmap list.
From Stdlib Require Import Strings.Byte.
From S2P Require Import Prelude Wantlist Ledger PeerWants PeerManager Interest SessionWants WantSender WantSenderProofs.
From S2P Require Import Protobuf BitswapPb BitswapMessage Session Client.
Local Open Scope Z_scope.

(** ** The task of [get_blocks] *)
Module ReceiverProofs.
Import BlockReceiver.
Section receiver.
  Context {ids : Ids} {ho : HashOrder} {Block : Type} (cid : Block → Cid).

Record rinv (keys : list Cid) (r : Receiver (Block := Block)) : Prop := {
  ri_nodup : NoDup (cid <$> delivered r);
  ri_split c : c ∈ keys ↔ c ∈ remaining r ∨ c ∈ cid <$> delivered r;
  ri_disjoint c : c ∈ remaining r → c ∉ cid <$> delivered r;
  ri_cancelled cs : cancelled r = Some cs → ∀ c, c ∈ cs ↔ c ∈ remaining r;
}.

Lemma finish_rinv keys r : rinv keys r → rinv keys (finish r).
Proof. intros [H1 H2 H3 H4]. split; try done. simpl. intros cs [= <-] c. apply elem_of_iter_set. Qed.

Lemma deliver_rinv keys r b : rinv keys r → cid b ∈ remaining r →
  rinv keys (mk (remaining r ∖ {[cid b]}) (delivered r ++ [b]) None).
Proof.
  intros [H1 H2 H3 H4] Hb. split; simpl; try done; rewrite ?fmap_app; simpl.
  - apply NoDup_app. split_and!; [done| |apply NoDup_singleton]. intros c Hc ->%list_elem_of_singleton. by apply (H3 _ Hb).
  - intros c. rewrite H2, elem_of_app, list_elem_of_singleton, elem_of_difference, elem_of_singleton.
    destruct (decide (c = cid b)); naive_solver.
  - intros c. rewrite elem_of_app, list_elem_of_singleton, elem_of_difference, elem_of_singleton.
    intros [Hc Hne] [H|H]; [by apply (H3 c)|done].
Qed.

Lemma on_event_rinv keys r e : rinv keys r → rinv keys (on_event cid r e).
Proof.
  intros Hr. unfold on_event. destruct (running r); [|done]. destruct e as [b ro| | |]; try (by apply finish_rinv); [|done].
  case_bool_decide as Hb.
  - destruct ro; [|by apply finish_rinv]. pose proof (deliver_rinv keys r b Hr Hb) as H1. simpl.
    case_bool_decide; [by apply finish_rinv|done].
  - case_bool_decide; [by apply finish_rinv|done].
Qed.

(** While nothing ends the task, an announced block that was asked for arrives. *)
Definition open (e : Event (Block := Block)) : Prop := match e with Announced _ ro => ro = true | Overflowed => True | _ => False end.

Lemma on_event_open keys r e c : rinv keys r → open e →
  (running r = false → remaining r = ∅) →
  (running (on_event cid r e) = false → remaining (on_event cid r e) = ∅) ∧
  (c ∈ cid <$> delivered r → c ∈ cid <$> delivered (on_event cid r e)) ∧
  (∀ b, e = Announced b true → c = cid b → c ∈ keys → c ∈ cid <$> delivered (on_event cid r e)).
Proof.
  intros Hr He Hrun. unfold on_event. destruct (running r) eqn:Er.
  2: { split_and!; [by intros _; apply Hrun|done|]. intros b _ _ Hk. apply (ri_split _ _ Hr) in Hk as [Hk|]; [|done].
       rewrite (Hrun eq_refl) in Hk. set_solver. }
  destruct e as [b ro| | |]; simpl in He; try done; [|by split_and!; [rewrite Er| |intros b [=]]]. subst ro.
  case_bool_decide as Hb; simpl.
  - case_bool_decide as He; simpl; split_and!; try done;
      rewrite ?fmap_app; try (intros; apply elem_of_app; set_solver);
      try (intros b0 [= <-] -> _; apply elem_of_app; right; by left).
  - case_bool_decide as He; simpl; split_and!; try done; try (by rewrite Er);
      intros b0 [= <-] -> Hk; apply (ri_split _ _ Hr) in Hk as [|]; done.
Qed.

Lemma on_events_open keys es : ∀ r, rinv keys r → Forall open es → (running r = false → remaining r = ∅) →
  ∀ c, c ∈ keys → (c ∈ cid <$> delivered r ∨ ∃ b, Announced b true ∈ es ∧ cid b = c) →
    c ∈ cid <$> delivered (foldl (on_event cid) r es).
Proof.
  induction es as [|e es IH]; intros r Hr Ho Hrun c Hc Hd; cbn [foldl].
  { destruct Hd as [|(b & Hb & _)]; [done|by apply elem_of_nil in Hb]. }
  apply Forall_cons in Ho as [He Ho]. destruct (on_event_open keys r e c Hr He Hrun) as (H1 & H2 & H3).
  apply IH; try done; [by apply on_event_rinv|]. destruct Hd as [Hd|(b & [<-|Hb]%elem_of_cons & <-)]; [by left; apply H2|..].
  - left. by apply (H3 b).
  - right. by exists b.
Qed.
End receiver.
End ReceiverProofs.

Module ReceiverClaims.
Import BlockReceiver ReceiverProofs.
Section claims.
  Context {ids : Ids} {ho : HashOrder} {Block : Type} (cid : Block → Cid).

(** The task behind a request hands out blocks that were asked for and no
    block twice; what is missing when it ends is exactly what it cancels; and as
    long as the caller listens and the announcements go on, every block asked for
    that is announced is handed out. *)
Theorem receiver_delivers_once (keys : list Cid) (es : list (Event (Block := Block))) r0 op :
  get_blocks keys = Some (r0, op) →
  let r := foldl (on_event cid) r0 es in
  op = Session.Want keys ∧
  NoDup (cid <$> delivered r) ∧ (∀ c, c ∈ cid <$> delivered r → c ∈ keys) ∧
  (∀ cs, cancelled r = Some cs →
     (∀ c, c ∈ cs ↔ c ∈ keys ∧ c ∉ cid <$> delivered r) ∧
     cancel_op r = (if bool_decide (cs = []) then None else Some (Session.Cancel cs))) ∧
  (Forall open es → ∀ c, c ∈ keys → (∃ b, Announced b true ∈ es ∧ cid b = c) → c ∈ cid <$> delivered r).
Proof.
  unfold get_blocks. case_bool_decide; [done|]. intros [= <- <-].
  set (r0 := mk (list_to_set keys) [] None).
  assert (rinv cid keys r0) as H0.
  { split; simpl; try done; [apply NoDup_nil_2|set_solver|set_solver]. }
  assert (rinv cid keys (foldl (on_event cid) r0 es)) as Hr.
  { clearbody r0. revert r0 H0. induction es as [|e es IH]; intros r0 H0; [done|]. by apply IH, on_event_rinv. }
  cbv zeta. split_and!; [done|apply Hr| | |].
  - intros c Hc. apply (ri_split _ _ _ Hr). by right.
  - intros cs Hcs. split; [|unfold cancel_op; by rewrite Hcs]. intros c. rewrite (ri_cancelled _ _ _ Hr cs Hcs).
    rewrite (ri_split _ _ _ Hr). pose proof (ri_disjoint _ _ _ Hr c). tauto.
  - intros Ho c Hc Hb. apply (on_events_open cid keys es r0 H0 Ho); [done|done|by right].
Qed.
End claims.
End ReceiverClaims.

(** ** The client *)
Module ClientProofs.
Import SessionManager Client.
Section proofs.
  Context {ids : Ids} {ho : HashOrder}.
  Context (pick : list PeerId → nat).

Lemma posted_lookup (f : Z → SessionTask → SessionTask) l : ∀ (ss : gmap Z SessionTask) id, NoDup l →
  foldl (λ ss id, alter (f id) id ss) ss l !! id = if decide (id ∈ l) then f id <$> ss !! id else ss !! id.
Proof.
  induction l as [|k l IH]; intros ss id Hnd; cbn [foldl].
  { rewrite decide_False; [done|apply not_elem_of_nil]. }
  apply NoDup_cons in Hnd as [Hk Hnd]. rewrite IH by done. destruct (decide (id = k)) as [->|Hne].
  - rewrite decide_False, decide_True by (done || by left). by rewrite lookup_alter_eq.
  - rewrite lookup_alter_ne by done. repeat case_decide; set_solver.
Qed.

(** What a message makes of a session that wants one of its blocks. *)
Lemma receive_from_session p blocks haves dont_haves cl id t c :
  sessions cl !! id = Some t → c ∈ blocks →
  SessionInterestManager.status (session_interest_manager (shared cl)) id c = Some true →
  let wanted := filter (λ k, SessionInterestManager.wanted_by id (session_interest_manager (shared cl)) k = true) in
  sessions (receive_from (Some p) blocks haves dont_haves cl) !! id =
    Some (post [Session.UpdateWantSender p (wanted blocks) (wanted haves) (wanted dont_haves);
                Session.Receive (wanted blocks)] t) ∧ c ∈ wanted blocks.
Proof.
  intros Ht Hc Hs. cbv zeta.
  assert (c ∈ filter (λ k, SessionInterestManager.wanted_by id (session_interest_manager (shared cl)) k = true) blocks) as Hw.
  { apply list_elem_of_filter. split; [|done]. by apply SessionInterestManager.wanted_by_status. }
  split; [|done]. unfold receive_from. cbn [sessions]. rewrite posted_lookup by apply NoDup_iter_set.
  rewrite decide_True.
  - rewrite Ht. cbn [fmap option_fmap option_map]. do 2 f_equal. unfold Session.receive_from. cbn.
    rewrite bool_decide_eq_false_2; [done|]. intros E. rewrite E in Hw. by apply elem_of_nil in Hw.
  - rewrite elem_of_iter_set. apply SessionInterestManager.interested_sessions_ok. exists c.
    split; [apply elem_of_app; by left|]. by rewrite Hs.
Qed.

Lemma receive_message_blocks room p msg cl b : b ∈ iter_values (BitswapMessage.blocks msg) →
  receive_message room p msg cl =
    receive_blocks_from room p (iter_values (BitswapMessage.blocks msg)) (BitswapMessage.haves msg)
      (BitswapMessage.dont_haves msg) cl.
Proof.
  intros Hb. unfold receive_message. rewrite (bool_decide_eq_false_2 (iter_values _ = [])); [done|].
  intros E. rewrite E in Hb. by apply elem_of_nil in Hb.
Qed.

(** After a cancel no connected peer is asked for the blocks. *)
Lemma cancels_demand sp a cs c q st : PeerManager.sim sp a → c ∈ cs →
  PeerManager.peers (PeerManager.send_cancels cs a) !! q = Some st →
  QueueHandle.demand (QueueHandle.inbox (PeerManager.message_queue st)) !! c = None.
Proof.
  intros Hs Hc Hq. pose proof (PeerManager.sim_wants _ _ (PeerManager.sim_send_cancels _ _ cs Hs) q) as Hw.
  rewrite Hq in Hw. destruct sp as [bw ws]. simpl in Hw. rewrite lookup_fmap in Hw.
  destruct (ws !! q) as [d|]; [|done]. simpl in Hw. injection Hw as <-. apply map_lookup_filter_None_2. right.
  intros t _. simpl. set_solver.
Qed.

(** After a broadcast every connected peer is asked for the blocks. *)
Lemma broadcast_demand sp a ws c q st : PeerManager.sim sp a → c ∈ ws →
  PeerManager.peers (PeerManager.broadcast_want_haves ws a) !! q = Some st →
  is_Some (QueueHandle.demand (QueueHandle.inbox (PeerManager.message_queue st)) !! c).
Proof.
  intros Hs Hc Hq. pose proof (PeerManager.sim_wants _ _ (PeerManager.sim_broadcast_wants _ _ ws Hs) q) as Hw.
  rewrite Hq in Hw. destruct sp as [bw dws]. simpl in Hw. rewrite lookup_fmap in Hw.
  destruct (dws !! q) as [d|]; [|done]. simpl in Hw. injection Hw as <-. apply lookup_union_is_Some. right.
  by rewrite lookup_gset_to_gmap, option_guard_True.
Qed.

Lemma cancel_session_told session keys sh sp :
  SessionInterestManager.inv (session_interest_manager sh) → PeerManager.sim sp (peer_manager sh) →
  ∃ sp', PeerManager.sim sp' (peer_manager (cancel_session_wants session keys sh)) ∧
    ∀ c, c ∈ keys →
      SessionInterestManager.status (session_interest_manager (cancel_session_wants session keys sh)) session c = None.
Proof.
  intros Hi Hs. unfold cancel_session_wants.
  pose proof (SessionInterestManager.remove_session_interested_ok session keys _ Hi) as Hw.
  destruct (SessionInterestManager.remove_session_interested _ _ _) as [ks m]. simpl.
  eexists. split; [by apply PeerManager.sim_send_cancels|]. intros c Hc.
  by rewrite (SessionInterestManager.wd_status _ _ _ _ _ Hw), !bool_decide_eq_true_2.
Qed.

(** A broadcast of the live wants leaves none out as long as they fit. *)
Lemma broadcast_loop_ok now c limit keys : ∀ live lw,
  live ⊆ dom lw → map_len lw ≤ limit → is_Some (lw !! c) → c ∈ keys ∨ c ∈ live →
  c ∈ (SessionWants.broadcast_loop now keys live lw limit).1 ∧
  is_Some ((SessionWants.broadcast_loop now keys live lw limit).2 !! c).
Proof.
  induction keys as [|k keys IH]; intros live lw Hsub Hlim Hc Hin; cbn [SessionWants.broadcast_loop].
  { destruct Hin as [Hin|]; [by apply elem_of_nil in Hin|done]. }
  case_bool_decide as Hk; [|apply IH; try done; destruct Hin as [[->|]%elem_of_cons|]; auto; done].
  assert (dom (<[k := now]> lw) = dom lw) as Hd by (rewrite dom_insert_L; apply elem_of_dom in Hk; set_solver).
  assert ({[k]} ∪ live ⊆ dom (<[k := now]> lw)) as Hsub'.
  { rewrite Hd. apply elem_of_dom in Hk. set_solver. }
  assert (is_Some (<[k := now]> lw !! c)) as Hc' by (rewrite lookup_insert_is_Some'; by right).
  assert (size (<[k := now]> lw) = size lw) as Hsz by (by rewrite <-!size_dom, Hd).
  case_bool_decide as Hfull.
  - split; [|done]. simpl. assert ({[k]} ∪ live = dom lw) as ->; [|by apply elem_of_dom].
    rewrite Hd in Hsub'. apply set_subseteq_size_eq; [done|]. unfold map_len, set_len in *. rewrite size_dom. lia.
  - apply IH; [done|unfold map_len in *; lia|done|]. destruct Hin as [[->|]%elem_of_cons|]; set_solver.
Qed.

Lemma prepare_broadcast_ok now w c :
  is_Some (SessionWants.live_wants w !! c) → SessionWants.inv w →
  map_len (SessionWants.live_wants w) ≤ SessionWants.broadcast_limit w →
  ∃ ws w', SessionWants.prepare_broadcast now w = (ws, w') ∧ c ∈ ws ∧ is_Some (SessionWants.live_wants w' !! c).
Proof.
  intros Hc Hi Hlim. unfold SessionWants.prepare_broadcast.
  pose proof (broadcast_loop_ok now c (SessionWants.broadcast_limit w) (SessionWants.live_wants_order w) ∅
    (SessionWants.live_wants w)) as H.
  destruct (SessionWants.broadcast_loop _ _ _ _ _) as [ws lw]. eexists _, _. split; [done|]. simpl in *.
  apply H; [set_solver|done|done|left; by apply Hi].
Qed.

(** The latency of received blocks is bounded. *)
Lemma blocks_latency now keys : 0 ≤ now → ∀ acc lat w,
  (∀ c t, SessionWants.live_wants w !! c = Some t → 0 ≤ t) →
  (foldl (SessionWants.block_received now) (acc, lat, w) keys).1.2 <= lat + Z.of_nat (length keys) * now.
Proof.
  intros Hn. induction keys as [|k keys IH]; intros acc lat w Hw; cbn [foldl]; [simpl; lia|].
  cbn [SessionWants.block_received]. destruct (SessionWants.is_wanted k w).
  - etransitivity; [apply IH|].
    + simpl. intros c t [_ H]%lookup_delete_Some. by eapply Hw.
    + cbn [length]. destruct (SessionWants.live_wants w !! k) as [t|] eqn:E; [apply Hw in E|]; lia.
  - etransitivity; [by apply IH|]. cbn [length]. lia.
Qed.

(** A session that can take blocks: its bookkeeping is sound and its counters
    have room for [n] more at time [now]. *)
Record can_receive (n : nat) (now : Z) (l : Session.LoopState) : Prop := {
  cr_inv : SessionWants.inv (Session.session_wants l);
  cr_order : vec_len (SessionWants.live_wants_order (Session.session_wants l)) ≤ usize_max;
  cr_times c t : SessionWants.live_wants (Session.session_wants l) !! c = Some t → 0 ≤ t;
  cr_now : 0 ≤ now;
  cr_count : 0 ≤ Session.count (Session.latency_tracker l) ∧
    Session.count (Session.latency_tracker l) + Z.of_nat n ≤ usize_max;
  cr_latency : 0 ≤ Session.total_latency (Session.latency_tracker l) ∧
    Session.total_latency (Session.latency_tracker l) + Z.of_nat n * now ≤ Session.duration_max;
}.

Lemma handle_receive_ok now keys sh l c :
  can_receive (length keys) now l → c ∈ keys →
  SessionWants.is_wanted c (Session.session_wants l) = true →
  ∃ sh' l', Session.handle_receive now keys (sh, l) = Done (sh', l') ∧
    SessionWants.is_wanted c (Session.session_wants l') = false ∧
    Session.changes l' = Session.changes l ∧ Session.id l' = Session.id l ∧ Session.consecutive_ticks l' = 0 ∧
    peer_manager sh' = peer_manager sh ∧ block_presence_manager sh' = block_presence_manager sh ∧
    ∀ b, SessionInterestManager.status (session_interest_manager sh) (Session.id l) c = Some b →
         SessionInterestManager.status (session_interest_manager sh') (Session.id l) c = Some false.
Proof.
  intros [H1 H2 H3 H4 H5 H6] Hc Hw.
  destruct (SessionWants.blocks_received_ok now keys _ H1 H2) as (wanted & lat & w' & E & _ & Hlat & Hnd & Hin & Hw').
  assert (lat ≤ Z.of_nat (length keys) * now) as Hl.
  { pose proof (blocks_latency now keys H4 [] 0 _ H3) as Hb. unfold SessionWants.blocks_received in E.
    destruct (foldl _ _ keys) as [[wd lt] w0]. destruct (usize_sub _ _); [|done..]. simpl in E, Hb.
    injection E as -> -> _. lia. }
  assert (Z.of_nat (length wanted) ≤ Z.of_nat (length keys)) as Hlen.
  { apply inj_le, submseteq_length, NoDup_submseteq; [done|]. intros x Hx. by apply Hin. }
  unfold Session.handle_receive. rewrite E. cbn [mbind outcome_bind].
  assert (c ∈ wanted) as Hcw by (by apply Hin).
  rewrite bool_decide_eq_false_2 by (intros ->; by apply elem_of_nil in Hcw).
  unfold Session.receive_update, vec_len. cbn [Session.with_session_wants Session.latency_tracker].
  rewrite usize_add_ok by lia. cbn [mbind outcome_bind]. rewrite checked_ok by lia. cbn [mbind outcome_bind].
  eexists _, _. split; [done|]. simpl. split_and!; try done.
  - apply not_true_is_false. intros Ht. apply Hw' in Ht as [_ ?]. done.
  - intros b Hb. rewrite SessionInterestManager.remove_wants_status. rewrite decide_True by done. by rewrite Hb.
Qed.
(** The tasks of an idle session that was told of blocks handle the news: two
    operations of the loop and a round of the want sender. *)
Lemma session_settles p ks hs ds cl id t c now now' :
  sessions cl !! id = Some (post [Session.UpdateWantSender p ks hs ds; Session.Receive ks] t) →
  c ∈ ks → Session.id (loop t) = id → incoming t = [] → Session.changes (loop t) = [] →
  SessionInterestManager.status (session_interest_manager (shared cl)) id c = Some true →
  SessionWants.is_wanted c (Session.session_wants (loop t)) = true →
  can_receive (length ks) now' (loop t) → WantSenderProofs.room (length ks) (sender t) →
  ∃ cl2 cl3 cl4 t', run_op now id cl = Done cl2 ∧ run_op now' id cl2 = Done cl3 ∧ run_round pick id cl3 = Done cl4 ∧
    SessionInterestManager.status (session_interest_manager (shared cl3)) id c = Some false ∧
    sessions cl4 !! id = Some t' ∧
    SessionWants.is_wanted c (Session.session_wants (loop t')) = false ∧
    SessionWantSender.wants (sender t') !! c = None.
Proof.
  intros H1 Hc Hid Hinc Hch Hst Hw Hcr Hroom.
  assert (ks ≠ []) as Hne by (intros E; rewrite E in Hc; by apply elem_of_nil in Hc).
  set (u := SessionWantSender.mkUpdate p ks hs ds).
  set (l1 := Session.add_change (SessionWantSender.ChangeUpdate u) (loop t)).
  assert (run_op now id cl = Done (with_shared (shared cl) (with_sessions
    (<[id := mkTask l1 [Session.Receive ks] (sender t)]> (sessions cl)) cl))) as E1.
  { unfold run_op. rewrite H1. cbn [post incoming]. rewrite Hinc. cbn [app loop sender Session.handle_op mbind outcome_bind].
    unfold Session.sender_update. by rewrite (bool_decide_eq_false_2 (ks = [])). }
  set (cl2 := with_shared _ (with_sessions _ cl)) in E1.
  destruct (handle_receive_ok now' ks (shared cl) l1 c) as (sh' & l' & E2 & Hw' & Hch' & _ & _ & _ & _ & Hst'); try done.
  { destruct Hcr. by split. }
  change (Session.id l1) with (Session.id (loop t)) in Hst'. rewrite Hid in Hst'.
  set (cl3 := with_shared sh' (with_sessions (<[id := mkTask l' [] (sender t)]> (sessions cl2)) cl2)).
  assert (run_op now' id cl2 = Done cl3) as E3.
  { unfold run_op. cbn [cl2 with_shared with_sessions sessions]. rewrite lookup_insert_eq.
    cbn [incoming loop sender Session.handle_op shared]. change (shared cl2) with (shared cl). by rewrite E2. }
  destruct (WantSenderProofs.on_change_ok pick [SessionWantSender.ChangeUpdate u]
    (SessionWantSender.with_shared sh' (sender t))) as (s1 & s' & E4 & _ & _ & Hgone & _).
  { simpl. by rewrite app_nil_r. }
  eexists cl2, cl3, _, _. split_and!; [done|done| |by eapply Hst'| | |].
  - unfold run_round. cbn [cl3 with_shared with_sessions sessions shared]. rewrite lookup_insert_eq.
    cbn [loop sender incoming]. rewrite Hch'. cbn [l1 Session.add_change Session.changes]. rewrite Hch. cbn. by rewrite E4.
  - simpl. by rewrite lookup_insert_eq.
  - done.
  - simpl. apply Hgone. simpl. by rewrite app_nil_r.
Qed.
End proofs.
End ClientProofs.

Module ClientClaims.
Import SessionManager Client ClientProofs.
Section claims.
  Context {ids : Ids} {ho : HashOrder}.
  Context (pick : list PeerId → nat).

(** C6: when a message brings a block that a session wants, the block is announced
    to the callers and given to the callback, and no connected peer is asked for it any
    more; and if the tasks of the session were idle, then once they have handled the
    news, which they do without a panic, the session no longer waits for the block, in
    its own books, in the shared table of interests and in its want sender. *)
Theorem fetch_completes (room : bool) (p : PeerId) (msg : BitswapMessage.BitswapMessage) (b : BitswapMessage.Block)
    (cl : Client) (sp : PeerManager.Spec) (id : Z) (t : SessionTask) (now now' : Z) :
  let c := BitswapMessage.block_cid b in
  let n := length (iter_values (BitswapMessage.blocks msg)) in
  PeerManager.sim sp (peer_manager (shared cl)) →
  b ∈ iter_values (BitswapMessage.blocks msg) →
  SessionInterestManager.status (session_interest_manager (shared cl)) id c = Some true →
  sessions cl !! id = Some t → Session.id (loop t) = id →
  incoming t = [] → Session.changes (loop t) = [] →
  SessionWants.is_wanted c (Session.session_wants (loop t)) = true →
  can_receive n now' (loop t) → WantSenderProofs.room n (sender t) →
  let cl1 := receive_message room p msg cl in
  b ∈ notified cl1 ∧
  (blocks_received_cb cl = true → ∃ bs, last (received cl1) = Some (p, bs) ∧ b ∈ bs) ∧
  (∀ q st, PeerManager.peers (peer_manager (shared cl1)) !! q = Some st →
     QueueHandle.demand (QueueHandle.inbox (PeerManager.message_queue st)) !! c = None) ∧
  ∃ cl2 cl3 cl4 t', run_op now id cl1 = Done cl2 ∧ run_op now' id cl2 = Done cl3 ∧ run_round pick id cl3 = Done cl4 ∧
    SessionInterestManager.status (session_interest_manager (shared cl3)) id c = Some false ∧
    sessions cl4 !! id = Some t' ∧
    SessionWants.is_wanted c (Session.session_wants (loop t')) = false ∧
    SessionWantSender.wants (sender t') !! c = None.
Proof.
  cbv zeta. set (c := BitswapMessage.block_cid b). set (bs := iter_values (BitswapMessage.blocks msg)).
  intros Hsim Hb Hst Ht Hid Hinc Hch Hw Hcr Hroom.
  rewrite (receive_message_blocks room p msg cl b Hb). fold bs. unfold receive_blocks_from.
  set (m := session_interest_manager (shared cl)) in *. set (keys := BitswapMessage.block_cid <$> bs).
  assert (c ∈ keys) as Hc by (apply list_elem_of_fmap; by exists b).
  pose proof (SessionInterestManager.split_ok BitswapMessage.block_cid bs m) as Hsplit.
  destruct (SessionInterestManager.split_wanted_unwanted _ bs m) as [wanted unwanted].
  destruct Hsplit as (Hperm & _ & Hun). set (cl0 := with_shared _ cl).
  destruct (PeerManager.sim_handle sp _ (PeerManager.ResponseReceived p (keys ++ BitswapMessage.haves msg ++ BitswapMessage.dont_haves msg) room) Hsim)
    as (r0 & a0 & Ha0 & Hsim0). simpl in Ha0. injection Ha0 as <- <-.
  destruct (receive_from_session p keys (BitswapMessage.haves msg) (BitswapMessage.dont_haves msg) cl0 id t c Ht Hc Hst)
    as [Hss Hcw]. cbn [shared with_shared cl0 session_interest_manager with_pm] in Hss, Hcw. fold m in Hss, Hcw.
  set (f := filter (λ k, SessionInterestManager.wanted_by id m k = true)) in *.
  assert ((length (f keys) <= length bs)%nat) as Hlen.
  { unfold keys. etransitivity; [apply length_filter|]. by rewrite length_fmap. }
  assert (b ∈ wanted) as Hbw.
  { assert (b ∈ wanted ++ unwanted) as [|Hu]%elem_of_app by (by rewrite Hperm); [done|]. by destruct (Hun b Hu id). }
  split_and!.
  - simpl. apply elem_of_app. by right.
  - intros Hcb. exists wanted. split; [|done]. simpl. rewrite Hcb. apply last_snoc.
  - intros q st. simpl. by apply (cancels_demand _ _ keys c q st Hsim0).
  - apply (session_settles pick p (f keys) (f (BitswapMessage.haves msg)) (f (BitswapMessage.dont_haves msg)) _ id t); try done.
    + destruct Hcr as [C1 C2 C3 C4 C5 C6]. split; try done; [lia|nia].
    + intros q. specialize (Hroom q). lia.
Qed.

(** A want that is live when it is cancelled stays live: after the session's
    interest was withdrawn and the peers were told to forget it, the next idle
    tick asks every connected peer for the block again, although the session has
    no interest in it, and it is still live after that. *)
Theorem cancelled_want_rebroadcast (now now' : Z) (keys : list Cid) (c : Cid) (sh : Shared) (s : Session.LoopState)
    (sp : PeerManager.Spec) :
  let w := Session.session_wants s in
  PeerManager.sim sp (peer_manager sh) → SessionInterestManager.inv (session_interest_manager sh) →
  c ∈ keys → is_Some (SessionWants.live_wants w !! c) → SessionWants.inv w →
  map_len (SessionWants.live_wants w) ≤ SessionWants.broadcast_limit w →
  0 ≤ Session.consecutive_ticks s < usize_max →
  ∃ s1, Session.handle_op now (Session.Cancel keys) (sh, s) = Done (sh, s1) ∧
    Session.changes s1 = Session.changes s ++ [SessionWantSender.Cancel keys] ∧
  let sh2 := cancel_session_wants (Session.id s) keys sh in
  ∃ sh3 s3, Session.broadcast now' None (sh2, s1) = Done (sh3, s3) ∧
    SessionInterestManager.status (session_interest_manager sh3) (Session.id s) c = None ∧
    is_Some (SessionWants.live_wants (Session.session_wants s3) !! c) ∧
    ∀ q st, PeerManager.peers (peer_manager sh3) !! q = Some st →
      is_Some (QueueHandle.demand (QueueHandle.inbox (PeerManager.message_queue st)) !! c).
Proof.
  cbv zeta. intros Hsim Hi Hc Hl Hinv Hlim Ht. eexists. split; [done|].
  assert (keys ≠ []) as Hne by (intros ->; by apply elem_of_nil in Hc).
  unfold Session.sender_cancel. rewrite bool_decide_eq_false_2 by done. split; [done|].
  destruct (cancel_session_told (Session.id s) keys sh sp Hi Hsim) as (sp2 & Hsim2 & Hst2).
  unfold Session.broadcast. cbn [Session.add_change Session.with_session_wants Session.session_wants].
  destruct (prepare_broadcast_ok now' (SessionWants.cancel_pending keys (Session.session_wants s)) c Hl Hinv Hlim)
    as (ws & w' & -> & Hcw & Hl').
  rewrite (bool_decide_eq_false_2 (ws = ∅)) by set_solver.
  match goal with |- context [if ?x && ?y then ?a else ?b] => set (s2 := if x && y then a else b) end.
  assert (Session.session_wants s2 = w' ∧ Session.consecutive_ticks s2 = Session.consecutive_ticks s) as [Hw2 Ht2].
  { unfold s2. case_match; [destruct (iter_set ws)|]; done. }
  unfold SessionWants.has_live_wants. rewrite Hw2. rewrite (bool_decide_eq_false_2 (SessionWants.live_wants w' = ∅))
    by (intros E; rewrite E, lookup_empty in Hl'; by destruct Hl').
  cbn [negb]. rewrite Ht2, usize_add_ok by lia. cbn [mbind outcome_bind]. eexists _, _. split; [done|].
  split_and!; [by apply Hst2|done|]. intros q st Hq.
  by apply (broadcast_demand sp2 _ ws c q st Hsim2 Hcw).
Qed.
End claims.
End ClientClaims.

Module ClientWitness.
Import SessionManager Client ClientProofs ClientClaims ReceiverClaims.
#[local] Existing Instance nat_ids.
#[local] Existing Instance key_order.

Definition first : list PeerId → nat := λ _, 0%nat.
Definition c1 : Cid := 1%nat.
Definition c2 : Cid := 2%nat.
Definition p1 : PeerId := 1%nat.
Definition b1 : BitswapMessage.Block := BitswapMessage.mkBlock c1 [x61; x62].
Definition give : BitswapMessage.BitswapMessage := BitswapMessage.mkMessage false ∅ {[c1 := b1]} ∅ 0.

(** A peer is connected, session 0 was asked for a block, and broadcast it. *)
Definition empty : Client := mk (mkShared ∅ ∅ PeerManager.new) ∅ 0 [] true [].
Definition demo_cl : Client := run_or empty (
  cl ← peer_connected p1 empty;
  r ← new_session cl;
  cl ← run_op 5 0 (post_to 0 [Session.Want [c1]] r.2);
  run_round first 0 cl).
Definition demo_task : SessionTask :=
  default (mkTask (Session.new 0) [] (SessionWantSender.new 0 (shared empty))) (sessions demo_cl !! 0).
Definition asked : list PeerManager.Message := [PeerManager.Connected p1; PeerManager.BroadcastWants {[c1]}].

Lemma demo_cl_sim : PeerManager.sim (foldl PeerManager.spec_handle (PeerManager.mkSpec ∅ ∅) asked) (peer_manager (shared demo_cl)).
Proof.
  destruct (PeerManager.sim_run asked _ _ PeerManager.sim_new) as (a & Ha & Hs).
  assert (PeerManager.run asked PeerManager.new = Done (peer_manager (shared demo_cl))) as E by (vm_compute; reflexivity).
  rewrite E in Ha. injection Ha as Ha. rewrite Ha. exact Hs.
Qed.

Lemma demo_can_receive : can_receive 1 9 (loop demo_task).
Proof.
  assert (SessionWants.live_wants (Session.session_wants (loop demo_task)) = {[c1 := 5]}) as E by (by vm_compute).
  split.
  - intros c. rewrite E, lookup_singleton_is_Some. intros <-. vm_compute. left.
  - vm_compute. discriminate.
  - intros c t. rewrite E. intros [_ <-]%lookup_singleton_Some. lia.
  - lia.
  - split; vm_compute; discriminate.
  - split; vm_compute; discriminate.
Qed.

Lemma fetch_completes_witness :
  b1 ∈ notified (receive_message true p1 give demo_cl) ∧
  ∃ cl2 cl3 cl4 t', run_op 8 0 (receive_message true p1 give demo_cl) = Done cl2 ∧
    run_op 9 0 cl2 = Done cl3 ∧ run_round first 0 cl3 = Done cl4 ∧ sessions cl4 !! 0 = Some t' ∧
    SessionWantSender.wants (sender t') !! c1 = None.
Proof.
  destruct (fetch_completes first true p1 give b1 demo_cl _ 0 demo_task 8 9 demo_cl_sim)
    as (H1 & _ & _ & cl2 & cl3 & cl4 & t' & E1 & E2 & E3 & _ & E4 & _ & E5).
  - vm_compute. left.
  - by vm_compute.
  - by vm_compute.
  - by vm_compute.
  - by vm_compute.
  - by vm_compute.
  - by vm_compute.
  - exact demo_can_receive.
  - intros q. assert (SessionWantSender.peer_response_tracker (sender demo_task) = ∅) as -> by (by vm_compute).
    rewrite lookup_empty. split; vm_compute; discriminate.
  - split; [exact H1|]. exists cl2, cl3, cl4, t'. exact (conj E1 (conj E2 (conj E3 (conj E4 E5)))).
Defined.

(** The caller gave up: the want is cancelled and broadcast again. *)
Lemma cancelled_want_rebroadcast_witness :
  ∃ sh3 s3, Session.broadcast 20 None
      (cancel_session_wants 0 [c1] (shared demo_cl),
       (run_or (shared demo_cl, loop demo_task) (Session.handle_op 9 (Session.Cancel [c1]) (shared demo_cl, loop demo_task))).2)
      = Done (sh3, s3) ∧
    is_Some (SessionWants.live_wants (Session.session_wants s3) !! c1) ∧
    SessionInterestManager.interested_sessions [c1] [] [] (session_interest_manager sh3) = ∅.
Proof.
  destruct (cancelled_want_rebroadcast 9 20 [c1] c1 (shared demo_cl) (loop demo_task) _ demo_cl_sim)
    as (s1 & E1 & _ & sh3 & s3 & E2 & _ & H & _).
  - apply (SessionInterestManager.record_inv 0 [c1] ∅). intros key. by rewrite lookup_empty.
  - by left.
  - vm_compute. by eexists.
  - apply (cr_inv _ _ _ demo_can_receive).
  - vm_compute. discriminate.
  - split; [vm_compute; discriminate|by vm_compute].
  - exists sh3, s3. rewrite E1. split_and!; [exact E2|exact H|].
    enough (SessionInterestManager.interested_sessions [c1] [] [] <$>
      ((λ r, session_interest_manager r.1) <$> Session.broadcast 20 None (cancel_session_wants 0 [c1] (shared demo_cl), s1)) = Done ∅) as Hx.
    { change (Session.id (loop demo_task)) with 0 in E2. rewrite E2 in Hx. by injection Hx. }
    injection E1 as <-. by vm_compute.
Defined.

Definition two_keys : list Cid := [c1; c2].
Lemma receiver_delivers_once_witness :
  ∃ r, r = foldl (BlockReceiver.on_event BitswapMessage.block_cid) (BlockReceiver.mk (list_to_set two_keys) [] None)
             [BlockReceiver.Announced b1 true; BlockReceiver.Announced b1 true; BlockReceiver.Dropped] ∧
    BlockReceiver.delivered r = [b1] ∧ BlockReceiver.cancel_op r = Some (Session.Cancel [c2]).
Proof.
  destruct (receiver_delivers_once BitswapMessage.block_cid two_keys
    [BlockReceiver.Announced b1 true; BlockReceiver.Announced b1 true; BlockReceiver.Dropped] _ _ eq_refl) as (_ & _ & _ & H & _).
  eexists. split; [done|]. split; [by vm_compute|]. destruct (H [c2]) as [_ E]; [by vm_compute|]. exact E.
Defined.
End ClientWitness.
