(* ===== verification/Path.v ===== *)
(** * Paths

    src/path.rs: paths that start at a content identifier, a peer or a domain and
    go through named links.  The text forms of identifiers belong to other crates
    and are an interface here. *)
From stdpp Require Import base gmap list strings.
From S2P Require Import Prelude.

(** ** Strings with slashes *)
Module Slashes.
Definition slash : Ascii.ascii := Ascii.ascii_of_nat 47.

(** [str::split('/')]. *)
Fixpoint split (s : string) : list string :=
  match s with
  | EmptyString => [EmptyString]
  | String a s =>
      if bool_decide (a = slash) then EmptyString :: split s
      else match split s with
           | h :: t => String a h :: t
           | [] => [String a EmptyString]
           end
  end.

(** Segments with a slash between two of them. *)
Fixpoint join (l : list string) : string :=
  match l with
  | [] => EmptyString
  | [x] => x
  | x :: l => x +:+ String slash (join l)
  end.

Fixpoint no_slash (s : string) : Prop :=
  match s with EmptyString => True | String a s => a ≠ slash ∧ no_slash s end.

Lemma split_cons s : ∃ h t, split s = h :: t.
Proof.
  induction s as [|a s (h & t & IH)]; simpl; [by eexists _, _|].
  case_bool_decide; [by eexists _, _|]. rewrite IH. by eexists _, _.
Qed.

Lemma split_no_slash s : Forall no_slash (split s).
Proof.
  induction s as [|a s IH]; simpl; [by constructor|]. case_bool_decide as Ha; [by constructor|].
  destruct (split s) as [|h t]; [by repeat constructor|]. apply Forall_cons in IH as [Hh Ht]. by constructor.
Qed.

Lemma split_app x s : no_slash x → split (x +:+ String slash s) = x :: split s.
Proof.
  induction x as [|a x IH]; simpl; intros Hx; [done|].
  destruct Hx as [Ha Hx]. rewrite bool_decide_eq_false_2 by done. by rewrite IH.
Qed.

Lemma split_single x : no_slash x → split x = [x].
Proof.
  induction x as [|a x IH]; simpl; intros Hx; [done|]. destruct Hx as [Ha Hx].
  rewrite bool_decide_eq_false_2 by done. by rewrite IH.
Qed.

Lemma join_cons x l : l ≠ [] → join (x :: l) = x +:+ String slash (join l).
Proof. by destruct l. Qed.

Lemma split_join l : l ≠ [] → Forall no_slash l → split (join l) = l.
Proof.
  induction l as [|x l IH]; intros Hne Hl; [done|]. apply Forall_cons in Hl as [Hx Hl].
  destruct (decide (l = [])) as [->|Hn]; [by apply split_single|].
  rewrite join_cons by done. by rewrite split_app, IH.
Qed.

Lemma join_split s : join (split s) = s.
Proof.
  induction s as [|a s IH]; [done|]. cbn [split]. destruct (split_cons s) as (h & t & E).
  case_bool_decide as Ha.
  - rewrite join_cons by (rewrite E; done). simpl. by rewrite IH, Ha.
  - rewrite E in *. destruct t as [|y t]; [by rewrite <-IH|]. rewrite join_cons in IH by done.
    rewrite join_cons by done. simpl. by rewrite <-IH.
Qed.

Lemma no_slash_app x y : no_slash (x +:+ y) ↔ no_slash x ∧ no_slash y.
Proof. induction x as [|a x IH]; simpl; [tauto|]. rewrite IH. tauto. Qed.

Lemma app_empty_r (x : string) : x +:+ EmptyString = x.
Proof. induction x as [|a x IH]; [done|]. change (String a (x +:+ EmptyString) = String a x). by rewrite IH. Qed.
Lemma app_string_assoc (x y z : string) : (x +:+ y) +:+ z = x +:+ (y +:+ z).
Proof.
  induction x as [|a x IH]; [done|]. change (String a ((x +:+ y) +:+ z) = String a (x +:+ (y +:+ z))). by rewrite IH.
Qed.

Lemma join_app l k : l ≠ [] → k ≠ [] → join (l ++ k) = join l +:+ String slash (join k).
Proof.
  intros Hl Hk. induction l as [|x l IH]; [done|]. destruct (decide (l = [])) as [->|Hn]; [by apply join_cons|].
  rewrite <-app_comm_cons, !join_cons by (done || by intros [? _]%app_eq_nil).
  by rewrite IH, app_string_assoc.
Qed.
End Slashes.

(** ** Identifiers as text

    [cid_from_str] is [Cid::try_from(&str)], [peer_from_str] is
    [PeerId::from_str], [peer_of_cid] is [PeerId::from_bytes] of the hash of an
    identifier. *)
Class PathCodec `{ids : Ids} := {
  TextError : Type;
  cid_from_str : string → result Cid TextError;
  cid_to_string : Cid → string;
  cid_from_to_string c : cid_from_str (cid_to_string c) = Ok c;
  cid_string_no_slash c : Slashes.no_slash (cid_to_string c);
  peer_from_str : string → option PeerId;
  peer_to_base58 : PeerId → string;
  peer_from_to_base58 p : peer_from_str (peer_to_base58 p) = Some p;
  peer_string_no_slash p : Slashes.no_slash (peer_to_base58 p);
  peer_of_cid : Cid → option PeerId;
}.

Module Path.
Import Slashes.
Section path.
  Context {ids : Ids} {pc : PathCodec}.

Inductive PathRoot := Ipld (c : Cid) | Ipns (p : PeerId) | Dns (domain : string).
(** A [SlashedPath] is its segments. *)
Record IpfsPath := mk { root : PathRoot; path : list string }.

Inductive Error :=
  | InvalidPath (s : string)
  | SegmentContainsSlash (s : string)
  | InvalidCid (e : TextError).

(** ** SlashedPath

    [push_split] leaves what it pushed before an error. *)
Fixpoint push_split (segments p : list string) : result unit unit * list string :=
  match segments with
  | [] => (Ok tt, p)
  | EmptyString :: [] => (Ok tt, p)
  | EmptyString :: _ => (Err tt, p)
  | x :: segments => push_split segments (p ++ [x])
  end.
Definition push_path (s : string) (p : list string) : result unit Error * list string :=
  if bool_decide (s = EmptyString) then (Ok tt, p)
  else let '(r, p) := push_split (split s) p in (map_err (λ _, SegmentContainsSlash s) r, p).
Definition shift (n : nat) (p : list string) : list string := drop n p.
Definition truncate (n : nat) (p : list string) : list string := take n p.
(** [PartialEq<[&str]>]: the segments in pairs. *)
Definition slashed_eq (p other : list string) : bool :=
  forallb (λ ab : string * string, bool_decide (ab.1 = ab.2)) (zip p other).

(** ** IpfsPath *)
Definition ipns_root (key : string) : PathRoot :=
  match peer_from_str key with
  | Some p => Ipns p
  | None =>
      match cid_from_str key with
      | Ok c => match peer_of_cid c with Some p => Ipns p | None => Dns key end
      | Err _ => Dns key
      end
  end.

Definition parse_root (string : string) (parts : list String.string) :
    result (PathRoot * list String.string) Error :=
  match parts with
  | EmptyString :: rest =>
      match rest with
      | ty :: key :: rest =>
          if bool_decide (ty = "ipfs") || bool_decide (ty = "ipld")
          then match cid_from_str key with Ok c => Ok (Ipld c, rest) | Err e => Err (InvalidCid e) end
          else if bool_decide (ty = "ipns") then Ok (ipns_root key, rest)
          else Err (InvalidPath string)
      | _ => Err (InvalidPath string)
      end
  | first :: rest => match cid_from_str first with Ok c => Ok (Ipld c, rest) | Err e => Err (InvalidCid e) end
  | [] => Err (InvalidPath string)
  end.

Definition from_str (s : string) : result IpfsPath Error :=
  match parse_root s (split s) with
  | Ok (r, rest) =>
      match push_split rest [] with
      | (Ok _, p) => Ok (mk r p)
      | (Err _, _) => Err (InvalidPath s)
      end
  | Err e => Err e
  end.

Definition sub_path (segments : string) (p : IpfsPath) : result IpfsPath Error :=
  match push_path segments (path p) with
  | (Ok _, segs) => Ok (mk (root p) segs)
  | (Err e, _) => Err e
  end.

Definition into_shifted (shifted : nat) (p : IpfsPath) : outcome (list string) :=
  if bool_decide (shifted ≤ length (path p))%nat then Done (shift shifted (path p)) else Panic.
Definition into_truncated (len : nat) (p : IpfsPath) : outcome (list string) :=
  if bool_decide (len ≤ length (path p))%nat then Done (truncate len (path p)) else Panic.

(** [Display]. *)
Definition root_to_string (r : PathRoot) : string :=
  match r with
  | Ipld c => "/ipfs/" +:+ cid_to_string c
  | Ipns p => "/ipns/" +:+ peer_to_base58 p
  | Dns domain => "/ipns/" +:+ domain
  end.
Definition to_string (p : IpfsPath) : string :=
  root_to_string (root p) +:+ (if bool_decide (path p = []) then EmptyString else String slash (join (path p))).

Definition root_cid (r : PathRoot) : option Cid := match r with Ipld c => Some c | _ => None end.

(** ** Well-formed paths *)
Definition segment_ok (s : string) : Prop := s ≠ EmptyString ∧ no_slash s.
Definition root_ok (r : PathRoot) : Prop :=
  match r with Dns domain => no_slash domain ∧ ipns_root domain = Dns domain | _ => True end.
Definition path_ok (p : IpfsPath) : Prop := root_ok (root p) ∧ Forall segment_ok (path p).

Lemma segments_no_slash segs : Forall segment_ok segs → Forall no_slash segs.
Proof. intros Hs. eapply Forall_impl; [exact Hs|]. by intros x [_ H]. Qed.

Lemma push_split_ok segs p : Forall segment_ok segs → push_split segs p = (Ok tt, p ++ segs).
Proof.
  intros Hs. revert p. induction Hs as [|x segs [Hx _] _ IH]; intros p; simpl; [by rewrite app_nil_r|].
  destruct x as [|a x]; [done|]. by rewrite IH, <-app_assoc.
Qed.

(** What is pushed are the segments, with a slash at the end dropped. *)
Lemma push_split_inv segs p r : Forall no_slash segs → push_split segs p = (Ok tt, r) →
  ∃ ok, r = p ++ ok ∧ Forall segment_ok ok ∧ (segs = ok ∨ segs = ok ++ [EmptyString]).
Proof.
  revert p. induction segs as [|x segs IH]; intros p Hn; simpl.
  { intros [= <-]. exists []. rewrite app_nil_r. split_and!; [done|constructor|by left]. }
  apply Forall_cons in Hn as [Hx Hn]. destruct x as [|a x].
  - destruct segs; [|done]. intros [= <-]. exists []. rewrite app_nil_r. split_and!; [done|constructor|by right].
  - intros H. destruct (IH _ Hn H) as (ok & -> & Hok & Hs). exists (String a x :: ok). rewrite <-app_assoc.
    split_and!; [done|by constructor|]. destruct Hs as [-> | ->]; auto.
Qed.

Lemma ipns_root_ok key : no_slash key → root_ok (ipns_root key).
Proof.
  intros Hk. unfold ipns_root. destruct (peer_from_str key) eqn:E1; [done|]. destruct (cid_from_str key) eqn:E2.
  - destruct (peer_of_cid a) eqn:E3; [done|]. simpl. unfold ipns_root. by rewrite E1, E2, E3.
  - simpl. unfold ipns_root. by rewrite E1, E2.
Qed.

Lemma parse_root_inv s parts r rest : Forall no_slash parts → parse_root s parts = Ok (r, rest) →
  root_ok r ∧ Forall no_slash rest.
Proof.
  intros Hn. destruct parts as [|x parts]; [done|]. apply Forall_cons in Hn as [Hx Hn]. simpl.
  destruct x as [|a x].
  - destruct parts as [|ty [|key parts]]; [done..|]. apply Forall_cons in Hn as [_ Hn].
    apply Forall_cons in Hn as [Hk Hn]. destruct (_ || _).
    + destruct (cid_from_str key); [|done]. by intros [= <- <-].
    + case_bool_decide; [|done]. intros [= <- <-]. split; [by apply ipns_root_ok|done].
  - destruct (cid_from_str _); [|done]. by intros [= <- <-].
Qed.

Lemma from_str_path_ok s p : from_str s = Ok p → path_ok p.
Proof.
  unfold from_str. pose proof (split_no_slash s) as Hn. destruct (parse_root s (split s)) as [[r rest]|] eqn:E; [|done].
  destruct (parse_root_inv _ _ _ _ Hn E) as [Hr Hrest]. destruct (push_split rest []) as [[[]|] segs] eqn:E2; [|done].
  destruct (push_split_inv _ _ _ Hrest E2) as (ok & -> & Hok & _). intros [= <-]. by split.
Qed.

(** The text of a root and what follows, in parts. *)
Lemma split_root r s : root_ok r → (s = EmptyString ∨ ∃ t, s = String slash t) →
  ∃ ty key, no_slash key ∧ split (root_to_string r +:+ s) = EmptyString :: ty :: split (key +:+ s) ∧
    (∀ rest, parse_root (root_to_string r +:+ s) (EmptyString :: ty :: key :: rest) = Ok (r, rest)).
Proof.
  intros Hr _. destruct r as [c|p|d].
  - exists "ipfs", (cid_to_string c). split_and!; [apply cid_string_no_slash|done|]. intros rest. simpl.
    by rewrite cid_from_to_string.
  - exists "ipns", (peer_to_base58 p). split_and!; [apply peer_string_no_slash|done|]. intros rest. simpl.
    unfold ipns_root. by rewrite peer_from_to_base58.
  - destruct Hr as [Hd Hi]. exists "ipns", d. split_and!; [done|done|]. intros rest. simpl. by rewrite Hi.
Qed.

Lemma from_to_string p : path_ok p → from_str (to_string p) = Ok p.
Proof.
  destruct p as [r segs]. intros [Hr Hs]. simpl in Hr, Hs. unfold to_string. simpl.
  set (tail := if bool_decide (segs = []) then EmptyString else String slash (join segs)).
  destruct (split_root r tail Hr) as (ty & key & Hk & Hsp & Hparse).
  { unfold tail. case_bool_decide; [by left|right; by eexists]. }
  unfold from_str. rewrite Hsp.
  assert (split (key +:+ tail) = key :: segs) as ->.
  { unfold tail. case_bool_decide as Hn; [subst segs|].
    - rewrite app_empty_r. by apply split_single.
    - rewrite split_app, split_join; [done|done|by apply segments_no_slash|done]. }
  by rewrite Hparse, push_split_ok.
Qed.
End path.
End Path.

Module PathClaims.
Import Slashes Path.
Section claims.
  Context {ids : Ids} {pc : PathCodec}.

(** The text of a well-formed path is parsed as that path; every path that
    parsing accepts is well formed, so that printing and parsing it again gives
    the same path; and appending segments to a path appends them to its text. *)
Theorem path_roundtrip :
  (∀ p, path_ok p → from_str (to_string p) = Ok p) ∧
  (∀ s p, from_str s = Ok p → path_ok p ∧ from_str (to_string p) = Ok p) ∧
  (∀ p segs, path_ok p → segs ≠ [] → Forall segment_ok segs →
     ∃ p', sub_path (join segs) p = Ok p' ∧ root p' = root p ∧ path p' = path p ++ segs ∧
       to_string p' = to_string p +:+ String slash (join segs)).
Proof.
  split_and!; [apply from_to_string| |].
  - intros s p Hp%from_str_path_ok. split; [done|by apply from_to_string].
  - intros [r segs0] segs Hp Hne Hs. unfold sub_path, push_path. simpl.
    pose proof (segments_no_slash segs Hs) as Hn.
    assert (join segs ≠ EmptyString) as Hj.
    { intros E. pose proof (split_join segs Hne Hn) as Hsp. rewrite E in Hsp. simpl in Hsp.
      rewrite <-Hsp in Hs. apply Forall_cons in Hs as [[? _] _]. done. }
    rewrite bool_decide_eq_false_2 by done. rewrite split_join by done. rewrite push_split_ok by done. simpl.
    eexists. split; [done|]. simpl. split_and!; [done|done|]. unfold to_string. simpl.
    rewrite (bool_decide_eq_false_2 (segs0 ++ segs = [])) by (by intros [_ ?]%app_eq_nil).
    case_bool_decide as H0; [subst segs0; by rewrite app_empty_r|].
    by rewrite join_app, app_string_assoc.
Qed.
End claims.
End PathClaims.

(** Concrete runs: an identifier is written as that many letters. *)
Module PathWitness.
Import Slashes Path PathClaims.
#[local] Existing Instance nat_ids.

Fixpoint letters (a : Ascii.ascii) (n : nat) : string :=
  match n with O => EmptyString | S n => String a (letters a n) end.
Fixpoint count_letters (a : Ascii.ascii) (s : string) : option nat :=
  match s with
  | EmptyString => Some 0
  | String b s => if bool_decide (a = b) then S <$> count_letters a s else None
  end.
Lemma count_letters_ok a n : count_letters a (letters a n) = Some n.
Proof. induction n as [|n IH]; simpl; [done|]. rewrite bool_decide_eq_true_2 by done. by rewrite IH. Qed.
Lemma letters_no_slash a n : a ≠ slash → no_slash (letters a n).
Proof. intros Ha. by induction n. Qed.

Definition letter_c : Ascii.ascii := Ascii.ascii_of_nat 99.
Definition letter_p : Ascii.ascii := Ascii.ascii_of_nat 112.
Definition read_letters (a : Ascii.ascii) (s : string) : option nat :=
  match count_letters a s with Some (S n) => Some n | _ => None end.
Lemma read_letters_ok a n : read_letters a (letters a (S n)) = Some n.
Proof. unfold read_letters. by rewrite count_letters_ok. Qed.
Definition read_cid (s : string) : result nat unit :=
  match read_letters letter_c s with Some n => Ok n | None => Err tt end.
Lemma read_cid_ok n : read_cid (letters letter_c (S n)) = Ok n.
Proof. unfold read_cid. by rewrite read_letters_ok. Qed.

Definition toy_path_codec : @PathCodec nat_ids := {|
  TextError := unit;
  cid_from_str := read_cid;
  cid_to_string := λ n, letters letter_c (S n);
  cid_from_to_string := read_cid_ok;
  cid_string_no_slash := λ n, letters_no_slash letter_c (S n) ltac:(done);
  peer_from_str := read_letters letter_p;
  peer_to_base58 := λ n, letters letter_p (S n);
  peer_from_to_base58 := read_letters_ok letter_p;
  peer_string_no_slash := λ n, letters_no_slash letter_p (S n) ltac:(done);
  peer_of_cid := λ c, None;
|}.
#[local] Existing Instance toy_path_codec.

Example parses :
  from_str "ccc/a/b/" = Ok (mk (Ipld 2) ["a"; "b"]) ∧ from_str "/ipld/cc" = Ok (mk (Ipld 1) []) ∧
  from_str "/ipns/ppp/x" = Ok (mk (Ipns 2) ["x"]) ∧ from_str "/ipns/foo.bar" = Ok (mk (Dns "foo.bar") []) ∧
  from_str "/ipfs/cc//a" = Err (InvalidPath "/ipfs/cc//a") ∧ from_str "/ipfs" = Err (InvalidPath "/ipfs").
Proof. by vm_compute. Qed.

Definition demo_path : IpfsPath := mk (Ipld 2) ["a"; "b"].
Lemma path_roundtrip_witness :
  from_str "ccc/a/b/" = Ok demo_path ∧
  from_str (to_string demo_path) = Ok demo_path ∧
  to_string demo_path = "/ipfs/ccc/a/b".
Proof.
  destruct path_roundtrip as (_ & H & _). destruct (H "ccc/a/b/" demo_path) as [_ E]; [by vm_compute|].
  split_and!; [by vm_compute|exact E|by vm_compute].
Defined.

(** Segments are compared in pairs, so a path equals every prefix of it. *)
Example equal_to_prefix : slashed_eq ["a"; "b"] ["a"] = true ∧ slashed_eq ["a"] [] = true.
Proof. by vm_compute. Qed.
End PathWitness.
