(* ===== verification/DirBuilder.v ===== *)
(** * The directory tree builder

    unixfs/src/dir/builder.rs, builder/dir_builder.rs and builder/buffered.rs:
    links are put under paths, which creates the directories on the way. *)
From stdpp Require Import base gmap list strings.
From S2P Require Import Prelude Protobuf UnixFsPb FileReader Path.
Local Open Scope Z_scope.

(** ** BTreeMap<String, V>

    The entries in the order of their keys. *)
Module BTree.
Section map.
  Context {V : Type}.
Implicit Types l : list (string * V).

Fixpoint get (k : string) l : option V :=
  match l with [] => None | (k', v) :: l => if bool_decide (k = k') then Some v else get k l end.
(** [VacantEntry::insert]. *)
Fixpoint insert (k : string) (v : V) l : list (string * V) :=
  match l with
  | [] => [(k, v)]
  | (k', v') :: l' => match String.compare k k' with
                      | Gt => (k', v') :: insert k v l'
                      | _ => (k, v) :: l
                      end
  end.
(** A change of the value in an [OccupiedEntry]. *)
Fixpoint set (k : string) (v : V) l : list (string * V) :=
  match l with
  | [] => []
  | (k', v') :: l => if bool_decide (k = k') then (k', v) :: l else (k', v') :: set k v l
  end.

Lemma get_Some k v l : NoDup l.*1 → get k l = Some v ↔ (k, v) ∈ l.
Proof.
  induction l as [|[k' v'] l IH]; simpl; intros Hnd; [set_solver|].
  apply NoDup_cons in Hnd as [Hk Hnd]. rewrite elem_of_cons. case_bool_decide as He.
  - subst k'. split; [intros [= ->]; by left|]. intros [[= ->]|Hin]; [done|]. destruct Hk.
    apply list_elem_of_fmap. by exists (k, v).
  - rewrite IH by done. naive_solver.
Qed.
Lemma get_None k l : get k l = None ↔ k ∉ l.*1.
Proof.
  induction l as [|[k' v'] l IH]; simpl; [set_solver|]. rewrite not_elem_of_cons. case_bool_decide; [naive_solver|].
  rewrite IH. naive_solver.
Qed.

Lemma insert_perm k v l : insert k v l ≡ₚ (k, v) :: l.
Proof.
  induction l as [|[k' v'] l IH]; simpl; [done|]. destruct (String.compare k k'); [done|done|].
  rewrite IH. constructor.
Qed.
Lemma insert_nodup k v l : get k l = None → NoDup l.*1 → NoDup (insert k v l).*1.
Proof. intros Hk%get_None Hnd. rewrite insert_perm. simpl. by constructor. Qed.

Lemma get_insert k v l k' : get k l = None → NoDup l.*1 →
  get k' (insert k v l) = if bool_decide (k' = k) then Some v else get k' l.
Proof.
  intros Hk Hnd. pose proof (insert_nodup k v l Hk Hnd) as Hi. case_bool_decide as He.
  - subst. apply get_Some; [done|]. rewrite insert_perm. by left.
  - apply option_eq. intros x. rewrite !get_Some by done. rewrite insert_perm, elem_of_cons. naive_solver.
Qed.

Lemma set_keys k v l : (set k v l).*1 = l.*1.
Proof. induction l as [|[k' v'] l IH]; simpl; [done|]. case_bool_decide; simpl; [done|f_equal; exact IH]. Qed.
Lemma get_set k v l k' : is_Some (get k l) → get k' (set k v l) = if bool_decide (k' = k) then Some v else get k' l.
Proof.
  induction l as [|[k0 v0] l IH]; cbn [get set]; [by intros [? ?]|]. destruct (decide (k = k0)) as [->|H0].
  - rewrite (bool_decide_eq_true_2 (k0 = k0)) by done. intros _. cbn [get]. by repeat case_bool_decide.
  - rewrite (bool_decide_eq_false_2 (k = k0)) by done. intros Hs. cbn [get]. rewrite IH by done.
    repeat case_bool_decide; congruence.
Qed.
End map.
End BTree.

Module DirBuilder.
Import UnixFsMetadata Slashes.
Section builder.
  Context {ids : Ids}.

Inductive Entry : Type :=
  | Leaf (link : Cid) (total_size : Z)
  | Directory (d : DirBuilder)
with DirBuilder : Type :=
  | mkDir (nodes : list (string * Entry)) (metadata : Metadata) (parent_id : option Z) (id : Z).

Definition Metadata_default : Metadata := mkMetadata None None.
Definition nodes (d : DirBuilder) := let 'mkDir n _ _ _ := d in n.
Definition metadata (d : DirBuilder) := let 'mkDir _ m _ _ := d in m.
Definition parent_id (d : DirBuilder) := let 'mkDir _ _ p _ := d in p.
Definition id (d : DirBuilder) := let 'mkDir _ _ _ i := d in i.
Definition with_nodes (n : list (string * Entry)) (d : DirBuilder) : DirBuilder :=
  mkDir n (metadata d) (parent_id d) (id d).

Definition new (parent_id id : Z) : outcome DirBuilder :=
  if bool_decide (parent_id = id) then Panic else Done (mkDir [] Metadata_default (Some parent_id) id).
Definition new_root (id : Z) : DirBuilder := mkDir [] Metadata_default None id.

Definition put_leaf (key : string) (link : Cid) (total_size : Z) (d : DirBuilder) : option DirBuilder :=
  match BTree.get key (nodes d) with
  | Some _ => None
  | None => Some (with_nodes (BTree.insert key (Leaf link total_size) (nodes d)) d)
  end.

(** [add_or_get_node] and [set_metadata] on what it returns; [next_id] is taken when
    a directory is created. *)
Definition set_metadata_at (key : string) (next_id : option Z) (m : Metadata) (d : DirBuilder) :
    outcome (option DirBuilder * option Z) :=
  match BTree.get key (nodes d) with
  | Some (Directory sub) =>
      mret (Some (with_nodes (BTree.set key (Directory (mkDir (nodes sub) m (parent_id sub) (id sub))) (nodes d)) d),
            next_id)
  | Some (Leaf _ _) => mret (None, next_id)
  | None =>
      match next_id with
      | Some i =>
          sub ← new (id d) i;
          mret (Some (with_nodes (BTree.insert key (Directory (mkDir (nodes sub) m (parent_id sub) (id sub))) (nodes d)) d), None)
      | None => Panic
      end
  end.

(** ** BufferingTreeBuilder *)
Record TreeOptions := mkOptions { block_size_limit : option Z; wrap_with_directory : bool }.
Definition TreeOptions_default : TreeOptions := mkOptions (Some (512 * 1024)) false.

Inductive TreeBuildingFailed :=
  | RootedPath (s : string)
  | RepeatSlashesInPath (s : string)
  | PathEndsInSlash (s : string)
  | TooManyRootLevelEntries
  | DuplicatePath (s : string)
  | LeafAsDirectory (s : string).

Record BufferingTreeBuilder := mk {
  root_builder : DirBuilder;
  longest_path : Z;
  counter : Z;
  opts : TreeOptions;
}.
Definition builder_new (o : TreeOptions) : BufferingTreeBuilder := mk (new_root 0) 0 1 o.

(** [ends_with('/')] and [contains("//")]. *)
Fixpoint ends_with_slash (s : string) : bool :=
  match s with
  | EmptyString => false
  | String a EmptyString => bool_decide (a = slash)
  | String _ s => ends_with_slash s
  end.
Fixpoint contains_slashes (s : string) : bool :=
  match s with
  | String a ((String b _) as s') => bool_decide (a = slash) && bool_decide (b = slash) || contains_slashes s'
  | _ => false
  end.

(** What is done at the end of a path: the result, the changed directory and the
    identifier if it was not taken. *)
Definition action : Type :=
  DirBuilder → string → option Z → outcome (result unit TreeBuildingFailed * DirBuilder * option Z).

(** The loop of [modify_with] from a directory on: the result, the directory and
    the counter. *)
Fixpoint modify_in (wrap : bool) (full_path : string) (f : action) (depth : nat) (segs : list string)
    (d : DirBuilder) (counter : Z) : outcome (result unit TreeBuildingFailed * DirBuilder * Z) :=
  match segs with
  | [] => Panic
  | next :: segs =>
      let last := bool_decide (segs = []) in
      if bool_decide (next = EmptyString) && negb (bool_decide (depth = 0%nat)) then Panic
      else if bool_decide (next = EmptyString) && negb last then mret (Err (RootedPath full_path), d, counter)
      else
        let full := bool_decide (depth = 0%nat) && negb wrap && negb (bool_decide (nodes d = [])) in
        if last then
          if full then mret (Err TooManyRootLevelEntries, d, counter)
          else
            r ← f d next (Some counter);
            let '(ret, d, next_id) := r in
            match next_id with
            | Some _ => mret (ret, d, counter)
            | None => c ← u64_add counter 1; mret (ret, d, c)
            end
        else
          match BTree.get next (nodes d) with
          | Some (Directory sub) =>
              r ← modify_in wrap full_path f (S depth) segs sub counter;
              let '(ret, sub, c) := r in
              mret (ret, with_nodes (BTree.set next (Directory sub) (nodes d)) d, c)
          | Some (Leaf _ _) => mret (Err (LeafAsDirectory full_path), d, counter)
          | None =>
              if full then mret (Err TooManyRootLevelEntries, d, counter)
              else
                c ← u64_add counter 1;
                sub ← new (id d) counter;
                r ← modify_in wrap full_path f (S depth) segs sub c;
                let '(ret, sub, c) := r in
                mret (ret, with_nodes (BTree.insert next (Directory sub) (nodes d)) d, c)
          end
  end.

Definition modify_with (full_path : string) (f : action) (b : BufferingTreeBuilder) :
    outcome (result unit TreeBuildingFailed * BufferingTreeBuilder) :=
  let longest := Z.max (vec_len (str_bytes full_path)) (longest_path b) in
  let b := mk (root_builder b) longest (counter b) (opts b) in
  if ends_with_slash full_path then mret (Err (PathEndsInSlash full_path), b)
  else if contains_slashes full_path then mret (Err (RepeatSlashesInPath full_path), b)
  else
    r ← modify_in (wrap_with_directory (opts b)) full_path f 0 (split full_path) (root_builder b) (counter b);
    let '(ret, d, c) := r in mret (ret, mk d longest c (opts b)).

Definition put_link (full_path : string) (target : Cid) (total_size : Z) (b : BufferingTreeBuilder) :
    outcome (result unit TreeBuildingFailed * BufferingTreeBuilder) :=
  modify_with full_path (λ parent basename next_id,
    match put_leaf basename target total_size parent with
    | Some d => mret (Ok tt, d, next_id)
    | None => mret (Err (DuplicatePath full_path), parent, next_id)
    end) b.

Definition set_metadata (full_path : string) (m : Metadata) (b : BufferingTreeBuilder) :
    outcome (result unit TreeBuildingFailed * BufferingTreeBuilder) :=
  modify_with full_path (λ parent basename next_id,
    r ← set_metadata_at basename next_id m parent;
    let '(od, next_id) := r in
    match od with
    | Some d => mret (Ok tt, d, next_id)
    | None => mret (Err (LeafAsDirectory full_path), parent, next_id)
    end) b.
End builder.
End DirBuilder.
