(* ===== verification/DirBuilderProofs.v ===== *)
(** * The tree that the builder holds

    An invariant of the directories under construction, and what putting a link
    does to the leaves of the tree. *)
From stdpp Require Import base gmap list strings.
From S2P Require Import Prelude Protobuf UnixFsPb FileReader Path DirBuilder.
Local Open Scope Z_scope.

Module DirTree.
Import Slashes Path DirBuilder.
Section tree.
  Context {ids : Ids}.

(** ** Induction over directories *)
Section induction.
  Context (P : DirBuilder → Prop).
  Context (HP : ∀ d, (∀ k sub, (k, Directory sub) ∈ nodes d → P sub) → P d).

Definition entry_P (e : Entry) : Prop := match e with Directory sub => P sub | Leaf _ _ => True end.
Lemma entries_P (l : list (string * Entry)) : Forall entry_P l.*2 → ∀ k sub, (k, Directory sub) ∈ l → P sub.
Proof.
  intros Hl k sub Hin. assert (Directory sub ∈ l.*2) as H2 by (apply list_elem_of_fmap; by exists (k, Directory sub)).
  eapply Forall_forall in Hl; [|exact H2]. exact Hl.
Qed.
Fixpoint dir_ind (d : DirBuilder) : P d.
Proof.
  destruct d as [n m p i]. apply HP, entries_P. simpl. revert n.
  fix go 1. intros [|[k e] l]; simpl; constructor; [|apply go].
  destruct e as [c t|sub]; simpl; [exact I|apply dir_ind].
Defined.
End induction.

(** ** Identifiers and well-formedness *)
Definition subdirs (l : list (string * Entry)) : list DirBuilder :=
  omap (λ ke : string * Entry, match ke.2 with Directory sub => Some sub | Leaf _ _ => None end) l.
Fixpoint all_ids (d : DirBuilder) : list Z :=
  match d with
  | mkDir n _ _ i =>
      i :: (fix go (l : list (string * Entry)) : list Z :=
              match l with
              | [] => []
              | (_, Leaf _ _) :: l => go l
              | (_, Directory sub) :: l => all_ids sub ++ go l
              end) n
  end.
Definition ids_of (l : list (string * Entry)) : list Z := subdirs l ≫= all_ids.

Lemma all_ids_eq d : all_ids d = id d :: ids_of (nodes d).
Proof.
  destruct d as [n m p i]. simpl. f_equal. unfold ids_of.
  induction n as [|[k [c t|sub]] n IH]; simpl; [done|done|]. by rewrite IH.
Qed.

Definition names_ok (d : DirBuilder) : Prop := Forall segment_ok (nodes d).*1.
Fixpoint wf (d : DirBuilder) : Prop :=
  match d with
  | mkDir n _ _ i =>
      NoDup n.*1 ∧
      (fix go (l : list (string * Entry)) : Prop :=
         match l with
         | [] => True
         | (_, Leaf _ _) :: l => go l
         | (_, Directory sub) :: l => (parent_id sub = Some i ∧ names_ok sub ∧ wf sub) ∧ go l
         end) n
  end.

Definition child_ok (i : Z) (sub : DirBuilder) : Prop := parent_id sub = Some i ∧ names_ok sub ∧ wf sub.
Lemma wf_eq d : wf d ↔ NoDup (nodes d).*1 ∧ ∀ k sub, (k, Directory sub) ∈ nodes d → child_ok (id d) sub.
Proof.
  destruct d as [n m p i]. cbn [wf nodes id]. apply and_iff_compat_l.
  induction n as [|[k [c t|sub]] n IH].
  - split; [intros _ k sub H; by apply elem_of_nil in H|done].
  - rewrite IH. split; intros H k' sub' Hin; [|apply (H k'); by right].
    apply elem_of_cons in Hin as [[=]|Hin]. by eapply H.
  - rewrite IH. split.
    + intros [Hs H] k' sub' [[= -> ->]|Hin]%elem_of_cons; [done|by eapply H].
    + intros H. split; [apply (H k); by left|]. intros k' sub' Hin. apply (H k'). by right.
Qed.

(** ** Leaves *)
Fixpoint lookup (segs : list string) (d : DirBuilder) : option Entry :=
  match segs with
  | [] => None
  | x :: segs =>
      match BTree.get x (nodes d), segs with
      | Some e, [] => Some e
      | Some (Directory sub), _ => lookup segs sub
      | _, _ => None
      end
  end.
Definition find (segs : list string) (d : DirBuilder) : option (Cid * Z) :=
  match lookup segs d with Some (Leaf c t) => Some (c, t) | _ => None end.

Lemma find_cons x y segs d :
  find (x :: y :: segs) d = match BTree.get x (nodes d) with Some (Directory sub) => find (y :: segs) sub | _ => None end.
Proof. unfold find. cbn [lookup]. destruct (BTree.get x (nodes d)) as [[c t|sub]|]; done. Qed.
Lemma find_single x d :
  find [x] d = match BTree.get x (nodes d) with Some (Leaf c t) => Some (c, t) | _ => None end.
Proof. unfold find. simpl. by destruct (BTree.get x (nodes d)) as [[c t|sub]|]. Qed.
Lemma find_empty segs m p i : find segs (mkDir [] m p i) = None.
Proof. by destruct segs. Qed.

(** ** Directories with one entry changed *)
Record changed (x : string) (e : Entry) (d d' : DirBuilder) : Prop := {
  ch_get y : BTree.get y (nodes d') = if bool_decide (y = x) then Some e else BTree.get y (nodes d);
  ch_nodup : NoDup (nodes d').*1;
  ch_names y : y ∈ (nodes d').*1 ↔ y = x ∨ y ∈ (nodes d).*1;
  ch_id : id d' = id d;
  ch_parent : parent_id d' = parent_id d;
}.

Lemma insert_changed x e d : BTree.get x (nodes d) = None → NoDup (nodes d).*1 →
  changed x e d (with_nodes (BTree.insert x e (nodes d)) d).
Proof.
  intros Hx Hnd. split; simpl; try done.
  - intros y. by apply BTree.get_insert.
  - by apply BTree.insert_nodup.
  - intros y. rewrite (BTree.insert_perm x e (nodes d)). simpl. apply elem_of_cons.
Qed.
Lemma set_changed x e d : is_Some (BTree.get x (nodes d)) → NoDup (nodes d).*1 →
  changed x e d (with_nodes (BTree.set x e (nodes d)) d).
Proof.
  intros Hx Hnd. split; simpl; try done.
  - intros y. by apply BTree.get_set.
  - by rewrite BTree.set_keys.
  - intros y. rewrite BTree.set_keys. split; [by right|]. intros [->|]; [|done].
    destruct (decide (x ∈ (nodes d).*1)) as [|Hn%BTree.get_None]; [done|]. rewrite Hn in Hx. by destruct Hx.
Qed.

Lemma changed_wf x e d d' : wf d → changed x e d d' →
  match e with Directory sub => child_ok (id d) sub | Leaf _ _ => True end → wf d'.
Proof.
  rewrite !wf_eq. intros [Hnd Hch] Hc He. split; [apply Hc|]. intros k sub Hin.
  rewrite (ch_id _ _ _ _ Hc). apply BTree.get_Some in Hin; [|apply Hc]. rewrite (ch_get _ _ _ _ Hc) in Hin.
  case_bool_decide; [injection Hin as ->; done|]. apply (Hch k). by apply BTree.get_Some.
Qed.

Lemma changed_names x e d d' : changed x e d d' → segment_ok x → names_ok d → names_ok d'.
Proof.
  intros Hc Hx Hd. apply Forall_forall. intros y [->|Hy]%(ch_names _ _ _ _ Hc); [done|].
  by eapply Forall_forall in Hd.
Qed.

Lemma changed_find_leaf x c t d d' : changed x (Leaf c t) d d' →
  (∀ sub, BTree.get x (nodes d) = Some (Directory sub) → False) →
  ∀ q, find q d' = if bool_decide (q = [x]) then Some (c, t) else find q d.
Proof.
  intros Hc Hn q. destruct q as [|y [|z q]]; [done| |].
  - rewrite !find_single, (ch_get _ _ _ _ Hc). repeat case_bool_decide; congruence.
  - rewrite !find_cons, (ch_get _ _ _ _ Hc). rewrite (bool_decide_eq_false_2 (_ = [x])) by done.
    case_bool_decide; [subst y|done]. destruct (BTree.get x (nodes d)) as [[?|sub]|]; [done| |done]. by destruct (Hn sub).
Qed.

(** The leaves below a changed directory. *)
Lemma changed_find_dir x sub sub' d d' (r : option (Cid * Z)) segs :
  changed x (Directory sub') d d' →
  (BTree.get x (nodes d) = Some (Directory sub) ∨ BTree.get x (nodes d) = None ∧ ∀ q, find q sub = None) →
  segs ≠ [] →
  (∀ q, find q sub' = match r with Some v => if bool_decide (q = segs) then Some v else find q sub | None => find q sub end) →
  ∀ q, find q d' = match r with Some v => if bool_decide (q = x :: segs) then Some v else find q d | None => find q d end.
Proof.
  intros Hc Hx Hne Hs q. destruct q as [|y [|z q]].
  - destruct r; [|done]. by rewrite bool_decide_eq_false_2.
  - assert (find [y] d' = find [y] d) as ->.
    { rewrite !find_single, (ch_get _ _ _ _ Hc). case_bool_decide; [subst y|done].
      destruct Hx as [-> | [-> _]]; done. }
    destruct r; [|done]. rewrite bool_decide_eq_false_2; [done|]. intros [= _ E]. done.
  - rewrite !find_cons, (ch_get _ _ _ _ Hc). destruct (decide (y = x)) as [->|Hy].
    + rewrite (bool_decide_eq_true_2 (x = x)) by done. rewrite Hs.
      assert (match BTree.get x (nodes d) with Some (Directory s) => find (z :: q) s | _ => None end = find (z :: q) sub) as ->.
      { destruct Hx as [-> | [-> H]]; [done|by rewrite H]. }
      destruct r; [|done]. repeat case_bool_decide; congruence.
    + rewrite (bool_decide_eq_false_2 (y = x)) by done. destruct r; [|done].
      rewrite (bool_decide_eq_false_2 (_ = x :: segs)); [done|]. intros [= ? _]. done.
Qed.

(** ** Identifiers of changed directories *)
Lemma ids_of_insert x e l : ids_of (BTree.insert x e l) ≡ₚ ids_of ((x, e) :: l).
Proof. unfold ids_of, subdirs. by rewrite (BTree.insert_perm x e l). Qed.
Lemma ids_of_set x sub sub' l news :
  NoDup l.*1 → BTree.get x l = Some (Directory sub) → all_ids sub' ≡ₚ news ++ all_ids sub →
  ids_of (BTree.set x (Directory sub') l) ≡ₚ news ++ ids_of l.
Proof.
  intros Hnd Hx Hs. induction l as [|[k e] l IH]; [done|]. cbn [BTree.get BTree.set] in *.
  apply NoDup_cons in Hnd as [_ Hnd]. case_bool_decide.
  - injection Hx as ->. unfold ids_of. simpl. rewrite Hs. by rewrite <-app_assoc.
  - unfold ids_of in *. destruct e as [c t|s]; simpl; [by apply IH|]. rewrite (IH Hnd Hx).
    rewrite !app_assoc. by rewrite (Permutation_app_comm (all_ids s) news).
Qed.

(** ** What an operation does to a directory

    [v] is the leaf that it puts at the end of the path, if any; the identifiers
    from [lo] on and below [hi] are new. *)
Record modified (v : option (Cid * Z)) (segs : list string) (lo hi : Z) (ret : result unit TreeBuildingFailed)
    (d d' : DirBuilder) : Prop := {
  md_wf : wf d';
  md_id : id d' = id d;
  md_parent : parent_id d' = parent_id d;
  md_ids : ∃ news, all_ids d' ≡ₚ news ++ all_ids d ∧ NoDup news ∧ ∀ j, j ∈ news → lo ≤ j < hi;
  md_names y : y ∈ (nodes d').*1 → Some y = head segs ∨ y ∈ (nodes d).*1;
  md_ret : match ret with
           | Err _ => d' = d ∧ hi = lo
           | Ok _ => ∀ q, find q d' = match v with
                                      | Some x => if bool_decide (q = segs) then Some x else find q d
                                      | None => find q d
                                      end
           end;
}.

Lemma modified_refl v segs lo e d : wf d → modified v segs lo lo (Err e) d d.
Proof. intros Hw. split; try done; [|intros y Hy; by right]. exists []. split_and!; [done|constructor|]. intros j Hj. by apply elem_of_nil in Hj. Qed.

(** The end of a path: with the next identifier [i] at hand. *)
Definition good_action (f : action) (v : option (Cid * Z)) : Prop :=
  ∀ d name i, wf d → (∀ j, j ∈ all_ids d → j < i) →
  ∃ ret d' ni, f d name (Some i) = Done (ret, d', ni) ∧
    modified v [name] i (match ni with None => i + 1 | Some _ => i end) ret d d'.

Lemma fresh_child d i : wf d → (∀ j, j ∈ all_ids d → j < i) → id d < i.
Proof. intros _ H. apply H. rewrite all_ids_eq. by left. Qed.

(** Below an existing directory. *)
Lemma modified_set v x segs lo hi ret d sub sub' :
  wf d → segs ≠ [] → (∀ y, head segs = Some y → segment_ok y) → BTree.get x (nodes d) = Some (Directory sub) →
  modified v segs lo hi ret sub sub' →
  modified v (x :: segs) lo hi ret d (with_nodes (BTree.set x (Directory sub') (nodes d)) d).
Proof.
  intros Hw Hne Hhd Hx Hm. pose proof Hw as [Hnd Hch]%wf_eq.
  pose proof (set_changed x (Directory sub') d ltac:(by rewrite Hx) Hnd) as Hc.
  assert (child_ok (id d) sub) as (Hp & Hn & _) by (apply (Hch x); by apply BTree.get_Some).
  split; try done.
  - apply (changed_wf _ _ _ _ Hw Hc). split_and!; [by rewrite (md_parent _ _ _ _ _ _ _ Hm)| |apply Hm].
    apply Forall_forall. intros y [Hy|Hy]%(md_names _ _ _ _ _ _ _ Hm); [by apply Hhd|by eapply Forall_forall in Hn].
  - destruct (md_ids _ _ _ _ _ _ _ Hm) as (news & Hs & Hnews). exists news. split; [|done].
    rewrite !all_ids_eq. simpl. rewrite (ids_of_set x sub sub' (nodes d) news Hnd Hx Hs).
    by rewrite Permutation_middle.
  - intros y [->|Hy]%(ch_names _ _ _ _ Hc); auto.
  - pose proof (md_ret _ _ _ _ _ _ _ Hm) as Hret. destruct ret as [u|e].
    + apply (changed_find_dir x sub sub' d _ v segs Hc); auto.
    + destruct Hret as [-> ->]. split; [|done]. destruct d as [n m p i]. unfold with_nodes. simpl in *. f_equal.
      clear -Hx. induction n as [|[k e'] n IH]; simpl in *; [done|]. case_bool_decide; [congruence|]. by rewrite IH.
Qed.

(** Below a new directory. *)
Lemma modified_insert v x segs i hi u d sub' :
  wf d → segs ≠ [] → (∀ y, head segs = Some y → segment_ok y) → BTree.get x (nodes d) = None → i < hi →
  modified v segs (i + 1) hi (Ok u) (mkDir [] Metadata_default (Some (id d)) i) sub' →
  modified v (x :: segs) i hi (Ok u) d (with_nodes (BTree.insert x (Directory sub') (nodes d)) d).
Proof.
  intros Hw Hne Hhd Hx Hi Hm. pose proof Hw as [Hnd Hch]%wf_eq.
  pose proof (insert_changed x (Directory sub') d Hx Hnd) as Hc. split; try done.
  - apply (changed_wf _ _ _ _ Hw Hc). split_and!; [by rewrite (md_parent _ _ _ _ _ _ _ Hm)| |apply Hm].
    apply Forall_forall. intros y [Hy|Hy]%(md_names _ _ _ _ _ _ _ Hm); [by apply Hhd|by apply elem_of_nil in Hy].
  - destruct (md_ids _ _ _ _ _ _ _ Hm) as (news & Hs & Hnews & Hr). exists (news ++ [i]). split_and!.
    + rewrite !all_ids_eq. simpl. rewrite ids_of_insert. unfold ids_of at 1. simpl. rewrite Hs. simpl.
      apply Permutation_middle.
    + apply NoDup_app. split_and!; [done| |apply NoDup_singleton]. intros j Hj%Hr ->%list_elem_of_singleton. lia.
    + intros j [Hj%Hr|Hj%list_elem_of_singleton]%elem_of_app; lia.
  - intros y [->|Hy]%(ch_names _ _ _ _ Hc); auto.
  - pose proof (md_ret _ _ _ _ _ _ _ Hm) as Hret. simpl in Hret.
    apply (changed_find_dir x (mkDir [] Metadata_default (Some (id d)) i) sub' d _ v segs Hc); auto.
    right. split; [done|]. intros q. apply find_empty.
Qed.

(** A directory that was just created takes the whole rest of the path. *)
Lemma modify_new wrap full_path f v depth segs : good_action f v →
  (∀ d name i, nodes d = [] → id d ≠ i → ∃ u d' ni, f d name (Some i) = Done (Ok u, d', ni)) →
  segs ≠ [] → Forall segment_ok segs → depth ≠ 0%nat → ∀ p i c, p < i → i < c → c + Z.of_nat (length segs) ≤ usize_max → 0 ≤ i →
  ∃ u d' c', modify_in wrap full_path f depth segs (mkDir [] Metadata_default (Some p) i) c = Done (Ok u, d', c') ∧
    c ≤ c' ≤ c + Z.of_nat (length segs) ∧
    modified v segs c c' (Ok u) (mkDir [] Metadata_default (Some p) i) d'.
Proof.
  intros Hf Hnew. revert depth. induction segs as [|x segs IH]; intros depth Hne Hs Hd p i c Hp Hi Hc H0; [done|].
  apply Forall_cons in Hs as [[Hx Hxs] Hs]. cbn [modify_in nodes id].
  rewrite (bool_decide_eq_false_2 (x = EmptyString)) by done. rewrite (bool_decide_eq_false_2 (depth = 0%nat)) by done.
  cbn [andb negb]. set (d := mkDir [] Metadata_default (Some p) i).
  assert (wf d) as Hw by (apply wf_eq; split; [constructor|]; intros k sub H; by apply elem_of_nil in H).
  assert (∀ j, j ∈ all_ids d → j < c) as Hlt by (intros j ->%list_elem_of_singleton; done).
  case_bool_decide as Hlast.
  - subst segs. destruct (Hnew d x c eq_refl ltac:(simpl; lia)) as (u & d' & ni & E). destruct (Hf d x c Hw Hlt) as (ret & d2 & ni2 & E2 & Hm).
    rewrite E in E2. injection E2 as <- <- <-. rewrite E. cbn [mbind outcome_bind length] in *. destruct ni as [n|].
    + eexists _, _, c. split; [done|]. split; [lia|done].
    + unfold u64_add. rewrite checked_ok by lia. cbn [mbind outcome_bind]. eexists _, _, (c + 1). split; [done|]. split; [lia|done].
  - cbn [BTree.get length] in *. unfold u64_add, new. rewrite checked_ok by lia. cbn [mbind outcome_bind].
    rewrite bool_decide_eq_false_2 by lia. cbn [mbind outcome_bind].
    destruct (IH (S depth) Hlast Hs ltac:(lia) i c (c + 1)) as (u & sub' & c' & -> & Hc' & Hm); [lia..|].
    cbn [mbind outcome_bind]. eexists _, _, c'. split; [done|]. split; [lia|].
    apply (modified_insert v x segs c c' u d sub' Hw Hlast); [|done|lia|done].
    intros y Hy. destruct segs; simplify_eq/=. by apply Forall_cons in Hs as [? _].
Qed.

Lemma modify_in_ok wrap full_path f v : good_action f v →
  (∀ d name i, nodes d = [] → id d ≠ i → ∃ u d' ni, f d name (Some i) = Done (Ok u, d', ni)) →
  ∀ segs depth d c, segs ≠ [] → Forall segment_ok (tail segs) → (∀ x, head segs = Some x → depth ≠ 0%nat → segment_ok x) →
  wf d → 0 ≤ id d → (∀ j, j ∈ all_ids d → 0 ≤ j < c) → c + Z.of_nat (length segs) ≤ usize_max →
  ∃ ret d' c', modify_in wrap full_path f depth segs d c = Done (ret, d', c') ∧
    c ≤ c' ≤ c + Z.of_nat (length segs) ∧ modified v segs c c' ret d d'.
Proof.
  intros Hf Hnew. induction segs as [|x segs IH]; intros depth d c Hne Hs Hhd Hw Hid Hlt Hc; [done|].
  cbn [modify_in]. simpl in Hs. assert (0 ≤ id d < c) as Hidc by (apply Hlt; rewrite all_ids_eq; by left).
  assert (∀ e, ∃ ret d' c', Done (Err (A := unit) e, d, c) = Done (ret, d', c') ∧
    c ≤ c' ≤ c + Z.of_nat (length (x :: segs)) ∧ modified v (x :: segs) c c' ret d d') as Herr.
  { intros e. eexists _, _, _. split; [done|]. split; [lia|by apply modified_refl]. }
  destruct (bool_decide (x = EmptyString) && negb (bool_decide (depth = 0%nat))) eqn:Ep.
  { apply andb_true_iff in Ep as [->%bool_decide_eq_true Hd%negb_true_iff%bool_decide_eq_false].
    destruct (Hhd EmptyString eq_refl Hd) as [[] _]. done. }
  clear Ep. case_match; [apply Herr|]. clear H. set (full := _ && negb (bool_decide (nodes d = []))).
  destruct (decide (segs = [])) as [Hlast|Hlast];
    [rewrite (bool_decide_eq_true_2 (segs = [])) by done|rewrite (bool_decide_eq_false_2 (segs = [])) by done].
  - subst segs. destruct full; [apply Herr|]. destruct (Hf d x c Hw) as (ret & d' & ni & -> & Hm); [intros j Hj; by apply Hlt|].
    cbn [mbind outcome_bind length] in *. destruct ni as [n|].
    + eexists _, _, c. split; [done|]. split; [lia|done].
    + unfold u64_add. rewrite checked_ok by lia. cbn [mbind outcome_bind]. eexists _, _, (c + 1). split; [done|]. split; [lia|done].
  - assert (∀ y, head segs = Some y → segment_ok y) as Hhd'.
    { intros y Hy. destruct segs; simplify_eq/=. by apply Forall_cons in Hs as [? _]. }
    pose proof Hw as [Hnd Hch]%wf_eq. cbn [length] in *.
    destruct (BTree.get x (nodes d)) as [[lc lt|sub]|] eqn:Ex; [apply Herr| |].
    + assert (child_ok (id d) sub) as (Hp & Hn & Hws) by (apply (Hch x); by apply BTree.get_Some).
      assert (∀ j, j ∈ all_ids sub → 0 ≤ j < c) as Hls.
      { intros j Hj. apply Hlt. rewrite all_ids_eq. right. unfold ids_of. apply list_elem_of_bind. exists sub. split; [done|].
        unfold subdirs. apply list_elem_of_omap. exists (x, Directory sub). split; [by apply BTree.get_Some|done]. }
      destruct (IH (S depth) sub c Hlast) as (ret & sub' & c' & -> & Hc' & Hm); try done.
      { destruct segs; [done|]. simpl. by apply Forall_cons in Hs as [_ ?]. }
      { intros y Hy _. by apply Hhd'. }
      { apply Hls. rewrite all_ids_eq. by left. }
      { lia. }
      cbn [mbind outcome_bind]. eexists _, _, c'. split; [done|]. split; [lia|]. by apply (modified_set v x segs c c' ret d sub).
    + destruct full; [apply Herr|]. unfold u64_add, new.
      rewrite checked_ok by lia. cbn [mbind outcome_bind].
      rewrite bool_decide_eq_false_2 by lia. cbn [mbind outcome_bind].
      destruct (modify_new wrap full_path f v (S depth) segs Hf Hnew Hlast Hs ltac:(lia) (id d) c (c + 1))
        as (u & sub' & c' & -> & Hc' & Hm); [lia..|].
      cbn [mbind outcome_bind]. eexists _, _, c'. split; [done|]. split; [lia|]. apply modified_insert; try done. lia.
Qed.

(** ** The two actions *)
Lemma put_action full_path target total_size : good_action (λ parent basename next_id,
    match put_leaf basename target total_size parent with
    | Some d => mret (Ok tt, d, next_id)
    | None => mret (Err (DuplicatePath full_path), parent, next_id)
    end) (Some (target, total_size)).
Proof.
  intros d name i Hw Hlt. unfold put_leaf. destruct (BTree.get name (nodes d)) as [e|] eqn:E.
  { eexists _, _, _. split; [done|]. by apply modified_refl. }
  eexists _, _, _. split; [done|]. pose proof Hw as [Hnd Hch]%wf_eq.
  pose proof (insert_changed name (Leaf target total_size) d E Hnd) as Hc. split; try done.
  - by apply (changed_wf _ _ _ _ Hw Hc).
  - exists []. split_and!; [|constructor|by intros j Hj%elem_of_nil].
    rewrite !all_ids_eq. simpl. by rewrite ids_of_insert.
  - intros y [->|Hy]%(ch_names _ _ _ _ Hc); auto.
  - apply (changed_find_leaf _ _ _ _ _ Hc). by intros sub; rewrite E.
Qed.

Lemma metadata_action full_path m : good_action (λ parent basename next_id,
    r ← set_metadata_at basename next_id m parent;
    let '(od, next_id) := r in
    match od with
    | Some d => mret (Ok tt, d, next_id)
    | None => mret (Err (LeafAsDirectory full_path), parent, next_id)
    end) None.
Proof.
  intros d name i Hw Hlt. unfold set_metadata_at. pose proof Hw as [Hnd Hch]%wf_eq.
  destruct (BTree.get name (nodes d)) as [[c t|sub]|] eqn:E.
  - cbn. eexists _, _, _. split; [done|]. by apply modified_refl.
  - cbn. eexists _, _, _. split; [done|]. set (sub' := mkDir (nodes sub) m (parent_id sub) (id sub)).
    assert (child_ok (id d) sub) as (Hp & Hn & Hws) by (apply (Hch name); by apply BTree.get_Some).
    assert (wf sub') as Hws' by (apply wf_eq; by apply wf_eq in Hws).
    pose proof (set_changed name (Directory sub') d ltac:(by rewrite E) Hnd) as Hc. split; try done.
    + by apply (changed_wf _ _ _ _ Hw Hc).
    + exists []. split_and!; [|constructor|by intros j Hj%elem_of_nil]. rewrite !all_ids_eq. simpl.
      by rewrite (ids_of_set name sub sub' (nodes d) [] Hnd E) by (by rewrite !all_ids_eq).
    + intros y [->|Hy]%(ch_names _ _ _ _ Hc); auto.
    + intros q. destruct q as [|y [|z q]]; [done|..].
      * rewrite !find_single, (ch_get _ _ _ _ Hc). case_bool_decide; [subst y; by rewrite E|done].
      * rewrite !find_cons, (ch_get _ _ _ _ Hc). case_bool_decide; [subst y; rewrite E|done]. done.
  - assert (id d < i) as Hi by (by apply fresh_child). unfold new. rewrite bool_decide_eq_false_2 by lia. cbn.
    eexists _, _, _. split; [done|]. set (sub' := mkDir [] m (Some (id d)) i).
    pose proof (insert_changed name (Directory sub') d E Hnd) as Hc. split; try done.
    + apply (changed_wf _ _ _ _ Hw Hc). split_and!; [done|constructor|]. apply wf_eq.
      split; [constructor|by intros k s Hk%elem_of_nil].
    + exists [i]. split_and!; [|apply NoDup_singleton|intros j ->%list_elem_of_singleton; lia].
      rewrite !all_ids_eq. simpl. rewrite ids_of_insert. unfold ids_of at 1. simpl. apply perm_swap.
    + intros y [->|Hy]%(ch_names _ _ _ _ Hc); auto.
    + intros q. destruct q as [|y [|z q]]; [done|..].
      * rewrite !find_single, (ch_get _ _ _ _ Hc). case_bool_decide; [subst y; by rewrite E|done].
      * rewrite !find_cons, (ch_get _ _ _ _ Hc). case_bool_decide; [subst y; rewrite E; apply find_empty|done].
Qed.

(** ** Paths *)
Lemma split_tail_ok s : ends_with_slash s = false → contains_slashes s = false → Forall segment_ok (tail (split s)).
Proof.
  assert (∀ s, ends_with_slash s = false → contains_slashes s = false → Forall (λ x, x ≠ EmptyString) (tail (split s)) ∧
    ∀ a s', s = String a s' → a ≠ slash → head (split s) ≠ Some EmptyString) as H.
  { clear s. induction s as [|a s IH]; [done|]. cbn [ends_with_slash contains_slashes]. destruct s as [|b s].
    - intros Ha%bool_decide_eq_false _. cbn. rewrite (bool_decide_eq_false_2 (a = slash)) by done. simpl. split; [constructor|done].
    - intros He [Hab Hc]%orb_false_iff. destruct (IH He Hc) as [I1 I2].
      change (split (String a (String b s))) with (if bool_decide (a = slash) then EmptyString :: split (String b s)
        else match split (String b s) with h :: t => String a h :: t | [] => [String a EmptyString] end).
      destruct (split_cons (String b s)) as (h & t & E). rewrite E in *. case_bool_decide as Ha.
      + split; [|by intros ? ? [= <- _]]. simpl. constructor; [|done]. intros ->.
        rewrite andb_true_l in Hab. apply bool_decide_eq_false in Hab. by apply (I2 b s eq_refl Hab).
      + simpl in *. by split. }
  intros He Hc. destruct (H s He Hc) as [H1 _]. pose proof (split_no_slash s) as H2.
  destruct (split s) as [|h t]; [constructor|]. simpl in *. apply Forall_cons in H2 as [_ H2].
  apply Forall_forall. intros x Hx. split; [by eapply Forall_forall in H1|by eapply Forall_forall in H2].
Qed.

(** ** The builder *)
Record binv (b : BufferingTreeBuilder) : Prop := {
  bi_wf : wf (root_builder b);
  bi_names : Forall no_slash (nodes (root_builder b)).*1;
  bi_ids : NoDup (all_ids (root_builder b));
  bi_range j : j ∈ all_ids (root_builder b) → 0 ≤ j < counter b;
  bi_root : id (root_builder b) = 0 ∧ parent_id (root_builder b) = None;
}.

Lemma builder_new_inv o : binv (builder_new o).
Proof.
  split; simpl; [split; [constructor|done]|constructor|apply NoDup_singleton| |done].
  intros j ->%list_elem_of_singleton. lia.
Qed.

Lemma modify_with_ok full_path f v b : good_action f v →
  (∀ d name i, nodes d = [] → id d ≠ i → ∃ u d' ni, f d name (Some i) = Done (Ok u, d', ni)) →
  binv b → counter b + Z.of_nat (length (split full_path)) ≤ usize_max →
  ∃ ret b', modify_with full_path f b = Done (ret, b') ∧ binv b' ∧ opts b' = opts b ∧
    counter b' ≤ counter b + Z.of_nat (length (split full_path)) ∧
    match ret with
    | Err _ => root_builder b' = root_builder b
    | Ok _ => ∀ q, find q (root_builder b') = match v with
        | Some x => if bool_decide (q = split full_path) then Some x else find q (root_builder b)
        | None => find q (root_builder b) end
    end.
Proof.
  intros Hf Hnew [B1 B2 B3 B4 [B5 B6]] Hc. unfold modify_with. cbn [root_builder counter opts].
  assert (∀ e : TreeBuildingFailed, ∃ ret b', Done (Err (A := unit) e, mk (root_builder b)
      (Z.max (vec_len (str_bytes full_path)) (longest_path b)) (counter b) (opts b)) = Done (ret, b') ∧ binv b' ∧ opts b' = opts b ∧
    counter b' ≤ counter b + Z.of_nat (length (split full_path)) ∧
    match ret with
    | Err _ => root_builder b' = root_builder b
    | Ok _ => ∀ q, find q (root_builder b') = match v with
        | Some x => if bool_decide (q = split full_path) then Some x else find q (root_builder b)
        | None => find q (root_builder b) end
    end) as Herr.
  { intros e. eexists _, _. split; [done|]. split_and!; [by split|done|simpl; lia|done]. }
  destruct (ends_with_slash full_path) eqn:E1; [apply Herr|]. destruct (contains_slashes full_path) eqn:E2; [apply Herr|].
  clear Herr. destruct (split_cons full_path) as (h & t & Es).
  destruct (modify_in_ok (wrap_with_directory (opts b)) full_path f v Hf Hnew (split full_path) 0 (root_builder b) (counter b))
    as (ret & d' & c' & -> & Hc' & Hm); try done; [by rewrite Es|by apply split_tail_ok|lia|].
  cbn [mbind outcome_bind]. eexists _, _. split; [done|]. destruct (md_ids _ _ _ _ _ _ _ Hm) as (news & Hp & Hnd & Hr).
  split_and!; [|done|simpl; lia|].
  - split; simpl.
    + apply Hm.
    + apply Forall_forall. intros y [Hy|Hy]%(md_names _ _ _ _ _ _ _ Hm); [|by eapply Forall_forall in B2].
      pose proof (split_no_slash full_path) as Hns. rewrite Es in Hy, Hns. injection Hy as ->. by apply Forall_cons in Hns as [? _].
    + rewrite Hp. apply NoDup_app. split_and!; [done| |done]. intros j Hj%Hr Hj'%B4. lia.
    + intros j. rewrite Hp. intros [Hj%Hr|Hj%B4]%elem_of_app; [|lia].
      assert (0 ≤ id (root_builder b) < counter b) by (apply B4; rewrite all_ids_eq; by left). lia.
    + by rewrite (md_id _ _ _ _ _ _ _ Hm), (md_parent _ _ _ _ _ _ _ Hm).
  - pose proof (md_ret _ _ _ _ _ _ _ Hm) as Hret. destruct ret; [done|]. by destruct Hret.
Qed.

Lemma put_link_ok full_path target total_size b :
  binv b → counter b + Z.of_nat (length (split full_path)) ≤ usize_max →
  ∃ ret b', put_link full_path target total_size b = Done (ret, b') ∧ binv b' ∧ opts b' = opts b ∧
    counter b' ≤ counter b + Z.of_nat (length (split full_path)) ∧
    match ret with
    | Err _ => root_builder b' = root_builder b
    | Ok _ => ∀ q, find q (root_builder b') =
        if bool_decide (q = split full_path) then Some (target, total_size) else find q (root_builder b)
    end.
Proof.
  apply (modify_with_ok _ _ (Some (target, total_size)) b (put_action full_path target total_size)).
  intros d name i Hd _. unfold put_leaf. rewrite Hd. by eexists _, _, _.
Qed.

Lemma set_metadata_ok full_path m b :
  binv b → counter b + Z.of_nat (length (split full_path)) ≤ usize_max →
  ∃ ret b', set_metadata full_path m b = Done (ret, b') ∧ binv b' ∧ opts b' = opts b ∧
    counter b' ≤ counter b + Z.of_nat (length (split full_path)) ∧
    match ret with
    | Err _ => root_builder b' = root_builder b
    | Ok _ => ∀ q, find q (root_builder b') = find q (root_builder b)
    end.
Proof.
  apply (modify_with_ok _ _ None b (metadata_action full_path m)).
  intros d name i Hd Hi. unfold set_metadata_at, new. rewrite Hd. cbn [BTree.get].
  rewrite bool_decide_eq_false_2 by done. by eexists _, _, _.
Qed.
End tree.
End DirTree.
