(* ===== verification/DirIter.v ===== *)
(** * Rendering a directory tree

    unixfs/src/dir/builder/custom_pb.rs writes a directory node straight from its
    named leaves, builder/iter.rs walks the tree of the builder in post-order and
    renders one dag-pb block for every directory. *)
From stdpp Require Import base gmap list strings.
From Stdlib Require Import Strings.Byte.
From S2P Require Import Prelude Protobuf UnixFsPb FileReader Path DirBuilder.
Local Open Scope Z_scope.

(** ** Parts of a content identifier

    [Cid::version], [Cid::codec] and [Cid::hash().to_bytes()] of the crate [cid],
    with the byte layout of the two versions. *)
Inductive CidVersion := V0 | V1.
Class CidLayout `{cc : CidCodec} {qp : QuickProtobuf} := {
  cid_version : Cid → CidVersion;
  cid_codec : Cid → Z;
  cid_hash : Cid → list byte;
  cid_codec_u64 c : 0 ≤ cid_codec c < 2 ^ 64;
  (** A version 0 identifier is one of dag-pb. *)
  cid_v0_codec b : cid_codec (sha2_256_v0 b) = 112;
  cid_bytes_layout c : cid_to_bytes c =
    match cid_version c with
    | V0 => cid_hash c
    | V1 => [byte_of_Z 1] ++ wr uint64 (cid_codec c) ++ cid_hash c
    end;
}.

(** [Writer::new(BytesWriter::new(&mut buffer[..]))] of [quick_protobuf]: what is
    written replaces the first bytes of a buffer that is long enough. *)
Class BytesWriter {qp : QuickProtobuf} := {
  bytes_write : list byte → list byte → result unit PbError * list byte;
  bytes_write_fits buffer out : (length out ≤ length buffer)%nat →
    bytes_write buffer out = (Ok tt, out ++ drop (length out) buffer);
}.

Module CustomPb.
Import Pb Merkledag UnixFsData.
Section custom.
  Context `{cl : CidLayout}.

Record NamedLeaf := mkNamed { leaf_name : string; leaf_link : Cid; leaf_total : Z }.

Definition WriteableCid_get_size (c : Cid) : Z :=
  let hash_len := vec_len (cid_hash c) in
  match cid_version c with
  | V0 => hash_len
  | V1 => 1 + sizeof_varint (cid_codec c) + hash_len
  end.
Definition WriteableCid_write (c : Cid) : list byte :=
  match cid_version c with
  | V0 => []
  | V1 => [byte_of_Z 1] ++ wr uint64 (cid_codec c)
  end ++ cid_hash c.

Definition NamedLeaf_get_size (l : NamedLeaf) : Z :=
  1 + sizeof_len (vec_len (str_bytes (leaf_name l)))
  + 1 + sizeof_len (WriteableCid_get_size (leaf_link l))
  + 1 + sizeof_varint (leaf_total l).
Definition NamedLeaf_write (l : NamedLeaf) : list byte :=
  write_with_tag 10 (write_message (WriteableCid_get_size (leaf_link l)) (WriteableCid_write (leaf_link l)))
  ++ write_with_tag 18 (wr str (leaf_name l))
  ++ write_with_tag 24 (wr uint64 (leaf_total l)).

(** [mapped]: every link has to be there. *)
Fixpoint mapped (links : list (option NamedLeaf)) : outcome (list NamedLeaf) :=
  match links with
  | [] => mret []
  | Some l :: links => ls ← mapped links; mret (l :: ls)
  | None :: _ => Panic
  end.

Definition CustomFlatUnixFs_get_size (links : list (option NamedLeaf)) (data : UnixFs) : outcome Z :=
  ls ← mapped links;
  mret (Zsum ((λ l, 1 + sizeof_len (NamedLeaf_get_size l)) <$> ls) + 1 + sizeof_len (UnixFs_get_size data)).
Definition CustomFlatUnixFs_write (links : list (option NamedLeaf)) (data : UnixFs) : outcome (list byte) :=
  ls ← mapped links;
  mret (concat ((λ l, write_with_tag 18 (write_message (NamedLeaf_get_size l) (NamedLeaf_write l))) <$> ls)
        ++ write_with_tag 10 (write_message (UnixFs_get_size data) (UnixFs_write data))).
End custom.
End CustomPb.

Module DirIter.
Import Slashes UnixFsData CustomPb DirBuilder.
Section iter.
  Context `{cl : CidLayout} {bw : BytesWriter}.

Definition Leaves : Type := list (option NamedLeaf).
Inductive LeafStorage := Direct (leaves : Leaves) | Stashed (id : Z).

Inductive Visited :=
  | DescentRoot (node : DirBuilder)
  | Descent (node : DirBuilder) (name : string) (depth index : nat)
  | Post (parent_id : Z) (depth : nat) (name : string) (index : nat) (leaves : LeafStorage)
  | PostRoot (leaves : LeafStorage).

Inductive TreeConstructionFailed :=
  | Protobuf (e : PbError)
  | TooLargeBlock (size : Z).

(** [TreeNode] and [OwnedTreeNode]. *)
Record TreeNode := mkNode { path : string; node_cid : Cid; node_total_size : Z; block : list byte }.

(** [pending] is the stack, its top first.  [reused_children] is empty whenever a
    step begins and is left out. *)
Record PostOrderIterator := mkIter {
  full_path : string;
  old_depth : nat;
  block_buffer : list byte;
  pending : list Visited;
  persisted_cids : gmap Z Leaves;
  last_cid : option Cid;
  total_size : Z;
  opts : TreeOptions;
}.
Definition iter_new (root : DirBuilder) (opts : TreeOptions) : PostOrderIterator :=
  mkIter EmptyString 0 [] [DescentRoot root] ∅ None 0 opts.
Definition build (b : BufferingTreeBuilder) : PostOrderIterator := iter_new (root_builder b) (DirBuilder.opts b).

Definition directory_data : UnixFs := mkUnixFs UnixFsData.Directory None None [] None None None None.

(** The identifier and total size of a rendered directory, and the buffer. *)
Definition render_directory (links : Leaves) (buffer : list byte) (limit : option Z) :
    outcome (result (Cid * Z) TreeConstructionFailed * list byte) :=
  size ← CustomFlatUnixFs_get_size links directory_data;
  if match limit with Some limit => bool_decide (limit < size) | None => false end
  then mret (Err (TooLargeBlock size), buffer)
  else
    let buffer := buffer ++ replicate (Z.to_nat (size - vec_len buffer)) x00 in
    out ← CustomFlatUnixFs_write links directory_data;
    match bytes_write buffer out with
    | (Err e, buffer) => mret (Err (Protobuf e), buffer)
    | (Ok _, buffer) =>
        let buffer := take (Z.to_nat size) buffer in
        ls ← mapped links;
        combined_from_links ← usize_sum (leaf_total <$> ls);
        total ← u64_add (vec_len buffer) combined_from_links;
        mret (Ok (sha2_256_v0 buffer, total), buffer)
    end.

(** [rposition] of the last slash: what is before and after it. *)
Fixpoint rsplit_slash (s : string) : option (string * string) :=
  match s with
  | EmptyString => None
  | String a s =>
      match rsplit_slash s with
      | Some (x, y) => Some (String a x, y)
      | None => if bool_decide (a = slash) then Some (EmptyString, s) else None
      end
  end.

(** The [while] loop of [update_full_path]; [true] when it returns from the
    function. *)
Fixpoint pop_segments (old_depth depth : nat) (name : option string) (full_path : string) :
    outcome (bool * string * nat) :=
  match old_depth with
  | O => mret (false, full_path, O)
  | S d =>
      if bool_decide (depth ≤ old_depth)%nat then
        match rsplit_slash full_path with
        | Some (parent, last) =>
            if bool_decide (old_depth = depth) && bool_decide (Some last = name)
            then mret (true, full_path, old_depth)
            else pop_segments d depth name parent
        | None => Panic
        end
      else mret (false, full_path, old_depth)
  end.

Definition update_full_path (full_path : string) (old_depth : nat) (name : option string) (depth : nat) :
    outcome (string * nat) :=
  r ← (if bool_decide (depth < 2)%nat then Done (false, EmptyString, O)
       else pop_segments old_depth depth name full_path);
  let '(returned, full_path, old_depth) := r in
  if (returned : bool) then mret (full_path, old_depth)
  else
    rust_assert (bool_decide (old_depth ≤ depth)%nat);;
    let '(full_path, old_depth) :=
      match name with
      | Some name =>
          ((if bool_decide (full_path = EmptyString) then name else full_path +:+ String slash name), S old_depth)
      | None => (full_path, old_depth)
      end in
    rust_assert (bool_decide (old_depth = depth));;
    mret (full_path, old_depth).

(** The leaves, with holes for the directories, and the directories in order. *)
Fixpoint partition_from (i depth : nat) (it : list (string * Entry)) : Leaves * list Visited :=
  match it with
  | [] => ([], [])
  | (k, Directory node) :: it =>
      let '(leaves, children) := partition_from (S i) depth it in
      (None :: leaves, Descent node k (S depth) i :: children)
  | (k, Leaf link total_size) :: it =>
      let '(leaves, children) := partition_from (S i) depth it in
      (Some (mkNamed k link total_size) :: leaves, children)
  end.
Definition partition_children_leaves (depth : nat) (it : list (string * Entry)) : Leaves * list Visited :=
  partition_from 0 depth it.

Definition into_inner (s : LeafStorage) (stash : gmap Z Leaves) : outcome (Leaves * gmap Z Leaves) :=
  match s with
  | Direct leaves => mret (leaves, stash)
  | Stashed id => match stash !! id with Some leaves => mret (leaves, delete id stash) | None => Panic end
  end.

(** Where the leaves of a directory wait for its subdirectories. *)
Definition store_leaves (id : Z) (leaves : Leaves) (children : list Visited) (stash : gmap Z Leaves) :
    LeafStorage * gmap Z Leaves :=
  if bool_decide (children = []) then (Direct leaves, stash) else (Stashed id, <[id := leaves]> stash).

Definition name_and_depth (v : Visited) : option string * nat :=
  match v with
  | DescentRoot _ => (None, O)
  | Descent _ name depth _ => (Some name, depth)
  | Post _ depth name _ _ => (Some name, depth)
  | PostRoot _ => (None, O)
  end.

(** The link to a finished directory goes into the leaves of its parent. *)
Definition fill_parent (parent_id : Z) (index : nat) (l : NamedLeaf) (stash : gmap Z Leaves) : outcome (gmap Z Leaves) :=
  match stash !! parent_id with
  | None => Panic
  | Some vec =>
      match vec !! index with
      | Some None => mret (<[parent_id := <[index := Some l]> vec]> stash)
      | _ => Panic
      end
  end.

(** What one turn of the [while let] of [next_borrowed] does. *)
Inductive turn :=
  | Continue
  | Break
  | Return (r : result TreeNode TreeConstructionFailed).

Definition visit (v : Visited) (it : PostOrderIterator) : outcome (turn * PostOrderIterator) :=
  let '(name, depth) := name_and_depth v in
  p ← update_full_path (full_path it) (old_depth it) name depth;
  let '(fp, od) := p in
  match v with
  | DescentRoot node =>
      let '(leaves, children) := partition_children_leaves depth (nodes node) in
      let '(leaves, stash) := store_leaves (id node) leaves children (persisted_cids it) in
      mret (Continue, mkIter fp od (block_buffer it) (rev children ++ PostRoot leaves :: pending it) stash
                        (last_cid it) (total_size it) (opts it))
  | Descent node name depth index =>
      let '(leaves, children) := partition_children_leaves depth (nodes node) in
      match parent_id node with
      | None => Panic
      | Some parent_id =>
          let '(leaves, stash) := store_leaves (id node) leaves children (persisted_cids it) in
          mret (Continue, mkIter fp od (block_buffer it) (rev children ++ Post parent_id depth name index leaves :: pending it)
                            stash (last_cid it) (total_size it) (opts it))
      end
  | Post parent_id _ name index leaves =>
      r ← into_inner leaves (persisted_cids it);
      let '(leaves, stash) := r in
      r ← render_directory leaves (block_buffer it) (block_size_limit (opts it));
      match r with
      | (Err e, buffer) =>
          mret (Return (Err e), mkIter fp od buffer (pending it) stash (last_cid it) (total_size it) (opts it))
      | (Ok (link, total), buffer) =>
          stash ← fill_parent parent_id index (mkNamed name link total) stash;
          mret (Return (Ok (mkNode fp link total buffer)),
                mkIter fp od buffer (pending it) stash (Some link) total (opts it))
      end
  | PostRoot leaves =>
      r ← into_inner leaves (persisted_cids it);
      let '(leaves, stash) := r in
      if negb (wrap_with_directory (opts it)) then
        mret (Break, mkIter fp od (block_buffer it) (pending it) stash (last_cid it) (total_size it) (opts it))
      else
        r ← render_directory leaves (block_buffer it) (block_size_limit (opts it));
        match r with
        | (Err e, buffer) =>
            mret (Return (Err e), mkIter fp od buffer (pending it) stash (last_cid it) (total_size it) (opts it))
        | (Ok (link, total), buffer) =>
            mret (Return (Ok (mkNode fp link total buffer)),
                  mkIter fp od buffer (pending it) stash (Some link) total (opts it))
        end
  end.

Fixpoint next_borrowed (fuel : nat) (it : PostOrderIterator) :
    outcome (option (result TreeNode TreeConstructionFailed) * PostOrderIterator) :=
  match fuel with
  | O => OutOfFuel
  | S fuel =>
      match pending it with
      | [] => mret (None, it)
      | v :: rest =>
          r ← visit v (mkIter (full_path it) (old_depth it) (block_buffer it) rest (persisted_cids it)
                         (last_cid it) (total_size it) (opts it));
          match r with
          | (Continue, it) => next_borrowed fuel it
          | (Break, it) => mret (None, it)
          | (Return r, it) => mret (Some r, it)
          end
      end
  end.

(** [while let Some(node) = iter.next_borrowed() { let node = node?; … }]: the
    nodes, and the error that ended the loop if there was one. *)
Fixpoint collect (turns fuel : nat) (it : PostOrderIterator) :
    outcome (list TreeNode * option TreeConstructionFailed) :=
  match turns with
  | O => OutOfFuel
  | S turns =>
      r ← next_borrowed fuel it;
      match r with
      | (None, _) => mret ([], None)
      | (Some (Err e), _) => mret ([], Some e)
      | (Some (Ok n), it) => r ← collect turns fuel it; mret (n :: r.1, r.2)
      end
  end.
End iter.
End DirIter.
