(* ===== verification/DirIterProofs.v ===== *)
(** * What the post-order walk renders

    The custom writer against the message it stands for, the tree that the
    iterator is meant to render as a recursive definition, and the run of the
    iterator over it. *)
From stdpp Require Import base gmap list strings.
From Stdlib Require Import Strings.Byte.
From S2P Require Import Prelude Protobuf UnixFsPb FileReader FileAdder Path DirBuilder DirBuilderProofs DirIter.
Local Open Scope Z_scope.

(** ** The custom writer *)
Module CustomWriter.
Import Pb Merkledag UnixFsData Flat CustomPb.
Section custom.
  Context `{cl : CidLayout}.

Definition to_link (l : NamedLeaf) : PBLink :=
  mkPBLink (Some (cid_to_bytes (leaf_link l))) (Some (leaf_name l)) (Some (leaf_total l)).

Lemma WriteableCid_write_eq c : WriteableCid_write c = cid_to_bytes c.
Proof. unfold WriteableCid_write. rewrite cid_bytes_layout. by destruct (cid_version c). Qed.
Lemma WriteableCid_size c : WriteableCid_get_size c = vec_len (cid_to_bytes c).
Proof.
  unfold WriteableCid_get_size. rewrite cid_bytes_layout. destruct (cid_version c); [done|].
  rewrite !vec_len_app, uint64_size by apply cid_codec_u64. unfold vec_len at 2. simpl. lia.
Qed.

Lemma NamedLeaf_size l : NamedLeaf_get_size l = PBLink_get_size (to_link l).
Proof. unfold NamedLeaf_get_size, PBLink_get_size. simpl. rewrite WriteableCid_size. lia. Qed.
Lemma NamedLeaf_write_eq l : vec_len (cid_to_bytes (leaf_link l)) < pb_limit →
  NamedLeaf_write l = PBLink_write (to_link l).
Proof.
  intros Hl. unfold NamedLeaf_write, PBLink_write. simpl. rewrite WriteableCid_size, WriteableCid_write_eq.
  by rewrite write_message_eq.
Qed.

Lemma mapped_some ls : mapped (Some <$> ls) = Done ls.
Proof. induction ls as [|l ls IH]; [done|]. rewrite fmap_cons. cbn [mapped]. by rewrite IH. Qed.

Lemma custom_size ls d :
  CustomFlatUnixFs_get_size (Some <$> ls) d = Done (FlatUnixFs_get_size (mkFlat (to_link <$> ls) d)).
Proof.
  unfold CustomFlatUnixFs_get_size, FlatUnixFs_get_size. rewrite mapped_some. cbn [mbind outcome_bind links data].
  rewrite <-list_fmap_compose. rewrite (list_fmap_ext _ ((λ s, 1 + sizeof_len (PBLink_get_size s)) ∘ to_link)).
  { unfold mret, outcome_ret. f_equal. lia. }
  intros i l _. simpl. by rewrite NamedLeaf_size.
Qed.
Lemma custom_write ls d : Forall (λ l, vec_len (cid_to_bytes (leaf_link l)) < pb_limit) ls →
  CustomFlatUnixFs_write (Some <$> ls) d = Done (FlatUnixFs_write (mkFlat (to_link <$> ls) d)).
Proof.
  intros Hl. unfold CustomFlatUnixFs_write, FlatUnixFs_write, write_links. rewrite mapped_some.
  cbn [mbind outcome_bind links data]. rewrite <-list_fmap_compose. unfold mret, outcome_ret. do 3 f_equal.
  apply list_fmap_ext. intros i l Hi. eapply Forall_lookup in Hl; [|done]. simpl. by rewrite NamedLeaf_size, NamedLeaf_write_eq.
Qed.
End custom.
End CustomWriter.

Module DirRender.
Import Slashes Merkledag UnixFsData Flat CustomPb CustomWriter Path DirBuilder DirTree DirIter.
Section render.
  Context `{cl : CidLayout} {bw : BytesWriter}.

(** ** The tree to render *)
Definition dir_flat (ls : list NamedLeaf) : FlatUnixFs := mkFlat (to_link <$> ls) directory_data.
Definition dir_block (ls : list NamedLeaf) : list byte := FlatUnixFs_write (dir_flat ls).
Definition dir_total (ls : list NamedLeaf) : Z := vec_len (dir_block ls) + Zsum (leaf_total <$> ls).
Definition dir_leaf (name : string) (ls : list NamedLeaf) : NamedLeaf :=
  mkNamed name (sha2_256_v0 (dir_block ls)) (dir_total ls).
Definition dir_node (segs : list string) (ls : list NamedLeaf) : TreeNode :=
  mkNode (join segs) (sha2_256_v0 (dir_block ls)) (dir_total ls) (dir_block ls).

(** The links of a directory, its subdirectories rendered. *)
Fixpoint leaves_of (d : DirBuilder) : list NamedLeaf :=
  match d with
  | mkDir n _ _ _ =>
      (fix go (l : list (string * Entry)) : list NamedLeaf :=
         match l with
         | [] => []
         | (k, Leaf c t) :: l => mkNamed k c t :: go l
         | (k, Directory sub) :: l => dir_leaf k (leaves_of sub) :: go l
         end) n
  end.
Definition entry_leaf (ke : string * Entry) : NamedLeaf :=
  match ke.2 with Leaf c t => mkNamed ke.1 c t | Directory sub => dir_leaf ke.1 (leaves_of sub) end.
Lemma leaves_of_eq d : leaves_of d = entry_leaf <$> nodes d.
Proof. destruct d as [n m p i]. cbn [leaves_of nodes]. induction n as [|[k [c t|sub]] n IH]; [done|..]; cbn; by f_equal. Qed.

(** The nodes of a directory's descendants, then its own: last entries first. *)
Fixpoint emitted (segs : list string) (d : DirBuilder) : list TreeNode :=
  match d with
  | mkDir n _ _ _ =>
      (fix go (l : list (string * Entry)) : list TreeNode :=
         match l with
         | [] => []
         | (k, Leaf c t) :: l => go l
         | (k, Directory sub) :: l => go l ++ emitted (segs ++ [k]) sub
         end) n ++ [dir_node segs (leaves_of d)]
  end.
Fixpoint below (segs : list string) (l : list (string * Entry)) : list TreeNode :=
  match l with
  | [] => []
  | (k, Leaf c t) :: l => below segs l
  | (k, Directory sub) :: l => below segs l ++ emitted (segs ++ [k]) sub
  end.
Lemma emitted_eq segs d : emitted segs d = below segs (nodes d) ++ [dir_node segs (leaves_of d)].
Proof. destruct d as [n m p i]. cbn [emitted nodes]. f_equal. induction n as [|[k [c t|sub]] n IH]; cbn; [done|done|by f_equal]. Qed.

(** Within the ranges of the wire format and of [u64]. *)
Definition dir_range (ls : list NamedLeaf) : Prop :=
  Forall (λ l, PBLink_range (to_link l)) ls ∧ dir_total ls ≤ usize_max.
Fixpoint in_range (d : DirBuilder) : Prop :=
  match d with
  | mkDir n _ _ _ =>
      dir_range (leaves_of d) ∧
      (fix go (l : list (string * Entry)) : Prop :=
         match l with
         | [] => True
         | (_, Leaf _ _) :: l => go l
         | (_, Directory sub) :: l => in_range sub ∧ go l
         end) n
  end.
Lemma in_range_eq d : in_range d ↔ dir_range (leaves_of d) ∧ ∀ k sub, (k, Directory sub) ∈ nodes d → in_range sub.
Proof.
  destruct d as [n m p i]. cbn [in_range nodes]. apply and_iff_compat_l.
  induction n as [|[k [c t|sub]] n IH].
  - split; [intros _ k sub H; by apply elem_of_nil in H|done].
  - rewrite IH. split; intros H k' sub' Hin; [|apply (H k'); by right].
    apply elem_of_cons in Hin as [[=]|Hin]. by eapply H.
  - rewrite IH. split.
    + intros [Hs H] k' sub' [[= -> ->]|Hin]%elem_of_cons; [done|by eapply H].
    + intros H. split; [apply (H k); by left|]. intros k' sub' Hin. apply (H k'). by right.
Qed.

(** ** Rendering one directory *)
Lemma directory_data_range : UnixFs_range directory_data ∧ UnixFs_get_size directory_data < pb_limit.
Proof.
  unfold UnixFs_range, UnixFs_get_size, directory_data. simpl. split; [split_and!; done || constructor|].
  pose proof (sizeof_varint_bound (DataType_into UnixFsData.Directory)). simpl in *. unfold pb_limit. lia.
Qed.
Lemma dir_flat_range ls : Forall (λ l, PBLink_range (to_link l)) ls → FlatUnixFs_range (dir_flat ls).
Proof. intros Hl. split; [simpl; by rewrite Forall_fmap|apply directory_data_range]. Qed.
Lemma dir_block_size ls : Forall (λ l, PBLink_range (to_link l)) ls →
  FlatUnixFs_get_size (dir_flat ls) = vec_len (dir_block ls).
Proof. intros Hl. symmetry. apply FlatUnixFs_size. by apply dir_flat_range. Qed.

Definition fits (limit : option Z) (b : list byte) : Prop :=
  match limit with Some l => vec_len b ≤ l | None => True end.
#[export] Instance fits_dec limit b : Decision (fits limit b).
Proof. destruct limit; simpl; apply _. Defined.

Lemma render_ok ls buffer limit : dir_range ls →
  render_directory (Some <$> ls) buffer limit =
    Done (if decide (fits limit (dir_block ls))
          then (Ok (sha2_256_v0 (dir_block ls), dir_total ls), dir_block ls)
          else (Err (TooLargeBlock (vec_len (dir_block ls))), buffer)).
Proof.
  intros [Hl Ht]. unfold render_directory. rewrite custom_size. fold (dir_flat ls). rewrite dir_block_size by done.
  cbn [mbind outcome_bind].
  assert (match limit with Some l => bool_decide (l < vec_len (dir_block ls)) | None => false end =
    bool_decide (¬ fits limit (dir_block ls))) as ->.
  { destruct limit as [l|]; simpl; [apply bool_decide_ext; lia|done]. }
  destruct (decide (fits limit (dir_block ls))) as [Hf|Hf];
    [rewrite (bool_decide_eq_false_2 (¬ _)) by tauto|by rewrite bool_decide_eq_true_2].
  rewrite custom_write by (eapply Forall_impl; [exact Hl|]; by intros l ((? & _) & _)). fold (dir_flat ls). fold (dir_block ls).
  cbn [mbind outcome_bind]. rewrite bytes_write_fits.
  2: { rewrite length_app, length_replicate. unfold vec_len. lia. }
  assert (take (Z.to_nat (vec_len (dir_block ls))) (dir_block ls ++ drop (length (dir_block ls))
    (buffer ++ replicate (Z.to_nat (vec_len (dir_block ls) - vec_len buffer)) "000"%byte)) = dir_block ls) as ->.
  { unfold vec_len. rewrite Nat2Z.id. by rewrite take_app_length. }
  rewrite mapped_some. cbn [mbind outcome_bind]. unfold dir_total in *.
  assert (Forall (λ x, 0 ≤ x) (leaf_total <$> ls)) as Hn.
  { apply Forall_fmap. eapply Forall_impl; [exact Hl|]. intros l ((_ & _ & Hz) & _). simpl in *. lia. }
  pose proof (Pb.vec_len_nonneg (dir_block ls)). pose proof (Zsum_nonneg _ Hn).
  rewrite usize_sum_ok by (done || lia). cbn [mbind outcome_bind]. unfold u64_add. by rewrite checked_ok by lia.
Qed.

(** ** Paths of the visited directories *)
Lemma rsplit_no_slash s : no_slash s → rsplit_slash s = None.
Proof. induction s as [|a s IH]; simpl; [done|]. intros [Ha Hs]. rewrite IH by done. by rewrite bool_decide_eq_false_2. Qed.
Lemma rsplit_last x y : no_slash y → rsplit_slash (x +:+ String slash y) = Some (x, y).
Proof.
  intros Hy. induction x as [|a x IH]; simpl; [by rewrite rsplit_no_slash|].
  change (String.append x (String slash y)) with (x +:+ String slash y). by rewrite IH.
Qed.
Lemma join_snoc p x : p ≠ [] → join (p ++ [x]) = join p +:+ String slash x.
Proof. intros Hp. by rewrite join_app. Qed.

Lemma pop_segments_prefix p ext name : p ≠ [] → Forall segment_ok (p ++ ext) →
  pop_segments (length (p ++ ext)) (S (length p)) (Some name) (join (p ++ ext)) =
    Done (match ext with
          | x :: _ => if bool_decide (x = name) then (true, join (p ++ [name]), S (length p)) else (false, join p, length p)
          | [] => (false, join p, length p)
          end).
Proof.
  intros Hp. induction ext as [|x ext IH] using rev_ind; intros Hs.
  { rewrite app_nil_r. destruct p as [|y p]; [done|]. cbn [length pop_segments].
    by rewrite bool_decide_eq_false_2 by lia. }
  rewrite app_assoc in *. apply Forall_app in Hs as [Hs Hx]. apply Forall_singleton in Hx as [_ Hx].
  rewrite join_snoc by (intros [? _]%app_eq_nil; done). rewrite (length_app (p ++ ext) [x]), Nat.add_1_r. cbn [pop_segments].
  rewrite bool_decide_eq_true_2 by (rewrite length_app; lia). rewrite rsplit_last by done.
  destruct ext as [|y ext].
  - rewrite app_nil_r in *. rewrite (bool_decide_eq_true_2 (S (length p) = S (length p))) by done. cbn [andb].
    destruct (decide (x = name)) as [->|Hn].
    + cbn [app]. rewrite !bool_decide_eq_true_2 by done. by rewrite join_snoc.
    + cbn [app]. rewrite !bool_decide_eq_false_2 by congruence. by apply IH.
  - rewrite (bool_decide_eq_false_2 (S (length (p ++ y :: ext)) = S (length p))) by (rewrite length_app; simpl; lia).
    cbn [andb app]. by apply IH.
Qed.

Lemma update_full_path_ok p ext name : Forall segment_ok (p ++ ext) → 
  update_full_path (join (p ++ ext)) (length (p ++ ext)) (Some name) (S (length p)) =
    Done (join (p ++ [name]), length (p ++ [name])).
Proof.
  intros Hs. rewrite (length_app p [name]), Nat.add_1_r. unfold update_full_path. destruct (decide (p = [])) as [->|Hp].
  { rewrite bool_decide_eq_true_2 by (simpl; lia). done. }
  rewrite bool_decide_eq_false_2 by (destruct p; simpl; [done|lia]). rewrite pop_segments_prefix by done.
  cbn [mbind outcome_bind].
  assert (join p ≠ EmptyString) as He.
  { apply Forall_app in Hs as [Hs _]. destruct p as [|y [|z p]]; [done|..]; apply Forall_cons in Hs as [[Hy _] _]; [done|].
    rewrite join_cons by done. by destruct y. }
  assert (∀ b : bool, (if b then mret (join (p ++ [name]), S (length p)) else
    rust_assert (bool_decide (length p ≤ S (length p))%nat);;
    let '(fp, od) := (if bool_decide (join p = EmptyString) then name else join p +:+ String slash name, S (length p)) in
    rust_assert (bool_decide (od = S (length p)));; mret (fp, od)) = Done (join (p ++ [name]), S (length p))) as Hb.
  { intros []; [done|]. rewrite (bool_decide_eq_true_2 (_ ≤ _)%nat) by lia.
    rewrite bool_decide_eq_false_2 by done. cbn. rewrite bool_decide_eq_true_2 by done. cbn. by rewrite join_snoc. }
  destruct ext as [|x ext]; [apply (Hb false)|]. destruct (decide (x = name)).
  - rewrite (bool_decide_eq_true_2 (x = name)) by done. apply (Hb true).
  - rewrite (bool_decide_eq_false_2 (x = name)) by done. apply (Hb false).
Qed.

(** ** Runs of the iterator

    [reaches it ns n it']: after [n] turns, which returned the nodes [ns]. *)
Definition with_pending (l : list Visited) (it : PostOrderIterator) : PostOrderIterator :=
  mkIter (full_path it) (old_depth it) (block_buffer it) l (persisted_cids it) (last_cid it) (total_size it) (opts it).
Inductive reaches : PostOrderIterator → list TreeNode → nat → PostOrderIterator → Prop :=
  | reaches_refl it : reaches it [] 0 it
  | reaches_continue it v rest it1 ns n it' :
      pending it = v :: rest → visit v (with_pending rest it) = Done (Continue, it1) →
      reaches it1 ns n it' → reaches it ns (S n) it'
  | reaches_return it v rest x it1 ns n it' :
      pending it = v :: rest → visit v (with_pending rest it) = Done (Return (Ok x), it1) →
      reaches it1 ns n it' → reaches it (x :: ns) (S n) it'.
(** [stops it ns n fin]: the loop over the nodes ends in turn [n]. *)
Definition ends_with (it : PostOrderIterator) (fin : option TreeConstructionFailed) : Prop :=
  (pending it = [] ∧ fin = None) ∨
  ∃ v rest t it', pending it = v :: rest ∧ visit v (with_pending rest it) = Done (t, it') ∧
    (t = Break ∧ fin = None ∨ ∃ e, t = Return (Err e) ∧ fin = Some e).
Definition stops (it : PostOrderIterator) (ns : list TreeNode) (n : nat) (fin : option TreeConstructionFailed) : Prop :=
  ∃ it', reaches it ns n it' ∧ ends_with it' fin.

Lemma reaches_trans it ns n it' ns' n' it'' :
  reaches it ns n it' → reaches it' ns' n' it'' → reaches it (ns ++ ns') (n + n') it''.
Proof. induction 1; intros; simpl; [done|by eapply reaches_continue; eauto|by eapply reaches_return; eauto]. Qed.

Lemma next_mono fuel it r : next_borrowed fuel it = Done r → next_borrowed (S fuel) it = Done r.
Proof.
  revert it r. induction fuel as [|fuel IH]; intros it r; [done|].
  cbn [next_borrowed]. destruct (pending it) as [|v rest]; [done|].
  intros ([t it1] & Hv & Hr)%bind_Done. rewrite Hv. cbn [mbind outcome_bind].
  destruct t; [by apply IH|done|done].
Qed.
Lemma collect_mono turns fuel it r : collect turns fuel it = Done r → collect turns (S fuel) it = Done r.
Proof.
  revert it r. induction turns as [|turns IH]; intros it r; [done|]. cbn [collect].
  intros ([t it1] & Hn & Hr)%bind_Done. rewrite (next_mono _ _ _ Hn). cbn [mbind outcome_bind].
  destruct t as [[x|e]|]; [|done|done]. apply bind_Done in Hr as (r' & Hc & Hr). by rewrite (IH _ _ Hc).
Qed.

Lemma collect_stops it ns n fin : stops it ns n fin →
  ∀ turns fuel, (length ns < turns)%nat → (n < fuel)%nat → collect turns fuel it = Done (ns, fin).
Proof.
  intros (it' & Hr & He). induction Hr as [it|it v rest it1 ns n it' Hp Hv Hr IH|it v rest x it1 ns n it' Hp Hv Hr IH];
    intros turns fuel Ht Hf; (destruct turns as [|turns]; [lia|]); (destruct fuel as [|fuel]; [lia|]).
  - cbn [collect next_borrowed]. destruct He as [[-> ->]|(v & rest & t & it' & Hp & Hv & Ht')]; [done|].
    rewrite Hp. unfold with_pending in Hv. rewrite Hv. cbn [mbind outcome_bind].
    destruct Ht' as [[-> ->]|(e & -> & ->)]; done.
  - specialize (IH He (S turns) fuel Ht ltac:(lia)). cbn [collect] in *.
    apply bind_Done in IH as ([t it2] & Hn & Hc). cbn [next_borrowed]. rewrite Hp. unfold with_pending in Hv. rewrite Hv.
    cbn [mbind outcome_bind]. rewrite Hn. cbn [mbind outcome_bind]. destruct t as [[y|e]|]; [|done|done].
    apply bind_Done in Hc as (r & Hc & Hd). by rewrite (collect_mono _ _ _ _ Hc).
  - simpl in Ht. specialize (IH He turns (S fuel) ltac:(lia) ltac:(lia)). cbn [collect next_borrowed]. rewrite Hp.
    unfold with_pending in Hv. rewrite Hv. cbn [mbind outcome_bind mret outcome_ret]. by rewrite IH.
Qed.

(** The walk from a state at the path [s] to one below the path [base], with the
    nodes that are returned in between unless one does not fit. *)
Record place := mkPlace { pl_pending : list Visited; pl_stash : gmap Z Leaves }.
Definition at_place (s : list string) (p : place) (buffer : list byte) (c : option Cid) (t : Z) (o : TreeOptions) :
    PostOrderIterator :=
  mkIter (join s) (length s) buffer (pl_pending p) (pl_stash p) c t o.
Definition walks (o : TreeOptions) (s : list string) (p : place) (ns : list TreeNode) (n : nat)
    (base : list string) (p' : place) : Prop := ∀ buffer c t,
  (Forall (λ x, fits (block_size_limit o) (block x)) ns ∧ ∃ ext buffer' c' t', Forall segment_ok (base ++ ext) ∧
     reaches (at_place s p buffer c t o) ns n (at_place (base ++ ext) p' buffer' c' t' o)) ∨
  ∃ m ns1 x ns2, ns = ns1 ++ x :: ns2 ∧ Forall (λ x, fits (block_size_limit o) (block x)) ns1 ∧
    ¬ fits (block_size_limit o) (block x) ∧ (m ≤ n)%nat ∧
    stops (at_place s p buffer c t o) ns1 m (Some (TooLargeBlock (vec_len (block x)))).

Lemma walks_refl o s p base ext : s = base ++ ext → Forall segment_ok s → walks o s p [] 0 base p.
Proof. intros -> Hs buffer c t. left. split; [constructor|]. eexists _, _, _, _. split; [done|]. apply reaches_refl. Qed.
Lemma walks_trans o s p ns n base p' ns' n' base' p'' :
  walks o s p ns n base p' → (∀ ext, Forall segment_ok (base ++ ext) → walks o (base ++ ext) p' ns' n' base' p'') →
  walks o s p (ns ++ ns') (n + n') base' p''.
Proof.
  intros H1 H2 buffer c t. destruct (H1 buffer c t) as [[F1 (ext & b1 & c1 & t1 & Hs & R1)]|Hstop].
  - destruct (H2 ext Hs b1 c1 t1) as [[F2 (ext' & b2 & c2 & t2 & Hs' & R2)]|(m & ns1 & x & ns2 & -> & F2 & Hx & Hm & it' & R2 & He)].
    + left. split; [by apply Forall_app|]. eexists _, _, _, _. split; [done|]. by eapply reaches_trans.
    + right. exists (n + m)%nat, (ns ++ ns1), x, ns2. split; [by rewrite <-app_assoc|].
      split; [by apply Forall_app|]. split; [done|]. split; [lia|]. eexists. split; [by eapply reaches_trans|done].
  - right. destruct Hstop as (m & ns1 & x & ns2 & -> & F & Hx & Hm & Hst).
    exists m, ns1, x, (ns2 ++ ns'). split; [by rewrite <-app_assoc|]. split; [done|]. split; [done|]. split; [lia|done].
Qed.
Lemma walks_continue o s p v rest s' p1 ns n base p' : pl_pending p = v :: rest →
  (∀ buffer c t, visit v (at_place s (mkPlace rest (pl_stash p)) buffer c t o) = Done (Continue, at_place s' p1 buffer c t o)) →
  walks o s' p1 ns n base p' → walks o s p ns (S n) base p'.
Proof.
  intros Hp Hv Hw buffer c t.
  destruct (Hw buffer c t) as [[F (ext & b1 & c1 & t1 & Hs & R)]|(m & ns1 & x & ns2 & -> & F & Hx & Hm & it' & R & He)].
  - left. split; [done|]. eexists _, _, _, _. split; [done|]. eapply reaches_continue; [exact Hp|apply Hv|done].
  - right. exists (S m), ns1, x, ns2. split; [done|]. split; [done|]. split; [done|]. split; [lia|].
    exists it'. split; [|done]. eapply reaches_continue; [exact Hp|apply Hv|done].
Qed.
Lemma walks_return o s p v rest x base ext p' : pl_pending p = v :: rest → Forall segment_ok (base ++ ext) →
  (∀ buffer c t, ∃ buffer' c' t' it', visit v (at_place s (mkPlace rest (pl_stash p)) buffer c t o) =
    Done (if decide (fits (block_size_limit o) (block x)) then (Return (Ok x), at_place (base ++ ext) p' buffer' c' t' o)
          else (Return (Err (TooLargeBlock (vec_len (block x)))), it'))) →
  walks o s p [x] 1 base p'.
Proof.
  intros Hp Hs Hv buffer c t. destruct (Hv buffer c t) as (b' & c' & t' & it' & Hv').
  destruct (decide (fits (block_size_limit o) (block x))) as [Hf|Hf].
  - left. split; [by constructor|]. eexists ext, _, _, _. split; [done|].
    eapply reaches_return; [exact Hp|exact Hv'|apply reaches_refl].
  - right. exists 0%nat, [], x, []. split; [done|]. split; [done|]. split; [done|]. split; [lia|].
    eexists. split; [apply reaches_refl|]. right. eexists _, _, _, _. split; [exact Hp|]. split; [exact Hv'|]. right. by eexists.
Qed.

(** ** The walk over a directory *)
Lemma partition_no_children i depth segs l : (partition_from i depth l).2 = [] →
  (partition_from i depth l).1 = Some <$> (entry_leaf <$> l) ∧ below segs l = [] ∧ ids_of l = [].
Proof.
  revert i. induction l as [|[k [c t|sub]] l IH]; intros i; [done|..]; cbn [partition_from];
    specialize (IH (S i)); destruct (partition_from (S i) depth l) as [lv ch]; [|done].
  simpl. intros H. destruct (IH H) as (H1 & H2 & H3). simpl in H1. by rewrite H1, H2.
Qed.

(** The state after the last entry of a directory was visited. *)
Lemma post_walk o base name ext pid index leaves rest st stash ls vec :
  into_inner leaves st = Done (Some <$> ls, stash) → dir_range ls → Forall segment_ok ((base ++ [name]) ++ ext) →
  stash !! pid = Some vec → vec !! index = Some None →
  walks o ((base ++ [name]) ++ ext) (mkPlace (Post pid (S (length base)) name index leaves :: rest) st)
    [dir_node (base ++ [name]) ls] 1 base
    (mkPlace rest (<[pid := <[index := Some (dir_leaf name ls)]> vec]> stash)).
Proof.
  intros Hi Hr Hs Hv Hx. eapply (walks_return _ _ _ _ _ _ _ [name]); [done|..].
  { by apply Forall_app in Hs as [? _]. }
  intros buffer c t. unfold visit. cbn [name_and_depth]. rewrite <-app_assoc in *.
  cbn [full_path old_depth at_place block_buffer pl_stash pl_pending persisted_cids opts pending].
  rewrite update_full_path_ok by done. cbn [mbind outcome_bind]. rewrite Hi. cbn [mbind outcome_bind].
  rewrite (render_ok ls buffer _ Hr). cbn [mbind outcome_bind dir_node block].
  destruct (decide (fits (block_size_limit o) (dir_block ls))).
  - unfold fill_parent. rewrite Hv, Hx. cbn [mbind outcome_bind mret outcome_ret].
    exists (dir_block ls), (Some (sha2_256_v0 (dir_block ls))), (dir_total ls), (at_place [] (mkPlace [] ∅) [] None 0 o). done.
  - eexists buffer, c, t, _. done.
Qed.

Definition descends (d : DirBuilder) : Prop := ∀ o base name index rest stash pid vec ext,
  wf d → names_ok d → in_range d → NoDup (all_ids d) → parent_id d = Some pid →
  (∀ j, j ∈ all_ids d → stash !! j = None) → stash !! pid = Some vec → vec !! index = Some None →
  segment_ok name → Forall segment_ok (base ++ ext) →
  walks o (base ++ ext) (mkPlace (Descent d name (S (length base)) index :: rest) stash)
    (emitted (base ++ [name]) d) (2 * length (all_ids d)) base
    (mkPlace rest (<[pid := <[index := Some (dir_leaf name (leaves_of d))]> vec]> stash)).

(** The entries of a directory, the last one first. *)
Lemma children_walk o h pid l :
  (∀ k sub, (k, Directory sub) ∈ l → descends sub ∧ child_ok pid sub ∧ in_range sub ∧ segment_ok k) →
  NoDup (ids_of l) → ∀ pre post rest stash ext, (∀ j, j ∈ ids_of l → stash !! j = None) →
  stash !! pid = Some (pre ++ (partition_from (length pre) (length h) l).1 ++ post) → Forall segment_ok (h ++ ext) →
  walks o (h ++ ext) (mkPlace (rev (partition_from (length pre) (length h) l).2 ++ rest) stash)
    (below h l) (2 * length (ids_of l)) h
    (mkPlace rest (<[pid := pre ++ (Some <$> (entry_leaf <$> l)) ++ post]> stash)).
Proof.
  induction l as [|[k e] l IH]; intros Hc Hnd pre post rest stash ext Hst Hp Hs.
  { cbn in *. rewrite insert_id by done. by eapply walks_refl. }
  assert (∀ k sub, (k, Directory sub) ∈ l → descends sub ∧ child_ok pid sub ∧ in_range sub ∧ segment_ok k) as Hc'
    by (intros k' sub' Hin; apply Hc; by right).
  destruct e as [c t|sub]; cbn [partition_from below] in *.
  - specialize (IH Hc' Hnd (pre ++ [Some (mkNamed k c t)]) post rest stash ext Hst).
    rewrite length_app, Nat.add_1_r, <-!app_assoc in IH. destruct (partition_from (S (length pre)) (length h) l) as [lv ch].
    by apply IH.
  - assert (ids_of ((k, Directory sub) :: l) = all_ids sub ++ ids_of l) as Hids by done. rewrite Hids in *.
    apply NoDup_app in Hnd as (Hns & Hdis & Hnl). destruct (Hc k sub ltac:(by left)) as (Hd & (Hpar & Hnm & Hw) & Hr & Hk).
    specialize (IH Hc' Hnl (pre ++ [None]) post (Descent sub k (S (length h)) (length pre) :: rest) stash ext).
    rewrite length_app, Nat.add_1_r, <-!app_assoc in IH. destruct (partition_from (S (length pre)) (length h) l) as [lv ch].
    cbn [fst snd] in *. cbn [rev]. rewrite <-app_assoc. rewrite length_app.
    replace (2 * (length (all_ids sub) + length (ids_of l)))%nat with (2 * length (ids_of l) + 2 * length (all_ids sub))%nat by lia.
    eapply walks_trans; [apply IH; [|done|done]|].
    { intros j Hj. apply Hst, elem_of_app. by right. }
    intros ext' Hs'. set (vec := pre ++ [None] ++ _). cbn [app].
    assert (<[pid := pre ++ (Some <$> (entry_leaf <$> (k, Directory sub) :: l)) ++ post]> stash =
      <[pid := <[length pre := Some (dir_leaf k (leaves_of sub))]> vec]> (<[pid := vec]> stash)) as ->.
    { rewrite insert_insert_eq. f_equal. unfold vec. rewrite insert_app_r_alt by done. by rewrite Nat.sub_diag. }
    apply Hd; try done.
    + intros j Hj. assert (stash !! j = (None : option Leaves)) as Hn by (apply Hst, elem_of_app; by left).
      rewrite lookup_insert_ne; [done|]. intros E. rewrite E in Hp. pose proof (eq_trans (eq_sym Hn) Hp). done.
    + by rewrite lookup_insert_eq.
    + unfold vec, Leaves. by rewrite lookup_app_r, Nat.sub_diag by done.
Qed.

Lemma children_ok d : (∀ k sub, (k, Directory sub) ∈ nodes d → descends sub) → wf d → names_ok d → in_range d →
  ∀ k sub, (k, Directory sub) ∈ nodes d → descends sub ∧ child_ok (id d) sub ∧ in_range sub ∧ segment_ok k.
Proof.
  intros IH [_ Hch]%wf_eq Hn [_ Hr]%in_range_eq k sub Hin. split; [by eapply IH|]. split; [by eapply Hch|].
  split; [by eapply Hr|]. eapply Forall_forall in Hn; [exact Hn|]. apply list_elem_of_fmap. by exists (k, Directory sub).
Qed.

Lemma all_descend d : descends d.
Proof.
  induction d as [d IH] using dir_ind. intros o base name index rest stash pid vec ext Hw Hn Hr Hnd Hp Hst Hv Hx Hname Hs.
  pose proof (children_ok d IH Hw Hn Hr) as Hc. apply in_range_eq in Hr as [Hr _].
  rewrite emitted_eq. set (h := base ++ [name]).
  assert (length h = S (length base)) as Hh by (unfold h; rewrite length_app; simpl; lia).
  assert (Forall segment_ok h) as Hsh.
  { apply Forall_app. split; [by apply Forall_app in Hs as [? _]|by apply Forall_singleton]. }
  rewrite all_ids_eq in Hnd, Hst |- *. apply NoDup_cons in Hnd as [Hid Hnd].
  cbn [length]. replace (2 * S (length (ids_of (nodes d))))%nat with (S (2 * length (ids_of (nodes d)) + 1)) by lia.
  assert (∀ buffer c t, visit (Descent d name (S (length base)) index) (at_place (base ++ ext) (mkPlace rest stash) buffer c t o) =
    let '(leaves, children) := partition_from 0 (length h) (nodes d) in
    let '(leaves, stash) := store_leaves (id d) leaves children stash in
    Done (Continue, at_place h (mkPlace (rev children ++ Post pid (S (length base)) name index leaves :: rest) stash) buffer c t o)) as Hvis.
  { intros buffer c t. unfold visit. cbn [name_and_depth]. cbn [full_path old_depth at_place persisted_cids pl_stash].
    rewrite update_full_path_ok by done. cbn [mbind outcome_bind]. rewrite Hp, Hh. unfold partition_children_leaves.
    destruct (partition_from 0 (S (length base)) (nodes d)) as [lv ch]. by destruct (store_leaves (id d) lv ch stash). }
  destruct (decide ((partition_from 0 (length h) (nodes d)).2 = [])) as [He|He].
  - pose proof (partition_no_children _ _ h _ He) as (H1 & H2 & H3).
    destruct (partition_from 0 (length h) (nodes d)) as [lv ch]. simpl in He, H1. subst ch lv.
    rewrite H2, H3. eapply (walks_continue _ _ _ _ rest h (mkPlace (Post pid (S (length base)) name index
      (Direct (Some <$> leaves_of d)) :: rest) stash)); [done| |].
    { intros buffer c t. rewrite leaves_of_eq. apply Hvis. }
    rewrite <-(app_nil_r h) at 1. apply (post_walk _ _ _ []); try done. by rewrite app_nil_r.
  - pose proof (children_walk o h (id d) (nodes d) Hc Hnd [] []
      (Post pid (S (length base)) name index (Stashed (id d)) :: rest)
      (<[id d := (partition_from 0 (length h) (nodes d)).1]> stash) []) as Hcw.
    rewrite !app_nil_r in Hcw. cbn [length app] in Hcw.
    eapply walks_continue; [done| |eapply walks_trans; [apply Hcw|]].
    + intros buffer c t. rewrite Hvis. destruct (partition_from 0 (length h) (nodes d)) as [lv ch]. simpl in He |- *.
      unfold store_leaves. by rewrite bool_decide_eq_false_2.
    + intros j Hj. rewrite lookup_insert_ne; [apply Hst; by right|]. by intros <-.
    + by rewrite lookup_insert_eq.
    + done.
    + intros ext' Hs'. rewrite insert_insert_eq. apply post_walk; try done.
      cbn [into_inner]. rewrite lookup_insert_eq, leaves_of_eq. cbn [mbind outcome_bind mret outcome_ret].
      rewrite delete_insert_id; [done|]. apply Hst. by left.
Qed.

(** ** The whole tree *)
Definition all_nodes (b : BufferingTreeBuilder) : list TreeNode :=
  if wrap_with_directory (DirBuilder.opts b) then emitted [] (root_builder b) else below [] (nodes (root_builder b)).
Definition build_fuel (b : BufferingTreeBuilder) : nat := 2 * length (all_ids (root_builder b)) + 1.

Lemma root_path fp od : update_full_path fp od None 0 = Done (EmptyString, 0%nat).
Proof. done. Qed.

(** The last turn, over the root. *)
Lemma root_turn o s leaves st ls buffer c t :
  into_inner leaves st = Done (Some <$> ls, ∅) → dir_range ls →
  let it := at_place s (mkPlace [PostRoot leaves] st) buffer c t o in
  if wrap_with_directory o then
    if decide (fits (block_size_limit o) (dir_block ls)) then stops it [dir_node [] ls] 1 None
    else stops it [] 0 (Some (TooLargeBlock (vec_len (dir_block ls))))
  else stops it [] 0 None.
Proof.
  intros Hi Hr it. pose proof (render_ok ls buffer (block_size_limit o) Hr) as Hren.
  assert (∀ r, visit (PostRoot leaves) (with_pending [] it) = Done r →
    match r with
    | (Return (Ok x), it') => pending it' = [] → stops it [x] 1 None
    | (Return (Err e), _) => stops it [] 0 (Some e)
    | (Break, _) => stops it [] 0 None
    | _ => True
    end) as Hv.
  { intros [[| |[x|e]] it'] Hv; [done|..].
    - exists it. split; [apply reaches_refl|]. right. eexists _, _, _, _. split; [done|]. split; [exact Hv|]. by left.
    - intros Hp. exists it'. split; [by eapply reaches_return; [|exact Hv|apply reaches_refl]|]. by left.
    - exists it. split; [apply reaches_refl|]. right. eexists _, _, _, _. split; [done|]. split; [exact Hv|]. right. by eexists. }
  unfold visit in Hv. cbn [name_and_depth] in Hv. rewrite root_path in Hv. cbn [mbind outcome_bind] in Hv.
  cbn [with_pending it at_place persisted_cids pl_stash opts block_buffer pending] in Hv. rewrite Hi in Hv.
  cbn [mbind outcome_bind] in Hv. destruct (wrap_with_directory o); cbn [negb] in Hv; [|by apply (Hv _ eq_refl)].
  rewrite Hren in Hv. cbn [mbind outcome_bind] in Hv.
  destruct (decide (fits (block_size_limit o) (dir_block ls))); by apply (Hv _ eq_refl).
Qed.

Definition dirs_named (b : BufferingTreeBuilder) : Prop :=
  ∀ k sub, (k, Directory sub) ∈ nodes (root_builder b) → k ≠ EmptyString.

(** From the descent into the root to its last turn. *)
Lemma root_descends b : binv b → dirs_named b → in_range (root_builder b) → ∃ leaves st,
  into_inner leaves st = Done (Some <$> leaves_of (root_builder b), ∅) ∧
  walks (DirBuilder.opts b) [] (mkPlace [DescentRoot (root_builder b)] ∅) (below [] (nodes (root_builder b)))
    (S (2 * length (ids_of (nodes (root_builder b))))) [] (mkPlace [PostRoot leaves] st).
Proof.
  intros Hb Hdn Hr. destruct (root_builder b) as [l m p i] eqn:Eroot. set (d := mkDir l m p i) in *.
  pose proof (bi_wf b Hb) as [Hnd Hch]%wf_eq. pose proof (bi_ids b Hb) as Hids. rewrite Eroot in *. fold d in Hnd, Hch, Hids.
  apply in_range_eq in Hr as [_ Hr].
  assert (∀ k sub, (k, Directory sub) ∈ nodes d → descends sub ∧ child_ok (id d) sub ∧ in_range sub ∧ segment_ok k) as Hc.
  { intros k sub Hin. split; [apply all_descend|]. split; [by eapply Hch|]. split; [by eapply Hr|].
    split; [apply (Hdn k sub); by rewrite Eroot|]. pose proof (bi_names b Hb) as Hns. eapply Forall_forall in Hns; [exact Hns|].
    rewrite Eroot. apply list_elem_of_fmap. by exists (k, Directory sub). }
  rewrite all_ids_eq in Hids. apply NoDup_cons in Hids as [Hid Hids].
  assert (∀ buffer c t, visit (DescentRoot d) (at_place [] (mkPlace [] ∅) buffer c t (DirBuilder.opts b)) =
    let '(leaves, children) := partition_from 0 0 (nodes d) in
    let '(leaves, stash) := store_leaves (id d) leaves children ∅ in
    Done (Continue, at_place [] (mkPlace (rev children ++ [PostRoot leaves]) stash) buffer c t (DirBuilder.opts b))) as Hvis.
  { intros buffer c t. unfold visit. cbn [name_and_depth]. rewrite root_path. cbn [mbind outcome_bind].
    unfold partition_children_leaves. destruct (partition_from 0 0 (nodes d)) as [lv ch]. cbn [persisted_cids at_place pl_stash].
    by destruct (store_leaves (id d) lv ch ∅). }
  rewrite leaves_of_eq. destruct (decide ((partition_from 0 0 (nodes d)).2 = [])) as [He|He].
  - pose proof (partition_no_children _ _ [] _ He) as (H1 & H2 & H3).
    destruct (partition_from 0 0 (nodes d)) as [lv ch]. simpl in He, H1. subst ch lv. rewrite H2, H3.
    eexists _, _. split; [|eapply walks_continue; [done|apply Hvis|by apply (walks_refl _ _ _ [] [])]]. done.
  - pose proof (children_walk (DirBuilder.opts b) [] (id d) (nodes d) Hc Hids [] [] [PostRoot (Stashed (id d))]
      (<[id d := (partition_from 0 0 (nodes d)).1]> ∅) []) as Hcw.
    rewrite !app_nil_r in Hcw. cbn [length app] in Hcw. eexists _, _. split;
      [|eapply walks_continue; [done| |apply Hcw]].
    + cbn [into_inner]. rewrite lookup_insert_eq. rewrite insert_insert_eq, delete_insert_eq, delete_empty. done.
    + intros buffer c t. rewrite Hvis. destruct (partition_from 0 0 (nodes d)) as [lv ch]. simpl in He |- *.
      unfold store_leaves. by rewrite bool_decide_eq_false_2.
    + intros j Hj. rewrite lookup_insert_ne; [done|]. by intros <-.
    + by rewrite lookup_insert_eq.
    + constructor.
Qed.

Definition all_fit (b : BufferingTreeBuilder) (ns : list TreeNode) : Prop :=
  Forall (λ x, fits (block_size_limit (DirBuilder.opts b)) (block x)) ns.

Lemma build_collect b turns fuel : binv b → dirs_named b → in_range (root_builder b) →
  (length (all_nodes b) < turns)%nat → (build_fuel b ≤ fuel)%nat →
  (all_fit b (all_nodes b) ∧ collect turns fuel (build b) = Done (all_nodes b, None)) ∨
  ∃ ns x ns', all_nodes b = ns ++ x :: ns' ∧ all_fit b ns ∧ ¬ fits (block_size_limit (DirBuilder.opts b)) (block x) ∧
    collect turns fuel (build b) = Done (ns, Some (TooLargeBlock (vec_len (block x)))).
Proof.
  intros Hb Hd Hr Ht Hf. destruct (root_descends b Hb Hd Hr) as (leaves & st & Hi & Hw).
  unfold build_fuel in Hf. rewrite all_ids_eq in Hf. cbn [length] in Hf. apply in_range_eq in Hr as [Hr _].
  set (n := length (ids_of (nodes (root_builder b)))) in *.
  assert (∀ ns k fin, (length ns ≤ length (all_nodes b))%nat → (k ≤ S (S (2 * n)))%nat → stops (build b) ns k fin →
    collect turns fuel (build b) = Done (ns, fin)) as Hrun.
  { intros ns k fin Hl Hk Hs. apply (collect_stops _ _ _ _ Hs); lia. }
  unfold all_fit, all_nodes in *. rewrite emitted_eq in *.
  set (bn := below [] (nodes (root_builder b))) in *. set (dn := dir_node [] (leaves_of (root_builder b))) in *.
  destruct (Hw [] None 0) as [[F (ext & b1 & c1 & t1 & Hs & R)]|(k & ns1 & x & ns2 & E & F & Hx & Hk & Hst)].
  - pose proof (root_turn (DirBuilder.opts b) ext leaves st _ b1 c1 t1 Hi Hr) as Hrt. cbn zeta in Hrt. fold dn in Hrt.
    destruct (wrap_with_directory (DirBuilder.opts b)).
    + destruct (decide (fits (block_size_limit (DirBuilder.opts b)) (dir_block (leaves_of (root_builder b))))) as [Hfit|Hfit].
      * left. split; [apply Forall_app; split; [done|by constructor]|]. destruct Hrt as (it' & R' & He).
        apply (Hrun _ (S (2 * n) + 1)%nat); [done|lia|]. exists it'. split; [by eapply reaches_trans|done].
      * right. exists bn, dn, []. split; [done|]. split; [done|]. split; [done|]. destruct Hrt as (it' & R' & He).
        apply (Hrun _ (S (2 * n) + 0)%nat); [rewrite length_app; lia|lia|]. exists it'. split; [|done].
        rewrite <-(app_nil_r bn). by eapply reaches_trans.
    + left. split; [done|]. destruct Hrt as (it' & R' & He). apply (Hrun _ (S (2 * n) + 0)%nat); [done|lia|].
      exists it'. split; [|done]. rewrite <-(app_nil_r bn). by eapply reaches_trans.
  - right. exists ns1, x. destruct (wrap_with_directory (DirBuilder.opts b)).
    + exists (ns2 ++ [dn]). rewrite E, <-app_assoc. split; [done|]. split; [done|]. split; [done|].
      apply (Hrun _ k); [rewrite E, !length_app; simpl; lia|lia|done].
    + exists ns2. split; [done|]. split; [done|]. split; [done|]. apply (Hrun _ k); [rewrite E, length_app; simpl; lia|lia|done].
Qed.
End render.
End DirRender.
