(* ===== verification/UnixFsDir.v ===== *)
(** * Resolving a name in a directory block

    unixfs/src/dir.rs, dir/directory.rs and dir/sharded_lookup.rs: one path
    segment over a dag-pb node, a plain directory or the buckets of a sharded one. *)
From stdpp Require Import base gmap list strings.
From Stdlib Require Import Strings.Byte.
From S2P Require Import Prelude Protobuf UnixFsPb.
Local Open Scope Z_scope.

Module UnixFsDir.
Import Merkledag UnixFsData Flat.
Section dir.
  Context {ids : Ids} {cc : CidCodec} {qp : QuickProtobuf}.

(** ** Errors *)
Record InvalidCidInLink := mkInvalid { inv_nth : nat; inv_hash : list byte; inv_name : string; inv_source : CidError }.

Inductive MultipleMatchingLinks :=
  | Two (first second : nat * Cid)
  | OneValid (first : nat * Cid) (second : InvalidCidInLink).

Record UnexpectedDirectoryProperties := mkUnexpectedDir {
  ud_filesize : option Z;
  ud_blocksizes : list Z;
  ud_hash_type : option Z;
  ud_fanout : option Z;
  ud_data : option (list byte);
}.

Inductive ShardError :=
  | UnsupportedProperties (hash_type fanout : option Z)
  | UnexpectedProperties (filesize : option Z) (blocksizes : list Z).

Inductive PartitioningError :=
  | Multiple (m : MultipleMatchingLinks)
  | InvalidCid (e : InvalidCidInLink).

(** [UnexpectedNodeType] is the number of the type. *)
Inductive LookupError :=
  | LookupMultiple (m : MultipleMatchingLinks)
  | LookupInvalidCid (e : InvalidCidInLink)
  | UnexpectedBucketType (ty : Z)
  | Shard (e : ShardError)
  | LookupRead (e : option PbError).
Definition LookupError_from (e : PartitioningError) : LookupError :=
  match e with Multiple m => LookupMultiple m | InvalidCid e => LookupInvalidCid e end.

Inductive ResolveError :=
  | UnexpectedType (ty : Z)
  | UnexpectedDirProperties (e : UnexpectedDirectoryProperties)
  | Read (e : PbError)
  | Lookup (e : LookupError).

Definition is_directory (ty : Z) : bool :=
  match DataType_from ty with UnixFsData.Directory | HAMTShard => true | _ => false end.
Definition is_file_type (ty : Z) : bool := match DataType_from ty with File => true | _ => false end.

(** ** Links *)
Definition link_name (l : PBLink) : string := default EmptyString (Name l).

Definition try_convert_cid (nth : nat) (link : PBLink) : result Cid InvalidCidInLink :=
  map_err (mkInvalid nth (default [] (Hash link)) (link_name link)) (cid_try_from (default [] (Hash link))).

Definition MultipleMatchingLinks_from (first : nat * Cid) (second : nat * PBLink) : MultipleMatchingLinks :=
  match try_convert_cid second.1 second.2 with
  | Ok c => Two first (second.1, c)
  | Err e => OneValid first e
  end.
Definition into_inner (m : MultipleMatchingLinks) : Cid :=
  match m with Two first _ | OneValid first _ => first.2 end.

(** ** Plain directories *)
Definition check_directory_supported (flat : FlatUnixFs) : result FlatUnixFs UnexpectedDirectoryProperties :=
  let d := data flat in
  if bool_decide (is_Some (filesize d)) || negb (bool_decide (blocksizes d = [])) || bool_decide (is_Some (hashType d))
     || bool_decide (is_Some (fanout d)) || negb (bool_decide (default [] (Data d) = []))
  then Err (mkUnexpectedDir (filesize d) (blocksizes d) (hashType d) (fanout d) (Data d))
  else Ok flat.

(** ** Sharded directories *)
Definition Cache : Type := list Cid.
(** [From<VecDeque<Cid>> for Cache] clears the buffer. *)
Definition Cache_from (buffer : list Cid) : Cache := [].

Record ShardedLookup := mkLookup { sl_links : list Cid; sl_needle : string }.

Inductive MaybeResolved :=
  | Found (c : Cid)
  | NeedToLoadMore (l : ShardedLookup)
  | NotFound.

Definition pending_links (l : ShardedLookup) : outcome (Cid * list Cid) :=
  match sl_links l with first :: rest => mret (first, rest) | [] => Panic end.

Definition check_supported (hamt : FlatUnixFs) : outcome (result unit ShardError) :=
  let d := data hamt in
  rust_assert (bool_decide (Type_ d = HAMTShard));;
  mret (if negb (bool_decide (fanout d = Some 256)) || negb (bool_decide (hashType d = Some 34))
        then Err (UnsupportedProperties (hashType d) (fanout d))
        else if bool_decide (is_Some (filesize d)) || negb (bool_decide (blocksizes d = []))
        then Err (UnexpectedProperties (filesize d) (blocksizes d))
        else Ok tt).
Definition check_hamtshard_supported (flat : FlatUnixFs) : outcome (result FlatUnixFs ShardError) :=
  r ← check_supported flat; mret (match r with Ok _ => Ok flat | Err e => Err e end).

(** [&name[2..]] of a longer name: the third byte has to start a character. *)
Definition without_prefix (name : string) : outcome string :=
  match name with
  | String _ (String _ ((String c _) as rest)) =>
      let b := Z.of_nat (Ascii.nat_of_ascii c) in
      if bool_decide (128 ≤ b < 192) then Panic else mret rest
  | _ => Panic
  end.

(** [partition]: the link that matches the needle and the buckets after [work]. *)
Fixpoint partition (i : nat) (links : list PBLink) (needle : string) (found : option (nat * Cid)) (work : list Cid) :
    outcome (result (option Cid * list Cid) PartitioningError) :=
  match links with
  | [] => mret (Ok (snd <$> found, work))
  | link :: links =>
      let name := link_name link in
      matches ← (if bool_decide (2 < vec_len (str_bytes name))
                 then s ← without_prefix name; mret (bool_decide (s = needle)) else Done false);
      if (matches : bool) then
        match found with
        | Some first => mret (Err (Multiple (MultipleMatchingLinks_from first (i, link))))
        | None =>
            match try_convert_cid i link with
            | Err e => mret (Err (InvalidCid e))
            | Ok c => partition (S i) links needle (Some (i, c)) work
            end
        end
      else if bool_decide (vec_len (str_bytes name) = 2) then
        match try_convert_cid i link with
        | Err e => mret (Err (InvalidCid e))
        | Ok c => partition (S i) links needle found (work ++ [c])
        end
      else partition (S i) links needle found work
  end.

(** What [lookup_or_start] and [continue_walk] do with the partitioned links. *)
Definition after_partition (needle : string) (r : option Cid * list Cid) (cache : option Cache) :
    MaybeResolved * option Cache :=
  match r with
  | (Some c, links) => (Found c, Some (Cache_from links))
  | (None, []) => (NotFound, Some (Cache_from []))
  | (None, links) => (NeedToLoadMore (mkLookup links needle), cache)
  end.

Definition lookup_or_start (hamt : FlatUnixFs) (needle : string) (cache : option Cache) :
    outcome (result MaybeResolved LookupError * option Cache) :=
  r ← check_supported hamt;
  match r with
  | Err e => mret (Err (Shard e), cache)
  | Ok _ =>
      r ← partition 0 (links hamt) needle None (default [] cache);
      mret (match r with
            | Err e => (Err (LookupError_from e), None)
            | Ok r => let '(m, cache) := after_partition needle r None in (Ok m, cache)
            end)
  end.

Definition continue_walk (l : ShardedLookup) (next : list byte) (cache : option Cache) :
    outcome (result MaybeResolved LookupError * option Cache) :=
  match sl_links l with
  | [] => Panic
  | _ :: rest =>
      r ← FlatUnixFs_try_from next;
      match r with
      | Ok hamt =>
          if bool_decide (Type_ (data hamt) = HAMTShard) then
            r ← check_supported hamt;
            match r with
            | Err e => mret (Err (Shard e), cache)
            | Ok _ =>
                r ← partition 0 (links hamt) (sl_needle l) None rest;
                mret (match r with
                      | Err e => (Err (LookupError_from e), cache)
                      | Ok r => let '(m, cache) := after_partition (sl_needle l) r cache in (Ok m, cache)
                      end)
            end
          else mret (Err (UnexpectedBucketType (DataType_into (Type_ (data hamt)))), cache)
      | Err (InvalidDagPb e) | Err (InvalidUnixFs e _) => mret (Err (LookupRead (Some e)), Some (Cache_from rest))
      | Err (NoData _) => mret (Err (LookupRead None), Some (Cache_from rest))
      end
  end.

(** ** One segment *)
Definition matching (needle : string) (ls : list PBLink) : list (nat * PBLink) :=
  filter (λ il, link_name il.2 = needle) (imap pair ls).

Definition resolve_links (ls : list PBLink) (needle : string) : result MaybeResolved ResolveError :=
  match matching needle ls with
  | [] => Ok NotFound
  | (i, first) :: more =>
      match try_convert_cid i first with
      | Err e => Err (Lookup (LookupInvalidCid e))
      | Ok c =>
          match more with
          | second :: _ => Err (Lookup (LookupMultiple (MultipleMatchingLinks_from (i, c) second)))
          | [] => Ok (Found c)
          end
      end
  end.

Definition resolve (block : list byte) (needle : string) (cache : option Cache) :
    outcome (result MaybeResolved ResolveError * option Cache) :=
  r ← FlatUnixFs_try_from block;
  match r with
  | Ok flat =>
      match Type_ (data flat) with
      | HAMTShard =>
          r ← lookup_or_start flat needle cache;
          mret (map_err Lookup r.1, r.2)
      | UnixFsData.Directory =>
          match check_directory_supported flat with
          | Err e => mret (Err (UnexpectedDirProperties e), cache)
          | Ok flat => mret (resolve_links (links flat) needle, cache)
          end
      | ty => mret (Err (UnexpectedType (DataType_into ty)), cache)
      end
  | Err (InvalidUnixFs _ node) | Err (NoData node) => mret (resolve_links (Links node) needle, cache)
  | Err (InvalidDagPb e) => mret (Err (Read e), cache)
  end.
End dir.
End UnixFsDir.
