(* ===== verification/DagResolve.v ===== *)
(** * Resolving paths

    unixfs/src/dagpb.rs gives access to the payload of a dag-pb block;
    src/dag.rs resolves an [IpfsPath] through the documents of a repository. *)
From stdpp Require Import base gmap list strings.
From Stdlib Require Import Strings.Byte.
From S2P Require Import Prelude Protobuf UnixFsPb Path DirBuilder DirIter UnixFsDir.
Local Open Scope Z_scope.

(** ** The Data field of a node *)
Module DagPb.
Import Pb Merkledag.
Section dagpb.
  Context {qp : QuickProtobuf}.

(** [PBNode::try_from], of which [node_data] keeps the borrowed [Data] slice: its
    bytes and how many bytes of the block come after it. *)
Definition data_fields : list (Z * handler) :=
  [ (18, on_message PBLink_from_reader (λ _ (m : option (list byte * nat)), m));
    (10, λ bs _, match rd bytes bs with
                 | Ok (d, rest) => Done (Ok (Some (d, length rest), rest))
                 | Err e => Done (Err e)
                 end) ].

(** A slice of the block: where it starts and its bytes. *)
Definition node_data (block : list byte) : outcome (result (option (nat * list byte)) PbError) :=
  r ← read_fields data_fields block None;
  mret (match r with
        | Ok (Some (d, after)) => Ok (Some ((length block - after - length d)%nat, d))
        | Ok None => Ok None
        | Err e => Err e
        end).

(** The pointers of the slices are their offsets in the block. *)
Definition subslice_to_range (max : nat) (start : nat) (sub : list byte) : option (nat * nat) :=
  let amt := length sub in
  if bool_decide (max < amt)%nat then None
  else if bool_decide (max ≤ start)%nat then None
  else Some (start, (start + amt)%nat).

Record NodeData := mkNodeData { nd_inner : list byte; nd_range : option (nat * nat) }.

Definition wrap_node_data (block : list byte) : outcome (result NodeData PbError) :=
  r ← node_data block;
  match r with
  | Err e => mret (Err e)
  | Ok None => mret (Ok (mkNodeData block None))
  | Ok (Some (start, d)) =>
      match subslice_to_range (length block) start d with
      | Some range => mret (Ok (mkNodeData block (Some range)))
      | None => Panic
      end
  end.

Definition NodeData_node_data (n : NodeData) : list byte :=
  match nd_range n with
  | Some (start, end_) => take (end_ - start) (drop start (nd_inner n))
  | None => []
  end.
End dagpb.
End DagPb.

Module DagResolve.
Import Path DagPb.

(** The crate [libipld]: documents, and [Block::decode], which picks the codec of
    the identifier. *)
Inductive Ipld `{ids : Ids} :=
  | Null
  | Bool (b : bool)
  | Integer (i : Z)
  | Float (bits : Z)
  | Str (s : string)
  | Bytes (b : list byte)
  | List (l : list Ipld)
  | Map (m : list (string * Ipld))
  | Link (c : Cid).

Section resolve.
  Context `{cl : CidLayout}.
  Context {Error : Type}.
  Context (decode : Cid → list byte → result Ipld Error).

(** A block is its identifier and its bytes. *)
Definition Block : Type := Cid * list byte.
Definition DagPbCodec : Z := 112.

(** Causes of an unsupported document. *)
Inductive Unsupported :=
  | Decoding (e : Error)
  | Directory (e : UnixFsDir.ResolveError)
  | Sharded (e : UnixFsDir.LookupError)
  | ShardLoading (e : Error)
  | KeyNotFound.

Inductive RawResolveLocalError :=
  | Loading (c : Cid) (e : Error)
  | UnsupportedDocument (c : Cid) (e : Unsupported)
  | ListIndexOutOfRange (document : Cid) (segment_index index elements : nat)
  | InvalidIndex (document : Cid) (segment_index : nat)
  | NoLinks (document : Cid) (segment_index : nat)
  | NotFound (document : Cid) (segment_index : nat).

Definition add_starting_point_in_path (start : nat) (e : RawResolveLocalError) : RawResolveLocalError :=
  match e with
  | ListIndexOutOfRange d s i n => ListIndexOutOfRange d (s + start) i n
  | InvalidIndex d s => InvalidIndex d (s + start)
  | NoLinks d s => NoLinks d (s + start)
  | NotFound d s => NotFound d (s + start)
  | e => e
  end.

Inductive ResolveError :=
  | RLoading (c : Cid) (e : Error)
  | RUnsupportedDocument (c : Cid) (e : Unsupported)
  | RListIndexOutOfRange (document : Cid) (p : list string) (index elements : nat)
  | RNoLinks (c : Cid) (p : list string)
  | RNotFound (c : Cid) (p : list string)
  | NoCid (p : IpfsPath)
  | IpnsResolutionFailed (p : IpfsPath).

Definition with_path (p : IpfsPath) (e : RawResolveLocalError) : outcome ResolveError :=
  match e with
  | Loading c e => mret (RLoading c e)
  | UnsupportedDocument c e => mret (RUnsupportedDocument c e)
  | ListIndexOutOfRange d s i n => p ← into_truncated (S s) p; mret (RListIndexOutOfRange d p i n)
  | NoLinks d s => p ← into_truncated (S s) p; mret (RNoLinks d p)
  | InvalidIndex d s | NotFound d s => p ← into_truncated (S s) p; mret (RNotFound d p)
  end.

Inductive ResolvedNode :=
  | RBlock (b : Block)
  | DagPbData (c : Cid) (d : NodeData)
  | Projection (c : Cid) (i : Ipld)
  | RLink (source dest : Cid).

Definition source (n : ResolvedNode) : Cid :=
  match n with RBlock b => b.1 | DagPbData c _ | Projection c _ | RLink c _ => c end.

Inductive UnexpectedResolved :=
  | UnexpectedCodec (expected : Z) (n : ResolvedNode)
  | NonBlock (n : ResolvedNode).
Definition into_unixfs_block (n : ResolvedNode) : result Block UnexpectedResolved :=
  if bool_decide (cid_codec (source n) = DagPbCodec) then
    match n with RBlock b => Ok b | n => Err (NonBlock n) end
  else Err (UnexpectedCodec DagPbCodec n).

Definition Ipld_try_from (n : ResolvedNode) : result Ipld ResolveError :=
  match n with
  | RBlock b => map_err (λ e, RUnsupportedDocument b.1 (Decoding e)) (decode b.1 b.2)
  | DagPbData _ d => Ok (Bytes (NodeData_node_data d))
  | Projection _ i => Ok i
  | RLink _ c => Ok (Link c)
  end.

Inductive LocallyResolved :=
  | Complete (n : ResolvedNode)
  | Incomplete (c : Cid) (l : UnixFsDir.ShardedLookup).

(** ** Inside one document *)

(** [str::parse::<usize>]. *)
Fixpoint parse_digits (acc : Z) (s : string) : option Z :=
  match s with
  | EmptyString => Some acc
  | String a s =>
      let d := Z.of_nat (Ascii.nat_of_ascii a) - 48 in
      if bool_decide (0 ≤ d ≤ 9) && bool_decide (acc * 10 + d ≤ usize_max)
      then parse_digits (acc * 10 + d) s else None
  end.
Definition parse_usize (s : string) : option Z :=
  match s with
  | EmptyString => None
  | String a s' =>
      if bool_decide (a = Ascii.ascii_of_nat 43) then
        match s' with EmptyString => None | s' => parse_digits 0 s' end
      else parse_digits 0 s
  end.

Fixpoint resolve_local_ipld (document : Cid) (ipld : Ipld) (segments : list string) (matched_count : nat) :
    result (LocallyResolved * nat) RawResolveLocalError * list string :=
  match ipld, segments with
  | Link c, segment :: rest =>
      if bool_decide (segment = ".") then (Ok (Complete (RLink document c), S matched_count), rest)
      else (Ok (Complete (RLink document c), matched_count), segments)
  | Link c, [] => (Ok (Complete (RLink document c), matched_count), [])
  | Map m, segment :: rest =>
      match BTree.get segment m with
      | Some found => resolve_local_ipld document found rest (S matched_count)
      | None => (Err (NotFound document matched_count), rest)
      end
  | List l, segment :: rest =>
      match parse_usize segment with
      | Some index =>
          match l !! Z.to_nat index with
          | Some found => resolve_local_ipld document found rest (S matched_count)
          | None => (Err (ListIndexOutOfRange document matched_count (Z.to_nat index) (length l)), rest)
          end
      | None => (Err (InvalidIndex document matched_count), rest)
      end
  | _, _ :: rest => (Err (NoLinks document matched_count), rest)
  | anything, [] => (Ok (Complete (Projection document anything), matched_count), [])
  end.

Definition resolve_local_dagpb (c : Cid) (data : list byte) (segment : string) (is_last : bool)
    (cache : option UnixFsDir.Cache) :
    outcome (result (LocallyResolved * nat) RawResolveLocalError * option UnixFsDir.Cache) :=
  r ← UnixFsDir.resolve data segment cache;
  let '(r, cache) := r in
  match r with
  | Ok (UnixFsDir.NeedToLoadMore lookup) => mret (Ok (Incomplete c lookup, 0%nat), cache)
  | Ok (UnixFsDir.Found dest) => mret (Ok (Complete (RLink c dest), 1%nat), cache)
  | Ok UnixFsDir.NotFound =>
      if bool_decide (segment = "Data") && is_last then
        r ← wrap_node_data data;
        match r with
        | Ok wrapped => mret (Ok (Complete (DagPbData c wrapped), 1%nat), cache)
        | Err _ => Panic
        end
      else mret (Err (NotFound c 0), cache)
  | Err (UnixFsDir.UnexpectedType ty) =>
      if UnixFsDir.is_file_type ty then mret (Err (NotFound c 0), cache)
      else mret (Err (UnsupportedDocument c (Directory (UnixFsDir.UnexpectedType ty))), cache)
  | Err e => mret (Err (UnsupportedDocument c (Directory e)), cache)
  end.

(** The result, the rest of the segments and the cache. *)
Definition resolve_local (block : Block) (segments : list string) (cache : option UnixFsDir.Cache) :
    outcome (result (LocallyResolved * nat) RawResolveLocalError * list string * option UnixFsDir.Cache) :=
  match segments with
  | [] => mret (Ok (Complete (RBlock block), 0%nat), [], cache)
  | segment :: rest =>
      if bool_decide (cid_codec block.1 = DagPbCodec) then
        r ← resolve_local_dagpb block.1 block.2 segment (bool_decide (rest = [])) cache;
        mret (r.1, rest, r.2)
      else
        match decode block.1 block.2 with
        | Ok ipld => let '(r, rest) := resolve_local_ipld block.1 ipld segments 0 in mret (r, rest, cache)
        | Err e => mret (Err (UnsupportedDocument block.1 (Decoding e)), segments, cache)
        end
  end.

(** ** Through the documents of a repository

    [get_block] is [Repo::get_block_with_session], [resolve_ipns] the method of the
    node that the interface belongs to, if there is one. *)
Section repo.
  Context (get_block : Cid → result Block Error).

Fixpoint resolve_hamt (fuel : nat) (lookup : UnixFsDir.ShardedLookup) (cache : option UnixFsDir.Cache) :
    outcome (result Cid Unsupported * option UnixFsDir.Cache) :=
  match fuel with
  | O => OutOfFuel
  | S fuel =>
      r ← UnixFsDir.pending_links lookup;
      let '(next, _) := r in
      match get_block next with
      | Err e => mret (Err (ShardLoading e), cache)
      | Ok block =>
          r ← UnixFsDir.continue_walk lookup block.2 cache;
          let '(r, cache) := r in
          match r with
          | Err e => mret (Err (Sharded e), cache)
          | Ok (UnixFsDir.NeedToLoadMore next) => resolve_hamt fuel next cache
          | Ok (UnixFsDir.Found c) => mret (Ok c, cache)
          | Ok UnixFsDir.NotFound => mret (Err KeyNotFound, cache)
          end
      end
  end.

(** The loop of [resolve0] from a document on. *)
Fixpoint resolve_from (fuel hamt_fuel : nat) (current : Cid) (segments : list string) (follow_links : bool)
    (total : nat) (cache : option UnixFsDir.Cache) : outcome (result (ResolvedNode * nat) RawResolveLocalError) :=
  match fuel with
  | O => OutOfFuel
  | S fuel =>
      match get_block current with
      | Err e => mret (Err (Loading current e))
      | Ok block =>
          let start := total in
          r ← resolve_local block segments cache;
          let '(r, segments, cache) := r in
          match r with
          | Err e => mret (Err (add_starting_point_in_path start e))
          | Ok (resolution, matched) =>
              let total := (total + matched)%nat in
              let go_on src dest cache :=
                if negb follow_links then mret (Ok (RLink src dest, total))
                else resolve_from fuel hamt_fuel dest segments follow_links total cache in
              match resolution with
              | Complete (RLink src dest) => go_on src dest cache
              | Incomplete src lookup =>
                  r ← resolve_hamt hamt_fuel lookup cache;
                  match r with
                  | (Ok dest, cache) => go_on src dest cache
                  | (Err e, _) => mret (Err (UnsupportedDocument src e))
                  end
              | Complete other => mret (Ok (other, start))
              end
          end
      end
  end.
Definition resolve0 (fuel hamt_fuel : nat) (c : Cid) (segments : list string) (follow_links : bool) :
    outcome (result (ResolvedNode * nat) RawResolveLocalError) :=
  resolve_from fuel hamt_fuel c segments follow_links 0 None.

Context (resolve_ipns : option (IpfsPath → result IpfsPath Error)).

Definition resolve_root (p : IpfsPath) : result (IpfsPath * Cid) ResolveError :=
  let? resolved :=
    match resolve_ipns with
    | Some f => map_err (λ _, IpnsResolutionFailed p) (f p)
    | None => match root p with Path.Ipld _ => Ok p | _ => Err (IpnsResolutionFailed p) end
    end in
  match root_cid (root resolved) with
  | Some c => Ok (resolved, c)
  | None => Err (NoCid resolved)
  end.

Definition resolve (fuel hamt_fuel : nat) (p : IpfsPath) (follow_links : bool) :
    outcome (result (ResolvedNode * list string) ResolveError) :=
  match resolve_root p with
  | Err e => mret (Err e)
  | Ok (resolved_path, c) =>
      r ← resolve0 fuel hamt_fuel c (path resolved_path) follow_links;
      match r with
      | Ok (node, matched) => remaining ← into_shifted matched resolved_path; mret (Ok (node, remaining))
      | Err e => e ← with_path resolved_path e; mret (Err e)
      end
  end.

Definition get (fuel hamt_fuel : nat) (p : IpfsPath) : outcome (result Ipld ResolveError) :=
  match resolve_root p with
  | Err e => mret (Err e)
  | Ok (resolved_path, c) =>
      r ← resolve0 fuel hamt_fuel c (path resolved_path) true;
      match r with
      | Ok (node, _) => mret (Ipld_try_from node)
      | Err e => e ← with_path resolved_path e; mret (Err e)
      end
  end.
End repo.
End resolve.
End DagResolve.
