(* ===== verification/DagProofs.v ===== *)
(** * Resolving what was rendered

    Names in the blocks of rendered directories, paths through a repository that
    holds the blocks of a tree, and the payload of a node. *)
From stdpp Require Import base gmap list strings.
From Stdlib Require Import Strings.Byte.
From S2P Require Import Prelude Protobuf UnixFsPb FileReader Path DirBuilder DirBuilderProofs DirIter DirIterProofs.
From S2P Require Import UnixFsDir DagResolve.
Local Open Scope Z_scope.

(** ** One name in a rendered directory *)
Module DirLookup.
Import Merkledag Flat CustomPb CustomWriter DirBuilder DirTree DirRender UnixFsDir.
Section lookup.
  Context `{cl : CidLayout}.

Lemma matching_from k x ls :
  filter (λ il : nat * PBLink, link_name il.2 = x) (imap (λ i, pair (k + i)%nat) (to_link <$> ls)) =
  (λ il : nat * NamedLeaf, (il.1, to_link il.2)) <$> filter (λ il : nat * NamedLeaf, leaf_name il.2 = x) (imap (λ i, pair (k + i)%nat) ls).
Proof.
  revert k. induction ls as [|l ls IH]; intros k; [done|]. rewrite fmap_cons, !imap_cons.
  rewrite !filter_cons. cbn [fst snd]. change (link_name (to_link l)) with (leaf_name l).
  rewrite (imap_ext _ (λ i, pair (S k + i)%nat) (to_link <$> ls)) by (intros; simpl; f_equal; lia).
  rewrite (imap_ext _ (λ i, pair (S k + i)%nat) ls) by (intros; simpl; f_equal; lia).
  destruct (decide (leaf_name l = x)); rewrite IH; done.
Qed.

Lemma filter_names_nil k x ls : x ∉ leaf_name <$> ls →
  filter (λ il : nat * NamedLeaf, leaf_name il.2 = x) (imap (λ i, pair (k + i)%nat) ls) = [].
Proof.
  revert k. induction ls as [|l ls IH]; intros k; [done|]. rewrite fmap_cons, not_elem_of_cons, imap_cons. intros [Hx Hls].
  rewrite filter_cons_False by (simpl; congruence).
  rewrite (imap_ext _ (λ i, pair (S k + i)%nat) ls) by (intros; simpl; f_equal; lia). by apply IH.
Qed.
Lemma filter_names_one k x l ls : NoDup (leaf_name <$> ls) → l ∈ ls → leaf_name l = x →
  ∃ i, filter (λ il : nat * NamedLeaf, leaf_name il.2 = x) (imap (λ i, pair (k + i)%nat) ls) = [(i, l)].
Proof.
  revert k. induction ls as [|l' ls IH]; intros k Hnd Hin Hx; [by apply elem_of_nil in Hin|].
  rewrite fmap_cons in Hnd. apply NoDup_cons in Hnd as [Hn Hnd]. rewrite imap_cons.
  rewrite (imap_ext _ (λ i, pair (S k + i)%nat) ls) by (intros; simpl; f_equal; lia).
  apply elem_of_cons in Hin as [<-|Hin].
  - rewrite filter_cons_True by done. rewrite filter_names_nil by (by rewrite <-Hx). by eexists.
  - rewrite filter_cons_False; [by apply IH|]. simpl. intros E. apply Hn. rewrite E, <-Hx. by apply list_elem_of_fmap_2.
Qed.

Lemma resolve_links_found x l ls : NoDup (leaf_name <$> ls) → l ∈ ls → leaf_name l = x →
  resolve_links (to_link <$> ls) x = Ok (Found (leaf_link l)).
Proof.
  intros Hnd Hin Hx. unfold resolve_links. rewrite (matching_from 0 x ls : matching x (to_link <$> ls) = _).
  destruct (filter_names_one 0 x l ls Hnd Hin Hx) as (i & Ei). rewrite Ei.
  cbn. unfold try_convert_cid. cbn. by rewrite cid_try_from_to_bytes.
Qed.
Lemma resolve_links_missing x ls : x ∉ leaf_name <$> ls → resolve_links (to_link <$> ls) x = Ok NotFound.
Proof.
  intros Hx. unfold resolve_links. rewrite (matching_from 0 x ls : matching x (to_link <$> ls) = _).
  pose proof (filter_names_nil 0 x ls Hx) as Ei. by rewrite Ei.
Qed.

Lemma resolve_block ls x cache : Forall (λ l, PBLink_range (to_link l)) ls →
  resolve (dir_block ls) x cache = Done (resolve_links (to_link <$> ls) x, cache).
Proof.
  intros Hl. unfold resolve, dir_block. rewrite FlatUnixFs_read_write by (by apply dir_flat_range). done.
Qed.

(** The identifier of a rendered directory or the target of a leaf. *)
Definition dir_cid (d : DirBuilder) : Cid := sha2_256_v0 (dir_block (leaves_of d)).
Definition entry_cid (e : Entry) : Cid := match e with Leaf c _ => c | Directory sub => dir_cid sub end.

Lemma leaves_of_names d : leaf_name <$> leaves_of d = (nodes d).*1.
Proof.
  rewrite leaves_of_eq, <-list_fmap_compose. apply list_fmap_ext. intros i [k [c t|sub]] _; done.
Qed.

Lemma resolve_dir d x cache : wf d → in_range d →
  resolve (dir_block (leaves_of d)) x cache =
    Done (Ok (match BTree.get x (nodes d) with Some e => Found (entry_cid e) | None => NotFound end), cache).
Proof.
  intros [Hnd _]%wf_eq [[Hr _] _]%in_range_eq. rewrite resolve_block by done. do 2 f_equal.
  destruct (BTree.get x (nodes d)) as [e|] eqn:E.
  - apply BTree.get_Some in E; [|done].
    rewrite (resolve_links_found x (entry_leaf (x, e))); [by destruct e|by rewrite leaves_of_names| |by destruct e].
    rewrite leaves_of_eq. by apply list_elem_of_fmap_2.
  - apply resolve_links_missing. rewrite leaves_of_names. by apply BTree.get_None.
Qed.
End lookup.
End DirLookup.

(** ** A path through the blocks of a tree *)
Module TreeLookup.
Import Path DagResolve CustomPb DirBuilder DirTree DirIter DirRender DirLookup.
Section tree.
  Context `{cl : CidLayout} {Error : Type}.
  Context (decode : Cid → list byte → result (Ipld (ids := ids)) Error).
  Context (get_block : Cid → result (Block (ids := ids)) Error).

Definition holds (ns : list TreeNode) : Prop := ∀ n, n ∈ ns → get_block (node_cid n) = Ok (node_cid n, block n).

Lemma holds_child segs d k sub : (k, Directory sub) ∈ nodes d → holds (emitted segs d) → holds (emitted (segs ++ [k]) sub).
Proof.
  intros Hin Hh n Hn. apply Hh. rewrite emitted_eq. apply elem_of_app. left. clear Hh.
  induction (nodes d) as [|[k' [c t|sub']] l IH]; [by apply elem_of_nil in Hin|..]; cbn [below].
  - apply elem_of_cons in Hin as [[=]|Hin]. by apply IH.
  - apply elem_of_app. apply elem_of_cons in Hin as [[= -> ->]|Hin]; [by right|left; by apply IH].
Qed.
Lemma holds_root segs d : holds (emitted segs d) → get_block (dir_cid d) = Ok (dir_cid d, dir_block (leaves_of d)).
Proof. intros Hh. apply (Hh (dir_node segs (leaves_of d))). rewrite emitted_eq. apply elem_of_app. right. by left. Qed.

(** One step: into an entry, or nowhere. *)
Lemma resolve_step segs d x rest fuel hf total cache : wf d → in_range d → holds (emitted segs d) →
  resolve_from decode get_block (S fuel) hf (dir_cid d) (x :: rest) true total cache =
    match BTree.get x (nodes d) with
    | Some e => resolve_from decode get_block fuel hf (entry_cid e) rest true (total + 1) cache
    | None =>
        if bool_decide (x = "Data") && bool_decide (rest = []) then
          r ← DagPb.wrap_node_data (dir_block (leaves_of d));
          match r with
          | Ok wrapped => mret (Ok (DagPbData (dir_cid d) wrapped, total))
          | Err _ => Panic
          end
        else Done (Err (NotFound (dir_cid d) total))
    end.
Proof.
  intros Hw Hr Hh. cbn [resolve_from]. rewrite (holds_root segs d Hh). unfold resolve_local. cbn [fst snd].
  rewrite bool_decide_eq_true_2 by apply cid_v0_codec. unfold resolve_local_dagpb. rewrite resolve_dir by done.
  cbn [mbind outcome_bind]. destruct (BTree.get x (nodes d)) as [e|]; [done|].
  destruct (bool_decide (x = "Data") && bool_decide (rest = [])); [|done].
  destruct (DagPb.wrap_node_data _) as [[w|e]| |]; done.
Qed.

(** The directory at a path. *)
Fixpoint dir_at (p : list string) (d : DirBuilder) : option DirBuilder :=
  match p with
  | [] => Some d
  | x :: p => match BTree.get x (nodes d) with Some (Directory sub) => dir_at p sub | _ => None end
  end.

Lemma resolve_to_dir p : ∀ segs d sub rest fuel hf total cache, wf d → in_range d → holds (emitted segs d) →
  dir_at p d = Some sub → wf sub ∧ in_range sub ∧ (∃ segs', holds (emitted segs' sub)) ∧
    resolve_from decode get_block (length p + fuel) hf (dir_cid d) (p ++ rest) true total cache =
    resolve_from decode get_block fuel hf (dir_cid sub) rest true (total + length p) cache.
Proof.
  induction p as [|x p IH]; intros segs d sub rest fuel hf total cache Hw Hr Hh Hd; cbn [dir_at] in Hd.
  { injection Hd as <-. split_and!; [done|done|by exists segs|]. simpl. by rewrite Nat.add_0_r. }
  destruct (BTree.get x (nodes d)) as [[c t|mid]|] eqn:E; [done| |done].
  pose proof Hw as [Hnd Hch]%wf_eq. pose proof Hr as [_ Hrc]%in_range_eq. pose proof E as Hin%BTree.get_Some; [|done].
  destruct (Hch _ _ Hin) as (_ & _ & Hwm). pose proof (Hrc _ _ Hin) as Hrm. pose proof (holds_child segs d x mid Hin Hh) as Hhm.
  destruct (IH _ mid sub rest fuel hf (total + 1)%nat cache Hwm Hrm Hhm Hd) as (H1 & H2 & H3 & H4).
  split_and!; [done|done|done|]. cbn [length Nat.add app]. rewrite (resolve_step segs) by done. rewrite E. cbn [entry_cid].
  rewrite H4. f_equal. lia.
Qed.

Lemma find_dir_at segs d v : find segs d = Some v → ∃ p x sub, segs = p ++ [x] ∧ dir_at p d = Some sub ∧
  BTree.get x (nodes sub) = Some (Leaf v.1 v.2).
Proof.
  revert d. induction segs as [|x [|y segs] IH]; intros d; [done|..].
  - rewrite find_single. intros H. exists [], x, d. split; [done|]. split; [done|].
    destruct (BTree.get x (nodes d)) as [[c t|]|]; by simplify_eq/=.
  - rewrite find_cons. destruct (BTree.get x (nodes d)) as [[c t|sub]|] eqn:E; [done| |done]. intros H.
    destruct (IH sub H) as (p & z & s & -> & Hd & Hz). exists (x :: p), z, s. split; [done|]. split; [|done].
    cbn [dir_at]. by rewrite E.
Qed.

(** A link that was put is found, with the number of its segments. *)
Lemma resolve_leaf segs p d c t data fuel hf total cache : wf d → in_range d → holds (emitted segs d) →
  find p d = Some (c, t) → get_block c = Ok (c, data) → (length p < fuel)%nat →
  resolve_from decode get_block fuel hf (dir_cid d) p true total cache = Done (Ok (RBlock (c, data), (total + length p)%nat)).
Proof.
  intros Hw Hr Hh Hf Hc Hfuel. destruct (find_dir_at _ _ _ Hf) as (q & x & sub & -> & Hd & Hx). simpl in Hx.
  rewrite length_app in *. simpl in *.
  destruct (resolve_to_dir q segs d sub [x] (fuel - length q) hf total cache Hw Hr Hh Hd) as (H1 & H2 & (segs' & H3) & H4).
  replace (length q + (fuel - length q))%nat with fuel in H4 by lia. rewrite H4.
  destruct (fuel - length q)%nat as [|[|f]] eqn:Ef; [lia|lia|].
  rewrite (resolve_step segs') by done. rewrite Hx. cbn [entry_cid resolve_from]. rewrite Hc.
  cbn. by rewrite Nat.add_assoc.
Qed.

(** A name that a directory does not have. *)
Lemma resolve_missing segs p x rest d sub fuel hf total cache : wf d → in_range d → holds (emitted segs d) →
  dir_at p d = Some sub → BTree.get x (nodes sub) = None → (x ≠ "Data" ∨ rest ≠ []) → (length p < fuel)%nat →
  resolve_from decode get_block fuel hf (dir_cid d) (p ++ x :: rest) true total cache =
    Done (Err (NotFound (dir_cid sub) (total + length p))).
Proof.
  intros Hw Hr Hh Hd Hx Hrest Hfuel.
  destruct (resolve_to_dir p segs d sub (x :: rest) (fuel - length p) hf total cache Hw Hr Hh Hd) as (H1 & H2 & (segs' & H3) & H4).
  replace (length p + (fuel - length p))%nat with fuel in H4 by lia. rewrite H4.
  destruct (fuel - length p)%nat as [|f] eqn:Ef; [lia|]. rewrite (resolve_step segs') by done. rewrite Hx.
  destruct Hrest; repeat case_bool_decide; done.
Qed.
End tree.
End TreeLookup.

(** ** The payload of a node that was written *)
Module NodeDataProofs.
Import DagPb Pb Merkledag.
Section data.
  Context {qp : QuickProtobuf}.

Lemma data_fields_good : Forall (λ p, good p.2) data_fields.
Proof.
  constructor; [by apply good_on_message, PBLink_read_done|]. constructor; [|constructor].
  intros bs msg. simpl. destruct (rd bytes bs) as [[d rest]|e] eqn:E; eexists; (split; [done|]); intros; simplify_eq.
  by apply rd_shrinks in E.
Qed.

Lemma foldl_ignore {A M} (l : list A) (m : M) : foldl (λ m _, m) m l = m.
Proof. induction l; simpl; done. Qed.

Definition node_range (n : PBNode) : Prop :=
  Forall PBLink_range (Links n) ∧ opt_range (λ b, vec_len b < pb_limit) (NodeData n).

Lemma read_data n : node_range n →
  read_fields data_fields (PBNode_write n) None = Done (Ok ((λ d, (d, 0%nat)) <$> NodeData n)).
Proof.
  intros [Hl Hd]. unfold PBNode_write, write_links.
  rewrite (read_messages data_fields 18 PBLink_from_reader (λ _ m, m) PBLink_get_size PBLink_write);
    [|apply data_fields_good|lia| |done].
  2: { eapply Forall_impl; [exact Hl|]. intros l [Hr Hs]. split_and!; [by apply PBLink_read_write|by apply PBLink_size|done]. }
  rewrite foldl_ignore. destruct (NodeData n) as [d|]; simpl in *; [|by rewrite read_fields_nil].
  rewrite <-(app_nil_r (write_with_tag 10 (wr bytes d))).
  rewrite (read_fields_cons _ _ _ _ _ (Some (d, 0%nat))); [by rewrite read_fields_nil|apply data_fields_good|lia|].
  unfold data_fields. cbn [dispatch]. rewrite bool_decide_eq_false_2, bool_decide_eq_true_2 by done. by rewrite rd_wr.
Qed.
Lemma node_data_write n : node_range n →
  node_data (PBNode_write n) = Done (Ok ((λ d, ((length (PBNode_write n) - length d)%nat, d)) <$> NodeData n)).
Proof.
  intros Hn. unfold node_data. rewrite read_data by done. cbn [mbind outcome_bind].
  destruct (NodeData n) as [d|]; cbn; [|done]. by rewrite Nat.sub_0_r.
Qed.

(** The payload is behind its length, at the end of the node. *)
Class LengthDelimited := bytes_layout : ∀ b, vec_len b < pb_limit → ∃ prefix, wr bytes b = prefix ++ b.

Lemma wrap_written `{!LengthDelimited} n : node_range n →
  match NodeData n with
  | Some [] => wrap_node_data (PBNode_write n) = Panic
  | d => ∃ w, wrap_node_data (PBNode_write n) = Done (Ok w) ∧ NodeData_node_data w = default [] d
  end.
Proof.
  intros Hn. unfold wrap_node_data. rewrite node_data_write by done. destruct Hn as [_ Hd].
  destruct (NodeData n) as [d|] eqn:En; [|by eexists]. simpl in Hd. cbn [fmap option_fmap option_map mbind outcome_bind].
  destruct (bytes_layout d Hd) as [prefix Hp].
  assert (∃ pre, PBNode_write n = pre ++ d) as [pre Hw].
  { unfold PBNode_write. rewrite En. cbn [write_opt]. unfold write_with_tag. rewrite Hp. eexists. by rewrite !app_assoc. }
  rewrite Hw, length_app. replace (length pre + length d - length d)%nat with (length pre) by lia.
  unfold subslice_to_range. rewrite bool_decide_eq_false_2 by lia. destruct d as [|b d].
  - rewrite bool_decide_eq_true_2 by (simpl; lia). done.
  - rewrite bool_decide_eq_false_2 by (simpl; lia). eexists. split; [done|]. unfold NodeData_node_data. cbn [nd_range nd_inner].
    rewrite drop_app_length. rewrite take_ge by lia. done.
Qed.
End data.
End NodeDataProofs.
