(* ===== verification/DirClaims.v ===== *)
(** * Directory trees: what the builder, the renderer and the resolver promise *)
From stdpp Require Import base gmap list strings.
From Stdlib Require Import Strings.Byte.
From S2P Require Import Prelude Protobuf UnixFsPb PbInstance FileReader Path DirBuilder DirBuilderProofs DirIter DirIterProofs.
From S2P Require Import UnixFsDir DagResolve DagProofs.
Local Open Scope Z_scope.

(** ** Builders that the operations lead to *)
Module DirReach.
Import Slashes Path UnixFsMetadata DirBuilder DirTree DirRender.
Section reach.
  Context {ids : Ids}.

(** Identifiers for the directories of one more path. *)
Definition room (path : string) (b : BufferingTreeBuilder) : Prop :=
  counter b + Z.of_nat (length (split path)) ≤ usize_max.

(** The two operations, failed ones included. *)
Inductive Op := OpPut (path : string) (c : Cid) (t : Z) | OpMetadata (path : string) (m : Metadata).
Definition op_path (op : Op) : string := match op with OpPut path _ _ | OpMetadata path _ => path end.
Definition run_op (op : Op) (b : BufferingTreeBuilder) : outcome (result unit TreeBuildingFailed * BufferingTreeBuilder) :=
  match op with OpPut path c t => put_link path c t b | OpMetadata path m => set_metadata path m b end.
Inductive built (o : TreeOptions) : list Op → BufferingTreeBuilder → Prop :=
  | built_new : built o [] (builder_new o)
  | built_op ops op ret b b' : built o ops b → room (op_path op) b → run_op op b = Done (ret, b') → built o (ops ++ [op]) b'.
Definition reachable (o : TreeOptions) (b : BufferingTreeBuilder) : Prop := ∃ ops, built o ops b.

Lemma reach_new o : reachable o (builder_new o).
Proof. exists []. constructor. Qed.
Lemma reach_put o path c t ret b b' : reachable o b → room path b → put_link path c t b = Done (ret, b') → reachable o b'.
Proof. intros [ops Hb] Hr Hp. exists (ops ++ [OpPut path c t]). by eapply built_op. Qed.

Definition named (d : DirBuilder) : Prop := ∀ k sub, (k, Directory sub) ∈ nodes d → k ≠ EmptyString.

Lemma set_elem {V} x (v : V) l k e : (k, e) ∈ BTree.set x v l → k = x ∨ (k, e) ∈ l.
Proof.
  induction l as [|[k' e'] l IH]; cbn [BTree.set]; [by intros ?%elem_of_nil|].
  case_bool_decide; rewrite !elem_of_cons; [subst; intros [[= -> ->]|]; auto|]. intros [[= -> ->]|[->|]%IH]; auto.
Qed.

Lemma modify_named wrap full_path f segs d c ret d' c' :
  modify_in wrap full_path f 0 segs d c = Done (ret, d', c') →
  (∀ name i r d1 ni, segs = [name] → f d name (Some i) = Done (r, d1, ni) → named d1) →
  named d → named d'.
Proof.
  intros Hm Hf Hd. destruct segs as [|x segs]; [done|]. cbn [modify_in] in Hm.
  rewrite (bool_decide_eq_true_2 (0%nat = 0%nat)) in Hm by done. rewrite andb_false_r in Hm.
  destruct (bool_decide (x = EmptyString) && negb (bool_decide (segs = []))) eqn:Ex; [by injection Hm as <- <- <-|].
  destruct (decide (segs = [])) as [->|Hne].
  - rewrite (bool_decide_eq_true_2 (@nil string = [])) in Hm by done. case_match; [by injection Hm as <- <- <-|].
    apply bind_Done in Hm as ([[r d1] ni] & Hfd & Hm). pose proof (Hf _ _ _ _ _ eq_refl Hfd) as Hn.
    destruct ni; [by injection Hm as <- <- <-|]. apply bind_Done in Hm as (? & _ & Hm). by injection Hm as <- <- <-.
  - rewrite (bool_decide_eq_false_2 (segs = [])) in Hm, Ex by done. rewrite andb_true_r in Ex. apply bool_decide_eq_false in Ex.
    destruct (BTree.get x (nodes d)) as [[lc lt|sub]|]; [by injection Hm as <- <- <-|..].
    + apply bind_Done in Hm as ([[r s] c1] & _ & Hm). injection Hm as <- <- <-.
      intros k s' [->|Hin]%set_elem; [done|by eapply Hd].
    + case_match; [by injection Hm as <- <- <-|]. apply bind_Done in Hm as (? & _ & Hm).
      apply bind_Done in Hm as (? & _ & Hm). apply bind_Done in Hm as ([[r s] c1] & _ & Hm). injection Hm as <- <- <-.
      intros k s'. simpl. rewrite BTree.insert_perm, elem_of_cons. intros [[= -> ->]|Hin]; [done|by eapply Hd].
Qed.

Lemma modify_with_named full_path f b ret b' : modify_with full_path f b = Done (ret, b') →
  (∀ name i r d1 ni, split full_path = [name] → f (root_builder b) name (Some i) = Done (r, d1, ni) → named d1) →
  named (root_builder b) → named (root_builder b').
Proof.
  unfold modify_with. intros Hm Hf Hd. case_match; [by injection Hm as <- <-|]. case_match; [by injection Hm as <- <-|].
  apply bind_Done in Hm as ([[r d'] c'] & Hm & He). injection He as <- <-. by eapply modify_named.
Qed.

Lemma put_named path c t b ret b' : put_link path c t b = Done (ret, b') → named (root_builder b) → named (root_builder b').
Proof.
  intros Hp Hd. refine (modify_with_named _ _ _ _ _ Hp _ Hd). intros name i r d1 ni _. unfold put_leaf.
  destruct (BTree.get name _); intros [= <- <- <-]; [done|]. intros k sub. simpl.
  rewrite BTree.insert_perm, elem_of_cons. intros [[=]|Hin]. by eapply Hd.
Qed.
Lemma metadata_named path m b ret b' : path ≠ EmptyString → set_metadata path m b = Done (ret, b') →
  named (root_builder b) → named (root_builder b').
Proof.
  intros Hne Hp Hd. refine (modify_with_named _ _ _ _ _ Hp _ Hd). intros name i r d1 ni Hs.
  assert (name ≠ EmptyString) as Hname. { intros ->. apply Hne. by rewrite <-(join_split path), Hs. }
  unfold set_metadata_at. intros ([od ni'] & Ho & Hr)%bind_Done.
  destruct (BTree.get name _) as [[lc lt|sub]|] eqn:E.
  - injection Ho as <- <-. injection Hr as <- <- <-. done.
  - injection Ho as <- <-. injection Hr as <- <- <-. intros k s [->|Hin]%set_elem; [done|by eapply Hd].
  - apply bind_Done in Ho as (s & _ & Ho). injection Ho as <- <-. injection Hr as <- <- <-. intros k s'. simpl.
    rewrite BTree.insert_perm, elem_of_cons. intros [[= -> _]|Hin]; [done|by eapply Hd].
Qed.

Lemma built_inv o ops b : built o ops b → binv b ∧ opts b = o.
Proof.
  induction 1 as [|ops op ret b b' _ [Hb Ho] Hroom Hp]; [split; [apply builder_new_inv|done]|]. destruct op as [path c t|path m].
  - destruct (put_link_ok path c t b Hb Hroom) as (ret' & b1 & Hp' & Hb' & Ho' & _). cbn [run_op] in Hp. rewrite Hp in Hp'.
    injection Hp' as <- <-. split; [done|congruence].
  - destruct (set_metadata_ok path m b Hb Hroom) as (ret' & b1 & Hp' & Hb' & Ho' & _). cbn [run_op] in Hp. rewrite Hp in Hp'.
    injection Hp' as <- <-. split; [done|congruence].
Qed.
Lemma builder_inv o b : reachable o b → binv b ∧ opts b = o.
Proof. intros [ops Hb]. by eapply built_inv. Qed.

(** Where an empty name comes from. *)
Lemma built_named o ops b : built o ops b → (∀ m, OpMetadata EmptyString m ∉ ops) → named (root_builder b).
Proof.
  induction 1 as [|ops op ret b b' _ IH Hroom Hp]; intros Hno; [by intros k sub Hin%elem_of_nil|].
  assert (named (root_builder b)) as Hn by (apply IH; intros m Hin; apply (Hno m), elem_of_app; by left).
  destruct op as [path c t|path m]; [by eapply put_named|]. eapply metadata_named; [|done|done]. intros ->. apply (Hno m), elem_of_app. right.
  by apply list_elem_of_singleton.
Qed.
Lemma built_empty_leaf o ops b c t : built o ops b → find [EmptyString] (root_builder b) = Some (c, t) → OpPut EmptyString c t ∈ ops.
Proof.
  induction 1 as [|ops op ret b b' Hb IH Hroom Hp]; [done|]. destruct (built_inv _ _ _ Hb) as [Hi _]. rewrite elem_of_app.
  destruct op as [path c' t'|path m]; cbn [run_op op_path] in *.
  - destruct (put_link_ok path c' t' b Hi Hroom) as (ret' & b1 & Hp' & _ & _ & _ & Hret). rewrite Hp in Hp'. injection Hp' as <- <-.
    destruct ret as [[]|]; rewrite Hret; [|auto]. case_bool_decide as Hs; [|auto]. intros [= -> ->]. right. apply list_elem_of_singleton.
    by rewrite <-(join_split path), <-Hs.
  - destruct (set_metadata_ok path m b Hi Hroom) as (ret' & b1 & Hp' & _ & _ & _ & Hret). rewrite Hp in Hp'. injection Hp' as <- <-.
    destruct ret as [[]|]; rewrite Hret; auto.
Qed.

(** ** When a link can be put *)

(** No link is on the way to the path, and nothing is at its end. *)
Definition free (segs : list string) (d : DirBuilder) : Prop :=
  (∀ p, p ≠ [] → p ≠ segs → p `prefix_of` segs → find p d = None) ∧ lookup segs d = None.

Lemma free_below x y segs d sub : BTree.get x (nodes d) = Some (Directory sub) → free (x :: y :: segs) d → free (y :: segs) sub.
Proof.
  intros E [Hp Hl]. split.
  - intros p Hne Hns Hpre. specialize (Hp (x :: p)). destruct p as [|z p]; [done|]. rewrite find_cons, E in Hp.
    apply Hp; [done|congruence|by apply prefix_cons].
  - cbn [lookup] in Hl. by rewrite E in Hl.
Qed.
Lemma free_empty segs m p i : free segs (mkDir [] m p i).
Proof. split; [intros; apply find_empty|]. by destruct segs. Qed.

Lemma put_succeeds wrap full_path target total_size segs : ∀ depth d c ret d' c',
  Forall segment_ok segs → (depth = 0%nat → wrap = true ∨ nodes d = []) → free segs d →
  modify_in wrap full_path (λ parent basename next_id,
    match put_leaf basename target total_size parent with
    | Some d => mret (Ok tt, d, next_id)
    | None => mret (Err (DuplicatePath full_path), parent, next_id)
    end) depth segs d c = Done (ret, d', c') → ret = Ok tt.
Proof.
  induction segs as [|x segs IH]; intros depth d c ret d' c' Hs Hw Hf Hm; [done|]. cbn [modify_in] in Hm.
  apply Forall_cons in Hs as [[Hx _] Hs]. rewrite (bool_decide_eq_false_2 (x = EmptyString)) in Hm by done. cbn [andb] in Hm.
  assert (bool_decide (depth = 0%nat) && negb wrap && negb (bool_decide (nodes d = [])) = false) as Hfull.
  { destruct (decide (depth = 0%nat)) as [Hd0|Hd0]; [|by rewrite bool_decide_eq_false_2].
    destruct (Hw Hd0) as [->|E]; [by rewrite andb_false_r|].
    rewrite (bool_decide_eq_true_2 (nodes d = [])) by done. by rewrite andb_false_r. }
  rewrite Hfull in Hm. destruct segs as [|y segs].
  - rewrite (bool_decide_eq_true_2 (@nil string = [])) in Hm by done. destruct Hf as [_ Hl]. cbn [lookup] in Hl. unfold put_leaf in Hm.
    destruct (BTree.get x (nodes d)) as [[?|?]|]; [done..|]. by injection Hm as <- <- <-.
  - rewrite (bool_decide_eq_false_2 (y :: segs = [])) in Hm by done.
    destruct (BTree.get x (nodes d)) as [[lc lt|sub]|] eqn:E.
    + destruct Hf as [Hp _]. specialize (Hp [x]). rewrite find_single, E in Hp.
      assert (Some (lc, lt) = None) as Hbad by (apply Hp; [done|done|by exists (y :: segs)]). discriminate.
    + apply bind_Done in Hm as ([[r s] c1] & Hm & He). injection He as <- <- <-.
      refine (IH _ _ _ _ _ _ Hs _ (free_below _ _ _ _ _ E Hf) Hm). done.
    + apply bind_Done in Hm as (? & _ & Hm). apply bind_Done in Hm as (s0 & Hnew & Hm).
      apply bind_Done in Hm as ([[r s] c1] & Hm & He). injection He as <- <- <-.
      unfold new in Hnew. case_match; [done|]. injection Hnew as <-. refine (IH _ _ _ _ _ _ Hs _ (free_empty _ _ _ _) Hm). done.
Qed.

(** Without a directory around the tree there is room for one entry at the root. *)
Lemma put_refused full_path f x segs d c :
  segment_ok x → BTree.get x (nodes d) = None → nodes d ≠ [] →
  modify_in false full_path f 0 (x :: segs) d c = Done (Err TooManyRootLevelEntries, d, c).
Proof.
  intros [Hx _] Hg Hn. cbn [modify_in]. rewrite (bool_decide_eq_false_2 (x = EmptyString)), (bool_decide_eq_false_2 (nodes d = [])) by done.
  cbn [andb negb]. rewrite (bool_decide_eq_true_2 (0%nat = 0%nat)) by done. cbn [andb negb]. rewrite Hg. by destruct (bool_decide (segs = [])).
Qed.

Lemma ends_with_app x y : y ≠ EmptyString → ends_with_slash (x +:+ y) = ends_with_slash y.
Proof.
  intros Hy. induction x as [|a x IH]; [done|]. change (String a x +:+ y) with (String a (x +:+ y)).
  cbn [ends_with_slash]. destruct (x +:+ y) eqn:E; [|exact IH]. destruct x; [simpl in E; subst; done|done].
Qed.
Lemma ends_with_no_slash x : no_slash x → ends_with_slash x = false.
Proof. induction x as [|a x IH]; [done|]. cbn. intros [Ha Hx]. destruct x; [by apply bool_decide_eq_false|by apply IH]. Qed.
Lemma contains_no_slash x : no_slash x → contains_slashes x = false.
Proof.
  induction x as [|a x IH]; [done|]. cbn. intros [Ha Hx]. rewrite (bool_decide_eq_false_2 (a = slash)) by done.
  destruct x; [done|]. by apply IH.
Qed.
Lemma contains_app x b y : no_slash x → b ≠ slash → contains_slashes (String b y) = false →
  contains_slashes (x +:+ String slash (String b y)) = false.
Proof.
  intros Hx Hb Hy. induction x as [|a x IH].
  - change (bool_decide (slash = slash) && bool_decide (b = slash) || contains_slashes (String b y) = false).
    by rewrite Hy, (bool_decide_eq_false_2 (b = slash)).
  - destruct Hx as [Ha Hx]. specialize (IH Hx). change (String a x +:+ ?z) with (String a (x +:+ z)) in *.
    cbn [contains_slashes]. rewrite (bool_decide_eq_false_2 (a = slash)) by done.
    destruct (x +:+ String slash (String b y)); [done|exact IH].
Qed.

Lemma segments_no_bad_slashes segs : segs ≠ [] → Forall segment_ok segs →
  ends_with_slash (join segs) = false ∧ contains_slashes (join segs) = false.
Proof.
  intros Hne Hs. induction Hs as [|x segs [Hx Hns] Hs IH]; [done|]. destruct segs as [|y segs].
  { simpl. split; [by apply ends_with_no_slash|by apply contains_no_slash]. }
  destruct (IH ltac:(done)) as [I1 I2]. rewrite join_cons by done.
  assert (∃ b r, join (y :: segs) = String b r ∧ b ≠ slash) as (b & r & Ej & Hb).
  { apply Forall_cons in Hs as [[Hy Hys] _]. destruct y as [|b y]; [done|]. destruct Hys as [Hb _].
    destruct segs as [|z segs]; [by eexists _, _|]. rewrite join_cons by done. by eexists _, _. }
  rewrite Ej in *. split; [by rewrite ends_with_app|by apply contains_app].
Qed.
End reach.
End DirReach.

Module DirClaims.
Import Slashes Path DagResolve UnixFsMetadata Merkledag UnixFsData Flat CustomPb CustomWriter DirBuilder DirTree DirIter.
Import DirRender DirLookup TreeLookup DirReach.

Section builder.
  Context {ids : Ids}.

(** What a builder stands for: the link at every path. *)
Definition links_at (b : BufferingTreeBuilder) (q : list string) : option (Cid * Z) := find q (root_builder b).
Definition spec_put (q : list string) (v : Cid * Z) (m : list string → option (Cid * Z)) : list string → option (Cid * Z) :=
  λ q', if bool_decide (q' = q) then Some v else m q'.

(** C18: a builder is a map from paths to links.  Putting a link never panics; when
    it fails, the directories are as they were, with no stale ones left; when it
    succeeds, the link is at its path and every other path has the link it had.  A
    link whose path is free, with no link on the way and nothing at its end, is
    accepted when a directory is wrapped around the tree or the tree is empty; without
    that directory a second name at the root is refused.  Setting metadata changes
    no link. *)
Theorem tree_builder_refines o b : reachable o b →
  (∀ path c t, room path b → ∃ ret b', put_link path c t b = Done (ret, b') ∧ reachable o b' ∧
     match ret with
     | Ok _ => ∀ q, links_at b' q = spec_put (split path) (c, t) (links_at b) q
     | Err _ => root_builder b' = root_builder b
     end) ∧
  (∀ segs c t, room (join segs) b → wrap_with_directory o = true ∨ nodes (root_builder b) = [] → segs ≠ [] → Forall segment_ok segs →
     free segs (root_builder b) → ∃ b', put_link (join segs) c t b = Done (Ok tt, b') ∧ links_at b' segs = Some (c, t)) ∧
  (∀ x segs c t, wrap_with_directory o = false → nodes (root_builder b) ≠ [] → Forall segment_ok (x :: segs) →
     BTree.get x (nodes (root_builder b)) = None →
     ∃ b', put_link (join (x :: segs)) c t b = Done (Err TooManyRootLevelEntries, b') ∧ root_builder b' = root_builder b) ∧
  (∀ path m, room path b → ∃ ret b', set_metadata path m b = Done (ret, b') ∧ ∀ q, links_at b' q = links_at b q).
Proof.
  intros Hr. destruct (builder_inv o b Hr) as (Hb & Ho).
  assert (∀ path c t, room path b → ∃ ret b', put_link path c t b = Done (ret, b') ∧ reachable o b' ∧
     match ret with
     | Ok _ => ∀ q, links_at b' q = spec_put (split path) (c, t) (links_at b) q
     | Err _ => root_builder b' = root_builder b
     end) as Hput.
  { intros path c t Hroom. destruct (put_link_ok path c t b Hb Hroom) as (ret & b' & Hp & _ & _ & _ & Hret).
    exists ret, b'. split; [done|]. split; [by eapply reach_put|]. by destruct ret. }
  split; [done|]. split; [|split].
  - intros segs c t Hroom Hw Hne Hs Hf. destruct (Hput (join segs) c t Hroom) as (ret & b' & Hp & _ & Hret).
    pose proof (segments_no_slash _ Hs) as Hns.
    assert (ret = Ok tt) as ->.
    { unfold put_link, modify_with in Hp. destruct (segments_no_bad_slashes segs Hne Hs) as [E1 E2]. rewrite E1, E2 in Hp.
      apply bind_Done in Hp as ([[r d] c'] & Hm & He). injection He as <- <-. rewrite split_join in Hm by done.
      refine (put_succeeds _ _ _ _ _ _ _ _ _ _ _ Hs _ Hf Hm). intros _. simpl. by rewrite Ho. }
    exists b'. split; [done|]. rewrite Hret. unfold spec_put. by rewrite split_join, bool_decide_eq_true_2.
  - intros x segs c t Hw Hn Hs Hg. destruct (segments_no_bad_slashes (x :: segs) ltac:(done) Hs) as [E1 E2].
    unfold put_link, modify_with. rewrite E1, E2, split_join by (by try apply segments_no_slash). cbn [DirBuilder.opts root_builder counter]. rewrite Ho, Hw.
    apply Forall_cons in Hs as [Hx _]. rewrite put_refused by done. cbn [mbind outcome_bind]. by eexists.
  - intros path m Hroom. destruct (set_metadata_ok path m b Hb Hroom) as (ret & b' & Hp & _ & _ & _ & Hret).
    exists ret, b'. split; [done|]. intros q. unfold links_at. destruct ret; [apply Hret|by rewrite Hret].
Qed.

(** C39: the tree of a builder stays well formed under every sequence of operations, with
    failed ones in between: names are unique in every directory and have no slash,
    those below the root are not empty, directories know their parents, their
    identifiers are distinct and below the counter, and the options never change.
    A directory with the empty name, at the root, comes from setting metadata of
    the empty path, and a link with the empty name was put at the empty path. *)
Theorem tree_well_formed o ops b : built o ops b →
  DirBuilder.opts b = o ∧ wf (root_builder b) ∧ Forall no_slash (nodes (root_builder b)).*1 ∧ NoDup (all_ids (root_builder b)) ∧
  (∀ j, j ∈ all_ids (root_builder b) → 0 ≤ j < counter b) ∧ parent_id (root_builder b) = None ∧
  ((∀ m, OpMetadata EmptyString m ∉ ops) → ∀ k sub, (k, Directory sub) ∈ nodes (root_builder b) → k ≠ EmptyString) ∧
  (∀ c t, links_at b [EmptyString] = Some (c, t) → OpPut EmptyString c t ∈ ops).
Proof.
  intros Hb. destruct (built_inv o ops b Hb) as ([] & Ho). split_and!; try done; [naive_solver|by eapply built_named|].
  intros c t. by eapply built_empty_leaf.
Qed.
End builder.

Section render.
  Context `{cl : CidLayout} {bw : BytesWriter}.

(** C40: the writer that takes a directory's named leaves as they are, without
    making links of them, has the size and writes the bytes of the UnixFS message
    with one link per leaf, of whatever version the identifiers are. *)
Theorem custom_writer_equivalent (ls : list NamedLeaf) (d : UnixFs) :
  Forall (λ l, vec_len (cid_to_bytes (leaf_link l)) < pb_limit) ls →
  CustomFlatUnixFs_get_size (Some <$> ls) d = Done (FlatUnixFs_get_size (mkFlat (to_link <$> ls) d)) ∧
  CustomFlatUnixFs_write (Some <$> ls) d = Done (FlatUnixFs_write (mkFlat (to_link <$> ls) d)).
Proof. intros Hl. split; [apply custom_size|by apply custom_write]. Qed.

(** C20: the iterator returns the node of every directory, those of a directory's
    descendants before its own, under its full path and with its total size (if no
    directory at the root has the empty name); at
    the first block over the limit it stops with the size of that block, and it
    never panics or runs on. *)
Theorem post_order_correct o b : reachable o b → dirs_named b → in_range (root_builder b) →
  (all_fit b (all_nodes b) ∧
     collect (S (length (all_nodes b))) (build_fuel b) (build b) = Done (all_nodes b, None)) ∨
  ∃ ns x ns', all_nodes b = ns ++ x :: ns' ∧ all_fit b ns ∧ ¬ fits (block_size_limit o) (block x) ∧
    collect (S (length (all_nodes b))) (build_fuel b) (build b) = Done (ns, Some (TooLargeBlock (vec_len (block x)))).
Proof.
  intros Hr Hd Hin. destruct (builder_inv o b Hr) as (Hb & <-). apply build_collect; [done..|lia|lia].
Qed.

Context {Error : Type}.
Context (decode : Cid → list byte → result (Ipld (ids := ids)) Error).

(** C5: for a tree with a directory around it, whose directories have names and whose
    blocks all fit the limit: when the blocks that the iterator returns are in a
    repository, every link that was put is resolved from the last of them by its
    path, and a path through a name that a directory does not have (other than a final
    [Data], which is the data of the node) fails with that directory and the path up
    to the name. *)
Theorem tree_resolves o b : reachable o b → dirs_named b → wrap_with_directory o = true → in_range (root_builder b) →
  all_fit b (all_nodes b) → ∃ ns root,
  collect (S (length (all_nodes b))) (build_fuel b) (build b) = Done (ns, None) ∧ last ns = Some root ∧
  ∀ get_block fuel hamt_fuel,
    (∀ n, n ∈ ns → get_block (node_cid n) = Ok (node_cid n, block n)) →
    (∀ q c t data, links_at b q = Some (c, t) → get_block c = Ok (c, data) → (length q < fuel)%nat →
       resolve decode get_block None fuel hamt_fuel (Path.mk (Path.Ipld (node_cid root)) q) true =
         Done (Ok (RBlock (c, data), []))) ∧
    (∀ p x rest sub, dir_at p (root_builder b) = Some sub → BTree.get x (nodes sub) = None →
       (x ≠ "Data" ∨ rest ≠ []) → (length p < fuel)%nat →
       resolve decode get_block None fuel hamt_fuel (Path.mk (Path.Ipld (node_cid root)) (p ++ x :: rest)) true =
         Done (Err (RNotFound (dir_cid sub) (p ++ [x])))).
Proof.
  intros Hr Hd Hw Hin Hfit. destruct (builder_inv o b Hr) as (Hb & Ho).
  assert (all_nodes b = emitted [] (root_builder b)) as Hall by (unfold all_nodes; by rewrite Ho, Hw).
  exists (all_nodes b), (dir_node [] (leaves_of (root_builder b))).
  split. { destruct (build_collect b (S (length (all_nodes b))) (build_fuel b) Hb Hd Hin) as [[_ H]|(ns & x & ns' & E & _ & Hx & _)];
    [lia|lia|done|]. destruct Hx. unfold all_fit in Hfit. rewrite E in Hfit. apply Forall_app in Hfit as [_ Hfit].
    by apply Forall_cons in Hfit as [? _]. }
  split; [rewrite Hall, emitted_eq; apply last_snoc|]. intros get_block fuel hf Hh. rewrite Hall in Hh.
  pose proof (bi_wf b Hb) as Hwf. unfold resolve, resolve0. cbn [resolve_root root_cid root Path.path result_bind].
  change (node_cid (dir_node [] (leaves_of (root_builder b)))) with (dir_cid (root_builder b)). split.
  - intros q c t dat Hq Hc Hfuel. rewrite (resolve_leaf decode get_block [] q _ c t dat) by done. cbn [mbind outcome_bind].
    unfold into_shifted. simpl. rewrite bool_decide_eq_true_2 by lia. cbn. unfold shift. by rewrite drop_all.
  - intros p x rest sub Hp Hx Hrest Hfuel. rewrite (resolve_missing decode get_block [] p x rest _ sub) by done.
    cbn [mbind outcome_bind with_path]. unfold into_truncated. cbn [Path.path Nat.add].
    rewrite bool_decide_eq_true_2 by (rewrite length_app; simpl; lia). cbn [mbind outcome_bind]. unfold truncate.
    rewrite (cons_middle x p rest), app_assoc, (take_app_length' (p ++ [x]) rest); [done|]. rewrite length_app. simpl. lia.
Qed.
End render.

Section payload.
  Context {qp : QuickProtobuf} {ld : NodeDataProofs.LengthDelimited}.

(** Access to the payload of a written node gives the payload, and nothing
    when the node has none; but it panics on a payload that is there and empty. *)
Theorem node_data_correct (n : PBNode) : NodeDataProofs.node_range n →
  match NodeData n with
  | Some [] => DagPb.wrap_node_data (PBNode_write n) = Panic
  | d => ∃ w, DagPb.wrap_node_data (PBNode_write n) = Done (Ok w) ∧ DagPb.NodeData_node_data w = default [] d
  end.
Proof. apply NodeDataProofs.wrap_written. Qed.
End payload.
End DirClaims.

(** ** Concrete runs *)
Module DirWitness.
Import Slashes Path DagResolve Merkledag UnixFsData Flat CustomPb CustomWriter DirBuilder DirTree DirIter.
Import DirRender DirLookup TreeLookup DirReach DirClaims.
#[local] Existing Instance bytes_ids.
#[local] Existing Instance bytes_cids.
#[local] Existing Instance WireFormat.wire_format.

(** Every identifier is of version 0, its own hash. *)
Program Definition toy_layout : CidLayout := {| cid_version := λ _, V0; cid_codec := λ _, 112; cid_hash := λ c, c |}.
Solve Obligations with done.
Program Definition toy_writer : BytesWriter := {|
  bytes_write := λ buffer out,
    if decide (length out ≤ length buffer)%nat then (Ok tt, out ++ drop (length out) buffer) else (Err tt, buffer) |}.
Next Obligation. intros buffer out H. simpl. by rewrite decide_True. Qed.
Lemma toy_delimited : NodeDataProofs.LengthDelimited.
Proof. intros b Hb. by eexists. Qed.
#[local] Existing Instance toy_layout.
#[local] Existing Instance toy_writer.
#[local] Existing Instance toy_delimited.

Definition demo_options : TreeOptions := mkOptions (Some 1000) true.
Definition demo_file : Cid := [x01; x02].
Definition demo_other : Cid := [x03].
Definition put_demo (path : string) (c : Cid) (b : BufferingTreeBuilder) : BufferingTreeBuilder :=
  (run_or (Ok tt, b) (put_link path c 7 b)).2.
Definition put_accepts (path : string) (c : Cid) (b : BufferingTreeBuilder) : bool :=
  match put_link path c 7 b with Done (Ok _, _) => true | _ => false end.
Lemma put_demo_ok path c b : put_accepts path c b = true → put_link path c 7 b = Done (Ok tt, put_demo path c b).
Proof. unfold put_accepts, put_demo. by destruct (put_link path c 7 b) as [[[[]|] b']| |]. Defined.
Definition demo_one : BufferingTreeBuilder := put_demo "a/b/c" demo_file (builder_new demo_options).
Definition demo_tree : BufferingTreeBuilder := put_demo "a/d" demo_other demo_one.

Lemma demo_tree_built : built demo_options [OpPut "a/b/c" demo_file 7; OpPut "a/d" demo_other 7] demo_tree.
Proof.
  refine (built_op _ [OpPut "a/b/c" demo_file 7] (OpPut "a/d" demo_other 7) (Ok tt) demo_one _ _ _ (put_demo_ok _ _ _ _)).
  - refine (built_op _ [] (OpPut "a/b/c" demo_file 7) (Ok tt) _ _ (built_new _) _ (put_demo_ok _ _ _ _)); vm_compute; [discriminate|reflexivity].
  - vm_compute. discriminate.
  - vm_compute. reflexivity.
Defined.
Lemma demo_tree_reachable : reachable demo_options demo_tree.
Proof. eexists. exact demo_tree_built. Qed.
Lemma demo_named : dirs_named demo_tree.
Proof. eapply built_named; [exact demo_tree_built|]. intros m Hm. repeat (apply elem_of_cons in Hm as [[=]|Hm]). by apply elem_of_nil in Hm. Qed.

Lemma tree_builder_refines_witness : ∃ b', put_link "e/f" demo_file 9 demo_tree = Done (Ok tt, b') ∧
  links_at b' ["e"; "f"] = Some (demo_file, 9).
Proof.
  destruct (tree_builder_refines _ _ demo_tree_reachable) as (_ & H & _).
  apply (H ["e"; "f"] demo_file 9).
  - vm_compute. discriminate.
  - left. reflexivity.
  - discriminate.
  - repeat constructor; vm_compute; try discriminate; intros; discriminate.
  - split; [|vm_compute; reflexivity]. intros p Hne Hns [k Hk]. destruct p as [|x [|y [|z p]]]; [done|..].
    + injection Hk as <- _. vm_compute. reflexivity.
    + injection Hk as <- <- _. destruct (Hns eq_refl).
    + discriminate.
Defined.

Lemma tree_well_formed_witness : NoDup (all_ids (root_builder demo_tree)) ∧ wf (root_builder demo_tree).
Proof. destruct (tree_well_formed _ _ _ demo_tree_built) as (_ & H1 & _ & H2 & _). split; [exact H2|exact H1]. Defined.

Definition leaf_one : NamedLeaf := mkNamed "x" demo_file 7.
Lemma custom_writer_equivalent_witness :
  CustomFlatUnixFs_write (Some <$> [leaf_one]) directory_data =
    Done (FlatUnixFs_write (mkFlat (to_link <$> [leaf_one]) directory_data)).
Proof. apply custom_writer_equivalent. repeat constructor. Defined.

#[local] Instance opt_range_decision {A} (P : A → Prop) `{∀ a, Decision (P a)} o : Decision (Pb.opt_range P o).
Proof. destruct o; simpl; apply _. Defined.
#[local] Instance dir_range_decision ls : Decision (dir_range ls).
Proof. unfold dir_range, PBLink_range, PBLink_fields_range, str_range. apply _. Defined.

Ltac solve_in_range :=
  apply in_range_eq; split; [apply (bool_decide_unpack _); vm_compute; exact I|];
  let k := fresh in let sub := fresh in let Hin := fresh in intros k sub Hin;
  repeat (apply elem_of_cons in Hin as [Hin|Hin]; [first [discriminate Hin | injection Hin as -> ->; solve_in_range]|]);
  by apply elem_of_nil in Hin.
Lemma demo_in_range : in_range (root_builder demo_tree).
Proof. solve_in_range. Defined.

Lemma demo_fits : all_fit demo_tree (all_nodes demo_tree).
Proof. apply (bool_decide_unpack _). vm_compute. exact I. Defined.

Lemma post_order_correct_witness :
  collect (S (length (all_nodes demo_tree))) (build_fuel demo_tree) (build demo_tree) = Done (all_nodes demo_tree, None).
Proof.
  destruct (post_order_correct _ _ demo_tree_reachable demo_named demo_in_range) as [[_ H]|(ns & x & ns' & E & _ & Hx & _)]; [exact H|].
  destruct Hx. pose proof demo_fits as Hf. unfold all_fit in Hf. rewrite E in Hf. apply Forall_app in Hf as [_ Hf].
  apply Forall_cons in Hf as [Hf _]. exact Hf.
Defined.

Definition demo_nodes : list TreeNode :=
  (run_or ([], None) (collect (S (length (all_nodes demo_tree))) (build_fuel demo_tree) (build demo_tree))).1.
Definition no_decode (c : Cid) (data : list byte) : result Ipld unit := Err tt.
Definition demo_repo (c : Cid) : result (Cid * list byte) unit :=
  if decide (c = demo_file) then Ok (demo_file, [x07])
  else match list_find (λ n, node_cid n = c) demo_nodes with Some (_, n) => Ok (node_cid n, block n) | None => Err tt end.

Lemma demo_repo_holds : Forall (λ n, demo_repo (node_cid n) = Ok (node_cid n, block n)) demo_nodes.
Proof. apply (bool_decide_unpack _). vm_compute. exact I. Defined.

Lemma tree_resolves_witness : ∃ root,
  resolve no_decode demo_repo None 5 5 (Path.mk (Path.Ipld root) ["a"; "b"; "c"]) true =
    Done (Ok (RBlock (demo_file, [x07]), [])) ∧
  resolve no_decode demo_repo None 5 5 (Path.mk (Path.Ipld root) ["a"; "x"; "y"]) true =
    Done (Err (RNotFound (dir_cid (default (root_builder demo_tree) (dir_at ["a"] (root_builder demo_tree)))) ["a"; "x"])).
Proof.
  destruct (tree_resolves no_decode _ _ demo_tree_reachable demo_named eq_refl demo_in_range demo_fits) as (ns & root & Hc & _ & H).
  assert (ns = demo_nodes) as -> by (unfold demo_nodes; rewrite Hc; reflexivity).
  destruct (H demo_repo 5%nat 5%nat) as [H1 H2].
  { intros n Hn. pose proof demo_repo_holds as Hr. rewrite Forall_forall in Hr. exact (Hr n Hn). }
  exists (node_cid root). split.
  - apply (H1 ["a"; "b"; "c"] demo_file 7 [x07]); [vm_compute; reflexivity|vm_compute; reflexivity|simpl; lia].
  - apply (H2 ["a"] "x" ["y"] (default (root_builder demo_tree) (dir_at ["a"] (root_builder demo_tree))));
      [vm_compute; reflexivity|vm_compute; reflexivity|right; discriminate|simpl; lia].
Defined.

Definition empty_payload : PBNode := mkPBNode [] (Some []).
Lemma node_data_correct_witness : DagPb.wrap_node_data (PBNode_write empty_payload) = Panic.
Proof. apply (node_data_correct empty_payload). split; [constructor|reflexivity]. Defined.
(** The block [0a 00] is such a node. *)
Example empty_payload_block : PBNode_write empty_payload = [x0a; x00].
Proof. vm_compute. reflexivity. Qed.
End DirWitness.
