(* ===== verification/UnixFsWrap.v ===== *)
(** * Adding a file: the directory around it

    The end of the stream of src/unixfs/add.rs: wrapping the added file in a
    directory of its own, pinning the result and asking for it to be provided. *)
From stdpp Require Import base gmap list strings.
From Stdlib Require Import Strings.Byte.
From S2P Require Import Prelude Protobuf UnixFsPb PbInstance FileTree FileAdder FileReader UnixFsAdd UnixFsClaims Path DirBuilder DirBuilderProofs DirIter DirIterProofs.
From S2P Require Import UnixFsDir DagResolve DagProofs DirClaims.
Local Open Scope Z_scope.

Module UnixFsWrap.
Import Slashes Path DirBuilder DirIter.
Section wrap.
  Context `{cl : CidLayout} {bw : BytesWriter} {pc : PathCodec} {Repo E IoError : Type}.
  Context (block_new : Cid → list byte → result FileAdder.Block E).
  Context (put_block : FileAdder.Block → Repo → result Cid E * Repo).

Inductive WrapError :=
  | Building (e : TreeBuildingFailed)
  | Constructing (e : TreeConstructionFailed)
  | Storing (e : E)
  | NoCidAvailable
  | SubPath (e : Path.Error).

(** The [while let] loop over the nodes of the tree. *)
Fixpoint store_nodes (turns fuel : nat) (it : PostOrderIterator) (cids : list Cid) (repo : Repo) :
    outcome (result (list Cid) WrapError * Repo) :=
  match turns with
  | O => OutOfFuel
  | S turns =>
      r ← next_borrowed fuel it;
      match r with
      | (None, _) => mret (Ok cids, repo)
      | (Some (Err e), _) => mret (Err (Constructing e), repo)
      | (Some (Ok node), it) =>
          match block_new (node_cid node) (block node) with
          | Err e => mret (Err (Storing e), repo)
          | Ok b =>
              match put_block b repo with
              | (Err e, repo) => mret (Err (Storing e), repo)
              | (Ok _, repo) => store_nodes turns fuel it (cids ++ [node_cid node]) repo
              end
          end
      end
  end.

Definition wrap_options : TreeOptions := mkOptions (block_size_limit TreeOptions_default) true.

(** The [async] block that wraps a file. *)
Definition wrap_file (turns fuel : nat) (name : string) (cid : Cid) (written : Z) (repo : Repo) :
    outcome (result IpfsPath WrapError * Repo) :=
  r ← put_link name cid written (builder_new wrap_options);
  match r with
  | (Err e, _) => mret (Err (Building e), repo)
  | (Ok _, tree) =>
      r ← store_nodes turns fuel (build tree) [] repo;
      match r with
      | (Err e, repo) => mret (Err e, repo)
      | (Ok cids, repo) =>
          match last cids with
          | None => mret (Err NoCidAvailable, repo)
          | Some cid =>
              mret (map_err SubPath (sub_path name (Path.mk (Path.Ipld cid) [])), repo)
          end
      end
  end.

Record AddOption := mkAddOption { chunk : option FileAdder.Chunker; pin : bool; provide : bool; wrap : bool }.
Definition AddOption_default : AddOption := mkAddOption (Some (FileAdder.Size (256 * 1024))) false false false.

Context (is_pinned : Cid → Repo → result bool E).
Context (insert_pin : Cid → bool → bool → Repo → result unit E * Repo).

(** An error of pinning is only logged. *)
Definition pin_added (cid : Cid) (repo : Repo) : Repo :=
  match is_pinned cid repo with
  | Ok false => (insert_pin cid true true repo).2
  | _ => repo
  end.

(** From the identifier of the file on: the path or the error of the last status,
    and the identifier to provide, if the caller is a node and not a bare repository
    ([ipfs]). *)
Definition complete (ipfs : bool) (turns fuel : nat) (opt : option AddOption) (name : option string) (cid : Cid) (written : Z)
    (repo : Repo) : outcome (result IpfsPath WrapError * option Cid * Repo) :=
  let path := Path.mk (Path.Ipld cid) [] in
  match opt with
  | None => mret (Ok path, None, repo)
  | Some opt =>
      r ← match wrap opt, name with
          | true, Some name => wrap_file turns fuel name cid written repo
          | _, _ => Done (Ok path, repo)
          end;
      match r with
      | (Err e, repo) => mret (Err e, None, repo)
      | (Ok path, repo) =>
          match root_cid (root path) with
          | None => Panic
          | Some cid =>
              let repo := if pin opt then pin_added cid repo else repo in
              mret (Ok path, if provide opt && ipfs then Some cid else None, repo)
          end
      end
  end.

Inductive Added :=
  | Completed (path : IpfsPath) (written : Z)
  | Failed (written : Z) (e : option (UnixFsAdd.AddError (Error := E) (IoError := IoError) + WrapError)).

(** [add]: the statuses before the last one, the last one, what to provide. *)
Definition add (ipfs : bool) (turns fuel : nat) (name : option string) (total_size : option Z)
    (stream : list (result (list byte) IoError)) (opt : option AddOption) (repo : Repo) :
    outcome (list UnixFsAdd.UnixfsStatus * Added * option Cid * Repo) :=
  let chunk := match opt with
               | Some o => default FileAdder.Chunker_default (chunk o)
               | None => FileAdder.Chunker_default
               end in
  r ← UnixFsAdd.add block_new put_block chunk total_size stream repo;
  let '(statuses, repo) := r in
  let before := take (length statuses - 1) statuses in
  match last statuses with
  | Some (UnixFsAdd.CompletedStatus cid written _) =>
      r ← complete ipfs turns fuel opt name cid written repo;
      let '(r, provided, repo) := r in
      mret (before, match r with Ok p => Completed p written | Err e => Failed written (Some (inr e)) end, provided, repo)
  | Some (UnixFsAdd.FailedStatus written _ e) => mret (before, Failed written (inl <$> e), None, repo)
  | _ => Panic
  end.
End wrap.

(** ** A repository that accepts valid blocks *)
Section accepting.
  Import Merkledag UnixFsData Flat CustomPb CustomWriter DirTree DirRender DirReach.
  Context `{cl : CidLayout} {bw : BytesWriter} {pc : PathCodec} {Repo E : Type}.
  Context (block_new : Cid → list byte → result FileAdder.Block E).
  Context (put_block : FileAdder.Block → Repo → result Cid E * Repo).
  Context (stored : Repo → list FileAdder.Block).
  Context (Hnew : ∀ b, block_new (sha2_256_v0 b) b = Ok (sha2_256_v0 b, b)).
  Context (Hput : ∀ b r, (put_block b r).1 = Ok b.1 ∧ stored (put_block b r).2 = stored r ++ [b]).

Definition node_block (n : TreeNode) : FileAdder.Block := (node_cid n, block n).

Lemma store_nodes_ok turns fuel it ns cids repo : collect turns fuel it = Done (ns, None) →
  Forall (λ n, node_cid n = sha2_256_v0 (block n)) ns →
  ∃ repo', store_nodes block_new put_block turns fuel it cids repo = Done (Ok (cids ++ (node_cid <$> ns)), repo') ∧
    stored repo' = stored repo ++ (node_block <$> ns).
Proof.
  revert it ns cids repo. induction turns as [|turns IH]; intros it ns cids repo Hc Hn; [done|]. cbn [collect] in Hc.
  apply bind_Done in Hc as ([[[n|e]|] it1] & Hnext & Hc).
  - apply bind_Done in Hc as ([ns' fin] & Hc & He). injection He as <- ->. simpl in *. apply Forall_cons in Hn as [Hh Hn].
    cbn [store_nodes]. rewrite Hnext. cbn [mbind outcome_bind]. rewrite Hh, Hnew.
    destruct (Hput (sha2_256_v0 (block n), block n) repo) as [P1 P2]. destruct (put_block _ repo) as [pr repo1]. simpl in P1, P2.
    subst pr. destruct (IH it1 ns' (cids ++ [sha2_256_v0 (block n)]) repo1 Hc Hn) as (repo' & Hr & Hs).
    exists repo'. rewrite Hr, Hs, P2, <-!app_assoc. simpl. unfold node_block. by rewrite Hh.
  - by injection Hc as <-.
  - injection Hc as <-. exists repo. cbn [store_nodes]. rewrite Hnext. cbn. by rewrite !app_nil_r.
Qed.

(** The tree with the one file. *)
Definition wrapped_tree (name : string) (cid : Cid) (written : Z) : BufferingTreeBuilder :=
  mk (mkDir [(name, Leaf cid written)] Metadata_default None 0) (Z.max (vec_len (str_bytes name)) 0) 1 wrap_options.
Lemma wrapped_put name cid written : segment_ok name →
  put_link name cid written (builder_new wrap_options) = Done (Ok tt, wrapped_tree name cid written).
Proof.
  intros [Hne Hns]. unfold put_link, modify_with. cbn [longest_path opts counter root_builder builder_new].
  rewrite ends_with_no_slash, contains_no_slash by done. rewrite split_single by done. cbn [modify_in].
  rewrite (bool_decide_eq_false_2 (name = EmptyString)) by done. done.
Qed.

(** A name, an identifier and a size that a link can hold. *)
Definition link_fits (name : string) (cid : Cid) (written : Z) : Prop :=
  segment_ok name ∧ is_utf8 (str_bytes name) = true ∧ vec_len (str_bytes name) ≤ 4096 ∧
  vec_len (cid_to_bytes cid) ≤ 4096 ∧ 0 ≤ written ≤ 2 ^ 63.

Lemma len_bounds n : 0 ≤ n ≤ usize_max → n + 1 ≤ sizeof_len n ≤ n + 10.
Proof. apply FileAdder.len_u64. Qed.

Lemma wrapped_range name cid written : link_fits name cid written →
  in_range (root_builder (wrapped_tree name cid written)) ∧
  all_fit (wrapped_tree name cid written) (all_nodes (wrapped_tree name cid written)).
Proof.
  intros ([Hne Hns] & Hu & Hl & Hc & Hw). pose proof (Pb.vec_len_nonneg (str_bytes name)). pose proof (Pb.vec_len_nonneg (cid_to_bytes cid)).
  set (ls := [mkNamed name cid written]). set (l := to_link (mkNamed name cid written)).
  pose proof (len_bounds (vec_len (str_bytes name)) ltac:(unfold usize_max; lia)).
  assert (0 ≤ vec_len (cid_to_bytes cid) ≤ usize_max) as Hcb by (unfold usize_max; lia). pose proof (len_bounds _ Hcb).
  pose proof (sizeof_varint_bound written ltac:(lia)).
  assert (0 ≤ PBLink_get_size l ≤ 9000) as Hsz by (unfold PBLink_get_size, l; simpl; lia).
  assert (Forall (λ l, PBLink_range (to_link l)) ls) as Hr.
  { constructor; [|constructor]. split; [|unfold pb_limit; fold l; lia]. unfold PBLink_fields_range, str_range, pb_limit. simpl.
    split_and!; try done; lia. }
  assert (vec_len (dir_block ls) ≤ 10000) as Hb.
  { rewrite <-dir_block_size by done. unfold FlatUnixFs_get_size. simpl. fold l.
    assert (0 ≤ PBLink_get_size l ≤ usize_max) as Hlb by (unfold usize_max; lia). pose proof (len_bounds _ Hlb).
    assert (0 ≤ UnixFs_get_size directory_data ≤ 100) as Hd.
    { unfold UnixFs_get_size, directory_data. simpl. pose proof (sizeof_varint_bound 1 ltac:(lia)). unfold DataType_into. simpl. lia. }
    assert (0 ≤ UnixFs_get_size directory_data ≤ usize_max) as Hdb by (unfold usize_max; lia). pose proof (len_bounds _ Hdb). lia. }
  split.
  - apply in_range_eq. rewrite leaves_of_eq. simpl. split; [|intros k sub Hin; apply elem_of_cons in Hin as [[=]|Hin]; by apply elem_of_nil in Hin].
    split; [exact Hr|]. change (vec_len (dir_block ls) + (written + 0) ≤ usize_max). unfold usize_max. lia.
  - unfold all_fit, all_nodes. simpl. constructor; [|constructor]. change (vec_len (dir_block ls) ≤ 524288). lia.
Qed.

Definition dir_of (name : string) (cid : Cid) (written : Z) : FileAdder.Block :=
  let b := dir_block [mkNamed name cid written] in (sha2_256_v0 b, b).

Lemma wrapped_reachable name cid written : segment_ok name →
  reachable wrap_options (wrapped_tree name cid written).
Proof.
  intros Hs. refine (reach_put _ name cid written _ _ _ (reach_new _) _ (wrapped_put _ _ _ Hs)).
  unfold room. destruct Hs as [_ Hs]. rewrite split_single by done. simpl. unfold usize_max. lia.
Qed.

Lemma wrapped_named name cid written : dirs_named (wrapped_tree name cid written).
Proof. intros k sub Hin. simpl in Hin. apply list_elem_of_singleton in Hin. done. Qed.

Lemma wrap_file_ok name cid written repo : link_fits name cid written →
  ∃ repo', wrap_file block_new put_block 2 3 name cid written repo =
      Done (Ok (Path.mk (Path.Ipld (dir_of name cid written).1) [name]), repo') ∧
    stored repo' = stored repo ++ [dir_of name cid written].
Proof.
  intros Hl. destruct (wrapped_range name cid written Hl) as [Hr Hf]. destruct Hl as [Hs _].
  destruct (builder_inv _ _ (wrapped_reachable name cid written Hs)) as (Hb & _).
  pose proof (wrapped_named name cid written) as Hd.
  destruct (build_collect (wrapped_tree name cid written) 2 3 Hb Hd Hr) as [[_ Hc]|(ns & x & ns' & Ea & _ & Hx & _)];
    [simpl; lia|unfold build_fuel; simpl; lia| |].
  2: { destruct Hx. unfold all_fit in Hf. rewrite Ea in Hf. apply Forall_app in Hf as [_ Hf]. by apply Forall_cons in Hf as [? _]. }
  destruct (store_nodes_ok 2 3 _ _ [] repo Hc) as (repo' & Hst & Hsr).
  { unfold all_nodes. simpl. constructor; [done|constructor]. }
  exists repo'. split; [|done]. unfold wrap_file. rewrite wrapped_put by done. cbn [mbind outcome_bind]. rewrite Hst.
  cbn [mbind outcome_bind]. unfold all_nodes, sub_path, push_path. cbn [opts wrapped_tree wrap_options wrap_with_directory].
  destruct Hs as [Hne Hns]. rewrite bool_decide_eq_false_2 by done. rewrite split_single by done.
  cbn [Path.path Path.root]. rewrite push_split_ok by (constructor; [done|constructor]). done.
Qed.
End accepting.
End UnixFsWrap.

Module UnixFsWrapClaims.
Import UnixFsWrap Path DagResolve.
Section claims.
  Context `{cl : CidLayout} {bw : BytesWriter} {pc : PathCodec} {Repo E IoError : Type}.
  Context (block_new : Cid → list byte → result FileAdder.Block E).
  Context (put_block : FileAdder.Block → Repo → result Cid E * Repo).
  Context (is_pinned : Cid → Repo → result bool E).
  Context (insert_pin : Cid → bool → bool → Repo → result unit E * Repo).
  Context (stored : Repo → list FileAdder.Block).
  Context (Hnew : ∀ b, block_new (sha2_256_v0 b) b = Ok (sha2_256_v0 b, b)).
  Context (Hput : ∀ b r, (put_block b r).1 = Ok b.1 ∧ stored (put_block b r).2 = stored r ++ [b]).
  Context (decode : Cid → list byte → result (Ipld (ids := ids)) E).

(** C26: a file that is added in a directory of its own (and is not exactly one
    chunk long) is reported under the path of that directory and its name, and
    in a repository with the blocks that were stored that path resolves to the
    block of the root of a tree that holds the file. *)
Theorem add_wrapped_resolves ipfs max provided total_size buffers name repo :
  (1 ≤ max ≤ FileAdder.max_chunk)%Z → (vec_len (concat buffers) ≤ FileAdder.max_content)%Z →
  vec_len (concat buffers) ≠ max → Path.segment_ok name → is_utf8 (str_bytes name) = true → (vec_len (str_bytes name) ≤ 4096)%Z →
  ∃ statuses dir blocks root data t repo',
    add (IoError := IoError) block_new put_block is_pinned insert_pin ipfs 2 3 (Some name) total_size (Ok <$> buffers)
      (Some (mkAddOption (Some (FileAdder.Size max)) false provided true)) repo =
    Done (statuses, Completed (Path.mk (Path.Ipld dir) [name]) (vec_len (concat buffers)),
          if provided && ipfs then Some dir else None, repo') ∧
    stored repo' = stored repo ++ blocks ∧
    FileTree.represents (λ c b, (c, b) ∈ blocks) root t ∧ FileTree.content t = concat buffers ∧ (root, data) ∈ blocks ∧
    ∀ get_block fuel hamt_fuel, (∀ c b, (c, b) ∈ blocks → get_block c = Ok (c, b)) → (2 ≤ fuel)%nat →
      resolve decode get_block None fuel hamt_fuel (Path.mk (Path.Ipld dir) [name]) true = Done (Ok (RBlock (root, data), [])).
Proof.
  intros Hmax Hlen Hne Hname Hutf Hnl.
  destruct (UnixFsClaims.add_runs (IoError := IoError) block_new put_block stored Hnew Hput max total_size buffers repo Hmax Hlen)
    as (sts & repo1 & b1 & b2 & Hrun & Hst & (root & t & Hlast & Hrep & Hc) & Hnil & Hh).
  assert (b2 ≠ []) by (intros Eb; by apply Hne, Hnil).
  rewrite fmap_app, last_app in Hlast. destruct (last b2.*1) as [root'|] eqn:Hb2; last first.
  { apply last_None in Hb2. by destruct b2. }
  injection Hlast as ->. set (len := vec_len (concat buffers)) in *.
  assert (vec_len (cid_to_bytes root) ≤ 4096) as Hrl.
  { apply last_Some_elem_of, list_elem_of_fmap in Hb2 as ([c b] & -> & Hin). eapply Forall_forall in Hh; [|exact Hin].
    unfold FileAdder.hashed in Hh. simpl in Hh |- *. rewrite Hh, sha2_256_v0_length. lia. }
  assert (link_fits name root len) as Hfit.
  { split; [done|]. split; [done|]. split; [done|]. split; [done|]. unfold FileAdder.max_content in Hlen.
    pose proof (Pb.vec_len_nonneg (concat buffers)). unfold len in *. lia. }
  destruct (wrap_file_ok block_new put_block stored Hnew Hput name root len repo1 Hfit) as (repo' & Hw & Hst').
  destruct Hrep as [data f cs Hin Hf Hd Hm Hch].
  exists sts, (dir_of name root len).1, ((b1 ++ b2) ++ [dir_of name root len]), root, data, t, repo'.
  split.
  - unfold add. cbn [UnixFsWrap.chunk default from_option id]. rewrite Hrun. cbn [mbind outcome_bind]. rewrite last_snoc, length_app. cbn [length].
    rewrite Nat.add_sub, take_app_length. unfold complete. cbn [UnixFsWrap.wrap pin provide]. fold len. rewrite Hw. done.
  - split; [by rewrite Hst', Hst, <-!app_assoc|]. split.
    { econstructor; [|exact Hf|exact Hd|exact Hm|]; [apply elem_of_app; by left|].
      eapply Forall2_impl; [exact Hch|]. intros c t'. apply FileTree.represents_mono. intros. apply elem_of_app. by left. }
    split; [done|]. split; [apply elem_of_app; by left|]. intros get_block fuel hf Hg Hfuel.
    destruct (wrapped_range name root len Hfit) as [Hr _].
    destruct (DirReach.builder_inv _ _ (wrapped_reachable name root len Hname)) as (Hb & _).
    unfold resolve, resolve0. cbn [resolve_root root_cid Path.root Path.path result_bind].
    change (dir_of name root len).1 with (DirLookup.dir_cid (DirBuilder.root_builder (wrapped_tree name root len))).
    rewrite (TreeLookup.resolve_leaf decode get_block [] [name] _ root len data); [|apply Hb|done| | | |simpl; lia].
    + cbn [mbind outcome_bind]. done.
    + intros n Hn. apply Hg. apply elem_of_app. right. unfold DirRender.emitted in Hn. simpl in Hn.
      apply list_elem_of_singleton in Hn as ->. by apply list_elem_of_singleton.
    + unfold DirTree.find. simpl. by rewrite bool_decide_eq_true_2.
    + apply Hg, elem_of_app. by left.
Qed.
End claims.
End UnixFsWrapClaims.

Module UnixFsWrapWitness.
Import Slashes PathWitness UnixFsWrap UnixFsWrapClaims DagResolve.
#[local] Existing Instance bytes_ids.
#[local] Existing Instance bytes_cids.
#[local] Existing Instance WireFormat.wire_format.
#[local] Existing Instance DirWitness.toy_layout.
#[local] Existing Instance DirWitness.toy_writer.

(** An identifier is written as as many letters as the number that encodes it. *)
Definition read_number (s : string) : result Cid unit :=
  match read_letters letter_c s ≫= decode_nat with Some c => Ok c | None => Err tt end.
Lemma read_number_ok c : read_number (letters letter_c (S (encode_nat c))) = Ok c.
Proof. unfold read_number. rewrite read_letters_ok. cbn [mbind option_bind]. by rewrite decode_encode_nat. Qed.
Definition bytes_path_codec : PathCodec := {|
  TextError := unit;
  cid_from_str := read_number;
  cid_to_string := λ c, letters letter_c (S (encode_nat c));
  cid_from_to_string := read_number_ok;
  cid_string_no_slash := λ c, letters_no_slash letter_c (S (encode_nat c)) ltac:(done);
  peer_from_str := read_letters letter_p;
  peer_to_base58 := λ n, letters letter_p (S n);
  peer_from_to_base58 := read_letters_ok letter_p;
  peer_string_no_slash := λ n, letters_no_slash letter_p (S n) ltac:(done);
  peer_of_cid := λ c, None;
|}.
#[local] Existing Instance bytes_path_codec.

Definition demo_blocks : Type := list FileAdder.Block.
Definition accept_block (c : Cid) (b : list byte) : result FileAdder.Block unit := Ok (c, b).
Definition store_block (b : FileAdder.Block) (r : demo_blocks) : result Cid unit * demo_blocks := (Ok b.1, r ++ [b]).
Definition never_pinned (c : Cid) (r : demo_blocks) : result bool unit := Ok false.
Definition no_pin (c : Cid) (recursive local : bool) (r : demo_blocks) : result unit unit * demo_blocks := (Ok tt, r).
Definition demo_content : list (list byte) := [[x01; x02; x03]; [x04; x05]].

Lemma add_wrapped_resolves_witness : ∃ statuses dir (blocks : demo_blocks) root data repo',
  add (IoError := unit) accept_block store_block never_pinned no_pin true 2 3 (Some "f") None (Ok <$> demo_content)
    (Some (mkAddOption (Some (FileAdder.Size 4)) false true true)) [] =
  Done (statuses, Completed (Path.mk (Path.Ipld dir) ["f"]) 5, Some dir, repo') ∧
  ∀ get_block, (∀ c b, (c, b) ∈ blocks → get_block c = Ok (c, b)) →
    resolve DirWitness.no_decode get_block None 2 1 (Path.mk (Path.Ipld dir) ["f"]) true =
    Done (Ok (RBlock (root, data), [])).
Proof.
  destruct (add_wrapped_resolves (IoError := unit) accept_block store_block never_pinned no_pin (λ r, r)
    ltac:(reflexivity) ltac:(intros; split; reflexivity) DirWitness.no_decode true 4 true None demo_content "f" [])
    as (sts & dir & blocks & root & data & t & repo' & H & _ & _ & _ & _ & Hr).
  - split; [lia|vm_compute; discriminate].
  - vm_compute. discriminate.
  - vm_compute. discriminate.
  - split; [discriminate|]. split; [discriminate|exact I].
  - reflexivity.
  - vm_compute. discriminate.
  - exists sts, dir, blocks, root, data, repo'. split; [exact H|]. intros get_block Hg. exact (Hr get_block 2%nat 1%nat Hg ltac:(lia)).
Defined.
End UnixFsWrapWitness.
