(* ===== verification/HamtProofs.v ===== *)
(** * Sharded directories

    A directory in shards as a tree, and the lookup of a name in it, which goes
    through the buckets in the order they were found. *)
From stdpp Require Import base gmap list strings.
From Stdlib Require Import Strings.Byte.
From S2P Require Import Prelude Protobuf UnixFsPb PbInstance FileReader Path DirBuilder DirIter UnixFsDir DagResolve DirClaims.
Local Open Scope Z_scope.

Module Hamt.
Import Path DagResolve Merkledag UnixFsData Flat UnixFsDir.
Section hamt.
  Context `{cl : CidLayout} {Error : Type}.

(** ** Shards *)
Inductive shard : Type := Shard (items : list item)
with item : Type :=
  | Value (prefix name : string) (c : Cid) (tsize : option Z)
  | Bucket (prefix : string) (c : Cid) (tsize : option Z) (s : shard).
Definition items (s : shard) : list item := let 'Shard l := s in l.

Definition item_link (i : item) : PBLink :=
  match i with
  | Value p n c t => mkPBLink (Some (cid_to_bytes c)) (Some (p +:+ n)) t
  | Bucket p c t _ => mkPBLink (Some (cid_to_bytes c)) (Some p) t
  end.

(** Two bytes in front of a name that starts with a whole character. *)
Definition two_bytes (p : string) : Prop := String.length p = 2%nat.
Definition name_ok (n : string) : Prop :=
  match n with EmptyString => False | String a _ => ¬ 128 ≤ Z.of_nat (Ascii.nat_of_ascii a) < 192 end.
Definition item_ok (i : item) : Prop :=
  match i with Value p n _ _ => two_bytes p ∧ name_ok n | Bucket p _ _ _ => two_bytes p end.

(** The values and the buckets of one shard. *)
Definition own (needle : string) (l : list item) : list Cid :=
  omap (λ i, match i with Value _ n c _ => if bool_decide (n = needle) then Some c else None | _ => None end) l.
Definition buckets (l : list item) : list (Cid * shard) :=
  omap (λ i, match i with Bucket _ c _ s => Some (c, s) | _ => None end) l.

(** All the values under a name, and the number of shards. *)
Fixpoint matches (needle : string) (s : shard) : list Cid :=
  match s with
  | Shard l => own needle l ++
      (fix go (l : list item) : list Cid :=
         match l with
         | [] => []
         | Value _ _ _ _ :: l => go l
         | Bucket _ _ _ s :: l => matches needle s ++ go l
         end) l
  end.
Fixpoint shards (s : shard) : nat :=
  match s with
  | Shard l => S ((fix go (l : list item) : nat :=
         match l with
         | [] => 0
         | Value _ _ _ _ :: l => go l
         | Bucket _ _ _ s :: l => shards s + go l
         end) l)%nat
  end.
Definition total_shards (q : list (Cid * shard)) : nat := sum_list_with (λ cs, shards cs.2) q.
Definition all_matches (needle : string) (q : list (Cid * shard)) : list Cid := q ≫= λ cs, matches needle cs.2.

Lemma matches_eq needle s : matches needle s = own needle (items s) ++ all_matches needle (buckets (items s)).
Proof.
  destruct s as [l]. cbn [matches items]. f_equal. unfold all_matches, buckets.
  induction l as [|[p n c t|p c t s] l IH]; simpl; [done|done|by rewrite IH].
Qed.
Lemma shards_eq s : shards s = S (total_shards (buckets (items s))).
Proof.
  destruct s as [l]. cbn [shards items]. f_equal. unfold total_shards, buckets.
  induction l as [|[p n c t|p c t s] l IH]; simpl; [done|done|by rewrite IH].
Qed.

(** ** Partitioning the links of a shard *)
Lemma str_bytes_length s : length (str_bytes s) = String.length s.
Proof. induction s; simpl; auto. Qed.
Lemma app_length_string (x y : string) : String.length (x +:+ y) = (String.length x + String.length y)%nat.
Proof. induction x as [|a x IH]; [done|]. simpl. f_equal. exact IH. Qed.

Lemma value_name p n : two_bytes p → name_ok n →
  2 < vec_len (str_bytes (p +:+ n)) ∧ without_prefix (p +:+ n) = Done n.
Proof.
  intros Hp Hn. split.
  - unfold vec_len. rewrite str_bytes_length, app_length_string, Hp. destruct n; [done|]. simpl. lia.
  - destruct p as [|a [|b [|? ?]]]; try done. destruct n as [|c n]; [done|]. simpl in *.
    change (String.append (String a (String b "")) (String c n)) with (String a (String b (String c n))).
    cbn [without_prefix]. by rewrite bool_decide_eq_false_2.
Qed.

Lemma own_value needle p n c t l :
  own needle (Value p n c t :: l) = if bool_decide (n = needle) then c :: own needle l else own needle l.
Proof. unfold own. cbn [omap list_omap]. by case_bool_decide. Qed.

Lemma partition_items needle l : Forall item_ok l → ∀ i found work, (length (own needle l) ≤ match found with Some _ => 0 | None => 1 end)%nat →
  partition i (item_link <$> l) needle found work =
    Done (Ok (match found with Some (_, c) => Some c | None => head (own needle l) end, work ++ (buckets l).*1)).
Proof.
  induction 1 as [|it l Hi _ IH]; intros i found work Hown.
  { rewrite app_nil_r. by destruct found as [[]|]. }
  rewrite fmap_cons. cbn [partition]. destruct it as [p n c t|p c t s]; cbn [item_link link_name Name default from_option id].
  - destruct Hi as [Hp Hn]. destruct (value_name p n Hp Hn) as [Hlen Hw].
    rewrite (bool_decide_eq_true_2 (2 < _)) by done. rewrite Hw. cbn [mbind outcome_bind mret outcome_ret].
    rewrite own_value in *. destruct (decide (n = needle)) as [->|Hne].
    + rewrite (bool_decide_eq_true_2 (needle = needle)) in * by done. destruct found as [f|]; [simpl in Hown; lia|].
      unfold try_convert_cid. cbn [Hash default from_option id]. rewrite cid_try_from_to_bytes. cbn [map_err].
      rewrite IH; [done|]. simpl in Hown. lia.
    + rewrite (bool_decide_eq_false_2 (n = needle)) in * by done.
      rewrite (bool_decide_eq_false_2 (_ = 2)) by lia. by rewrite IH.
  - assert (vec_len (str_bytes p) = 2) as Hl by (unfold vec_len; rewrite str_bytes_length; unfold item_ok, two_bytes in Hi; lia).
    rewrite Hl. rewrite (bool_decide_eq_false_2 (2 < 2)) by lia. cbn [mbind outcome_bind].
    rewrite (bool_decide_eq_true_2 (2 = 2)) by done.
    unfold try_convert_cid. cbn [Hash default from_option id]. rewrite cid_try_from_to_bytes. cbn [map_err].
    rewrite IH by done. unfold buckets. cbn [omap list_omap fmap list_fmap]. by rewrite <-app_assoc.
Qed.

(** ** Shards in a repository *)
Definition shard_block (b : list byte) (l : list item) : Prop := ∃ f, FlatUnixFs_try_from b = Done (Ok f) ∧
  links f = item_link <$> l ∧ Forall item_ok l ∧
  Type_ (data f) = HAMTShard ∧ fanout (data f) = Some 256 ∧ hashType (data f) = Some 34 ∧
  filesize (data f) = None ∧ blocksizes (data f) = [].

Context (decode : Cid → list byte → result (Ipld (ids := ids)) Error).
Context (get_block : Cid → result (Block (ids := ids)) Error).

Inductive stored : Cid * shard → Prop :=
  | stored_intro c b l : get_block c = Ok (c, b) → shard_block b l → Forall stored (buckets l) → stored (c, Shard l).

Lemma check_supported_ok b l : shard_block b l → ∃ f, FlatUnixFs_try_from b = Done (Ok f) ∧ Type_ (data f) = HAMTShard ∧
  check_supported f = Done (Ok tt) ∧ links f = item_link <$> l ∧ Forall item_ok l.
Proof.
  intros (f & Hf & Hl & Hi & Ht & Hfan & Hh & Hs & Hb). exists f. split_and!; try done.
  unfold check_supported. rewrite Ht, Hfan, Hh, Hs, Hb. reflexivity.
Qed.

Lemma shard_continue c rest needle b l cache : shard_block b l → (length (own needle l) ≤ 1)%nat →
  continue_walk (mkLookup (c :: rest) needle) b cache =
    Done (let '(m, cache) := after_partition needle (head (own needle l), rest ++ (buckets l).*1) cache in (Ok m, cache)).
Proof.
  intros Hb Hown. destruct (check_supported_ok b l Hb) as (f & Hf & Ht & Hc & Hl & Hi).
  unfold continue_walk. cbn [sl_links sl_needle]. rewrite Hf. cbn [mbind outcome_bind].
  rewrite bool_decide_eq_true_2 by done. rewrite Hc. cbn [mbind outcome_bind]. rewrite Hl.
  rewrite partition_items by done. done.
Qed.

Lemma perm_head {A} (l k : list A) : l ≡ₚ k → (length l ≤ 1)%nat → head l = head k.
Proof.
  intros Hp Hl. destruct l as [|x [|y l]]; [by apply Permutation_nil in Hp as ->| |simpl in Hl; lia].
  apply Permutation_singleton_l in Hp. by subst.
Qed.
Lemma all_matches_app needle q r : all_matches needle (q ++ r) = all_matches needle q ++ all_matches needle r.
Proof. unfold all_matches. apply bind_app. Qed.
Lemma total_shards_app q r : total_shards (q ++ r) = (total_shards q + total_shards r)%nat.
Proof. unfold total_shards. apply sum_list_with_app. Qed.

(** The queue of buckets: every shard below it is visited unless the name is
    found before. *)
Lemma walk_queue needle fuel : ∀ q cache, q ≠ [] → Forall stored q → (total_shards q ≤ fuel)%nat →
  (length (all_matches needle q) ≤ 1)%nat →
  ∃ cache', resolve_hamt get_block fuel (mkLookup q.*1 needle) cache =
    Done (match head (all_matches needle q) with Some c => Ok c | None => Err KeyNotFound end, cache').
Proof.
  induction fuel as [|fuel IH]; intros q cache Hne Hq Hn Hm; (destruct q as [|[c s] q]; [done|]).
  { unfold total_shards in Hn. cbn [sum_list_with snd] in Hn. rewrite shards_eq in Hn. lia. }
  apply Forall_cons in Hq as [Hs Hq]. inversion Hs as [c' b l Hget Hb Hbs Eq]. subst c' s.
  change (all_matches needle ((c, Shard l) :: q)) with (matches needle (Shard l) ++ all_matches needle q) in *.
  rewrite matches_eq in *. cbn [items] in *. rewrite <-app_assoc in *.
  assert (total_shards ((c, Shard l) :: q) = S (total_shards (q ++ buckets l))) as Htot.
  { rewrite total_shards_app. unfold total_shards at 1. cbn [sum_list_with snd]. rewrite shards_eq. cbn [items].
    unfold total_shards. lia. }
  rewrite !length_app in Hm. cbn [resolve_hamt]. unfold pending_links. cbn [sl_links fmap list_fmap fst mbind outcome_bind mret outcome_ret].
  rewrite Hget. change (list_fmap _ _ fst q) with q.*1. rewrite (shard_continue c q.*1 needle b l) by (done || lia).
  rewrite <-fmap_app. cbn [mbind outcome_bind].
  destruct (own needle l) as [|x o] eqn:Eo; cbn [head app].
  - destruct (q ++ buckets l) as [|y r] eqn:Er.
    + apply app_eq_nil in Er as [-> ->]. by eexists.
    + cbn [after_partition fmap list_fmap].
      destruct (IH (y :: r) cache) as (cache' & Hrun); [done|rewrite <-Er; by apply Forall_app|lia| |].
      { rewrite <-Er, all_matches_app, length_app. simpl in Hm. lia. }
      change (list_fmap _ _ fst r) with r.*1. rewrite fmap_cons in Hrun. rewrite Hrun. exists cache'. f_equal. f_equal.
      rewrite (perm_head _ (all_matches needle (buckets l) ++ all_matches needle q)); [done| |].
      * rewrite <-Er, all_matches_app. apply Permutation_app_comm.
      * rewrite <-Er, all_matches_app, length_app. simpl in Hm. lia.
  - cbn [after_partition]. destruct (q ++ buckets l).*1; by eexists.
Qed.

(** ** A path that goes through a sharded directory *)
Lemma resolve_shard c l b needle rest fuel hf follow total (cache : option Cache) :
  get_block c = Ok (c, b) → shard_block b l → Forall stored (buckets l) → cid_codec c = 112 →
  (total_shards (buckets l) ≤ hf)%nat → (length (matches needle (Shard l)) ≤ 1)%nat → default [] cache = [] →
  ∃ cache', resolve_from decode get_block (S fuel) hf c (needle :: rest) follow total cache =
    match head (matches needle (Shard l)) with
    | Some dest =>
        let total := (total + length (own needle l))%nat in
        if follow then resolve_from decode get_block fuel hf dest rest true total cache'
        else Done (Ok (RLink c dest, total))
    | None =>
        if bool_decide (buckets l = []) then
          if bool_decide (needle = "Data") && bool_decide (rest = []) then
            r ← DagPb.wrap_node_data b;
            match r with Ok wrapped => Done (Ok (DagPbData c wrapped, total)) | Err _ => Panic end
          else Done (Err (DagResolve.NotFound c total))
        else Done (Err (UnsupportedDocument c KeyNotFound))
    end.
Proof.
  intros Hget Hb Hbs Hcodec Hhf Hm Hcache. destruct (check_supported_ok b l Hb) as (f & Hf & Ht & Hc & Hl & Hi).
  rewrite matches_eq in *. cbn [items] in *. rewrite length_app in Hm. cbn [resolve_from]. rewrite Hget. unfold resolve_local. cbn [fst snd].
  rewrite bool_decide_eq_true_2 by done. unfold resolve_local_dagpb, UnixFsDir.resolve. rewrite Hf. cbn [mbind outcome_bind].
  rewrite Ht. unfold lookup_or_start. rewrite Hc. cbn [mbind outcome_bind]. rewrite Hl, Hcache.
  rewrite (partition_items needle l Hi) by lia. cbn [mbind outcome_bind]. rewrite app_nil_l.
  destruct (own needle l) as [|x o] eqn:Eo; cbn [head app].
  - destruct (buckets l) as [|y r] eqn:Er; cbn [after_partition fmap list_fmap].
    + rewrite (bool_decide_eq_true_2 (@nil (Cid * shard) = [])) by done. cbn [mbind outcome_bind mret outcome_ret map_err fst snd].
      exists None. destruct (bool_decide (needle = "Data") && bool_decide (rest = [])); [|done].
      destruct (DagPb.wrap_node_data b) as [[w|e]| |]; reflexivity.
    + rewrite (bool_decide_eq_false_2 (y :: r = [])) by done. cbn [mbind outcome_bind mret outcome_ret map_err fst snd].
      destruct (walk_queue needle hf (y :: r) None) as (cache' & Hrun); [done|done|done|cbn [length Nat.add] in Hm; exact Hm|].
      rewrite fmap_cons in Hrun. change (list_fmap _ _ fst r) with r.*1. rewrite Hrun. cbn [mbind outcome_bind].
      exists cache'. destruct (head (all_matches needle (y :: r))) as [dest|]; [|done].
      cbn [length]. by destruct follow.
  - assert (o = []) as -> by (destruct o; [done|simpl in Hm; lia]). cbn [length after_partition].
    exists (Some (Cache_from (buckets l).*1)). destruct (buckets l).*1; cbn; by destruct follow.
Qed.
End hamt.
End Hamt.

Module HamtClaims.
Import Path DagResolve Hamt.
Section claims.
  Context `{cl : CidLayout} {Error : Type}.
  Context (decode : Cid → list byte → result (Ipld (ids := ids)) Error).
  Context (get_block : Cid → result (Block (ids := ids)) Error).

(** C27: a name that exactly one link of a sharded directory matches is resolved through
    as many buckets as it takes, and with a fuel of one per shard the search ends.  But
    the path that is left over is empty only when the name was in the first shard, and
    a name (other than [Data]) that no link matches is an unsupported document when the
    directory has buckets, and not found when it has none. *)
Theorem hamt_resolves c l needle fuel hamt_fuel : stored get_block (c, Shard l) → cid_codec c = 112%Z →
  (total_shards (buckets l) ≤ hamt_fuel)%nat → (2 ≤ fuel)%nat →
  (∀ dest data, matches needle (Shard l) = [dest] → get_block dest = Ok (dest, data) →
     resolve decode get_block None fuel hamt_fuel (Path.mk (Path.Ipld c) [needle]) true =
       Done (Ok (RBlock (dest, data), if bool_decide (own needle l = []) then [needle] else []))) ∧
  (matches needle (Shard l) = [] → needle ≠ "Data" →
     resolve decode get_block None fuel hamt_fuel (Path.mk (Path.Ipld c) [needle]) true =
       Done (Err (if bool_decide (buckets l = []) then RNotFound c [needle] else RUnsupportedDocument c KeyNotFound))).
Proof.
  intros Hs Hc Hhf Hfuel. inversion Hs as [c' b l' Hget Hb Hbs]. subst c' l'. destruct fuel as [|[|fuel]]; [lia|lia|].
  unfold resolve, resolve0. cbn [resolve_root root_cid Path.root Path.path result_bind]. split.
  - intros dest data Hm Hd. destruct (resolve_shard decode get_block c l b needle [] (S fuel) hamt_fuel true 0 None)
      as (cache & ->); try done; [by rewrite Hm|]. rewrite Hm. cbn [head resolve_from]. rewrite Hd.
    cbn [resolve_local mbind outcome_bind mret outcome_ret]. unfold into_shifted. cbn [Path.path length Nat.add].
    rewrite matches_eq in Hm. cbn [items] in Hm. destruct (own needle l) as [|x o]; [done|].
    injection Hm as _ Hm. apply app_eq_nil in Hm as [-> _]. done.
  - intros Hm Hn. destruct (resolve_shard decode get_block c l b needle [] (S fuel) hamt_fuel true 0 None)
      as (cache & ->); try done; [by rewrite Hm; simpl; lia|]. rewrite Hm. cbn [head].
    case_bool_decide; [|done]. by rewrite bool_decide_eq_false_2.
Qed.
End claims.
End HamtClaims.

(** ** A directory of two shards *)
Module HamtWitness.
Import Path DagResolve Merkledag UnixFsData Flat Hamt HamtClaims.
#[local] Existing Instance bytes_ids.
#[local] Existing Instance bytes_cids.
#[local] Existing Instance WireFormat.wire_format.
#[local] Existing Instance DirWitness.toy_layout.
#[local] Existing Instance DirWitness.opt_range_decision.

Definition file_cid : Cid := [x01].
Definition bucket_items : list item := [Value "0A" "name" file_cid (Some 3)].
Definition shard_node (l : list item) : FlatUnixFs :=
  mkFlat (item_link <$> l) (mkUnixFs HAMTShard None None [] (Some 34) (Some 256) None None).
Definition shard_bytes (l : list item) : list byte := FlatUnixFs_write (shard_node l).
Definition bucket_cid : Cid := [x02].
Definition root_items : list item := [Value "07" "x" file_cid None; Bucket "0A" bucket_cid (Some 9) (Shard bucket_items)].
Definition hamt_cid : Cid := [x03].
Definition hamt_repo (c : Cid) : result (Cid * list byte) unit :=
  if decide (c = file_cid) then Ok (file_cid, [x09])
  else if decide (c = bucket_cid) then Ok (bucket_cid, shard_bytes bucket_items)
  else if decide (c = hamt_cid) then Ok (hamt_cid, shard_bytes root_items)
  else Err tt.
Definition no_decoder (c : Cid) (b : list byte) : result Ipld unit := Err tt.

#[local] Instance links_range_decision l : Decision (Forall PBLink_range l).
Proof. unfold PBLink_range, PBLink_fields_range, str_range. apply _. Defined.
Lemma shard_bytes_ok l : bool_decide (Forall PBLink_range (item_link <$> l)) = true → Forall item_ok l → shard_block (shard_bytes l) l.
Proof.
  intros Hr%bool_decide_eq_true Hi. exists (shard_node l). split; [|split; [reflexivity|]; split; [exact Hi|]; repeat split].
  apply FlatUnixFs_read_write. split; [exact Hr|]. split.
  - unfold UnixFs_range, UnixTime_range, u64_range. cbn. repeat split; try lia. constructor.
  - vm_compute. reflexivity.
Defined.

Lemma hamt_items_ok : Forall item_ok bucket_items ∧ Forall item_ok root_items.
Proof.
  split; repeat (apply Forall_cons; split); try apply Forall_nil; try exact I; try reflexivity;
    (split; [reflexivity|]; intros [_ H]; vm_compute in H; discriminate) || (split; [reflexivity|]; intros [H _]; vm_compute in H; by apply H).
Defined.
Lemma hamt_stored : stored hamt_repo (hamt_cid, Shard root_items).
Proof.
  destruct hamt_items_ok as [H1 H2].
  apply (stored_intro _ _ (shard_bytes root_items)); [reflexivity|apply shard_bytes_ok; [vm_compute; reflexivity|exact H2]|].
  apply Forall_cons. split; [|apply Forall_nil; exact I].
  apply (stored_intro _ _ (shard_bytes bucket_items)); [reflexivity|apply shard_bytes_ok; [vm_compute; reflexivity|exact H1]|].
  apply Forall_nil. exact I.
Defined.

(** The name in the bucket is found, but it is left over as a path. *)
Lemma hamt_resolves_witness :
  resolve no_decoder hamt_repo None 2 1 (Path.mk (Path.Ipld hamt_cid) ["name"]) true =
    Done (Ok (RBlock (file_cid, [x09]), ["name"])) ∧
  resolve no_decoder hamt_repo None 2 1 (Path.mk (Path.Ipld hamt_cid) ["other"]) true =
    Done (Err (RUnsupportedDocument hamt_cid KeyNotFound)).
Proof.
  split.
  - destruct (hamt_resolves no_decoder hamt_repo hamt_cid root_items "name" 2 1 hamt_stored) as [H _];
      [reflexivity|simpl; lia|lia|]. apply (H file_cid [x09]); reflexivity.
  - destruct (hamt_resolves no_decoder hamt_repo hamt_cid root_items "other" 2 1 hamt_stored) as [_ H];
      [reflexivity|simpl; lia|lia|]. apply H; [reflexivity|discriminate].
Defined.

(** A link whose name has a character across its second byte. *)
Definition split_character : string := str_of_bytes [x30; xc3; xa9; x61].
Example split_character_panics : is_utf8 (str_bytes split_character) = true ∧
  UnixFsDir.partition 0 [mkPBLink (Some file_cid) (Some split_character) None] "a" None [] = Panic.
Proof. split; reflexivity. Qed.
End HamtWitness.
