(* ===== verification/PinStore.v ===== *)
(** * Pins

    src/repo/datastore/memory.rs: the documents that say why a block is kept, as
    the in-memory data store holds them, and the kinds of pins of src/repo/mod.rs. *)
From stdpp Require Import base gmap list strings.
From Stdlib Require Import Strings.Byte Sorting.Sorted.
From S2P Require Import Prelude Protobuf Path DirIter.

(** ** BTreeSet<String> *)
Module StringSet.
Implicit Types l : list string.

Definition before (a b : string) : Prop := String.compare a b = Lt.
Fixpoint insert (x : string) l : list string :=
  match l with
  | [] => [x]
  | y :: l' => match String.compare x y with
               | Lt => x :: l
               | Eq => l
               | Gt => y :: insert x l'
               end
  end.
Definition remove (x : string) l : list string := filter (λ y, y ≠ x) l.
(** [collect::<BTreeSet<_>>()]. *)
Definition from_list l : list string := foldr insert [] l.

Lemma compare_refl x : String.compare x x = Eq.
Proof. pose proof (String.compare_antisym x x). by destruct (String.compare x x). Qed.
Lemma ascii_compare_refl a : Ascii.compare a a = Eq.
Proof. unfold Ascii.compare. apply N.compare_refl. Qed.

Lemma ascii_compare_lt a b : Ascii.compare a b = Lt ↔ (Ascii.N_of_ascii a < Ascii.N_of_ascii b)%N.
Proof. apply N.compare_lt_iff. Qed.

Lemma before_cons a x b y :
  before (String a x) (String b y) ↔ (Ascii.N_of_ascii a < Ascii.N_of_ascii b)%N ∨ a = b ∧ before x y.
Proof.
  unfold before. simpl. rewrite <-ascii_compare_lt. destruct (Ascii.compare a b) eqn:E.
  - apply Ascii.compare_eq_iff in E as ->. naive_solver.
  - naive_solver.
  - split; [done|]. intros [?|[-> _]]; [done|]. by rewrite ascii_compare_refl in E.
Qed.

Lemma before_trans x y z : before x y → before y z → before x z.
Proof.
  revert y z. induction x as [|a x IH]; intros [|b y] [|c z]; try done.
  rewrite !before_cons. intros [?|[-> ?]] [?|[-> ?]]; [left; lia|by left|by left|right]. eauto.
Qed.
#[export] Instance before_transitive : Transitive before.
Proof. intros x y z. apply before_trans. Qed.
Lemma before_irrefl x : ¬ before x x.
Proof. unfold before. by rewrite compare_refl. Qed.

Definition sorted l : Prop := StronglySorted before l.

Lemma elem_of_insert x y l : y ∈ insert x l ↔ y = x ∨ y ∈ l.
Proof.
  induction l as [|z l IH]; simpl; [set_solver|]. destruct (String.compare x z) eqn:E.
  - apply String.compare_eq_iff in E as ->. set_solver.
  - set_solver.
  - rewrite !elem_of_cons, IH. set_solver.
Qed.
Lemma insert_sorted x l : sorted l → sorted (insert x l).
Proof.
  induction 1 as [|y l Hs IH Hf]; simpl; [repeat constructor|]. destruct (String.compare x y) eqn:E.
  - by constructor.
  - constructor; [by constructor|]. constructor; [done|]. eapply Forall_impl; [exact Hf|]. intros z. by apply before_trans.
  - constructor; [done|]. apply Forall_forall. intros z [->|Hz]%elem_of_insert.
    + unfold before. by rewrite String.compare_antisym, E.
    + by eapply Forall_forall in Hf.
Qed.
Lemma remove_sorted x l : sorted l → sorted (remove x l).
Proof.
  induction 1 as [|y l Hs IH Hf]; [constructor|]. unfold remove in *. rewrite filter_cons. case_decide; [|done].
  constructor; [done|]. apply Forall_forall. intros z [_ Hz]%list_elem_of_filter. by eapply Forall_forall in Hf.
Qed.
Lemma from_list_sorted l : sorted l → from_list l = l.
Proof.
  induction 1 as [|y l Hs IH Hf]; simpl; [done|]. rewrite IH. destruct l as [|z l]; [done|]. simpl.
  apply Forall_cons in Hf as [Hb _]. unfold before in Hb. by rewrite Hb.
Qed.
Lemma elem_of_remove x y l : y ∈ remove x l ↔ y ≠ x ∧ y ∈ l.
Proof. unfold remove. by rewrite list_elem_of_filter. Qed.
Lemma remove_insert x l : x ∉ l → remove x (insert x l) = l.
Proof.
  unfold remove. induction l as [|y l IH]; simpl; intros Hx; [by rewrite filter_cons_False by naive_solver|].
  apply not_elem_of_cons in Hx as [Hne Hx].
  assert (∀ k : list string, x ∉ k → filter (λ y, y ≠ x) k = k) as Hid.
  { clear. induction k as [|z k IH]; intros Hk; [done|]. apply not_elem_of_cons in Hk as [? ?].
    rewrite filter_cons_True by done. by rewrite IH. }
  destruct (String.compare x y) eqn:E.
  - by apply String.compare_eq_iff in E.
  - rewrite filter_cons_False by naive_solver. apply Hid. by apply not_elem_of_cons.
  - rewrite filter_cons_True by done. by rewrite IH.
Qed.
Lemma insert_same x l : x ∈ l → sorted l → insert x l = l.
Proof.
  intros Hx Hs. induction Hs as [|y l Hs IH Hf]; [by apply elem_of_nil in Hx|]. simpl.
  destruct (String.compare x y) eqn:E; [done| |].
  - apply elem_of_cons in Hx as [->|Hx]; [by rewrite compare_refl in E|].
    eapply Forall_forall in Hf; [|done]. unfold before in Hf. rewrite String.compare_antisym, E in Hf. done.
  - apply elem_of_cons in Hx as [->|Hx]; [by rewrite compare_refl in E|]. by rewrite IH.
Qed.
End StringSet.

Module PinDocument.
Section document.
  Context `{pc : PathCodec}.

(** ** Kinds of pins *)
Inductive PinMode := Indirect | Direct | Recursively.
#[export] Instance PinMode_eq_dec : EqDecision PinMode.
Proof. solve_decision. Defined.
Inductive PinKind :=
  | IndirectFrom (c : Cid)
  | DirectKind
  | RecursiveKind (count : Z)
  | RecursiveIntention.

(** [PinModeRequirement::matches] for a mode and for a kind. *)
Definition matches_mode (requirement : option PinMode) (m : PinMode) : bool :=
  match requirement with Some one => bool_decide (m = one) | None => true end.
Definition kind_mode (k : PinKind) : PinMode :=
  match k with IndirectFrom _ => Indirect | DirectKind => Direct | RecursiveKind _ | RecursiveIntention => Recursively end.
Definition matches_kind (requirement : option PinMode) (k : PinKind) : bool := matches_mode requirement (kind_mode k).

(** ** Documents *)
Inductive Recursive := Count (n : Z) | Intent | Not.
Definition is_set (r : Recursive) : bool := match r with Count _ | Intent => true | Not => false end.

Record PinDocument := mkDoc {
  version : Z;
  direct : bool;
  recursive : Recursive;
  cid_version_of : Z;
  indirect_by : list string;
}.
#[export] Instance PinDocument_inhabited : Inhabited PinDocument := populate (mkDoc 0 false Not 0 []).

Inductive PinUpdateError :=
  | UnexpectedNumberOfDescendants (other descendants : Z)
  | NotPinnedRecursive
  | AlreadyPinnedRecursive
  | CannotUnpinUnpinned
  | CannotUnpinDirectOnRecursivelyPinned.

Definition set_direct (b : bool) (d : PinDocument) : PinDocument :=
  mkDoc (version d) b (recursive d) (cid_version_of d) (indirect_by d).
Definition set_recursive (r : Recursive) (d : PinDocument) : PinDocument :=
  mkDoc (version d) (direct d) r (cid_version_of d) (indirect_by d).
Definition set_indirect (l : list string) (d : PinDocument) : PinDocument :=
  mkDoc (version d) (direct d) (recursive d) (cid_version_of d) l.

(** [Cid::version] and [Cid::new_v1(cid.codec(), cid.hash())]. *)
Context (version_of : Cid → CidVersion) (new_v1 : Cid → Cid).
Definition as_v1 (c : Cid) : Cid := match version_of c with V1 => c | V0 => new_v1 c end.

Definition update (add : bool) (kind : PinKind) (doc : PinDocument) : result (bool * PinDocument) PinUpdateError :=
  match kind with
  | IndirectFrom root =>
      let root := cid_to_string (as_v1 root) in
      if bool_decide (indirect_by doc = []) then
        if add then Ok (true, set_indirect [root] doc) else Ok (false, doc)
      else
        let set := StringSet.from_list (indirect_by doc) in
        if add then Ok (negb (bool_decide (root ∈ set)), set_indirect (StringSet.insert root set) doc)
        else Ok (bool_decide (root ∈ set), set_indirect (StringSet.remove root set) doc)
  | DirectKind =>
      if is_set (recursive doc) && negb (direct doc) && add then Err AlreadyPinnedRecursive
      else if negb add && negb (direct doc) then
        if negb (is_set (recursive doc)) then Err CannotUnpinUnpinned else Err CannotUnpinDirectOnRecursivelyPinned
      else Ok (negb (Bool.eqb (direct doc) add), set_direct add doc)
  | RecursiveIntention =>
      if add then
        match recursive doc with
        | Count _ => Err AlreadyPinnedRecursive
        | Intent => Ok (false, doc)
        | Not => Ok (true, set_direct false (set_recursive Intent doc))
        end
      else
        match recursive doc with
        | Count _ | Intent => Ok (true, set_recursive Not doc)
        | Not => Ok (false, doc)
        end
  | RecursiveKind descendants =>
      if add then
        match recursive doc with
        | Count other =>
            if bool_decide (other = descendants) then Ok (false, doc)
            else Err (UnexpectedNumberOfDescendants other descendants)
        | Intent | Not => Ok (true, set_direct false (set_recursive (Count descendants) doc))
        end
      else
        match recursive doc with
        | Count other =>
            if bool_decide (other = descendants) then Ok (true, set_recursive Not doc)
            else Err (UnexpectedNumberOfDescendants other descendants)
        | Intent => Ok (true, set_recursive Not doc)
        | Not => Err NotPinnedRecursive
        end
  end.

Definition can_remove (d : PinDocument) : bool :=
  negb (direct d) && negb (is_set (recursive d)) && bool_decide (indirect_by d = []).

Definition mode (d : PinDocument) : option PinMode :=
  if is_set (recursive d) then Some Recursively
  else if negb (bool_decide (indirect_by d = [])) then Some Indirect
  else if direct d then Some Direct
  else None.

Definition pick_kind (d : PinDocument) : outcome (option (result PinKind TextError)) :=
  match mode d with
  | None => mret None
  | Some Recursively =>
      match recursive d with
      | Intent => mret (Some (Ok RecursiveIntention))
      | Count total => mret (Some (Ok (RecursiveKind total)))
      | Not => Panic
      end
  | Some Indirect =>
      match indirect_by d with
      | s :: _ => mret (Some (match cid_from_str s with Ok c => Ok (IndirectFrom c) | Err e => Err e end))
      | [] => Panic
      end
  | Some Direct => mret (Some (Ok DirectKind))
  end.
End document.
End PinDocument.

(** ** The store

    Documents are kept as JSON under the bytes of their identifiers; [serde_json]
    is an interface. *)
Class PinCodec `{cl : CidLayout} {pc : PathCodec} := {
  JsonError : Type;
  doc_to_vec : PinDocument.PinDocument → list byte;
  doc_from_slice : list byte → result PinDocument.PinDocument JsonError;
  doc_from_to_vec d : doc_from_slice (doc_to_vec d) = Ok d;
  (** [Cid::new_v1(c.codec(), c.hash().to_owned())]. *)
  new_v1 : Cid → Cid;
  new_v1_version c : cid_version (new_v1 c) = V1;
}.

Module PinStore.
Import PinDocument.
Notation Pins := (gmap (list byte) (list byte)).
Section store.
  Context `{pk : PinCodec} {RefsError : Type}.

Inductive PinError :=
  | Json (e : JsonError)
  | Update (e : PinUpdateError)
  | InvalidCid (e : TextError)
  | BadKey (e : CidError)
  | Refs (e : RefsError)
  | NotPinned
  | NotPinnedOrIndirect
  | PinnedIndirectly (c : Cid)
  | NotPinnedAs (m : PinMode)
  | InvalidMode.

Definition new_doc (target : Cid) : PinDocument :=
  mkDoc 0 false Not (match cid_version target with V0 => 0 | V1 => 1 end) [].

(** [true] if the document was changed. *)
Definition insert_pin (target : Cid) (kind : PinKind) (g : Pins) : outcome (result bool PinError * Pins) :=
  let key := cid_to_bytes target in
  match g !! key with
  | Some raw =>
      match doc_from_slice raw with
      | Err e => mret (Err (Json e), g)
      | Ok doc =>
          match update cid_version new_v1 true kind doc with
          | Err e => mret (Err (Update e), g)
          | Ok (true, doc) => mret (Ok true, <[key := doc_to_vec doc]> g)
          | Ok (false, _) => mret (Ok false, g)
          end
      end
  | None =>
      match update cid_version new_v1 true kind (new_doc target) with
      | Err _ => Panic
      | Ok (_, doc) => mret (Ok true, <[key := doc_to_vec doc]> g)
      end
  end.

Definition remove_pin (target : Cid) (kind : PinKind) (g : Pins) : result bool PinError * Pins :=
  let key := cid_to_bytes target in
  match g !! key with
  | Some raw =>
      match doc_from_slice raw with
      | Err e => (Err (Json e), g)
      | Ok doc =>
          match update cid_version new_v1 false kind doc with
          | Err e => (Err (Update e), g)
          | Ok (false, _) => (Ok false, g)
          | Ok (true, doc) => (Ok true, if can_remove doc then delete key g else <[key := doc_to_vec doc]> g)
          end
      end
  | None => (Err NotPinned, g)
  end.

Definition is_pinned (block : Cid) (g : Pins) : bool := bool_decide (is_Some (g !! cid_to_bytes block)).

Definition insert_direct_pin (target : Cid) (g : Pins) : outcome (result unit PinError * Pins) :=
  r ← insert_pin target DirectKind g;
  mret (match r.1 with Ok _ => Ok tt | Err e => Err e end, r.2).
Definition remove_direct_pin (target : Cid) (g : Pins) : result unit PinError * Pins :=
  let r := remove_pin target DirectKind g in
  (match r.1 with Ok _ => Ok tt | Err e => Err e end, r.2).

(** A stream of references: what it yields, with the state [S] of its source at that
    moment, and the state at its end.  What is not pulled does not happen. *)
Context {S : Type}.
Notation References := (list (result Cid RefsError * S) * outcome S)%type.

(** The loops over the references; nothing is rolled back. *)
Fixpoint insert_indirect (root : Cid) (refs : list (result Cid RefsError * S)) (final : outcome S) (count : Z) (g : Pins) :
    outcome (result Z PinError * Pins * S) :=
  match refs with
  | [] => s ← final; mret (Ok count, g, s)
  | (Err e, s) :: _ => mret (Err (Refs e), g, s)
  | (Ok next, s) :: refs =>
      r ← insert_pin next (IndirectFrom root) g;
      match r with
      | (Err e, g) => mret (Err e, g, s)
      | (Ok _, g) => count ← checked i32_min i32_max (count + 1); insert_indirect root refs final count g
      end
  end.
Fixpoint remove_indirect (root : Cid) (refs : list (result Cid RefsError * S)) (final : outcome S) (g : Pins) :
    outcome (result unit PinError * Pins * S) :=
  match refs with
  | [] => s ← final; mret (Ok tt, g, s)
  | (Err e, s) :: _ => mret (Err (Refs e), g, s)
  | (Ok next, s) :: refs =>
      match remove_pin next (IndirectFrom root) g with
      | (Err e, g) => mret (Err e, g, s)
      | (Ok _, g) => remove_indirect root refs final g
      end
  end.

Definition insert_recursive_pin (target : Cid) (refs : References) (s : S) (g : Pins) :
    outcome (result unit PinError * Pins * S) :=
  r ← insert_pin target RecursiveIntention g;
  match r with
  | (Err e, g) => mret (Err e, g, s)
  | (Ok _, g) =>
      r ← insert_indirect (as_v1 cid_version new_v1 target) refs.1 refs.2 0 g;
      match r with
      | (Err e, g, s) => mret (Err e, g, s)
      | (Ok count, g, s) =>
          r ← insert_pin target (RecursiveKind count) g;
          mret (match r.1 with Ok _ => Ok tt | Err e => Err e end, r.2, s)
      end
  end.

Definition remove_recursive_pin (target : Cid) (refs : References) (s : S) (g : Pins) :
    outcome (result unit PinError * Pins * S) :=
  match g !! cid_to_bytes target with
  | None => mret (Err NotPinnedOrIndirect, g, s)
  | Some raw =>
      match doc_from_slice raw with
      | Err e => mret (Err (Json e), g, s)
      | Ok doc =>
          k ← pick_kind doc;
          match k with
          | Some (Ok DirectKind) => mret (remove_direct_pin target g, s)
          | Some (Ok (IndirectFrom c)) => mret (Err (PinnedIndirectly c), g, s)
          | Some (Ok kind) =>
              match remove_pin target kind g with
              | (Err e, g) => mret (Err e, g, s)
              | (Ok _, g) => remove_indirect (as_v1 cid_version new_v1 target) refs.1 refs.2 g
              end
          | _ => mret (Err NotPinnedOrIndirect, g, s)
          end
      end
  end.

(** ** Listing *)
Context {ho : HashOrder}.
Definition list_entry (kv : list byte * list byte) : result (Cid * PinMode) PinError :=
  let? c := map_err BadKey (cid_try_from kv.1) in
  let? doc := map_err Json (doc_from_slice kv.2) in
  let? m := ok_or InvalidMode (mode doc) in
  Ok (c, m).
Definition list_pins (requirement : option PinMode) (g : Pins) : list (result (Cid * PinMode) PinError) :=
  filter (λ r, match r with Ok (_, m) => matches_mode requirement m | Err _ => true end = true) (list_entry <$> iter_map g).

Definition query_one (requirement : option PinMode) (g : Pins) (c : Cid) : outcome (result (Cid * PinKind) PinError) :=
  match g !! cid_to_bytes c with
  | Some raw =>
      match doc_from_slice raw with
      | Err e => mret (Err (Json e))
      | Ok doc =>
          k ← pick_kind doc;
          match k with
          | Some (Ok kind) =>
              if matches_kind requirement kind then mret (Ok (c, kind))
              else match requirement with Some m => mret (Err (NotPinnedAs m)) | None => Panic end
          | Some (Err e) => mret (Err (InvalidCid e))
          | None => mret (Err NotPinned)
          end
      end
  | None => mret (Err NotPinned)
  end.
(** [collect::<Result<Vec<_>, _>>()] stops at the first error. *)
Fixpoint query (cids : list Cid) (requirement : option PinMode) (g : Pins) : outcome (result (list (Cid * PinKind)) PinError) :=
  match cids with
  | [] => mret (Ok [])
  | c :: cids =>
      r ← query_one requirement g c;
      match r with
      | Err e => mret (Err e)
      | Ok x => r ← query cids requirement g; mret (match r with Ok l => Ok (x :: l) | Err e => Err e end)
      end
  end.
End store.
End PinStore.
