(* ===== verification/PinProofs.v ===== *)
(** * Pins: what the operations do

    The bytes of a pin store stand for one document per identifier ([pin_of]); the
    lemmas state the operations of PinStore.v on the documents. *)
From stdpp Require Import base gmap list strings.
From Stdlib Require Import Strings.Byte.
From S2P Require Import Prelude Protobuf Path DirIter PinStore.

Module PinProofs.
Import PinDocument PinStore.
Section pins.
  Context `{pk : PinCodec} {RefsError S : Type}.
  Implicit Types g : Pins.
  Implicit Types d : PinDocument.
  Notation as_v1 := (as_v1 cid_version new_v1).
  Notation update := (update cid_version new_v1).

Definition label (root : Cid) : string := cid_to_string (as_v1 root).

(** A document of a pinned block. *)
Definition doc_ok (c : Cid) d : Prop :=
  version d = 0%Z ∧ cid_version_of d = cid_version_of (new_doc c) ∧
  (is_set (recursive d) = true → direct d = false) ∧
  StringSet.sorted (indirect_by d) ∧ Forall (λ s, ∃ root, s = label root) (indirect_by d).
Definition entry_ok (k raw : list byte) : Prop :=
  ∃ c d, k = cid_to_bytes c ∧ raw = doc_to_vec d ∧ doc_ok c d ∧ can_remove d = false.
Definition pins_ok g : Prop := map_Forall entry_ok g.

Definition pin_of g (c : Cid) : PinDocument :=
  match g !! cid_to_bytes c with
  | Some raw => match doc_from_slice raw with Ok d => d | Err _ => new_doc c end
  | None => new_doc c
  end.
Definition set_pin (c : Cid) d g : Pins :=
  if can_remove d then delete (cid_to_bytes c) g else <[cid_to_bytes c := doc_to_vec d]> g.

(** ** Labels *)
#[export] Instance cid_to_bytes_inj : Inj (=) (=) cid_to_bytes.
Proof. intros c c' E. pose proof (cid_try_from_to_bytes c) as H. rewrite E, cid_try_from_to_bytes in H. by simplify_eq. Qed.
Lemma as_v1_idem c : as_v1 (as_v1 c) = as_v1 c.
Proof. unfold PinDocument.as_v1. destruct (cid_version c) eqn:E; [by rewrite new_v1_version|by rewrite E]. Qed.
Lemma label_as_v1 c : label (as_v1 c) = label c.
Proof. unfold label. by rewrite as_v1_idem. Qed.

(** ** Documents *)
Lemma new_doc_ok c : doc_ok c (new_doc c).
Proof. repeat split; try done; constructor. Qed.
Lemma new_doc_removable c : can_remove (new_doc c) = true.
Proof. done. Qed.
Lemma removable_new c d : doc_ok c d → can_remove d = true → d = new_doc c.
Proof.
  unfold can_remove. intros (Hv & Hc & _ & _ & _). rewrite !andb_true_iff, !negb_true_iff, bool_decide_eq_true.
  destruct d as [v di r cv l]; simpl in *. intros [[-> Hr] ->]. destruct r; [done|done|]. unfold new_doc. by rewrite Hv, Hc.
Qed.

Lemma update_indirect (add : bool) root d :
  StringSet.sorted (indirect_by d) →
  update add (IndirectFrom root) d =
    Ok (if add then negb (bool_decide (label root ∈ indirect_by d)) else bool_decide (label root ∈ indirect_by d),
        set_indirect ((if add then StringSet.insert else StringSet.remove) (label root) (indirect_by d)) d).
Proof.
  intros Hs. unfold PinDocument.update. fold (label root). case_bool_decide as El.
  - rewrite El, bool_decide_eq_false_2 by apply not_elem_of_nil. destruct add; [done|]. destruct d; simpl in *. by subst.
  - rewrite StringSet.from_list_sorted by done. by destruct add.
Qed.
Lemma insert_labels root l :
  Forall (λ s, ∃ root, s = label root) l → Forall (λ s, ∃ root, s = label root) (StringSet.insert (label root) l).
Proof.
  rewrite !Forall_forall. intros Hl x [->|Hx]%StringSet.elem_of_insert; [by eexists|by apply Hl].
Qed.
Lemma doc_update_ok (add : bool) kind c d b d' : doc_ok c d → update add kind d = Ok (b, d') → doc_ok c d'.
Proof.
  intros Hd Hu. pose proof Hd as (Hv & Hc & Hr & Hs & Hl). destruct kind as [root| |n|].
  - rewrite update_indirect in Hu by done. simplify_eq. split_and!; [done|done|done| |]; destruct add; simpl.
    + by apply StringSet.insert_sorted.
    + by apply StringSet.remove_sorted.
    + by apply insert_labels.
    + apply Forall_forall. intros x [_ Hx]%StringSet.elem_of_remove. by eapply Forall_forall in Hl.
  - destruct d as [v [] [] cv l], add; simpl in *; simplify_eq; split_and!; auto; naive_solver.
  - destruct d as [v [] [] cv l], add; simpl in *; repeat case_bool_decide; simplify_eq; split_and!; auto; naive_solver.
  - destruct d as [v [] [] cv l], add; simpl in *; simplify_eq; split_and!; auto; naive_solver.
Qed.
Lemma insert_not_nil x l : StringSet.insert x l ≠ [].
Proof. destruct l; simpl; [done|]. by destruct (String.compare _ _). Qed.
(** Adding a pin gives a document that is kept. *)
Lemma update_add_kept kind c d b d' : doc_ok c d → update true kind d = Ok (b, d') → can_remove d' = false.
Proof.
  intros (Hv & Hc & Hr & Hs & Hl) Hu. destruct kind as [root| |n|].
  - rewrite update_indirect in Hu by done. simplify_eq. unfold can_remove. simpl.
    rewrite bool_decide_eq_false_2 by apply insert_not_nil. by rewrite andb_false_r.
  - destruct d as [v [] [] cv l]; simpl in *; simplify_eq; done.
  - destruct d as [v [] [] cv l]; simpl in *; repeat case_bool_decide; simplify_eq; done.
  - destruct d as [v [] [] cv l]; simpl in *; simplify_eq; try done.
Qed.
Lemma remove_absent x l : x ∉ l → StringSet.remove x l = l.
Proof.
  unfold StringSet.remove. induction l as [|y l IH]; intros Hx; [done|]. apply not_elem_of_cons in Hx as [? ?].
  rewrite filter_cons_True by done. by rewrite IH.
Qed.
Lemma update_unchanged (add : bool) kind c d d' : doc_ok c d → update add kind d = Ok (false, d') → d' = d.
Proof.
  intros (Hv & Hc & Hr & Hs & Hl) Hu. destruct kind as [root| |n|].
  - rewrite update_indirect in Hu by done. destruct d as [v di r cv l]. simpl in *. destruct add.
    + injection Hu as Hb <-. rewrite negb_false_iff, bool_decide_eq_true in Hb. unfold set_indirect. simpl.
      by rewrite StringSet.insert_same.
    + injection Hu as Hb <-. rewrite bool_decide_eq_false in Hb. unfold set_indirect. simpl. by rewrite remove_absent.
  - destruct d as [v [] [] cv l], add; simpl in *; by simplify_eq.
  - destruct d as [v [] [] cv l], add; simpl in *; repeat case_bool_decide; by simplify_eq.
  - destruct d as [v [] [] cv l], add; simpl in *; by simplify_eq.
Qed.
(** The [unwrap] of a new document. *)
Lemma update_new kind c : ∃ d, update true kind (new_doc c) = Ok (true, d).
Proof. destruct kind; by eexists. Qed.

(** ** The store as documents *)
Lemma pins_ok_lookup g c raw :
  pins_ok g → g !! cid_to_bytes c = Some raw → raw = doc_to_vec (pin_of g c) ∧ doc_ok c (pin_of g c) ∧ can_remove (pin_of g c) = false.
Proof.
  intros Hg Hc. destruct (Hg _ _ Hc) as (c' & d & E & -> & Hd & Hr). apply (inj _) in E as <-.
  unfold pin_of. by rewrite Hc, doc_from_to_vec.
Qed.
Lemma pin_of_absent g c : g !! cid_to_bytes c = None → pin_of g c = new_doc c.
Proof. unfold pin_of. by intros ->. Qed.
Lemma pin_of_ok g c : pins_ok g → doc_ok c (pin_of g c).
Proof.
  intros Hg. destruct (g !! cid_to_bytes c) eqn:E; [by eapply pins_ok_lookup|]. rewrite pin_of_absent by done. apply new_doc_ok.
Qed.
Lemma pin_of_sorted g c : pins_ok g → StringSet.sorted (indirect_by (pin_of g c)).
Proof. intros Hg. by apply (pin_of_ok g c) in Hg as (_ & _ & _ & ? & _). Qed.
(** [is_pinned] is about the document. *)
Lemma is_pinned_spec g c : pins_ok g → is_pinned c g = negb (can_remove (pin_of g c)).
Proof.
  intros Hg. unfold is_pinned. destruct (g !! cid_to_bytes c) eqn:E.
  - destruct (pins_ok_lookup _ _ _ Hg E) as (_ & _ & ->). done.
  - by rewrite pin_of_absent.
Qed.
Lemma pin_of_set c d g c' : doc_ok c d → pin_of (set_pin c d g) c' = if decide (c' = c) then d else pin_of g c'.
Proof.
  intros Hd. unfold pin_of, set_pin. destruct (can_remove d) eqn:Hr.
  - apply (removable_new c) in Hr as ->; [|done]. case_decide as E.
    + subst. by rewrite lookup_delete_eq.
    + rewrite lookup_delete_ne; [done|]. by intros ?%(inj cid_to_bytes).
  - case_decide as E.
    + subst. by rewrite lookup_insert_eq, doc_from_to_vec.
    + rewrite lookup_insert_ne; [done|]. by intros ?%(inj cid_to_bytes).
Qed.
Lemma set_pin_ok c d g : pins_ok g → doc_ok c d → pins_ok (set_pin c d g).
Proof.
  intros Hg Hd. unfold set_pin. destruct (can_remove d) eqn:Hr; [by apply map_Forall_delete|].
  apply map_Forall_insert_2; [|done]. by exists c, d.
Qed.
(** Two stores that agree on the documents are the same. *)
Lemma pins_ext g g' : pins_ok g → pins_ok g' → (∀ c, pin_of g c = pin_of g' c) → g = g'.
Proof.
  intros Hg Hg' E. apply map_eq. intros k.
  assert (∀ h h' raw, pins_ok h → pins_ok h' → (∀ c, pin_of h c = pin_of h' c) → h !! k = Some raw → h' !! k = Some raw) as Hone.
  { intros h h' raw Hh Hh' Hext Hk. destruct (Hh _ _ Hk) as (c & _ & -> & _). destruct (pins_ok_lookup _ _ _ Hh Hk) as (-> & _ & Hr).
    destruct (h' !! cid_to_bytes c) as [raw'|] eqn:Hk'.
    - destruct (pins_ok_lookup _ _ _ Hh' Hk') as (-> & _ & _). by rewrite Hext.
    - apply pin_of_absent in Hk'. rewrite Hext, Hk' in Hr. done. }
  destruct (g !! k) as [raw|] eqn:H1; [symmetry; by eapply (Hone g)|].
  destruct (g' !! k) as [raw|] eqn:H2; [|done]. by rewrite (Hone g' g raw) in H1.
Qed.
Lemma set_pin_same c g : pins_ok g → set_pin c (pin_of g c) g = g.
Proof.
  intros Hg. assert (doc_ok c (pin_of g c)) by by apply pin_of_ok. apply pins_ext; [by apply set_pin_ok|done|].
  intros c'. rewrite pin_of_set by done. case_decide; by subst.
Qed.

(** ** Inserting and removing one pin *)
Lemma insert_pin_spec c kind g :
  pins_ok g →
  insert_pin (RefsError := RefsError) c kind g =
    Done (match update true kind (pin_of g c) with
          | Ok (b, d) => (Ok b, set_pin c d g)
          | Err e => (Err (Update e), g)
          end).
Proof.
  intros Hg. unfold insert_pin. destruct (g !! cid_to_bytes c) as [raw|] eqn:E.
  - destruct (pins_ok_lookup _ _ _ Hg E) as (-> & Hd & _). rewrite doc_from_to_vec.
    destruct (update true kind (pin_of g c)) as [[b d]|e] eqn:Hu; [|done].
    pose proof (update_add_kept _ _ _ _ _ Hd Hu) as Hk. destruct b.
    + unfold set_pin. by rewrite Hk.
    + apply update_unchanged with (c := c) in Hu as ->; [|done]. by rewrite set_pin_same.
  - rewrite pin_of_absent by done. destruct (update_new kind c) as [d Hd]. rewrite Hd.
    unfold set_pin. by rewrite (update_add_kept _ _ _ _ _ (new_doc_ok c) Hd).
Qed.
Lemma remove_pin_spec c kind g :
  pins_ok g → is_pinned c g = true →
  remove_pin (RefsError := RefsError) c kind g =
    match update false kind (pin_of g c) with
    | Ok (b, d) => (Ok b, set_pin c d g)
    | Err e => (Err (Update e), g)
    end.
Proof.
  intros Hg Hp. unfold is_pinned in Hp. apply bool_decide_eq_true in Hp as [raw E]. unfold remove_pin. rewrite E.
  destruct (pins_ok_lookup _ _ _ Hg E) as (-> & Hd & _). rewrite doc_from_to_vec.
  destruct (update false kind (pin_of g c)) as [[b d]|e] eqn:Hu; [|done]. destruct b; [done|].
  apply update_unchanged with (c := c) in Hu as ->; [|done]. by rewrite set_pin_same.
Qed.
Lemma remove_pin_absent c kind g :
  is_pinned c g = false → remove_pin (RefsError := RefsError) c kind g = (Err NotPinned, g).
Proof. unfold is_pinned, remove_pin. intros Hp. apply bool_decide_eq_false, eq_None_not_Some in Hp. by rewrite Hp. Qed.

Lemma insert_pin_ok c kind g : pins_ok g → ∃ r g', insert_pin (RefsError := RefsError) c kind g = Done (r, g') ∧ pins_ok g'.
Proof.
  intros Hg. rewrite insert_pin_spec by done. destruct (update true kind (pin_of g c)) as [[b d]|e] eqn:Hu.
  - eexists _, _. split; [done|]. apply set_pin_ok; [done|]. eapply doc_update_ok; [by apply pin_of_ok|done].
  - by eexists _, _.
Qed.
Lemma remove_pin_ok c kind g : pins_ok g → pins_ok (remove_pin (RefsError := RefsError) c kind g).2.
Proof.
  intros Hg. destruct (is_pinned c g) eqn:Hp; [|by rewrite remove_pin_absent].
  rewrite remove_pin_spec by done. destruct (update false kind (pin_of g c)) as [[b d]|e] eqn:Hu; [|done].
  apply set_pin_ok; [done|]. eapply doc_update_ok; [by apply pin_of_ok|done].
Qed.

(** ** Recursive pins *)
Definition add_label (root : Cid) d : PinDocument := set_indirect (StringSet.insert (label root) (indirect_by d)) d.
Definition drop_label (root : Cid) d : PinDocument := set_indirect (StringSet.remove (label root) (indirect_by d)) d.

Lemma add_label_ok root c d : doc_ok c d → doc_ok c (add_label root d).
Proof. intros Hd. eapply (doc_update_ok true (IndirectFrom root)); [done|]. destruct Hd as (_ & _ & _ & ? & _). by apply update_indirect. Qed.
Lemma drop_label_ok root c d : doc_ok c d → doc_ok c (drop_label root d).
Proof. intros Hd. eapply (doc_update_ok false (IndirectFrom root)); [done|]. destruct Hd as (_ & _ & _ & ? & _). by apply update_indirect. Qed.
Lemma add_label_idem root c d : doc_ok c d → add_label root (add_label root d) = add_label root d.
Proof.
  intros Hd. pose proof (add_label_ok root c d Hd) as (_ & _ & _ & Hs & _). unfold add_label in *. simpl in *. unfold set_indirect. simpl.
  rewrite (StringSet.insert_same _ (StringSet.insert _ _)); [done| |done]. apply StringSet.elem_of_insert. by left.
Qed.
Lemma drop_add_label root c d : doc_ok c d → label root ∉ indirect_by d → drop_label root (add_label root d) = d.
Proof.
  intros _ Hn. unfold drop_label, add_label. simpl. rewrite StringSet.remove_insert by done. by destruct d.
Qed.
Lemma labelled_kept root d : label root ∈ indirect_by d → can_remove d = false.
Proof.
  intros Hl. unfold can_remove. rewrite bool_decide_eq_false_2; [by rewrite andb_false_r|]. intros E. rewrite E in Hl. by apply elem_of_nil in Hl.
Qed.
Lemma add_label_elem root d : label root ∈ indirect_by (add_label root d).
Proof. apply StringSet.elem_of_insert. by left. Qed.

(** References that are there, in a source that stays the same. *)
Definition local_refs (s : S) (cs : list Cid) : list (result Cid RefsError * S) := (λ c, (Ok c, s)) <$> cs.

(** How a store that [f] transformed at some identifiers looks. *)
Definition changed (f : Cid → PinDocument → PinDocument) g g' : Prop := pins_ok g' ∧ ∀ c, pin_of g' c = f c (pin_of g c).

Lemma insert_indirect_spec root cs (s : S) count g :
  pins_ok g → (0 ≤ count)%Z → (count + vec_len cs ≤ i32_max)%Z →
  ∃ g', insert_indirect root (local_refs s cs) (Done s) count g = Done (Ok (count + vec_len cs)%Z, g', s) ∧
    changed (λ c d, if decide (c ∈ cs) then add_label root d else d) g g'.
Proof.
  unfold vec_len. revert count g. induction cs as [|c cs IH]; intros count g Hg H0 Hle.
  { exists g. simpl. rewrite Z.add_0_r. split; [done|]. split; [done|]. done. }
  unfold local_refs in *. cbn [fmap list_fmap insert_indirect]. rewrite insert_pin_spec by done.
  rewrite update_indirect by by apply pin_of_sorted. cbn [mbind outcome_bind length] in *.
  rewrite checked_ok by (unfold i32_min, i32_max in *; cbn [length] in *; lia). fold (add_label root (pin_of g c)).
  assert (doc_ok c (add_label root (pin_of g c))) as Hd by (by apply add_label_ok, pin_of_ok).
  destruct (IH (count + 1)%Z (set_pin c (add_label root (pin_of g c)) g)) as (g' & Hr & Hg' & Hc);
    [by apply set_pin_ok|lia|unfold i32_max in *; lia|].
  exists g'. cbn [mbind outcome_bind length]. rewrite Hr. split; [do 4 f_equal; lia|]. split; [done|].
  intros c'. rewrite Hc, pin_of_set by done. destruct (decide (c' = c)) as [->|Hne].
  - rewrite (decide_True (P := c ∈ c :: cs)) by apply list_elem_of_here. case_decide; [|done].
    apply add_label_idem with (c := c). by apply pin_of_ok.
  - destruct (decide (c' ∈ cs)); [rewrite decide_True by by right|rewrite decide_False by (by rewrite not_elem_of_cons)]; done.
Qed.

Lemma remove_indirect_spec root cs (s : S) g :
  pins_ok g → NoDup cs → (∀ c, c ∈ cs → label root ∈ indirect_by (pin_of g c)) →
  ∃ g', remove_indirect root (local_refs s cs) (Done s) g = Done (Ok tt, g', s) ∧
    changed (λ c d, if decide (c ∈ cs) then drop_label root d else d) g g'.
Proof.
  intros Hg Hnd. revert g Hg. induction Hnd as [|c cs Hin Hnd IH]; intros g Hg Hl.
  { exists g. split; [done|]. split; [done|]. done. }
  unfold local_refs in *. cbn [fmap list_fmap remove_indirect]. rewrite remove_pin_spec; [|done|].
  2:{ rewrite is_pinned_spec by done. rewrite (labelled_kept root); [done|]. set_solver. }
  rewrite update_indirect by by apply pin_of_sorted. fold (drop_label root (pin_of g c)).
  assert (doc_ok c (drop_label root (pin_of g c))) as Hd by by apply drop_label_ok, pin_of_ok.
  destruct (IH (set_pin c (drop_label root (pin_of g c)) g)) as (g' & Hr & Hg' & Hc); [by apply set_pin_ok| |].
  { intros c' Hc'. rewrite pin_of_set by done. rewrite decide_False by set_solver. set_solver. }
  exists g'. split; [done|]. split; [done|]. intros c'. rewrite Hc, pin_of_set by done.
  destruct (decide (c' = c)) as [->|Hne].
  - rewrite decide_False by done. by rewrite decide_True by apply list_elem_of_here.
  - destruct (decide (c' ∈ cs)); [rewrite decide_True by by right|rewrite decide_False by (by rewrite not_elem_of_cons)]; done.
Qed.

Definition recursively (n : Z) d : PinDocument := set_direct false (set_recursive (Count n) d).
Definition not_recursively d : PinDocument := set_direct false (set_recursive Not d).

Lemma recursively_ok n c d : doc_ok c d → doc_ok c (recursively n d).
Proof. intros (? & ? & ? & ? & ?). by split_and!. Qed.

(** The document of the root after its references. *)
Lemma insert_recursive_pin_spec target cs (s : S) g :
  pins_ok g → (∀ n, recursive (pin_of g target) ≠ Count n) → target ∉ cs → (vec_len cs ≤ i32_max)%Z →
  ∃ g', insert_recursive_pin target (local_refs s cs, Done s) s g = Done (Ok tt, g', s) ∧
    changed (λ c d, if decide (c = target) then recursively (vec_len cs) d
                    else if decide (c ∈ cs) then add_label target d else d) g g'.
Proof.
  intros Hg Hrec Hin Hlen. unfold insert_recursive_pin. rewrite insert_pin_spec by done. cbn [mbind outcome_bind].
  pose proof (pin_of_ok g target Hg) as Hok.
  assert (∃ b d, update true RecursiveIntention (pin_of g target) = Ok (b, d) ∧ doc_ok target d ∧
    (∀ n, recursive d ≠ Count n) ∧ ∀ n, recursively n d = recursively n (pin_of g target)) as (b & d & Hu & Hd & Hr & Hsame).
  { destruct (update true RecursiveIntention (pin_of g target)) as [[b d]|e] eqn:Hu.
    - exists b, d. split; [done|]. split; [by eapply doc_update_ok|]. destruct (pin_of g target) as [v di [n| |] cv l]; simpl in *; naive_solver.
    - exfalso. simpl in Hu. destruct (recursive (pin_of g target)) eqn:E; [by eapply Hrec|done|done]. }
  rewrite Hu. set (g1 := set_pin target d g). assert (pins_ok g1) as Hg1 by by apply set_pin_ok.
  destruct (insert_indirect_spec (as_v1 target) cs s 0 g1) as (g2 & Hi & Hg2 & Hc2); [done|lia|lia|].
  cbn [fst snd]. rewrite Hi. cbn [mbind outcome_bind]. rewrite insert_pin_spec by done. cbn [mbind outcome_bind].
  assert (pin_of g2 target = d) as Ht.
  { rewrite Hc2, decide_False by done. unfold g1. rewrite pin_of_set by done. by rewrite decide_True. }
  assert (update true (RecursiveKind (0 + vec_len cs)) d = Ok (true, recursively (vec_len cs) d)) as Hu2.
  { rewrite Z.add_0_l. simpl. destruct (recursive d) eqn:E; [by destruct (Hr n)|done|done]. }
  rewrite Ht, Hu2. eexists. split; [done|].
  assert (doc_ok target (recursively (vec_len cs) d)) by by apply recursively_ok.
  split; [by apply set_pin_ok|]. intros c. simpl. rewrite pin_of_set, Hc2 by done. case_decide as E; [subst; apply Hsame|].
  unfold g1. rewrite pin_of_set, (decide_False (P := c = target)) by done. unfold add_label. by rewrite label_as_v1.
Qed.

Lemma remove_recursive_pin_spec target cs (s : S) g n :
  pins_ok g → recursive (pin_of g target) = Count n → target ∉ cs → NoDup cs →
  (∀ c, c ∈ cs → label target ∈ indirect_by (pin_of g c)) →
  ∃ g', remove_recursive_pin target (local_refs s cs, Done s) s g = Done (Ok tt, g', s) ∧
    changed (λ c d, if decide (c = target) then not_recursively d
                    else if decide (c ∈ cs) then drop_label target d else d) g g'.
Proof.
  intros Hg Hrec Hin Hnd Hl. unfold remove_recursive_pin.
  assert (is_pinned target g = true) as Hp.
  { rewrite is_pinned_spec by done. unfold can_remove. rewrite Hrec. simpl. by rewrite andb_false_r. }
  pose proof Hp as [raw E]%bool_decide_eq_true. rewrite E.
  destruct (pins_ok_lookup _ _ _ Hg E) as (-> & Hok & _). rewrite doc_from_to_vec.
  unfold pick_kind, mode. rewrite Hrec. cbn [is_set mbind outcome_bind mret outcome_ret].
  rewrite remove_pin_spec by done.
  assert (update false (RecursiveKind n) (pin_of g target) = Ok (true, not_recursively (pin_of g target))) as Hu.
  { simpl. rewrite Hrec, bool_decide_eq_true_2 by done. destruct Hok as (_ & _ & Hdir & _). rewrite Hrec in Hdir.
    unfold not_recursively, set_direct, set_recursive. simpl. by rewrite Hdir. }
  rewrite Hu. assert (doc_ok target (not_recursively (pin_of g target))) as Hd by by eapply doc_update_ok.
  set (g1 := set_pin target _ g). destruct (remove_indirect_spec (as_v1 target) cs s g1) as (g2 & Hi & Hg2 & Hc2).
  - by apply set_pin_ok.
  - done.
  - intros c Hc. unfold g1. rewrite pin_of_set, decide_False by (done || set_solver). rewrite label_as_v1. by apply Hl.
  - cbn [fst snd]. rewrite Hi. eexists. split; [done|]. split; [done|]. intros c. rewrite Hc2. unfold g1. rewrite pin_of_set by done.
    destruct (decide (c = target)) as [->|E1]; [by rewrite decide_False|]. unfold drop_label. by rewrite label_as_v1.
Qed.

(** ** Every reachable store *)
Lemma insert_indirect_ok root refs final count g x g' (s : S) :
  pins_ok g → insert_indirect (RefsError := RefsError) root refs final count g = Done (x, g', s) → pins_ok g'.
Proof.
  revert count g. induction refs as [|[[c|e] s1] refs IH]; intros count g Hg; cbn [insert_indirect].
  - destruct final; [|done|done]. by intros [= _ <- _].
  - destruct (insert_pin_ok c (IndirectFrom root) g Hg) as ([b|e] & g1 & -> & Hg1); cbn [mbind outcome_bind].
    + destruct (checked _ _ _); [|done|done]. by apply IH.
    + by intros [= _ <- _].
  - by intros [= _ <- _].
Qed.
Lemma remove_indirect_ok root refs final g x g' (s : S) :
  pins_ok g → remove_indirect (RefsError := RefsError) root refs final g = Done (x, g', s) → pins_ok g'.
Proof.
  revert g. induction refs as [|[[c|e] s1] refs IH]; intros g Hg; cbn [remove_indirect].
  - destruct final; [|done|done]. by intros [= _ <- _].
  - pose proof (remove_pin_ok c (IndirectFrom root) g Hg) as Hg1.
    destruct (remove_pin c (IndirectFrom root) g) as [[b|e] g1]; [by apply IH|]. by intros [= _ <- _].
  - by intros [= _ <- _].
Qed.
Lemma insert_recursive_pin_ok target refs (s : S) g x g' s' :
  pins_ok g → insert_recursive_pin (RefsError := RefsError) target refs s g = Done (x, g', s') → pins_ok g'.
Proof.
  intros Hg. unfold insert_recursive_pin.
  destruct (insert_pin_ok target RecursiveIntention g Hg) as ([b|e] & g1 & -> & Hg1); cbn [mbind outcome_bind]; [|by intros [= _ <- _]].
  destruct (insert_indirect (as_v1 target) refs.1 refs.2 0 g1) as [[[[n|e] g2] s2]| |] eqn:Hi; cbn [mbind outcome_bind]; try done.
  - apply insert_indirect_ok in Hi; [|done].
    destruct (insert_pin_ok target (RecursiveKind n) g2 Hi) as (b2 & g3 & -> & Hg3). by intros [= _ <- _].
  - apply insert_indirect_ok in Hi; [|done]. by intros [= _ <- _].
Qed.
Lemma remove_direct_pin_ok target g : pins_ok g → pins_ok (remove_direct_pin (RefsError := RefsError) target g).2.
Proof. apply remove_pin_ok. Qed.
Lemma remove_recursive_pin_ok target refs (s : S) g x g' s' :
  pins_ok g → remove_recursive_pin (RefsError := RefsError) target refs s g = Done (x, g', s') → pins_ok g'.
Proof.
  intros Hg. unfold remove_recursive_pin. destruct (g !! cid_to_bytes target) as [raw|]; [|by intros [= _ <- _]].
  destruct (doc_from_slice raw) as [d|e]; [|by intros [= _ <- _]].
  destruct (pick_kind d) as [k| |]; cbn [mbind outcome_bind]; [|done|done].
  assert (∀ kind, (match remove_pin (RefsError := RefsError) target kind g with
    | (Err e, g) => mret (Err e, g, s)
    | (Ok _, g) => remove_indirect (as_v1 target) refs.1 refs.2 g
    end) = Done (x, g', s') → pins_ok g') as Hgo.
  { intros kind. pose proof (remove_pin_ok target kind g Hg) as Hg1.
    destruct (remove_pin target kind g) as [[b|e] g1]; [by apply remove_indirect_ok|]. by intros [= _ <- _]. }
  destruct k as [[[c| |n|]|e]|].
  - by intros [= _ <- _].
  - intros [= _ Hx _]. pose proof (remove_direct_pin_ok target g Hg) as Hd. by rewrite <-Hx.
  - apply (Hgo (RecursiveKind n)).
  - apply (Hgo RecursiveIntention).
  - by intros [= _ <- _].
  - by intros [= _ <- _].
Qed.

(** The operations of the trait [PinStore]. *)
Inductive pin_step : Pins → Pins → Prop :=
  | ps_insert_direct target g x g' : insert_direct_pin (RefsError := RefsError) target g = Done (x, g') → pin_step g g'
  | ps_remove_direct target g : pin_step g (remove_direct_pin (RefsError := RefsError) target g).2
  | ps_insert_recursive target refs (s : S) g x g' s' :
      insert_recursive_pin (RefsError := RefsError) target refs s g = Done (x, g', s') → pin_step g g'
  | ps_remove_recursive target refs (s : S) g x g' s' :
      remove_recursive_pin (RefsError := RefsError) target refs s g = Done (x, g', s') → pin_step g g'.

Lemma pin_step_ok g g' : pin_step g g' → pins_ok g → pins_ok g'.
Proof.
  destruct 1 as [target g x g' H|target g|target refs s g x g' s' H|target refs s g x g' s' H]; intros Hg.
  - unfold insert_direct_pin in H. destruct (insert_pin_ok target DirectKind g Hg) as (b & g1 & E & Hg1).
    rewrite E in H. injection H as _ <-. done.
  - by apply remove_direct_pin_ok.
  - by eapply insert_recursive_pin_ok.
  - by eapply remove_recursive_pin_ok.
Qed.
Lemma pin_steps_ok g : rtc pin_step ∅ g → pins_ok g.
Proof. intros H. assert (pins_ok ∅) as H0 by apply map_Forall_empty. induction H as [|x y z Hxy _ IH]; [done|]. by eapply IH, pin_step_ok. Qed.

(** ** Reading the store *)
Lemma kept_mode d : can_remove d = false → is_Some (mode d).
Proof.
  unfold can_remove, mode. destruct (is_set (recursive d)); [by eexists|]. case_bool_decide; simpl; [|by eexists].
  destruct (direct d); simpl; [by eexists|done].
Qed.
Lemma pick_kind_spec c d m :
  doc_ok c d → mode d = Some m → ∃ kind, pick_kind d = Done (Some (Ok kind)) ∧ kind_mode kind = m.
Proof.
  intros (_ & _ & _ & _ & Hl) Hm. unfold pick_kind. rewrite Hm. unfold mode in Hm. destruct m.
  - destruct (is_set (recursive d)); [done|]. case_bool_decide as E; [by destruct (direct d)|].
    destruct (indirect_by d) as [|x l]; [done|]. apply Forall_cons in Hl as [[root ->] _]. unfold label.
    rewrite cid_from_to_string. by eexists.
  - by eexists.
  - destruct (recursive d); [by eexists|by eexists|]. simpl in Hm. case_bool_decide; [by destruct (direct d)|done].
Qed.
Lemma query_one_spec g c :
  pins_ok g → is_pinned c g = true →
  ∃ kind, query_one (RefsError := RefsError) None g c = Done (Ok (c, kind)) ∧ mode (pin_of g c) = Some (kind_mode kind).
Proof.
  intros Hg Hp. pose proof Hp as [raw E]%bool_decide_eq_true. destruct (pins_ok_lookup _ _ _ Hg E) as (-> & Hd & Hk).
  destruct (kept_mode _ Hk) as [m Hm]. destruct (pick_kind_spec c _ _ Hd Hm) as (kind & Hpk & <-).
  exists kind. unfold query_one. rewrite E, doc_from_to_vec, Hpk. done.
Qed.

Context {ho : HashOrder}.
Lemma filter_all {A} (P : A → Prop) `{!∀ x, Decision (P x)} l : Forall P l → filter P l = l.
Proof. induction 1 as [|x l Hx _ IH]; [done|]. rewrite filter_cons_True by done. by rewrite IH. Qed.
Lemma list_entry_spec g k raw :
  pins_ok g → g !! k = Some raw →
  ∃ c m, k = cid_to_bytes c ∧ list_entry (RefsError := RefsError) (k, raw) = Ok (c, m) ∧ mode (pin_of g c) = Some m.
Proof.
  intros Hg Hk. destruct (Hg _ _ Hk) as (c & d & -> & -> & Hd & Hr). destruct (kept_mode _ Hr) as [m Hm].
  exists c, m. unfold list_entry. simpl. rewrite cid_try_from_to_bytes. simpl. rewrite doc_from_to_vec. simpl. rewrite Hm.
  split; [done|]. split; [done|]. unfold pin_of. by rewrite Hk, doc_from_to_vec.
Qed.
Lemma list_pins_spec g :
  pins_ok g → ∃ l, list_pins (RefsError := RefsError) None g = Ok <$> l ∧ NoDup l.*1 ∧
    ∀ c m, (c, m) ∈ l ↔ is_pinned c g = true ∧ mode (pin_of g c) = Some m.
Proof.
  intros Hg. assert (∀ kvs, (∀ kv, kv ∈ kvs → g !! kv.1 = Some kv.2) → NoDup kvs.*1 →
    ∃ l, list_entry (RefsError := RefsError) <$> kvs = Ok <$> l ∧ cid_to_bytes <$> l.*1 = kvs.*1 ∧
      Forall (λ cm, mode (pin_of g cm.1) = Some cm.2) l) as Hgen.
  { induction kvs as [|[k raw] kvs IH]; intros Hin Hnd; [by exists []|]. rewrite fmap_cons in Hnd. apply NoDup_cons in Hnd as [_ Hnd].
    destruct IH as (l & Hl & Hk & Hf); [intros kv Hkv; apply Hin; by right|done|].
    destruct (list_entry_spec g k raw Hg) as (c & m & -> & Hle & Hm); [apply (Hin (k, raw)); by left|].
    exists ((c, m) :: l). rewrite !fmap_cons, Hle, Hl, Hk. split_and!; [done|done|]. by constructor. }
  destruct (Hgen (iter_map g)) as (l & Hl & Hk & Hf); [intros [k v]; apply elem_of_iter_map|apply NoDup_iter_map_keys|].
  exists l. split_and!.
  - unfold list_pins. rewrite Hl. rewrite filter_all; [done|]. apply Forall_forall.
    intros x (y & -> & _)%list_elem_of_fmap. by destruct y.
  - eapply NoDup_fmap_1 with (f := cid_to_bytes). rewrite Hk. apply NoDup_iter_map_keys.
  - intros c m. unfold is_pinned. rewrite bool_decide_eq_true. split.
    + intros Hin. split; [|by eapply (proj1 (Forall_forall _ l) Hf (c, m))]. assert (cid_to_bytes c ∈ (iter_map g).*1) as Hc.
      { rewrite <-Hk. apply list_elem_of_fmap_2. apply list_elem_of_fmap. by exists (c, m). }
      apply list_elem_of_fmap in Hc as ([k v] & -> & Hc%elem_of_iter_map). by exists v.
    + intros [[raw Hc%elem_of_iter_map] Hm]. assert (cid_to_bytes c ∈ cid_to_bytes <$> l.*1) as Hin.
      { rewrite Hk. apply list_elem_of_fmap. by exists (cid_to_bytes c, raw). }
      apply list_elem_of_fmap in Hin as (c' & E%(inj cid_to_bytes) & Hin). subst c'.
      apply list_elem_of_fmap in Hin as ([c' m'] & -> & Hin). simpl in *. eapply Forall_forall in Hf as Hm'; [|exact Hin].
      simpl in Hm'. rewrite Hm in Hm'. by injection Hm' as <-.
Qed.
End pins.
End PinProofs.
