(* ===== verification/Refs.v ===== *)
(** * References between documents

    src/refs.rs: a breadth-first walk over the links of documents, with the blocks
    that are missing fetched or reported. *)
From stdpp Require Import base gmap list strings.
From Stdlib Require Import Strings.Byte.
From S2P Require Import Prelude Protobuf UnixFsPb Path DirBuilder DirIter UnixFsDir DagResolve.
Local Open Scope Z_scope.

Module Refs.
Import DagResolve.

(** All values of a document, itself first. *)
Fixpoint ipld_values `{ids : Ids} (i : Ipld) : list Ipld :=
  i :: match i with
       | List l => flat_map ipld_values l
       | Map m => flat_map (λ kv, ipld_values kv.2) m
       | _ => []
       end.

(** [Ipld::iter] of the crate [libipld] visits every value once. *)
Class IpldIter `{ids : Ids} := {
  ipld_iter : Ipld → list Ipld;
  ipld_iter_perm i : ipld_iter i ≡ₚ ipld_values i;
}.

(** Depth, document, where the link is and its name. *)
Notation Work := (Z * Cid * Cid * option string)%type.
Notation NamedLink := (option string * Cid)%type.

Section refs.
  Context `{cl : CidLayout} {it : IpldIter}.
  Context {Error Store : Type}.
  Context (decode : Cid → list byte → result Ipld Error).
  (** [Repo::get_block] with the network and [Repo::get_block_now]. *)
  Context (get_block : Cid → Store → result Block Error * Store).
  Context (get_block_now : Cid → Store → result (option Block) Error).

Record Edge := mkEdge { source : Cid; destination : Cid; name : option string }.

Inductive IpldRefsError :=
  | Loading (e : Error)
  | BlockNotFound (c : Cid).

Record IpldRefs := mkRefs { max_depth : option Z; unique : bool; download_blocks : bool }.
Definition IpldRefs_default : IpldRefs := mkRefs None false true.
Definition with_max_depth (depth : Z) (r : IpldRefs) : IpldRefs := mkRefs (Some depth) (unique r) (download_blocks r).
Definition with_only_unique (r : IpldRefs) : IpldRefs := mkRefs (max_depth r) true (download_blocks r).
Definition with_existing_blocks (r : IpldRefs) : IpldRefs := mkRefs (max_depth r) (unique r) false.

(** ** The links of a document *)
Definition dagpb_link (i : Ipld) : outcome (option NamedLink) :=
  match i with
  | Map m =>
      match BTree.get "Hash" m with
      | Some (Link c) =>
          match BTree.get "Name" m with
          | Some (Str s) => if bool_decide (s = "/") then Panic else mret (Some (Some s, c))
          | _ => Panic
          end
      | Some _ => Panic
      | None => mret None
      end
  | _ => Panic
  end.
Fixpoint dagpb_link_list (l : list Ipld) : outcome (list NamedLink) :=
  match l with
  | [] => mret []
  | i :: l =>
      link ← dagpb_link i;
      links ← dagpb_link_list l;
      mret (match link with Some link => link :: links | None => links end)
  end.
Definition dagpb_links (i : Ipld) : outcome (list NamedLink) :=
  match i with
  | Map m => match BTree.get "Links" m with Some (List l) => dagpb_link_list l | _ => Panic end
  | _ => mret []
  end.

Definition link_of (i : Ipld) : option NamedLink := match i with Link c => Some (None, c) | _ => None end.
Definition ipld_links (c : Cid) (i : Ipld) : outcome (list NamedLink) :=
  if bool_decide (cid_codec c = DagPbCodec) then dagpb_links i
  else mret (omap link_of (ipld_iter i)).

(** ** The walk *)
Fixpoint push_links (only_unique : bool) (links : list NamedLink) (depth : Z) (origin : Cid)
    (work : list Work) (queued_or_visited : gset Cid) : list Work * gset Cid :=
  match links with
  | [] => (work, queued_or_visited)
  | (link_name, next_cid) :: links =>
      if only_unique && bool_decide (next_cid ∈ queued_or_visited)
      then push_links only_unique links depth origin work queued_or_visited
      else push_links only_unique links depth origin (work ++ [(depth, next_cid, origin, link_name)])
             (if only_unique then {[next_cid]} ∪ queued_or_visited else queued_or_visited)
  end.
Fixpoint push_roots (only_unique : bool) (iplds : list (Cid * Ipld)) (work : list Work) (queued_or_visited : gset Cid) :
    outcome (list Work * gset Cid) :=
  match iplds with
  | [] => mret (work, queued_or_visited)
  | (origin, ipld) :: iplds =>
      links ← ipld_links origin ipld;
      let '(work, queued_or_visited) := push_links only_unique links 0 origin work queued_or_visited in
      push_roots only_unique iplds work queued_or_visited
  end.

(** What the stream yields, each item with the store at that moment, and the store
    at its end, or that it panics there.  A caller that stops pulling sees the
    items up to then. *)
Definition Trace (A : Type) : Type := list (A * Store) * outcome Store.
Definition yields {A} (a : A) (s : Store) (t : Trace A) : Trace A := ((a, s) :: t.1, t.2).
Definition run {A B} (m : outcome A) (f : A → Trace B) : Trace B :=
  match m with Done a => f a | Panic => ([], Panic) | OutOfFuel => ([], OutOfFuel) end.

Definition traverse_links (limit : option Z) (depth : Z) : outcome (option bool) :=
  match limit with
  | Some d =>
      if bool_decide (d ≤ depth) then mret None
      else above ← u64_add d 1; mret (Some (negb (bool_decide (above = depth))))
  | None => mret (Some true)
  end.

Fixpoint refs_loop (fuel : nat) (opts : IpldRefs) (work : list Work) (queued_or_visited : gset Cid) (s : Store) :
    Trace (result Edge IpldRefsError) :=
  match fuel with
  | O => ([], OutOfFuel)
  | S fuel =>
      match work with
      | [] => ([], Done s)
      | (depth, c, source, link_name) :: work =>
          run (traverse_links (max_depth opts) depth) (λ t,
          match t with
          | None => refs_loop fuel opts work queued_or_visited s
          | Some traverse =>
              (* the block, or how the walk goes on without it *)
              let loaded :=
                if download_blocks opts then
                  match get_block c s with
                  | (Ok block, s) => Ok (block, s)
                  | (Err _, s) => Err (refs_loop fuel opts work queued_or_visited s)
                  end
                else
                  match get_block_now c s with
                  | Ok (Some block) => Ok (block, s)
                  | Ok None => Err ([(Err (BlockNotFound c), s)], Done s)
                  | Err e => Err ([(Err (Loading e), s)], Done s)
                  end in
              match loaded with
              | Err others => others
              | Ok (block, s) =>
                  match decode block.1 block.2 with
                  | Err e => yields (Err (Loading e)) s (refs_loop fuel opts work queued_or_visited s)
                  | Ok ipld =>
                      run (if traverse : bool then
                             links ← ipld_links c ipld;
                             depth ← u64_add depth 1;
                             mret (push_links (unique opts) links depth c work queued_or_visited)
                           else mret (work, queued_or_visited)) (λ r,
                      yields (Ok (mkEdge source c link_name)) s (refs_loop fuel opts r.1 r.2 s))
                  end
              end
          end)
      end
  end.

Definition iplds_refs_inner (fuel : nat) (iplds : list (Cid * Ipld)) (opts : IpldRefs) (s : Store) :
    outcome (Trace (result Edge IpldRefsError)) :=
  let empty_stream := match max_depth opts with Some n => bool_decide (n = 0) | None => false end in
  if empty_stream then mret ([], Done s)
  else
    r ← push_roots (unique opts) iplds [] ∅;
    mret (refs_loop fuel opts r.1 r.2 s).
Definition refs_of_resolved (fuel : nat) (r : IpldRefs) (iplds : list (Cid * Ipld)) (s : Store) :
    outcome (Trace (result Edge IpldRefsError)) := iplds_refs_inner fuel iplds r s.

(** [iplds_refs], whose stream the callers see. *)
Fixpoint only_loading (l : list (result Edge IpldRefsError * Store)) (final : outcome Store) : Trace (result Edge Error) :=
  match l with
  | [] => ([], final)
  | (Ok e, s) :: l => yields (Ok e) s (only_loading l final)
  | (Err (Loading e), s) :: l => yields (Err e) s (only_loading l final)
  | (Err (BlockNotFound _), _) :: _ => ([], Panic)
  end.
Definition iplds_refs (fuel : nat) (iplds : list (Cid * Ipld)) (depth : option Z) (only_unique : bool) (s : Store) :
    outcome (Trace (result Edge Error)) :=
  t ← iplds_refs_inner fuel iplds (mkRefs depth only_unique true) s;
  mret (only_loading t.1 t.2).

(** [map_ok(|Edge { destination, .. }| destination)]. *)
Definition destinations {E} (t : Trace (result Edge E)) : Trace (result Cid E) :=
  ((λ r, (match r.1 with Ok e => Ok (destination e) | Err e => Err e end, r.2)) <$> t.1, t.2).
End refs.
End Refs.
