(* ===== verification/RefsProofs.v ===== *)
(** * The walk over references reaches every document once

    For a set of documents that links do not leave and whose blocks all load, the
    walk of Refs.v with [unique] ends, and yields one edge for each document that a
    chain of links reaches. *)
From stdpp Require Import base gmap list strings sets.
From Stdlib Require Import Strings.Byte Relations.Relation_Operators.
From S2P Require Import Prelude Protobuf UnixFsPb Path DirBuilder DirIter UnixFsDir DagResolve Refs.

Module RefsProofs.
Import DagResolve Refs.
Section proofs.
  Context `{cl : CidLayout} {it : IpldIter}.
  Context {Error Store : Type}.
  Context (decode : Cid → list byte → result Ipld Error).
  Context (get_block : Cid → Store → result Block Error * Store).
  Context (get_block_now : Cid → Store → result (option Block) Error).
  Notation refs_loop := (refs_loop decode get_block get_block_now).
  Notation refs_of_resolved := (refs_of_resolved decode get_block get_block_now).

Definition dest (w : Work) : Cid := w.1.1.2.
Definition depth_of (w : Work) : Z := w.1.1.1.

(** How the walk gets a block that is there. *)
Definition loads (opts : IpldRefs) (s : Store) (c : Cid) (b : Block) : Prop :=
  if download_blocks opts then get_block c s = (Ok b, s) else get_block_now c s = Ok (Some b).

(** The links of a document that the repository has. *)
Definition has_links (opts : IpldRefs) (s : Store) (c : Cid) (links : list NamedLink) : Prop :=
  ∃ b i, loads opts s c b ∧ decode b.1 b.2 = Ok i ∧ ipld_links c i = Done links.
Definition links_to (opts : IpldRefs) (s : Store) (c c' : Cid) : Prop :=
  ∃ links, has_links opts s c links ∧ c' ∈ links.*2.
Definition closed (opts : IpldRefs) (s : Store) (U : gset Cid) : Prop :=
  ∀ c, c ∈ U → ∃ links, has_links opts s c links ∧ ∀ c', c' ∈ links.*2 → c' ∈ U.

Lemma has_links_inj opts s c l l' : has_links opts s c l → has_links opts s c l' → l = l'.
Proof.
  intros (b & i & Hb & Hd & Hl) (b' & i' & Hb' & Hd' & Hl'). unfold loads in *.
  destruct (download_blocks opts); simplify_eq; congruence.
Qed.

(** ** Queuing links *)
Lemma push_links_spec links depth origin work seen :
  ∃ new, push_links true links depth origin work seen = (work ++ new, seen ∪ list_to_set (dest <$> new)) ∧
    NoDup (dest <$> new) ∧ Forall (λ w, depth_of w = depth) new ∧
    (∀ c, c ∈ dest <$> new ↔ c ∈ links.*2 ∧ c ∉ seen).
Proof.
  revert work seen. induction links as [|[n c] links IH]; intros work seen.
  { exists []. simpl. rewrite app_nil_r, (right_id_L ∅ (∪)). split; [done|]. split_and!; [constructor|constructor|set_solver]. }
  cbn [push_links andb]. case_bool_decide as Hin.
  - destruct (IH work seen) as (new & -> & Hnd & Hd & Hc). exists new. split_and!; [done|done|done|].
    intros c'. rewrite Hc, fmap_cons, elem_of_cons. simpl. destruct (decide (c' = c)) as [->|]; tauto.
  - destruct (IH (work ++ [(depth, c, origin, n)]) ({[c]} ∪ seen)) as (new & -> & Hnd & Hd & Hc).
    exists ((depth, c, origin, n) :: new). rewrite <-(assoc_L (++)), fmap_cons. change (dest (depth, c, origin, n)) with c.
    rewrite list_to_set_cons. split; [by rewrite (assoc_L (∪)), (comm_L (∪) seen {[c]})|]. split_and!; [|by constructor|].
    + constructor; [|done]. intros [_ Hx]%Hc. by apply not_elem_of_union in Hx as [? _]; apply not_elem_of_singleton in H.
    + intros c'. rewrite fmap_cons, !elem_of_cons, Hc, not_elem_of_union, elem_of_singleton. simpl. destruct (decide (c' = c)) as [->|]; tauto.
Qed.

(** ** The loop *)
Definition opts_ok (opts : IpldRefs) : Prop := max_depth opts = None ∧ unique opts = true.

Definition found (s : Store) (es : list Edge) : Trace (Store := Store) (result Edge (IpldRefsError (Error := Error))) :=
  ((λ e, (Ok e, s)) <$> es, Done s).

Lemma refs_step fuel opts depth c source n work seen s links :
  opts_ok opts → has_links opts s c links → (0 ≤ depth < usize_max)%Z →
  refs_loop (S fuel) opts ((depth, c, source, n) :: work) seen s =
    yields (Ok (mkEdge source c n)) s
      (refs_loop fuel opts (push_links true links (depth + 1) c work seen).1 (push_links true links (depth + 1) c work seen).2 s).
Proof.
  intros [Hm Hu] (b & i & Hl & Hd & Hi) Hdep. unfold loads in Hl. cbn [Refs.refs_loop]. rewrite Hm, Hu.
  cbn [traverse_links run mbind outcome_bind mret outcome_ret].
  destruct (download_blocks opts); rewrite Hl; rewrite Hd; cbn [mbind outcome_bind]; rewrite Hi; cbn [mbind outcome_bind];
    unfold u64_add; rewrite checked_ok by lia; done.
Qed.

Record walked (opts : IpldRefs) (s : Store) (U seen : gset Cid) (work : list Work) (ds : list Cid) : Prop := {
  w_nodup : NoDup ds;
  w_work : ∀ c, c ∈ dest <$> work → c ∈ ds;
  w_in : ∀ c, c ∈ ds → c ∈ U;
  w_new : ∀ c, c ∈ ds → c ∈ dest <$> work ∨ c ∉ seen;
  w_links : ∀ c c', c ∈ ds → links_to opts s c c' → c' ∈ seen ∨ c' ∈ ds;
  w_reached : ∀ c, c ∈ ds → ∃ w, w ∈ dest <$> work ∧ rtc (links_to opts s) w c;
}.

Lemma walked_step opts s U seen c work new links ds d o n :
  has_links opts s c links → NoDup (dest <$> (d, c, o, n) :: work) → c ∈ U → c ∈ seen →
  (∀ c', c' ∈ dest <$> work → c' ∈ seen) →
  (∀ c', c' ∈ dest <$> new ↔ c' ∈ links.*2 ∧ c' ∉ seen) →
  walked opts s U (seen ∪ list_to_set (dest <$> new)) (work ++ new) ds →
  walked opts s U seen ((d, c, o, n) :: work) (c :: ds).
Proof.
  intros Hl Hnd HcU Hseen Hws Hnew [W1 W2 W3 W4 W5 W6]. rewrite fmap_cons in *. apply NoDup_cons in Hnd as [Hcw Hnd].
  setoid_rewrite fmap_app in W2. setoid_rewrite fmap_app in W4. setoid_rewrite fmap_app in W6.
  change (dest (d, c, o, n)) with c in *.
  split.
  - constructor; [|done]. intros Hin. destruct (W4 c Hin) as [Hx|Hx]; [|set_solver].
    apply elem_of_app in Hx as [Hx|Hx]; [done|]. apply Hnew in Hx as [_ Hx]. done.
  - intros c' [->|Hc']%elem_of_cons; [by left|]. right. apply W2, elem_of_app. by left.
  - intros c' [->|Hc']%elem_of_cons; [done|]. by apply W3.
  - intros c' [->|Hc']%elem_of_cons; [left; by left|]. destruct (W4 c' Hc') as [Hx|Hx]; [|right; set_solver].
    apply elem_of_app in Hx as [Hx|Hx]; [left; by right|]. right. by apply Hnew.
  - intros c1 c2 [->|Hc1]%elem_of_cons Hlk.
    + destruct Hlk as (links' & Hl' & Hin). rewrite (has_links_inj _ _ _ _ _ Hl' Hl) in Hin.
      destruct (decide (c2 ∈ seen)); [by left|]. right. right. apply W2, elem_of_app. right. by apply Hnew.
    + destruct (W5 c1 c2 Hc1 Hlk) as [Hx|Hx]; [|right; by right]. apply elem_of_union in Hx as [Hx|Hx]; [by left|].
      apply elem_of_list_to_set in Hx. right. right. apply W2, elem_of_app. by right.
  - intros c' [->|Hc']%elem_of_cons; [exists c; split; [by left|done]|]. destruct (W6 c' Hc') as (w & Hw & Hr).
    apply elem_of_app in Hw as [Hw|Hw]; [exists w; split; [by right|done]|].
    exists c. split; [by left|]. eapply rtc_l; [|exact Hr]. exists links. split; [done|]. by apply Hnew in Hw as [? _].
Qed.

Lemma size_seen (U seen : gset Cid) (ds : list Cid) :
  NoDup ds → (∀ c, c ∈ ds → c ∈ U ∧ c ∉ seen) →
  (size (U ∖ seen) = size (U ∖ (seen ∪ list_to_set ds)) + length ds)%nat.
Proof.
  intros Hnd Hds. rewrite <-(size_list_to_set (C := gset Cid) ds) by done. rewrite <-size_union.
  - f_equal. apply set_eq. intros c. destruct (decide (c ∈ ds)) as [Hc|Hc]; [pose proof (Hds c Hc)|]; set_solver.
  - set_solver.
Qed.

Definition queue_ok (U seen : gset Cid) (work : list Work) : Prop :=
  NoDup (dest <$> work) ∧ (∀ c, c ∈ dest <$> work → c ∈ seen ∧ c ∈ U) ∧
  Forall (λ w, 0 ≤ depth_of w ∧ depth_of w + Z.of_nat (size (U ∖ seen)) < usize_max)%Z work.

Lemma queue_ok_step U seen d c o n work new (links : list NamedLink) :
  queue_ok U seen ((d, c, o, n) :: work) → (∀ c', c' ∈ links.*2 → c' ∈ U) →
  NoDup (dest <$> new) → Forall (λ w, depth_of w = d + 1)%Z new →
  (∀ c', c' ∈ dest <$> new ↔ c' ∈ links.*2 ∧ c' ∉ seen) →
  queue_ok U (seen ∪ list_to_set (dest <$> new)) (work ++ new) ∧
  (size (U ∖ seen) = size (U ∖ (seen ∪ list_to_set (dest <$> new))) + length new)%nat.
Proof.
  intros (Hnd & Hin & Hdep) HU Hnd2 Hd2 Hnew. rewrite fmap_cons in *. apply NoDup_cons in Hnd as [Hcw Hnd].
  apply Forall_cons in Hdep as [Hd Hdep]. change (depth_of (d, c, o, n)) with d in Hd.
  assert (size (U ∖ seen) = size (U ∖ (seen ∪ list_to_set (dest <$> new))) + length new)%nat as Hsz.
  { rewrite (size_seen U seen (dest <$> new)), length_fmap; [done|done|]. intros c' [H1 H2]%Hnew. split; [by apply HU|done]. }
  split; [|done]. split_and!.
  - rewrite fmap_app. apply NoDup_app. split_and!; [done| |done]. intros x Hx [_ Hn]%Hnew. apply Hn, (Hin x). by right.
  - intros x. rewrite fmap_app, elem_of_app, elem_of_union, elem_of_list_to_set. intros [Hx|Hx].
    + destruct (Hin x) as [? ?]; [by right|]. tauto.
    + split; [by right|]. apply Hnew in Hx as [Hx _]. by apply HU.
  - apply Forall_app. split.
    + eapply Forall_impl; [exact Hdep|]. intros w. simpl. lia.
    + apply Forall_forall. intros w Hw. eapply Forall_forall in Hd2; [|exact Hw]. simpl in Hd2. rewrite Hd2.
      assert (length new ≠ 0)%nat by (destruct new; [by apply elem_of_nil in Hw|done]). lia.
Qed.

Lemma refs_loop_walks opts s U : opts_ok opts → closed opts s U → ∀ fuel work seen,
  queue_ok U seen work → (size (U ∖ seen) + length work < fuel)%nat →
  ∃ es, refs_loop fuel opts work seen s = found s es ∧ walked opts s U seen work (destination <$> es).
Proof.
  intros Ho HU. induction fuel as [|fuel IH]; intros work seen Hq Hf; [lia|].
  destruct work as [|[[[d c] o] n] work].
  { exists []. split; [done|]. split; simpl; try (intros c Hc; by apply elem_of_nil in Hc); [constructor|].
    intros c c' Hc. by apply elem_of_nil in Hc. }
  pose proof Hq as (Hnd & Hin & Hdep). apply Forall_cons in Hdep as [Hd _]. unfold depth_of in Hd. cbn [fst snd] in Hd.
  destruct (Hin c) as [Hcs HcU]; [rewrite fmap_cons; by left|]. destruct (HU c HcU) as (links & Hl & HlU).
  rewrite (refs_step _ _ _ _ _ _ _ _ _ links) by (done || lia).
  destruct (push_links_spec links (d + 1) c work seen) as (new & -> & Hnd2 & Hd2 & Hnew).
  destruct (queue_ok_step _ _ _ _ _ _ _ _ links Hq HlU Hnd2 Hd2 Hnew) as [Hq2 Hsz].
  destruct (IH _ _ Hq2) as (es & Hr & Hw); [rewrite length_app; cbn [length] in Hf; lia|].
  exists (mkEdge o c n :: es). cbn [fst snd]. rewrite Hr. split; [done|].
  apply walked_step with (new := new) (links := links); try done. intros c' Hc'. apply Hin. rewrite fmap_cons. by right.
Qed.

(** From one document: the fuel is one more than the documents there are. *)
Lemma refs_of_resolved_walks opts s U root ipld links fuel :
  opts_ok opts → closed opts s U → ipld_links root ipld = Done links → (∀ c, c ∈ links.*2 → c ∈ U) →
  (size U < fuel)%nat → (Z.of_nat (size U) < usize_max)%Z →
  ∃ es, refs_of_resolved fuel opts [(root, ipld)] s = Done (found s es) ∧
    NoDup (destination <$> es) ∧
    ∀ c, c ∈ destination <$> es ↔ ∃ c0, c0 ∈ links.*2 ∧ rtc (links_to opts s) c0 c.
Proof.
  intros [Hm Hu] HU Hi HlU Hf Hmax. unfold Refs.refs_of_resolved, iplds_refs_inner. rewrite Hm, Hu.
  cbn [push_roots]. rewrite Hi. cbn [mbind outcome_bind].
  destruct (push_links_spec links 0 root [] ∅) as (new & -> & Hnd & Hd & Hnew). cbn [fst snd mbind outcome_bind mret outcome_ret].
  rewrite (left_id_L ∅ (∪)), app_nil_l.
  assert (∀ c, c ∈ dest <$> new ↔ c ∈ links.*2) as Hnew' by (intros c; rewrite Hnew; set_solver).
  assert (size (U ∖ list_to_set (dest <$> new)) + length new = size U)%nat as Hsz.
  { pose proof (size_seen U ∅ (dest <$> new) Hnd) as H. rewrite (left_id_L ∅ (∪)), difference_empty_L, length_fmap in H.
    symmetry. apply H. intros c Hc%Hnew'. split; [by apply HlU|set_solver]. }
  destruct (refs_loop_walks opts s U (conj Hm Hu) HU fuel new (list_to_set (dest <$> new))) as (es & -> & [W1 W2 W3 W4 W5 W6]).
  - split_and!; [done| |].
    + intros c Hc. split; [by apply elem_of_list_to_set|]. by apply HlU, Hnew'.
    + eapply Forall_impl; [exact Hd|]. intros w ->. lia.
  - lia.
  - exists es. split; [done|]. split; [done|]. intros c. split.
    + intros Hc. destruct (W6 c Hc) as (w & Hw%Hnew' & Hr). eauto.
    + intros (c0 & Hc0 & Hr).
      assert (c0 ∈ destination <$> es) as Hin by by apply W2, Hnew'. clear Hc0. induction Hr as [|x y z Hxy Hr IH]; [done|].
      apply IH. destruct (W5 x y Hin Hxy) as [Hy|Hy]; [|done]. apply W2. by apply elem_of_list_to_set in Hy.
Qed.
End proofs.
End RefsProofs.
