(* ===== verification/Repo.v ===== *)
(** * The repository

    src/repo/mod.rs over a block store and the in-memory data store
    (src/repo/blockstore/memory.rs, src/repo/datastore/memory.rs): blocks and the
    tasks that wait for them, pins, names, clean-up and migration.  [remove_pin] is
    the method of the node in src/lib.rs. *)
From stdpp Require Import base gmap list strings.
From Stdlib Require Import Strings.Byte.
From S2P Require Import Prelude Protobuf UnixFsPb Path DirBuilder DirIter UnixFsDir DagResolve PinStore Refs.
Local Open Scope Z_scope.

(** ** Block stores

    The trait [BlockStore]. *)
Inductive BlockPut := NewBlock | Existed.
Inductive BlockRm `{ids : Ids} := Removed (c : Cid).
Inductive BlockRmError `{ids : Ids} := BlockNotFound (c : Cid).

Notation Block := (Cid * list byte)%type.

Class BlockStore `{ids : Ids} := {
  BS : Type;
  BsError : Type;
  bs_contains : Cid → BS → result bool BsError;
  bs_get : Cid → BS → result (option Block) BsError;
  bs_put : Block → BS → result (Cid * BlockPut) BsError * BS;
  bs_remove : Cid → BS → result (result BlockRm BlockRmError) BsError * BS;
  bs_list : BS → result (list Cid) BsError;
  bs_wipe : BS → BS;
}.

(** What the repository relies on. *)
Class BlockStoreLaws `{bs : BlockStore} := {
  bs_blocks : BS → gmap Cid Block;
  bs_contains_ok c s : bs_contains c s = Ok (bool_decide (is_Some (bs_blocks s !! c)));
  bs_get_ok c s : bs_get c s = Ok (bs_blocks s !! c);
  bs_put_ok b s : (bs_put b s).1 = Ok (b.1, if bs_blocks s !! b.1 then Existed else NewBlock) ∧
    bs_blocks (bs_put b s).2 = if bs_blocks s !! b.1 then bs_blocks s else <[b.1 := b]> (bs_blocks s);
  bs_remove_ok c s : (bs_remove c s).1 = Ok (if bs_blocks s !! c then Ok (Removed c) else Err (BlockNotFound c)) ∧
    bs_blocks (bs_remove c s).2 = delete c (bs_blocks s);
  bs_list_ok s : ∃ l, bs_list s = Ok l ∧ l ≡ₚ (map_to_list (bs_blocks s)).*1;
  bs_wipe_ok s : bs_blocks (bs_wipe s) = ∅;
}.

(** [MemBlockStore]. *)
Module MemBlockStore.
Section mem.
  Context `{ids : Ids} {ho : HashOrder}.
  Implicit Types blocks : gmap Cid Block.

Definition contains (c : Cid) blocks : result bool unit := Ok (bool_decide (is_Some (blocks !! c))).
Definition get (c : Cid) blocks : result (option Block) unit := Ok (blocks !! c).
Definition put (block : Block) blocks : result (Cid * BlockPut) unit * gmap Cid Block :=
  match blocks !! block.1 with
  | Some _ => (Ok (block.1, Existed), blocks)
  | None => (Ok (block.1, NewBlock), <[block.1 := block]> blocks)
  end.
Definition remove (c : Cid) blocks : result (result BlockRm BlockRmError) unit * gmap Cid Block :=
  match blocks !! c with
  | Some _ => (Ok (Ok (Removed c)), delete c blocks)
  | None => (Ok (Err (BlockNotFound c)), blocks)
  end.
Definition list blocks : result (list Cid) unit := Ok (iter_map blocks).*1.
Definition wipe blocks : gmap Cid Block := ∅.

#[export] Instance mem_block_store : BlockStore := {|
  bs_contains := contains; bs_get := get; bs_put := put; bs_remove := remove; bs_list := list; bs_wipe := wipe;
|}.
#[export] Program Instance mem_block_store_laws : BlockStoreLaws := {| bs_blocks := λ s, s |}.
Next Obligation. done. Qed.
Next Obligation. done. Qed.
Next Obligation. intros [c b] s. simpl in *. unfold put. simpl. by destruct (s !! c). Qed.
Next Obligation.
  intros c s. simpl in *. unfold remove. destruct (s !! c) eqn:E; [done|]. split; [done|]. by rewrite delete_id.
Qed.
Next Obligation. intros s. exists (iter_map s).*1. split; [done|]. by rewrite iter_map_perm. Qed.
Next Obligation. done. Qed.
End mem.
End MemBlockStore.

(** ** Lossy strings

    [String::from_utf8_lossy]: what is not UTF-8 is replaced by U+FFFD. *)
Module Utf8Lossy.
Definition replacement : list byte := [byte_of_Z 239; byte_of_Z 191; byte_of_Z 189].
Fixpoint lossy (bs : list byte) : list byte :=
  let between lo hi (b : byte) := bool_decide (lo ≤ byte_to_Z b ≤ hi) in
  let cont := between 128 191 in
  match bs with
  | [] => []
  | b :: r =>
      if between 0 127 b then b :: lossy r
      else if between 194 223 b then
        match r with
        | c1 :: r1 => if cont c1 then b :: c1 :: lossy r1 else replacement ++ lossy r
        | [] => replacement
        end
      else if between 224 239 b then
        match r with
        | c1 :: r1 =>
            if (if bool_decide (byte_to_Z b = 224) then between 160 191 c1
                else if bool_decide (byte_to_Z b = 237) then between 128 159 c1
                else cont c1) then
              match r1 with
              | c2 :: r2 => if cont c2 then b :: c1 :: c2 :: lossy r2 else replacement ++ lossy r1
              | [] => replacement
              end
            else replacement ++ lossy r
        | [] => replacement
        end
      else if between 240 244 b then
        match r with
        | c1 :: r1 =>
            if (if bool_decide (byte_to_Z b = 240) then between 144 191 c1
                else if bool_decide (byte_to_Z b = 244) then between 128 143 c1
                else cont c1) then
              match r1 with
              | c2 :: r2 =>
                  if cont c2 then
                    match r2 with
                    | c3 :: r3 => if cont c3 then b :: c1 :: c2 :: c3 :: lossy r3 else replacement ++ lossy r2
                    | [] => replacement
                    end
                  else replacement ++ lossy r1
              | [] => replacement
              end
            else replacement ++ lossy r
        | [] => replacement
        end
      else replacement ++ lossy r
  end.
Definition from_utf8_lossy (bs : list byte) : string := str_of_bytes (lossy bs).

Lemma lossy_utf8 n bs : (length bs ≤ n)%nat → is_utf8 bs = true → lossy bs = bs.
Proof.
  revert bs. induction n as [|n IH]; intros [|b r] Hn; try done; simpl in Hn; [lia|].
  cbn [is_utf8 lossy]. destruct (bool_decide (0 ≤ _ ≤ 127)); [intros; f_equal; apply IH; [lia|done]|].
  destruct (bool_decide (194 ≤ _ ≤ 223)).
  { destruct r as [|c1 r]; [done|]. intros [-> H]%andb_true_iff. do 2 f_equal. apply IH; [simpl in Hn; lia|done]. }
  destruct (bool_decide (224 ≤ _ ≤ 239)).
  { destruct r as [|c1 [|c2 r]]; [done|done|]. intros [[-> ->]%andb_true_iff H]%andb_true_iff.
    do 3 f_equal. apply IH; [simpl in Hn; lia|done]. }
  destruct (bool_decide (240 ≤ _ ≤ 244)); [|done].
  destruct r as [|c1 [|c2 [|c3 r]]]; [done|done|done|].
  intros [[[-> ->]%andb_true_iff ->]%andb_true_iff H]%andb_true_iff. do 4 f_equal. apply IH; [simpl in Hn; lia|done].
Qed.
Lemma from_utf8_lossy_str s : is_utf8 (str_bytes s) = true → from_utf8_lossy (str_bytes s) = s.
Proof. intros H. unfold from_utf8_lossy. rewrite (lossy_utf8 (length (str_bytes s))) by done. apply str_of_bytes_str_bytes. Qed.
End Utf8Lossy.

(** ** The repository *)
Module Repo.
Import Path DagResolve PinDocument PinStore.
Local Notation Block := (Cid * list byte)%type.
Section repo.
  Context `{bs : BlockStore} {pc : PathCodec} {cc : CidCodec} {qp : QuickProtobuf} {cl : CidLayout} {pk : PinCodec}.
  Context {it : Refs.IpldIter} {ho : HashOrder}.
  (** [Block::decode] of the crate [libipld]. *)
  Context {DecodeError : Type} (decode : Cid → list byte → result Ipld DecodeError).

Inductive RepoEvent :=
  | WantBlock (session : option Z) (c : Cid) (peers : list PeerId)
  | UnwantBlock (c : Cid)
  | RemovedBlock (c : Cid).

(** A [oneshot::Sender] in [subscriptions] is a number; [delivered] holds what was
    sent; [events] holds the events sent to the task of the node, if it listens. *)
Record Repo := mkRepo {
  online : bool;
  block_store : BS;
  data : gmap (list byte) (list byte);
  pins : Pins;
  events : option (list RepoEvent);
  subscriptions : gmap Cid (list nat);
  delivered : gmap nat Block;
  next_sender : nat;
}.
Definition set_blocks (b : BS) (r : Repo) : Repo :=
  mkRepo (online r) b (data r) (pins r) (events r) (subscriptions r) (delivered r) (next_sender r).
Definition set_data (d : gmap (list byte) (list byte)) (r : Repo) : Repo :=
  mkRepo (online r) (block_store r) d (pins r) (events r) (subscriptions r) (delivered r) (next_sender r).
Definition set_pins (p : Pins) (r : Repo) : Repo :=
  mkRepo (online r) (block_store r) (data r) p (events r) (subscriptions r) (delivered r) (next_sender r).
Definition send (e : RepoEvent) (r : Repo) : Repo :=
  mkRepo (online r) (block_store r) (data r) (pins r) ((λ l, l ++ [e]) <$> events r) (subscriptions r) (delivered r) (next_sender r).

Inductive RepoError :=
  | StoreError (e : BsError)
  | UnableToLocate (c : Cid)
  | ChannelNotAvailable
  | Canceled
  | BlockPinned
  | BlockMissing
  | BadPath (e : Path.Error)
  | DecodeFailed (e : DecodeError)
  | Pin (e : PinError (RefsError := Refs.IpldRefsError (Error := RepoError)))
  | RootNotFound (c : Cid)
  | IsOnline.

(** *** Life cycle *)
Definition new_raw (b : BS) : Repo := mkRepo false b ∅ ∅ None ∅ ∅ 0.
Definition initialize_channel (r : Repo) : Repo :=
  mkRepo true (block_store r) (data r) (pins r) (Some []) (subscriptions r) (delivered r) (next_sender r).
(** Dropping the senders cancels their receivers. *)
Definition shutdown (r : Repo) : Repo :=
  mkRepo false (block_store r) (data r) (pins r) None ∅ (delivered r) (next_sender r).

(** *** Blocks *)
Definition deliver (block : Block) (senders : list nat) (d : gmap nat Block) : gmap nat Block :=
  foldl (λ d ch, <[ch := block]> d) d senders.
Definition put_block (block : Block) (r : Repo) : result (Cid * BlockPut) RepoError * Repo :=
  match bs_put block (block_store r) with
  | (Err e, b) => (Err (StoreError e), set_blocks b r)
  | (Ok (c, res), b) =>
      (Ok (c, res),
       match res with
       | NewBlock =>
           mkRepo (online r) b (data r) (pins r) (events r) (delete c (subscriptions r))
             (deliver block (default [] (subscriptions r !! c)) (delivered r)) (next_sender r)
       | Existed => set_blocks b r
       end)
  end.

Definition get_block_now (c : Cid) (r : Repo) : result (option Block) RepoError := map_err StoreError (bs_get c (block_store r)).
Definition contains (c : Cid) (r : Repo) : result bool RepoError := map_err StoreError (bs_contains c (block_store r)).
Definition list_blocks (r : Repo) : result (list Cid) RepoError := map_err StoreError (bs_list (block_store r)).

(** [get_block_with_session] after the store had nothing: the receiver that the task
    then waits on.  Between the look at the store and this step other tasks run. *)
Definition subscribe (session : option Z) (c : Cid) (peers : list PeerId) (local_only : bool) (r : Repo) :
    result nat RepoError * Repo :=
  if local_only || negb (online r) then (Err (UnableToLocate c), r)
  else
    let rx := next_sender r in
    let r := mkRepo (online r) (block_store r) (data r) (pins r) (events r)
               (<[c := default [] (subscriptions r !! c) ++ [rx]]> (subscriptions r)) (delivered r) (S rx) in
    match events r with
    | None => (Err ChannelNotAvailable, r)
    | Some _ => (Ok rx, send (WantBlock session c peers) r)
    end.

(** The whole call when nothing else runs between its steps: [network] is the block
    that the node finds and puts, [None] if it is shut down before. *)
Definition get_block (network : Cid → option (list byte)) (peers : list PeerId) (local_only : bool) (c : Cid) (r : Repo) :
    result Block RepoError * Repo :=
  match get_block_now c r with
  | Err e => (Err e, r)
  | Ok (Some block) => (Ok block, r)
  | Ok None =>
      match subscribe None c peers local_only r with
      | (Err e, r) => (Err e, r)
      | (Ok rx, r) =>
          let r := match network c with Some b => (put_block (c, b) r).2 | None => shutdown r end in
          (ok_or Canceled (delivered r !! rx), r)
      end
  end.

Definition is_pinned (c : Cid) (r : Repo) : bool := PinStore.is_pinned c (pins r).

Definition remove_block (c : Cid) (r : Repo) : result Cid RepoError * Repo :=
  if is_pinned c r then (Err BlockPinned, r)
  else
    match bs_remove c (block_store r) with
    | (Err e, b) => (Err (StoreError e), set_blocks b r)
    | (Ok (Ok (Removed _)), b) => (Ok c, send (RemovedBlock c) (set_blocks b r))
    | (Ok (Err (BlockNotFound _)), b) => (Err BlockMissing, set_blocks b r)
    end.

Fixpoint cleanup_loop (blocks : list Cid) (r : Repo) : list Cid * Repo :=
  match blocks with
  | [] => ([], r)
  | c :: blocks =>
      if negb (is_pinned c r) then
        match remove_block c r with
        | (Ok c, r) => let '(removed, r) := cleanup_loop blocks r in (c :: removed, r)
        | (Err _, r) => cleanup_loop blocks r
        end
      else cleanup_loop blocks r
  end.
Definition cleanup (r : Repo) : result (list Cid) RepoError * Repo :=
  match list_blocks r with
  | Err e => (Err e, r)
  | Ok blocks => let '(removed, r) := cleanup_loop blocks r in (Ok removed, r)
  end.

(** *** Names *)
Definition ipns_key (p : PeerId) : list byte := str_bytes ("ipns/" +:+ peer_to_base58 p).
Definition get_ipns (p : PeerId) (r : Repo) : result (option IpfsPath) RepoError :=
  match data r !! ipns_key p with
  | Some bytes => let? path := map_err BadPath (Path.from_str (Utf8Lossy.from_utf8_lossy bytes)) in Ok (Some path)
  | None => Ok None
  end.
Definition put_ipns (p : PeerId) (path : IpfsPath) (r : Repo) : Repo :=
  set_data (<[ipns_key p := str_bytes (Path.to_string path)]> (data r)) r.
Definition remove_ipns (p : PeerId) (r : Repo) : Repo := set_data (delete (ipns_key p) (data r)) r.

(** *** Pins *)
Definition pin_result (x : result unit PinError * Pins) (r : Repo) : result unit RepoError * Repo :=
  (map_err Pin x.1, set_pins x.2 r).
Definition insert_direct_pin (c : Cid) (r : Repo) : outcome (result unit RepoError * Repo) :=
  x ← PinStore.insert_direct_pin c (pins r); mret (pin_result x r).
Definition remove_direct_pin (c : Cid) (r : Repo) : result unit RepoError * Repo :=
  pin_result (PinStore.remove_direct_pin c (pins r)) r.

(** The references of a document: the stream that the pin store pulls from. *)
Definition references (fuel : nat) (network : Cid → option (list byte)) (opts : Refs.IpldRefs) (c : Cid) (ipld : Ipld) (r : Repo) :
    outcome (Refs.Trace (Store := Repo) (result Cid (Refs.IpldRefsError (Error := RepoError)))) :=
  t ← Refs.refs_of_resolved (λ c b, map_err DecodeFailed (decode c b)) (get_block network [] false) get_block_now fuel opts [(c, ipld)] r;
  mret (Refs.destinations t).

Definition pin_opts : Refs.IpldRefs := Refs.with_only_unique Refs.IpldRefs_default.
Definition unpin_opts : Refs.IpldRefs := Refs.with_existing_blocks (Refs.with_only_unique Refs.IpldRefs_default).

Definition insert_pin (fuel : nat) (network : Cid → option (list byte)) (c : Cid) (recursive local_only : bool) (r : Repo) :
    outcome (result unit RepoError * Repo) :=
  match get_block network [] local_only c r with
  | (Err e, r) => mret (Err e, r)
  | (Ok block, r) =>
      if negb recursive then insert_direct_pin c r
      else
        match decode block.1 block.2 with
        | Err e => mret (Err (DecodeFailed e), r)
        | Ok ipld =>
            refs ← references fuel network pin_opts c ipld r;
            x ← PinStore.insert_recursive_pin c refs r (pins r);
            mret (pin_result x.1 x.2)
        end
  end.

Definition remove_pin (fuel : nat) (network : Cid → option (list byte)) (c : Cid) (recursive : bool) (r : Repo) :
    outcome (result unit RepoError * Repo) :=
  if negb recursive then mret (remove_direct_pin c r)
  else
    match get_block_now c r with
    | Err e => mret (Err e, r)
    | Ok None => mret (Err (RootNotFound c), r)
    | Ok (Some block) =>
        match decode block.1 block.2 with
        | Err e => mret (Err (DecodeFailed e), r)
        | Ok ipld =>
            refs ← references fuel network unpin_opts c ipld r;
            x ← PinStore.remove_recursive_pin c refs r (pins r);
            mret (pin_result x.1 x.2)
        end
    end.

Definition list_pins (mode : option PinMode) (r : Repo) := PinStore.list_pins (RefsError := Refs.IpldRefsError (Error := RepoError)) mode (pins r).
Definition query_pins (cids : list Cid) (requirement : option PinMode) (r : Repo) :=
  PinStore.query (RefsError := Refs.IpldRefsError (Error := RepoError)) cids requirement (pins r).

(** *** Migration

    The three loops run concurrently and write to different parts of the target. *)
Fixpoint migrate_blocks (blocks : list Cid) (r external : Repo) : Repo :=
  match blocks with
  | [] => external
  | c :: blocks =>
      migrate_blocks blocks r
        match get_block_now c r with
        | Ok (Some block) => set_blocks (bs_put block (block_store external)).2 external
        | _ => external
        end
  end.
Definition migrate_data (entries : list (list byte * list byte)) (external : Repo) : Repo :=
  foldl (λ e kv, set_data (<[kv.1 := kv.2]> (data e)) e) external entries.

Definition migrate_pin (fuel : nat) (network : Cid → option (list byte)) (c : Cid) (mode : PinMode) (r external : Repo) :
    outcome (Repo * Repo) :=
  match mode with
  | Direct => x ← insert_direct_pin c external; mret (r, x.2)
  | Indirect => mret (r, external)
  | Recursively =>
      match get_block_now c r with
      | Ok (Some block) =>
          match decode block.1 block.2 with
          | Ok ipld =>
              refs ← references fuel network pin_opts c ipld r;
              x ← PinStore.insert_recursive_pin c refs r (pins external);
              mret (x.2, set_pins x.1.2 external)
          | Err _ => mret (r, external)
          end
      | _ => mret (r, external)
      end
  end.
(** The loop ends at the first entry that cannot be read. *)
Fixpoint migrate_pins (fuel : nat) (network : Cid → option (list byte))
    (l : list (result (Cid * PinMode) (PinError (RefsError := Refs.IpldRefsError (Error := RepoError))))) (r external : Repo) :
    outcome (Repo * Repo) :=
  match l with
  | Ok (c, mode) :: l =>
      x ← migrate_pin fuel network c mode r external;
      migrate_pins fuel network l x.1 x.2
  | _ => mret (r, external)
  end.

Definition migrate (fuel : nat) (network : Cid → option (list byte)) (r external : Repo) :
    outcome (result unit RepoError * Repo * Repo) :=
  if online r || online external then mret (Err IsOnline, r, external)
  else
    let external := match list_blocks r with Ok l => migrate_blocks l r external | Err _ => external end in
    let external := migrate_data (iter_map (data r)) external in
    x ← migrate_pins fuel network (list_pins None r) r external;
    mret (Ok tt, x.1, x.2).
End repo.
End Repo.
