(* ===== verification/RepoProofs.v ===== *)
(** * The repository: blocks, waiting tasks, clean-up and pins of whole DAGs

    Proved against the laws of [BlockStore]. *)
From stdpp Require Import base gmap list strings.
From Stdlib Require Import Strings.Byte.
From S2P Require Import Prelude Protobuf UnixFsPb Path DirBuilder DirIter UnixFsDir DagResolve PinStore PinProofs Refs RefsProofs Repo.

Module RepoProofs.
Import Repo.
Section repo.
  Context `{bl : BlockStoreLaws} {pc : PathCodec} {cc : CidCodec} {qp : QuickProtobuf} {cl : CidLayout} {pk : PinCodec}.
  Context {it : Refs.IpldIter} {ho : HashOrder}.
  Context {DecodeError : Type}.
  Implicit Types r : Repo.
  Notation RepoError := (RepoError (DecodeError := DecodeError)).

Definition blocks r : gmap Cid Block := bs_blocks (block_store r).
(** Tasks that wait for a block. *)
Definition senders r (c : Cid) : list nat := default [] (subscriptions r !! c).

(** ** Blocks *)
Lemma get_block_now_spec c r : get_block_now (DecodeError := DecodeError) c r = Ok (blocks r !! c).
Proof. unfold get_block_now. by rewrite bs_get_ok. Qed.
Lemma contains_spec c r : contains (DecodeError := DecodeError) c r = Ok (bool_decide (is_Some (blocks r !! c))).
Proof. unfold contains. by rewrite bs_contains_ok. Qed.

Lemma deliver_other b l d ch : ch ∉ l → deliver b l d !! ch = d !! ch.
Proof.
  unfold deliver. revert d. induction l as [|x l IH]; intros d Hch; [done|]. apply not_elem_of_cons in Hch as [? ?]. simpl.
  rewrite IH by done. by rewrite lookup_insert_ne.
Qed.
Lemma deliver_in b l d ch : ch ∈ l → deliver b l d !! ch = Some b.
Proof.
  unfold deliver. revert d. induction l as [|x l IH]; intros d Hch; [by apply elem_of_nil in Hch|]. simpl.
  destruct (decide (ch ∈ l)); [by apply IH|]. apply elem_of_cons in Hch as [->|?]; [|done].
  fold (deliver b l (<[x:=b]> d)). rewrite deliver_other by done. apply lookup_insert_eq.
Qed.

Lemma put_block_spec b r :
  let '(res, r') := put_block (DecodeError := DecodeError) b r in
  res = Ok (b.1, if blocks r !! b.1 then Existed else NewBlock) ∧
  blocks r' = (if blocks r !! b.1 then blocks r else <[b.1 := b]> (blocks r)) ∧
  pins r' = pins r ∧ data r' = data r ∧ events r' = events r ∧ online r' = online r ∧ next_sender r' = next_sender r ∧
  if blocks r !! b.1 then subscriptions r' = subscriptions r ∧ delivered r' = delivered r
  else subscriptions r' = delete b.1 (subscriptions r) ∧ delivered r' = deliver b (senders r b.1) (delivered r).
Proof.
  unfold put_block, blocks, senders. destruct (bs_put_ok b (block_store r)) as [H1 H2].
  destruct (bs_put b (block_store r)) as [res s]. simpl in *. subst res.
  by destruct (bs_blocks (block_store r) !! b.1).
Qed.

Lemma remove_block_spec c r :
  let '(res, r') := remove_block (DecodeError := DecodeError) c r in
  res = (if is_pinned c r then Err BlockPinned else if blocks r !! c then Ok c else Err BlockMissing) ∧
  blocks r' = (if is_pinned c r then blocks r else delete c (blocks r)) ∧
  pins r' = pins r ∧ data r' = data r ∧ online r' = online r ∧ next_sender r' = next_sender r ∧
  subscriptions r' = subscriptions r ∧ delivered r' = delivered r ∧
  events r' = match res with Ok _ => (λ l, l ++ [RemovedBlock c]) <$> events r | Err _ => events r end.
Proof.
  unfold remove_block, blocks. destruct (is_pinned c r); [done|]. destruct (bs_remove_ok c (block_store r)) as [H1 H2].
  destruct (bs_remove c (block_store r)) as [res s]. simpl in *. subst res.
  by destruct (bs_blocks (block_store r) !! c).
Qed.

(** ** Clean-up *)
Definition kept (f : Cid → bool) (m : gmap Cid Block) : gmap Cid Block := filter (λ cb, f cb.1 = true) m.
Lemma lookup_kept f m c : kept f m !! c = if f c then m !! c else None.
Proof.
  unfold kept. rewrite map_lookup_filter. destruct (m !! c) as [b|]; simpl; [|by destruct (f c)].
  destruct (f c) eqn:E; [by rewrite option_guard_True|by rewrite option_guard_False by congruence].
Qed.

Lemma cleanup_loop_spec l r :
  NoDup l → (∀ c, c ∈ l → is_Some (blocks r !! c)) →
  let '(removed, r') := cleanup_loop (DecodeError := DecodeError) l r in
  removed = filter (λ c, is_pinned c r = false) l ∧
  blocks r' = kept (λ c, negb (bool_decide (c ∈ removed))) (blocks r) ∧
  pins r' = pins r ∧ data r' = data r ∧ online r' = online r ∧ next_sender r' = next_sender r ∧
  subscriptions r' = subscriptions r ∧ delivered r' = delivered r ∧
  events r' = (λ e, e ++ (RemovedBlock <$> removed)) <$> events r.
Proof.
  intros Hnd. revert r. induction Hnd as [|c l Hc Hnd IH]; intros r Hin.
  { simpl. split_and!; try done; [|by destruct (events r) as [e|]; simpl; [rewrite app_nil_r|]].
    apply map_eq. intros c. rewrite lookup_kept. done. }
  cbn [cleanup_loop]. rewrite filter_cons. destruct (is_pinned c r) eqn:Hp.
  { cbn [negb]. rewrite decide_False by done. apply IH. intros x Hx. apply Hin. by right. }
  cbn [negb]. rewrite decide_True by done. pose proof (remove_block_spec c r) as Hr.
  destruct (remove_block c r) as [res r1]. rewrite Hp in Hr. destruct (Hin c) as [b Hb]; [by left|]. rewrite Hb in Hr.
  destruct Hr as (-> & Hbl & Hpi & Hda & Hon & Hne & Hsu & Hde & Hev).
  assert (∀ x, is_pinned x r1 = is_pinned x r) as Hsame by (intros x; unfold is_pinned; by rewrite Hpi).
  specialize (IH r1). destruct (cleanup_loop l r1) as [removed r2].
  destruct IH as (-> & Hbl2 & ? & ? & ? & ? & ? & ? & Hev2).
  { intros x Hx. rewrite Hbl, lookup_delete_ne; [apply Hin; by right|]. by intros ->. }
  assert (filter (λ x, is_pinned x r1 = false) l = filter (λ x, is_pinned x r = false) l) as Hf.
  { apply list_filter_iff. intros x. by rewrite Hsame. }
  rewrite Hf in *. split_and!; try congruence.
  - rewrite Hbl2, Hbl. apply map_eq. intros x. rewrite !lookup_kept.
    destruct (decide (x = c)) as [->|Hne2].
    + rewrite lookup_delete_eq, (bool_decide_eq_true_2 (c ∈ c :: _)) by apply list_elem_of_here. by case_bool_decide.
    + rewrite lookup_delete_ne by done. erewrite (bool_decide_ext (x ∈ c :: _)); [done|]. rewrite elem_of_cons. naive_solver.
  - rewrite Hev2, Hev. destruct (events r) as [e|]; [|done]. simpl. by rewrite <-(assoc_L (++)).
Qed.

Lemma cleanup_spec r :
  ∃ removed r', cleanup (DecodeError := DecodeError) r = (Ok removed, r') ∧ NoDup removed ∧
    (∀ c, c ∈ removed ↔ is_Some (blocks r !! c) ∧ is_pinned c r = false) ∧
    blocks r' = kept (λ c, is_pinned c r) (blocks r) ∧
    pins r' = pins r ∧ data r' = data r ∧ subscriptions r' = subscriptions r ∧
    events r' = (λ e, e ++ (RemovedBlock <$> removed)) <$> events r.
Proof.
  unfold cleanup, list_blocks. destruct (bs_list_ok (block_store r)) as (l & -> & Hl). cbn [map_err].
  assert (NoDup l) as Hnd by (rewrite Hl; apply NoDup_fst_map_to_list).
  assert (∀ c, c ∈ l ↔ is_Some (blocks r !! c)) as Hin.
  { intros c. rewrite Hl, list_elem_of_fmap. unfold blocks, is_Some. split.
    - intros ([c' b] & -> & Hx%elem_of_map_to_list). by exists b.
    - intros [b Hb]. exists (c, b). split; [done|]. by apply elem_of_map_to_list. }
  pose proof (cleanup_loop_spec l r Hnd) as Hc. destruct (cleanup_loop l r) as [removed r'].
  destruct Hc as (-> & Hbl & Hp & Hd & _ & _ & Hs & _ & He); [intros c; apply Hin|].
  assert (∀ c, c ∈ filter (λ c, is_pinned c r = false) l ↔ is_Some (blocks r !! c) ∧ is_pinned c r = false) as Hrem.
  { intros c. rewrite list_elem_of_filter, Hin. tauto. }
  eexists _, _. split; [done|]. split_and!; try done; [by apply NoDup_filter|].
  rewrite Hbl. apply map_eq. intros c. rewrite !lookup_kept.
  destruct (blocks r !! c) eqn:E; [|by destruct (negb _), (is_pinned c r)].
  case_bool_decide as Hx; [apply Hrem in Hx as [_ ->]; done|]. destruct (is_pinned c r) eqn:Hp2; [done|].
  destruct Hx. apply Hrem. by rewrite E.
Qed.

(** ** Waiting tasks

    The steps that the tasks of a repository take, in any order; a task may subscribe
    at any time.  [ending] says whether the repository may be shut down. *)
Inductive step (ending : bool) : Repo → Repo → Prop :=
  | step_put b r : step ending r (put_block (DecodeError := DecodeError) b r).2
  | step_subscribe session c peers local_only r : step ending r (subscribe (DecodeError := DecodeError) session c peers local_only r).2
  | step_remove c r : step ending r (remove_block (DecodeError := DecodeError) c r).2
  | step_pins g r : step ending r (set_pins g r)
  | step_data d r : step ending r (set_data d r)
  | step_channel r : step ending r (initialize_channel r)
  | step_shutdown r : ending = true → step ending r (shutdown r).

Record waiters_ok r : Prop := {
  wo_fresh : ∀ c x, x ∈ senders r c → (x < next_sender r)%nat;
  wo_one : ∀ c c' x, x ∈ senders r c → x ∈ senders r c' → c = c';
  wo_pending : ∀ c x, x ∈ senders r c → delivered r !! x = None;
  wo_sent : ∀ x b, delivered r !! x = Some b → (x < next_sender r)%nat;
}.

Lemma senders_delete r c c' (subs : gmap Cid (list nat)) :
  default [] (delete c subs !! c') = if decide (c = c') then [] else default [] (subs !! c').
Proof. case_decide as E; [subst; by rewrite lookup_delete_eq|by rewrite lookup_delete_ne]. Qed.
Lemma senders_insert c c' x (subs : gmap Cid (list nat)) :
  default [] (<[c := default [] (subs !! c) ++ [x]]> subs !! c') =
  default [] (subs !! c') ++ (if decide (c = c') then [x] else []).
Proof.
  case_decide as E; [subst; by rewrite lookup_insert_eq|]. by rewrite lookup_insert_ne, app_nil_r.
Qed.

Lemma deliver_pending b l d x : (deliver b l d !! x = d !! x ∧ x ∉ l) ∨ (deliver b l d !! x = Some b ∧ x ∈ l).
Proof. destruct (decide (x ∈ l)); [right; split; [by apply deliver_in|done]|left; split; [by apply deliver_other|done]]. Qed.

Lemma put_waiters b r : waiters_ok r → waiters_ok (put_block (DecodeError := DecodeError) b r).2.
Proof.
  intros [W2 W3 W4 W5]. pose proof (put_block_spec b r) as Hp. destruct (put_block b r) as [res r']. simpl.
  destruct Hp as (_ & Hb & _ & _ & _ & _ & Hn & Hs). destruct (blocks r !! b.1) eqn:E; destruct Hs as [Hs Hd].
  - split; unfold senders in *; rewrite ?Hs, ?Hb, ?Hd, ?Hn; eauto.
  - assert (∀ c, senders r' c = if decide (b.1 = c) then [] else senders r c) as Hsend.
    { intros c. unfold senders. rewrite Hs. by apply senders_delete. }
    split.
    + intros c x. rewrite Hsend, Hn. case_decide; [by intros ?%elem_of_nil|]. eauto.
    + intros c c' x. rewrite !Hsend. repeat case_decide; try by intros ?%elem_of_nil. { by intros _ ?%elem_of_nil. } eauto.
    + intros c x. rewrite Hsend, Hd. case_decide as Hne; [by intros ?%elem_of_nil|]. intros Hx.
      rewrite deliver_other; [by eapply W4|]. intros Hx'. by destruct (Hne (W3 _ _ _ Hx' Hx)).
    + intros x b'. rewrite Hd, Hn. destruct (deliver_pending b (senders r b.1) (delivered r) x) as [[-> _]|[-> Hx]]; eauto.
Qed.

Lemma subscribe_spec session c peers local_only r :
  online r = true → local_only = false → events r ≠ None →
  ∃ r', subscribe (DecodeError := DecodeError) session c peers local_only r = (Ok (next_sender r), r') ∧
    blocks r' = blocks r ∧ delivered r' = delivered r ∧ next_sender r' = S (next_sender r) ∧ pins r' = pins r ∧
    ∀ c', senders r' c' = senders r c' ++ (if decide (c = c') then [next_sender r] else []).
Proof.
  intros Ho -> He. unfold subscribe. rewrite Ho. cbn [orb negb events]. destruct (events r); [|done].
  eexists. split; [done|]. split_and!; try done. intros c'. apply senders_insert.
Qed.

Lemma subscribed r c (r1 := mkRepo (online r) (block_store r) (data r) (pins r) (events r)
      (<[c := default [] (subscriptions r !! c) ++ [next_sender r]]> (subscriptions r)) (delivered r) (S (next_sender r))) c' x :
  x ∈ senders r1 c' → x ∈ senders r c' ∨ (c' = c ∧ x = next_sender r).
Proof.
  unfold r1, senders. cbn [subscriptions]. rewrite senders_insert, elem_of_app. intros [?|Hx]; [by left|]. case_decide; [|by apply elem_of_nil in Hx].
  apply list_elem_of_singleton in Hx. by right.
Qed.
Lemma subscribe_waiters session c peers local_only r :
  waiters_ok r → waiters_ok (subscribe (DecodeError := DecodeError) session c peers local_only r).2.
Proof.
  intros [W2 W3 W4 W5]. unfold subscribe. destruct (local_only || negb (online r)); [done|].
  set (r1 := mkRepo _ _ _ _ _ _ _ _). cbn [events]. assert (waiters_ok r1) as [V2 V3 V4 V5].
  2:{ destruct (events r1); [|done]. by split. }
  split.
  - intros c' x [Hx|[_ ->]]%subscribed; simpl; [specialize (W2 _ _ Hx); lia|lia].
  - intros c1 c2 x [Hx|[-> ->]]%subscribed [Hy|[Ey Ey']]%subscribed; [eauto|apply W2 in Hx; lia|apply W2 in Hy; lia|done].
  - intros c' x [Hx|[_ ->]]%subscribed; simpl; [eauto|]. destruct (delivered r !! next_sender r) eqn:E; [|done]. apply W5 in E. lia.
  - intros x b Hx. simpl in *. specialize (W5 _ _ Hx). lia.
Qed.

Lemma remove_waiters c r : waiters_ok r → waiters_ok (remove_block (DecodeError := DecodeError) c r).2.
Proof.
  intros [W2 W3 W4 W5]. pose proof (remove_block_spec c r) as Hp. destruct (remove_block c r) as [res r']. simpl.
  destruct Hp as (_ & Hb & _ & _ & _ & Hn & Hs & Hd & _).
  split; unfold senders in *; rewrite ?Hs, ?Hb, ?Hd, ?Hn; eauto.
Qed.

Lemma senders_shutdown r c : senders (shutdown r) c = [].
Proof. unfold senders. simpl. by rewrite lookup_empty. Qed.
Lemma step_waiters ending r r' : step ending r r' → waiters_ok r → waiters_ok r'.
Proof.
  destruct 1 as [b r|session c peers local_only r|c r|g r|d r|r|r _]; intros W.
  - by apply put_waiters.
  - by apply subscribe_waiters.
  - by apply remove_waiters.
  - by destruct W.
  - by destruct W.
  - by destruct W.
  - split; [..|by destruct W]; intros *; rewrite ?senders_shutdown; by intros ?%elem_of_nil.
Qed.
Lemma steps_waiters ending r r' : rtc (step ending) r r' → waiters_ok r → waiters_ok r'.
Proof. induction 1 as [|x y z Hxy _ IH]; intros W; [done|]. by eapply IH, step_waiters. Qed.
Lemma new_waiters b : waiters_ok (new_raw b).
Proof. split; unfold senders; simpl; intros *; rewrite ?lookup_empty; try done; by intros ?%elem_of_nil. Qed.

(** A task that subscribed waits, with the block not there, or has its block. *)
Definition waits_for (c : Cid) (rx : nat) r : Prop := (rx ∈ senders r c ∧ blocks r !! c = None) ∨ ∃ b, delivered r !! rx = Some (c, b).
(** Its sender was dropped. *)
Definition cancelled (rx : nat) r : Prop := (rx < next_sender r)%nat ∧ (∀ c, rx ∉ senders r c) ∧ delivered r !! rx = None.

Lemma subscribe_fields session c peers local_only r : let r' := (subscribe (DecodeError := DecodeError) session c peers local_only r).2 in
  blocks r' = blocks r ∧ delivered r' = delivered r ∧ (next_sender r ≤ next_sender r')%nat ∧
  (∀ c' x, x ∈ senders r c' → x ∈ senders r' c') ∧ (∀ c' x, x ∈ senders r' c' → x ∈ senders r c' ∨ x = next_sender r).
Proof.
  cbv zeta. unfold subscribe. destruct (local_only || negb (online r)); [naive_solver|]. set (r1 := mkRepo _ _ _ _ _ _ _ _).
  assert (blocks r1 = blocks r ∧ delivered r1 = delivered r ∧ (next_sender r ≤ next_sender r1)%nat ∧
    (∀ c' x, x ∈ senders r c' → x ∈ senders r1 c') ∧ (∀ c' x, x ∈ senders r1 c' → x ∈ senders r c' ∨ x = next_sender r)) as H.
  { split_and!; [done|done|simpl; lia| |].
    - intros c' x Hx. unfold senders, r1. cbn [subscriptions]. rewrite senders_insert. apply elem_of_app. by left.
    - intros c' x [?|[_ ?]]%subscribed; auto. }
  cbn [events]. by destruct (events r).
Qed.

Lemma step_waits r r' c rx : waiters_ok r → step false r r' → waits_for c rx r → waits_for c rx r'.
Proof.
  intros W Hstep Hw. destruct Hstep as [[c' b] r|session c' peers local_only r|c' r|g r|d r|r|r ?]; try done.
  - pose proof (put_block_spec (c', b) r) as Hp. destruct (put_block (c', b) r) as [res r']. cbn [fst snd] in *.
    destruct Hp as (_ & Hb & _ & _ & _ & _ & _ & Hs). destruct (blocks r !! c') eqn:Ec; destruct Hs as [Hs Hd].
    + unfold waits_for, senders in *. by rewrite Hs, Hd, Hb.
    + unfold waits_for in *. rewrite Hd, Hb. unfold senders at 1. rewrite Hs, senders_delete by done.
      destruct (deliver_pending (c', b) (senders r c') (delivered r) rx) as [[E Hn]|[E Hin]].
      * destruct Hw as [[Hw Hnone]|[b' Hw]]; [|right; exists b'; exact (eq_trans E Hw)]. left. assert (c' ≠ c) by (by intros ->).
        rewrite decide_False, lookup_insert_ne by done. done.
      * right. destruct Hw as [[Hw _]|[b' Hw]].
        -- rewrite <-(wo_one _ W _ _ _ Hin Hw). exists b. exact E.
        -- by rewrite (wo_pending _ W _ _ Hin) in Hw.
  - destruct (subscribe_fields session c' peers local_only r) as (Hb & Hd & _ & Hs & _). unfold waits_for. rewrite Hb, Hd.
    destruct Hw as [[Hw ?]|Hw]; [left|by right]. split; [by apply Hs|done].
  - pose proof (remove_block_spec c' r) as Hp. destruct (remove_block c' r) as [res r']. simpl in *.
    destruct Hp as (_ & Hb & _ & _ & _ & _ & Hs & Hd & _). unfold waits_for, senders in *. rewrite Hs, Hd, Hb.
    destruct Hw as [[Hw Hn]|Hw]; [left|by right]. split; [done|]. destruct (is_pinned c' r); [done|].
    destruct (decide (c' = c)) as [->|]; [by rewrite lookup_delete_eq|by rewrite lookup_delete_ne].
Qed.
Lemma steps_waits r r' c rx : rtc (step false) r r' → waiters_ok r → waits_for c rx r → waiters_ok r' ∧ waits_for c rx r'.
Proof. induction 1 as [|x y z Hxy _ IH]; intros W Hw; [done|]. apply IH; [by eapply step_waiters|by eapply step_waits]. Qed.

Lemma step_cancelled ending r r' rx : step ending r r' → cancelled rx r → cancelled rx r'.
Proof.
  intros Hstep (H1 & H2 & H3). destruct Hstep as [[c' b] r|session c' peers local_only r|c' r|g r|d r|r|r _]; try done.
  - pose proof (put_block_spec (c', b) r) as Hp. destruct (put_block (c', b) r) as [res r']. cbn [fst snd] in *.
    destruct Hp as (_ & _ & _ & _ & _ & _ & Hn & Hs). destruct (blocks r !! c'); destruct Hs as [Hs Hd].
    + unfold cancelled, senders in *. by rewrite Hs, Hd, Hn.
    + unfold cancelled. rewrite Hd, Hn. split_and!; [done| |].
      * intros c. unfold senders. rewrite Hs, senders_delete by done. case_decide; [apply not_elem_of_nil|apply H2].
      * rewrite deliver_other; [done|apply H2].
  - destruct (subscribe_fields session c' peers local_only r) as (_ & Hd & Hn & _ & Hs). split_and!; [lia| |by rewrite Hd].
    intros c [Hx|Hx]%Hs; [by destruct (H2 c)|lia].
  - pose proof (remove_block_spec c' r) as Hp. destruct (remove_block c' r) as [res r']. simpl in *.
    destruct Hp as (_ & _ & _ & _ & _ & Hn & Hs & Hd & _). unfold cancelled, senders in *. by rewrite Hs, Hd, Hn.
  - split_and!; [done| |done]. intros c. rewrite senders_shutdown. apply not_elem_of_nil.
Qed.

Lemma steps_cancelled ending r r' rx : rtc (step ending) r r' → cancelled rx r → cancelled rx r'.
Proof. induction 1 as [|x y z Hxy _ IH]; [done|]. intros Hc. by eapply IH, step_cancelled. Qed.

(** After steps with shutdowns among them. *)
Lemma step_cases r r' : step true r r' → step false r r' ∨ r' = shutdown r.
Proof. destruct 1; [left; constructor..|by right]. Qed.
Lemma steps_waits_or_cancelled r r' c rx : rtc (step true) r r' → waiters_ok r → waits_for c rx r →
  waits_for c rx r' ∨ cancelled rx r' ∧ ∃ r0, rtc (step true) r r0 ∧ rtc (step true) (shutdown r0) r'.
Proof.
  intros Hr W Hw. induction Hr as [r|r y z Hxy Hyz IH]; [by left|]. assert (waiters_ok y) as Wy by by eapply step_waiters.
  assert (waits_for c rx y ∨ y = shutdown r ∧ cancelled rx y) as [Hy|[-> Hy]].
  { destruct (step_cases _ _ Hxy) as [Hs| ->]; [left; by apply (step_waits r y c rx W)|]. destruct Hw as [[Hs Hn]|Hd]; [right|by left; right].
    split; [done|]. split_and!; [exact (wo_fresh _ W _ _ Hs)| |exact (wo_pending _ W _ _ Hs)]. intros c'. rewrite senders_shutdown. apply not_elem_of_nil. }
  - destruct (IH Wy Hy) as [?|[? (r0 & ? & ?)]]; [by left|]. right. split; [done|]. exists r0. split; [by eapply rtc_l|done].
  - right. split; [|exists r; split; [apply rtc_refl|done]]. by eapply steps_cancelled.
Qed.
End repo.
End RepoProofs.
