(* ===== verification/RepoPins.v ===== *)
(** * Pins of whole DAGs and names in a repository *)
From stdpp Require Import base gmap list strings.
From Stdlib Require Import Strings.Byte.
From S2P Require Import Prelude Protobuf UnixFsPb Path DirBuilder DirIter UnixFsDir DagResolve PinStore PinProofs Refs RefsProofs Repo RepoProofs.

Module RepoPins.
Import PinDocument PinProofs Repo RepoProofs.
Section pins.
  Context `{bl : BlockStoreLaws} {pc : PathCodec} {cc : CidCodec} {qp : QuickProtobuf} {cl : CidLayout} {pk : PinCodec}.
  Context {it : Refs.IpldIter} {ho : HashOrder}.
  Context {DecodeError : Type} (decode : Cid → list byte → result DagResolve.Ipld DecodeError).
  Implicit Types r : Repo.
  Implicit Types network : Cid → option (list byte).
  Notation RepoError := (RepoError (DecodeError := DecodeError)).
  Notation decode' := (λ c b, map_err (DecodeFailed (DecodeError := DecodeError)) (decode c b)).

(** ** Documents in the store and their links *)
Definition doc_links r (c : Cid) (links : list (option string * Cid)) : Prop :=
  ∃ b i, blocks r !! c = Some b ∧ decode b.1 b.2 = Ok i ∧ Refs.ipld_links c i = Done links.
Definition child r (c c' : Cid) : Prop := ∃ links, doc_links r c links ∧ c' ∈ links.*2.

(** The documents [U] are in the store, [root] among them, with what they link to;
    [root] does not reach itself, as links are hashes of what they link to. *)
Record local_dag r (root : Cid) (U : gset Cid) : Prop := {
  ld_root : root ∈ U;
  ld_closed : ∀ c, c ∈ U → ∃ links, doc_links r c links ∧ ∀ c', c' ∈ links.*2 → c' ∈ U;
  ld_acyclic : ¬ tc (child r) root root;
  ld_size : (Z.of_nat (size U) ≤ i32_max)%Z;
}.

Section walk.
  Context (network : Cid → option (list byte)) (opts : Refs.IpldRefs) (r : Repo).
  Notation has_links := (RefsProofs.has_links decode' (get_block network [] false) (get_block_now (DecodeError := DecodeError)) opts r).
  Notation links_to := (RefsProofs.links_to decode' (get_block network [] false) (get_block_now (DecodeError := DecodeError)) opts r).

Lemma doc_has_links c links : doc_links r c links → has_links c links.
Proof.
  intros (b & i & Hb & Hd & Hi). exists b, i. rewrite Hd. split_and!; [|done|done].
  unfold RefsProofs.loads, get_block. rewrite get_block_now_spec, Hb. by destruct (Refs.download_blocks opts).
Qed.
Lemma links_to_child root U c c' : local_dag r root U → c ∈ U → links_to c c' ↔ child r c c'.
Proof.
  intros HU Hc. destruct (ld_closed _ _ _ HU c Hc) as (links & Hl & _). split.
  - intros (links' & Hl' & Hin). rewrite (RefsProofs.has_links_inj _ _ _ _ _ _ _ _ Hl' (doc_has_links _ _ Hl)) in Hin. by exists links.
  - intros (links' & Hl' & Hin). exists links'. split; [by apply doc_has_links|done].
Qed.
Lemma child_closed root U c c' : local_dag r root U → c ∈ U → child r c c' → c' ∈ U.
Proof.
  intros HU Hc (links & Hl & Hin). destruct (ld_closed _ _ _ HU c Hc) as (links' & Hl' & Hin').
  apply Hin'. by rewrite (RefsProofs.has_links_inj _ _ _ _ _ _ _ _ (doc_has_links _ _ Hl') (doc_has_links _ _ Hl)).
Qed.
Lemma rtc_links_child root U c c' : local_dag r root U → c ∈ U → rtc links_to c c' ↔ rtc (child r) c c'.
Proof.
  intros HU Hc. split; intros Hr; induction Hr as [|x y z Hxy _ IH]; try done.
  - apply (links_to_child root U) in Hxy; [|done|done]. eapply rtc_l; [done|]. apply IH. by eapply child_closed.
  - eapply rtc_l; [by eapply links_to_child|]. apply IH. by eapply child_closed.
Qed.
Lemma reach_closed root U c : local_dag r root U → tc (child r) root c → c ∈ U.
Proof.
  intros HU Hr. pose proof (ld_root _ _ _ HU) as H0. pose proof (λ c c', child_closed root U c c' HU) as Hcl. clear HU.
  induction Hr as [x y Hxy|x y z Hxy _ IH]; eauto.
Qed.

(** The references that a pin store pulls. *)
Lemma references_local fuel root U b ipld :
  RefsProofs.opts_ok opts → local_dag r root U → (size U < fuel)%nat →
  blocks r !! root = Some b → decode b.1 b.2 = Ok ipld →
  ∃ cs, references decode fuel network opts root ipld r = Done (local_refs r cs, Done r) ∧ NoDup cs ∧
    (vec_len cs ≤ i32_max)%Z ∧ ∀ c, c ∈ cs ↔ tc (child r) root c.
Proof.
  intros Ho HU Hf Hb Hd. destruct (ld_closed _ _ _ HU root (ld_root _ _ _ HU)) as (links & Hl & HlU).
  pose proof Hl as (b' & i' & Hb' & Hd' & Hi). rewrite Hb in Hb'. injection Hb' as <-. rewrite Hd in Hd'. injection Hd' as <-.
  destruct (RefsProofs.refs_of_resolved_walks decode' (get_block network [] false) (get_block_now (DecodeError := DecodeError))
    opts r U root ipld links fuel) as (es & Hr & Hnd & Hes); try done.
  { intros c Hc. destruct (ld_closed _ _ _ HU c Hc) as (links' & Hl' & Hin). exists links'. split; [by apply doc_has_links|done]. }
  { pose proof (ld_size _ _ _ HU). unfold i32_max, usize_max in *. lia. }
  assert (∀ c, c ∈ Refs.destination <$> es ↔ tc (child r) root c) as Hreach.
  { intros c. rewrite Hes. split.
    - intros (c0 & Hc0 & Hr0). apply (rtc_links_child root U) in Hr0; [|done|by apply HlU].
      apply (tc_rtc_r _ c0); [|done]. apply tc_once. by exists links.
    - intros Ht. assert (∃ c0, child r root c0 ∧ rtc (child r) c0 c) as (c0 & (links' & Hl' & Hin) & Hr0).
      { destruct Ht as [x y Hxy|x y z Hxy Hyz]; [by exists y|]. exists y. split; [done|]. by apply tc_rtc. }
      rewrite (RefsProofs.has_links_inj _ _ _ _ _ _ _ _ (doc_has_links _ _ Hl') (doc_has_links _ _ Hl)) in Hin.
      exists c0. split; [done|]. apply (rtc_links_child root U); [done|by apply HlU|done]. }
  exists (Refs.destination <$> es). split_and!; [|done| |done].
  - unfold references. rewrite Hr. cbn [mbind outcome_bind mret outcome_ret]. unfold Refs.destinations, RefsProofs.found, local_refs.
    simpl. by rewrite <-!list_fmap_compose.
  - unfold vec_len. pose proof (ld_size _ _ _ HU). etrans; [|done]. apply inj_le.
    rewrite <-(size_list_to_set (C := gset Cid)) by done. apply subseteq_size. intros c Hc%elem_of_list_to_set%Hreach. by eapply reach_closed.
Qed.
End walk.

(** ** Pinning and unpinning a DAG *)
Definition pinned_doc (root : Cid) (cs : list Cid) (c : Cid) (d : PinDocument) : PinDocument :=
  if decide (c = root) then recursively (vec_len cs) d else if decide (c ∈ cs) then add_label root d else d.
Definition unpinned_doc (root : Cid) (cs : list Cid) (c : Cid) (d : PinDocument) : PinDocument :=
  if decide (c = root) then not_recursively d else if decide (c ∈ cs) then drop_label root d else d.

Lemma root_block r root U : local_dag r root U → ∃ b ipld, blocks r !! root = Some b ∧ decode b.1 b.2 = Ok ipld.
Proof. intros HU. destruct (ld_closed _ _ _ HU root (ld_root _ _ _ HU)) as (links & (b & i & Hb & Hd & _) & _). by exists b, i. Qed.
Lemma get_block_local network peers local_only c r b :
  blocks r !! c = Some b → get_block (DecodeError := DecodeError) network peers local_only c r = (Ok b, r).
Proof. intros Hb. unfold get_block. by rewrite get_block_now_spec, Hb. Qed.

Lemma insert_pin_dag fuel network root U local_only r :
  pins_ok (pins r) → local_dag r root U → (size U < fuel)%nat → (∀ n, recursive (pin_of (pins r) root) ≠ Count n) →
  ∃ cs g', insert_pin decode fuel network root true local_only r = Done (Ok tt, set_pins g' r) ∧ NoDup cs ∧
    (∀ c, c ∈ cs ↔ tc (child r) root c) ∧ changed (pinned_doc root cs) (pins r) g'.
Proof.
  intros Hp HU Hf Hn. destruct (root_block _ _ _ HU) as (b & ipld & Hb & Hd). unfold insert_pin.
  rewrite (get_block_local _ _ _ _ _ _ Hb). cbn [negb]. rewrite Hd.
  destruct (references_local network pin_opts r fuel root U b ipld) as (cs & Hr & Hnd & Hlen & Hcs); try done.
  rewrite Hr. cbn [mbind outcome_bind].
  destruct (insert_recursive_pin_spec (RefsError := Refs.IpldRefsError (Error := RepoError)) root cs r (pins r)) as (g' & Hi & Hg'); try done.
  { rewrite Hcs. apply (ld_acyclic _ _ _ HU). }
  rewrite Hi. by exists cs, g'.
Qed.
Lemma remove_pin_dag fuel network root U n r :
  pins_ok (pins r) → local_dag r root U → (size U < fuel)%nat → recursive (pin_of (pins r) root) = Count n →
  (∀ c, tc (child r) root c → label root ∈ indirect_by (pin_of (pins r) c)) →
  ∃ cs g', remove_pin decode fuel network root true r = Done (Ok tt, set_pins g' r) ∧ NoDup cs ∧
    (∀ c, c ∈ cs ↔ tc (child r) root c) ∧ changed (unpinned_doc root cs) (pins r) g'.
Proof.
  intros Hp HU Hf Hn Hl. destruct (root_block _ _ _ HU) as (b & ipld & Hb & Hd). unfold remove_pin. cbn [negb].
  rewrite get_block_now_spec, Hb, Hd.
  destruct (references_local network unpin_opts r fuel root U b ipld) as (cs & Hr & Hnd & Hlen & Hcs); try done.
  rewrite Hr. cbn [mbind outcome_bind].
  destruct (remove_recursive_pin_spec (RefsError := Refs.IpldRefsError (Error := RepoError)) root cs r (pins r) n) as (g' & Hi & Hg'); try done.
  { rewrite Hcs. apply (ld_acyclic _ _ _ HU). }
  { intros c Hc. by apply Hl, Hcs. }
  rewrite Hi. by exists cs, g'.
Qed.

Lemma local_dag_pins r g root U : local_dag r root U → local_dag (set_pins g r) root U.
Proof. by intros [H1 H2 H3 H4]. Qed.

Lemma unpin_pin root cs c d :
  doc_ok c d → (c = root → recursive d = Not ∧ direct d = false) → (c ∈ cs → label root ∉ indirect_by d) →
  unpinned_doc root cs c (pinned_doc root cs c d) = d.
Proof.
  intros Hd Hr Hl. unfold unpinned_doc, pinned_doc. case_decide as E.
  - destruct (Hr E) as [H1 H2]. destruct d as [v di re cv l]; simpl in *. by subst.
  - case_decide; [|done]. eapply drop_add_label; [done|auto].
Qed.

(** The pins of a DAG hold its blocks. *)
Lemma pinned_after root cs g g' c :
  changed (pinned_doc root cs) g g' → pins_ok g → c = root ∨ c ∈ cs → PinStore.is_pinned c g' = true.
Proof.
  intros [Hok Hc] Hg Hin. rewrite is_pinned_spec by done. rewrite Hc. unfold pinned_doc. case_decide as E.
  - unfold can_remove. simpl. done.
  - rewrite decide_True by naive_solver. by rewrite (labelled_kept root) by apply add_label_elem.
Qed.
Lemma pinned_kept root cs g g' c :
  changed (pinned_doc root cs) g g' → pins_ok g → PinStore.is_pinned c g = true → PinStore.is_pinned c g' = true.
Proof.
  intros Hch Hg Hp. destruct (decide (c = root ∨ c ∈ cs)); [by eapply pinned_after|]. destruct Hch as [Hok Hc].
  rewrite is_pinned_spec, Hc in * by done. unfold pinned_doc. by rewrite !decide_False by tauto.
Qed.

(** ** Names *)
Lemma str_bytes_inj s s' : str_bytes s = str_bytes s' → s = s'.
Proof. intros E. rewrite <-(str_of_bytes_str_bytes s), E. apply str_of_bytes_str_bytes. Qed.
Lemma ipns_key_inj p p' : ipns_key p = ipns_key p' → p = p'.
Proof.
  unfold ipns_key. intros E%str_bytes_inj. simpl in E. injection E as E.
  assert (peer_to_base58 p = peer_to_base58 p') as E' by exact E.
  pose proof (peer_from_to_base58 p) as H. rewrite E', peer_from_to_base58 in H. by injection H.
Qed.
End pins.
End RepoPins.
