(* ===== verification/RepoClaims.v ===== *)
(** * What the repository guarantees *)
From stdpp Require Import base gmap list strings.
From Stdlib Require Import Strings.Byte.
From S2P Require Import Prelude Protobuf UnixFsPb PbInstance Path DirBuilder DirIter UnixFsDir DagResolve PinStore PinProofs Refs RefsProofs Repo RepoProofs RepoPins.

Module RepoClaims.
Import PinDocument PinProofs Repo RepoProofs RepoPins.
Section claims.
  Context `{bl : BlockStoreLaws} {pc : PathCodec} {cc : CidCodec} {qp : QuickProtobuf} {cl : CidLayout} {pk : PinCodec}.
  Context {it : Refs.IpldIter} {ho : HashOrder}.
  Context {DecodeError : Type} (decode : Cid → list byte → result DagResolve.Ipld DecodeError).
  Implicit Types r : Repo.

(** C3: pinning a DAG that is in the store recursively succeeds, when its root is not
    yet pinned recursively; a clean-up after it
    keeps every block that the root reaches, and every block that was pinned before,
    and removes nothing but blocks that are neither. *)
Theorem pinned_dag_survives fuel network root U local_only r :
  pins_ok (pins r) → local_dag decode r root U → (size U < fuel)%nat → (∀ n, recursive (pin_of (pins r) root) ≠ Count n) →
  ∃ r1 removed r2,
    insert_pin decode fuel network root true local_only r = Done (Ok tt, r1) ∧
    cleanup (DecodeError := DecodeError) r1 = (Ok removed, r2) ∧
    (∀ c, c = root ∨ tc (child decode r) root c ∨ is_pinned c r = true → is_pinned c r2 = true ∧ blocks r2 !! c = blocks r !! c) ∧
    (∀ c, c ∈ removed ↔ is_Some (blocks r !! c) ∧ is_pinned c r1 = false).
Proof.
  intros Hp HU Hf Hn. destruct (insert_pin_dag decode fuel network root U local_only r Hp HU Hf Hn) as (cs & g' & Hi & _ & Hcs & Hch).
  destruct (cleanup_spec (DecodeError := DecodeError) (set_pins g' r)) as (removed & r2 & Hc & _ & Hrem & Hb & Hpi & _).
  exists (set_pins g' r), removed, r2. split; [done|]. split; [done|]. split; [|done]. intros c Hin.
  assert (is_pinned c (set_pins g' r) = true) as Hpin.
  { destruct Hin as [->|[Hin%Hcs|Hin]].
    - eapply pinned_after; eauto.
    - eapply pinned_after; eauto.
    - eapply pinned_kept; eauto. }
  split; [unfold is_pinned in *; by rewrite Hpi|]. by rewrite Hb, lookup_kept, Hpin.
Qed.

(** C21: pinning a DAG recursively and unpinning it again gives the repository back
    as it was, if its root was pinned neither recursively nor directly and none of its
    blocks was pinned indirectly by that root. *)
Theorem pin_unpin_roundtrip fuel network root U local_only r :
  pins_ok (pins r) → local_dag decode r root U → (size U < fuel)%nat →
  recursive (pin_of (pins r) root) = Not → direct (pin_of (pins r) root) = false →
  (∀ c, tc (child decode r) root c → label root ∉ indirect_by (pin_of (pins r) c)) →
  ∃ r1, insert_pin decode fuel network root true local_only r = Done (Ok tt, r1) ∧
    remove_pin decode fuel network root true r1 = Done (Ok tt, r).
Proof.
  intros Hp HU Hf Hn Hd Hl.
  destruct (insert_pin_dag decode fuel network root U local_only r Hp HU Hf) as (cs & g' & Hi & _ & Hcs & [Hok Hch]); [by rewrite Hn|].
  assert (root ∉ cs) as Hroot by (rewrite Hcs; apply (ld_acyclic _ _ _ _ HU)).
  destruct (remove_pin_dag decode fuel network root U (vec_len cs) (set_pins g' r)) as (cs' & g'' & Hr & _ & Hcs' & [Hok' Hch']).
  - done.
  - by apply local_dag_pins.
  - done.
  - simpl. rewrite Hch. unfold pinned_doc. by rewrite decide_True.
  - intros c Hc. simpl. rewrite Hch. unfold pinned_doc. apply Hcs in Hc. rewrite decide_False by (by intros ->).
    rewrite decide_True by done. apply add_label_elem.
  - exists (set_pins g' r). split; [done|]. rewrite Hr. do 2 f_equal.
    assert (g'' = pins r) as ->; [|by destruct r]. apply pins_ext; [done|done|]. intros c. rewrite Hch'. simpl. rewrite Hch.
    assert (∀ d, unpinned_doc root cs' c d = unpinned_doc root cs c d) as ->.
    { intros d. unfold unpinned_doc. assert (c ∈ cs' ↔ c ∈ cs) as Hiff by (by rewrite Hcs, Hcs').
      destruct (decide (c ∈ cs)); [rewrite (decide_True (P := c ∈ cs')) by tauto|rewrite (decide_False (P := c ∈ cs')) by tauto]; done. }
    apply unpin_pin; [by apply pin_of_ok|by intros ->|]. intros Hc. by apply Hl, Hcs.
Qed.

(** A clean-up removes exactly the blocks that are in the store and not pinned,
    each once, announces each removal, and leaves everything else alone; a pinned
    block cannot be removed. *)
Theorem cleanup_removes_unpinned r :
  (∃ removed r', cleanup (DecodeError := DecodeError) r = (Ok removed, r') ∧ NoDup removed ∧
    (∀ c, c ∈ removed ↔ is_Some (blocks r !! c) ∧ is_pinned c r = false) ∧
    (∀ c, blocks r' !! c = if is_pinned c r then blocks r !! c else None) ∧
    pins r' = pins r ∧ data r' = data r ∧ subscriptions r' = subscriptions r ∧
    events r' = (λ e, e ++ (RemovedBlock <$> removed)) <$> events r) ∧
  (∀ c, is_pinned c r = true → remove_block (DecodeError := DecodeError) c r = (Err BlockPinned, r)).
Proof.
  split.
  - destruct (cleanup_spec (DecodeError := DecodeError) r) as (removed & r' & ? & ? & ? & Hb & ? & ? & ? & ?).
    exists removed, r'. split_and!; try done. intros c. by rewrite Hb, lookup_kept.
  - intros c Hc. unfold remove_block. by rewrite Hc.
Qed.

(** C22: a task that finds no block and subscribes at once, while other tasks look and
    subscribe as they like, is not forgotten: as long as the repository is not shut
    down it has the block it asked for, or the block is not in the store and the next
    [put_block] of it hands it over.  When the repository was shut down in between
    before the block came, the task was cancelled and is never handed a block. *)
Theorem waiter_served b0 session c peers r rx r1 :
  rtc (step (DecodeError := DecodeError) true) (new_raw b0) r →
  get_block_now (DecodeError := DecodeError) c r = Ok None →
  subscribe (DecodeError := DecodeError) session c peers false r = (Ok rx, r1) →
  let served r2 := (∃ b, delivered r2 !! rx = Some (c, b)) ∨
    (blocks r2 !! c = None ∧ ∀ b, delivered (put_block (DecodeError := DecodeError) (c, b) r2).2 !! rx = Some (c, b)) in
  (∀ r2, rtc (step (DecodeError := DecodeError) false) r1 r2 → served r2) ∧
  (∀ r2, rtc (step (DecodeError := DecodeError) true) r1 r2 → served r2 ∨
    (∃ r0, rtc (step (DecodeError := DecodeError) true) r1 r0 ∧ rtc (step (DecodeError := DecodeError) true) (shutdown r0) r2) ∧
    ∀ r3, rtc (step (DecodeError := DecodeError) true) r2 r3 → delivered r3 !! rx = None).
Proof.
  intros Hr Hn Hs served. assert (waiters_ok r) as W by (by eapply steps_waiters, new_waiters).
  rewrite get_block_now_spec in Hn. injection Hn as Hn.
  assert (online r = true ∧ events r ≠ None) as [Ho He].
  { unfold subscribe in Hs. destruct (online r); [|done]. split; [done|]. cbn [orb negb events] in Hs. by destruct (events r). }
  destruct (subscribe_spec (DecodeError := DecodeError) session c peers false r Ho eq_refl He) as (r1' & E & Hb & Hd & _ & _ & Hse).
  rewrite E in Hs. injection Hs as <- <-.
  pose proof (subscribe_waiters (DecodeError := DecodeError) session c peers false r W) as W1. rewrite E in W1. simpl in W1.
  assert (waits_for c (next_sender r) r1') as Hw.
  { left. rewrite Hse, decide_True, Hb by done. split; [|done]. apply elem_of_app. right. by apply list_elem_of_singleton. }
  assert (∀ r2, waits_for c (next_sender r) r2 → served r2) as Hserved.
  { intros r2 [[Hx Hx']|Hx]; [right|by left]. split; [done|]. intros b. pose proof (put_block_spec (DecodeError := DecodeError) (c, b) r2) as Hput.
    destruct (put_block (c, b) r2) as [res r3]. destruct Hput as (_ & _ & _ & _ & _ & _ & _ & Hput). cbn [fst] in Hput.
    rewrite Hx' in Hput. destruct Hput as [_ Hdel]. simpl. rewrite Hdel. by apply deliver_in. }
  split.
  - intros r2 Hr2. apply Hserved. by destruct (steps_waits r1' r2 c (next_sender r) Hr2 W1 Hw).
  - intros r2 Hr2. destruct (steps_waits_or_cancelled r1' r2 c (next_sender r) Hr2 W1 Hw) as [?|[Hc H0]]; [left; by apply Hserved|]. right.
    split; [done|]. intros r3 Hr3. assert (cancelled (next_sender r) r3) as (_ & _ & H3); [by eapply steps_cancelled|done].
Qed.

(** When the block is put between the look at the store and the subscription, the
    task is not woken by that block nor by any later [put_block] of it. *)
Theorem lost_wakeup session c b peers r :
  waiters_ok r → get_block_now (DecodeError := DecodeError) c r = Ok None → online r = true → events r ≠ None →
  ∃ rx r2, subscribe (DecodeError := DecodeError) session c peers false (put_block (DecodeError := DecodeError) (c, b) r).2 = (Ok rx, r2) ∧
    blocks r2 !! c = Some (c, b) ∧
    ∀ puts : list (list byte),
      delivered (foldl (λ r b, (put_block (DecodeError := DecodeError) (c, b) r).2) r2 puts) !! rx = None.
Proof.
  intros W Hn Ho He. rewrite get_block_now_spec in Hn. injection Hn as Hn.
  pose proof (put_waiters (DecodeError := DecodeError) (c, b) r W) as W1.
  pose proof (put_block_spec (DecodeError := DecodeError) (c, b) r) as Hp. destruct (put_block (c, b) r) as [res r1]. cbn [fst snd] in *.
  rewrite Hn in Hp. destruct Hp as (_ & Hb & _ & _ & He1 & Ho1 & _ & _).
  destruct (subscribe_spec (DecodeError := DecodeError) session c peers false r1) as (r2 & E & Hb2 & Hd2 & _); [congruence|done|congruence|].
  exists (next_sender r1), r2. split; [done|]. assert (blocks r2 !! c = Some (c, b)) as Hc by (by rewrite Hb2, Hb, lookup_insert_eq).
  split; [done|]. assert (delivered r2 !! next_sender r1 = None) as Hdel.
  { rewrite Hd2. destruct (delivered r1 !! next_sender r1) eqn:Ex; [|done]. apply (wo_sent _ W1) in Ex. lia. }
  clear -bl Hc Hdel. intros puts. revert r2 Hc Hdel. induction puts as [|b' puts IH]; intros r2 Hc Hdel; [done|]. simpl.
  pose proof (put_block_spec (DecodeError := DecodeError) (c, b') r2) as Hp. destruct (put_block (c, b') r2) as [res r3]. cbn [fst snd] in *.
  rewrite Hc in Hp. destruct Hp as (_ & Hb & _ & _ & _ & _ & _ & _ & Hd). apply IH; congruence.
Qed.

(** Every pin store that the operations reach from the empty one can be read:
    listing gives each pinned identifier once, with its mode and without an error,
    and a query of a pinned identifier answers with a kind of that mode. *)
Theorem pins_readable {RefsError S : Type} g :
  rtc (pin_step (RefsError := RefsError) (S := S)) ∅ g →
  (∃ l, PinStore.list_pins (RefsError := RefsError) None g = Ok <$> l ∧ NoDup l.*1 ∧
    ∀ c m, (c, m) ∈ l ↔ PinStore.is_pinned c g = true ∧ mode (pin_of g c) = Some m) ∧
  (∀ c, PinStore.is_pinned c g = true →
    ∃ kind, PinStore.query_one (RefsError := RefsError) None g c = Done (Ok (c, kind)) ∧ mode (pin_of g c) = Some (kind_mode kind)).
Proof.
  intros Hg%pin_steps_ok. split; [by apply list_pins_spec|]. intros c. by apply query_one_spec.
Qed.

(** A name that is put is got back as the same path, names of other peers and
    the rest of the repository are not affected, and removing it makes it unknown. *)
Theorem ipns_roundtrip p (path : Path.IpfsPath) r :
  Path.path_ok path → is_utf8 (str_bytes (Path.to_string path)) = true →
  get_ipns (DecodeError := DecodeError) p (put_ipns p path r) = Ok (Some path) ∧
  get_ipns (DecodeError := DecodeError) p (remove_ipns p (put_ipns p path r)) = Ok None ∧
  (∀ p', p' ≠ p → get_ipns (DecodeError := DecodeError) p' (put_ipns p path r) = get_ipns p' r) ∧
  block_store (put_ipns p path r) = block_store r ∧ pins (put_ipns p path r) = pins r.
Proof.
  intros Hp Hu. unfold get_ipns, put_ipns, remove_ipns. cbn [data set_data]. split_and!; try done.
  - rewrite lookup_insert_eq, Utf8Lossy.from_utf8_lossy_str by done. by rewrite Path.from_to_string.
  - by rewrite lookup_delete_eq.
  - intros p' Hne. rewrite lookup_insert_ne; [done|]. by intros ->%ipns_key_inj.
Qed.
End claims.
End RepoClaims.

Module RefsClaims.
Import Refs RefsProofs.
Section claims.
  Context `{cl : CidLayout} {it : IpldIter} {Error Store : Type}.
  Context (decode : Cid → list byte → result DagResolve.Ipld Error).
  Context (get_block : Cid → Store → result Block Error * Store).
  Context (get_block_now : Cid → Store → result (option Block) Error).

(** C36: the walk over unique references from a document ends when the links stay
    within documents [U] that all load, whatever cycles the links make: one step more
    than there are documents suffices.  It yields no error, and exactly one edge to
    every document that a chain of links reaches; with a depth of zero it yields
    nothing. *)
Theorem refs_walk_complete s U root ipld links fuel :
  closed decode get_block get_block_now (mkRefs None true true) s U →
  ipld_links root ipld = Done links → (∀ c, c ∈ links.*2 → c ∈ U) →
  (size U < fuel)%nat → (Z.of_nat (size U) < usize_max)%Z →
  (∃ es : list Edge, iplds_refs decode get_block get_block_now fuel [(root, ipld)] None true s =
      Done ((λ e, (Ok e, s)) <$> es, Done s) ∧
    NoDup (destination <$> es) ∧
    ∀ c, c ∈ destination <$> es ↔
      ∃ c0, c0 ∈ links.*2 ∧ rtc (links_to decode get_block get_block_now (mkRefs None true true) s) c0 c) ∧
  iplds_refs decode get_block get_block_now fuel [(root, ipld)] (Some 0%Z) true s = Done ([], Done s).
Proof.
  intros HU Hi Hl Hf Hm. split; [|done].
  destruct (refs_of_resolved_walks decode get_block get_block_now (mkRefs None true true) s U root ipld links fuel)
    as (es & Hr & Hnd & Hes); try done.
  exists es. split; [|done]. unfold iplds_refs. unfold refs_of_resolved in Hr. rewrite Hr. cbn [mbind outcome_bind mret outcome_ret found].
  f_equal. clear. induction es as [|e es IH]; [done|]. cbn [found fst snd fmap list_fmap only_loading] in *. by rewrite IH.
Qed.
End claims.
End RefsClaims.

(** ** Concrete runs

    Identifiers are bytes, written as two letters each; a document is the list of
    the identifiers, of one byte, that it links to. *)
Module RepoWitness.
Import Slashes PathWitness PinDocument PinProofs Repo RepoProofs RepoPins RepoClaims.
#[local] Existing Instance bytes_ids.
#[local] Existing Instance bytes_cids.
#[local] Existing Instance WireFormat.wire_format.
#[local] Existing Instance key_order.

#[local] Existing Instance MemBlockStore.mem_block_store.
#[local] Existing Instance MemBlockStore.mem_block_store_laws.

Program Definition two_layout : CidLayout := {|
  cid_version := λ c, if decide (take 2 c = [x01; x70]) then V1 else V0;
  cid_codec := λ _, 112%Z;
  cid_hash := λ c, if decide (take 2 c = [x01; x70]) then drop 2 c else c;
|}.
Next Obligation. done. Qed.
Next Obligation. done. Qed.
Next Obligation.
  intros c. cbn [cid_to_bytes bytes_cids]. destruct (decide (take 2 c = [x01; x70])) as [E|]; [|done].
  rewrite <-(take_drop 2 c) at 1. by rewrite E.
Qed.
#[local] Existing Instance two_layout.

Definition nibble (n : N) : Ascii.ascii := Ascii.ascii_of_N (97 + n).
Definition of_nibble (a : Ascii.ascii) : N := (Ascii.N_of_ascii a - 97)%N.
Definition byte_string (b : byte) (s : string) : string :=
  String (nibble (Byte.to_N b / 16)) (String (nibble (Byte.to_N b mod 16)) s).
Fixpoint hex (c : list byte) : string := match c with [] => EmptyString | b :: c => byte_string b (hex c) end.
Fixpoint unhex (s : string) : option (list byte) :=
  match s with
  | EmptyString => Some []
  | String a (String a' s) =>
      match Byte.of_N (of_nibble a * 16 + of_nibble a'), unhex s with Some b, Some c => Some (b :: c) | _, _ => None end
  | _ => None
  end.
Lemma unhex_hex c : unhex (hex c) = Some c.
Proof. induction c as [|b c IH]; [done|]. cbn [hex unhex byte_string]. rewrite IH. by destruct b. Qed.
Lemma hex_no_slash c : no_slash (hex c).
Proof. induction c as [|b c IH]; [done|]. cbn [hex byte_string no_slash]. split_and!; [by destruct b|by destruct b|done]. Qed.

Program Definition hex_codec : PathCodec := {|
  TextError := unit;
  cid_from_str := λ s, ok_or tt (unhex s);
  cid_to_string := hex;
  peer_from_str := read_letters letter_p;
  peer_to_base58 := λ n, letters letter_p (S n);
  peer_from_to_base58 := read_letters_ok letter_p;
  peer_string_no_slash := λ n, letters_no_slash letter_p (S n) ltac:(done);
  peer_of_cid := λ c, None;
|}.
Next Obligation. intros c. simpl. by rewrite unhex_hex. Qed.
Next Obligation. intros c. simpl. apply hex_no_slash. Qed.
#[local] Existing Instance hex_codec.

#[local] Instance Recursive_eq_dec : EqDecision Recursive.
Proof. solve_decision. Defined.
#[local] Instance PinDocument_eq_dec : EqDecision PinDocument.
Proof. solve_decision. Defined.
#[local] Program Instance Recursive_countable : Countable Recursive :=
  inj_countable' (λ r, match r with Count n => inl n | Intent => inr true | Not => inr false end)
    (λ x, match x with inl n => Count n | inr true => Intent | inr false => Not end) _.
Next Obligation. by intros []. Qed.
#[local] Program Instance PinDocument_countable : Countable PinDocument :=
  inj_countable' (λ d, (version d, direct d, recursive d, cid_version_of d, indirect_by d))
    (λ '(v, d, r, c, l), mkDoc v d r c l) _.
Next Obligation. by intros []. Qed.

Fixpoint pos_bytes (p : positive) : list byte :=
  match p with xH => [] | xO p => x00 :: pos_bytes p | xI p => x01 :: pos_bytes p end.
Fixpoint bytes_pos (b : list byte) : positive :=
  match b with [] => xH | x00 :: b => xO (bytes_pos b) | _ :: b => xI (bytes_pos b) end.
Lemma bytes_pos_bytes p : bytes_pos (pos_bytes p) = p.
Proof. induction p as [p IH|p IH|]; simpl; by rewrite ?IH. Qed.

Program Definition toy_pin_codec : PinCodec := {|
  JsonError := unit;
  doc_to_vec := λ d, pos_bytes (encode d);
  doc_from_slice := λ b, ok_or tt (countable.decode (bytes_pos b));
  new_v1 := λ c, x01 :: x70 :: c;
|}.
Next Obligation. intros d. simpl. by rewrite bytes_pos_bytes, decode_encode. Qed.
Next Obligation. done. Qed.
#[local] Existing Instance toy_pin_codec.
#[local] Program Instance toy_iter : Refs.IpldIter := {| Refs.ipld_iter := Refs.ipld_values |}.
Next Obligation. done. Qed.

Definition toy_link (x : byte) : DagResolve.Ipld := DagResolve.Map [("Hash", DagResolve.Link [x]); ("Name", DagResolve.Str "n")].
Definition toy_decode (c : Cid) (b : list byte) : result DagResolve.Ipld unit :=
  Ok (DagResolve.Map [("Links", DagResolve.List (toy_link <$> b))]).

(** A document that links to two others, one of which links to the other; and a
    block that nothing links to. *)
Definition root : Cid := [x01].
Definition demo_blocks : gmap Cid Block :=
  {[ [x01] := ([x01], [x02; x03]); [x02] := ([x02], [x03]); [x03] := ([x03], []); [x04] := ([x04], []) ]}.
Definition demo_repo : Repo := mkRepo true demo_blocks ∅ ∅ (Some []) ∅ ∅ 0.
Definition demo_dag : gset Cid := {[ [x01]; [x02]; [x03] ]}.

Lemma demo_links c b links :
  demo_blocks !! c = Some b → Refs.ipld_links (it := toy_iter) c (DagResolve.Map [("Links", DagResolve.List (toy_link <$> b.2))]) = Done links →
  links.*2 = (λ x, [x]) <$> b.2.
Proof.
  intros _. destruct b as [c' b]. simpl. unfold Refs.ipld_links. simpl. revert links. induction b as [|x b IH]; intros links; simpl.
  { by intros [= <-]. }
  destruct (Refs.dagpb_link_list _) as [l| |]; simpl; [|done|done]. intros [= <-]. simpl. f_equal. by apply IH.
Qed.
Lemma demo_child c c' : child toy_decode demo_repo c c' →
  (c = [x01] ∧ (c' = [x02] ∨ c' = [x03])) ∨ (c = [x02] ∧ c' = [x03]).
Proof.
  intros (links & (b & i & Hb & Hd & Hi) & Hin). injection Hd as <-. change (demo_blocks !! c = Some b) in Hb.
  rewrite (demo_links c b links Hb Hi) in Hin. unfold demo_blocks in Hb.
  repeat (apply lookup_insert_Some in Hb as [[<- <-]|[? Hb]]); [..|apply lookup_singleton_Some in Hb as [<- <-]]; simpl in Hin; set_solver.
Qed.

Lemma tc_last {A} (R : A → A → Prop) x z : tc R x z → ∃ y, R y z.
Proof. induction 1 as [x y H|x y z _ _ IH]; [by exists x|done]. Qed.
Lemma demo_acyclic : ¬ tc (child toy_decode demo_repo) root root.
Proof. intros (y & Hy)%tc_last. apply demo_child in Hy. naive_solver. Qed.
Lemma demo_local : local_dag toy_decode demo_repo root demo_dag.
Proof.
  split; [set_solver| |apply demo_acyclic|by vm_compute].
  intros c. unfold demo_dag. rewrite !elem_of_union, !elem_of_singleton. intros [[->| ->]| ->].
  - exists [(Some "n", [x02]); (Some "n", [x03])]. split; [by eexists _, _|]. set_solver.
  - exists [(Some "n", [x03])]. split; [by eexists _, _|]. set_solver.
  - exists []. split; [by eexists _, _|]. set_solver.
Qed.

(** Two documents that link to each other. *)
Definition loop_blocks : gmap Cid (list byte) := {[ [x01] := [x02]; [x02] := [x01] ]}.
Definition loop_get (c : Cid) (s : unit) : result Block unit * unit :=
  (match loop_blocks !! c with Some b => Ok (c, b) | None => Err tt end, s).
Lemma refs_walk_complete_witness : ∃ es : list Refs.Edge,
  Refs.iplds_refs toy_decode loop_get (λ c s, Ok None) 3 [([x01], DagResolve.Map [("Links", DagResolve.List [toy_link x02])])] None true tt =
    Done ((λ e, (Ok e, tt)) <$> es, Done tt) ∧
  NoDup (Refs.destination <$> es).
Proof.
  destruct (RefsClaims.refs_walk_complete toy_decode loop_get (λ c s, Ok None) tt {[ [x01]; [x02] ]} [x01]
    (DagResolve.Map [("Links", DagResolve.List [toy_link x02])]) [(Some "n", [x02])] 3) as [(es & Hr & Hnd & _) _].
  - intros c. rewrite elem_of_union, !elem_of_singleton. intros [->| ->].
    + exists [(Some "n", [x02])]. split; [by eexists ([x01], [x02]), _|]. set_solver.
    + exists [(Some "n", [x01])]. split; [by eexists ([x02], [x01]), _|]. set_solver.
  - reflexivity.
  - set_solver.
  - vm_compute. lia.
  - vm_compute. reflexivity.
  - exists es. split; [exact Hr|exact Hnd].
Defined.

Definition nowhere (c : Cid) : option (list byte) := None.
Lemma pinned_dag_survives_witness : ∃ r1 removed r2,
  insert_pin toy_decode 4 nowhere root true true demo_repo = Done (Ok tt, r1) ∧
  cleanup (DecodeError := unit) r1 = (Ok removed, r2) ∧ blocks r2 !! [x03] = Some ([x03], []).
Proof.
  destruct (pinned_dag_survives toy_decode 4 nowhere root demo_dag true demo_repo) as (r1 & removed & r2 & H1 & H2 & H3 & _).
  - apply map_Forall_empty.
  - apply demo_local.
  - vm_compute. lia.
  - intros n. discriminate.
  - exists r1, removed, r2. split; [exact H1|]. split; [exact H2|]. apply (H3 [x03]). right. left. apply tc_once.
    exists [(Some "n", [x02]); (Some "n", [x03])]. split; [by eexists _, _|]. set_solver.
Defined.

(** What a clean-up removes after the pin. *)
Definition removed_after_pin : option (list Cid) :=
  match insert_pin toy_decode 4 nowhere root true true demo_repo with
  | Done (Ok _, r1) => match cleanup (DecodeError := unit) r1 with (Ok removed, _) => Some removed | _ => None end
  | _ => None
  end.
Example removes_the_rest : removed_after_pin = Some [[x04]].
Proof. by vm_compute. Qed.

Lemma pin_unpin_roundtrip_witness : ∃ r1,
  insert_pin toy_decode 4 nowhere root true true demo_repo = Done (Ok tt, r1) ∧
  remove_pin toy_decode 4 nowhere root true r1 = Done (Ok tt, demo_repo).
Proof.
  apply (pin_unpin_roundtrip toy_decode 4 nowhere root demo_dag true demo_repo).
  - apply map_Forall_empty.
  - apply demo_local.
  - vm_compute. lia.
  - reflexivity.
  - reflexivity.
  - intros c _ Hl. by apply elem_of_nil in Hl.
Defined.

Definition empty_repo : Repo := new_raw (∅ : gmap Cid Block).
Lemma waiter_served_witness : ∃ rx r1,
  subscribe (DecodeError := unit) None root [] false (initialize_channel empty_repo) = (Ok rx, r1) ∧
  ((∃ b, delivered r1 !! rx = Some (root, b)) ∨
   (blocks r1 !! root = None ∧ ∀ b, delivered (put_block (DecodeError := unit) (root, b) r1).2 !! rx = Some (root, b))).
Proof.
  eexists _, _. split; [reflexivity|].
  refine (proj1 (waiter_served (DecodeError := unit) ∅ None root [] (initialize_channel empty_repo) _ _ _ _ _) _ _).
  - apply rtc_once. apply step_channel.
  - reflexivity.
  - reflexivity.
  - apply rtc_refl.
Defined.

Lemma lost_wakeup_witness : ∃ rx r2,
  subscribe (DecodeError := unit) None root [] false (put_block (DecodeError := unit) (root, [x02]) (initialize_channel empty_repo)).2 = (Ok rx, r2) ∧
  blocks r2 !! root = Some (root, [x02]) ∧
  ∀ puts, delivered (foldl (λ r b, (put_block (DecodeError := unit) (root, b) r).2) r2 puts) !! rx = None.
Proof.
  apply (lost_wakeup (DecodeError := unit) None root [x02] [] (initialize_channel empty_repo)).
  - eapply (step_waiters (DecodeError := unit) false); [apply step_channel|apply new_waiters].
  - reflexivity.
  - reflexivity.
  - discriminate.
Defined.

Lemma pins_readable_witness : ∃ g,
  PinStore.is_pinned root g = true ∧
  ∃ kind, PinStore.query_one (RefsError := unit) None g root = Done (Ok (root, kind)) ∧ mode (pin_of g root) = Some (kind_mode kind).
Proof.
  eexists. split; [|apply (pins_readable (RefsError := unit) (S := unit))].
  2:{ apply rtc_once. apply (ps_insert_direct root ∅ (Ok tt)). reflexivity. }
  - reflexivity.
  - reflexivity.
Defined.

Definition me : PeerId := 3.
Lemma ipns_roundtrip_witness :
  get_ipns (DecodeError := unit) me (put_ipns me (Path.mk (Path.Ipld root) ["a"]) empty_repo) = Ok (Some (Path.mk (Path.Ipld root) ["a"])).
Proof.
  apply (ipns_roundtrip (DecodeError := unit) me (Path.mk (Path.Ipld root) ["a"]) empty_repo).
  - split; [done|]. repeat constructor; by vm_compute.
  - by vm_compute.
Defined.

(** The indirect pins of a root carry its version 1 identifier: two recursive pins of
    one root, under its identifiers of both versions, share them, and removing one
    leaves the other without its references. *)
Definition root_v1 : Cid := new_v1 root.
Definition one_ref : list (result Cid unit * unit) * outcome unit := ([(Ok [x03], tt)], Done tt).
Definition pin_both_unpin_one : outcome (bool * bool) :=
  r1 ← PinStore.insert_recursive_pin root one_ref tt ∅;
  r2 ← PinStore.insert_recursive_pin root_v1 one_ref tt r1.1.2;
  r3 ← PinStore.remove_recursive_pin root_v1 one_ref tt r2.1.2;
  mret (PinStore.is_pinned root r3.1.2, PinStore.is_pinned [x03] r3.1.2).
Example versions_share_labels : pin_both_unpin_one = Done (true, false).
Proof. by vm_compute. Qed.

(** References that fail to load do not stop a recursive pin: the root counts as
    pinned with one reference although a second one is missing. *)
Definition torn_repo : Repo := mkRepo false (delete [x03] demo_blocks) ∅ ∅ None ∅ ∅ 0.
Definition pin_torn : outcome (bool * bool) :=
  r ← insert_pin toy_decode 4 nowhere root true true torn_repo;
  mret (bool_decide (recursive (pin_of (pins r.2) root) = Count 1), is_pinned [x03] r.2).
Example missing_reference_skipped : pin_torn = Done (true, false).
Proof. by vm_compute. Qed.

(** A recursive unpin that meets a missing block has removed the pin of the root
    and left the pins of the references behind. *)
Definition unpin_torn : outcome (bool * bool) :=
  r ← insert_pin toy_decode 4 nowhere root true true demo_repo;
  r ← remove_pin toy_decode 4 nowhere root true (set_blocks (delete [x02] demo_blocks : gmap Cid Block) r.2);
  mret (match r.1 with Err _ => negb (is_pinned root r.2) | Ok _ => false end, is_pinned [x03] r.2).
Example unpin_leaves_references : unpin_torn = Done (true, true).
Proof. by vm_compute. Qed.
End RepoWitness.
