(* ===== verification/RepoMigrate.v ===== *)
(** * Migrating a repository

    [migrate] into a repository without pins takes the blocks, the data and
    everything that is pinned along. *)
From stdpp Require Import base gmap list strings.
From Stdlib Require Import Strings.Byte.
From S2P Require Import Prelude Protobuf UnixFsPb Path DirBuilder DirIter UnixFsDir DagResolve PinStore PinProofs Refs RefsProofs Repo RepoProofs RepoPins RepoClaims.

Module RepoMigrate.
Import PinDocument PinProofs Repo RepoProofs RepoPins.
Section migrate.
  Context `{bl : BlockStoreLaws} {pc : PathCodec} {cc : CidCodec} {qp : QuickProtobuf} {cl : CidLayout} {pk : PinCodec}.
  Context {it : Refs.IpldIter} {ho : HashOrder}.
  Context {DecodeError : Type} (decode : Cid → list byte → result DagResolve.Ipld DecodeError).
  Implicit Types r e : Repo.
  Notation RefsErr := (Refs.IpldRefsError (Error := RepoError (DecodeError := DecodeError))).

(** ** Blocks and data *)
Lemma migrate_blocks_spec l r e :
  (∀ c b, blocks r !! c = Some b → b.1 = c) →
  ∃ s, migrate_blocks (DecodeError := DecodeError) l r e = set_blocks s e ∧
    ∀ c, bs_blocks s !! c = match blocks e !! c with Some b => Some b | None => if decide (c ∈ l) then blocks r !! c else None end.
Proof.
  intros Hr. revert e. induction l as [|c l IH]; intros e.
  { exists (block_store e). split; [by destruct e|]. intros c. unfold blocks. by destruct (bs_blocks (block_store e) !! c). }
  cbn [migrate_blocks]. rewrite get_block_now_spec. destruct (blocks r !! c) as [b|] eqn:Hb.
  - destruct (bs_put_ok b (block_store e)) as [_ Hput]. destruct (IH (set_blocks (bs_put b (block_store e)).2 e)) as (s & -> & Hs).
    exists s. split; [done|]. intros c'. rewrite Hs. unfold blocks at 1. simpl. rewrite Hput. fold (blocks e). pose proof (Hr _ _ Hb) as Ec.
    rewrite Ec. destruct (blocks e !! c) as [b'|] eqn:He.
    + destruct (blocks e !! c') eqn:He'; [done|]. assert (c' ≠ c) by congruence.
      destruct (decide (c' ∈ l)); [rewrite decide_True by by right|rewrite decide_False by (by rewrite not_elem_of_cons)]; done.
    + destruct (decide (c' = c)) as [->|Hne].
      * rewrite lookup_insert_eq, He. rewrite decide_True by by left. done.
      * rewrite lookup_insert_ne by done. destruct (blocks e !! c'); [done|].
        destruct (decide (c' ∈ l)); [rewrite decide_True by by right|rewrite decide_False by (by rewrite not_elem_of_cons)]; done.
  - destruct (IH e) as (s & -> & Hs). exists s. split; [done|]. intros c'. rewrite Hs. destruct (blocks e !! c'); [done|].
    destruct (decide (c' ∈ l)); [by rewrite decide_True by by right|]. destruct (decide (c' = c)) as [->|].
    + rewrite decide_True by by left. done.
    + by rewrite decide_False by (by rewrite not_elem_of_cons).
Qed.

Lemma migrate_data_spec l e : migrate_data l e = set_data (foldl (λ d kv, <[kv.1 := kv.2]> d) (data e) l) e.
Proof.
  unfold migrate_data. revert e. induction l as [|kv l IH]; intros e; simpl; [by destruct e|]. by rewrite IH.
Qed.
Lemma insert_all (l : list (list byte * list byte)) (d : gmap (list byte) (list byte)) :
  NoDup l.*1 → foldl (λ d kv, <[kv.1 := kv.2]> d) d l = list_to_map l ∪ d.
Proof.
  revert d. induction l as [|[k v] l IH]; intros d Hnd; simpl; [by rewrite (left_id_L ∅ (∪))|].
  rewrite fmap_cons in Hnd. apply NoDup_cons in Hnd as [Hk Hnd]. rewrite IH by done.
  rewrite <-insert_union_r by (by apply not_elem_of_list_to_map). by rewrite insert_union_l.
Qed.

(** ** Pins *)
Lemma insert_direct_spec c e g :
  pins_ok g → recursive (pin_of g c) = Not →
  ∃ g', insert_direct_pin (DecodeError := DecodeError) c (set_pins g e) = Done (Ok tt, set_pins g' e) ∧
    changed (λ c' d, if decide (c' = c) then set_direct true d else d) g g'.
Proof.
  intros Hg Hn. unfold insert_direct_pin, PinStore.insert_direct_pin. cbn [pins set_pins].
  rewrite (insert_pin_spec (RefsError := RefsErr)) by done. cbn [update]. rewrite Hn. cbn [is_set andb negb].
  eexists. split; [done|]. cbn [fst snd]. assert (doc_ok c (set_direct true (pin_of g c))) as Hd.
  { destruct (pin_of_ok g c Hg) as (? & ? & _ & ? & ?). split_and!; try done. simpl. by rewrite Hn. }
  split; [by apply set_pin_ok|]. intros c'. rewrite pin_of_set by done. case_decide; by subst.
Qed.

(** What the loop over the pins does, one pin at a time. *)
Definition migrated r (cm : Cid * PinMode) g : Prop :=
  match cm.2 with
  | Direct => PinStore.is_pinned cm.1 g = true
  | Indirect => True
  | Recursively => ∀ c, c = cm.1 ∨ tc (child decode r) cm.1 c → PinStore.is_pinned c g = true
  end.

Lemma migrate_pin_spec fuel network c m r e g :
  pins_ok g → recursive (pin_of g c) = Not →
  (m = Recursively → ∃ U, local_dag decode r c U ∧ (size U < fuel)%nat) →
  ∃ g', migrate_pin decode fuel network c m r (set_pins g e) = Done (r, set_pins g' e) ∧ pins_ok g' ∧
    migrated r (c, m) g' ∧
    (∀ c', PinStore.is_pinned c' g = true → PinStore.is_pinned c' g' = true) ∧
    (∀ c', c' ≠ c → recursive (pin_of g' c') = recursive (pin_of g c')).
Proof.
  intros Hg Hn HU. destruct m.
  - exists g. by split_and!.
  - destruct (insert_direct_spec c e g Hg Hn) as (g' & Hi & Hok & Hch). exists g'. unfold migrate_pin. rewrite Hi.
    split_and!; [done|done| | |].
    + unfold migrated. simpl. rewrite is_pinned_spec, Hch, decide_True by done. done.
    + intros c'. rewrite !is_pinned_spec, Hch by done. case_decide; [done|done].
    + intros c' Hne. by rewrite Hch, decide_False.
  - destruct (HU eq_refl) as (U & Hdag & Hf). destruct (root_block _ _ _ _ Hdag) as (b & ipld & Hb & Hd).
    unfold migrate_pin. rewrite get_block_now_spec, Hb, Hd.
    destruct (references_local decode network pin_opts r fuel c U b ipld) as (cs & Hr & Hnd & Hlen & Hcs); try done.
    rewrite Hr. cbn [mbind outcome_bind].
    destruct (insert_recursive_pin_spec (RefsError := RefsErr) c cs r g) as (g' & Hi & Hch); try done.
    { by rewrite Hn. }
    { rewrite Hcs. apply (ld_acyclic _ _ _ _ Hdag). }
    change (changed (pinned_doc c cs) g g') in Hch. cbn [pins set_pins]. rewrite Hi. exists g'. split; [done|]. split; [apply Hch|]. split_and!.
    + intros c' Hc'. simpl in Hc'. eapply (pinned_after decode); [exact Hch|done|]. rewrite Hcs. naive_solver.
    + intros c' Hc'. eapply (pinned_kept decode); [exact Hch|done|done].
    + intros c' Hne. destruct Hch as [_ ->]. unfold pinned_doc. rewrite decide_False by done. by case_decide.
Qed.

Lemma migrated_mono r cm g g' :
  migrated r cm g → (∀ c, PinStore.is_pinned c g = true → PinStore.is_pinned c g' = true) → migrated r cm g'.
Proof. unfold migrated. destruct cm.2; naive_solver. Qed.

Lemma migrate_pins_spec fuel network l r e g :
  NoDup l.*1 → pins_ok g → (∀ c m, (c, m) ∈ l → recursive (pin_of g c) = Not) →
  (∀ c, (c, Recursively) ∈ l → ∃ U, local_dag decode r c U ∧ (size U < fuel)%nat) →
  ∃ g', migrate_pins decode fuel network (Ok <$> l) r (set_pins g e) = Done (r, set_pins g' e) ∧ pins_ok g' ∧
    Forall (λ cm, migrated r cm g') l ∧ (∀ c, PinStore.is_pinned c g = true → PinStore.is_pinned c g' = true).
Proof.
  revert g. induction l as [|[c m] l IH]; intros g Hnd Hg Hn HU; [by exists g|].
  rewrite fmap_cons in Hnd. apply NoDup_cons in Hnd as [Hc Hnd].
  destruct (migrate_pin_spec fuel network c m r e g) as (g1 & Hm & Hg1 & Hd1 & Hk1 & Hr1); [done|apply (Hn c m); by left| |].
  { intros ->. apply HU. by left. }
  assert (∀ c' m', (c', m') ∈ l → c' ≠ c) as Hne.
  { intros c' m' Hin ->. apply Hc. apply list_elem_of_fmap. by exists (c, m'). }
  destruct (IH g1) as (g2 & Hl & Hg2 & Hf2 & Hk2).
  - done.
  - done.
  - intros c' m' Hin. rewrite Hr1 by by eapply Hne. eapply Hn. by right.
  - intros c' Hin. apply HU. by right.
  - exists g2. cbn [fmap list_fmap migrate_pins]. rewrite Hm. cbn [mbind outcome_bind fst snd]. rewrite Hl.
    split_and!; [done|done| |auto]. constructor; [|done]. by eapply migrated_mono.
Qed.

(** C35: migrating an offline repository whose recursive pins are complete into one
    without pins ends, copies the blocks and the data, blocks that are already there
    excepted, and pins there every block with a direct pin and every block that a
    recursive pin reaches. *)
Theorem migrate_complete fuel network r e :
  online r = false → online e = false → pins_ok (pins r) → pins e = ∅ →
  (∀ c b, blocks r !! c = Some b → b.1 = c) →
  (∀ c, mode (pin_of (pins r) c) = Some Recursively → ∃ U, local_dag decode r c U ∧ (size U < fuel)%nat) →
  ∃ e', migrate decode fuel network r e = Done (Ok tt, r, e') ∧
    (∀ c, blocks e' !! c = match blocks e !! c with Some b => Some b | None => blocks r !! c end) ∧
    data e' = data r ∪ data e ∧
    (∀ c, mode (pin_of (pins r) c) = Some Direct → is_pinned c e' = true) ∧
    (∀ root c, mode (pin_of (pins r) root) = Some Recursively → c = root ∨ tc (child decode r) root c → is_pinned c e' = true).
Proof.
  intros Hor Hoe Hp He Hb HU. unfold migrate. rewrite Hor, Hoe. cbn [orb]. unfold list_blocks.
  destruct (bs_list_ok (block_store r)) as (l & -> & Hl). cbn [map_err].
  destruct (migrate_blocks_spec l r e Hb) as (s & -> & Hs). rewrite migrate_data_spec, insert_all by apply NoDup_iter_map_keys.
  rewrite list_to_map_iter. set (e1 := set_data _ _).
  destruct (list_pins_spec (RefsError := RefsErr) (pins r) Hp) as (pl & Hpl & Hnd & Hin). unfold list_pins. rewrite Hpl.
  assert (∀ c m, (c, m) ∈ pl ↔ mode (pin_of (pins r) c) = Some m) as Hin'.
  { intros c m. rewrite Hin. split; [tauto|]. intros Hm. split; [|done]. rewrite is_pinned_spec by done.
    destruct (can_remove _) eqn:Hc; [|done]. apply (removable_new c) in Hc; [|by apply pin_of_ok]. by rewrite Hc in Hm. }
  destruct (migrate_pins_spec fuel network pl r e1 ∅) as (g' & Hm & Hg' & Hf & _).
  - done.
  - apply map_Forall_empty.
  - done.
  - intros c Hc. by apply HU, Hin'.
  - assert (set_pins ∅ e1 = e1) as Ee by (unfold e1; destruct e; simpl in *; by rewrite He). rewrite Ee in Hm. rewrite Hm.
    exists (set_pins g' e1). split; [done|]. rewrite Forall_forall in Hf. split_and!.
    + intros c. change (blocks (set_pins g' e1)) with (bs_blocks s). rewrite Hs. destruct (blocks e !! c); [done|].
      case_decide as Hc; [done|]. destruct (blocks r !! c) as [b|] eqn:Eb; [|done]. destruct Hc. rewrite Hl.
      apply list_elem_of_fmap. exists (c, b). split; [done|]. by apply elem_of_map_to_list.
    + done.
    + intros c Hc%Hin'. apply (Hf _ Hc).
    + intros root c Hc%Hin' Hr. by apply (Hf _ Hc).
Qed.
End migrate.
End RepoMigrate.

Module RepoMigrateWitness.
Import PinDocument PinProofs Repo RepoProofs RepoPins RepoMigrate RepoClaims.RepoWitness.
#[local] Existing Instances bytes_ids bytes_cids PbInstance.WireFormat.wire_format key_order MemBlockStore.mem_block_store
  MemBlockStore.mem_block_store_laws two_layout hex_codec toy_pin_codec toy_iter.

Definition offline_repo : Repo := mkRepo false demo_blocks ∅ ∅ None ∅ ∅ 0.
Lemma offline_local : local_dag toy_decode offline_repo root demo_dag.
Proof. by destruct demo_local. Qed.

Lemma migrate_complete_witness : ∃ r e',
  migrate toy_decode 4 nowhere r empty_repo = Done (Ok tt, r, e') ∧
  is_pinned [x03] e' = true ∧ blocks e' !! [x04] = Some ([x04], []).
Proof.
  destruct (insert_pin_dag toy_decode 4 nowhere root demo_dag true offline_repo) as (cs & g & _ & _ & Hcs & Hok & Hch);
    [apply map_Forall_empty|apply offline_local|vm_compute; lia|discriminate|].
  destruct (migrate_complete toy_decode 4 nowhere (set_pins g offline_repo) empty_repo) as (e' & Hm & Hb & _ & _ & Hr).
  - reflexivity.
  - reflexivity.
  - exact Hok.
  - reflexivity.
  - intros c b. change (demo_blocks !! c = Some b → b.1 = c). unfold demo_blocks.
    intros Hc. repeat (apply lookup_insert_Some in Hc as [[<- <-]|[_ Hc]]; [reflexivity|]). apply lookup_singleton_Some in Hc as [<- <-]. reflexivity.
  - intros c. cbn [pins set_pins]. rewrite Hch. unfold pinned_doc. destruct (decide (c = root)) as [->|].
    + intros _. exists demo_dag. split; [apply local_dag_pins, offline_local|vm_compute; lia].
    + destruct (decide (c ∈ cs)); discriminate.
  - exists (set_pins g offline_repo), e'. split; [exact Hm|]. split; [|rewrite Hb; reflexivity].
    apply (Hr root [x03]).
    + cbn [pins set_pins]. rewrite Hch. unfold pinned_doc. destruct (decide (root = root)); [reflexivity|done].
    + right. apply tc_once. exists [(Some "n", [x02]); (Some "n", [x03])]. split; [by eexists _, _|]. set_solver.
Defined.

(** A block that is pinned directly and through a root is listed as indirect, so the
    migration drops its direct pin: after unpinning the root it is pinned in the old
    repository and not in the new one. *)
Definition direct_and_indirect : outcome (bool * bool) :=
  r ← insert_direct_pin (DecodeError := unit) [x03] offline_repo;
  r ← insert_pin toy_decode 4 nowhere root true true r.2;
  m ← migrate toy_decode 4 nowhere r.2 empty_repo;
  old ← remove_pin toy_decode 4 nowhere root true r.2;
  new ← remove_pin toy_decode 4 nowhere root true m.2;
  mret (is_pinned [x03] old.2, is_pinned [x03] new.2).
Example migration_drops_direct : direct_and_indirect = Done (true, false).
Proof. by vm_compute. Qed.
End RepoMigrateWitness.
