(* ===== verification/Walk.v ===== *)
(** * Walking a UnixFS tree

    unixfs/src/walk.rs: files, directories, sharded directories and symlinks below a
    root, block by block; unixfs/src/symlink.rs; and the loops of src/unixfs/ls.rs and
    src/unixfs/get.rs that drive a walk. *)
From stdpp Require Import base gmap list strings.
From Stdlib Require Import Strings.Byte.
From S2P Require Import Prelude Protobuf UnixFsPb FileTree FileReader FileVisit UnixFsDir Path.

(** ** Paths of the standard library

    [std::path::PathBuf] on Unix: components are separated by slashes, empty ones and
    later [.] do not count. *)
Module PathBuf.
Import Slashes.

Definition ends_with_slash (p : string) : bool := bool_decide (last (split p) = Some EmptyString).
Definition push (p name : string) : string :=
  if bool_decide (p = EmptyString) || ends_with_slash p then p +:+ name else p +:+ String slash name.

Definition is_trivial (s : string) : bool := bool_decide (s = EmptyString) || bool_decide (s = ".").
(** The components of the segments, the last one first; the first segment counts
    unless it is empty. *)
Fixpoint strip (r : list string) : list string :=
  match r with
  | [] => []
  | [x] => [x]
  | x :: r' => if is_trivial x then strip r' else r
  end.
Definition components (p : string) : nat :=
  match split p with
  | [] => 0
  | x :: l => (if bool_decide (x = EmptyString) then 0 else 1) + length (filter (λ s, is_trivial s = false) l)
  end.
(** [Path::ancestors().count()] of a relative path. *)
Definition ancestors (p : string) : nat := S (components p).
(** [PathBuf::pop], which does nothing and returns [false] without a parent. *)
Definition pop (p : string) : option string :=
  match strip (reverse (split p)) with
  | [] => None
  | [x] => if bool_decide (x = EmptyString) then None else Some EmptyString
  | _ :: r =>
      match strip r with
      | [x] => if bool_decide (x = EmptyString) then Some (String slash EmptyString) else Some x
      | r => Some (join (reverse r))
      end
  end.

(** Names that are components of their own. *)
Definition name_ok (s : string) : Prop := s ≠ EmptyString ∧ s ≠ "." ∧ no_slash s.

Lemma name_not_trivial s : name_ok s → is_trivial s = false.
Proof. intros (? & ? & _). unfold is_trivial. by rewrite !bool_decide_eq_false_2. Qed.
Lemma names_no_slash l : Forall name_ok l → Forall no_slash l.
Proof. intros Hl. eapply Forall_impl; [done|]. by intros s (_ & _ & ?). Qed.
Lemma join_nonempty l : Forall name_ok l → l ≠ [] → join l ≠ EmptyString.
Proof.
  intros Hl Hne E. pose proof (split_join l Hne (names_no_slash _ Hl)) as H. rewrite E in H. simpl in H. subst l.
  apply Forall_cons in Hl as [(? & _) _]. done.
Qed.

Lemma push_join l n : Forall name_ok l → name_ok n → push (join l) n = join (l ++ [n]).
Proof.
  intros Hl Hn. destruct (decide (l = [])) as [->|Hne]; [done|]. unfold push.
  rewrite bool_decide_eq_false_2 by by apply join_nonempty. unfold ends_with_slash.
  rewrite split_join by (done || by apply names_no_slash). rewrite bool_decide_eq_false_2.
  - by rewrite join_app.
  - intros E. apply last_Some_elem_of in E. eapply Forall_forall in Hl as (? & _); [|exact E]. done.
Qed.
Lemma components_join l : Forall name_ok l → components (join l) = length l.
Proof.
  intros Hl. unfold components. destruct l as [|x l]; [done|]. rewrite split_join by (done || by apply names_no_slash).
  apply Forall_cons in Hl as [(Hx & _) Hl]. rewrite bool_decide_eq_false_2 by done. simpl. f_equal.
  induction Hl as [|y l Hy _ IH]; [done|]. rewrite filter_cons_True by by apply name_not_trivial. simpl. by rewrite IH.
Qed.
Lemma strip_names r : Forall name_ok r → strip r = r.
Proof. destruct 1 as [|x r Hx Hr]; [done|]. simpl. destruct r; [done|]. by rewrite name_not_trivial. Qed.
Lemma pop_join l n : Forall name_ok l → name_ok n → pop (join (l ++ [n])) = Some (join l).
Proof.
  intros Hl Hn. assert (Forall name_ok (l ++ [n])) as Hln by (apply Forall_app; split; [done|by constructor]).
  unfold pop. rewrite split_join by ((by destruct l) || (by apply names_no_slash)).
  rewrite strip_names by by apply Forall_reverse. rewrite reverse_app. simpl.
  destruct (decide (l = [])) as [->|Hne]; [simpl; rewrite bool_decide_eq_false_2; [done|apply Hn]|].
  assert (Forall name_ok (reverse l)) as Hr by by apply Forall_reverse. rewrite strip_names by done.
  destruct (reverse l) as [|x [|y r]] eqn:E.
  - apply (f_equal reverse) in E. rewrite reverse_involutive in E. done.
  - apply (f_equal reverse) in E. rewrite reverse_involutive in E. subst l. simpl.
    apply Forall_cons in Hr as [(Hx & _) _]. by rewrite bool_decide_eq_false_2.
  - by rewrite <-E, reverse_involutive.
Qed.
End PathBuf.

(** ** The walker *)
Module Walk.
Import Merkledag UnixFsData Flat UnixFsMetadata FileVisit.
Section walk.
  Context {ids : Ids} {cc : CidCodec} {qp : QuickProtobuf}.

Inductive Error :=
  | UnsupportedType (t : Z)
  | UnexpectedType (t : Z)
  | DagPbParsingFailed (e : PbError)
  | UnixFsParsingFailed (e : PbError)
  | EmptyDagPbNode
  | InvalidCid (e : UnixFsDir.InvalidCidInLink)
  | FileFailed (e : FileReader.FileError)
  | UnsupportedDirectory (e : UnixFsDir.UnexpectedDirectoryProperties)
  | UnsupportedHAMTShard (e : UnixFsDir.ShardError).

Definition Error_from_parsing (e : ParsingFailed) : Error :=
  match e with
  | InvalidDagPb e => DagPbParsingFailed e
  | InvalidUnixFs e _ => UnixFsParsingFailed e
  | NoData _ => EmptyDagPbNode
  end.
(** [unreachable!] for errors of reading a block. *)
Definition Error_from_file (e : FileReader.FileReadFailed) : outcome Error :=
  match e with
  | FileReader.File_ e => mret (FileFailed e)
  | FileReader.UnexpectedType t => mret (UnexpectedType t)
  | FileReader.Read _ => Panic
  | FileReader.InvalidCid nth link e =>
      mret (InvalidCid (UnixFsDir.mkInvalid nth (default [] (Hash link)) (UnixFsDir.link_name link) e))
  end.

Inductive InnerKind :=
  | RootDirectory
  | BucketAtRoot
  | RootBucket
  | Bucket
  | Directory
  | File (visit : option FileVisit) (size : Z)
  | Symlink.

Record InnerEntry := mkEntry {
  e_cid : Cid;
  e_kind : InnerKind;
  e_path : string;
  e_metadata : Metadata;
  e_depth : nat;
}.

(** Identifier, name and depth of what is still to be visited; the last one of
    [pending] comes first. *)
Notation Link := (Cid * string * nat)%type.
Record Walker := mkWalker {
  current : option InnerEntry;
  next_link : option Link;
  pending : list Link;
  should_continue : bool;
}.

Record FileSegment := mkSegment { bytes : list byte; first_block : bool; last_block : bool }.

Inductive ContinuedWalk :=
  | WBucket (c : Cid) (path : string)
  | WDirectory (c : Cid) (path : string) (m : Metadata)
  | WFile (s : FileSegment) (c : Cid) (path : string) (m : Metadata) (size : Z)
  | WRootDirectory (c : Cid) (path : string) (m : Metadata)
  | WSymlink (target : list byte) (c : Cid) (path : string) (m : Metadata).

Definition Walker_new (c : Cid) (root_name : string) : Walker :=
  mkWalker None (Some (c, root_name, if bool_decide (root_name = EmptyString) then 1 else 2)) [] true.

Definition pending_links (w : Walker) : outcome (Cid * list Cid) :=
  let cids := reverse ((λ l : Link, l.1.1) <$> pending w) in
  match e_kind <$> current w with
  | Some (File (Some visit) _) =>
      r ← FileVisit.pending_links visit;
      let '(first, rest) := r in
      mret (first, rest ++ (match next_link w with Some l => [l.1.1] | None => [] end) ++ cids)
  | _ => match next_link w with Some l => mret (l.1.1, cids) | None => Panic end
  end.

(** *** Links *)
Definition convert_link (nested_depth nth : nat) (link : PBLink) : outcome (result Link Error) :=
  match UnixFsDir.try_convert_cid nth link with
  | Err e => mret (Err (InvalidCid e))
  | Ok c =>
      match Name link with
      | Some s =>
          if bool_decide (s = EmptyString) then Panic
          else if bool_decide (length (Slashes.split s) = 1) then mret (Ok (c, s, nested_depth)) else Panic
      | None => Panic
      end
  end.
Definition convert_sharded_link (nested_depth sibling_depth nth : nat) (link : PBLink) : outcome (result Link Error) :=
  match UnixFsDir.try_convert_cid nth link with
  | Err e => mret (Err (InvalidCid e))
  | Ok c =>
      match Name link with
      | Some s =>
          if bool_decide (2 < vec_len (str_bytes s))%Z then
            name ← UnixFsDir.without_prefix s;
            if bool_decide (length (Slashes.split name) = 1) then mret (Ok (c, name, nested_depth)) else Panic
          else if bool_decide (vec_len (str_bytes s) = 2)%Z then mret (Ok (c, EmptyString, sibling_depth))
          else Panic
      | None => Panic
      end
  end.

(** [for link in links.rev() { pending.push(link?) }]: the links are converted from
    the last one on. *)
Fixpoint push_links (convert : nat → PBLink → outcome (result Link Error)) (links : list (nat * PBLink)) (pending : list Link) :
    outcome (result unit Error * list Link) :=
  match links with
  | [] => mret (Ok tt, pending)
  | (nth, link) :: links =>
      r ← convert nth link;
      match r with
      | Err e => mret (Err e, pending)
      | Ok l => push_links convert links (pending ++ [l])
      end
  end.

(** [Vec::pop]. *)
Definition pop_pending (p : list Link) : option Link * list Link := (last p, take (length p - 1) p).

(** *** The entry that the walker looks at *)
Definition new_root (kind : InnerKind) (c : Cid) (m : Metadata) (name : string) (depth : nat) : InnerEntry :=
  mkEntry c kind (PathBuf.push EmptyString name) m depth.

(** [while self.depth >= depth && self.depth > 0]. *)
Fixpoint pop_to (depth d : nat) (p : string) : outcome (string * nat) :=
  match d with
  | O => mret (p, O)
  | S d' =>
      if bool_decide (depth ≤ d) then
        match PathBuf.pop p with Some p => pop_to depth d' p | None => Panic end
      else mret (p, d)
  end.
Definition set_path (name : string) (depth : nat) (e : InnerEntry) : outcome InnerEntry :=
  rust_assert (bool_decide (e_depth e = PathBuf.ancestors (e_path e)));;
  r ← pop_to depth (e_depth e) (e_path e);
  let p := PathBuf.push r.1 name in
  rust_assert (bool_decide (depth = PathBuf.ancestors p));;
  mret (mkEntry (e_cid e) (e_kind e) p (e_metadata e) depth).

(** [as_directory], [as_bucket_root], [as_file] and [as_symlink]: not after a file that
    goes on. *)
Definition as_kind (kind : InnerKind) (c : Cid) (name : string) (depth : nat) (m : Metadata) (e : InnerEntry) : outcome InnerEntry :=
  match e_kind e with
  | File (Some _) _ => Panic
  | _ => set_path name depth (mkEntry c kind (e_path e) m (e_depth e))
  end.
Definition as_directory := as_kind Directory.
Definition as_bucket_root := as_kind RootBucket.
Definition as_file (c : Cid) (name : string) (depth : nat) (m : Metadata) (step : option FileVisit) (file_size : Z) (e : InnerEntry) :=
  as_kind (File step file_size) c name depth m e.
Definition as_symlink := as_kind Symlink.

(** [while self.depth > depth]. *)
Fixpoint pop_above (depth d : nat) (p : string) : outcome (string * nat) :=
  match d with
  | O => mret (p, O)
  | S d' =>
      if bool_decide (depth < d) then
        match PathBuf.pop p with Some p => pop_above depth d' p | None => Panic end
      else mret (p, d)
  end.
Definition as_bucket (c : Cid) (name : string) (depth : nat) (e : InnerEntry) : outcome InnerEntry :=
  match e_kind e with
  | BucketAtRoot => rust_assert (bool_decide (e_depth e = depth));; mret e
  | RootBucket | Bucket | File None _ | Symlink =>
      rust_assert (bool_decide (name = EmptyString));;
      r ← pop_above depth (e_depth e) (e_path e);
      rust_assert (bool_decide (r.2 = depth));;
      mret (mkEntry c Bucket r.1 (e_metadata e) r.2)
  | _ => Panic
  end.

(** *** One block

    The cache is an allocation that is reused; it is empty between calls. *)
Definition directory_item (e : InnerEntry) : ContinuedWalk := WDirectory (e_cid e) (e_path e) (e_metadata e).
Definition root_item (e : InnerEntry) : ContinuedWalk := WRootDirectory (e_cid e) (e_path e) (e_metadata e).

(** [next.take().expect(..)]. *)
Definition take_next (w : Walker) : outcome Link := match next_link w with Some l => mret l | None => Panic end.

(** The new [next] and [should_continue] of a directory or a symlink. *)
Definition go_on (p : list Link) : option Link * list Link * bool :=
  let '(l, p) := pop_pending p in (l, p, bool_decide (is_Some l)).

Definition next_directory (flat : FlatUnixFs) (w : Walker) : outcome (result ContinuedWalk Error * Walker) :=
  match UnixFsDir.check_directory_supported flat with
  | Err e => mret (Err (UnsupportedDirectory e), w)
  | Ok flat =>
      l ← take_next w;
      let '(c, name, depth) := l in
      r ← push_links (convert_link (S depth)) (reverse (imap pair (links flat))) (pending w);
      match r with
      | (Err e, p) => mret (Err e, mkWalker (current w) None p false)
      | (Ok _, p) =>
          let '(n, p, more) := go_on p in
          let m := Metadata_from (data flat) in
          match current w with
          | None =>
              let e := new_root RootDirectory c m name depth in
              mret (Ok (root_item e), mkWalker (Some e) n p more)
          | Some e =>
              e ← as_directory c name depth m e;
              mret (Ok (directory_item e), mkWalker (Some e) n p more)
          end
      end
  end.

Definition next_shard (flat : FlatUnixFs) (w : Walker) : outcome (result ContinuedWalk Error * Walker) :=
  r ← UnixFsDir.check_hamtshard_supported flat;
  match r with
  | Err e => mret (Err (UnsupportedHAMTShard e), w)
  | Ok flat =>
      l ← take_next w;
      let '(c, name, depth) := l in
      r ← push_links (convert_sharded_link (S depth) depth) (reverse (imap pair (links flat))) (pending w);
      match r with
      | (Err e, p) => mret (Err e, mkWalker (current w) None p false)
      | (Ok _, p) =>
          let '(n, p, more) := go_on p in
          let m := Metadata_from (data flat) in
          match current w with
          | None =>
              let e := new_root BucketAtRoot c m name depth in
              mret (Ok (root_item e), mkWalker (Some e) n p more)
          | Some e =>
              if bool_decide (name = EmptyString) then
                e ← as_bucket c name depth e;
                mret (Ok (WBucket (e_cid e) (e_path e)), mkWalker (Some e) n p more)
              else
                e ← as_bucket_root c name depth m e;
                mret (Ok (root_item e), mkWalker (Some e) n p more)
          end
      end
  end.

Definition next_file (flat : FlatUnixFs) (w : Walker) (cache : Cache) : outcome (result ContinuedWalk Error * Walker * Cache) :=
  r ← start_from_parsed (mkIdle None) flat cache;
  match r with
  | Err e => e ← Error_from_file e; mret (Err e, w, cache)
  | Ok (content, file_size, m, step, cache) =>
      l ← take_next w;
      let '(c, name, depth) := l in
      let file_continues := bool_decide (is_Some step) in
      e ← match current w with
          | None => mret (new_root (File step file_size) c m name depth)
          | Some e => as_file c name depth m step file_size e
          end;
      let '(next_local, p) := pop_pending (pending w) in
      (* [next] was taken; without a next link nothing is put back *)
      let more := file_continues || bool_decide (is_Some next_local) in
      mret (Ok (WFile (mkSegment content true (negb file_continues)) (e_cid e) (e_path e) (e_metadata e) file_size),
            mkWalker (Some e) next_local p more, cache)
  end.

Definition next_symlink (flat : FlatUnixFs) (w : Walker) : outcome (result ContinuedWalk Error * Walker) :=
  l ← take_next w;
  let '(c, name, depth) := l in
  let m := Metadata_from (data flat) in
  e ← match current w with
      | None => mret (new_root Symlink c m name depth)
      | Some e => as_symlink c name depth m e
      end;
  let '(n, p, more) := go_on (pending w) in
  mret (Ok (WSymlink (default [] (Data (data flat))) (e_cid e) (e_path e) (e_metadata e)), mkWalker (Some e) n p more).

Definition next_block (block : list byte) (w : Walker) (cache : Cache) : outcome (result ContinuedWalk Error * Walker * Cache) :=
  let w := mkWalker (current w) (next_link w) (pending w) false in
  match current w with
  | Some (mkEntry c (File (Some visit) sz) path m depth) =>
      r ← continue_walk visit block cache;
      match r with
      | Err e =>
          e ← Error_from_file e;
          mret (Err e, mkWalker (Some (mkEntry c (File None sz) path m depth)) (next_link w) (pending w) false, cache)
      | Ok (content, step, cache) =>
          let file_continues := bool_decide (is_Some step) in
          mret (Ok (WFile (mkSegment content false (negb file_continues)) c path m sz),
                mkWalker (Some (mkEntry c (File step sz) path m depth)) (next_link w) (pending w)
                  (file_continues || bool_decide (is_Some (next_link w))), cache)
      end
  | _ =>
      f ← FlatUnixFs_try_from block;
      match f with
      | Err e => mret (Err (Error_from_parsing e), w, cache)
      | Ok flat =>
          match Type_ (data flat) with
          | UnixFsData.Directory => r ← next_directory flat w; mret (r, cache)
          | HAMTShard => r ← next_shard flat w; mret (r, cache)
          | UnixFsData.Raw | UnixFsData.File => next_file flat w cache
          | UnixFsData.Metadata => mret (Err (UnsupportedType (DataType_into (Type_ (data flat)))), w, cache)
          | UnixFsData.Symlink => r ← next_symlink flat w; mret (r, cache)
          end
      end
  end.

(** [serialize_symlink_block] appends to the buffer. *)
Definition symlink_node (target_path : string) : FlatUnixFs :=
  mkFlat [] (mkUnixFs UnixFsData.Symlink (Some (str_bytes target_path)) None [] None None None None).
Definition serialize_symlink_block (target_path : string) (block_buffer : list byte) : list byte :=
  block_buffer ++ FlatUnixFs_write (symlink_node target_path).
End walk.
End Walk.

(** ** Listing and getting *)
Module UnixFsWalk.
Import Slashes Walk.
Section drive.
  Context {ids : Ids} {cc : CidCodec} {qp : QuickProtobuf}.
  (** [get_block_with_session] of the repository. *)
  Context {LoadError : Type} (get_block : Cid → result (list byte) LoadError).

Inductive WalkFailed :=
  | Loading (e : LoadError)
  | Walking (e : Error).

(** [str::replace(pattern, "")]. *)
Fixpoint strip_prefix (p s : string) : option string :=
  match p, s with
  | EmptyString, s => Some s
  | String a p, String b s => if bool_decide (a = b) then strip_prefix p s else None
  | _, _ => None
  end.
Fixpoint remove_all (fuel : nat) (pattern s : string) : string :=
  match fuel with
  | O => s
  | S fuel =>
      match strip_prefix pattern s with
      | Some rest => remove_all fuel pattern rest
      | None => match s with EmptyString => EmptyString | String a s => String a (remove_all fuel pattern s) end
      end
  end.
Definition relative (root_directory path : string) : string :=
  remove_all (S (String.length path)) (root_directory +:+ String slash EmptyString) path.

Inductive NodeItem :=
  | ItemError (e : WalkFailed)
  | ItemRootDirectory (c : Cid) (path : string)
  | ItemDirectory (c : Cid) (path : string)
  | ItemFile (c : Cid) (file : string) (size : Z).

Definition ls_item (w : ContinuedWalk) (root_directory : string) : list NodeItem * string :=
  match w with
  | WBucket _ _ | WSymlink _ _ _ _ => ([], root_directory)
  | WFile _ c path _ size => ([ItemFile c (relative root_directory path) size], root_directory)
  | WRootDirectory c path _ => ([ItemRootDirectory c path], path)
  | WDirectory c path _ => ([ItemDirectory c (relative root_directory path)], root_directory)
  end.

Fixpoint ls_loop (fuel : nat) (w : Walker) (cache : FileVisit.Cache) (root_directory : string) : outcome (list NodeItem) :=
  match fuel with
  | O => OutOfFuel
  | S fuel =>
      if negb (should_continue w) then mret []
      else
        l ← pending_links w;
        match get_block l.1 with
        | Err e => mret [ItemError (Loading e)]
        | Ok block =>
            r ← next_block block w cache;
            match r with
            | (Err e, _, _) => mret [ItemError (Walking e)]
            | (Ok item, w, cache) =>
                let '(items, root_directory) := ls_item item root_directory in
                more ← ls_loop fuel w cache root_directory;
                mret (items ++ more)
            end
        end
  end.
(** From the block that the path resolved to; its text is the name of the root. *)
Definition ls (fuel : nat) (c : Cid) (root_name : string) : outcome (list NodeItem) :=
  ls_loop fuel (Walker_new c root_name) None EmptyString.

(** [get] writes to a file of the operating system. *)
Context {OsFile IoError : Type}.
Context (write_all : list byte → OsFile → result unit IoError * OsFile).
Context (sync_all : OsFile → result unit IoError * OsFile).

Inductive GetError := GetFailed (e : WalkFailed) | GetIo (e : IoError).
Inductive UnixfsStatus :=
  | ProgressStatus (written : Z) (total_size : option Z)
  | CompletedStatus (written : Z) (total_size : option Z)
  | FailedStatus (written : Z) (total_size : option Z) (error : GetError).

Record Progress := mkProgress { written : Z; total_size : option Z; os_file : OsFile }.

(** The loop over a slice writes it at once.  [Err] ends the stream. *)
Definition get_slice (slice : list byte) (p : Progress) : outcome (list UnixfsStatus * result Progress OsFile) :=
  if bool_decide (slice = []) then mret ([], Ok p)
  else
    match write_all slice (os_file p) with
    | (Err e, f) => mret ([FailedStatus (written p) (total_size p) (GetIo e)], Err f)
    | (Ok _, f) =>
        match sync_all f with
        | (Err e, f) => mret ([FailedStatus (written p) (total_size p) (GetIo e)], Err f)
        | (Ok _, f) =>
            w ← usize_add (written p) (vec_len slice);
            mret ([ProgressStatus w (total_size p)], Ok (mkProgress w (total_size p) f))
        end
    end.
Definition get_item (item : ContinuedWalk) (p : Progress) : outcome (list UnixfsStatus * result Progress OsFile) :=
  match item with
  | WFile segment _ _ _ size =>
      let '(sts, p) :=
        if first_block segment
        then ([ProgressStatus (written p) (Some size)], mkProgress (written p) (Some size) (os_file p)) else ([], p) in
      r ← get_slice (bytes segment) p;
      match r with
      | (sts', Ok p) =>
          mret (sts ++ sts' ++ (if last_block segment then [ProgressStatus (written p) (total_size p)] else []), Ok p)
      | (sts', Err f) => mret (sts ++ sts', Err f)
      end
  | _ => mret ([], Ok p)
  end.

Fixpoint get_loop (fuel : nat) (w : Walker) (cache : FileVisit.Cache) (p : Progress) : outcome (list UnixfsStatus * OsFile) :=
  match fuel with
  | O => OutOfFuel
  | S fuel =>
      if negb (should_continue w) then mret ([CompletedStatus (written p) (total_size p)], os_file p)
      else
        l ← pending_links w;
        match get_block l.1 with
        | Err e => mret ([FailedStatus (written p) (total_size p) (GetFailed (Loading e))], os_file p)
        | Ok block =>
            r ← next_block block w cache;
            match r with
            | (Err e, _, _) => mret ([FailedStatus (written p) (total_size p) (GetFailed (Walking e))], os_file p)
            | (Ok item, w, cache) =>
                r ← get_item item p;
                match r with
                | (sts, Err f) => mret (sts, f)
                | (sts, Ok p) => more ← get_loop fuel w cache p; mret (sts ++ more.1, more.2)
                end
            end
        end
  end.
Definition get (fuel : nat) (c : Cid) (root_name : string) (file : OsFile) : outcome (list UnixfsStatus * OsFile) :=
  get_loop fuel (Walker_new c root_name) None (mkProgress 0 None file).
End drive.
End UnixFsWalk.
