(* ===== verification/WalkProofs.v ===== *)
(** * What a walk over a tree visits

    A tree of plain directories, files and symlinks that blocks represent, and the
    items that the walker yields on it: every entry once, in the order of the
    links, directories before what is in them, with the right path. *)
From stdpp Require Import base gmap list strings.
From Stdlib Require Import Strings.Byte.
From S2P Require Import Prelude Protobuf UnixFsPb FileTree FileReader FileVisit UnixFsDir Path Walk.

Module WalkTree.
Import Merkledag UnixFsData Flat FileTree.
Section tree.
  Context {ids : Ids} {cc : CidCodec} {qp : QuickProtobuf}.

Inductive utree :=
  | UFile (t : tree)
  | ULink (target : list byte)
  | UDir (entries : list (string * Cid * utree)).

Section ind.
  Context (P : utree → Prop) (Hf : ∀ t, P (UFile t)) (Hl : ∀ t, P (ULink t))
    (Hd : ∀ es, Forall (λ e, P e.2) es → P (UDir es)).
Fixpoint utree_nested_ind (u : utree) : P u :=
  match u with
  | UFile t => Hf t
  | ULink t => Hl t
  | UDir es =>
      Hd es ((fix go es : Forall (λ e, P e.2) es :=
        match es with [] => Forall_nil_2 _ | e :: es => Forall_cons_2 _ _ _ (utree_nested_ind e.2) (go es) end) es)
  end.
End ind.

(** The blocks of a tree. *)
Fixpoint ublocks (u : utree) : nat :=
  match u with
  | UFile t => tree_blocks t
  | ULink _ => 1
  | UDir es => S (sum_list ((λ e, ublocks e.2) <$> es))
  end.
(** The bytes of its files, one after the other. *)
Fixpoint ucontent (u : utree) : list byte :=
  match u with
  | UFile t => content t
  | ULink _ => []
  | UDir es => concat ((λ e, ucontent e.2) <$> es)
  end.

Definition entry_link (l : PBLink) (e : string * Cid * utree) : Prop :=
  links_to l e.1.2 ∧ Name l = Some e.1.1 ∧ PathBuf.name_ok e.1.1.

Inductive shows (has : Cid → list byte → Prop) : Cid → utree → Prop :=
  | shows_file c b f t cs :
      has c b → FlatUnixFs_try_from b = Done (Ok f) → describes f t cs → (tree_size t ≤ usize_max)%Z →
      Forall2 (represents has) cs (children t) → shows has c (UFile t)
  | shows_link c b f target :
      has c b → FlatUnixFs_try_from b = Done (Ok f) → Type_ (data f) = Symlink → default [] (Data (data f)) = target →
      shows has c (ULink target)
  | shows_dir c b f es :
      has c b → FlatUnixFs_try_from b = Done (Ok f) → Type_ (data f) = Directory →
      UnixFsDir.check_directory_supported f = Ok f →
      Forall2 entry_link (links f) es → Forall (λ e, shows has e.1.2 e.2) es → shows has c (UDir es).

(** What is visited, metadata apart. *)
Inductive visit :=
  | VRoot (c : Cid) (path : string)
  | VDir (c : Cid) (path : string)
  | VLink (target : list byte) (c : Cid) (path : string)
  | VFile (s : Walk.FileSegment) (c : Cid) (path : string) (size : Z)
  | VBucket (c : Cid) (path : string).
Definition view (w : Walk.ContinuedWalk) : visit :=
  match w with
  | Walk.WBucket c p => VBucket c p
  | Walk.WDirectory c p _ => VDir c p
  | Walk.WFile s c p _ size => VFile s c p size
  | Walk.WRootDirectory c p _ => VRoot c p
  | Walk.WSymlink t c p _ => VLink t c p
  end.

(** The segments of a file; [first] marks the first one. *)
Fixpoint mark (first : bool) (l : list (list byte)) : list Walk.FileSegment :=
  match l with
  | [] => []
  | b :: l => Walk.mkSegment b first (bool_decide (l = [])) :: mark false l
  end.

Inductive shown : list string → Cid → utree → list visit → Prop :=
  | shown_file path c t l :
      l ≠ [] → concat l = content t →
      shown path c (UFile t) ((λ s, VFile s c (Slashes.join path) (tree_size t)) <$> mark true l)
  | shown_link path c target : shown path c (ULink target) [VLink target c (Slashes.join path)]
  | shown_dir path c es vss :
      Forall2 (λ e vs, shown (path ++ [e.1.1]) e.1.2 e.2 vs) es vss →
      shown path c (UDir es) (VDir c (Slashes.join path) :: concat vss).
End tree.
End WalkTree.

Module WalkProofs.
Import Merkledag UnixFsData Flat FileTree FileVisit Walk WalkTree.
Section proofs.
  Context {ids : Ids} {cc : CidCodec} {qp : QuickProtobuf}.
  Context {LoadError : Type} (get_block : Cid → result (list byte) LoadError).
  Context (has : Cid → list byte → Prop) (Hget : ∀ c b, has c b → get_block c = Ok b).

(** The items of a whole walk. *)
Inductive walks : Walker → Cache → list ContinuedWalk → Prop :=
  | walks_done w cache : should_continue w = false → walks w cache []
  | walks_step w cache c others b item w' cache' items :
      should_continue w = true → pending_links w = Done (c, others) → get_block c = Ok b →
      next_block b w cache = Done (Ok item, w', cache') → walks w' cache' items → walks w cache (item :: items).

(** What is still to be visited: the path of the directory and the entry. *)
Notation todo := (list string * (string * Cid * utree))%type.
Definition todo_link (x : todo) : Cid * string * nat := (x.2.1.2, x.2.1.1, S (S (length x.1))).
Definition todo_ok (x : todo) : Prop := shows has x.2.1.2 x.2.2 ∧ PathBuf.name_ok x.2.1.1 ∧ Forall PathBuf.name_ok x.1.
Definition todo_blocks (stack : list todo) : nat := sum_list ((λ x, ublocks x.2.2) <$> stack).

(** The directories of the stack are prefixes of each other and of [cur]. *)
Fixpoint nested (cur : list string) (stack : list todo) : Prop :=
  match stack with
  | [] => True
  | x :: stack => x.1 `prefix_of` cur ∧ nested x.1 stack
  end.

Record at_path (e : InnerEntry) (cur : list string) : Prop := {
  ap_path : e_path e = Slashes.join cur;
  ap_depth : e_depth e = S (length cur);
  ap_names : Forall PathBuf.name_ok cur;
}.

Lemma nested_mono cur cur' stack : nested cur stack → cur `prefix_of` cur' → nested cur' stack.
Proof. destruct stack as [|x stack]; [done|]. intros [H1 H2] Hp. split; [by etrans|done]. Qed.

(** ** Paths *)
Lemma ancestors_join cur : Forall PathBuf.name_ok cur → PathBuf.ancestors (Slashes.join cur) = S (length cur).
Proof. intros H. unfold PathBuf.ancestors. by rewrite PathBuf.components_join. Qed.

Lemma pop_to_join pp rest :
  Forall PathBuf.name_ok (pp ++ rest) →
  pop_to (S (S (length pp))) (S (length (pp ++ rest))) (Slashes.join (pp ++ rest)) = Done (Slashes.join pp, S (length pp)).
Proof.
  induction rest as [|x rest IH] using rev_ind; intros H.
  - rewrite app_nil_r. cbn [pop_to]. by rewrite bool_decide_eq_false_2 by lia.
  - rewrite (assoc_L (++)) in *. apply Forall_app in H as [H Hx]. apply Forall_cons in Hx as [Hx _].
    rewrite length_app. cbn [length]. rewrite Nat.add_1_r. cbn [pop_to]. rewrite bool_decide_eq_true_2.
    + rewrite PathBuf.pop_join by done. by apply IH.
    + rewrite length_app. lia.
Qed.

Lemma set_path_ok e cur pp name :
  at_path e cur → pp `prefix_of` cur → PathBuf.name_ok name →
  ∃ e', set_path name (S (S (length pp))) e = Done e' ∧ at_path e' (pp ++ [name]) ∧ e_kind e' = e_kind e ∧
    e_cid e' = e_cid e ∧ e_metadata e' = e_metadata e.
Proof.
  intros [Hp Hd Hn] [rest ->] Hname. unfold set_path. rewrite Hp, Hd, ancestors_join, bool_decide_eq_true_2 by done.
  cbn [rust_assert mbind outcome_bind]. rewrite pop_to_join by done. cbn [mbind outcome_bind fst snd].
  apply Forall_app in Hn as [Hn _]. rewrite PathBuf.push_join by done.
  assert (Forall PathBuf.name_ok (pp ++ [name])) as Hn' by (apply Forall_app; split; [done|by constructor]).
  rewrite ancestors_join by done. rewrite length_app. simpl. rewrite bool_decide_eq_true_2 by lia.
  eexists. split; [done|]. split; [|done]. split; simpl; [done| |done]. rewrite length_app. simpl. lia.
Qed.

(** ** The entry and the stack *)
Definition ongoing (k : InnerKind) : bool := match k with File (Some _) _ => true | _ => false end.

Lemma as_kind_ok kind c m e cur pp name :
  at_path e cur → ongoing (e_kind e) = false → pp `prefix_of` cur → PathBuf.name_ok name →
  ∃ e', as_kind kind c name (S (S (length pp))) m e = Done e' ∧ at_path e' (pp ++ [name]) ∧
    e_kind e' = kind ∧ e_cid e' = c ∧ e_metadata e' = m.
Proof.
  intros [Hp Hd Hn] Ho Hpre Hname.
  destruct (set_path_ok (mkEntry c kind (e_path e) m (e_depth e)) cur pp name) as (e' & Hs & He' & Hk & Hc & Hm); [by split|done|done|].
  exists e'. unfold as_kind. split; [|done]. by destruct (e_kind e) as [| | | | |[]|].
Qed.

Lemma push_links_ok d il es p :
  Forall2 (λ il e, entry_link il.2 e) il es →
  push_links (convert_link d) il p = Done (Ok tt, p ++ ((λ e : string * Cid * utree, (e.1.2, e.1.1, d)) <$> es)).
Proof.
  intros H. revert p. induction H as [|[i l] e il es (Hl & Hn & Hok) _ IH]; intros p; [by rewrite app_nil_r|].
  cbn [push_links fst snd] in *. unfold convert_link, UnixFsDir.try_convert_cid. unfold links_to in Hl. rewrite Hl, Hn.
  destruct Hok as (H1 & H2 & H3). cbn [map_err]. rewrite bool_decide_eq_false_2 by done.
  rewrite Slashes.split_single by done. rewrite bool_decide_eq_true_2 by done. cbn [mbind outcome_bind mret outcome_ret].
  rewrite IH. by rewrite fmap_cons, <-(assoc_L (++)).
Qed.
Lemma imap_pair_snd {A} (l : list A) : (imap pair l).*2 = l.
Proof.
  rewrite fmap_imap. change (imap (const id) l = l). rewrite imap_const. apply list_fmap_id.
Qed.
Lemma directory_links links es :
  Forall2 entry_link links es → Forall2 (λ il e, entry_link il.2 e) (reverse (imap pair links)) (reverse es).
Proof.
  intros H. apply Forall2_reverse. rewrite <-(imap_pair_snd links) in H. by rewrite Forall2_fmap_l in H.
Qed.

Lemma pop_pending_rev p l : reverse p = l → pop_pending p = (head l, reverse (tail l)).
Proof.
  intros <-. unfold pop_pending. destruct p as [|x p _] using rev_ind; [done|].
  rewrite last_snoc, length_app, reverse_app. simpl. rewrite Nat.add_sub. rewrite take_app_length. by rewrite reverse_involutive.
Qed.

(** ** Before an entry is visited

    The walker will look at the block [c], at [path], and then at [stack]; [enter] is
    what it makes of its entry. *)
Definition enter (w : Walker) (kind : InnerKind) (c : Cid) (name : string) (depth : nat) (m : UnixFsMetadata.Metadata) : outcome InnerEntry :=
  match current w with
  | None => mret (new_root kind c m name depth)
  | Some e => as_kind kind c name depth m e
  end.

Definition fits (cur : list string) (stack : list todo) : Prop := Forall todo_ok stack ∧ nested cur stack.
Definition set_stack (e : InnerEntry) (stack : list todo) (more : bool) : Walker :=
  mkWalker (Some e) (head (todo_link <$> stack)) (reverse (tail (todo_link <$> stack))) more.

Record before (w : Walker) (path : list string) (c : Cid) (stack : list todo) : Prop := {
  be_next : ∃ name, next_link w = Some (c, name, S (length path)) ∧
    ∀ kind m, ∃ e, enter w kind c name (S (length path)) m = Done e ∧ at_path e path ∧ e_kind e = kind ∧ e_cid e = c;
  be_pending : reverse (pending w) = todo_link <$> stack;
  be_fits : fits path stack;
  be_names : Forall PathBuf.name_ok path;
  be_current : ∀ e, current w = Some e → ongoing (e_kind e) = false;
  be_more : should_continue w = true;
}.

(** Between two entries, and inside a file. *)
Definition idle (w : Walker) (stack : list todo) : Prop :=
  ∃ e cur, w = set_stack e stack (bool_decide (stack ≠ [])) ∧ at_path e cur ∧ ongoing (e_kind e) = false ∧ fits cur stack.
Definition in_file (w : Walker) (c : Cid) (size : Z) (cur : list string) (slots : list slot) (stack : list todo) : Prop :=
  ∃ e v, w = set_stack e stack true ∧ at_path e cur ∧ e_kind e = File (Some v) size ∧ e_cid e = c ∧
    visiting has None v slots ∧ slots ≠ [] ∧ fits cur stack.

Lemma idle_before w pp name c u stack : idle w ((pp, (name, c, u)) :: stack) → before w (pp ++ [name]) c stack ∧ shows has c u.
Proof.
  intros (e & cur & -> & Hat & Ho & [Hok Hne]). apply Forall_cons in Hok as [(Hsh & Hname & Hpp) Hok]. destruct Hne as [Hpre Hne].
  simpl in *. split; [|done]. split; simpl.
  - exists name. rewrite length_app, Nat.add_1_r. split; [done|]. intros kind m. unfold enter. simpl.
    destruct (as_kind_ok kind c m e cur pp name) as (e' & ? & ? & ? & ? & ?); [done..|]. by exists e'.
  - by rewrite reverse_involutive.
  - split; [done|]. eapply nested_mono; [done|by apply prefix_app_r].
  - apply Forall_app. split; [done|by constructor].
  - by intros ? [= <-].
  - done.
Qed.

Definition root_path (name : string) : list string := if bool_decide (name = EmptyString) then [] else [name].

Lemma new_before c name : name = EmptyString ∨ PathBuf.name_ok name → before (Walker_new c name) (root_path name) c [].
Proof.
  intros Hn. assert (Forall PathBuf.name_ok (root_path name)) as Hnames.
  { unfold root_path. case_bool_decide; [done|]. constructor; [by destruct Hn|done]. }
  split; simpl; try done.
  - exists name. unfold root_path at 1. split; [by case_bool_decide|]. intros kind m. eexists. split; [done|].
    split; [|done]. split; simpl; [|done|done]. unfold root_path. by case_bool_decide; subst.
Qed.

Lemma next_block_parse w path c stack b cache :
  before w path c stack →
  next_block b w cache =
    (f ← FlatUnixFs_try_from b;
     let w := mkWalker (current w) (next_link w) (pending w) false in
     match f with
     | Err e => mret (Err (Error_from_parsing e), w, cache)
     | Ok flat =>
         match Type_ (data flat) with
         | UnixFsData.Directory => r ← next_directory flat w; mret (r, cache)
         | HAMTShard => r ← next_shard flat w; mret (r, cache)
         | UnixFsData.Raw | UnixFsData.File => next_file flat w cache
         | UnixFsData.Metadata => mret (Err (UnsupportedType (DataType_into (Type_ (data flat)))), w, cache)
         | UnixFsData.Symlink => r ← next_symlink flat w; mret (r, cache)
         end
     end).
Proof.
  intros Hb. pose proof (be_current _ _ _ _ Hb) as Ho. unfold next_block. cbn [current].
  destruct (current w) as [[c' [| | | | |[]|] p m d]|]; try done. by specialize (Ho _ eq_refl).
Qed.
Lemma before_pending w path c stack : before w path c stack → ∃ others, Walk.pending_links w = Done (c, others).
Proof.
  intros Hb. destruct (be_next _ _ _ _ Hb) as (name & Hn & _). pose proof (be_current _ _ _ _ Hb) as Ho. unfold Walk.pending_links.
  rewrite Hn. exists (reverse ((λ l : Cid * string * nat, l.1.1) <$> Walk.pending w)).
  destruct (current w) as [[c' [| | | | |[]|] p m d]|]; try done. by specialize (Ho _ eq_refl).
Qed.

Definition kids (path : list string) (es : list (string * Cid * utree)) : list todo := pair path <$> es.

Lemma fits_kids path es links stack :
  Forall PathBuf.name_ok path → Forall2 entry_link links es → Forall (λ e, shows has e.1.2 e.2) es → fits path stack →
  fits path (kids path es ++ stack).
Proof.
  intros Hp Hl Hs [Hok Hne]. revert links Hl. induction Hs as [|e es He Hs IH]; intros links Hl; [done|].
  apply Forall2_cons_inv_r in Hl as (l & ls & (_ & _ & Hname) & Hl & _). destruct (IH _ Hl) as [H1 H2].
  split; [constructor; [done|done]|]. by split.
Qed.
Lemma fits_nil cur : fits cur [].
Proof. by split. Qed.

Definition dir_view (w : Walker) (c : Cid) (path : string) : visit :=
  match current w with None => VRoot c path | Some _ => VDir c path end.

Lemma go_on_stack p stack :
  reverse p = todo_link <$> stack →
  go_on p = (head (todo_link <$> stack), reverse (tail (todo_link <$> stack)), bool_decide (stack ≠ [])).
Proof.
  intros Hp. unfold go_on. rewrite (pop_pending_rev _ _ Hp). f_equal. by destruct stack.
Qed.

Lemma step_dir w path c es stack cache :
  before w path c stack → shows has c (UDir es) →
  ∃ b item w', has c b ∧ next_block b w cache = Done (Ok item, w', cache) ∧
    view item = dir_view w c (Slashes.join path) ∧ idle w' (kids path es ++ stack).
Proof.
  intros Hb Hsh. inversion Hsh as [| |c' b f es' Hhas Hf Hty Hsup Hlinks Hes]; subst.
  destruct (be_next _ _ _ _ Hb) as (name & Hn & Henter).
  assert (fits path (kids path es ++ stack)) as Hfits by (eapply fits_kids; try done; apply Hb).
  set (m := UnixFsMetadata.Metadata_from (data f)).
  destruct (Henter (match current w with None => RootDirectory | Some _ => Directory end) m) as (e & He & Hat & Hk & Hc).
  exists b, (match current w with None => root_item e | Some _ => directory_item e end), (set_stack e (kids path es ++ stack) (bool_decide (kids path es ++ stack ≠ []))). split; [done|].
  rewrite (next_block_parse _ _ _ _ _ _ Hb), Hf. cbn [mbind outcome_bind]. rewrite Hty. unfold next_directory. rewrite Hsup.
  unfold take_next. cbn [next_link]. rewrite Hn. cbn [mbind outcome_bind mret outcome_ret].
  rewrite (push_links_ok _ _ (reverse es)) by by apply directory_links. cbn [mbind outcome_bind Walk.pending current].
  rewrite (go_on_stack _ (kids path es ++ stack)); last first.
  { rewrite reverse_app, (be_pending _ _ _ _ Hb), fmap_app. f_equal. rewrite <-fmap_reverse, reverse_involutive. unfold kids.
    by rewrite <-list_fmap_compose. }
  unfold enter in He. unfold dir_view. fold m. destruct (current w) as [e0|].
  - unfold as_directory. rewrite He. split_and!; [done|by simpl; rewrite Hc, (ap_path _ _ Hat)|]. exists e, path. by rewrite Hk.
  - injection He as <-. split_and!; [done|by simpl in *; rewrite <-(ap_path _ _ Hat)|]. by eexists _, path.
Qed.

Lemma step_link w path c target stack cache :
  before w path c stack → shows has c (ULink target) →
  ∃ b item w', has c b ∧ next_block b w cache = Done (Ok item, w', cache) ∧
    view item = VLink target c (Slashes.join path) ∧ idle w' stack.
Proof.
  intros Hb Hsh. inversion Hsh as [|c' b f target' Hhas Hf Hty Htar|]; subst.
  destruct (be_next _ _ _ _ Hb) as (name & Hn & Henter).
  destruct (Henter Symlink (UnixFsMetadata.Metadata_from (data f))) as (e & He & Hat & Hk & Hc).
  eexists b, _, (set_stack e stack (bool_decide (stack ≠ []))). split; [done|].
  rewrite (next_block_parse _ _ _ _ _ _ Hb), Hf. cbn [mbind outcome_bind]. rewrite Hty. unfold next_symlink, take_next.
  cbn [next_link current Walk.pending]. rewrite Hn. cbn [mbind outcome_bind mret outcome_ret]. unfold enter in He. unfold as_symlink.
  cbn [mbind outcome_bind mret outcome_ret] in He. rewrite He. cbn [mbind outcome_bind mret outcome_ret].
  rewrite (go_on_stack _ stack) by apply Hb. split_and!; [done|by simpl; rewrite Hc, (ap_path _ _ Hat)|].
  exists e, path. rewrite Hk. split_and!; [done|done|done|apply Hb].
Qed.

(** ** Files *)
Definition cache_ok (cache : Cache) : Prop := default [] cache = [].

Lemma start_parsed b f cache v r :
  cache_ok cache → FlatUnixFs_try_from b = Done (Ok f) → visit_start v b = Done (Ok r) →
  ∃ cache', start_from_parsed v f cache = Done (Ok (r, cache')) ∧ cache_ok cache'.
Proof.
  intros Hc Hf. unfold visit_start, start_from_parsed, FileReader.from_block, FileReader.try_parse, FileReader.from_parsed. rewrite Hf.
  cbn [fmap outcome_fmap map_err try_bind mbind outcome_bind].
  destruct (FileReader.from_parts _ _ _) as [[fr|]| |]; cbn [try_bind mbind outcome_bind]; try done.
  unfold start_from_reader. destruct (FileReader.reader_content fr) as [[content|iter] traversal].
  - destruct (maybe_target_slice _ _ _); cbn [try_bind mbind outcome_bind]; intros [= <-]; by eexists.
  - rewrite Hc. cbn [default]. destruct (collect_pending _ _ _ _ _) as [[l|]| |]; cbn [try_bind mbind outcome_bind]; try done.
    case_bool_decide; intros [= <-]; by eexists.
Qed.
Lemma continue_cache v b cache bytes next cache' :
  cache_ok cache → continue_walk v b cache = Done (Ok (bytes, next, cache')) → cache_ok cache'.
Proof.
  intros Hc. unfold continue_walk. destruct (reverse (FileVisit.pending v)) as [|[c r] popped]; [done|].
  destruct (FileReader.traversal_continue_walk _ _ _) as [[fr|]| |]; cbn [try_bind mbind outcome_bind]; try done.
  destruct (FileReader.reader_content fr) as [[content|iter] traversal].
  - destruct (maybe_target_slice _ _ _); cbn [try_bind mbind outcome_bind]; try done. case_bool_decide; by intros [= <- <- <-].
  - destruct (collect_pending _ _ _ _ _) as [[l|]| |]; cbn [try_bind mbind outcome_bind]; try done. by intros [= <- <- <-].
Qed.

Lemma step_file w path c t stack cache :
  before w path c stack → shows has c (UFile t) → cache_ok cache →
  ∃ b item w' cache' bytes more, has c b ∧ next_block b w cache = Done (Ok item, w', cache') ∧ cache_ok cache' ∧
    view item = VFile (mkSegment bytes true (negb more)) c (Slashes.join path) (tree_size t) ∧
    if more then ∃ slots, in_file w' c (tree_size t) path slots stack ∧
      bytes ++ stack_bytes None slots = content t ∧ stack_blocks slots < tree_blocks t
    else bytes = content t ∧ idle w' stack.
Proof.
  intros Hb Hsh Hcache. inversion Hsh as [c' b f t' cs Hhas Hf Hd Hsize Hch| |]; subst.
  destruct (be_next _ _ _ _ Hb) as (name & Hn & Henter).
  destruct (visit_start_ok get_block has None Hget b f t cs Hf Hd Hsize Hch) as (bytes & m & v & Hstart & Hv).
  destruct (start_parsed _ _ _ _ _ Hcache Hf Hstart) as (cache' & Hparsed & Hcache').
  destruct (Henter (File v (tree_size t)) m) as (e & He & Hat & Hk & Hc).
  eexists b, _, (set_stack e stack (bool_decide (is_Some v) || bool_decide (stack ≠ []))), cache', bytes, (bool_decide (is_Some v)).
  split; [done|]. rewrite (next_block_parse _ _ _ _ _ _ Hb), Hf. cbn [mbind outcome_bind].
  assert (∀ (A : Type) (d h r me l : A), match Type_ (data f) with
    UnixFsData.Raw | UnixFsData.File => r | UnixFsData.Directory => d | HAMTShard => h | UnixFsData.Metadata => me | UnixFsData.Symlink => l end = r) as Hty.
  { destruct Hd as [[[-> | ->] _] _]; done. }
  rewrite Hty. unfold next_file. rewrite Hparsed. cbn [mbind outcome_bind]. unfold take_next. cbn [next_link current Walk.pending].
  rewrite Hn. cbn [mbind outcome_bind mret outcome_ret]. unfold enter in He. unfold as_file.
  cbn [mbind outcome_bind mret outcome_ret] in He. rewrite He. cbn [mbind outcome_bind mret outcome_ret].
  rewrite (pop_pending_rev _ (todo_link <$> stack)) by apply Hb.
  split; [unfold set_stack; do 5 f_equal; by destruct stack|]. split; [done|]. split; [by simpl; rewrite Hc, (ap_path _ _ Hat)|].
  - destruct v as [v|]; cbn [is_Some]; [rewrite bool_decide_eq_true_2 by done|rewrite bool_decide_eq_false_2 by by intros []].
    + destruct Hv as (-> & slots & Hne & Hvis & Hbytes & Hbl). exists slots. rewrite clip_None in Hbytes. split; [|done].
      exists e, v. simpl. split_and!; try done; apply Hb.
    + rewrite clip_None in Hv. split; [done|]. exists e, path. rewrite Hk. split_and!; try done; apply Hb.
Qed.

Lemma in_file_pending w c size cur x slots stack :
  in_file w c size cur (x :: slots) stack → ∃ others, Walk.pending_links w = Done (x.1.1, others).
Proof.
  intros (e & v & -> & _ & Hk & _ & [Hp _ _ _ _] & _). unfold Walk.pending_links, set_stack. simpl. rewrite Hk.
  unfold FileVisit.pending_links. rewrite Hp. destruct x as [[xc r] t]. simpl. eexists. done.
Qed.

Lemma step_in_file w c size cur x slots stack cache :
  in_file w c size cur (x :: slots) stack → cache_ok cache →
  ∃ b item w' cache' bytes more, has x.1.1 b ∧ next_block b w cache = Done (Ok item, w', cache') ∧ cache_ok cache' ∧
    view item = VFile (mkSegment bytes false (negb more)) c (Slashes.join cur) size ∧
    if more then ∃ slots', in_file w' c size cur slots' stack ∧
      bytes ++ stack_bytes None slots' = stack_bytes None (x :: slots) ∧ stack_blocks slots' < stack_blocks (x :: slots)
    else bytes = stack_bytes None (x :: slots) ∧ idle w' stack.
Proof.
  intros (e & v & -> & Hat & Hk & Hc & Hvis & _ & Hfits) Hcache. pose proof (vis_ok _ _ _ _ Hvis) as Hok.
  apply Forall_cons in Hok as [(Hrep & _) _]. destruct Hrep as [b f cs Hhas Hp Hd Hm Hch].
  assert (∃ bytes next cache', continue_walk v b cache = Done (Ok (bytes, next, cache')) ∧
    match next with
    | Some v' => ∃ slots', slots' ≠ [] ∧ visiting has None v' slots' ∧ bytes ++ stack_bytes None slots' = stack_bytes None (x :: slots) ∧
        stack_blocks slots' < stack_blocks (x :: slots)
    | None => bytes = stack_bytes None (x :: slots)
    end) as (bytes & next & cache' & Hrun & Hnext).
  { destruct x as [xr [chunk|ts]] eqn:Ex.
    - destruct (walk_leaf has None v _ slots b f cs chunk cache Hvis eq_refl Hp Hd Hm) as (next & cache' & Hrun & Hnext).
      exists (slot_bytes None x), next, cache'. subst x. split; [done|]. destruct next as [v'|].
      + exists slots. destruct Hnext. split_and!; try done. unfold stack_blocks. simpl. lia.
      + subst slots. unfold stack_bytes. simpl. by rewrite app_nil_r.
    - destruct (walk_node has None v _ slots b f cs ts cache Hvis eq_refl Hp Hd Hm Hch) as (v' & stack' & Hrun & Hne & Hv' & Hby & Hbl).
      exists [], (Some v'), cache. split; [done|]. exists (stack' ++ slots). split_and!; [by destruct stack'|done| |].
      + unfold stack_bytes in *. rewrite fmap_app, concat_app, Hby. done.
      + unfold stack_blocks in *. rewrite sum_list_with_app. simpl in *. lia. }
  exists b, (WFile (mkSegment bytes false (negb (bool_decide (is_Some next)))) c (e_path e) (e_metadata e) size),
    (set_stack (mkEntry c (File next size) (e_path e) (e_metadata e) (e_depth e)) stack
    (bool_decide (is_Some next) || bool_decide (stack ≠ []))), cache', bytes, (bool_decide (is_Some next)).
  split; [done|]. destruct e as [ec ek ep em ed]. simpl in Hk, Hc. subst ek ec. unfold next_block, set_stack. cbn [current].
  rewrite Hrun. cbn [mbind outcome_bind mret outcome_ret next_link Walk.pending]. destruct Hat as [Hp1 Hd1 Hn1]. simpl in Hp1, Hd1.
  split; [do 5 f_equal; by destruct stack|]. split; [by eapply continue_cache|]. split; [by simpl; rewrite Hp1|].
  - destruct next as [v'|]; cbn [is_Some]; [rewrite bool_decide_eq_true_2 by done|rewrite bool_decide_eq_false_2 by by intros []].
    + destruct Hnext as (slots' & Hne & Hv' & Hby & Hbl). exists slots'. split; [|done]. eexists _, v'. by split_and!.
    + split; [done|]. eexists _, cur. by split_and!.
Qed.

(** ** The whole walk *)
Definition all_shown (stack : list todo) (vss : list (list visit)) : Prop :=
  Forall2 (λ x vs, shown (x.1 ++ [x.2.1.1]) x.2.1.2 x.2.2 vs) stack vss.
Definition file_visits (c : Cid) (path : list string) (size : Z) (l : list FileSegment) : list visit :=
  (λ s, VFile s c (Slashes.join path) size) <$> l.

Definition idle_walks (n : nat) : Prop :=
  ∀ w stack cache, cache_ok cache → idle w stack → todo_blocks stack ≤ n →
  ∃ items vss, walks w cache items ∧ length items ≤ n ∧ view <$> items = concat vss ∧ all_shown stack vss.
Definition file_walks (n : nat) : Prop :=
  ∀ w c size cur slots stack cache, cache_ok cache → in_file w c size cur slots stack → stack_blocks slots + todo_blocks stack ≤ n →
  ∃ items l vss, walks w cache items ∧ length items ≤ n ∧ view <$> items = file_visits c cur size (mark false l) ++ concat vss ∧
    l ≠ [] ∧ concat l = stack_bytes None slots ∧ all_shown stack vss.
(** The rest of an entry's walk, from the root or from a stack. *)
Definition entry_shown (w : Walker) (path : list string) (c : Cid) (u : utree) (vs : list visit) : Prop :=
  match u with
  | UDir es => ∃ vss, Forall2 (λ e vs, shown (path ++ [e.1.1]) e.1.2 e.2 vs) es vss ∧ vs = dir_view w c (Slashes.join path) :: concat vss
  | _ => shown path c u vs
  end.

Lemma walks_cons w cache c others b item w' cache' items :
  should_continue w = true → Walk.pending_links w = Done (c, others) → has c b →
  next_block b w cache = Done (Ok item, w', cache') → walks w' cache' items → walks w cache (item :: items).
Proof. intros ? ? Hb ? ?. eapply walks_step; [done|done|by apply Hget|done|done]. Qed.

Lemma ublocks_pos u : 0 < ublocks u.
Proof. destruct u as [[]| |]; simpl; lia. Qed.
Lemma kids_blocks path es stack : todo_blocks (kids path es ++ stack) = sum_list ((λ e, ublocks e.2) <$> es) + todo_blocks stack.
Proof. unfold todo_blocks, kids. rewrite fmap_app, sum_list_with_app. by rewrite <-list_fmap_compose. Qed.
Lemma mark_cons (first : bool) b l : l ≠ [] → mark first (b :: l) = mkSegment b first false :: mark false l.
Proof. intros. simpl. by rewrite bool_decide_eq_false_2. Qed.

Lemma entry_walks n :
  idle_walks n → file_walks n →
  ∀ w path c u stack cache, cache_ok cache → before w path c stack → shows has c u → ublocks u + todo_blocks stack ≤ S n →
  ∃ items vs vss, walks w cache items ∧ length items ≤ S n ∧ view <$> items = vs ++ concat vss ∧
    entry_shown w path c u vs ∧ all_shown stack vss.
Proof.
  intros IHi IHf w path c u stack cache Hcache Hb Hsh Hn. destruct (before_pending _ _ _ _ Hb) as (others & Hpl).
  pose proof (be_more _ _ _ _ Hb) as Hmore. destruct u as [t|target|es].
  - destruct (step_file _ _ _ _ _ _ Hb Hsh Hcache) as (b & item & w' & cache' & bytes & more & Hhas & Hrun & Hc' & Hview & Hmo).
    destruct more.
    + destruct Hmo as (slots & Hin & Hby & Hbl). simpl in Hn.
      destruct (IHf _ _ _ _ _ _ _ Hc' Hin) as (items & l & vss & Hw & Hlen & Hv & Hl & Hcl & Hall); [lia|].
      exists (item :: items), (file_visits c path (tree_size t) (mark true (bytes :: l))), vss.
      split; [by eapply walks_cons|]. split; [simpl; lia|]. split_and!; [|constructor; [done|]|done].
      * rewrite fmap_cons, Hview, Hv, mark_cons by done. done.
      * simpl. by rewrite Hcl.
    + destruct Hmo as (-> & Hidle). pose proof (ublocks_pos (UFile t)).
      destruct (IHi _ _ _ Hc' Hidle) as (items & vss & Hw & Hlen & Hv & Hall); [lia|].
      exists (item :: items), (file_visits c path (tree_size t) (mark true [content t])), vss.
      split; [by eapply walks_cons|]. split; [simpl; lia|]. split_and!; [|by apply (shown_file path c t [content t]); [|apply app_nil_r]|done].
      rewrite fmap_cons, Hview, Hv. done.
  - destruct (step_link _ _ _ _ _ cache Hb Hsh) as (b & item & w' & Hhas & Hrun & Hview & Hidle). simpl in Hn.
    destruct (IHi _ _ _ Hcache Hidle) as (items & vss & Hw & Hlen & Hv & Hall); [lia|].
    exists (item :: items), [VLink target c (Slashes.join path)], vss. split; [by eapply walks_cons|]. split; [simpl; lia|].
    split_and!; [|constructor|done]. by rewrite fmap_cons, Hview, Hv.
  - destruct (step_dir _ _ _ _ _ cache Hb Hsh) as (b & item & w' & Hhas & Hrun & Hview & Hidle). simpl in Hn.
    destruct (IHi _ _ _ Hcache Hidle) as (items & vss & Hw & Hlen & Hv & Hall); [rewrite kids_blocks; lia|].
    apply Forall2_app_inv_l in Hall as (vss1 & vss2 & Hall1 & Hall2 & ->). unfold kids in Hall1. rewrite Forall2_fmap_l in Hall1.
    exists (item :: items), (dir_view w c (Slashes.join path) :: concat vss1), vss2. split; [by eapply walks_cons|].
    split; [simpl; lia|]. split_and!; [|by exists vss1|done]. by rewrite fmap_cons, Hview, Hv, concat_app.
Qed.

Lemma idle_step n : idle_walks n → file_walks n → idle_walks (S n).
Proof.
  intros IHi IHf w stack cache Hcache Hidle Hn. destruct stack as [|[pp [[name c] u]] stack].
  { destruct Hidle as (e & cur & -> & _). exists [], []. split; [by apply walks_done|]. split; [simpl; lia|]. split; [done|constructor]. }
  destruct (idle_before _ _ _ _ _ _ Hidle) as [Hb Hsh].
  destruct (entry_walks n IHi IHf w _ c u stack cache Hcache Hb Hsh) as (items & vs & vss & Hw & Hlen & Hv & Hs & Hall); [done|].
  exists items, (vs :: vss). split_and!; [done|done|done|]. constructor; [|done]. simpl. destruct u as [t|target|es]; [done|done|].
  destruct Hs as (vss' & Hs & ->). destruct Hidle as (e & cur & -> & _). by constructor.
Qed.
Lemma file_step n : idle_walks n → file_walks n → file_walks (S n).
Proof.
  intros IHi IHf w c size cur slots stack cache Hcache Hin Hn.
  destruct slots as [|x slots]; [by destruct Hin as (? & ? & _ & _ & _ & _ & _ & ? & _)|].
  destruct (in_file_pending _ _ _ _ _ _ _ Hin) as (others & Hpl).
  assert (should_continue w = true) as Hmore by by destruct Hin as (? & ? & -> & _).
  destruct (step_in_file _ _ _ _ _ _ _ _ Hin Hcache) as (b & item & w' & cache' & bytes & more & Hhas & Hrun & Hc' & Hview & Hmo).
  assert (0 < stack_blocks (x :: slots)) as Hpos by (unfold stack_blocks; destruct x as [? []]; simpl; lia). destruct more.
  - destruct Hmo as (slots' & Hin' & Hby & Hbl).
    destruct (IHf _ _ _ _ _ _ _ Hc' Hin') as (items & l & vss & Hw & Hlen & Hv & Hl & Hcl & Hall); [lia|].
    exists (item :: items), (bytes :: l), vss. split; [by eapply walks_cons|]. split; [simpl; lia|]. rewrite mark_cons by done.
    split_and!; [by rewrite fmap_cons, Hview, Hv|done|by simpl; rewrite Hcl|done].
  - destruct Hmo as (-> & Hidle). destruct (IHi _ _ _ Hc' Hidle) as (items & vss & Hw & Hlen & Hv & Hall); [lia|].
    exists (item :: items), [stack_bytes None (x :: slots)], vss. split; [by eapply walks_cons|]. split; [simpl; lia|].
    split_and!; [by rewrite fmap_cons, Hview, Hv|done|by simpl; rewrite app_nil_r|done].
Qed.
Lemma all_walks n : idle_walks n ∧ file_walks n.
Proof.
  induction n as [|n [IHi IHf]]; [|split; [by apply idle_step|by apply file_step]]. split.
  - intros w stack cache _ Hidle Hn. destruct stack as [|x stack]; [|pose proof (ublocks_pos x.2.2); unfold todo_blocks in Hn; simpl in Hn; lia].
    destruct Hidle as (e & cur & -> & _). exists [], []. split; [by apply walks_done|]. split; [done|]. split; [done|constructor].
  - intros w c size cur [|x slots] stack cache _ Hin Hn; [by destruct Hin as (? & ? & _ & _ & _ & _ & _ & ? & _)|].
    unfold stack_blocks in Hn. destruct x as [? []]; simpl in Hn; lia.
Qed.

(** What a walk from the root [c], called [name], yields. *)
Definition shown_root (name : string) (c : Cid) (u : utree) (vs : list visit) : Prop :=
  entry_shown (Walker_new c name) (root_path name) c u vs.

Lemma root_walks c name u :
  shows has c u → name = EmptyString ∨ PathBuf.name_ok name →
  ∃ items, walks (Walker_new c name) None items ∧ length items ≤ ublocks u ∧ shown_root name c u (view <$> items).
Proof.
  intros Hsh Hname. destruct (ublocks u) as [|n] eqn:Hn; [pose proof (ublocks_pos u); lia|]. destruct (all_walks n) as [Hi Hf].
  destruct (entry_walks n Hi Hf (Walker_new c name) _ c u [] None eq_refl (new_before c name Hname) Hsh)
    as (items & vs & vss & Hw & Hlen & Hv & Hs & Hall); [unfold todo_blocks; simpl; lia|].
  apply Forall2_nil_inv_l in Hall as ->. rewrite app_nil_r in Hv. exists items. rewrite Hv. done.
Qed.
End proofs.
End WalkProofs.
