(* ===== verification/WalkClaims.v ===== *)
(** * Walking, listing and getting a tree: what they promise

    The items of a walk (WalkProofs.v) as the loops of [ls] and [get] use them. *)
From stdpp Require Import base gmap list strings.
From Stdlib Require Import Strings.Byte.
From S2P Require Import Prelude Protobuf UnixFsPb PbInstance FileTree FileReader FileAdder FileVisit UnixFsDir Path Walk WalkProofs.

(** ** Removing the root from a path *)
Module Relative.
Import Slashes UnixFsWalk.

Definition ends_with (r s : string) : Prop := ∃ a, s = a +:+ r.
Definition occurs (p s : string) : Prop := ∃ a b, s = a +:+ (p +:+ b).

Lemma ends_length r s : ends_with r s → String.length r ≤ String.length s.
Proof. intros [a ->]. induction a as [|x a IH]; [done|]. by apply le_S. Qed.
Lemma strip_prefix_app p s : strip_prefix p (p +:+ s) = Some s.
Proof. induction p as [|a p IH]; [done|]. simpl. by rewrite bool_decide_eq_true_2. Qed.
Lemma strip_prefix_Some p s r : strip_prefix p s = Some r → s = p +:+ r.
Proof.
  revert s. induction p as [|a p IH]; intros s; [by intros [= ->]|]. destruct s as [|b s]; [done|]. simpl.
  case_bool_decide; [subst|done]. by intros ->%IH.
Qed.
Lemma remove_none fuel p s : ¬ occurs p s → remove_all fuel p s = s.
Proof.
  revert s. induction fuel as [|fuel IH]; intros s Hs; [done|]. simpl. destruct (strip_prefix p s) as [r|] eqn:E.
  { destruct Hs. exists EmptyString, r. by apply strip_prefix_Some in E. }
  destruct s as [|a s]; [done|]. f_equal. apply IH. intros (x & y & ->). apply Hs. by exists (String a x), y.
Qed.

Lemma split_slash x s : split (x +:+ String slash s) = split x ++ split s.
Proof.
  destruct (split_cons x) as (h & t & Hx), (split_cons s) as (h' & t' & Hs).
  rewrite <-(split_join (split x ++ split s)).
  - f_equal. rewrite join_app by by rewrite ?Hx, ?Hs. by rewrite !join_split.
  - by rewrite Hx.
  - apply Forall_app. split; apply split_no_slash.
Qed.
Lemma split_suffix a r : no_slash r → ∃ pre, pre +:+ r ∈ split (a +:+ r).
Proof.
  intros Hr. induction a as [|x a [pre IH]].
  - exists EmptyString. simpl. rewrite split_single by done. set_solver.
  - simpl. destruct (split_cons (a +:+ r)) as (h & t & E). rewrite E in *. case_match; [exists pre; set_solver|].
    apply elem_of_cons in IH as [IH|IH]; [exists (String x pre); rewrite <-IH; simpl; set_solver|exists pre; set_solver].
Qed.

Lemma relative_join r rest :
  PathBuf.name_ok r → rest ≠ [] → Forall PathBuf.name_ok rest → Forall (λ s, ¬ ends_with r s) rest →
  relative r (join (r :: rest)) = join rest.
Proof.
  intros (_ & _ & Hr) Hne Hok Hends. unfold relative. rewrite join_cons by done.
  replace (r +:+ String slash (join rest)) with ((r +:+ String slash EmptyString) +:+ join rest) by by rewrite app_string_assoc.
  cbn [remove_all]. rewrite strip_prefix_app. apply remove_none. intros (a & b & E).
  replace (a +:+ ((r +:+ String slash EmptyString) +:+ b)) with ((a +:+ r) +:+ String slash b) in E
    by (rewrite !app_string_assoc; done).
  apply (f_equal split) in E. rewrite split_slash, split_join in E by (done || by apply PathBuf.names_no_slash).
  destruct (split_suffix a r Hr) as (pre & Hpre). rewrite E in Hends. apply Forall_app in Hends as [Hends _].
  eapply Forall_forall in Hends; [|exact Hpre]. apply Hends. by exists pre.
Qed.
End Relative.

Module WalkClaims.
Import Merkledag UnixFsData Flat FileTree Walk WalkTree WalkProofs UnixFsWalk.
Section claims.
  Context {ids : Ids} {cc : CidCodec} {qp : QuickProtobuf}.
  Context {LoadError : Type} (get_block : Cid → result (list byte) LoadError).

(** The blocks that the repository answers with. *)
Definition in_repo (c : Cid) (b : list byte) : Prop := get_block c = Ok b.

(** ** The content of the files *)
Definition visit_bytes (v : visit) : list byte := match v with VFile s _ _ _ => bytes s | _ => [] end.
Definition visits_bytes (vs : list visit) : list byte := concat (visit_bytes <$> vs).
Definition item_bytes (i : ContinuedWalk) : list byte := visit_bytes (view i).

Lemma mark_bytes (f : FileSegment → visit) first l : (∀ s, visit_bytes (f s) = bytes s) → visits_bytes (f <$> mark first l) = concat l.
Proof.
  intros Hf. unfold visits_bytes. revert first. induction l as [|b l IH]; intros first; [done|]. simpl. by rewrite Hf, IH.
Qed.
Lemma visits_app vs vs' : visits_bytes (vs ++ vs') = visits_bytes vs ++ visits_bytes vs'.
Proof. unfold visits_bytes. by rewrite fmap_app, concat_app. Qed.

Lemma shown_bytes u : ∀ path c vs, shown path c u vs → visits_bytes vs = ucontent u.
Proof.
  induction u as [t|target|es IH] using utree_nested_ind; intros path c vs Hs; inversion Hs; subst; [by rewrite mark_bytes|done|].
  change (visits_bytes (concat vss) = concat ((λ e, ucontent e.2) <$> es)). clear Hs.
  match goal with H : Forall2 _ es vss |- _ => rename H into Hall end. revert IH. induction Hall as [|e vs es vss He Hall IHl]; [done|].
  intros [H1 H2]%Forall_cons. cbn [concat fmap list_fmap]. by rewrite visits_app, (H1 _ _ _ He), IHl.
Qed.
Lemma root_bytes name c u vs : shown_root name c u vs → visits_bytes vs = ucontent u.
Proof.
  unfold shown_root. destruct u as [t|target|es]; simpl; [by apply shown_bytes|by apply shown_bytes|].
  intros (vss & Hs & ->). exact (shown_bytes (UDir es) (root_path name) c _ (shown_dir _ c _ _ Hs)).
Qed.

(** ** Getting *)
Section get.
  Context {OsFile IoError : Type}.
  Context (write_all : list byte → OsFile → result unit IoError * OsFile) (sync_all : OsFile → result unit IoError * OsFile).
  Context (file_content : OsFile → list byte).

(** A file that takes what is written to it. *)
Record good_file : Prop := {
  gf_write : ∀ b f, ∃ f', write_all b f = (Ok (), f') ∧ file_content f' = file_content f ++ b;
  gf_sync : ∀ f, ∃ f', sync_all f = (Ok (), f') ∧ file_content f' = file_content f;
}.
Definition in_progress (s : UnixfsStatus (LoadError := LoadError) (IoError := IoError)) : Prop :=
  match s with ProgressStatus _ _ => True | _ => False end.

(** The state after [b] was written. *)
Definition wrote (p p' : Progress) (b : list byte) : Prop :=
  written p' = (written p + vec_len b)%Z ∧ file_content (os_file p') = file_content (os_file p) ++ b.

Lemma get_slice_ok (Hf : good_file) slice p :
  (0 ≤ written p)%Z → (written p + vec_len slice ≤ usize_max)%Z →
  ∃ sts p', get_slice (LoadError := LoadError) write_all sync_all slice p = Done (sts, Ok p') ∧
    Forall in_progress sts ∧ wrote p p' slice.
Proof.
  intros H0 Hmax. unfold get_slice. case_bool_decide as Hs.
  - subst slice. exists [], p. split_and!; [done|done|]. split; [by rewrite Z.add_0_r|by rewrite app_nil_r].
  - destruct (gf_write Hf slice (os_file p)) as (f & -> & Hw). destruct (gf_sync Hf f) as (f' & -> & Hs').
    rewrite usize_add_ok by (pose proof (Pb.vec_len_nonneg slice); lia). cbn [mbind outcome_bind]. eexists _, _. split; [done|].
    split; [by repeat constructor|]. split; simpl; [done|congruence].
Qed.
Lemma get_item_ok (Hf : good_file) item p :
  (0 ≤ written p)%Z → (written p + vec_len (item_bytes item) ≤ usize_max)%Z →
  ∃ sts p', get_item (LoadError := LoadError) write_all sync_all item p = Done (sts, Ok p') ∧
    Forall in_progress sts ∧ wrote p p' (item_bytes item).
Proof.
  intros H0 Hmax. destruct item as [c path|c path m|s c path m size|c path m|target c path m]; simpl;
    try by exists [], p; split_and!; [done|done|]; (split; [by rewrite Z.add_0_r|by rewrite app_nil_r]).
  unfold item_bytes in *. simpl in *.
  set (p1 := if first_block s then mkProgress (written p) (Some size) (os_file p) else p).
  destruct (get_slice_ok Hf (bytes s) p1) as (sts & p' & Hrun & Hsts & Hw1 & Hw2);
    [by unfold p1; destruct (first_block s)|by unfold p1; destruct (first_block s)|].
  assert (written p1 = written p ∧ os_file p1 = os_file p) as [E1 E2] by (by unfold p1; destruct (first_block s)).
  rewrite E1, E2 in *. unfold p1 in Hrun. destruct (first_block s); simpl; rewrite Hrun; cbn [mbind outcome_bind];
    eexists _, p'; (split; [done|split; [|done]]); repeat (apply Forall_cons; split; [done|]); apply Forall_app;
    (split; [done|]); by destruct (last_block s); repeat constructor.
Qed.

Lemma get_loop_ok (Hf : good_file) w cache items :
  walks get_block w cache items → ∀ fuel p, length items < fuel → (0 ≤ written p)%Z →
  (written p + vec_len (concat (item_bytes <$> items)) ≤ usize_max)%Z →
  ∃ sts total f, get_loop get_block write_all sync_all fuel w cache p =
      Done (sts ++ [CompletedStatus (written p + vec_len (concat (item_bytes <$> items)))%Z total], f) ∧
    Forall in_progress sts ∧ file_content f = file_content (os_file p) ++ concat (item_bytes <$> items).
Proof.
  induction 1 as [w cache Hc|w cache c others b item w' cache' items Hc Hpl Hb Hn Hw IH]; intros fuel p Hfuel H0 Hmax.
  - destruct fuel as [|fuel]; [simpl in Hfuel; lia|]. exists [], (total_size p), (os_file p). cbn [get_loop]. rewrite Hc. simpl.
    split_and!; [by rewrite Z.add_0_r|done|by rewrite app_nil_r].
  - destruct fuel as [|fuel]; [simpl in Hfuel; lia|]. cbn [fmap list_fmap concat] in *. rewrite Pb.vec_len_app in *.
    pose proof (Pb.vec_len_nonneg (concat (item_bytes <$> items))). pose proof (Pb.vec_len_nonneg (item_bytes item)).
    destruct (get_item_ok Hf item p H0) as (sts & p' & Hrun & Hsts & Hw1 & Hw2); [unfold item_bytes in *; lia|].
    destruct (IH fuel p') as (sts' & total & f & Hloop & Hsts' & Hcont); [simpl in Hfuel; lia|lia|rewrite Hw1; lia|].
    exists (sts ++ sts'), total, f. cbn [get_loop]. rewrite Hc. cbn [negb]. rewrite Hpl. cbn [mbind outcome_bind fst]. rewrite Hb, Hn.
    cbn [mbind outcome_bind]. rewrite Hrun. cbn [mbind outcome_bind]. rewrite Hloop. cbn [mbind outcome_bind fst snd].
    split_and!; [|by apply Forall_app|by rewrite Hcont, Hw2, (assoc_L (++))]. rewrite Hw1, (assoc_L (++)). by rewrite Z.add_assoc.
Qed.
End get.

(** ** Listing *)

(** What is listed below the root: a directory before its entries, a file as often
    as it has blocks, no symlinks. *)
Inductive listed : list string → Cid → utree → list (NodeItem (LoadError := LoadError)) → Prop :=
  | listed_file rel c t n : listed rel c (UFile t) (replicate (S n) (ItemFile c (Slashes.join rel) (tree_size t)))
  | listed_link rel c target : listed rel c (ULink target) []
  | listed_dir rel c es iss :
      Forall2 (λ e its, listed (rel ++ [e.1.1]) e.1.2 e.2 its) es iss →
      listed rel c (UDir es) (ItemDirectory c (Slashes.join rel) :: concat iss).

Definition list_visit (root_directory : string) (v : visit) : list (NodeItem (LoadError := LoadError)) :=
  match v with
  | VBucket _ _ | VLink _ _ _ => []
  | VFile _ c path size => [ItemFile c (relative root_directory path) size]
  | VRoot c path => [ItemRootDirectory c path]
  | VDir c path => [ItemDirectory c (relative root_directory path)]
  end.
Definition list_visits (root_directory : string) (vs : list visit) : list (NodeItem (LoadError := LoadError)) :=
  concat (list_visit root_directory <$> vs).
Definition not_root (v : visit) : Prop := match v with VRoot _ _ => False | _ => True end.

Lemma list_app root vs vs' : list_visits root (vs ++ vs') = list_visits root vs ++ list_visits root vs'.
Proof. unfold list_visits. by rewrite fmap_app, concat_app. Qed.

Lemma ls_item_visit item root :
  not_root (view item) → ls_item (LoadError := LoadError) item root = (list_visit root (view item), root).
Proof. by destruct item. Qed.

Lemma ls_loop_ok w cache items :
  walks get_block w cache items → ∀ fuel root, length items < fuel → Forall not_root (view <$> items) →
  ls_loop get_block fuel w cache root = Done (list_visits root (view <$> items)).
Proof.
  induction 1 as [w cache Hc|w cache c others b item w' cache' items Hc Hpl Hb Hn Hw IH]; intros fuel root Hfuel Hroot;
    (destruct fuel as [|fuel]; [simpl in Hfuel; lia|]); cbn [ls_loop]; rewrite Hc; [done|].
  cbn [negb]. rewrite Hpl. cbn [mbind outcome_bind fst]. rewrite Hb, Hn. cbn [mbind outcome_bind].
  apply Forall_cons in Hroot as [Hr Hroot]. rewrite ls_item_visit by done. rewrite IH by (done || simpl in Hfuel; lia). done.
Qed.

(** The names of the entries below a tree. *)
Fixpoint unames (u : utree) : list string :=
  match u with UDir es => concat ((λ e, e.1.1 :: unames e.2) <$> es) | _ => [] end.
Definition no_suffix (root : string) (l : list string) : Prop := Forall (λ s, ¬ Relative.ends_with root s) l.

Lemma mark_listed c path size root rel l :
  relative root path = rel → l ≠ [] →
  ∀ first, ∃ n, list_visits root ((λ s, VFile s c path size) <$> mark first l) = replicate (S n) (ItemFile c rel size).
Proof.
  intros Hp Hl. induction l as [|b l IH]; [done|]. intros first. cbn [mark fmap list_fmap].
  set (rest := (λ s, VFile s c path size) <$> mark false l) in *.
  change (VFile ?s c path size :: rest) with ([VFile s c path size] ++ rest). rewrite list_app. unfold list_visits at 1. simpl. rewrite Hp.
  destruct l as [|b' l]; [by exists 0|]. destruct (IH ltac:(done) false) as (n & Hn). exists (S n). unfold rest. by rewrite Hn.
Qed.

Lemma shows_entries has c es e : shows has c (UDir es) → e ∈ es → PathBuf.name_ok e.1.1 ∧ shows has e.1.2 e.2.
Proof.
  intros Hs He. inversion Hs as [| |c' b f es' _ _ _ _ Hl Hes]; subst. split; [|by eapply Forall_forall in Hes].
  apply list_elem_of_lookup in He as [i Hi]. destruct (Forall2_lookup_r _ _ _ _ _ Hl Hi) as (l & _ & _ & _ & ?). done.
Qed.

Lemma unames_entry root es e : no_suffix root (unames (UDir es)) → e ∈ es → ¬ Relative.ends_with root e.1.1 ∧ no_suffix root (unames e.2).
Proof.
  unfold no_suffix. rewrite !Forall_forall. intros Hs He.
  assert (∀ s, s ∈ e.1.1 :: unames e.2 → s ∈ unames (UDir es)) as Hin.
  { intros s Hx. apply list_elem_of_In, in_concat. exists (e.1.1 :: unames e.2). split; apply list_elem_of_In; [|done].
    apply list_elem_of_fmap. by exists e. }
  split; [apply Hs, Hin; set_solver|intros s Hx; apply Hs, Hin; set_solver].
Qed.

Lemma entries_listed root rel es vss :
  Forall (λ e, ∀ vs, shown (root :: rel ++ [e.1.1]) e.1.2 e.2 vs →
    Forall not_root vs ∧ listed (rel ++ [e.1.1]) e.1.2 e.2 (list_visits root vs)) es →
  Forall2 (λ e vs, shown (root :: rel ++ [e.1.1]) e.1.2 e.2 vs) es vss →
  Forall not_root (concat vss) ∧
  ∃ iss, Forall2 (λ e its, listed (rel ++ [e.1.1]) e.1.2 e.2 its) es iss ∧ list_visits root (concat vss) = concat iss.
Proof.
  intros Hes Hall. revert Hes. induction Hall as [|e vs es vss He Hall IH]; intros Hes; [split; [done|by exists []]|].
  apply Forall_cons in Hes as [H1 H2]. destruct (H1 _ He) as [Hr Hl], (IH H2) as (Hr' & iss & Hiss & E).
  split; [by apply Forall_app|]. exists (list_visits root vs :: iss). split; [by constructor|]. cbn [concat]. by rewrite list_app, E.
Qed.

Lemma shown_listed root u :
  PathBuf.name_ok root → ∀ has rel c vs, rel ≠ [] → Forall PathBuf.name_ok rel → no_suffix root rel → no_suffix root (unames u) →
  shows has c u → shown (root :: rel) c u vs → Forall not_root vs ∧ listed rel c u (list_visits root vs).
Proof.
  intros Hroot. induction u as [t|target|es IH] using utree_nested_ind; intros has rel c vs Hne Hok Hrel Hnames Hsh Hs; inversion Hs; subst.
  - split; [by apply Forall_fmap, Forall_true|]. destruct (mark_listed c (Slashes.join (root :: rel)) (tree_size t) root (Slashes.join rel) l
      (Relative.relative_join root rel Hroot Hne Hok Hrel) ltac:(done) true) as (n & Hn). rewrite Hn. constructor.
  - split; [by repeat constructor|constructor].
  - destruct (entries_listed root rel es vss) as (Hr & iss & Hiss & E); [|done|].
    { rewrite Forall_forall in IH |- *. intros e He vs' Hs'. destruct (shows_entries _ _ _ _ Hsh He), (unames_entry _ _ _ Hnames He).
      eapply IH; try done; [by destruct rel|..]; (apply Forall_app; split; [done|by constructor]). }
    split; [by constructor|]. change (VDir ?c ?p :: concat vss) with ([VDir c p] ++ concat vss). rewrite list_app, E.
    unfold list_visits. cbn [fmap list_fmap list_visit concat app]. rewrite Relative.relative_join by done. by constructor.
Qed.

(** The root itself sets the directory that is removed from the paths. *)
Lemma ls_root_step fuel c name item items :
  walks get_block (Walker_new c name) None (item :: items) → S (length items) < fuel → view item = VRoot c name →
  Forall not_root (view <$> items) →
  ls get_block fuel c name = Done (ItemRootDirectory c name :: list_visits name (view <$> items)).
Proof.
  intros Hw Hfuel Hv Hroot. inversion Hw as [|w cache c' others b item' w' cache' items' Hc Hpl Hb Hn Hw']; subst.
  destruct fuel as [|fuel]; [lia|]. unfold ls. cbn [ls_loop]. rewrite Hc. cbn [negb]. rewrite Hpl. cbn [mbind outcome_bind fst].
  rewrite Hb, Hn. cbn [mbind outcome_bind]. destruct item; try done. injection Hv as -> ->. cbn [ls_item].
  rewrite (ls_loop_ok _ _ _ Hw') by (done || lia). done.
Qed.

(** ** The claims *)

(** C9: a walk over a tree of plain directories, files and symlinks that the
    repository holds comes to its end after at most one step per block, and yields
    every entry once, in the order of the links, a directory before what is in it,
    with its identifier and its path from the root; the segments of a file follow
    each other, the first and the last one are marked, and together they are the
    content. *)
Theorem walk_visits c name u :
  shows in_repo c u → name = EmptyString ∨ PathBuf.name_ok name →
  ∃ items, walks get_block (Walker_new c name) None items ∧ length items ≤ ublocks u ∧ shown_root name c u (view <$> items).
Proof. by apply root_walks. Qed.

(** C29: [get] of a tree whose blocks are there, to a file that takes what is written,
    reports progress only, then completion with the number of bytes, and has written
    the content of the files one after the other. *)
Theorem get_writes {OsFile IoError : Type} write_all sync_all (file_content : OsFile → list byte) file fuel c name u :
  good_file (IoError := IoError) write_all sync_all file_content →
  shows in_repo c u → name = EmptyString ∨ PathBuf.name_ok name → (vec_len (ucontent u) ≤ usize_max)%Z → ublocks u < fuel →
  ∃ sts total f, get get_block write_all sync_all fuel c name file =
      Done (sts ++ [CompletedStatus (vec_len (ucontent u)) total], f) ∧
    Forall in_progress sts ∧ file_content f = file_content file ++ ucontent u.
Proof.
  intros Hf Hsh Hname Hmax Hfuel. destruct (root_walks get_block in_repo (λ _ _ H, H) c name u Hsh Hname) as (items & Hw & Hlen & Hs).
  assert (concat (item_bytes <$> items) = ucontent u) as Hc.
  { rewrite <-(root_bytes _ _ _ _ Hs). unfold visits_bytes. by rewrite <-list_fmap_compose. }
  destruct (get_loop_ok write_all sync_all file_content Hf _ _ _ Hw fuel (mkProgress 0 None file)) as (sts & total & f & Hrun & Hsts & Hcont);
    simpl; rewrite ?Hc; [lia|lia|lia|]. simpl in *. rewrite Hc in *. by exists sts, total, f.
Qed.

(** C28: [ls] of a tree of plain directories and files that the repository holds, called
    by the text of its identifier, yields the root and then every directory and file
    below it with its path from the root, in the order of the links, and comes to its
    end, unless an entry's name ends with that text. *)
Theorem ls_lists fuel c name es :
  shows in_repo c (UDir es) → PathBuf.name_ok name → no_suffix name (unames (UDir es)) → ublocks (UDir es) < fuel →
  ∃ iss, ls get_block fuel c name = Done (ItemRootDirectory c name :: concat iss) ∧
    Forall2 (λ e its, listed [e.1.1] e.1.2 e.2 its) es iss.
Proof.
  intros Hsh Hname Hsuf Hfuel. destruct (root_walks get_block in_repo (λ _ _ H, H) c name _ Hsh (or_intror Hname)) as (items & Hw & Hlen & Hs).
  unfold shown_root, root_path in Hs. simpl in Hs. rewrite bool_decide_eq_false_2 in Hs by apply Hname. destruct Hs as (vss & Hall & Hv).
  destruct items as [|item items]; [done|]. injection Hv as Hv Hvs. destruct (entries_listed name [] es vss) as (Hr & iss & Hiss & E); [|done|].
  { apply Forall_forall. intros e He vs Hse. destruct (shows_entries _ _ _ _ Hsh He), (unames_entry _ _ _ Hsuf He).
    apply (shown_listed name e.2 Hname in_repo [e.1.1]); try done; by constructor. }
  exists iss. split; [|done]. change (view <$> items = concat vss) in Hvs.
  rewrite (ls_root_step _ _ _ _ _ Hw); [|simpl in *; lia|done|by rewrite Hvs]. by rewrite Hvs, E.
Qed.
End claims.
End WalkClaims.

(** A directory with a file, a symlink and a directory with a file of two blocks. *)
Module WalkWitness.
Import Merkledag UnixFsData Flat FileTree Walk WalkTree WalkProofs UnixFsWalk WalkClaims.
#[local] Existing Instance bytes_ids.
#[local] Existing Instance bytes_cids.
#[local] Existing Instance WireFormat.wire_format.

Definition text : list byte := str_bytes "walk".
Definition leaf (chunk : list byte) : FileAdder.Block := FileAdder.render_and_hash (FileAdder.leaf_node chunk).
Definition node (f : FlatUnixFs) : FileAdder.Block := FileAdder.render_and_hash f.
Definition link_of (name : string) (b : FileAdder.Block) : PBLink := mkPBLink (Some (cid_to_bytes b.1)) (Some name) None.

Definition big_node : FlatUnixFs :=
  mkFlat (link_of "" <$> [leaf (take 1 text); leaf (drop 1 text)]) (mkUnixFs UnixFsData.File None (Some 4%Z) [1%Z; 3%Z] None None (Some 420%Z) None).
Definition big : FileAdder.Block := node big_node.
Definition link : FileAdder.Block := node (symlink_node "a").
Definition dir (l : list PBLink) : FlatUnixFs := mkFlat l (mkUnixFs UnixFsData.Directory None None [] None None None None).
Definition sub_node : FlatUnixFs := dir [link_of "big" big].
Definition sub : FileAdder.Block := node sub_node.
Definition root_node : FlatUnixFs := dir [link_of "a" (leaf text); link_of "d" sub; link_of "l" link].
Definition root : FileAdder.Block := node root_node.
Definition store : list FileAdder.Block := [leaf (take 1 text); leaf (drop 1 text); leaf text; big; link; sub; root].
Definition repo (c : Cid) : result (list byte) unit := match list_find (λ b, b.1 = c) store with Some (_, b) => Ok b.2 | None => Err () end.

Definition big_tree : tree := Node [Leaf (take 1 text); Leaf (drop 1 text)].
Definition entries : list (string * Cid * utree) :=
  [("a", (leaf text).1, UFile (Leaf text)); ("d", sub.1, UDir [("big", big.1, UFile big_tree)]); ("l", link.1, ULink (str_bytes "a"))].

Ltac run := vm_compute; reflexivity.

#[local] Instance opt_range_dec {A} (P : A → Prop) `{∀ a, Decision (P a)} o : Decision (Pb.opt_range P o).
Proof. destruct o; apply _. Defined.
#[local] Instance flat_range_dec f : Decision (FlatUnixFs_range f).
Proof.
  unfold FlatUnixFs_range, PBLink_range, PBLink_fields_range, UnixFs_range, UnixTime_range, u64_range, str_range. apply _.
Defined.
Lemma node_parses f : bool_decide (FlatUnixFs_range f) → FlatUnixFs_try_from (node f).2 = Done (Ok f).
Proof. intros H%bool_decide_unpack. by apply FlatUnixFs_read_write. Qed.
Ltac parses := apply node_parses; vm_compute; exact I.

Lemma leaf_here chunk : in_repo repo (leaf chunk).1 (leaf chunk).2 → bool_decide (FlatUnixFs_range (FileAdder.leaf_node chunk)) →
  default [] (Data (data (FileAdder.leaf_node chunk))) = chunk → represents (in_repo repo) (leaf chunk).1 (Leaf chunk).
Proof.
  intros H1 H2 H3. eapply (represents_intro _ _ _ _ _ [] H1 (node_parses _ H2)); [|done|constructor].
  unfold describes, is_file. split_and!; try done; by left.
Qed.
Lemma name_ok_dec s : Forall (λ a, a ≠ Slashes.slash) (String.list_ascii_of_string s) → s ≠ EmptyString → s ≠ "." → PathBuf.name_ok s.
Proof.
  intros Hs H1 H2. split_and!; try done. induction s as [|a s IH]; [done|]. clear IH. revert Hs.
  generalize (String a s). intros s'. induction s' as [|b s' IH]; [done|]. simpl. intros [? ?]%Forall_cons. split; [done|by apply IH].
Qed.
Ltac name := apply name_ok_dec; [repeat constructor; discriminate|discriminate|discriminate].
Ltac entry := split; [run|split; [reflexivity|name]].

Lemma shows_root : shows (in_repo repo) root.1 (UDir entries).
Proof.
  apply (shows_dir _ _ root.2 root_node); [run|parses|reflexivity|reflexivity|repeat (apply Forall2_cons; split; [entry|]); by apply Forall2_nil|].
  unfold entries. rewrite !Forall_cons. split_and!; [| | |done].
  - apply (shows_file _ _ (leaf text).2 (FileAdder.leaf_node text) _ []); [run|parses| |vm_compute; done|constructor].
    unfold describes, is_file. split_and!; try done; by left.
  - apply (shows_dir _ _ sub.2 sub_node); [run|parses|reflexivity|reflexivity|apply Forall2_cons; split; [entry|by apply Forall2_nil]|].
    apply Forall_cons. split; [|done].
    apply (shows_file _ _ big.2 big_node _ [(leaf (take 1 text)).1; (leaf (drop 1 text)).1]); [run|parses| |vm_compute; done|].
    + unfold describes, is_file. split_and!; try done; [by left|repeat (apply Forall2_cons; split; [run|]); by apply Forall2_nil|].
      split; [done|]. by repeat constructor.
    + repeat (apply Forall2_cons; split; [apply leaf_here; [run|vm_compute; exact I|run]|]). by apply Forall2_nil.
  - apply (shows_link _ _ link.2 (symlink_node "a")); [run|parses|reflexivity|reflexivity].
Qed.

Lemma walk_visits_witness :
  ∃ items, walks repo (Walker_new root.1 "root") None items ∧ length items ≤ 7 ∧ shown_root "root" root.1 (UDir entries) (view <$> items).
Proof. apply (walk_visits repo root.1 "root" (UDir entries)); [apply shows_root|right; name]. Defined.

Definition append (b f : list byte) : result unit unit * list byte := (Ok (), f ++ b).
Definition sync (f : list byte) : result unit unit * list byte := (Ok (), f).
Lemma get_writes_witness :
  ∃ sts total f, get repo append sync 8 root.1 "root" [] = Done (sts ++ [CompletedStatus 8 total], f) ∧
    Forall in_progress sts ∧ f = text ++ text.
Proof.
  apply (get_writes repo append sync id [] 8 root.1 "root" (UDir entries)).
  - split; intros; by eexists.
  - apply shows_root.
  - right. name.
  - vm_compute. done.
  - vm_compute. lia.
Defined.

Lemma ls_lists_witness :
  ∃ iss, ls repo 8 root.1 "root" = Done (ItemRootDirectory root.1 "root" :: concat iss) ∧
    Forall2 (λ e its, listed [e.1.1] e.1.2 e.2 its) entries iss.
Proof.
  apply ls_lists; [apply shows_root|name| |vm_compute; lia].
  repeat constructor; intros H%Relative.ends_length; simpl in H; lia.
Defined.

(** ** What a walk does not survive

    An entry without a name; a block of a file that is no UnixFS message. *)
Definition panics {A} (o : outcome A) : bool := match o with Panic => true | _ => false end.
Example empty_name_panics : panics (next_block (node (dir [link_of "" (leaf text)])).2 (Walker_new root.1 "root") None) = true.
Proof. run. Qed.
Example raw_block_panics :
  match next_block big.2 (Walker_new big.1 "root") None with
  | Done (Ok _, w, cache) => panics (next_block text w cache)
  | _ => false
  end = true.
Proof. run. Qed.
(** A file of two leaves and their parent is listed three times. *)
Example file_listed_per_block :
  match ls repo 8 big.1 "root" with Done its => bool_decide (length its = 3) | _ => false end = true.
Proof. run. Qed.
(** A bucket after a plain directory without entries. *)
Definition hamt (l : list PBLink) : FlatUnixFs :=
  mkFlat l (mkUnixFs HAMTShard (Some [x00]) None [] (Some 34%Z) (Some 256%Z) None None).
Example bucket_after_directory_panics :
  match next_block (node (hamt [link_of "00d" (node (dir [])); link_of "01" (node (hamt []))])).2 (Walker_new root.1 "root") None with
  | Done (Ok _, w, cache) =>
      match next_block (node (dir [])).2 w cache with
      | Done (Ok _, w, cache) => panics (next_block (node (hamt [])).2 w cache)
      | _ => false
      end
  | _ => false
  end = true.
Proof. run. Qed.
End WalkWitness.
