(* ===== verification/PeerBook.v ===== *)
(** * The peer book

    src/p2p/peerbook.rs: connections and their limits, dials and disconnections that
    callers wait for, and what is known of peers.  The behaviour is driven by the
    swarm of libp2p, of which only the ledger of connections and the order of its
    calls are modelled ([Action]). *)
From stdpp Require Import base gmap list strings.
From S2P Require Import Prelude.
Local Open Scope Z_scope.

(** What libp2p calls a connection, an address, a dial and the result of identify. *)
Class Swarm `{ids : Ids} := {
  ConnectionId : Type;
  ConnectionId_eq_dec :: EqDecision ConnectionId;
  ConnectionId_countable :: Countable ConnectionId;
  Multiaddr : Type;
  DialOpts : Type;
  connection_id : DialOpts → ConnectionId;
  Info : Type;
  (** [info.public_key.to_peer_id()] *)
  info_peer_id : Info → PeerId;
}.

Module PeerBook.

Definition u32_max : Z := 2 ^ 32 - 1.

(** ** Limits *)
Record ConnectionLimits := mkLimits {
  max_pending_incoming : option Z;
  max_pending_outgoing : option Z;
  max_established_incoming : option Z;
  max_established_outgoing : option Z;
  max_established_per_peer : option Z;
  max_established_total : option Z;
}.
Definition no_limits : ConnectionLimits := mkLimits None None None None None None.

Definition with_max_pending_incoming (limit : option Z) (l : ConnectionLimits) : ConnectionLimits :=
  mkLimits limit (max_pending_outgoing l) (max_established_incoming l) (max_established_outgoing l)
    (max_established_per_peer l) (max_established_total l).
Definition with_max_pending_outgoing (limit : option Z) (l : ConnectionLimits) : ConnectionLimits :=
  mkLimits (max_pending_incoming l) limit (max_established_incoming l) (max_established_outgoing l)
    (max_established_per_peer l) (max_established_total l).
Definition with_max_established_incoming (limit : option Z) (l : ConnectionLimits) : ConnectionLimits :=
  mkLimits (max_pending_incoming l) (max_pending_outgoing l) limit (max_established_outgoing l)
    (max_established_per_peer l) (max_established_total l).
Definition with_max_established_outgoing (limit : option Z) (l : ConnectionLimits) : ConnectionLimits :=
  mkLimits (max_pending_incoming l) (max_pending_outgoing l) (max_established_incoming l) limit
    (max_established_per_peer l) (max_established_total l).
Definition with_max_established (limit : option Z) (l : ConnectionLimits) : ConnectionLimits :=
  mkLimits (max_pending_incoming l) (max_pending_outgoing l) (max_established_incoming l)
    (max_established_outgoing l) (max_established_per_peer l) limit.
Definition with_max_established_per_peer (limit : option Z) (l : ConnectionLimits) : ConnectionLimits :=
  mkLimits (max_pending_incoming l) (max_pending_outgoing l) (max_established_incoming l)
    (max_established_outgoing l) limit (max_established_total l).

Record ConnectionLimitError := mkLimitError { limit : Z; current : Z }.

(** [current as u32] drops the upper bits. *)
Definition check_limit (limit : option Z) (current : nat) : result unit ConnectionLimitError :=
  let limit := default u32_max limit in
  let current := Z.of_nat current `mod` 2 ^ 32 in
  if bool_decide (limit ≤ current) then Err (mkLimitError limit current) else Ok ().

(** ** The behaviour *)
Section behaviour.
  Context `{sw : Swarm} {ho : HashOrder}.

(** The sending half of a [oneshot] channel.  A call gives its receiver an answer, or
    drops the sender, which cancels it. *)
Definition Sender : Type := nat.
Inductive Reply :=
  | Answer (tx : Sender) (r : result unit string)
  | Dropped (tx : Sender).

Inductive ToSwarm :=
  | Dial (opts : DialOpts)
  | CloseConnection (p : PeerId).

Record Config := mkConfig { wait_on_identify : bool }.
Definition Config_default : Config := mkConfig true.

(** A timer is there or not; when it fires is up to the environment ([poll]).  The
    last three round-trip times are in nanoseconds. *)
Record Behaviour := mkBehaviour {
  limits : ConnectionLimits;
  events : list ToSwarm;
  pending_connections : gmap ConnectionId Sender;
  pending_disconnection : gmap PeerId Sender;
  pending_identify_timer : gset PeerId;
  pending_identify : gmap PeerId Sender;
  peer_info : gmap PeerId Info;
  peer_rtt : gmap PeerId (Z * Z * Z);
  peer_connections : gmap PeerId (list (ConnectionId * Multiaddr));
  whitelist : gset PeerId;
  pending_inbound : gset ConnectionId;
  pending_outbound : gset ConnectionId;
  established_inbound : gset ConnectionId;
  established_outbound : gset ConnectionId;
  established_per_peer : gmap PeerId (gset ConnectionId);
  config : Config;
}.
Implicit Types b : Behaviour.

Definition new (config : Config) : Behaviour := mkBehaviour no_limits [] ∅ ∅ ∅ ∅ ∅ ∅ ∅ ∅ ∅ ∅ ∅ ∅ ∅ config.

(** What callers wait for; what is known of peers; the connections. *)
Definition upd_waiting (events : list ToSwarm) (conns : gmap ConnectionId Sender) (disc : gmap PeerId Sender)
    (timers : gset PeerId) (ident : gmap PeerId Sender) (b : Behaviour) : Behaviour :=
  mkBehaviour (limits b) events conns disc timers ident (peer_info b) (peer_rtt b) (peer_connections b) (whitelist b)
    (pending_inbound b) (pending_outbound b) (established_inbound b) (established_outbound b) (established_per_peer b) (config b).
Definition upd_known (info : gmap PeerId Info) (rtt : gmap PeerId (Z * Z * Z)) (b : Behaviour) : Behaviour :=
  mkBehaviour (limits b) (events b) (pending_connections b) (pending_disconnection b) (pending_identify_timer b)
    (pending_identify b) info rtt (peer_connections b) (whitelist b) (pending_inbound b) (pending_outbound b)
    (established_inbound b) (established_outbound b) (established_per_peer b) (config b).
Definition upd_policy (limits : ConnectionLimits) (whitelist : gset PeerId) (b : Behaviour) : Behaviour :=
  mkBehaviour limits (events b) (pending_connections b) (pending_disconnection b) (pending_identify_timer b)
    (pending_identify b) (peer_info b) (peer_rtt b) (peer_connections b) whitelist (pending_inbound b) (pending_outbound b)
    (established_inbound b) (established_outbound b) (established_per_peer b) (config b).
Definition upd_pending (inbound outbound : gset ConnectionId) (b : Behaviour) : Behaviour :=
  mkBehaviour (limits b) (events b) (pending_connections b) (pending_disconnection b) (pending_identify_timer b)
    (pending_identify b) (peer_info b) (peer_rtt b) (peer_connections b) (whitelist b) inbound outbound
    (established_inbound b) (established_outbound b) (established_per_peer b) (config b).
Definition upd_established (conns : gmap PeerId (list (ConnectionId * Multiaddr))) (inbound outbound : gset ConnectionId)
    (per_peer : gmap PeerId (gset ConnectionId)) (b : Behaviour) : Behaviour :=
  mkBehaviour (limits b) (events b) (pending_connections b) (pending_disconnection b) (pending_identify_timer b)
    (pending_identify b) (peer_info b) (peer_rtt b) conns (whitelist b) (pending_inbound b) (pending_outbound b)
    inbound outbound per_peer (config b).

(** [HashMap::insert] of a sender drops the one it replaces; [remove] takes it out. *)
Definition put_sender `{Countable K} (k : K) (tx : Sender) (m : gmap K Sender) : gmap K Sender * list Reply :=
  (<[k := tx]> m, match m !! k with Some old => [Dropped old] | None => [] end).
Definition send_removed `{Countable K} (k : K) (r : result unit string) (m : gmap K Sender) : gmap K Sender * list Reply :=
  (delete k m, match m !! k with Some tx => [Answer tx r] | None => [] end).

(** *** Calls *)
Definition connect (opts : DialOpts) (tx : Sender) b : Behaviour * list Reply :=
  let '(conns, out) := put_sender (connection_id opts) tx (pending_connections b) in
  (upd_waiting (events b ++ [Dial opts]) conns (pending_disconnection b) (pending_identify_timer b) (pending_identify b) b, out).

Definition disconnect (p : PeerId) (tx : Sender) b : Behaviour * list Reply :=
  if negb (bool_decide (is_Some (peer_connections b !! p))) then (b, [Answer tx (Err "Peer is not connected")])
  else if bool_decide (is_Some (pending_disconnection b !! p)) then (b, [Answer tx (Err "Disconnection is pending")])
  else
    let '(disc, out) := put_sender p tx (pending_disconnection b) in
    (upd_waiting (events b ++ [CloseConnection p]) (pending_connections b) disc (pending_identify_timer b) (pending_identify b) b, out).

Definition set_connection_limit (limit : ConnectionLimits) b : Behaviour := upd_policy limit (whitelist b) b.
Definition add (p : PeerId) b : Behaviour := upd_policy (limits b) ({[p]} ∪ whitelist b) b.
Definition remove (p : PeerId) b : Behaviour := upd_policy (limits b) (whitelist b ∖ {[p]}) b.

Definition inject_peer_info (info : Info) b : Behaviour * list Reply :=
  let p := info_peer_id info in
  let b := upd_known (<[p := info]> (peer_info b)) (peer_rtt b) b in
  let timers := pending_identify_timer b ∖ {[p]} in
  let '(ident, out) :=
    if wait_on_identify (config b) then send_removed p (Ok ()) (pending_identify b) else (pending_identify b, []) in
  (upd_waiting (events b) (pending_connections b) (pending_disconnection b) timers ident b, out).

Definition peers b : list PeerId := (iter_map (peer_connections b)).*1.
Definition connected_peers_addrs b : list (PeerId * list Multiaddr) := (λ x, (x.1, x.2.*2)) <$> iter_map (peer_connections b).
Definition peer_addresses (p : PeerId) b : option (list Multiaddr) := (λ l, l.*2) <$> peer_connections b !! p.

Definition set_peer_rtt (p : PeerId) (rtt : Z) b : Behaviour :=
  upd_known (peer_info b) (<[p := match peer_rtt b !! p with Some (_, y, z) => (y, z, rtt) | None => (0, 0, rtt) end]> (peer_rtt b)) b.
Definition get_peer_rtt (p : PeerId) b : option (Z * Z * Z) := peer_rtt b !! p.
Definition get_peer_latest_rtt (p : PeerId) b : option Z := snd <$> get_peer_rtt p b.
Definition get_peer_info (p : PeerId) b : option Info := peer_info b !! p.
Definition remove_peer_info (p : PeerId) b : Behaviour := upd_known (delete p (peer_info b)) (peer_rtt b) b.

(** *** What the swarm asks *)
Definition try_limit {A} (r : result unit ConnectionLimitError) (b : Behaviour) (k : result A ConnectionLimitError * Behaviour) :
    result A ConnectionLimitError * Behaviour :=
  match r with Err e => (Err e, b) | Ok _ => k end.

Definition handle_pending_inbound_connection (id : ConnectionId) b : result unit ConnectionLimitError * Behaviour :=
  try_limit (check_limit (max_pending_incoming (limits b)) (size (pending_inbound b))) b
    (Ok (), upd_pending ({[id]} ∪ pending_inbound b) (pending_outbound b) b).

Definition handle_pending_outbound_connection (id : ConnectionId) (peer_id : option PeerId) b :
    result (list Multiaddr) ConnectionLimitError * Behaviour :=
  let is_whitelisted := match peer_id with Some p => bool_decide (p ∈ whitelist b) | None => false end in
  try_limit (if is_whitelisted then Ok () else check_limit (max_pending_outgoing (limits b)) (size (pending_outbound b))) b
    (Ok [], upd_pending (pending_inbound b) ({[id]} ∪ pending_outbound b) b).

(** The checks of an established connection, in their order. *)
Definition check_established (own_limit : option Z) (own : gset ConnectionId) (p : PeerId) b : result unit ConnectionLimitError :=
  if bool_decide (p ∈ whitelist b) then Ok ()
  else
    match check_limit own_limit (size own) with
    | Err e => Err e
    | Ok _ =>
        match check_limit (max_established_per_peer (limits b)) (default 0%nat (size <$> established_per_peer b !! p)) with
        | Err e => Err e
        | Ok _ => check_limit (max_established_total (limits b)) (size (established_inbound b) + size (established_outbound b))
        end
    end.
Definition handle_established_inbound_connection (id : ConnectionId) (p : PeerId) b : result unit ConnectionLimitError * Behaviour :=
  let b := upd_pending (pending_inbound b ∖ {[id]}) (pending_outbound b) b in
  (check_established (max_established_incoming (limits b)) (established_inbound b) p b, b).
Definition handle_established_outbound_connection (id : ConnectionId) (p : PeerId) b : result unit ConnectionLimitError * Behaviour :=
  let b := upd_pending (pending_inbound b) (pending_outbound b ∖ {[id]}) b in
  (check_established (max_established_outgoing (limits b)) (established_outbound b) p b, b).

(** *** What the swarm tells *)
Inductive ConnectedPoint := Dialer (address : Multiaddr) | Listener (send_back_addr : Multiaddr).
Definition point_addr (e : ConnectedPoint) : Multiaddr := match e with Dialer a | Listener a => a end.

(** [Vec::swap_remove]. *)
Definition swap_remove {A} (i : nat) (l : list A) : list A :=
  match last l with Some x => take (length l - 1) (<[i := x]> l) | None => l end.

Definition connection_established (p : PeerId) (id : ConnectionId) (endpoint : ConnectedPoint) b : Behaviour * list Reply :=
  let '(b, out) :=
    match pending_connections b !! id with
    | None => (b, [])
    | Some ch =>
        let conns := delete id (pending_connections b) in
        if bool_decide (get_peer_info p b = None) && wait_on_identify (config b) then
          let '(ident, out) := put_sender p ch (pending_identify b) in
          (upd_waiting (events b) conns (pending_disconnection b) ({[p]} ∪ pending_identify_timer b) ident b, out)
        else
          (upd_waiting (events b) conns (pending_disconnection b) (pending_identify_timer b) (pending_identify b) b,
           [Answer ch (Ok ())])
    end in
  let inbound := match endpoint with Listener _ => {[id]} ∪ established_inbound b | Dialer _ => established_inbound b end in
  let outbound := match endpoint with Dialer _ => {[id]} ∪ established_outbound b | Listener _ => established_outbound b end in
  (upd_established (entry_or [] (λ l, l ++ [(id, point_addr endpoint)]) p (peer_connections b)) inbound outbound
     (entry_or ∅ (λ s, {[id]} ∪ s) p (established_per_peer b)) b, out).

Definition dial_failure (id : ConnectionId) (error : string) b : Behaviour * list Reply :=
  let b := upd_pending (pending_inbound b) (pending_outbound b ∖ {[id]}) b in
  let '(conns, out) := send_removed id (Err error) (pending_connections b) in
  (upd_waiting (events b) conns (pending_disconnection b) (pending_identify_timer b) (pending_identify b) b, out).

Definition close_connection (id : ConnectionId) (p : PeerId) (m : gmap PeerId (list (ConnectionId * Multiaddr))) :
    gmap PeerId (list (ConnectionId * Multiaddr)) :=
  match m !! p with
  | None => m
  | Some l =>
      let l := match list_find (λ x, x.1 = id) l with Some (i, _) => swap_remove i l | None => l end in
      if bool_decide (l = []) then delete p m else <[p := l]> m
  end.
(** [entry(peer_id).or_default().remove(..)], and later the entry if it is empty. *)
Definition close_per_peer (id : ConnectionId) (p : PeerId) (m : gmap PeerId (gset ConnectionId)) : gmap PeerId (gset ConnectionId) :=
  let m := entry_or ∅ (λ s, s ∖ {[id]}) p m in
  match m !! p with
  | None => m
  | Some s => let s := s ∖ {[id]} in if bool_decide (s = ∅) then delete p m else <[p := s]> m
  end.
Definition connection_closed (p : PeerId) (id : ConnectionId) b : Behaviour * list Reply :=
  let b := upd_known (peer_info b) (delete p (peer_rtt b)) b in
  let b := upd_established (close_connection id p (peer_connections b)) (established_inbound b ∖ {[id]})
             (established_outbound b ∖ {[id]}) (close_per_peer id p (established_per_peer b)) b in
  let '(conns, out1) := send_removed id (Ok ()) (pending_connections b) in
  let '(disc, out2) := send_removed p (Ok ()) (pending_disconnection b) in
  (upd_waiting (events b) conns disc (pending_identify_timer b) (pending_identify b) b, out1 ++ out2).

Definition listen_failure (id : ConnectionId) b : Behaviour := upd_pending (pending_inbound b ∖ {[id]}) (pending_outbound b) b.

(** *** Polling

    The timers that are ready now, and how often the clean-up interval has passed. *)
Inductive TimerPoll := TimerReady | TimerNone | TimerPending.

Fixpoint retain_timers (ready : PeerId → TimerPoll) (l : list PeerId) (ident : gmap PeerId Sender) :
    gset PeerId * gmap PeerId Sender * list Reply :=
  match l with
  | [] => (∅, ident, [])
  | p :: l =>
      match ready p with
      | TimerReady =>
          let '(ident, out) := send_removed p (Ok ()) ident in
          let '(kept, ident, out') := retain_timers ready l ident in (kept, ident, out ++ out')
      | TimerNone => retain_timers ready l ident
      | TimerPending => let '(kept, ident, out) := retain_timers ready l ident in ({[p]} ∪ kept, ident, out)
      end
  end.

Definition keep_info b (p : PeerId) : Prop := established_per_peer b !! p = None ∧ p ∉ whitelist b.
#[global] Instance keep_info_dec b p : Decision (keep_info b p).
Proof. unfold keep_info. apply _. Defined.
Definition cleanup b : Behaviour :=
  upd_known (filter (λ x, keep_info b x.1) (peer_info b)) (peer_rtt b) b.

Definition poll (ready : PeerId → TimerPoll) (ticks : nat) b : option ToSwarm * Behaviour * list Reply :=
  match events b with
  | e :: events =>
      (Some e, upd_waiting events (pending_connections b) (pending_disconnection b) (pending_identify_timer b) (pending_identify b) b, [])
  | [] =>
      let '(timers, ident, out) := retain_timers ready (iter_set (pending_identify_timer b)) (pending_identify b) in
      let b := upd_waiting [] (pending_connections b) (pending_disconnection b) timers ident b in
      (None, Nat.iter ticks cleanup b, out)
  end.
End behaviour.
End PeerBook.
