(* ===== verification/PeerBookProofs.v ===== *)
(** * The peer book beside the swarm

    A ledger of the connections that the swarm has, the calls that it and the node
    make in an order that it allows, and what the peer book then knows, limits and
    answers. *)
From stdpp Require Import base gmap list strings.
From S2P Require Import Prelude PeerBook.
Local Open Scope Z_scope.

Module PeerBookRun.
Import PeerBook.
Section run.
  Context `{sw : Swarm} {ho : HashOrder}.

(** ** The swarm

    Identifiers of connections are used once.  A connection that a behaviour denies,
    this one or another ([denied]), fails.  [l_est] holds the endpoints that
    connections were established with, [l_addr] their addresses now. *)
Record Ledger := mkLedger {
  l_in : gset ConnectionId;
  l_out : gset ConnectionId;
  l_est : gmap ConnectionId (PeerId * ConnectedPoint);
  l_used : gset ConnectionId;
  l_addr : gmap ConnectionId Multiaddr;
}.
Record State := mkState {
  book : Behaviour;
  ledger : Ledger;
  senders : list Sender;
  log : list Reply;
}.

Inductive Action :=
  | AConnect (opts : DialOpts) (tx : Sender)
  | ADisconnect (p : PeerId) (tx : Sender)
  | ALimits (l : ConnectionLimits)
  | AAllow (p : PeerId)
  | AForget (p : PeerId)
  | AInfo (i : Info)
  | ARtt (p : PeerId) (rtt : Z)
  | ARemoveInfo (p : PeerId)
  | APoll (ready : PeerId → TimerPoll) (ticks : nat)
  | AIncoming (id : ConnectionId) (denied : bool)
  | AOutgoing (id : ConnectionId) (p : option PeerId) (denied : bool) (error : string)
  | AEstablishedIn (id : ConnectionId) (p : PeerId) (a : Multiaddr) (denied : bool)
  | AEstablishedOut (id : ConnectionId) (p : PeerId) (a : Multiaddr) (denied : bool) (error : string)
  | AListenFailure (id : ConnectionId)
  | ADialFailure (id : ConnectionId) (error : string)
  | AAddressChange (id : ConnectionId) (new : Multiaddr)
  | AClosed (id : ConnectionId).

Definition enabled (a : Action) (s : State) : Prop :=
  let l := ledger s in
  match a with
  | AConnect _ tx | ADisconnect _ tx => tx ∉ senders s
  | AIncoming id _ | AOutgoing id _ _ _ => id ∉ l_used l
  | AEstablishedIn id _ _ _ => id ∈ l_in l
  | AEstablishedOut id _ _ _ _ => id ∈ l_out l
  | AListenFailure id => id ∈ l_in l
  | ADialFailure id _ => id ∈ l_out l ∨ id ∉ l_used l
  | AAddressChange id _ | AClosed id => is_Some (l_est l !! id)
  | _ => True
  end.

#[global] Instance enabled_dec a s : Decision (enabled a s).
Proof. destruct a; simpl; apply _. Defined.

Definition answer (s : State) (l : Ledger) (tx : list Sender) (r : Behaviour * list Reply) : State :=
  mkState r.1 l (tx ++ senders s) (log s ++ r.2).
Definition quiet (s : State) (b : Behaviour) : State := answer s (ledger s) [] (b, []).

Definition pend_in (id : ConnectionId) (l : Ledger) : Ledger := mkLedger ({[id]} ∪ l_in l) (l_out l) (l_est l) ({[id]} ∪ l_used l) (l_addr l).
Definition pend_out (id : ConnectionId) (l : Ledger) : Ledger := mkLedger (l_in l) ({[id]} ∪ l_out l) (l_est l) ({[id]} ∪ l_used l) (l_addr l).
Definition establish (id : ConnectionId) (x : PeerId * ConnectedPoint) (l : Ledger) : Ledger :=
  mkLedger (l_in l ∖ {[id]}) (l_out l ∖ {[id]}) (<[id := x]> (l_est l)) (l_used l) (<[id := point_addr x.2]> (l_addr l)).
Definition fail (id : ConnectionId) (l : Ledger) : Ledger := mkLedger (l_in l ∖ {[id]}) (l_out l ∖ {[id]}) (l_est l) ({[id]} ∪ l_used l) (l_addr l).
Definition close (id : ConnectionId) (l : Ledger) : Ledger := mkLedger (l_in l) (l_out l) (delete id (l_est l)) (l_used l) (delete id (l_addr l)).
Definition change_address (id : ConnectionId) (a : Multiaddr) (l : Ledger) : Ledger :=
  mkLedger (l_in l) (l_out l) (l_est l) (l_used l) (<[id := a]> (l_addr l)).

Definition accepted {A} (r : result A ConnectionLimitError) (denied : bool) : bool := match r with Ok _ => negb denied | Err _ => false end.

Definition act (a : Action) (s : State) : State :=
  let b := book s in let l := ledger s in
  match a with
  | AConnect opts tx => answer s l [tx] (connect opts tx b)
  | ADisconnect p tx => answer s l [tx] (disconnect p tx b)
  | ALimits x => quiet s (set_connection_limit x b)
  | AAllow p => quiet s (add p b)
  | AForget p => quiet s (remove p b)
  | AInfo i => answer s l [] (inject_peer_info i b)
  | ARtt p x => quiet s (set_peer_rtt p x b)
  | ARemoveInfo p => quiet s (remove_peer_info p b)
  | APoll ready ticks => let '(_, b, out) := poll ready ticks b in answer s l [] (b, out)
  | AIncoming id denied =>
      let '(r, b) := handle_pending_inbound_connection id b in
      if accepted r denied then answer s (pend_in id l) [] (b, []) else answer s (fail id l) [] (listen_failure id b, [])
  | AOutgoing id p denied error =>
      let '(r, b) := handle_pending_outbound_connection id p b in
      if accepted r denied then answer s (pend_out id l) [] (b, []) else answer s (fail id l) [] (dial_failure id error b)
  | AEstablishedIn id p a denied =>
      let '(r, b) := handle_established_inbound_connection id p b in
      if accepted r denied then answer s (establish id (p, Listener a) l) [] (connection_established p id (Listener a) b)
      else answer s (fail id l) [] (listen_failure id b, [])
  | AEstablishedOut id p a denied error =>
      let '(r, b) := handle_established_outbound_connection id p b in
      if accepted r denied then answer s (establish id (p, Dialer a) l) [] (connection_established p id (Dialer a) b)
      else answer s (fail id l) [] (dial_failure id error b)
  | AListenFailure id => answer s (fail id l) [] (listen_failure id b, [])
  | ADialFailure id error => answer s (fail id l) [] (dial_failure id error b)
  (** [on_swarm_event] ignores [FromSwarm::AddressChange]. *)
  | AAddressChange id a => answer s (change_address id a l) [] (b, [])
  | AClosed id =>
      match l_est l !! id with
      | Some (p, _) => answer s (close id l) [] (connection_closed p id b)
      | None => s
      end
  end.

Definition start (config : Config) (lim : ConnectionLimits) : State :=
  mkState (set_connection_limit lim (new config)) (mkLedger ∅ ∅ ∅ ∅ ∅) [] [].

Inductive run : list Action → State → State → Prop :=
  | run_nil s : run [] s s
  | run_cons a acts s s' : enabled a s → run acts (act a s) s' → run (a :: acts) s s'.

(** A run can be evaluated. *)
Fixpoint can_run (acts : list Action) (s : State) : bool :=
  match acts with [] => true | a :: acts => bool_decide (enabled a s) && can_run acts (act a s) end.
Lemma run_foldl acts s : can_run acts s = true → run acts s (foldl (λ s a, act a s) s acts).
Proof.
  revert s. induction acts as [|a acts IH]; intros s; simpl; [constructor|]. intros [Ha Hr]%andb_true_iff.
  apply bool_decide_eq_true in Ha. constructor; [done|by apply IH].
Qed.

Lemma run_ind_inv (P : State → Prop) (Q : Action → Prop) acts s s' :
  (∀ a s, Q a → enabled a s → P s → P (act a s)) → Forall Q acts → run acts s s' → P s → P s'.
Proof. intros Hstep HQ Hr. induction Hr; [done|]. apply Forall_cons in HQ as []. eauto. Qed.
End run.
End PeerBookRun.

(** ** What the book knows *)
Module PeerBookInv.
Import PeerBook PeerBookRun.
Section inv.
  Context `{sw : Swarm} {ho : HashOrder}.

(** The connections of a peer as the swarm has them. *)
Definition of_peer (est : gmap ConnectionId (PeerId * ConnectedPoint)) (p : PeerId) (id : ConnectionId) (a : Multiaddr) : Prop :=
  ∃ pt, est !! id = Some (p, pt) ∧ point_addr pt = a.

Definition conns_ok (conns : gmap PeerId (list (ConnectionId * Multiaddr))) (est : gmap ConnectionId (PeerId * ConnectedPoint)) : Prop :=
  ∀ p, match conns !! p with
       | Some l => l ≠ [] ∧ NoDup l.*1 ∧ ∀ id a, (id, a) ∈ l ↔ of_peer est p id a
       | None => ∀ id a, ¬ of_peer est p id a
       end.
Definition per_peer_ok (m : gmap PeerId (gset ConnectionId)) (est : gmap ConnectionId (PeerId * ConnectedPoint)) : Prop :=
  ∀ p, match m !! p with
       | Some x => x ≠ ∅ ∧ ∀ id, id ∈ x ↔ ∃ a, of_peer est p id a
       | None => ∀ id a, ¬ of_peer est p id a
       end.

Record tracks (b : Behaviour) (l : Ledger) : Prop := {
  tr_in : pending_inbound b = l_in l;
  tr_out : pending_outbound b = l_out l;
  tr_est_in : ∀ id, id ∈ established_inbound b ↔ ∃ p a, l_est l !! id = Some (p, Listener a);
  tr_est_out : ∀ id, id ∈ established_outbound b ↔ ∃ p a, l_est l !! id = Some (p, Dialer a);
  tr_conns : conns_ok (peer_connections b) (l_est l);
  tr_per_peer : per_peer_ok (established_per_peer b) (l_est l);
  tr_used : l_in l ∪ l_out l ∪ dom (l_est l) ⊆ l_used l;
  tr_disjoint : l_in l ## l_out l ∧ l_in l ∪ l_out l ## dom (l_est l);
}.

Lemma of_peer_insert est id x p i a :
  est !! id = None → of_peer (<[id := x]> est) p i a ↔ (i = id ∧ x.1 = p ∧ point_addr x.2 = a) ∨ of_peer est p i a.
Proof.
  intros Hn. unfold of_peer. destruct (decide (i = id)) as [->|Hne].
  - rewrite lookup_insert_eq, Hn. destruct x as [q pt]. simpl. split; [intros (? & [= -> ->] & ?); auto|].
    intros [(_ & -> & ?)|(? & ? & _)]; [eauto|done].
  - rewrite lookup_insert_ne by done. naive_solver.
Qed.
Lemma of_peer_delete est id p i a : of_peer (delete id est) p i a ↔ i ≠ id ∧ of_peer est p i a.
Proof.
  unfold of_peer. destruct (decide (i = id)) as [->|Hne]; [rewrite lookup_delete_eq; naive_solver|].
  rewrite lookup_delete_ne by done. naive_solver.
Qed.

Lemma conns_establish conns est p id pt :
  conns_ok conns est → est !! id = None →
  conns_ok (entry_or [] (λ l, l ++ [(id, point_addr pt)]) p conns) (<[id := (p, pt)]> est).
Proof.
  intros Hc Hn q. pose proof (Hc q) as Hq. destruct (decide (q = p)) as [->|Hne].
  - rewrite lookup_entry_or. destruct (conns !! p) as [l|]; simpl.
    + destruct Hq as (_ & Hnd & Hl). split; [by destruct l|]. split.
      * rewrite fmap_app. apply NoDup_app. split; [done|]. split; [|apply NoDup_singleton].
        intros i ([i' a] & -> & Hin)%list_elem_of_fmap. simpl. rewrite list_elem_of_singleton. intros ->.
        apply Hl in Hin as (? & ? & _). congruence.
      * intros i a. rewrite elem_of_app, list_elem_of_singleton, of_peer_insert, Hl by done. simpl. naive_solver.
    + split; [done|]. split; [apply NoDup_singleton|]. intros i a. rewrite list_elem_of_singleton, of_peer_insert by done.
      simpl. naive_solver.
  - rewrite lookup_entry_or_ne by done. destruct (conns !! q) as [l|].
    + destruct Hq as (H1 & H2 & H3). split_and!; [done|done|]. intros i a. rewrite H3, of_peer_insert by done. naive_solver.
    + intros i a. rewrite of_peer_insert by done. naive_solver.
Qed.
Lemma per_peer_establish m est p id pt :
  per_peer_ok m est → est !! id = None → per_peer_ok (entry_or ∅ (λ s, {[id]} ∪ s) p m) (<[id := (p, pt)]> est).
Proof.
  intros Hc Hn q. pose proof (Hc q) as Hq. destruct (decide (q = p)) as [->|Hne].
  - rewrite lookup_entry_or. destruct (m !! p) as [x|]; simpl.
    + destruct Hq as (_ & Hx). split; [set_solver|]. intros i. rewrite elem_of_union, elem_of_singleton, Hx.
      setoid_rewrite of_peer_insert; [|done]. simpl. naive_solver.
    + split; [set_solver|]. intros i. rewrite elem_of_union, elem_of_singleton. setoid_rewrite of_peer_insert; [|done].
      simpl. set_solver.
  - rewrite lookup_entry_or_ne by done. destruct (m !! q) as [x|].
    + destruct Hq as (H1 & H2). split; [done|]. intros i. rewrite H2. setoid_rewrite of_peer_insert; [|done]. naive_solver.
    + intros i a. rewrite of_peer_insert by done. naive_solver.
Qed.

Lemma swap_remove_perm {A} (l : list A) i x : l !! i = Some x → l ≡ₚ x :: swap_remove i l.
Proof.
  intros Hi. unfold swap_remove. destruct (last l) as [y|] eqn:Hy; [|apply last_None in Hy; by subst].
  apply last_Some in Hy as [l' ->]. rewrite length_app. simpl. rewrite Nat.add_sub.
  apply lookup_app_Some in Hi as [Hi|[Hle Hi]].
  - rewrite insert_app_l by (by eapply lookup_lt_Some). rewrite take_app_length' by by rewrite length_insert.
    rewrite (Permutation_app_comm l' [y]). simpl. rewrite <-(take_drop_middle l' i x Hi) at 1.
    rewrite (insert_take_drop l' i y) by by eapply lookup_lt_Some. solve_Permutation.
  - apply list_lookup_singleton_Some in Hi as [Hz ->]. rewrite insert_app_r_alt by done.
    rewrite take_app_length. solve_Permutation.
Qed.

Lemma find_connection (l : list (ConnectionId * Multiaddr)) id a :
  NoDup l.*1 → (id, a) ∈ l → ∃ i, list_find (λ x, x.1 = id) l = Some (i, (id, a)) ∧ l !! i = Some (id, a).
Proof.
  intros Hnd Hin. destruct (list_find (λ x, x.1 = id) l) as [[i [j a']]|] eqn:E.
  - apply list_find_Some in E as (Hi & Hj & _). simpl in Hj. subst j. exists i.
    assert (a' = a) as ->; [|done]. apply list_elem_of_lookup in Hin as [k Hk].
    assert (i = k) as ->; [|congruence]. eapply (NoDup_lookup l.*1); [done|..]; rewrite list_lookup_fmap; [by rewrite Hi|by rewrite Hk].
  - exfalso. apply list_find_None in E. eapply Forall_forall in E; [|exact Hin]. done.
Qed.

Lemma conns_close conns est p id pt :
  conns_ok conns est → est !! id = Some (p, pt) → conns_ok (close_connection id p conns) (delete id est).
Proof.
  intros Hc Hid. assert (of_peer est p id (point_addr pt)) as Hof by by exists pt. unfold close_connection.
  pose proof (Hc p) as Hp. destruct (conns !! p) as [l|] eqn:El; [|by destruct (Hp _ _ Hof)].
  destruct Hp as (_ & Hnd & Hl). destruct (find_connection l id (point_addr pt) Hnd) as (i & Hf & Hi); [by apply Hl|]. rewrite Hf.
  pose proof (swap_remove_perm l i _ Hi) as Hperm. set (l' := swap_remove i l) in *.
  assert (NoDup (id :: l'.*1)) as Hnd'. { change (id :: l'.*1) with ((id, point_addr pt) :: l').*1. by rewrite <-Hperm. }
  assert (∀ j a, (j, a) ∈ l' ↔ of_peer (delete id est) p j a) as Hl'.
  { intros j a. rewrite of_peer_delete, <-Hl, Hperm, elem_of_cons. apply NoDup_cons in Hnd' as [Hni _]. split.
    - intros Hin. split; [|by right]. intros ->. apply Hni, list_elem_of_fmap. by exists (id, a).
    - intros [Hne [[= -> ->]|?]]; done. }
  assert (∀ q, q ≠ p → match conns !! q with Some l => l ≠ [] ∧ NoDup l.*1 ∧ (∀ j a, (j, a) ∈ l ↔ of_peer (delete id est) q j a)
    | None => ∀ j a, ¬ of_peer (delete id est) q j a end) as Hothers.
  { intros q Hq. pose proof (Hc q) as Hcq. assert (∀ j a, of_peer (delete id est) q j a ↔ of_peer est q j a) as Hsame.
    { intros j a. rewrite of_peer_delete. split; [by intros [_ ?]|]. intros Ho. split; [|done]. intros ->. destruct Ho as (? & ? & _). congruence. }
    destruct (conns !! q); setoid_rewrite Hsame; done. }
  intros q. case_bool_decide as He; (destruct (decide (q = p)) as [->|Hq]; [|rewrite ?lookup_delete_ne, ?lookup_insert_ne by done; by apply Hothers]).
  - rewrite lookup_delete_eq. intros j a Ho. apply Hl' in Ho. rewrite He in Ho. by apply elem_of_nil in Ho.
  - rewrite lookup_insert_eq. apply NoDup_cons in Hnd' as [_ ?]. done.
Qed.
Lemma per_peer_close m est p id pt :
  per_peer_ok m est → est !! id = Some (p, pt) → per_peer_ok (close_per_peer id p m) (delete id est).
Proof.
  intros Hc Hid q. assert (of_peer est p id (point_addr pt)) as Hof by by exists pt. unfold close_per_peer. rewrite lookup_entry_or.
  pose proof (Hc p) as Hp. destruct (m !! p) as [x|] eqn:Ex; [|by destruct (Hp _ _ Hof)]. destruct Hp as [_ Hx]. simpl.
  replace (x ∖ {[id]} ∖ {[id]}) with (x ∖ {[id]}) by set_solver.
  assert (∀ j, j ∈ x ∖ {[id]} ↔ ∃ a, of_peer (delete id est) p j a) as Hx'.
  { intros j. rewrite elem_of_difference, elem_of_singleton, Hx. setoid_rewrite of_peer_delete. naive_solver. }
  destruct (decide (q = p)) as [->|Hq].
  - case_bool_decide as He; [rewrite lookup_delete_eq|by rewrite lookup_insert_eq].
    intros j a Ho. assert (j ∈ x ∖ {[id]}) by (apply Hx'; eauto). set_solver.
  - assert (∀ j a, of_peer (delete id est) q j a ↔ of_peer est q j a) as Hsame.
    { intros j a. rewrite of_peer_delete. split; [by intros [_ ?]|]. intros Ho. split; [|done]. intros ->. destruct Ho as (? & ? & _). congruence. }
    pose proof (Hc q) as Hcq. case_bool_decide; [rewrite lookup_delete_ne by done|rewrite lookup_insert_ne by done];
      rewrite lookup_entry_or_ne by done; destruct (m !! q); setoid_rewrite Hsame; done.
Qed.

(** *** The steps *)

(** Calls that leave the connections alone. *)
Definition same_connections (b b' : Behaviour) : Prop :=
  pending_inbound b' = pending_inbound b ∧ pending_outbound b' = pending_outbound b ∧ established_inbound b' = established_inbound b ∧
  established_outbound b' = established_outbound b ∧ peer_connections b' = peer_connections b ∧ established_per_peer b' = established_per_peer b.

Lemma tracks_same b b' l : same_connections b b' → tracks b l → tracks b' l.
Proof. intros (E1 & E2 & E3 & E4 & E5 & E6) []. split; by rewrite ?E1, ?E2, ?E3, ?E4, ?E5, ?E6. Qed.

Lemma iter_cleanup_same n b : same_connections b (Nat.iter n cleanup b).
Proof. induction n as [|n IH]; [done|]. exact IH. Qed.
Lemma poll_same ready ticks b : same_connections b (poll ready ticks b).1.2.
Proof.
  unfold poll. destruct (events b); [|done]. destruct (retain_timers _ _ _) as [[timers ident] out].
  exact (iter_cleanup_same ticks (upd_waiting [] (pending_connections b) (pending_disconnection b) timers ident b)).
Qed.
Lemma connect_same opts tx b : same_connections b (connect opts tx b).1.
Proof. done. Qed.
Lemma disconnect_same p tx b : same_connections b (disconnect p tx b).1.
Proof. unfold disconnect. by repeat case_match. Qed.
Lemma inject_same i b : same_connections b (inject_peer_info i b).1.
Proof. unfold inject_peer_info. by destruct (wait_on_identify _). Qed.

Definition same_established (b b' : Behaviour) : Prop :=
  established_inbound b' = established_inbound b ∧ established_outbound b' = established_outbound b ∧
  peer_connections b' = peer_connections b ∧ established_per_peer b' = established_per_peer b.

Lemma fail_tracks b b' l id :
  tracks b l → l_est l !! id = None → same_established b b' →
  pending_inbound b' = l_in l ∖ {[id]} → pending_outbound b' = l_out l ∖ {[id]} → tracks b' (fail id l).
Proof.
  intros [H1 H2 H3 H4 H5 H6 H7 [H8 H9]] Hid (E1 & E2 & E3 & E4) P1 P2. apply not_elem_of_dom in Hid.
  split; simpl; rewrite ?E1, ?E2, ?E3, ?E4; try done; set_solver.
Qed.

Lemma established_fields p id pt b :
  let b' := (connection_established p id pt b).1 in
  pending_inbound b' = pending_inbound b ∧ pending_outbound b' = pending_outbound b ∧
  established_inbound b' = match pt with Listener _ => {[id]} ∪ established_inbound b | Dialer _ => established_inbound b end ∧
  established_outbound b' = match pt with Dialer _ => {[id]} ∪ established_outbound b | Listener _ => established_outbound b end ∧
  peer_connections b' = entry_or [] (λ l, l ++ [(id, point_addr pt)]) p (peer_connections b) ∧
  established_per_peer b' = entry_or ∅ (λ s, {[id]} ∪ s) p (established_per_peer b).
Proof. unfold connection_established. destruct (pending_connections b !! id); [|done].
  by destruct (bool_decide (get_peer_info p b = None) && wait_on_identify (config b)).
Qed.

Lemma establish_tracks b0 b l id p pt :
  tracks b0 l → id ∈ l_in l ∪ l_out l → same_established b0 b →
  pending_inbound b = l_in l ∖ {[id]} → pending_outbound b = l_out l ∖ {[id]} →
  tracks (connection_established p id pt b).1 (establish id (p, pt) l).
Proof.
  intros [H1 H2 H3 H4 H5 H6 H7 [H8 H9]] Hid (E1 & E2 & E3 & E4) P1 P2.
  destruct (established_fields p id pt b) as (F1 & F2 & F3 & F4 & F5 & F6).
  assert (l_est l !! id = None) as Hn by (apply not_elem_of_dom; set_solver).
  split; cbn [l_in l_out l_est l_used establish]; rewrite ?F1, ?F2, ?F3, ?F4, ?F5, ?F6, ?E1, ?E2, ?E3, ?E4; try done.
  - intros i. destruct (decide (i = id)) as [->|Hi]; [rewrite lookup_insert_eq|rewrite lookup_insert_ne by done]; destruct pt; set_solver.
  - intros i. destruct (decide (i = id)) as [->|Hi]; [rewrite lookup_insert_eq|rewrite lookup_insert_ne by done]; destruct pt; set_solver.
  - by apply conns_establish.
  - by apply per_peer_establish.
  - rewrite dom_insert. set_solver.
  - rewrite dom_insert. set_solver.
Qed.

Lemma close_tracks b l id p pt : tracks b l → l_est l !! id = Some (p, pt) → tracks (connection_closed p id b).1 (close id l).
Proof.
  intros [H1 H2 H3 H4 H5 H6 H7 [H8 H9]] Hid. split; simpl; try done.
  - intros i. rewrite elem_of_difference, H3, elem_of_singleton. setoid_rewrite lookup_delete_Some. naive_solver.
  - intros i. rewrite elem_of_difference, H4, elem_of_singleton. setoid_rewrite lookup_delete_Some. naive_solver.
  - by eapply conns_close.
  - by eapply per_peer_close.
  - rewrite dom_delete. set_solver.
  - rewrite dom_delete. set_solver.
Qed.

Lemma pend_in_tracks b l id : tracks b l → id ∉ l_used l → tracks (upd_pending ({[id]} ∪ pending_inbound b) (pending_outbound b) b) (pend_in id l).
Proof. intros [H1 H2 H3 H4 H5 H6 H7 [H8 H9]] Hid. split; simpl; rewrite ?H1, ?H2; try done; set_solver. Qed.
Lemma pend_out_tracks b l id : tracks b l → id ∉ l_used l → tracks (upd_pending (pending_inbound b) ({[id]} ∪ pending_outbound b) b) (pend_out id l).
Proof. intros [H1 H2 H3 H4 H5 H6 H7 [H8 H9]] Hid. split; simpl; rewrite ?H1, ?H2; try done; set_solver. Qed.

Lemma fresh_est b l id : tracks b l → id ∉ l_used l → l_est l !! id = None.
Proof. intros Ht Hid. apply not_elem_of_dom. pose proof (tr_used _ _ Ht). set_solver. Qed.
Lemma pending_est b l id : tracks b l → id ∈ l_in l ∪ l_out l → l_est l !! id = None.
Proof. intros Ht Hid. apply not_elem_of_dom. destruct (tr_disjoint _ _ Ht). set_solver. Qed.

(** A pending connection that fails, and one that is established. *)
Lemma drop_pending b l id : tracks b l → id ∈ l_in l ∨ id ∈ l_out l ∨ id ∉ l_used l → l_est l !! id = None.
Proof. intros Ht [?|[?|?]]; [eapply pending_est|eapply pending_est|eapply fresh_est]; eauto; set_solver. Qed.

Ltac sets Ht := destruct (tr_disjoint _ _ Ht); pose proof (tr_used _ _ Ht); pose proof (tr_in _ _ Ht); pose proof (tr_out _ _ Ht).

Lemma listen_failure_tracks b b' l id :
  tracks b l → id ∈ l_in l ∨ id ∉ l_used l → same_established b b' → pending_inbound b' ∖ {[id]} = l_in l ∖ {[id]} →
  pending_outbound b' = l_out l → tracks (listen_failure id b') (fail id l).
Proof. intros Ht Hid Hs P1 P2. eapply fail_tracks; [done|eapply drop_pending; naive_solver|done|done|]. simpl. sets Ht. set_solver. Qed.
Lemma dial_failure_tracks b b' l id error :
  tracks b l → id ∈ l_out l ∨ id ∉ l_used l → same_established b b' → pending_inbound b' = l_in l →
  pending_outbound b' ∖ {[id]} = l_out l ∖ {[id]} → tracks (dial_failure id error b').1 (fail id l).
Proof. intros Ht Hid Hs P1 P2. eapply fail_tracks; [done|eapply drop_pending; naive_solver|done| |done]. simpl. sets Ht. set_solver. Qed.

Lemma act_tracks a s : enabled a s → tracks (book s) (ledger s) → tracks (book (act a s)) (ledger (act a s)).
Proof.
  intros He Ht. destruct s as [b l used lg]. destruct a; cbn [act enabled book ledger senders log] in *.
  - eapply tracks_same; [apply connect_same|done].
  - eapply tracks_same; [apply disconnect_same|done].
  - by eapply tracks_same; [|exact Ht].
  - by eapply tracks_same; [|exact Ht].
  - by eapply tracks_same; [|exact Ht].
  - eapply tracks_same; [apply inject_same|done].
  - by eapply tracks_same; [|exact Ht].
  - by eapply tracks_same; [|exact Ht].
  - pose proof (poll_same ready ticks b). destruct (poll ready ticks b) as [[e b'] out]. by eapply tracks_same; [|exact Ht].
  - unfold handle_pending_inbound_connection, try_limit. destruct (check_limit _ _); [destruct denied|];
      cbn [accepted negb answer book ledger fst snd].
    + apply (listen_failure_tracks b); [done|by right|done|simpl; sets Ht; set_solver|by apply Ht].
    + by apply pend_in_tracks.
    + apply (listen_failure_tracks b); [done|by right|done|simpl; sets Ht; set_solver|by apply Ht].
  - unfold handle_pending_outbound_connection, try_limit. 
    match goal with |- context [match (if ?c then ?x else ?y) with _ => _ end] => destruct (if c then x else y) end; [destruct denied|];
      cbn [accepted negb answer book ledger fst snd].
    + apply (dial_failure_tracks b (upd_pending (pending_inbound b) ({[id]} ∪ pending_outbound b) b) l id error); [done|by right|done|by apply Ht|simpl; sets Ht; set_solver].
    + by apply pend_out_tracks.
    + apply (dial_failure_tracks b b l id error); [done|by right|done|by apply Ht|simpl; sets Ht; set_solver].
  - unfold handle_established_inbound_connection, handle_established_outbound_connection. destruct (check_established _ _ _ _); [destruct denied|];
      cbn [accepted negb answer book ledger fst snd].
    + apply (listen_failure_tracks b); [done|by left|done|simpl; sets Ht; set_solver|by apply Ht].
    + apply (establish_tracks b); [done|set_solver|done|simpl; sets Ht; set_solver|simpl; sets Ht; set_solver].
    + apply (listen_failure_tracks b); [done|by left|done|simpl; sets Ht; set_solver|by apply Ht].
  - unfold handle_established_inbound_connection, handle_established_outbound_connection. destruct (check_established _ _ _ _); [destruct denied|];
      cbn [accepted negb answer book ledger fst snd].
    + apply (dial_failure_tracks b (upd_pending (pending_inbound b) (pending_outbound b ∖ {[id]}) b) l id error); [done|by left|done|by apply Ht|simpl; sets Ht; set_solver].
    + apply (establish_tracks b); [done|set_solver|done|simpl; sets Ht; set_solver|simpl; sets Ht; set_solver].
    + apply (dial_failure_tracks b (upd_pending (pending_inbound b) (pending_outbound b ∖ {[id]}) b) l id error); [done|by left|done|by apply Ht|simpl; sets Ht; set_solver].
  - apply (listen_failure_tracks b); [done|by left|done|simpl; sets Ht; set_solver|by apply Ht].
  - apply (dial_failure_tracks b b l id error); [done|done|done|by apply Ht|simpl; sets Ht; set_solver].
  - by destruct Ht.
  - destruct He as [[p pt] Hid]. rewrite Hid. by eapply close_tracks.
Qed.

Lemma start_tracks c lim : tracks (book (start c lim)) (ledger (start c lim)).
Proof.
  split; simpl; try done; try set_solver.
  - intros p. rewrite lookup_empty. intros id a (pt & Hl & _). by rewrite lookup_empty in Hl.
  - intros p. rewrite lookup_empty. intros id a (pt & Hl & _). by rewrite lookup_empty in Hl.
Qed.
Lemma run_tracks acts s s' : run acts s s' → tracks (book s) (ledger s) → tracks (book s') (ledger s').
Proof.
  intros Hr. apply (run_ind_inv (λ s, tracks (book s) (ledger s)) (λ _, True) acts); [|by apply Forall_true|done]. intros. by apply act_tracks.
Qed.
End inv.
End PeerBookInv.

(** ** Limits *)
Module PeerBookLimits.
Import PeerBook PeerBookRun.
Section limits.
  Context `{sw : Swarm} {ho : HashOrder}.

Definition within (n : nat) (o : option Z) : Prop := Z.of_nat n ≤ default u32_max o.
Definition in_u32 (o : option Z) : Prop := match o with Some x => 0 ≤ x ≤ u32_max | None => True end.
Definition limits_range (l : ConnectionLimits) : Prop :=
  in_u32 (max_pending_incoming l) ∧ in_u32 (max_pending_outgoing l) ∧ in_u32 (max_established_incoming l) ∧
  in_u32 (max_established_outgoing l) ∧ in_u32 (max_established_per_peer l) ∧ in_u32 (max_established_total l).

Record within_limits (lim : ConnectionLimits) (b : Behaviour) : Prop := {
  wl_limits : limits b = lim;
  wl_whitelist : whitelist b = ∅;
  wl_in : within (size (pending_inbound b)) (max_pending_incoming lim);
  wl_out : within (size (pending_outbound b)) (max_pending_outgoing lim);
  wl_est_in : within (size (established_inbound b)) (max_established_incoming lim);
  wl_est_out : within (size (established_outbound b)) (max_established_outgoing lim);
  wl_per_peer : ∀ p x, established_per_peer b !! p = Some x → within (size x) (max_established_per_peer lim);
  wl_total : within (size (established_inbound b) + size (established_outbound b)) (max_established_total lim);
}.

(** Actions that keep the limits and allow no peer to pass them. *)
Definition keeps_policy (a : Action) : Prop := match a with ALimits _ | AAllow _ => False | _ => True end.

Lemma check_limit_Ok o n : in_u32 o → within n o → check_limit o n = Ok () → within (S n) o.
Proof.
  unfold within, check_limit, in_u32. intros Ho Hn. assert (default u32_max o ≤ u32_max) by by destruct o; simpl; [lia|].
  unfold u32_max in *. rewrite Z.mod_small by lia. case_bool_decide; [done|]. intros _. lia.
Qed.
Lemma within_le n m o : (n ≤ m)%nat → within m o → within n o.
Proof. unfold within. lia. Qed.
Lemma size_add (id : ConnectionId) (x : gset ConnectionId) : (size ({[id]} ∪ x) ≤ S (size x))%nat.
Proof. rewrite size_union_alt, size_singleton. assert (size (x ∖ {[id]}) ≤ size x)%nat; [apply subseteq_size; set_solver|lia]. Qed.

(** Fewer connections. *)
Lemma within_shrink lim b b' :
  limits b' = limits b → whitelist b' ⊆ whitelist b → pending_inbound b' ⊆ pending_inbound b → pending_outbound b' ⊆ pending_outbound b →
  established_inbound b' ⊆ established_inbound b → established_outbound b' ⊆ established_outbound b →
  (∀ p x', established_per_peer b' !! p = Some x' → ∃ x, established_per_peer b !! p = Some x ∧ x' ⊆ x) →
  within_limits lim b → within_limits lim b'.
Proof.
  intros E1 E2 S1 S2 S3 S4 S5 [H1 H2 H3 H4 H5 H6 H7 H8].
  split; try (eapply within_le; [by apply subseteq_size|done]).
  - congruence.
  - set_solver.
  - intros p x' Hx. destruct (S5 p x' Hx) as (x & Hp & Hs). eapply within_le; [by apply subseteq_size|by eapply H7].
  - eapply within_le; [|done]. apply Nat.add_le_mono; by apply subseteq_size.
Qed.
Ltac shrink := eapply within_shrink; [..|eassumption]; simpl; try set_solver; eauto.

Lemma close_per_peer_sub id p m q x' : close_per_peer id p m !! q = Some x' → q ≠ p ∧ m !! q = Some x' ∨ q = p ∧ x' ≠ ∅ ∧ x' = default ∅ (m !! p) ∖ {[id]}.
Proof.
  unfold close_per_peer. rewrite lookup_entry_or. intros H. destruct (decide (q = p)) as [->|Hq].
  - right. case_bool_decide; [by rewrite lookup_delete_eq in H|]. rewrite lookup_insert_eq in H. injection H as <-.
    split; [done|]. split; [done|]. set_solver.
  - left. case_bool_decide; [rewrite lookup_delete_ne in H by done|rewrite lookup_insert_ne in H by done];
      rewrite lookup_entry_or_ne in H by done; done.
Qed.

Lemma closed_within lim p id b : within_limits lim b → within_limits lim (connection_closed p id b).1.
Proof.
  intros Hw. shrink. intros q x' [[Hq Hx]|(-> & Hne & Hx)]%close_per_peer_sub; [by exists x'|]. destruct (established_per_peer b !! p) as [x|]; [|set_solver].
  exists x. split; [done|]. simpl in Hx. set_solver.
Qed.

Lemma established_within lim p id pt b own :
  limits_range lim → within_limits lim b →
  own = match pt with Listener _ => max_established_incoming lim | Dialer _ => max_established_outgoing lim end →
  check_established own (match pt with Listener _ => established_inbound b | Dialer _ => established_outbound b end) p b = Ok () →
  within_limits lim (connection_established p id pt b).1.
Proof.
  intros (R1 & R2 & R3 & R4 & R5 & R6) [H1 H2 H3 H4 H5 H6 H7 H8] -> Hck.
  unfold check_established in Hck. rewrite H2, bool_decide_eq_false_2, H1 in Hck by set_solver.
  destruct (check_limit _ (size match pt with _ => _ end)) as [[]|] eqn:C1; [|done].
  destruct (check_limit (max_established_per_peer lim) _) as [[]|] eqn:C2; [|done].
  destruct (PeerBookInv.established_fields p id pt b) as (F1 & F2 & F3 & F4 & _ & F6).
  assert (limits (connection_established p id pt b).1 = limits b ∧ whitelist (connection_established p id pt b).1 = whitelist b) as [F7 F8].
  { unfold connection_established. destruct (pending_connections b !! id); [|done].
    by destruct (bool_decide (get_peer_info p b = None) && wait_on_identify (config b)). }
  pose proof (size_add id (established_inbound b)). pose proof (size_add id (established_outbound b)).
  apply check_limit_Ok in C1; [|by destruct pt|by destruct pt]. apply check_limit_Ok in Hck; [|done|done].
  split; rewrite ?F1, ?F2, ?F3, ?F4, ?F6, ?F7, ?F8; try done.
  - destruct pt; [done|]. by eapply within_le.
  - destruct pt; [|done]. by eapply within_le.
  - intros q x Hx. destruct (decide (q = p)) as [->|Hq]; [|rewrite lookup_entry_or_ne in Hx by done; by eapply H7].
    rewrite lookup_entry_or in Hx. injection Hx as <-. eapply within_le; [apply size_add|]. eapply check_limit_Ok; [done|..].
    + destruct (established_per_peer b !! p) as [x|] eqn:E; [by eapply H7|]. cbn [default]. rewrite size_empty. unfold within.
      destruct (max_established_per_peer lim); unfold in_u32, u32_max in *; simpl in *; lia.
    + rewrite <-C2. f_equal. by destruct (established_per_peer b !! p).
  - eapply within_le; [|exact Hck]. destruct pt; lia.
Qed.

Lemma same_within lim b b' :
  PeerBookInv.same_connections b b' → limits b' = limits b → whitelist b' ⊆ whitelist b → within_limits lim b → within_limits lim b'.
Proof. intros (E1 & E2 & E3 & E4 & _ & E6) E7 E8. apply within_shrink; rewrite ?E1, ?E2, ?E3, ?E4, ?E6; try done; eauto. Qed.

Lemma cleanup_policy n b : limits (Nat.iter n cleanup b) = limits b ∧ whitelist (Nat.iter n cleanup b) = whitelist b.
Proof. by induction n. Qed.
Lemma poll_policy ready ticks b : limits (poll ready ticks b).1.2 = limits b ∧ whitelist (poll ready ticks b).1.2 = whitelist b.
Proof.
  unfold poll. destruct (events b); [|done]. destruct (retain_timers _ _ _) as [[timers ident] out].
  exact (cleanup_policy ticks (upd_waiting [] (pending_connections b) (pending_disconnection b) timers ident b)).
Qed.

Lemma listen_failure_within lim id b : within_limits lim b → within_limits lim (listen_failure id b).
Proof. intros. shrink. Qed.
Lemma dial_failure_within lim id e b : within_limits lim b → within_limits lim (dial_failure id e b).1.
Proof. intros. shrink. Qed.
Lemma pend_in_within lim id b :
  in_u32 (max_pending_incoming lim) → within_limits lim b → check_limit (max_pending_incoming (limits b)) (size (pending_inbound b)) = Ok () →
  within_limits lim (upd_pending ({[id]} ∪ pending_inbound b) (pending_outbound b) b).
Proof.
  intros Hr Hw Hc. rewrite (wl_limits _ _ Hw) in Hc. apply check_limit_Ok in Hc; [|done|apply Hw].
  destruct Hw. split; try done. eapply within_le; [apply size_add|done].
Qed.
Lemma pend_out_within lim id b :
  in_u32 (max_pending_outgoing lim) → within_limits lim b → check_limit (max_pending_outgoing (limits b)) (size (pending_outbound b)) = Ok () →
  within_limits lim (upd_pending (pending_inbound b) ({[id]} ∪ pending_outbound b) b).
Proof.
  intros Hr Hw Hc. rewrite (wl_limits _ _ Hw) in Hc. apply check_limit_Ok in Hc; [|done|apply Hw].
  destruct Hw. split; try done. eapply within_le; [apply size_add|done].
Qed.

Lemma act_within lim a s : limits_range lim → keeps_policy a → within_limits lim (book s) → within_limits lim (book (act a s)).
Proof.
  intros Hr Ha Hw. pose proof Hr as (R1 & R2 & R3 & R4 & R5 & R6). destruct s as [b l used lg]. destruct a; cbn [act book ledger senders log] in *; try done.
  - by eapply same_within; [apply PeerBookInv.connect_same|..|exact Hw].
  - eapply same_within; [apply PeerBookInv.disconnect_same|..|exact Hw]; unfold disconnect; by repeat case_match.
  - eapply same_within; [..|exact Hw]; [done|done|set_solver].
  - eapply same_within; [apply PeerBookInv.inject_same|..|exact Hw]; unfold inject_peer_info; by destruct (wait_on_identify _).
  - eapply same_within; [..|exact Hw]; [done|done|set_solver].
  - eapply same_within; [..|exact Hw]; [done|done|set_solver].
  - pose proof (PeerBookInv.poll_same ready ticks b). destruct (poll_policy ready ticks b). destruct (poll ready ticks b) as [[e b'] out].
    eapply same_within; [done|done|set_solver|done].
  - unfold handle_pending_inbound_connection, try_limit. destruct (check_limit _ _) as [[]|] eqn:E; [destruct denied|];
      cbn [accepted negb answer book ledger fst snd].
    + by apply listen_failure_within, pend_in_within.
    + by apply pend_in_within.
    + by apply listen_failure_within.
  - unfold handle_pending_outbound_connection, try_limit. rewrite (wl_whitelist _ _ Hw).
    replace (match p with Some p0 => bool_decide (p0 ∈ ∅) | None => false end) with false
      by (destruct p; [symmetry; apply bool_decide_eq_false_2; set_solver|done]).
    destruct (check_limit _ _) as [[]|] eqn:E; [destruct denied|]; cbn [accepted negb answer book ledger fst snd].
    + by apply dial_failure_within, pend_out_within.
    + by apply pend_out_within.
    + by apply dial_failure_within.
  - assert (within_limits lim (upd_pending (pending_inbound b ∖ {[id]}) (pending_outbound b) b)) as Hw' by shrink.
    unfold handle_established_inbound_connection. destruct (check_established _ _ _ _) as [[]|] eqn:E; [destruct denied|];
      cbn [accepted negb answer book ledger fst snd].
    + by apply listen_failure_within.
    + eapply established_within; [done|done|done|]. rewrite <-E. f_equal. by rewrite (wl_limits _ _ Hw').
    + by apply listen_failure_within.
  - assert (within_limits lim (upd_pending (pending_inbound b) (pending_outbound b ∖ {[id]}) b)) as Hw' by shrink.
    unfold handle_established_outbound_connection. destruct (check_established _ _ _ _) as [[]|] eqn:E; [destruct denied|];
      cbn [accepted negb answer book ledger fst snd].
    + by apply dial_failure_within.
    + eapply established_within; [done|done|done|]. rewrite <-E. f_equal. by rewrite (wl_limits _ _ Hw').
    + by apply dial_failure_within.
  - by apply listen_failure_within.
  - by apply dial_failure_within.
  - destruct (l_est l !! id) as [[p pt]|]; [|done]. by apply closed_within.
Qed.

Lemma start_within c lim : limits_range lim → within_limits lim (book (start c lim)).
Proof.
  intros (R1 & R2 & R3 & R4 & R5 & R6). assert (∀ o, in_u32 o → within 0 o) as H0.
  { intros o Ho. unfold within, in_u32, u32_max in *. destruct o; simpl; lia. }
  split; simpl; try done; rewrite ?size_empty; auto.
Qed.
End limits.
End PeerBookLimits.

(** ** Callers *)
Module PeerBookCallers.
Import PeerBook PeerBookRun PeerBookInv.
Section callers.
  Context `{sw : Swarm} {ho : HashOrder}.

(** What libp2p and the timers grant: a dial has an identifier of its own that no other
    connection takes, and a timer does not end without having fired. *)
Definition proper (a : Action) (s : State) : Prop :=
  match a with
  | AConnect opts _ => connection_id opts ∉ l_used (ledger s) ∧ pending_connections (book s) !! connection_id opts = None
  | AIncoming id _ => pending_connections (book s) !! id = None
  | APoll ready _ => ∀ p, ready p ≠ TimerNone
  | _ => True
  end.
Inductive proper_run : list Action → State → State → Prop :=
  | proper_nil s : proper_run [] s s
  | proper_cons a acts s s' : enabled a s → proper a s → proper_run acts (act a s) s' → proper_run (a :: acts) s s'.

(** Such a run can be evaluated, up to the timers. *)
Definition fresh (a : Action) (s : State) : bool :=
  match a with
  | AConnect opts _ =>
      bool_decide (connection_id opts ∉ l_used (ledger s)) && bool_decide (pending_connections (book s) !! connection_id opts = None)
  | AIncoming id _ => bool_decide (pending_connections (book s) !! id = None)
  | _ => true
  end.
Fixpoint can_run_proper (acts : list Action) (s : State) : bool :=
  match acts with [] => true | a :: acts => bool_decide (enabled a s) && fresh a s && can_run_proper acts (act a s) end.
Lemma proper_foldl acts s : can_run_proper acts s = true →
  Forall (λ a, match a with APoll ready _ => ∀ p, ready p ≠ TimerNone | _ => True end) acts →
  proper_run acts s (foldl (λ s a, act a s) s acts).
Proof.
  revert s. induction acts as [|a acts IH]; intros s; simpl; [constructor|]. intros [[Ha Hf]%andb_true_iff Hr]%andb_true_iff [Ht Hts]%Forall_cons.
  apply bool_decide_eq_true in Ha. constructor; [done| |by apply IH]. destruct a; simpl in *; try done.
  - apply andb_true_iff in Hf as [H1%bool_decide_eq_true H2%bool_decide_eq_true]. done.
  - by apply bool_decide_eq_true in Hf.
Qed.

(** A connection that is being dialed, or whose dial has not begun. *)
Definition open_dial (l : Ledger) (i : ConnectionId) : Prop := i ∈ l_out l ∨ i ∉ l_used l.
(** Nobody waits for what cannot come any more. *)
Record callers_ok (c : Config) (s : State) : Prop := {
  co_config : config (book s) = c;
  co_dial : ∀ id, is_Some (pending_connections (book s) !! id) → open_dial (ledger s) id;
  co_disc : ∀ p, is_Some (pending_disconnection (book s) !! p) → is_Some (peer_connections (book s) !! p);
  co_ident : ∀ p, is_Some (pending_identify (book s) !! p) → p ∈ pending_identify_timer (book s) ∧ wait_on_identify c = true;
}.

Lemma delete_is_Some `{Countable K} {A} (m : gmap K A) i j : is_Some (delete i m !! j) → j ≠ i ∧ is_Some (m !! j).
Proof. intros [x Hx]. apply lookup_delete_Some in Hx as [? ?]. split; [done|by eexists]. Qed.
Lemma insert_is_Some' `{Countable K} {A} (m : gmap K A) i x j : is_Some (<[i := x]> m !! j) → j = i ∨ is_Some (m !! j).
Proof. rewrite lookup_insert_is_Some. naive_solver. Qed.

(** Dials that are under way or not begun stay so. *)
Lemma fail_open id l i : i ≠ id → open_dial l i → open_dial (fail id l) i.
Proof. unfold open_dial. simpl. intros Hne [H|H]; [left|right]; set_solver. Qed.
Lemma pend_in_open id l i : i ≠ id → open_dial l i → open_dial (pend_in id l) i.
Proof. unfold open_dial. simpl. intros Hne [H|H]; [left|right]; set_solver. Qed.
Lemma pend_out_open id l i : open_dial l i → open_dial (pend_out id l) i.
Proof. unfold open_dial. simpl. destruct (decide (i = id)) as [->|Hne]; [set_solver|]. intros [H|H]; [left|right]; set_solver. Qed.
Lemma establish_open id x l i : i ≠ id → open_dial l i → open_dial (establish id x l) i.
Proof. unfold open_dial. simpl. intros Hne [H|H]; [left|right]; set_solver. Qed.

(** A step that moves no caller but changes what the swarm has. *)
Lemma callers_same c s s' :
  callers_ok c s → config (book s') = config (book s) → pending_connections (book s') = pending_connections (book s) →
  pending_disconnection (book s') = pending_disconnection (book s) → pending_identify (book s') = pending_identify (book s) →
  pending_identify_timer (book s') = pending_identify_timer (book s) → peer_connections (book s') = peer_connections (book s) →
  (∀ id, is_Some (pending_connections (book s) !! id) → open_dial (ledger s) id → open_dial (ledger s') id) → callers_ok c s'.
Proof. intros [H1 H2 H3 H4] E1 E2 E3 E4 E5 E6 Hl. split; rewrite ?E1, ?E2, ?E3, ?E4, ?E5, ?E6; try done. intros id Hid. apply Hl; auto. Qed.

Lemma dial_failure_callers c s b id error l' :
  callers_ok c s → config b = config (book s) → pending_connections b = pending_connections (book s) →
  pending_disconnection b = pending_disconnection (book s) → pending_identify b = pending_identify (book s) →
  pending_identify_timer b = pending_identify_timer (book s) → peer_connections b = peer_connections (book s) →
  (∀ i, i ≠ id → open_dial (ledger s) i → open_dial l' i) →
  callers_ok c (answer s l' [] (dial_failure id error b)).
Proof.
  intros [H1 H2 H3 H4] E1 E2 E3 E4 E5 E6 Hl. split; simpl; rewrite ?E1, ?E2, ?E3, ?E4, ?E5, ?E6; try done.
  intros i [Hne Hi]%delete_is_Some. apply Hl; auto.
Qed.

Lemma established_callers c s b id p pt l' :
  callers_ok c s → config b = config (book s) → pending_connections b = pending_connections (book s) →
  pending_disconnection b = pending_disconnection (book s) → pending_identify b = pending_identify (book s) →
  pending_identify_timer b = pending_identify_timer (book s) → peer_connections b = peer_connections (book s) →
  (∀ i, i ≠ id → open_dial (ledger s) i → open_dial l' i) →
  callers_ok c (answer s l' [] (connection_established p id pt b)).
Proof.
  intros [H1 H2 H3 H4] E1 E2 E3 E4 E5 E6 Hl.
  assert (∀ q, is_Some (peer_connections (book s) !! q) → is_Some (entry_or [] (λ l, l ++ [(id, point_addr pt)]) p (peer_connections (book s)) !! q)) as Hpc.
  { intros q Hq. destruct (decide (q = p)) as [->|Hne]; [rewrite lookup_entry_or; by eexists|by rewrite lookup_entry_or_ne]. }
  unfold connection_established. rewrite E2. destruct (pending_connections (book s) !! id) as [ch|] eqn:E.
  - destruct (bool_decide (get_peer_info p b = None) && wait_on_identify (config b)) eqn:Ew; split; simpl; rewrite ?E1, ?E2, ?E3, ?E4, ?E5, ?E6; try done.
    + intros i [Hne Hi]%delete_is_Some. apply Hl; auto.
    + intros q Hq. apply Hpc. auto.
    + intros q [->|Hq]%insert_is_Some'.
      * split; [set_solver|]. apply andb_true_iff in Ew as [_ Ew]. by rewrite E1, H1 in Ew.
      * destruct (H4 q Hq). split; [set_solver|done].
    + intros i [Hne Hi]%delete_is_Some. apply Hl; auto.
    + intros q Hq. apply Hpc. auto.
  - split; simpl; rewrite ?E1, ?E2, ?E3, ?E4, ?E5, ?E6; try done.
    + intros i Hi. apply Hl; [|auto]. intros ->. rewrite E in Hi. by destruct Hi.
    + intros q Hq. apply Hpc. auto.
Qed.

Lemma retain_callers ready l ident :
  let r := retain_timers ready l ident in
  (∀ p, ready p ≠ TimerNone) → ∀ p, is_Some (r.1.2 !! p) → is_Some (ident !! p) ∧ (p ∈ l → p ∈ r.1.1).
Proof.
  cbv zeta. revert ident. induction l as [|q l IH]; intros ident Hr p; cbn [retain_timers]; [set_solver|].
  destruct (ready q) eqn:Eq; [| |].
  - simpl. specialize (IH (delete q ident) Hr p). destruct (retain_timers ready l (delete q ident)) as [[kept i2] out2]. simpl in *.
    intros Hp. destruct (IH Hp) as [Hd Hin]. apply delete_is_Some in Hd as [Hne Hd]. split; [done|]. set_solver.
  - by destruct (Hr q).
  - specialize (IH ident Hr p). destruct (retain_timers ready l ident) as [[kept i2] out2]. simpl in *.
    intros Hp. destruct (IH Hp) as [Hd Hin]. split; [done|]. set_solver.
Qed.

Lemma poll_callers c s ready ticks : (∀ p, ready p ≠ TimerNone) → callers_ok c s → callers_ok c (act (APoll ready ticks) s).
Proof.
  intros Hr [H1 H2 H3 H4]. cbn [act]. unfold poll. destruct (events (book s)) as [|e es]; [|by split].
  pose proof (retain_callers ready (iter_set (pending_identify_timer (book s))) (pending_identify (book s)) Hr) as Hk.
  destruct (retain_timers _ _ _) as [[timers ident] out]. cbn [fst snd] in Hk.
  set (b := upd_waiting _ _ _ _ _ _).
  assert (∀ n, config (Nat.iter n cleanup b) = config b ∧ pending_connections (Nat.iter n cleanup b) = pending_connections b ∧
    pending_disconnection (Nat.iter n cleanup b) = pending_disconnection b ∧ pending_identify (Nat.iter n cleanup b) = ident ∧
    pending_identify_timer (Nat.iter n cleanup b) = timers ∧ peer_connections (Nat.iter n cleanup b) = peer_connections b) as Hn
    by (intros n; by induction n).
  destruct (Hn ticks) as (E1 & E2 & E3 & E4 & E5 & E6). split; simpl; rewrite ?E1, ?E2, ?E3, ?E4, ?E5, ?E6; try done.
  intros p Hp. destruct (Hk p Hp) as [Hi Ht]. destruct (H4 p Hi). split; [|done]. apply Ht. by apply elem_of_iter_set.
Qed.

Lemma closed_callers c s id p pt : tracks (book s) (ledger s) → callers_ok c s → l_est (ledger s) !! id = Some (p, pt) →
  callers_ok c (answer s (close id (ledger s)) [] (connection_closed p id (book s))).
Proof.
  intros Ht [H1 H2 H3 H4] Hid. split; simpl; try done.
  - intros i [Hne Hi]%delete_is_Some. exact (H2 i Hi).
  - intros q [Hne Hq]%delete_is_Some. specialize (H3 q Hq). unfold close_connection. destruct (peer_connections (book s) !! p) as [l|]; [|done].
    case_bool_decide; [by rewrite lookup_delete_ne|by rewrite lookup_insert_ne].
Qed.

Lemma act_callers c a s : enabled a s → proper a s → tracks (book s) (ledger s) → callers_ok c s → callers_ok c (act a s).
Proof.
  intros He Hp Ht Hc. pose proof Hc as [H1 H2 H3 H4].
  assert (∀ id i, id ∈ l_in (ledger s) → is_Some (pending_connections (book s) !! i) → i ≠ id) as Hin.
  { intros id i Hid Hi ->. destruct (H2 id Hi) as [Ho|Ho].
    - destruct (tr_disjoint _ _ Ht) as [Hd _]. set_solver.
    - pose proof (tr_used _ _ Ht). set_solver. }
  destruct a; try (by eapply callers_same; eauto); cbn [enabled proper] in He, Hp.
  - destruct Hp as [Hp1 Hp2]. cbn [act]. split; simpl; try done. intros i [->|Hi]%insert_is_Some'; [by right|auto].
  - cbn [act]. unfold disconnect. case_bool_decide as Hq; [|by split]. simpl. case_bool_decide; [by split|]. split; simpl; try done.
    intros q [->|Hi]%insert_is_Some'; auto.
  - cbn [act]. unfold inject_peer_info. simpl. destruct (wait_on_identify (config (book s))) eqn:Ew; split; simpl; try done.
    + intros q [Hne Hi]%delete_is_Some. destruct (H4 q Hi). split; [by apply elem_of_difference; rewrite elem_of_singleton|done].
    + intros q Hi. destruct (H4 q Hi) as [_ Hw]. rewrite H1 in Ew. congruence.
  - by apply poll_callers.
  - assert (∀ i, is_Some (pending_connections (book s) !! i) → i ≠ id) as Hne by (intros i Hi ->; rewrite Hp in Hi; by destruct Hi).
    cbn [act]. unfold handle_pending_inbound_connection, try_limit.
    destruct (check_limit _ _); [destruct denied|]; eapply callers_same; try done; intros i Hi%Hne; [by apply fail_open|by apply pend_in_open|by apply fail_open].
  - cbn [act]. unfold handle_pending_outbound_connection, try_limit.
    match goal with |- context [match (if ?c then ?x else ?y) with _ => _ end] => destruct (if c then x else y) end; [destruct denied|].
    + apply dial_failure_callers; try done. intros i. apply fail_open.
    + eapply callers_same; try done. intros i _. apply pend_out_open.
    + apply dial_failure_callers; try done. intros i. apply fail_open.
  - cbn [act]. unfold handle_established_inbound_connection. destruct (check_established _ _ _ _); [destruct denied|].
    + eapply callers_same; try done. intros i Hi%(Hin id); [|done]. by apply fail_open.
    + apply established_callers; try done. intros i. apply establish_open.
    + eapply callers_same; try done. intros i Hi%(Hin id); [|done]. by apply fail_open.
  - cbn [act]. unfold handle_established_outbound_connection. destruct (check_established _ _ _ _); [destruct denied|].
    + apply dial_failure_callers; try done. intros i. apply fail_open.
    + apply established_callers; try done. intros i. apply establish_open.
    + apply dial_failure_callers; try done. intros i. apply fail_open.
  - cbn [act]. eapply callers_same; try done. intros i Hi%(Hin id); [|done]. by apply fail_open.
  - cbn [act]. apply dial_failure_callers; try done. intros i. apply fail_open.
  - cbn [act]. destruct He as [[p pt] Hid]. rewrite Hid. by eapply closed_callers.
Qed.

Lemma proper_run_ok c acts s s' : proper_run acts s s' → tracks (book s) (ledger s) → callers_ok c s →
  tracks (book s') (ledger s') ∧ callers_ok c s'.
Proof. induction 1 as [|a acts s s' He Hp _ IH]; intros Ht Hc; [done|]. apply IH; [by apply act_tracks|by apply act_callers]. Qed.
Lemma start_callers c lim : callers_ok c (start c lim).
Proof. split; simpl; try done; intros ? [? H]; by rewrite lookup_empty in H. Qed.
End callers.
End PeerBookCallers.
