(* ===== verification/PeerBookClaims.v ===== *)
(** * The peer book: what it promises *)
From stdpp Require Import base gmap list strings.
From S2P Require Import Prelude PeerBook PeerBookProofs.
Local Open Scope Z_scope.

Module PeerBookClaims.
Import PeerBook PeerBookRun PeerBookInv PeerBookLimits PeerBookCallers.
Section claims.
  Context `{sw : Swarm} {ho : HashOrder}.

Definition connected (l : Ledger) (p : PeerId) : Prop := ∃ id a, of_peer (l_est l) p id a.

Lemma tracks_connected b l p : tracks b l → (is_Some (peer_connections b !! p) ↔ connected l p) ∧ (is_Some (established_per_peer b !! p) ↔ connected l p).
Proof.
  intros Ht. pose proof (tr_conns _ _ Ht p) as H1. pose proof (tr_per_peer _ _ Ht p) as H2. split.
  - destruct (peer_connections b !! p) as [x|]; (split; [|intros (id & a & Ho)]).
    + destruct H1 as (Hne & _ & Hl). intros _. destruct x as [|[id a] x]; [done|]. exists id, a. apply Hl. set_solver.
    + done.
    + by intros [? ?].
    + by destruct (H1 id a).
  - destruct (established_per_peer b !! p) as [x|]; (split; [|intros (id & a & Ho)]).
    + destruct H2 as (Hne & Hl). intros _. destruct (set_choose_L x Hne) as [id Hid]. apply Hl in Hid as [a Ha]. by exists id, a.
    + done.
    + by intros [? ?].
    + by destruct (H2 id a).
Qed.

Lemma act_address id a s :
  (∀ a', a ≠ AAddressChange id a') → (∀ p x, of_peer (l_est (ledger s)) p id x → l_addr (ledger s) !! id = Some x) →
  ∀ p x, of_peer (l_est (ledger (act a s))) p id x → l_addr (ledger (act a s)) !! id = Some x.
Proof.
  intros Ha Hs. assert (∀ i y p x, of_peer (l_est (establish i y (ledger s))) p id x → l_addr (establish i y (ledger s)) !! id = Some x) as He.
  { intros i y p x (pt & Hl & <-). simpl in *. destruct (decide (i = id)) as [->|Hne].
    - rewrite lookup_insert_eq in Hl. rewrite lookup_insert_eq. by injection Hl as ->.
    - rewrite lookup_insert_ne in Hl by done. rewrite lookup_insert_ne by done. apply (Hs p). by exists pt. }
  destruct a; cbn [act]; try done.
  - by destruct (poll ready ticks (book s)) as [[e b] out].
  - destruct (handle_pending_inbound_connection id0 (book s)) as [r b]. by destruct (accepted r denied).
  - destruct (handle_pending_outbound_connection id0 p (book s)) as [r b]. by destruct (accepted r denied).
  - destruct (handle_established_inbound_connection id0 p (book s)) as [r b]. destruct (accepted r denied); [apply He|done].
  - destruct (handle_established_outbound_connection id0 p (book s)) as [r b]. destruct (accepted r denied); [apply He|done].
  - intros p x Ho. simpl. rewrite lookup_insert_ne; [by apply (Hs p)|]. intros ->. by eapply Ha.
  - destruct (l_est (ledger s) !! id0) as [[q pt]|]; [|done]. intros p x (pt' & Hl & <-). simpl in *.
    apply lookup_delete_Some in Hl as [Hne Hl]. rewrite lookup_delete_ne by done. apply (Hs p). by exists pt'.
Qed.
Lemma run_address c lim acts s id : run acts (start c lim) s → (∀ a, AAddressChange id a ∉ acts) →
  ∀ p x, of_peer (l_est (ledger s)) p id x → l_addr (ledger s) !! id = Some x.
Proof.
  intros Hr Hno. apply (run_ind_inv (λ s, ∀ p x, of_peer (l_est (ledger s)) p id x → l_addr (ledger s) !! id = Some x)
    (λ a, ∀ a', a ≠ AAddressChange id a') acts (start c lim)); [|apply Forall_forall; by intros a Hin a' ->; eapply Hno|done|].
  - intros a s0 Ha _ Hs. by apply act_address.
  - intros p x (pt & Hl & _). simpl in Hl. by rewrite lookup_empty in Hl.
Qed.

(** ** The claims *)

(** C10: in every order of calls that the swarm allows, also when other behaviours deny
    connections, the book agrees with the swarm: the pending and established sets
    are those of the swarm, the peers are exactly the connected ones, once each, and
    the addresses of a peer are those that its connections were established with.
    They are its addresses still, except of connections whose address has changed
    since, which the book ignores. *)
Theorem book_tracks_swarm c lim acts s :
  run acts (start c lim) s →
  pending_inbound (book s) = l_in (ledger s) ∧ pending_outbound (book s) = l_out (ledger s) ∧
  (∀ id, id ∈ established_inbound (book s) ↔ ∃ p a, l_est (ledger s) !! id = Some (p, Listener a)) ∧
  (∀ id, id ∈ established_outbound (book s) ↔ ∃ p a, l_est (ledger s) !! id = Some (p, Dialer a)) ∧
  NoDup (peers (book s)) ∧ (∀ p, p ∈ peers (book s) ↔ connected (ledger s) p) ∧
  (∀ p l, peer_addresses p (book s) = Some l →
    ∃ ids, NoDup ids ∧ length ids = length l ∧ ∀ id a, (id, a) ∈ zip ids l ↔ of_peer (l_est (ledger s)) p id a) ∧
  (∀ p id a, of_peer (l_est (ledger s)) p id a → (∀ a', AAddressChange id a' ∉ acts) → l_addr (ledger s) !! id = Some a).
Proof.
  intros Hr. pose proof (run_tracks _ _ _ Hr (start_tracks c lim)) as Ht. pose proof Ht as [H1 H2 H3 H4 H5 _ _ _].
  split_and!; try done.
  - apply NoDup_iter_map_keys.
  - intros p. destruct (tracks_connected _ _ p Ht) as [<- _]. unfold peers. rewrite list_elem_of_fmap. split.
    + intros ([q x] & -> & Hin). apply elem_of_iter_map in Hin. by eexists.
    + intros [x Hx]. exists (p, x). split; [done|]. by apply elem_of_iter_map.
  - intros p l Hl. unfold peer_addresses in Hl. specialize (H5 p). destruct (peer_connections (book s) !! p) as [x|]; [|done].
    injection Hl as <-. destruct H5 as (_ & Hnd & Hx). exists x.*1. split_and!; [done|by rewrite !length_fmap|].
    intros id a. rewrite <-Hx. by rewrite zip_fst_snd.
  - intros p id a Ho Hno. by apply (run_address c lim acts s id Hr Hno p a).
Qed.

(** C24: as long as nobody changes the limits or is allowed to pass them, the numbers of
    pending and established connections, also of each peer and in total, never
    exceed them, whatever the swarm does; a limit that is not set is the largest
    32-bit number. *)
Theorem limits_hold c lim acts s :
  limits_range lim → Forall keeps_policy acts → run acts (start c lim) s → within_limits lim (book s).
Proof.
  intros Hlim Hp Hr. apply (run_ind_inv (λ s, within_limits lim (book s)) keeps_policy acts (start c lim)); [|done|done|by apply start_within].
  intros a s0 Ha _ Hs. by apply act_within.
Qed.

Lemma retain_answers ready l ident p tx :
  ready p = TimerReady → p ∈ l → NoDup l → ident !! p = Some tx → Answer tx (Ok ()) ∈ (retain_timers ready l ident).2.
Proof.
  intros Hr. revert ident. induction l as [|q l IH]; intros ident Hp Hnd Ht; [by apply elem_of_nil in Hp|].
  apply NoDup_cons in Hnd as [Hq Hnd]. cbn [retain_timers]. destruct (decide (q = p)) as [->|Hne].
  - rewrite Hr. cbn [send_removed]. rewrite Ht. destruct (retain_timers ready l (delete p ident)) as [[kept i2] out2]. simpl. set_solver.
  - apply elem_of_cons in Hp as [->|Hp]; [done|]. destruct (ready q).
    + simpl. specialize (IH (delete q ident) Hp Hnd). rewrite lookup_delete_ne in IH by done. specialize (IH Ht).
      destruct (retain_timers ready l (delete q ident)) as [[kept i2] out2]. simpl in *. apply elem_of_app. by right.
    + by apply IH.
    + specialize (IH ident Hp Hnd Ht). by destruct (retain_timers ready l ident) as [[kept i2] out2].
Qed.

(** C25: nobody waits for what cannot come any more.  A caller of [connect] that waits
    for its connection has one that is being dialed or whose dial has not begun; when
    that dial fails it gets the error, and when the connection is established it gets
    its answer or waits for the peer to be identified.  Who waits for that has a
    timer running, and is answered by the information about the peer or by the
    timer.  Who waits for a disconnection waits for a connected peer, and is answered
    when a connection of that peer is closed. *)
Theorem callers_served c lim acts s :
  proper_run acts (start c lim) s →
  (∀ id tx, pending_connections (book s) !! id = Some tx →
    (id ∈ l_out (ledger s) ∨ id ∉ l_used (ledger s)) ∧
    (∀ error, Answer tx (Err error) ∈ log (act (ADialFailure id error) s)) ∧
    (∀ p a error, (handle_established_outbound_connection id p (book s)).1 = Ok () →
      let s' := act (AEstablishedOut id p a false error) s in
      Answer tx (Ok ()) ∈ log s' ∨ pending_identify (book s') !! p = Some tx ∧ get_peer_info p (book s') = None)) ∧
  (∀ p tx, pending_identify (book s) !! p = Some tx →
    p ∈ pending_identify_timer (book s) ∧
    (∀ info, info_peer_id info = p → Answer tx (Ok ()) ∈ log (act (AInfo info) s)) ∧
    (∀ ready ticks, events (book s) = [] → ready p = TimerReady → Answer tx (Ok ()) ∈ log (act (APoll ready ticks) s))) ∧
  (∀ p tx, pending_disconnection (book s) !! p = Some tx →
    connected (ledger s) p ∧ ∀ id a, of_peer (l_est (ledger s)) p id a → Answer tx (Ok ()) ∈ log (act (AClosed id) s)).
Proof.
  intros Hr. destruct (proper_run_ok c _ _ _ Hr (start_tracks c lim) (start_callers c lim)) as [Ht [H1 H2 H3 H4]]. split_and!.
  - intros id tx Hid. split_and!; [by apply H2|..].
    + intros error. cbn [act dial_failure send_removed]. simpl. rewrite Hid. set_solver.
    + intros p a error Hok. cbv zeta. cbn [act]. unfold handle_established_outbound_connection in *. cbn [fst] in Hok. rewrite Hok. cbn [accepted negb].
      unfold connection_established. cbn [pending_connections upd_pending]. rewrite Hid.
      destruct (bool_decide _ && _) eqn:E; simpl; [right|left; set_solver].
      apply andb_true_iff in E as [E _]. apply bool_decide_eq_true in E. by rewrite lookup_insert_eq.
  - intros p tx Hp. destruct (H4 p) as [Hin Hw]; [by eexists|]. split_and!; [done|..].
    + intros info <-. cbn [act]. unfold inject_peer_info. simpl. rewrite H1, Hw. simpl. rewrite Hp. set_solver.
    + intros ready ticks He Hready. cbn [act]. unfold poll. rewrite He.
      pose proof (retain_answers ready (iter_set (pending_identify_timer (book s))) (pending_identify (book s)) p tx Hready) as Ha.
      destruct (retain_timers _ _ _) as [[timers ident] out]. simpl in *. apply elem_of_app. right. apply Ha; [by apply elem_of_iter_set|apply NoDup_iter_set|done].
  - intros p tx Hp. split; [apply (proj1 (tracks_connected _ _ p Ht)), H3; by eexists|]. intros id a (pt & Hid & _). cbn [act]. rewrite Hid.
    simpl. rewrite Hp. set_solver.
Qed.

Lemma iter_cleanup n b p : (0 < n)%nat →
  get_peer_info p (Nat.iter n cleanup b) = if bool_decide (keep_info b p) then get_peer_info p b else None.
Proof.
  intros Hn. assert (∀ n b, keep_info (Nat.iter n cleanup b) p ↔ keep_info b p) as Hk by by intros k b0; induction k.
  induction n as [|n IH]; [lia|]. assert (get_peer_info p (Nat.iter (S n) cleanup b) =
    if bool_decide (keep_info b p) then get_peer_info p (Nat.iter n cleanup b) else None) as ->.
  { simpl. unfold get_peer_info at 1. simpl. rewrite map_lookup_filter. rewrite <-(bool_decide_ext _ _ (Hk n b)). unfold get_peer_info.
    destruct (peer_info _ !! p) as [i|]; simpl; [|by destruct (bool_decide (keep_info (Nat.iter n cleanup b) p))].
    case_guard; [by rewrite bool_decide_eq_true_2|by rewrite bool_decide_eq_false_2]. }
  destruct n as [|n]; [done|]. rewrite IH by lia. by case_bool_decide.
Qed.

(** When the clean-up interval passes, the book forgets what it knows of the peers
    that are connected or allowed to pass the limits, and keeps what it knows of all
    others: the opposite of what the comment in the code says. *)
Theorem cleanup_inverted c lim acts s ready ticks p :
  run acts (start c lim) s → events (book s) = [] → (0 < ticks)%nat →
  (connected (ledger s) p ∨ p ∈ whitelist (book s) → get_peer_info p (poll ready ticks (book s)).1.2 = None) ∧
  (¬ connected (ledger s) p → p ∉ whitelist (book s) → get_peer_info p (poll ready ticks (book s)).1.2 = get_peer_info p (book s)).
Proof.
  intros Hr He Hn. pose proof (run_tracks _ _ _ Hr (start_tracks c lim)) as Ht. destruct (tracks_connected _ _ p Ht) as [_ Hc].
  unfold poll. rewrite He. destruct (retain_timers _ _ _) as [[timers ident] out]. cbn [fst snd].
  set (b := upd_waiting _ _ _ _ _ _). assert (keep_info b p ↔ ¬ connected (ledger s) p ∧ p ∉ whitelist (book s)) as Hk.
  { unfold keep_info. simpl. rewrite eq_None_not_Some, Hc. done. }
  rewrite iter_cleanup by done. split; intros; case_bool_decide; try done; tauto.
Qed.

(** A second dial to a peer that has not been identified cancels the first caller. *)
Theorem second_dial_cancels p id pt tx tx' b :
  wait_on_identify (config b) = true → get_peer_info p b = None → pending_identify b !! p = Some tx →
  pending_connections b !! id = Some tx' → (connection_established p id pt b).2 = [Dropped tx].
Proof.
  intros Hw Hi Ht Htx. unfold connection_established. rewrite Htx, Hi, Hw. simpl. unfold put_sender. by rewrite Ht.
Qed.
(** The caller of [disconnect] is told so when the first of several connections is closed. *)
Theorem disconnect_answers_early p id tx b :
  pending_connections b !! id = None → pending_disconnection b !! p = Some tx → (connection_closed p id b).2 = [Answer tx (Ok ())].
Proof. intros Hc Ht. unfold connection_closed, send_removed. simpl. by rewrite Hc, Ht. Qed.
End claims.
End PeerBookClaims.

(** Two peers, one connection of each at most, and none but one incoming. *)
Module PeerBookWitness.
Import PeerBook PeerBookRun PeerBookInv PeerBookLimits PeerBookCallers PeerBookClaims.
#[local] Existing Instance nat_ids.
#[local] Existing Instance key_order.
#[local] Instance nat_swarm : Swarm := {|
  ConnectionId := nat; Multiaddr := nat; DialOpts := nat; connection_id := λ n, n; Info := nat; info_peer_id := λ n, n |}.

Definition one : ConnectionLimits := with_max_established_incoming (Some 1) (with_max_established_per_peer (Some 1) no_limits).
Definition dial_and_listen : list Action := [
  AConnect 7%nat 0%nat; APoll (λ _, TimerPending) 0; AOutgoing 7%nat (Some 1%nat) false "error"; AEstablishedOut 7%nat 1%nat 100%nat false "error";
  AIncoming 8%nat false; AEstablishedIn 8%nat 2%nat 200%nat false;
  AIncoming 9%nat false; AEstablishedIn 9%nat 3%nat 300%nat false;
  AInfo 1%nat; ADisconnect 2%nat 1%nat; APoll (λ _, TimerPending) 0].
Definition final : State := foldl (λ s a, act a s) (start Config_default one) dial_and_listen.

Lemma dial_and_listen_runs : run dial_and_listen (start Config_default one) final.
Proof. apply run_foldl. vm_compute. reflexivity. Qed.
Example final_state : established_inbound (book final) = {[8%nat]} ∧ log final = [Answer 0%nat (Ok ())] ∧ pending_disconnection (book final) !! 2%nat = Some 1%nat.
Proof. vm_compute. done. Qed.

Lemma book_tracks_swarm_witness : NoDup (peers (book final)) ∧ (∀ p, p ∈ peers (book final) ↔ connected (ledger final) p).
Proof.
  destruct (book_tracks_swarm Config_default one dial_and_listen final dial_and_listen_runs) as (_ & _ & _ & _ & H1 & H2 & _). by split.
Defined.
Lemma limits_hold_witness : within_limits one (book final).
Proof.
  apply (limits_hold Config_default one dial_and_listen final); [|repeat constructor|apply dial_and_listen_runs].
  unfold limits_range, in_u32, one. simpl. unfold u32_max. lia.
Defined.
Lemma dial_and_listen_proper : proper_run dial_and_listen (start Config_default one) final.
Proof. apply proper_foldl; [vm_compute; reflexivity|]. unfold dial_and_listen. by repeat constructor. Qed.
Lemma callers_served_witness : connected (ledger final) 2%nat ∧ Answer 1%nat (Ok ()) ∈ log (act (AClosed 8%nat) final).
Proof.
  destruct (callers_served Config_default one dial_and_listen final dial_and_listen_proper) as (_ & _ & H).
  destruct (H 2%nat 1%nat) as [H1 H2]; [vm_compute; reflexivity|]. split; [exact H1|]. apply (H2 8%nat 200%nat). eexists. split; vm_compute; reflexivity.
Defined.
(** A changed address: the book still has the old one. *)
Example stale_address :
  let s := act (AAddressChange 8%nat 201%nat) final in
  peer_addresses 2%nat (book s) = Some [200%nat] ∧ l_addr (ledger s) !! 8%nat = Some 201%nat.
Proof. vm_compute. done. Qed.
Lemma cleanup_inverted_witness :
  (connected (ledger final) 1%nat ∨ 1%nat ∈ whitelist (book final) →
     get_peer_info 1%nat (poll (λ _, TimerPending) 1 (book final)).1.2 = None) ∧
  (¬ connected (ledger final) 1%nat → 1%nat ∉ whitelist (book final) →
     get_peer_info 1%nat (poll (λ _, TimerPending) 1 (book final)).1.2 = get_peer_info 1%nat (book final)).
Proof. apply (cleanup_inverted Config_default one dial_and_listen final); [apply dial_and_listen_runs|vm_compute; reflexivity|lia]. Defined.
End PeerBookWitness.
