(* ===== verification/AddressBook.v ===== *)
(** * The address book

    src/p2p/addressbook.rs: the addresses that are known of peers, which the swarm
    dials. *)
From stdpp Require Import base gmap list strings.
From S2P Require Import Prelude.

(** [Multiaddr]: a sequence of protocols, of which [/p2p/..] is one. *)
Class Protocols := {
  Protocol : Type;
  Protocol_eq_dec :: EqDecision Protocol;
  Protocol_countable :: Countable Protocol;
  is_p2p : Protocol → bool;
}.

Module AddressBook.
Section book.
  Context {ids : Ids} {pr : Protocols} {ho : HashOrder}.
Notation Multiaddr := (list Protocol).

(** The queue of events of the behaviour is always empty. *)
Record Config := mkConfig { store_on_connection : bool }.
Record Behaviour := mkBehaviour { peer_addresses : gmap PeerId (list Multiaddr); config : Config }.
Implicit Types b : Behaviour.

Definition with_config (config : Config) : Behaviour := mkBehaviour ∅ config.
Definition set_addresses (m : gmap PeerId (list Multiaddr)) b : Behaviour := mkBehaviour m (config b).

(** [if matches!(addr.iter().last(), Some(Protocol::P2p(_))) { addr.pop(); }] *)
Definition strip (a : Multiaddr) : Multiaddr :=
  match last a with Some p => if is_p2p p then take (length a - 1) a else a | None => a end.

Definition add_address (p : PeerId) (a : Multiaddr) b : bool * Behaviour :=
  let a := strip a in
  match peer_addresses b !! p with
  | Some l => if bool_decide (a ∈ l) then (false, b) else (true, set_addresses (<[p := l ++ [a]]> (peer_addresses b)) b)
  | None => (true, set_addresses (<[p := [a]]> (peer_addresses b)) b)
  end.
Definition remove_address (p : PeerId) (a : Multiaddr) b : bool * Behaviour :=
  match peer_addresses b !! p with
  | Some l => if negb (bool_decide (a ∈ l)) then (false, b)
              else (true, set_addresses (<[p := filter (λ x, a ≠ x) l]> (peer_addresses b)) b)
  | None => (true, b)
  end.
Definition remove_peer (p : PeerId) b : bool * Behaviour :=
  (bool_decide (is_Some (peer_addresses b !! p)), set_addresses (delete p (peer_addresses b)) b).
Definition get_peer_addresses (p : PeerId) b : option (list Multiaddr) := peer_addresses b !! p.
Definition contains (p : PeerId) (a : Multiaddr) b : bool :=
  match get_peer_addresses p b with Some l => negb (bool_decide (l = [])) && bool_decide (a ∈ l) | None => false end.
Definition iter b : list (PeerId * list Multiaddr) := iter_map (peer_addresses b).

(** What the swarm asks; every connection is accepted. *)
Definition handle_pending_outbound_connection (p : option PeerId) b : list Multiaddr :=
  match p with Some p => default [] (peer_addresses b !! p) | None => [] end.
(** [handle_established_inbound_connection] with the remote address, and
    [handle_established_outbound_connection] with the dialled one. *)
Definition handle_established_connection (p : PeerId) (a : Multiaddr) b : Behaviour :=
  if store_on_connection (config b) then
    let a := strip a in
    match peer_addresses b !! p with
    | Some l => if negb (bool_decide (a ∈ l)) then set_addresses (<[p := l ++ [a]]> (peer_addresses b)) b else b
    | None => set_addresses (<[p := [a]]> (peer_addresses b)) b
    end
  else b.
(** [FromSwarm::AddressChange] with the remote addresses of both endpoints. *)
Definition address_change (p : PeerId) (old new : Multiaddr) b : Behaviour :=
  let old := strip old in
  let new := strip new in
  match peer_addresses b !! p with
  | Some l =>
      let l := if negb (bool_decide (new ∈ l)) then l ++ [new] else l in
      let l := if bool_decide (old ∈ l) then filter (λ x, x ≠ old) l else l in
      set_addresses (<[p := l]> (peer_addresses b)) b
  | None => b
  end.

(** ** A set of addresses per peer *)
Definition known (b : Behaviour) (p : PeerId) : gset Multiaddr := list_to_set (default [] (peer_addresses b !! p)).
Definition no_duplicates (b : Behaviour) : Prop := ∀ p l, peer_addresses b !! p = Some l → NoDup l.

Lemma known_set b p l q : known (set_addresses (<[p := l]> (peer_addresses b)) b) q = if bool_decide (q = p) then list_to_set l else known b q.
Proof.
  unfold known. simpl. case_bool_decide; [subst; by rewrite lookup_insert_eq|by rewrite lookup_insert_ne].
Qed.
Lemma no_duplicates_set b p l : no_duplicates b → NoDup l → no_duplicates (set_addresses (<[p := l]> (peer_addresses b)) b).
Proof.
  intros Hb Hl q l'. simpl. destruct (decide (q = p)) as [->|Hq]; [rewrite lookup_insert_eq; by intros [= <-]|].
  rewrite lookup_insert_ne by done. apply Hb.
Qed.
Lemma NoDup_push (l : list Multiaddr) a : NoDup l → a ∉ l → NoDup (l ++ [a]).
Proof. intros Hl Ha. apply NoDup_app. split_and!; [done| |apply NoDup_singleton]. intros x Hx. set_solver. Qed.

(** One operation on the set of a peer; the others keep theirs. *)
Definition updates (b b' : Behaviour) (p : PeerId) (s : gset Multiaddr) : Prop :=
  ∀ q, known b' q = if bool_decide (q = p) then s else known b q.
Lemma updates_refl b p s : known b p = s → updates b b p s.
Proof. intros <- q. case_bool_decide; by subst. Qed.

Lemma push_updates b p a l : default [] (peer_addresses b !! p) = l →
  updates b (set_addresses (<[p := l ++ [a]]> (peer_addresses b)) b) p ({[a]} ∪ known b p).
Proof. intros Hl q. rewrite known_set. case_bool_decide; [|done]. unfold known. rewrite Hl. set_solver. Qed.

Lemma add_refines p a b : no_duplicates b →
  let '(new, b') := add_address p a b in
  new = bool_decide (strip a ∉ known b p) ∧ updates b b' p ({[strip a]} ∪ known b p) ∧ no_duplicates b'.
Proof.
  intros Hb. unfold add_address. destruct (peer_addresses b !! p) as [l|] eqn:E.
  - assert (known b p = list_to_set l) as Hk by (unfold known; by rewrite E). case_bool_decide as Hin.
    + split_and!; [|apply updates_refl; set_solver|done]. symmetry. apply bool_decide_eq_false_2. set_solver.
    + split_and!; [symmetry; apply bool_decide_eq_true_2; set_solver|apply push_updates; by rewrite E|].
      apply no_duplicates_set; [done|]. apply NoDup_push; [by eapply Hb|done].
  - assert (known b p = ∅) as Hk by (unfold known; by rewrite E).
    split_and!; [symmetry; apply bool_decide_eq_true_2; set_solver|apply (push_updates b p _ []); by rewrite E|].
    apply no_duplicates_set; [done|apply NoDup_singleton].
Qed.
Lemma established_refines p a b : no_duplicates b → store_on_connection (config b) = true →
  handle_established_connection p a b = (add_address p a b).2.
Proof.
  intros _ Hs. unfold handle_established_connection, add_address. rewrite Hs. destruct (peer_addresses b !! p); [|done].
  by case_bool_decide.
Qed.
Lemma remove_address_refines p a b : no_duplicates b →
  let '(done_, b') := remove_address p a b in
  done_ = bool_decide (a ∈ known b p ∨ peer_addresses b !! p = None) ∧ updates b b' p (known b p ∖ {[a]}) ∧ no_duplicates b'.
Proof.
  intros Hb. unfold remove_address. destruct (peer_addresses b !! p) as [l|] eqn:E.
  - assert (known b p = list_to_set l) as Hk by (unfold known; by rewrite E). case_bool_decide as Hin; simpl.
    + split_and!; [symmetry; apply bool_decide_eq_true_2; set_solver| |].
      * intros q. rewrite known_set. case_bool_decide; [|done]. apply set_eq. intros x.
        rewrite elem_of_list_to_set, list_elem_of_filter. set_solver.
      * apply no_duplicates_set; [done|]. apply NoDup_filter. by eapply Hb.
    + split_and!; [symmetry; apply bool_decide_eq_false_2; set_solver|apply updates_refl; set_solver|done].
  - assert (known b p = ∅) as Hk by (unfold known; by rewrite E).
    split_and!; [by rewrite bool_decide_eq_true_2; [|right]|apply updates_refl; set_solver|done].
Qed.
Lemma change_refines p old new b : no_duplicates b → is_Some (peer_addresses b !! p) →
  updates b (address_change p old new b) p (({[strip new]} ∪ known b p) ∖ {[strip old]}) ∧ no_duplicates (address_change p old new b).
Proof.
  intros Hb [l E]. unfold address_change. rewrite E. assert (known b p = list_to_set l) as Hk by (unfold known; by rewrite E).
  set (l1 := if negb (bool_decide (strip new ∈ l)) then l ++ [strip new] else l).
  assert (NoDup l1 ∧ list_to_set l1 = ({[strip new]} ∪ known b p : gset _)) as [Hnd Hl1].
  { unfold l1. case_bool_decide as Hin; simpl; (split; [|set_solver]); [by eapply Hb|]. apply NoDup_push; [by eapply Hb|done]. }
  assert (∀ x, x ∈ l1 ↔ x ∈ ({[strip new]} ∪ known b p)) as Hx by (intros x; by rewrite <-Hl1, elem_of_list_to_set).
  split.
  - intros q. rewrite known_set. case_bool_decide; [|done]. apply set_eq. intros x. rewrite elem_of_list_to_set.
    case_bool_decide as Hold; [rewrite list_elem_of_filter|]; rewrite elem_of_difference, elem_of_singleton, <-Hx; set_solver.
  - apply no_duplicates_set; [done|]. case_bool_decide; [by apply NoDup_filter|done].
Qed.
End book.
End AddressBook.

Module AddressBookClaims.
Import AddressBook.
Section claims.
  Context {ids : Ids} {pr : Protocols} {ho : HashOrder}.

Inductive reachable (c : Config) : Behaviour → Prop :=
  | reach_new : reachable c (with_config c)
  | reach_add p a b : reachable c b → reachable c (add_address p a b).2
  | reach_remove p a b : reachable c b → reachable c (remove_address p a b).2
  | reach_remove_peer p b : reachable c b → reachable c (remove_peer p b).2
  | reach_established p a b : reachable c b → reachable c (handle_established_connection p a b)
  | reach_change p old new b : reachable c b → reachable c (address_change p old new b).

Lemma reachable_ok c b : reachable c b → no_duplicates b ∧ config b = c.
Proof.
  induction 1 as [|p a b _ [Hb Hc]|p a b _ [Hb Hc]|p b _ [Hb Hc]|p a b _ [Hb Hc]|p old new b _ [Hb Hc]].
  - split; [|done]. intros p l Hl. simpl in Hl. by rewrite lookup_empty in Hl.
  - pose proof (add_refines p a b Hb) as H. assert (config (add_address p a b).2 = config b) as Hcb by (unfold add_address; by repeat case_match).
    destruct (add_address p a b) as [r b']. naive_solver.
  - pose proof (remove_address_refines p a b Hb) as H. assert (config (remove_address p a b).2 = config b) as Hcb by (unfold remove_address; by repeat case_match).
    destruct (remove_address p a b) as [r b']. naive_solver.
  - split; [|done]. intros q l. simpl. intros Hl. apply lookup_delete_Some in Hl as [_ Hl]. by eapply Hb.
  - destruct (store_on_connection (config b)) eqn:E; [|by unfold handle_established_connection; rewrite E].
    rewrite established_refines by done. pose proof (add_refines p a b Hb) as H.
    assert (config (add_address p a b).2 = config b) as Hcb by (unfold add_address; by repeat case_match). destruct (add_address p a b) as [r b']. naive_solver.
  - destruct (peer_addresses b !! p) eqn:E; [|by unfold address_change; rewrite E].
    destruct (change_refines p old new b Hb) as [_ Hn]; [by eexists|]. split; [done|]. unfold address_change. by rewrite E.
Qed.

(** The book refines a set of addresses per peer: a dial is offered exactly the
    known addresses, each once; adding, also on a connection if so configured, adds
    the address without its trailing peer identifier and says whether it is new;
    removing removes the address as it is given; a change of address adds the new
    one and removes the old one. *)
Theorem address_book_refines c b p : reachable c b →
  NoDup (handle_pending_outbound_connection (Some p) b) ∧
  (∀ a, a ∈ handle_pending_outbound_connection (Some p) b ↔ a ∈ known b p) ∧
  (∀ a, contains p a b = bool_decide (a ∈ known b p)) ∧
  (∀ a, (add_address p a b).1 = bool_decide (strip a ∉ known b p) ∧ updates b (add_address p a b).2 p ({[strip a]} ∪ known b p)) ∧
  (∀ a, handle_established_connection p a b = if store_on_connection c then (add_address p a b).2 else b) ∧
  (∀ a, updates b (remove_address p a b).2 p (known b p ∖ {[a]})) ∧
  updates b (remove_peer p b).2 p ∅ ∧
  (∀ old new, is_Some (get_peer_addresses p b) →
    updates b (address_change p old new b) p (({[strip new]} ∪ known b p) ∖ {[strip old]})).
Proof.
  intros Hr. destruct (reachable_ok c b Hr) as [Hb Hc]. split_and!.
  - simpl. destruct (peer_addresses b !! p) eqn:E; simpl; [by eapply Hb|constructor].
  - intros a. unfold known. simpl. by rewrite elem_of_list_to_set.
  - intros a. unfold contains, get_peer_addresses, known. destruct (peer_addresses b !! p) as [l|]; simpl.
    + destruct l as [|x l]; [done|]. apply bool_decide_ext. by rewrite elem_of_list_to_set.
    + symmetry. apply bool_decide_eq_false_2. set_solver.
  - intros a. pose proof (add_refines p a b Hb) as H. destruct (add_address p a b). naive_solver.
  - intros a. rewrite <-Hc. destruct (store_on_connection (config b)) eqn:E; [by apply established_refines|].
    unfold handle_established_connection. by rewrite E.
  - intros a. pose proof (remove_address_refines p a b Hb) as H. destruct (remove_address p a b). naive_solver.
  - intros q. unfold known. simpl. case_bool_decide; [subst; by rewrite lookup_delete_eq|by rewrite lookup_delete_ne].
  - intros old new Hs. by apply change_refines.
Qed.
End claims.
End AddressBookClaims.

Module AddressBookWitness.
Import AddressBook AddressBookClaims.
#[local] Existing Instance nat_ids.
(** Odd protocols are peer identifiers. *)
#[local] Instance nat_protocols : Protocols := {| Protocol := nat; is_p2p := Nat.odd |}.

Definition book : Behaviour := (add_address 1 [4; 6; 3] (with_config (mkConfig true))).2.
Lemma address_book_refines_witness :
  NoDup (handle_pending_outbound_connection (Some 1) book) ∧
  updates book (remove_address 1 [4; 6] book).2 1 (known book 1 ∖ {[[4; 6]]}).
Proof.
  assert (reachable (mkConfig true) book) as Hr by (apply reach_add, reach_new).
  destruct (address_book_refines (mkConfig true) book 1 Hr) as (H1 & _ & _ & _ & _ & H2 & _). split; [exact H1|apply H2].
Defined.
(** A change to the same address forgets it. *)
Example same_address_forgotten : contains 1 [4; 6] (address_change 1 [4; 6; 3] [4; 6] book) = false.
Proof. reflexivity. Qed.
(** An address cannot be removed in the form in which it was added. *)
Example remove_needs_stripped : (remove_address 1 [4; 6; 3] book).1 = false.
Proof. reflexivity. Qed.
End AddressBookWitness.
