(* ===== verification/FsStores.v ===== *)
(** * Stores on disk

    src/repo/paths.rs (the file of a block and of a pin),
    src/repo/blockstore/flatfs.rs (blocks as files, written through a temporary file)
    and the pins of src/repo/datastore/flatfs.rs.  A store is the map of the files
    below its directory; what the operating system may fail at is a parameter of the
    operation. *)
From stdpp Require Import base gmap list strings.
From Stdlib Require Import Strings.Byte.
From S2P Require Import Prelude Protobuf UnixFsPb Path DirIter PinStore Repo.
Local Open Scope Z_scope.

(** ** File names *)
Module FileName.
Definition dot : Ascii.ascii := Ascii.ascii_of_nat 46.

(** What is before and after the last dot. *)
Fixpoint last_dot (s : string) : option (string * string) :=
  match s with
  | EmptyString => None
  | String a s =>
      match last_dot s with
      | Some (l, r) => Some (String a l, r)
      | None => if bool_decide (a = dot) then Some (EmptyString, s) else None
      end
  end.
(** [Path::file_stem], [Path::extension] and [PathBuf::set_extension] of a name. *)
Definition file_stem (name : string) : string :=
  match last_dot name with Some (l, _) => if bool_decide (l = EmptyString) then name else l | None => name end.
Definition extension (name : string) : option string :=
  match last_dot name with Some (l, r) => if bool_decide (l = EmptyString) then None else Some r | None => None end.
Definition with_extension (name ext : string) : string := file_stem name +:+ String dot ext.

Definition no_dot (s : string) : Prop := last_dot s = None.

Lemma last_dot_app key ext : no_dot ext → last_dot (key +:+ String dot ext) = Some (key, ext).
Proof.
  intros He. induction key as [|a key IH]; simpl; [by rewrite He|]. by rewrite IH.
Qed.
Lemma stem_with key ext : key ≠ EmptyString → no_dot ext → file_stem (key +:+ String dot ext) = key.
Proof. intros Hk He. unfold file_stem. by rewrite last_dot_app, bool_decide_eq_false_2. Qed.
Lemma extension_with key ext : key ≠ EmptyString → no_dot ext → extension (key +:+ String dot ext) = Some ext.
Proof. intros Hk He. unfold extension. by rewrite last_dot_app, bool_decide_eq_false_2. Qed.
Lemma with_extension_key key ext : no_dot key → with_extension key ext = key +:+ String dot ext.
Proof. intros Hk. unfold with_extension, file_stem. by rewrite Hk. Qed.
Lemma with_extension_again key ext ext' : key ≠ EmptyString → no_dot ext → with_extension (key +:+ String dot ext) ext' = key +:+ String dot ext'.
Proof. intros Hk He. unfold with_extension. by rewrite stem_with. Qed.
End FileName.

(** What the stores rely on of [cid], [multibase], [serde_json] and [libipld]: the text
    of an identifier and its base32 form are names without dots, a version 1
    identifier of the same hash verifies the same data. *)
Class FsCodec `{pk : PinCodec} := {
  b32_encode : list byte → string;
  b32_decode : string → option (list byte);
  b32_decode_encode b : b32_decode (b32_encode b) = Some b;
  key_ok : string → Prop := λ s, FileName.no_dot s ∧ (3 ≤ String.length s)%nat;
  cid_string_key c : key_ok (cid_to_string c);
  cid_b32_key c : key_ok (b32_encode (cid_to_bytes c));
  refs_to_json : list string → list byte;
  refs_from_json : list byte → result (list string) JsonError;
  refs_from_to_json l : refs_from_json (refs_to_json l) = Ok l;
  verifies : Cid → list byte → bool;
  verifies_new_v1 c b : verifies (new_v1 c) b = verifies c b;
}.

(** ** Paths below the directory of a store: shard and name *)
Module FsPaths.
Import FileName.
Section paths.
  Context `{fc : FsCodec}.
Notation Path := (string * string)%type.

(** [usize] subtraction panics; the assertion holds then. *)
Definition shard (key : string) : outcome Path :=
  if bool_decide (3 ≤ String.length key)%nat then mret (String.substring (String.length key - 3) 2 key, key) else Panic.

Definition canonical (c : Cid) : Cid := match cid_version c with V1 => c | V0 => new_v1 c end.
Definition set_extension (ext : string) (p : Path) : Path := (p.1, with_extension p.2 ext).

Definition block_path (c : Cid) : outcome Path := p ← shard (cid_to_string (canonical c)); mret (set_extension "data" p).
Definition filestem_to_block_cid (stem : string) : option Cid := match cid_from_str stem with Ok c => Some c | Err _ => None end.
Definition pin_path (c : Cid) : outcome Path := shard (b32_encode (cid_to_bytes c)).
Definition filestem_to_pin_cid (stem : string) : option Cid :=
  match b32_decode stem with
  | Some b => match cid_try_from b with Ok c => Some c | Err _ => None end
  | None => None
  end.
End paths.
End FsPaths.

(** ** Blocks *)
Module FsBlockStore.
Import FileName FsPaths.
Section blocks.
  Context `{fc : FsCodec} {ho : HashOrder}.
Notation Path := (string * string)%type.
Notation Files := (gmap Path (list byte)).

Record Store := mkStore { files : Files; written_bytes : Z }.
Implicit Types s : Store.
Definition new : Store := mkStore ∅ 0.

Inductive IoError := AlreadyExists | OtherIo (code : Z).
Inductive FsError := Io (e : IoError) | Verification | OtherWriteFailed.

(** What fails: creating the directory or the target, writing the temporary file
    (which then has some content), renaming it, removing the target. *)
Record Faults := mkFaults {
  f_create_dir : option Z;
  f_create : option Z;
  f_write : option (Z * list byte);
  f_rename : option Z;
  f_cleanup : bool;
}.
Definition no_faults : Faults := mkFaults None None None None false.

Definition contains (c : Cid) s : outcome (result bool FsError) :=
  p ← block_path c; mret (Ok (bool_decide (is_Some (files s !! p)))).

(** What is known of a write of the same identifier that was under way: nothing
    ([None]), that its channel was closed ([Some None]), or what it sent. *)
Inductive WriteCompletion := KnownGood | NotObserved | KnownBad | NotOngoing.
Notation Ongoing := (option (option (result unit unit))).
Definition write_completion (ongoing : Ongoing) : WriteCompletion :=
  match ongoing with
  | None => NotOngoing
  | Some (Some (Ok _)) => KnownGood
  | Some None => NotObserved
  | Some (Some (Err _)) => KnownBad
  end.

(** [Block::new] verifies. *)
Definition get (c : Cid) (ongoing : Ongoing) s : outcome (result (option Block) FsError) :=
  match write_completion ongoing with
  | KnownBad => mret (Ok None)
  | _ =>
      p ← block_path c;
      mret (match files s !! p with
            | None => Ok None
            | Some data => if verifies c data then Ok (Some (c, data)) else Err Verification
            end)
  end.

Definition write_through_tempfile (target : Path) (data : list byte) (f : Faults) (m : Files) : result unit IoError * Files :=
  let temp := set_extension "tmp" target in
  match f_write f with
  | Some (e, partial) => (Err (OtherIo e), <[temp := partial]> m)
  | None =>
      let m := <[temp := data]> m in
      match f_rename f with
      | Some e => (Err (OtherIo e), m)
      | None => (Ok (), <[target := data]> (delete temp m))
      end
  end.

(** The blocking task of [put]: the outer error is that the target was not created. *)
Definition put_task (target : Path) (data : list byte) (f : Faults) (m : Files) : result (result nat IoError) IoError * Files :=
  match f_create_dir f with
  | Some e => (Err (OtherIo e), m)
  | None =>
      match m !! target with
      | Some _ => (Err AlreadyExists, m)
      | None =>
          match f_create f with
          | Some e => (Err (OtherIo e), m)
          | None =>
              let m := <[target := []]> m in
              match write_through_tempfile target data f m with
              | (Ok _, m) => (Ok (Ok (length data)), m)
              | (Err e, m) => (Ok (Err e), if f_cleanup f then m else delete target m)
              end
          end
      end
  end.

(** [message]: what a concurrent writer of the identifier sent; [Ok] also when there
    is none, as the channel is then closed. *)
Definition put (block : Block) (message : result unit unit) (f : Faults) s : outcome (result (Cid * BlockPut) FsError * Store) :=
  target ← block_path block.1;
  mret (match put_task target block.2 f (files s) with
        | (Ok (Ok written), m) => (Ok (block.1, NewBlock), mkStore m ((written_bytes s + Z.of_nat written) mod 2 ^ 64))
        | (Ok (Err e), m) => (Err (Io e), mkStore m (written_bytes s))
        | (Err _, m) =>
            (match message with Ok _ => Ok (block.1, Existed) | Err _ => Err OtherWriteFailed end, mkStore m (written_bytes s))
        end).

Definition remove (c : Cid) (ongoing : Ongoing) s : outcome (result (result BlockRm BlockRmError) FsError * Store) :=
  p ← block_path c;
  match write_completion ongoing with
  | KnownBad => mret (Ok (Err (BlockNotFound c)), s)
  | _ =>
      mret (match files s !! p with
            | Some _ => (Ok (Ok (Removed c)), mkStore (delete p (files s)) (written_bytes s))
            | None => (Ok (Err (BlockNotFound c)), s)
            end)
  end.

(** *** Crashes

    The calls that change files, in the order in which the task makes them; data is
    written byte by byte, so that a write can stop anywhere. *)
Inductive FileCall :=
  | Create (p : Path)
  | Append (p : Path) (x : byte)
  | Rename (from to : Path)
  | Unlink (p : Path).
Definition call (m : Files) (c : FileCall) : Files :=
  match c with
  | Create p => <[p := []]> m
  | Append p x => <[p := default [] (m !! p) ++ [x]]> m
  | Rename from to => match m !! from with Some d => <[to := d]> (delete from m) | None => m end
  | Unlink p => delete p m
  end.
Definition write_calls (p : Path) (data : list byte) : list FileCall := Create p :: (Append p <$> data).
Definition tempfile_calls (target : Path) (data : list byte) (f : Faults) : list FileCall :=
  let temp := set_extension "tmp" target in
  match f_write f with
  | Some (_, partial) => write_calls temp partial
  | None => write_calls temp data ++ match f_rename f with Some _ => [] | None => [Rename temp target] end
  end.
Definition put_calls (target : Path) (data : list byte) (f : Faults) (m : Files) : list FileCall :=
  match f_create_dir f, m !! target, f_create f with
  | None, None, None =>
      Create target :: tempfile_calls target data f ++
        match f_write f, f_rename f with None, None => [] | _, _ => if f_cleanup f then [] else [Unlink target] end
  | _, _, _ => []
  end.
(** The files when the process dies before call number [n] (from 0). *)
Definition crash (n : nat) (target : Path) (data : list byte) (f : Faults) (m : Files) : Files :=
  foldl call m (take n (put_calls target data f m)).

Definition list_entry (p : Path) : option Cid :=
  if bool_decide (extension p.2 = Some "data") then filestem_to_block_cid (file_stem p.2) else None.
Definition list s : result (list Cid) FsError := Ok (omap list_entry (iter_map (files s)).*1).
End blocks.
End FsBlockStore.

(** ** Pins *)
Module FsDataStore.
Import FileName FsPaths PinDocument.
Section pins.
  Context `{fc : FsCodec} {ho : HashOrder}.
Notation Path := (string * string)%type.
Notation Files := (gmap Path (list byte)).
Implicit Types m : Files.

Inductive PinError :=
  | AlreadyRecursive
  | IsRecursive
  | NotPinned
  | CidNotPinned (c : Cid)
  | BadJson (e : JsonError)
  | BadCid.

Definition is_file (m : Files) (p : Path) : bool := bool_decide (is_Some (m !! p)).

Definition sync_read_direct_or_recursive (p : Path) m : option PinMode :=
  if is_file m (set_extension "recursive" p) then Some Recursively
  else if is_file m (set_extension "direct" p) then Some Direct
  else None.

Definition pinfile (p : Path) : option (Cid * PinMode) :=
  let mode := match extension p.2 with
              | Some ext => if bool_decide (ext = "recursive") then Some Recursively
                            else if bool_decide (ext = "direct") then Some Direct else None
              | None => None
              end in
  match mode with Some mode => (λ c, (c, mode)) <$> filestem_to_pin_cid (file_stem p.2) | None => None end.
Definition list_pinfiles m : list (Cid * PinMode) := omap pinfile (iter_map m).*1.

Fixpoint parse_all (l : list string) : result (list Cid) PinError :=
  match l with
  | [] => Ok []
  | s :: l =>
      match cid_from_str s with
      | Err _ => Err BadCid
      | Ok c => match parse_all l with Ok cs => Ok (c :: cs) | Err e => Err e end
      end
  end.
Definition read_recursively_pinned (c : Cid) m : outcome (result (Cid * list Cid) PinError) :=
  p ← pin_path c;
  mret (match m !! set_extension "recursive" p with
        | None => Ok (c, [])
        | Some contents =>
            match refs_from_json contents with
            | Err e => Err (BadJson e)
            | Ok l => match parse_all l with Ok cs => Ok (c, cs) | Err e => Err e end
            end
        end).

Fixpoint pinned_by (c : Cid) (recursives : list Cid) m : outcome (result bool PinError) :=
  match recursives with
  | [] => mret (Ok false)
  | r :: recursives =>
      x ← read_recursively_pinned r m;
      match x with
      | Err e => mret (Err e)
      | Ok (_, references) => if bool_decide (c ∈ references) then mret (Ok true) else pinned_by c recursives m
      end
  end.
Definition recursives (l : list (Cid * PinMode)) : list Cid := (filter (λ x, x.2 = Recursively) l).*1.
Definition is_pinned (c : Cid) m : outcome (result bool PinError) :=
  p ← pin_path c;
  if bool_decide (is_Some (sync_read_direct_or_recursive p m)) then mret (Ok true)
  else pinned_by c (recursives (list_pinfiles m)) m.

Definition insert_direct_pin (c : Cid) m : outcome (result unit PinError * Files) :=
  p ← pin_path c;
  if is_file m (set_extension "recursive" p) then mret (Err AlreadyRecursive, m)
  else mret (Ok (), <[set_extension "direct" p := []]> m).

(** The references are a set that a [BTreeSet] orders; nothing depends on the order.
    An error of the stream is returned before anything is done, here by the caller. *)
Definition insert_recursive_pin (c : Cid) (referenced : gset Cid) m : outcome (result unit PinError * Files) :=
  p ← pin_path c;
  let m := <[set_extension "recursive" p := refs_to_json (cid_to_string <$> iter_set referenced)]>
             (delete (set_extension "recursive_temp" p) m) in
  mret (Ok (), delete (set_extension "direct" p) m).

Definition remove_direct_pin (c : Cid) m : outcome (result unit PinError * Files) :=
  p ← pin_path c;
  if is_file m (set_extension "recursive" p) then mret (Err IsRecursive, m)
  else if is_file m (set_extension "direct" p) then mret (Ok (), delete (set_extension "direct" p) m)
  else mret (Err NotPinned, m).

Definition remove_recursive_pin (c : Cid) m : outcome (result unit PinError * Files) :=
  p ← pin_path c;
  let any := is_file m (set_extension "direct" p) in
  let m := delete (set_extension "direct" p) m in
  let any := any || is_file m (set_extension "recursive" p) in
  let m := delete (set_extension "recursive" p) m in
  mret (if any then Ok () else Err NotPinned, m).

(** *** Listing: recursive, then direct, then indirect pins, no identifier twice *)
Fixpoint list_first (requirement : option PinMode) (l : list (Cid * PinMode)) (returned recursive direct : gset Cid) :
    list (Cid * PinMode) * gset Cid * gset Cid * gset Cid :=
  match l with
  | [] => ([], returned, recursive, direct)
  | (c, mode) :: l =>
      let matches := matches_mode requirement mode in
      match mode with
      | Recursively =>
          let recursive := if bool_decide (requirement = None ∨ requirement = Some Indirect) then {[c]} ∪ recursive else recursive in
          if matches && negb (bool_decide (c ∈ returned)) then
            let '(out, ret, r, d) := list_first requirement l ({[c]} ∪ returned) recursive direct in ((c, mode) :: out, ret, r, d)
          else list_first requirement l returned recursive direct
      | Direct => list_first requirement l returned recursive (if matches then {[c]} ∪ direct else direct)
      | Indirect => list_first requirement l returned recursive direct
      end
  end.
Fixpoint list_new (mode : PinMode) (l : list Cid) (returned : gset Cid) : list (Cid * PinMode) * gset Cid :=
  match l with
  | [] => ([], returned)
  | c :: l =>
      if bool_decide (c ∈ returned) then list_new mode l returned
      else let '(out, ret) := list_new mode l ({[c]} ∪ returned) in ((c, mode) :: out, ret)
  end.
Fixpoint list_indirect (l : list Cid) (returned : gset Cid) m : outcome (list (Cid * PinMode) * result unit PinError) :=
  match l with
  | [] => mret ([], Ok ())
  | c :: l =>
      x ← read_recursively_pinned c m;
      match x with
      | Err e => mret ([], Err e)
      | Ok (_, batch) =>
          let '(out, ret) := list_new Indirect batch returned in
          more ← list_indirect l ret m;
          mret (out ++ more.1, more.2)
      end
  end.
(** The items of the stream and the error that ends it. *)
Definition list (requirement : option PinMode) m : outcome (list (Cid * PinMode) * result unit PinError) :=
  let '(out1, returned, recursive, direct) := list_first requirement (list_pinfiles m) ∅ ∅ ∅ in
  let '(out2, returned) := list_new Direct (iter_set direct) returned in
  if bool_decide (requirement = None ∨ requirement = Some Indirect) then
    more ← list_indirect (iter_set recursive) returned m;
    mret (out1 ++ out2 ++ more.1, more.2)
  else mret (out1 ++ out2, Ok ()).
End pins.
End FsDataStore.

(** ** The repository on disk

    [Repo::remove_block] and [Repo::cleanup] of src/repo/mod.rs over both stores, while no block is
    being written. *)
Module FsRepo.
Import FsPaths.
Section repo.
  Context `{fc : FsCodec} {ho : HashOrder}.

Record Repo := mkRepo { blocks : FsBlockStore.Store; pins : gmap (string * string) (list byte) }.
Inductive RepoError := PinErr (e : FsDataStore.PinError) | StoreErr (e : FsBlockStore.FsError) | BlockPinned | BlockMissing.

Definition remove_block (c : Cid) (r : Repo) : outcome (result Cid RepoError * Repo) :=
  pinned ← FsDataStore.is_pinned c (pins r);
  match pinned with
  | Err e => mret (Err (PinErr e), r)
  | Ok true => mret (Err BlockPinned, r)
  | Ok false =>
      x ← FsBlockStore.remove c None (blocks r);
      let '(res, b) := x in
      let r := mkRepo b (pins r) in
      mret (match res with
            | Err e => (Err (StoreErr e), r)
            | Ok (Ok (Removed _)) => (Ok c, r)
            | Ok (Err (BlockNotFound _)) => (Err BlockMissing, r)
            end)
  end.
Fixpoint cleanup_loop (l : list Cid) (r : Repo) : outcome (result (list Cid) RepoError * Repo) :=
  match l with
  | [] => mret (Ok [], r)
  | c :: l =>
      pinned ← FsDataStore.is_pinned c (pins r);
      match pinned with
      | Err e => mret (Err (PinErr e), r)
      | Ok true => cleanup_loop l r
      | Ok false =>
          x ← remove_block c r;
          match x with
          | (Ok c, r) =>
              y ← cleanup_loop l r;
              mret (match y with (Ok removed, r) => (Ok (c :: removed), r) | (Err e, r) => (Err e, r) end)
          | (Err _, r) => cleanup_loop l r
          end
      end
  end.
Definition cleanup (r : Repo) : outcome (result (list Cid) RepoError * Repo) :=
  match FsBlockStore.list (blocks r) with
  | Err e => mret (Err (StoreErr e), r)
  | Ok l => cleanup_loop l r
  end.
End repo.
End FsRepo.
