(* ===== verification/FsProofs.v ===== *)
(** * Stores on disk: paths, blocks, pins and clean-up *)
From stdpp Require Import base gmap list strings.
From Stdlib Require Import Strings.Byte.
From S2P Require Import Prelude Protobuf UnixFsPb Path DirIter PinStore Repo FsStores.
Local Open Scope Z_scope.

Module FsPathProofs.
Import FileName FsPaths.
Section paths.
  Context `{fc : FsCodec}.

Definition key_path (key ext : string) : string * string := (String.substring (String.length key - 3) 2 key, key +:+ String dot ext).
Definition bpath (c : Cid) : string * string := key_path (cid_to_string (canonical c)) "data".
Definition ppath (ext : string) (c : Cid) : string * string := key_path (b32_encode (cid_to_bytes c)) ext.

Lemma key_nonempty s : key_ok s → s ≠ EmptyString.
Proof. intros [_ H] ->. simpl in H. lia. Qed.
Lemma shard_ok key : key_ok key → shard key = Done (String.substring (String.length key - 3) 2 key, key).
Proof. intros [_ H]. unfold shard. by rewrite bool_decide_eq_true_2. Qed.
Lemma block_path_ok c : block_path c = Done (bpath c).
Proof.
  unfold block_path. rewrite shard_ok by apply cid_string_key. cbn [mbind outcome_bind]. unfold set_extension, bpath, key_path. simpl.
  rewrite with_extension_key; [done|apply cid_string_key].
Qed.
Lemma pin_path_ok c : ∃ p, pin_path c = Done p ∧ ∀ ext, set_extension ext p = ppath ext c.
Proof.
  eexists. unfold pin_path. split; [apply shard_ok, cid_b32_key|]. intros ext. unfold set_extension, ppath, key_path. simpl.
  rewrite with_extension_key; [done|apply cid_b32_key].
Qed.

Lemma canonical_version c : cid_version (canonical c) = V1.
Proof. unfold canonical. destruct (cid_version c) eqn:E; [apply new_v1_version|done]. Qed.
Lemma canonical_idemp c : canonical (canonical c) = canonical c.
Proof. unfold canonical at 1. by rewrite canonical_version. Qed.
Lemma verifies_canonical c b : verifies (canonical c) b = verifies c b.
Proof. unfold canonical. destruct (cid_version c); [apply verifies_new_v1|done]. Qed.

Lemma key_path_stem key ext : key_ok key → no_dot ext → file_stem (key_path key ext).2 = key.
Proof. intros Hk He. apply stem_with; [by apply key_nonempty|done]. Qed.
Lemma key_path_ext key ext : key_ok key → no_dot ext → extension (key_path key ext).2 = Some ext.
Proof. intros Hk He. apply extension_with; [by apply key_nonempty|done]. Qed.

(** The name of a file gives back what it stands for. *)
Lemma bpath_cid c : filestem_to_block_cid (file_stem (bpath c).2) = Some (canonical c).
Proof.
  unfold bpath. rewrite key_path_stem by (apply cid_string_key || done). unfold filestem_to_block_cid. by rewrite cid_from_to_string.
Qed.
Lemma ppath_cid ext c : no_dot ext → filestem_to_pin_cid (file_stem (ppath ext c).2) = Some c.
Proof.
  intros He. unfold ppath. rewrite key_path_stem by (apply cid_b32_key || done). unfold filestem_to_pin_cid.
  by rewrite b32_decode_encode, cid_try_from_to_bytes.
Qed.
Lemma bpath_inj c c' : bpath c = bpath c' → canonical c = canonical c'.
Proof. intros E. pose proof (bpath_cid c) as H. rewrite E, bpath_cid in H. congruence. Qed.
Lemma bpath_eq c c' : canonical c = canonical c' → bpath c = bpath c'.
Proof. intros E. unfold bpath. by rewrite E. Qed.
Lemma ppath_inj ext ext' c c' : no_dot ext → no_dot ext' → ppath ext c = ppath ext' c' → c = c' ∧ ext = ext'.
Proof.
  intros He He' E. pose proof (ppath_cid ext c He) as H. rewrite E, ppath_cid in H by done. split; [congruence|].
  pose proof (key_path_ext _ ext (cid_b32_key c) He) as H1. pose proof (key_path_ext _ ext' (cid_b32_key c') He') as H2.
  change (key_path (b32_encode (cid_to_bytes c)) ext) with (ppath ext c) in H1. rewrite E in H1.
  change (key_path (b32_encode (cid_to_bytes c')) ext') with (ppath ext' c') in H2. congruence.
Qed.
Lemma tmp_path c : set_extension "tmp" (bpath c) = key_path (cid_to_string (canonical c)) "tmp".
Proof.
  unfold set_extension, bpath, key_path. simpl. rewrite with_extension_again; [done|apply key_nonempty, cid_string_key|done].
Qed.
Lemma tmp_ext c : extension (set_extension "tmp" (bpath c)).2 = Some "tmp".
Proof. rewrite tmp_path. by apply key_path_ext; [apply cid_string_key|]. Qed.
Lemma bpath_ext c : extension (bpath c).2 = Some "data".
Proof. by apply key_path_ext; [apply cid_string_key|]. Qed.
Lemma tmp_ne c c' : set_extension "tmp" (bpath c) ≠ bpath c'.
Proof. intros E. pose proof (tmp_ext c) as H. rewrite E, bpath_ext in H. done. Qed.
End paths.
End FsPathProofs.

Module FsBlockProofs.
Import FileName FsPaths FsPathProofs FsBlockStore.
Section blocks.
  Context `{fc : FsCodec} {ho : HashOrder}.

(** Files that are blocks hold their data; other files are none of the store's. *)
Definition files_ok (m : gmap (string * string) (Datatypes.list byte)) : Prop :=
  ∀ p d, m !! p = Some d → (∃ c, p = bpath c ∧ verifies c d = true) ∨ extension p.2 ≠ Some "data".
Definition stored (s : Store) (c : Cid) : option (Datatypes.list byte) := files s !! bpath c.

Lemma stored_canonical s c c' : canonical c = canonical c' → stored s c = stored s c'.
Proof. intros E. unfold stored. by rewrite (bpath_eq c c' E). Qed.
Lemma stored_verifies s c d : files_ok (files s) → stored s c = Some d → verifies c d = true.
Proof.
  intros Hok Hd. destruct (Hok _ _ Hd) as [(c' & E & Hv)|Hne]; [|by rewrite bpath_ext in Hne].
  apply bpath_inj in E. by rewrite <-verifies_canonical, E, verifies_canonical.
Qed.

Lemma contains_ok c s : contains c s = Done (Ok (bool_decide (is_Some (stored s c)))).
Proof. unfold contains. by rewrite block_path_ok. Qed.
Lemma get_bad c s o : write_completion o = KnownBad → get c o s = Done (Ok None).
Proof. intros Ho. unfold get. by rewrite Ho. Qed.
Lemma get_ok c s o : files_ok (files s) → write_completion o ≠ KnownBad → get c o s = Done (Ok (pair c <$> stored s c)).
Proof.
  intros Hok Ho. unfold get. rewrite block_path_ok. cbn [mbind outcome_bind]. fold (stored s c). transitivity (Done (match stored s c with None => Ok None | Some data => if verifies c data then Ok (Some (c, data)) else Err Verification end)); [by destruct (write_completion o)|].
  destruct (stored s c) as [d|] eqn:E; [|done]. by rewrite (stored_verifies s c d).
Qed.

Lemma files_ok_insert m c d : files_ok m → verifies c d = true → files_ok (<[bpath c := d]> m).
Proof.
  intros Hok Hv p e. destruct (decide (p = bpath c)) as [->|Hp].
  - rewrite lookup_insert_eq. intros [= <-]. left. by exists c.
  - rewrite lookup_insert_ne by done. apply Hok.
Qed.
Lemma files_ok_delete m p : files_ok m → files_ok (delete p m).
Proof. intros Hok q e [_ Hq]%lookup_delete_Some. by apply Hok. Qed.

(** The effect of a change of one block's file. *)
Lemma stored_other c c' p : canonical c' ≠ canonical c → p = bpath c ∨ p = set_extension "tmp" (bpath c) → p ≠ bpath c'.
Proof. intros Hne [-> | ->]; [|apply tmp_ne]. intros E. by apply bpath_inj in E. Qed.

Lemma put_new c d w s : stored s c = None →
  put (c, d) w no_faults s = Done (Ok (c, NewBlock),
    mkStore (<[bpath c := d]> (delete (set_extension "tmp" (bpath c)) (files s))) ((written_bytes s + Z.of_nat (length d)) mod 2 ^ 64)).
Proof.
  intros Hn. unfold put. cbn [fst snd]. rewrite block_path_ok. cbn [mbind outcome_bind]. unfold put_task, stored in *. simpl. rewrite Hn.
  unfold write_through_tempfile. simpl. do 3 f_equal. rewrite delete_insert_eq, delete_insert_ne by (apply tmp_ne || (intros E; by apply (tmp_ne c c))).
  by rewrite insert_insert_eq.
Qed.
Lemma put_existing c d d' w s f : stored s c = Some d' → f_create_dir f = None →
  put (c, d) w f s = Done (match w with Ok _ => Ok (c, Existed) | Err _ => Err OtherWriteFailed end, s).
Proof.
  intros Hn Hf. unfold put. cbn [fst snd]. rewrite block_path_ok. cbn [mbind outcome_bind]. unfold put_task, stored in *. rewrite Hf, Hn. by destruct s.
Qed.

Lemma put_refines c d s : files_ok (files s) → verifies c d = true →
  ∃ s', put (c, d) (Ok ()) no_faults s = Done (Ok (c, if stored s c then Existed else NewBlock), s') ∧ files_ok (files s') ∧
    ∀ c', stored s' c' = if bool_decide (canonical c' = canonical c) && negb (bool_decide (is_Some (stored s c))) then Some d else stored s c'.
Proof.
  intros Hok Hv. destruct (stored s c) as [d'|] eqn:E.
  - exists s. rewrite (put_existing c d d') by done. split_and!; try done. intros c'. rewrite (bool_decide_eq_true_2 (is_Some (Some d'))) by done. by rewrite andb_false_r.
  - eexists. rewrite put_new by done. split; [done|]. split; [apply files_ok_insert; [by apply files_ok_delete|done]|].
    intros c'. rewrite (bool_decide_eq_false_2 (is_Some None)) by by intros []. rewrite andb_true_r. case_bool_decide as Hc.
    + unfold stored. simpl. rewrite (bpath_eq c' c Hc). apply lookup_insert_eq.
    + unfold stored. simpl. rewrite lookup_insert_ne by (eapply stored_other; eauto). by rewrite lookup_delete_ne by apply tmp_ne.
Qed.

Lemma remove_bad c s o : write_completion o = KnownBad → remove c o s = Done (Ok (Err (BlockNotFound c)), s).
Proof. intros Ho. unfold remove. rewrite block_path_ok. cbn [mbind outcome_bind]. by rewrite Ho. Qed.
Lemma remove_refines c s o : files_ok (files s) → write_completion o ≠ KnownBad →
  ∃ s', remove c o s = Done (Ok (if stored s c then Ok (Removed c) else Err (BlockNotFound c)), s') ∧ files_ok (files s') ∧
    ∀ c', stored s' c' = if bool_decide (canonical c' = canonical c) then None else stored s c'.
Proof.
  intros Hok Ho. unfold remove. rewrite block_path_ok. cbn [mbind outcome_bind]. fold (stored s c).
  assert (∀ (A : Type) (x y : A), match write_completion o with KnownBad => x | _ => y end = y) as Hm by (intros; by destruct (write_completion o)).
  rewrite Hm. destruct (stored s c) as [d|] eqn:E.
  - eexists. split; [done|]. split; [by apply files_ok_delete|]. intros c'. unfold stored. simpl. case_bool_decide as Hc.
    + rewrite (bpath_eq c' c Hc). apply lookup_delete_eq.
    + rewrite lookup_delete_ne; [done|]. by eapply stored_other; [|left].
  - exists s. split_and!; [done|done|]. intros c'. case_bool_decide as Hc; [|done]. by rewrite (stored_canonical s c' c Hc).
Qed.

Lemma list_entry_ok s p d : files_ok (files s) → files s !! p = Some d →
  match list_entry p with Some c => p = bpath c ∧ canonical c = c | None => extension p.2 ≠ Some "data" end.
Proof.
  intros Hok Hp. unfold list_entry. destruct (Hok p d Hp) as [(c & -> & _)|Hne].
  - rewrite bpath_ext, bool_decide_eq_true_2, bpath_cid by done. split; [|apply canonical_idemp]. by apply bpath_eq; rewrite canonical_idemp.
  - by rewrite bool_decide_eq_false_2.
Qed.
Lemma list_refines s : files_ok (files s) →
  ∃ l, list s = Ok l ∧ NoDup l ∧ ∀ c, c ∈ l ↔ canonical c = c ∧ is_Some (stored s c).
Proof.
  intros Hok. eexists. split; [done|]. assert (∀ p, p ∈ (iter_map (files s)).*1 ↔ is_Some (files s !! p)) as Hin.
  { intros p. rewrite list_elem_of_fmap. split; [intros ([q d] & -> & Hq%elem_of_iter_map); by eexists|].
    intros [d Hd]. exists (p, d). split; [done|]. by apply elem_of_iter_map. }
  split.
  - pose proof (NoDup_iter_map_keys (files s)) as Hnd. revert Hin Hnd. generalize (iter_map (files s)).*1. intros l Hl Hnd.
    assert (∀ p, p ∈ l → is_Some (files s !! p)) as Hl' by (intros; by apply Hl). clear Hl. induction Hnd as [|p l Hp Hnd IH]; [constructor|]. simpl.
    destruct (Hl' p) as [d Hd]; [set_solver|]. pose proof (list_entry_ok s p d Hok Hd) as He. destruct (list_entry p) as [c|]; [|apply IH; set_solver].
    constructor; [|apply IH; set_solver]. rewrite list_elem_of_omap. intros (q & Hq & Eq). destruct (Hl' q) as [d' Hd']; [set_solver|].
    pose proof (list_entry_ok s q d' Hok Hd') as Hq'. rewrite Eq in Hq'. destruct He as [-> _], Hq' as [-> _]. done.
  - intros c. rewrite list_elem_of_omap. setoid_rewrite Hin. split.
    + intros (p & [d Hd] & He). pose proof (list_entry_ok s p d Hok Hd) as H. rewrite He in H. destruct H as [-> Hc]. split; [done|by eexists].
    + intros [Hc [d Hd]]. exists (bpath c). split; [by exists d|]. unfold list_entry. by rewrite bpath_ext, bool_decide_eq_true_2, bpath_cid, Hc.
Qed.

(** *** Crashes and faults *)
Lemma append_calls p data d m : m !! p = Some d → foldl call m (Append p <$> data) = <[p := d ++ data]> m.
Proof.
  revert d m. induction data as [|x data IH]; intros d m Hp; [by rewrite app_nil_r, insert_id|]. simpl. rewrite Hp. simpl.
  rewrite (IH (d ++ [x])) by apply lookup_insert_eq. by rewrite insert_insert_eq, <-app_assoc.
Qed.
Lemma write_calls_ok p data m : foldl call m (write_calls p data) = <[p := data]> m.
Proof. unfold write_calls. simpl. rewrite (append_calls p data []) by apply lookup_insert_eq. by rewrite insert_insert_eq. Qed.

(** The calls do what the task does. *)
Lemma put_calls_ok target data f m : set_extension "tmp" target ≠ target → foldl call m (put_calls target data f m) = (put_task target data f m).2.
Proof.
  intros Hne. unfold put_task, put_calls. destruct (f_create_dir f); [done|]. destruct (m !! target); [done|]. destruct (f_create f); [done|].
  cbn [foldl call]. rewrite foldl_app. unfold tempfile_calls, write_through_tempfile. destruct (f_write f) as [[e partial]|].
  - rewrite write_calls_ok. by destruct (f_cleanup f).
  - rewrite foldl_app, write_calls_ok. destruct (f_rename f); [by destruct (f_cleanup f)|]. cbn [foldl call].
    by rewrite lookup_insert_eq, delete_insert_eq.
Qed.

(** Files that the calls before the last one do not touch. *)
Definition calls_of (c : FileCall) : Datatypes.list (string * string) :=
  match c with Create p | Append p _ | Unlink p => [p] | Rename from to => [from; to] end.
Lemma calls_other cs p m : Forall (λ c, p ∉ calls_of c) cs → foldl call m cs !! p = m !! p.
Proof.
  intros Hcs. revert m. induction Hcs as [|c cs Hc _ IH]; intros m; [done|]. simpl. rewrite IH. destruct c as [q|q x|q q'|q]; simpl in *.
  - rewrite lookup_insert_ne; [done|set_solver].
  - rewrite lookup_insert_ne; [done|set_solver].
  - destruct (m !! q); [|done]. rewrite lookup_insert_ne, lookup_delete_ne; [done|set_solver..].
  - rewrite lookup_delete_ne; [done|set_solver].
Qed.
Lemma put_calls_touch target data f m :
  Forall (λ c, ∀ p, p ∈ calls_of c → p = target ∨ p = set_extension "tmp" target) (put_calls target data f m).
Proof.
  unfold put_calls. destruct (f_create_dir f), (m !! target), (f_create f); try constructor; [simpl; set_solver|].
  assert (∀ d, Forall (λ c, ∀ p, p ∈ calls_of c → p = target ∨ p = set_extension "tmp" target) (write_calls (set_extension "tmp" target) d)) as Hw.
  { intros d. unfold write_calls. constructor; [simpl; set_solver|]. apply Forall_fmap, Forall_true. intros x. simpl. set_solver. }
  apply Forall_app. split.
  - unfold tempfile_calls. destruct (f_write f) as [[e partial]|]; [done|]. apply Forall_app. split; [done|]. destruct (f_rename f); [constructor|].
    apply Forall_singleton. simpl. set_solver.
  - destruct (f_write f), (f_rename f), (f_cleanup f); try constructor; try constructor; simpl; set_solver.
Qed.

Lemma crash_other n target data f m p : p ≠ target → p ≠ set_extension "tmp" target → crash n target data f m !! p = m !! p.
Proof.
  intros H1 H2. apply calls_other, Forall_take. eapply Forall_impl; [apply put_calls_touch|]. intros c Hc Hin. destruct (Hc p Hin); done.
Qed.

(** The target of a put that would succeed: not there, empty, complete. *)
Lemma crash_target n target data m : m !! target = None → set_extension "tmp" target ≠ target →
  crash n target data no_faults m !! target =
    if bool_decide (n = 0%nat) then None else if bool_decide (n < length data + 3)%nat then Some [] else Some data.
Proof.
  intros Hm Hne. unfold crash, put_calls. rewrite Hm. cbn [no_faults f_create_dir f_create f_write f_rename f_cleanup tempfile_calls].
  rewrite app_nil_r. set (temp := set_extension "tmp" target) in *. set (w := write_calls temp data).
  assert (length w = S (length data)) as Hw by (unfold w; simpl; by rewrite length_fmap).
  assert (∀ k, Forall (λ c, target ∉ calls_of c) (take k w)) as Hf.
  { intros k. apply Forall_take. unfold w, write_calls. constructor; [simpl; set_solver|]. apply Forall_fmap, Forall_true. intros x. simpl. set_solver. }
  destruct n as [|n]; [by rewrite bool_decide_eq_true_2|]. rewrite bool_decide_eq_false_2 by done. cbn [take foldl call]. case_bool_decide as Hn.
  - rewrite take_app_le by lia. rewrite calls_other by apply Hf. apply lookup_insert_eq.
  - rewrite take_ge by (rewrite length_app; cbn [length]; lia). rewrite foldl_app. unfold w. rewrite write_calls_ok. cbn [foldl call]. by rewrite lookup_insert_eq, lookup_insert_eq.
Qed.
End blocks.
End FsBlockProofs.

Module FsPinProofs.
Import FileName FsPaths FsPathProofs FsDataStore PinDocument.
Section pins.
  Context `{fc : FsCodec} {ho : HashOrder}.
Notation Files := (gmap (string * string) (Datatypes.list byte)).
Implicit Types m : Files.

(** ** What the files say *)
Definition has_refs m (r : Cid) (l : Datatypes.list Cid) : Prop := m !! ppath "recursive" r = Some (refs_to_json (cid_to_string <$> l)).
Definition direct m (c : Cid) : Prop := is_Some (m !! ppath "direct" c).
Definition recursive m (c : Cid) : Prop := is_Some (m !! ppath "recursive" c).
Definition pinned m (c : Cid) : Prop := direct m c ∨ recursive m c ∨ ∃ r l, has_refs m r l ∧ c ∈ l.
Definition pins_ok m : Prop := ∀ r d, m !! ppath "recursive" r = Some d → ∃ l, d = refs_to_json (cid_to_string <$> l).

Lemma parse_all_ok l : parse_all (cid_to_string <$> l) = Ok l.
Proof. induction l as [|c l IH]; [done|]. rewrite fmap_cons. cbn [parse_all]. by rewrite cid_from_to_string, IH. Qed.
Lemma has_refs_inj m r l l' : has_refs m r l → has_refs m r l' → l = l'.
Proof.
  unfold has_refs. intros H1 H2. rewrite H1 in H2. injection H2 as H2. pose proof (refs_from_to_json (cid_to_string <$> l)) as J.
  rewrite H2, refs_from_to_json in J. injection J as J. pose proof (parse_all_ok l) as P. rewrite <-J, parse_all_ok in P. congruence.
Qed.
Lemma read_ok m r : pins_ok m → ∃ l, read_recursively_pinned r m = Done (Ok (r, l)) ∧ (has_refs m r l ∨ ¬ recursive m r ∧ l = []).
Proof.
  intros Hm. unfold read_recursively_pinned. destruct (pin_path_ok r) as (p & -> & Hp). cbn [mbind outcome_bind]. rewrite Hp.
  destruct (m !! ppath "recursive" r) as [d|] eqn:E.
  - destruct (Hm _ _ E) as [l ->]. exists l. rewrite refs_from_to_json, parse_all_ok. split; [done|by left].
  - exists []. split; [done|]. right. split; [|done]. unfold recursive. rewrite E. by intros [].
Qed.
Lemma pinned_by_ok m c rs : pins_ok m →
  ∃ b, pinned_by c rs m = Done (Ok b) ∧ (b = true ↔ ∃ r l, r ∈ rs ∧ has_refs m r l ∧ c ∈ l).
Proof.
  intros Hm. induction rs as [|r rs (b & IH & Hb)]; [exists false; split; [done|]; set_solver|]. cbn [pinned_by].
  destruct (read_ok m r Hm) as (l & -> & Hl). cbn [mbind outcome_bind]. case_bool_decide as Hc.
  - exists true. split; [done|]. split; [|done]. intros _. exists r, l. destruct Hl as [Hl|[_ ->]]; [set_solver|by apply elem_of_nil in Hc].
  - exists b. split; [done|]. rewrite Hb. split; [set_solver|]. intros (r' & l' & Hin & Hr & Hcl). apply elem_of_cons in Hin as [->|Hin]; [|set_solver].
    destruct Hl as [Hl|[Hn _]]; [by rewrite (has_refs_inj _ _ _ _ Hl Hr) in Hc|]. destruct Hn. by eexists.
Qed.
Lemma recursives_list m r : recursive m r → r ∈ recursives (list_pinfiles m).
Proof.
  intros [d Hd]. unfold recursives. apply list_elem_of_fmap. exists (r, Recursively). split; [done|]. apply list_elem_of_filter. split; [done|].
  unfold list_pinfiles. apply list_elem_of_omap. exists (ppath "recursive" r). split.
  - apply list_elem_of_fmap. exists (ppath "recursive" r, d). split; [done|]. by apply elem_of_iter_map.
  - unfold pinfile. rewrite ppath_cid by done. unfold ppath. rewrite key_path_ext by (apply cid_b32_key || done). done.
Qed.
Lemma is_pinned_ok m c : pins_ok m → ∃ b, is_pinned c m = Done (Ok b) ∧ (b = true ↔ pinned m c).
Proof.
  intros Hm. unfold is_pinned. destruct (pin_path_ok c) as (p & -> & Hp). cbn [mbind outcome_bind].
  unfold sync_read_direct_or_recursive, is_file. rewrite !Hp. fold (recursive m c) (direct m c). unfold pinned.
  case_bool_decide as Hs.
  - exists true. split; [done|]. split; [|done]. intros _. case_bool_decide; [by right; left|]. case_bool_decide; [by left|by destruct Hs].
  - assert (¬ direct m c ∧ ¬ recursive m c) as [Hd Hr].
    { split; intros H; apply Hs; repeat case_bool_decide; done || by eapply mk_is_Some. }
    destruct (pinned_by_ok m c (recursives (list_pinfiles m)) Hm) as (b & -> & Hb). exists b. split; [done|]. rewrite Hb. split; [naive_solver|].
    intros [?|[?|(r & l & Hl & Hc)]]; [done|done|]. exists r, l. split_and!; [|done|done]. apply recursives_list. by eexists.
Qed.

(** ** Changes *)
Lemma ext_dots : no_dot "direct" ∧ no_dot "recursive" ∧ no_dot "recursive_temp".
Proof. done. Qed.
Lemma ppath_ne ext ext' c c' : no_dot ext → no_dot ext' → ext ≠ ext' ∨ c ≠ c' → ppath ext c ≠ ppath ext' c'.
Proof. intros H1 H2 Hne E. apply ppath_inj in E as [-> ->]; [|done|done]. tauto. Qed.
Ltac paths := match goal with |- ppath _ _ ≠ ppath _ _ => apply ppath_ne; [done|done|first [by left|by right]] end.

(** A direct pin is added or removed, recursive ones stay, and the other way round. *)
Definition same_recursive m m' : Prop := ∀ r, m' !! ppath "recursive" r = m !! ppath "recursive" r.
Definition set_direct m m' (c : Cid) (on : Prop) : Prop := ∀ c', direct m' c' ↔ if bool_decide (c' = c) then on else direct m c'.

Lemma insert_direct_pin_spec c m : pins_ok m →
  ∃ r m', insert_direct_pin c m = Done (r, m') ∧
    (recursive m c → r = Err AlreadyRecursive ∧ m' = m) ∧ (¬ recursive m c → r = Ok () ∧ same_recursive m m' ∧ set_direct m m' c True).
Proof.
  intros Hm. unfold insert_direct_pin. destruct (pin_path_ok c) as (p & -> & Hp). cbn [mbind outcome_bind]. rewrite !Hp. unfold is_file.
  fold (recursive m c). case_bool_decide as Hr; eexists _, _; (split; [done|]); [by split|]. split; [done|]. intros _. split_and!; [done| |].
  - intros r. rewrite lookup_insert_ne; [done|paths].
  - intros c'. unfold direct. case_bool_decide as Hc; [subst; rewrite lookup_insert_eq; split; [done|by eexists]|].
    rewrite lookup_insert_ne; [done|]. apply ppath_ne; [done|done|right; congruence].
Qed.
Lemma insert_recursive_spec c s m : pins_ok m →
  ∃ m', insert_recursive_pin c s m = Done (Ok (), m') ∧ pins_ok m' ∧ has_refs m' c (iter_set s) ∧
    (∀ r, r ≠ c → m' !! ppath "recursive" r = m !! ppath "recursive" r) ∧ set_direct m m' c False.
Proof.
  intros Hm. unfold insert_recursive_pin. destruct (pin_path_ok c) as (p & -> & Hp). cbn [mbind outcome_bind]. rewrite !Hp.
  eexists. split; [done|]. set (m' := delete _ _).
  assert (∀ r, m' !! ppath "recursive" r = if bool_decide (r = c) then Some (refs_to_json (cid_to_string <$> iter_set s)) else m !! ppath "recursive" r) as Hrec.
  { intros r. unfold m'. rewrite lookup_delete_ne by paths. case_bool_decide as Hc; [subst; by rewrite lookup_insert_eq|].
    rewrite lookup_insert_ne by (apply ppath_ne; [done|done|right; congruence]). rewrite lookup_delete_ne; [done|paths]. }
  split_and!.
  - intros r d. rewrite Hrec. case_bool_decide; [intros [= <-]; by eexists|apply Hm].
  - unfold has_refs. rewrite Hrec. by rewrite bool_decide_eq_true_2.
  - intros r Hr. rewrite Hrec. by rewrite bool_decide_eq_false_2.
  - intros c'. unfold direct, m'. case_bool_decide as Hc; [subst; rewrite lookup_delete_eq; split; [by intros []|done]|].
    rewrite lookup_delete_ne by (apply ppath_ne; [done|done|right; congruence]). rewrite lookup_insert_ne by paths. rewrite lookup_delete_ne; [done|paths].
Qed.
Lemma remove_direct_spec c m : pins_ok m →
  ∃ r m', remove_direct_pin c m = Done (r, m') ∧ (recursive m c → r = Err IsRecursive ∧ m' = m) ∧
    (¬ recursive m c → direct m c → r = Ok () ∧ same_recursive m m' ∧ set_direct m m' c False) ∧
    (¬ recursive m c → ¬ direct m c → r = Err NotPinned ∧ m' = m).
Proof.
  intros Hm. unfold remove_direct_pin. destruct (pin_path_ok c) as (p & -> & Hp). cbn [mbind outcome_bind]. rewrite !Hp. unfold is_file.
  fold (recursive m c) (direct m c). case_bool_decide as Hr; [|case_bool_decide as Hd]; eexists _, _; (split; [done|]); split_and!; intros; try done.
  split_and!; [done| |].
  - intros r. rewrite lookup_delete_ne; [done|paths].
  - intros c'. unfold direct. case_bool_decide as Hc; [subst; rewrite lookup_delete_eq; split; [by intros []|done]|].
    rewrite lookup_delete_ne; [done|]. apply ppath_ne; [done|done|right; congruence].
Qed.
Lemma remove_recursive_spec c m : pins_ok m →
  ∃ r m', remove_recursive_pin c m = Done (r, m') ∧ pins_ok m' ∧ (r = Ok () ↔ direct m c ∨ recursive m c) ∧ ¬ recursive m' c ∧
    (∀ q, q ≠ c → m' !! ppath "recursive" q = m !! ppath "recursive" q) ∧ set_direct m m' c False.
Proof.
  intros Hm. unfold remove_recursive_pin. destruct (pin_path_ok c) as (p & -> & Hp). cbn [mbind outcome_bind]. rewrite !Hp. unfold is_file.
  rewrite (lookup_delete_ne m) by paths. fold (recursive m c) (direct m c). eexists _, _. split; [done|]. set (m' := delete _ (delete _ m)).
  assert (∀ r, m' !! ppath "recursive" r = if bool_decide (r = c) then None else m !! ppath "recursive" r) as Hrec.
  { intros r. unfold m'. case_bool_decide as Hc; [subst; by rewrite lookup_delete_eq|].
    rewrite lookup_delete_ne by (apply ppath_ne; [done|done|right; congruence]). rewrite lookup_delete_ne; [done|paths]. }
  split_and!.
  - intros r d. rewrite Hrec. case_bool_decide; [done|apply Hm].
  - case_bool_decide; [|case_bool_decide]; simpl; naive_solver.
  - unfold recursive. rewrite Hrec, bool_decide_eq_true_2 by done. by intros [].
  - intros r Hr. rewrite Hrec. by rewrite bool_decide_eq_false_2.
  - intros c'. unfold direct, m'. rewrite lookup_delete_ne by paths. case_bool_decide as Hc; [subst; rewrite lookup_delete_eq; split; [by intros []|done]|].
    rewrite lookup_delete_ne; [done|]. apply ppath_ne; [done|done|right; congruence].
Qed.
End pins.
End FsPinProofs.
