(* ===== verification/FsClaims.v ===== *)
(** * Stores on disk: what they promise *)
From stdpp Require Import base gmap list strings.
From Stdlib Require Import Strings.Byte.
From S2P Require Import Prelude Protobuf UnixFsPb PbInstance Path DirIter PinStore Refs Repo RepoClaims FsStores FsProofs.
Local Open Scope Z_scope.

Module FsClaims.
Import FsPaths FsPathProofs FsBlockProofs FsPinProofs.
Section claims.
  Context `{fc : FsCodec} {ho : HashOrder}.

(** ** Clean-up *)
Notation held r := (stored (FsRepo.blocks r)).

Lemma cleanup_loop_ok l r :
  files_ok (FsBlockStore.files (FsRepo.blocks r)) → pins_ok (FsRepo.pins r) →
  ∃ removed r', FsRepo.cleanup_loop l r = Done (Ok removed, r') ∧ files_ok (FsBlockStore.files (FsRepo.blocks r')) ∧
    FsRepo.pins r' = FsRepo.pins r ∧
    (∀ c, (∃ c', c' ∈ l ∧ canonical c' = canonical c ∧ ¬ pinned (FsRepo.pins r) c') → held r' c = None) ∧
    (∀ c, (∀ c', c' ∈ l → canonical c' = canonical c → pinned (FsRepo.pins r) c') → held r' c = held r c) ∧
    (∀ c, held r c = None → held r' c = None).
Proof.
  revert r. induction l as [|c l IH]; intros r Hf Hp; cbn [FsRepo.cleanup_loop].
  { exists [], r. split_and!; try done. intros c (c' & Hc' & _). by apply elem_of_nil in Hc'. }
  destruct (is_pinned_ok (FsRepo.pins r) c Hp) as ([|] & Hrun & Hb); rewrite Hrun; cbn [mbind outcome_bind].
  - destruct (IH r Hf Hp) as (removed & r' & -> & Hf' & Hp' & H1 & H2 & H3). exists removed, r'. assert (pinned (FsRepo.pins r) c) as Hc by by apply Hb.
    split_and!; try done.
    + intros c0 (c' & Hc' & He & Hn). apply H1. exists c'. set_solver.
    + intros c0 Hall. apply H2. intros. apply Hall; set_solver.
  - assert (¬ pinned (FsRepo.pins r) c) as Hc by (intros Hc; by apply Hb in Hc). unfold FsRepo.remove_block. rewrite Hrun. cbn [mbind outcome_bind].
    destruct (remove_refines c (FsRepo.blocks r) None Hf ltac:(done)) as (b & -> & Hfb & Hst). cbn [mbind outcome_bind].
    set (r1 := FsRepo.mkRepo b (FsRepo.pins r)). destruct (IH r1 Hfb Hp) as (removed & r' & Hloop & Hf' & Hp' & H1 & H2 & H3).
    assert (∃ removed', match (match (if held r c then Ok (Removed c) else Err (BlockNotFound c)) with
        | Ok (Removed _) => (Ok c, r1) | Err (BlockNotFound _) => (Err FsRepo.BlockMissing, r1) end) with
      | (Ok c, r) => y ← FsRepo.cleanup_loop l r; mret (match y with (Ok removed, r) => (Ok (c :: removed), r) | (Err e, r) => (Err e, r) end)
      | (Err _, r) => FsRepo.cleanup_loop l r end = Done (Ok removed', r')) as [removed' Hd].
    { destruct (held r c); rewrite Hloop; by eexists. }
    exists removed', r'. split; [|split; [done|split; [done|]]].
    + rewrite <-Hd. by destruct (held r c).
    + split_and!.
      * intros c0 (c' & Hc' & He & Hn). apply elem_of_cons in Hc' as [->|Hc']; [|apply H1; by exists c'].
        apply H3. unfold r1. simpl. rewrite Hst. by rewrite bool_decide_eq_true_2.
      * intros c0 Hall. rewrite H2 by (intros; apply Hall; set_solver). unfold r1. simpl. rewrite Hst. case_bool_decide as E; [|done].
        destruct Hc. apply Hall; [set_solver|done].
      * intros c0 Hn. apply H3. unfold r1. simpl. rewrite Hst. by case_bool_decide.
Qed.

(** ** The claims *)

(** C14: blocks on disk, with nothing failing, refine a map
    from version 1 identifiers to data: an identifier of version 0 stands for the one
    of version 1 with its hash; a block is put once, found under both identifiers,
    removed under both, and listed once, as version 1.  A block whose write under way
    is known to have failed is not found and not removed. *)
Theorem disk_blocks_refine s :
  files_ok (FsBlockStore.files s) →
  (∀ c, FsBlockStore.contains c s = Done (Ok (bool_decide (is_Some (stored s c)))) ∧
    ∀ o, FsBlockStore.get c o s = Done (Ok (match FsBlockStore.write_completion o with FsBlockStore.KnownBad => None | _ => pair c <$> stored s c end))) ∧
  (∀ c d, verifies c d = true → ∃ s', FsBlockStore.put (c, d) (Ok ()) FsBlockStore.no_faults s =
      Done (Ok (c, if stored s c then Existed else NewBlock), s') ∧ files_ok (FsBlockStore.files s') ∧
    ∀ c', stored s' c' = if bool_decide (canonical c' = canonical c) && negb (bool_decide (is_Some (stored s c))) then Some d else stored s c') ∧
  (∀ c o, FsBlockStore.write_completion o = FsBlockStore.KnownBad → FsBlockStore.remove c o s = Done (Ok (Err (BlockNotFound c)), s)) ∧
  (∀ c o, FsBlockStore.write_completion o ≠ FsBlockStore.KnownBad → ∃ s', FsBlockStore.remove c o s = Done (Ok (if stored s c then Ok (Removed c) else Err (BlockNotFound c)), s') ∧ files_ok (FsBlockStore.files s') ∧
    ∀ c', stored s' c' = if bool_decide (canonical c' = canonical c) then None else stored s c') ∧
  (∃ l, FsBlockStore.list s = Ok l ∧ NoDup l ∧ ∀ c, c ∈ l ↔ canonical c = c ∧ is_Some (stored s c)) ∧
  (∀ c c', canonical c = canonical c' → stored s c = stored s c').
Proof.
  intros Hok. split_and!.
  - intros c. split; [apply contains_ok|]. intros o.
    destruct (FsBlockStore.write_completion o) eqn:E; [rewrite get_ok|rewrite get_ok|rewrite get_bad|rewrite get_ok]; done || by rewrite E.
  - intros c d Hv. by apply put_refines.
  - intros c o. apply remove_bad.
  - intros c o. by apply remove_refines.
  - by apply list_refines.
  - intros c c'. apply stored_canonical.
Qed.

(** C32: the process dies during a put of a block that is not there, before one of the
    calls by which the task changes files.  Whatever fails besides, no other block
    changes.  A put without other failures that dies before its first call leaves no
    block; one that dies after its last call leaves the block; and one that dies
    anywhere in between leaves an empty file, after which the block is contained,
    every further put says that it existed, and every get fails.  The calls, made to
    the end, change the files as [put_task] does. *)
Theorem crash_during_put c d f s n w :
  files_ok (FsBlockStore.files s) → stored s c = None → verifies c d = true → verifies c [] = false →
  let after f := FsBlockStore.mkStore (FsBlockStore.crash n (bpath c) d f (FsBlockStore.files s)) w in
  let calls f := length (FsBlockStore.put_calls (bpath c) d f (FsBlockStore.files s)) in
  (∀ c', canonical c' ≠ canonical c → FsBlockStore.get c' None (after f) = FsBlockStore.get c' None s) ∧
  (calls f ≤ n → FsBlockStore.files (after f) = (FsBlockStore.put_task (bpath c) d f (FsBlockStore.files s)).2)%nat ∧
  let s' := after FsBlockStore.no_faults in
  (n = 0%nat → FsBlockStore.get c None s' = Done (Ok None)) ∧
  (calls FsBlockStore.no_faults ≤ n → FsBlockStore.get c None s' = Done (Ok (Some (c, d))))%nat ∧
  ((0 < n < calls FsBlockStore.no_faults)%nat →
    FsBlockStore.get c None s' = Done (Err FsBlockStore.Verification) ∧ FsBlockStore.contains c s' = Done (Ok true) ∧
    ∀ msg, FsBlockStore.put (c, d) (Ok msg) FsBlockStore.no_faults s' = Done (Ok (c, Existed), s')).
Proof.
  intros Hok Hn Hv Hv0 after calls. assert (set_extension "tmp" (bpath c) ≠ bpath c) as Hne by apply (tmp_ne c c).
  assert (calls FsBlockStore.no_faults = length d + 3)%nat as Hcalls.
  { unfold calls, FsBlockStore.put_calls. unfold stored in Hn. rewrite Hn. simpl. rewrite length_app, length_app, length_fmap. simpl. lia. }
  pose proof (crash_target n (bpath c) d (FsBlockStore.files s) Hn Hne) as Ht.
  change (stored (after FsBlockStore.no_faults) c = if bool_decide (n = 0%nat) then None else if bool_decide (n < length d + 3)%nat then Some [] else Some d) in Ht.
  unfold FsBlockStore.get. cbn [FsBlockStore.write_completion]. setoid_rewrite block_path_ok. cbn [mbind outcome_bind].
  change (FsBlockStore.files (after FsBlockStore.no_faults) !! bpath c) with (stored (after FsBlockStore.no_faults) c). rewrite Hcalls. split_and!.
  - intros c' Hd. unfold after. cbn [FsBlockStore.files]. rewrite crash_other; [done|apply not_eq_sym, (stored_other c c'); auto..].
  - intros Hle. unfold after, FsBlockStore.crash. cbn [FsBlockStore.files]. rewrite take_ge by done. by apply put_calls_ok.
  - intros Hn0. by rewrite Ht, bool_decide_eq_true_2.
  - intros Hle. rewrite Ht, bool_decide_eq_false_2, bool_decide_eq_false_2 by lia. by rewrite Hv.
  - intros [Hlt Hlt2]. rewrite bool_decide_eq_false_2, bool_decide_eq_true_2 in Ht by lia. rewrite Ht, Hv0.
    split_and!; [done|rewrite contains_ok, Ht; by rewrite bool_decide_eq_true_2|]. intros msg. by rewrite (put_existing c d []).
Qed.

(** C30: pins on disk refine a set of direct pins and a map from recursive pins to what
    they keep: a block is pinned exactly if it is one of either or is kept by a
    recursive one; an operation changes its own pin only, or fails and changes
    nothing, and one that removes a recursive pin removes a direct one too. *)
Theorem disk_pins_refine m c :
  pins_ok m →
  (∃ b, FsDataStore.is_pinned c m = Done (Ok b) ∧ (b = true ↔ pinned m c)) ∧
  (∃ r m', FsDataStore.insert_direct_pin c m = Done (r, m') ∧
    (recursive m c → r = Err FsDataStore.AlreadyRecursive ∧ m' = m) ∧
    (¬ recursive m c → r = Ok () ∧ same_recursive m m' ∧ set_direct m m' c True)) ∧
  (∀ s, ∃ m', FsDataStore.insert_recursive_pin c s m = Done (Ok (), m') ∧ pins_ok m' ∧ has_refs m' c (iter_set s) ∧
    (∀ r, r ≠ c → m' !! ppath "recursive" r = m !! ppath "recursive" r) ∧ set_direct m m' c False) ∧
  (∃ r m', FsDataStore.remove_direct_pin c m = Done (r, m') ∧ (recursive m c → r = Err FsDataStore.IsRecursive ∧ m' = m) ∧
    (¬ recursive m c → direct m c → r = Ok () ∧ same_recursive m m' ∧ set_direct m m' c False) ∧
    (¬ recursive m c → ¬ direct m c → r = Err FsDataStore.NotPinned ∧ m' = m)) ∧
  (∃ r m', FsDataStore.remove_recursive_pin c m = Done (r, m') ∧ pins_ok m' ∧ (r = Ok () ↔ direct m c ∨ recursive m c) ∧ ¬ recursive m' c ∧
    (∀ q, q ≠ c → m' !! ppath "recursive" q = m !! ppath "recursive" q) ∧ set_direct m m' c False).
Proof.
  intros Hm. split_and!; [by apply is_pinned_ok|by apply insert_direct_pin_spec|intros; by apply insert_recursive_spec|by apply remove_direct_spec|by apply remove_recursive_spec].
Qed.

(** C31: clean-up of a repository on disk ends without an error, keeps the pins, and
    keeps a block exactly if its identifier of version 1 is pinned; a block that is
    pinned by its identifier of version 0 only is lost. *)
Theorem disk_cleanup r :
  files_ok (FsBlockStore.files (FsRepo.blocks r)) → pins_ok (FsRepo.pins r) →
  ∃ removed r', FsRepo.cleanup r = Done (Ok removed, r') ∧ FsRepo.pins r' = FsRepo.pins r ∧
    (∀ c, pinned (FsRepo.pins r) (canonical c) → stored (FsRepo.blocks r') c = stored (FsRepo.blocks r) c) ∧
    (∀ c, ¬ pinned (FsRepo.pins r) (canonical c) → FsBlockStore.get c None (FsRepo.blocks r') = Done (Ok None)).
Proof.
  intros Hf Hp. unfold FsRepo.cleanup. destruct (list_refines (FsRepo.blocks r) Hf) as (l & -> & _ & Hl).
  destruct (cleanup_loop_ok l r Hf Hp) as (removed & r' & -> & Hf' & Hpins & H1 & H2 & H3). exists removed, r'. split_and!; [done|done|..].
  - intros c Hc. apply H2. intros c' Hin He. apply Hl in Hin as [Hcan _]. congruence.
  - intros c Hc. rewrite get_ok by done. enough (held r' c = None) as -> by done. destruct (held r c) as [d|] eqn:E; [|by apply H3].
    apply H1. exists (canonical c). split_and!; [|apply canonical_idemp|done]. apply Hl. split; [apply canonical_idemp|].
    rewrite (stored_canonical _ (canonical c) c) by apply canonical_idemp. by eexists.
Qed.

(** A target that cannot be created, on a full or read-only disk, counts as a block
    that exists. *)
Theorem failed_create_existed c d s f :
  stored s c = None → is_Some (FsBlockStore.f_create_dir f) ∨ is_Some (FsBlockStore.f_create f) →
  FsBlockStore.put (c, d) (Ok ()) f s = Done (Ok (c, Existed), s).
Proof.
  intros Hn Hf. unfold FsBlockStore.put. cbn [fst snd]. rewrite block_path_ok. cbn [mbind outcome_bind]. unfold FsBlockStore.put_task.
  unfold stored in Hn. rewrite Hn. destruct s as [m w]. destruct (FsBlockStore.f_create_dir f); [done|].
  destruct Hf as [[]|[e ->]]; done.
Qed.
End claims.
End FsClaims.

(** Identifiers whose text and base32 form are letters. *)
Module FsWitness.
Import FsPaths FsPathProofs FsBlockProofs FsPinProofs RepoWitness.
#[local] Existing Instance bytes_ids.
#[local] Existing Instance bytes_cids.
#[local] Existing Instance WireFormat.wire_format.
#[local] Existing Instance key_order.
#[local] Existing Instance two_layout.

Definition text (c : list byte) : string := String (nibble 1) (String (nibble 0) (String (nibble 5) (hex c))).
Definition untext (s : string) : option (list byte) :=
  match s with String _ (String _ (String _ s)) => unhex s | _ => None end.
#[local] Program Instance text_codec : PathCodec := {|
  TextError := unit;
  cid_from_str := λ s, ok_or tt (untext s);
  cid_to_string := text;
  peer_from_str := peer_from_str (PathCodec := hex_codec);
  peer_to_base58 := peer_to_base58 (PathCodec := hex_codec);
  peer_from_to_base58 := peer_from_to_base58 (PathCodec := hex_codec);
  peer_string_no_slash := peer_string_no_slash (PathCodec := hex_codec);
  peer_of_cid := λ c, None;
|}.
Next Obligation. intros c. simpl. by rewrite unhex_hex. Qed.
Next Obligation. intros c. simpl. split_and!; [done|done|done|apply hex_no_slash]. Qed.

#[local] Program Instance disk_pin_codec : PinCodec := {|
  JsonError := unit;
  doc_to_vec := doc_to_vec (PinCodec := toy_pin_codec);
  doc_from_slice := doc_from_slice (PinCodec := toy_pin_codec);
  new_v1 := λ c, x01 :: x70 :: c;
|}.
Next Obligation. intros d. apply (doc_from_to_vec (PinCodec := toy_pin_codec)). Qed.
Next Obligation. done. Qed.

(** The hash is the data itself, after the version and the codec. *)
Fixpoint core (c : list byte) : list byte := match c with x01 :: x70 :: c => core c | _ => c end.
Lemma hex_no_dot c : FileName.no_dot (hex c).
Proof.
  unfold FileName.no_dot. induction c as [|b c IH]; [done|]. cbn [hex byte_string FileName.last_dot]. rewrite IH.
  rewrite !bool_decide_eq_false_2 by by destruct b. done.
Qed.
Lemma text_key c : FileName.no_dot (text c) ∧ (3 ≤ String.length (text c))%nat.
Proof. split; [|simpl; lia]. unfold FileName.no_dot. simpl. by rewrite hex_no_dot. Qed.
#[local] Program Instance disk_codec : FsCodec := {|
  b32_encode := text;
  b32_decode := untext;
  refs_to_json := λ l, pos_bytes (encode l);
  refs_from_json := λ b, ok_or tt (countable.decode (bytes_pos b));
  verifies := λ c b, bool_decide (core c = b);
|}.
Next Obligation. intros b. simpl. apply unhex_hex. Qed.
Next Obligation. apply text_key. Qed.
Next Obligation. intros c. apply text_key. Qed.
Next Obligation. intros l. simpl. by rewrite bytes_pos_bytes, decode_encode. Qed.
Next Obligation. done. Qed.

(** A block of version 0, pinned as such. *)
Definition cid : Cid := [x12; x34].
Definition store : FsBlockStore.Store := FsBlockStore.mkStore {[ bpath cid := cid ]} 0.
Lemma store_ok : files_ok (FsBlockStore.files store).
Proof. intros p d Hd. unfold store in Hd. cbn [FsBlockStore.files] in Hd. apply lookup_singleton_Some in Hd as [<- <-]. left. exists cid. split; [done|]. vm_compute. done. Qed.
Definition pins : gmap (string * string) (list byte) := {[ ppath "direct" cid := [] ]}.
Lemma pins_good : pins_ok pins.
Proof.
  intros r d Hd. unfold pins in Hd. apply lookup_singleton_Some in Hd as [E _]. apply ppath_inj in E as [_ E]; [|done|done]. done.
Qed.

Lemma disk_blocks_refine_witness : ∃ l, FsBlockStore.list store = Ok l ∧ NoDup l ∧ ∀ c, c ∈ l ↔ canonical c = c ∧ is_Some (stored store c).
Proof. destruct (FsClaims.disk_blocks_refine store store_ok) as (_ & _ & _ & _ & H & _). exact H. Defined.
(** Dead after the target was created. *)
Definition crashed : FsBlockStore.Store :=
  FsBlockStore.mkStore (FsBlockStore.crash 1 (bpath cid) cid FsBlockStore.no_faults ∅) 0.
Lemma crash_during_put_witness :
  FsBlockStore.get cid None crashed = Done (Err FsBlockStore.Verification) ∧ FsBlockStore.contains cid crashed = Done (Ok true) ∧
  ∀ msg, FsBlockStore.put (cid, cid) (Ok msg) FsBlockStore.no_faults crashed = Done (Ok (cid, Existed), crashed).
Proof.
  destruct (FsClaims.crash_during_put cid cid FsBlockStore.no_faults FsBlockStore.new 1 0) as (_ & _ & _ & _ & H).
  - intros p d Hd. simpl in Hd. by rewrite lookup_empty in Hd.
  - unfold stored. simpl. apply lookup_empty.
  - vm_compute. reflexivity.
  - vm_compute. reflexivity.
  - apply H. split; [lia|]. vm_compute. lia.
Defined.
Lemma disk_pins_refine_witness : ∃ b, FsDataStore.is_pinned cid pins = Done (Ok b) ∧ (b = true ↔ pinned pins cid).
Proof. apply (FsClaims.disk_pins_refine pins cid pins_good). Defined.
Lemma disk_cleanup_witness : ∃ removed r', FsRepo.cleanup (FsRepo.mkRepo store pins) = Done (Ok removed, r') ∧
  (¬ pinned pins (canonical cid) → FsBlockStore.get cid None (FsRepo.blocks r') = Done (Ok None)).
Proof.
  destruct (FsClaims.disk_cleanup (FsRepo.mkRepo store pins) store_ok pins_good) as (removed & r' & H1 & _ & _ & H2).
  exists removed, r'. split; [exact H1|apply H2].
Defined.
(** The block is pinned, and lost. *)
Example pinned_block_lost :
  match FsDataStore.is_pinned cid pins, FsRepo.cleanup (FsRepo.mkRepo store pins) with
  | Done (Ok true), Done (Ok [c], r) => bool_decide (c = canonical cid ∧ FsBlockStore.files (FsRepo.blocks r) = ∅)
  | _, _ => false
  end = true.
Proof. vm_compute. reflexivity. Qed.
End FsWitness.
