(* ===== verification/Ipns.v ===== *)
(** * Names

    packages/rust-ipns (records that a key signs, and their protobuf form),
    src/ipns/ (publishing and resolving names, DNS links) and src/keystore.rs (keys by
    name).  Key pairs, signatures, the CBOR codec and the text of names belong to
    other crates and are interfaces with the laws that the code relies on. *)
From stdpp Require Import base gmap list sorting strings.
From Stdlib Require Import Strings.Byte.
From S2P Require Import Prelude Protobuf UnixFsPb Path DagResolve Repo.
Local Open Scope Z_scope.

Inductive KeyType := RSA | Ed25519 | Secp256k1 | ECDSA.
#[export] Instance KeyType_eq_dec : EqDecision KeyType.
Proof. solve_decision. Defined.

(** The crate [libp2p]: keys and peers.  [peer_digest] is the digest of the multihash
    that a peer identifier is; for a key of the type Ed25519 it is the key itself.
    [name_text] is the text in base 36 of the identifier of version 1 with the codec
    0x72 and that multihash. *)
Class Keys `{pc : PathCodec} := {
  Keypair : Type;
  PublicKey : Type;
  public : Keypair → PublicKey;
  key_type : PublicKey → KeyType;
  to_peer_id : PublicKey → PeerId;
  KeyError : Type;
  sign : Keypair → list byte → result (list byte) KeyError;
  verifies_signature : PublicKey → list byte → list byte → bool;
  sign_ok k m : key_type (public k) = Ed25519 → ∃ s, sign k m = Ok s ∧ s ≠ [] ∧ verifies_signature (public k) m s = true;
  keypair_to_protobuf : Keypair → result (list byte) KeyError;
  keypair_from_protobuf : list byte → result Keypair KeyError;
  keypair_from_to k : key_type (public k) = Ed25519 → ∃ b, keypair_to_protobuf k = Ok b ∧ b ≠ [] ∧ keypair_from_protobuf b = Ok k;
  public_to_protobuf : PublicKey → list byte;
  public_from_protobuf : list byte → result PublicKey KeyError;
  public_from_to pk : public_to_protobuf pk ≠ [] ∧ public_from_protobuf (public_to_protobuf pk) = Ok pk;
  peer_digest : PeerId → list byte;
  peer_digest_ed25519 pk : key_type pk = Ed25519 → peer_digest (to_peer_id pk) = public_to_protobuf pk;
  peer_to_bytes : PeerId → list byte;
  peer_from_bytes : list byte → option PeerId;
  peer_from_to_bytes p : peer_from_bytes (peer_to_bytes p) = Some p;
  name_text : PeerId → string;
  name_chars p : Forall (λ b, 48 ≤ byte_to_Z b ≤ 57 ∨ 97 ≤ byte_to_Z b ≤ 122) (str_bytes (name_text p));
  (** The text is no peer identifier in base 58, and it starts with the letter k,
      which is no code of a multihash of a peer. *)
  name_not_base58 p : peer_from_str (name_text p) = None;
  name_not_bytes p : peer_from_bytes (str_bytes (name_text p)) = None;
  name_cid p : ∃ c, cid_from_str (name_text p) = Ok c ∧ peer_of_cid c = Some p;
  (** The crate [multibase]. *)
  BaseError : Type;
  multibase_decode : string → result (list byte) BaseError;
  name_decode p : multibase_decode (name_text p) = Ok (x01 :: x72 :: peer_to_bytes p);
  name_start p : ∃ s, name_text p = String (Ascii.ascii_of_nat 107) s;
}.

(** [DagCborCodec] of the crate [libipld].  A map of bytes and integers of 64 bits with
    its keys in order is encoded, in some bytes, and decoded. *)
Definition cbor_leaf `{ids : Ids} (i : DagResolve.Ipld) : Prop :=
  match i with DagResolve.Bytes _ => True | DagResolve.Integer n => 0 ≤ n < 2 ^ 64 | _ => False end.
Class DagCbor `{ids : Ids} := {
  CborError : Type;
  cbor_encode : DagResolve.Ipld → result (list byte) CborError;
  cbor_decode : list byte → result DagResolve.Ipld CborError;
  cbor_roundtrip m : Forall cbor_leaf m.*2 → StronglySorted (λ x y, String.ltb x y = true) m.*1 →
    ∃ b, cbor_encode (DagResolve.Map m) = Ok b ∧ b ≠ [] ∧ cbor_decode b = Ok (DagResolve.Map m);
}.

(** ** The protobuf form *)
Module IpnsPb.
Import Pb.
Inductive ValidityType := EOL.
#[export] Instance ValidityType_eq_dec : EqDecision ValidityType.
Proof. solve_decision. Defined.
Definition ValidityType_from (i : Z) : ValidityType := if bool_decide (i = 0) then EOL else EOL.
Definition ValidityType_into (v : ValidityType) : Z := match v with EOL => 0 end.

Record IpnsEntry := mkEntry {
  value : list byte;
  signatureV1 : list byte;
  validityType : ValidityType;
  validity : list byte;
  sequence : Z;
  ttl : Z;
  pubKey : list byte;
  signatureV2 : list byte;
  data : list byte;
}.
Definition IpnsEntry_default : IpnsEntry := mkEntry [] [] EOL [] 0 0 [] [] [].

Section ipns_pb.
  Context {qp : QuickProtobuf}.

Definition IpnsEntry_fields : list (Z * handler) :=
  [ (10, on bytes (λ v m, mkEntry v (signatureV1 m) (validityType m) (validity m) (sequence m) (ttl m) (pubKey m) (signatureV2 m) (data m)));
    (18, on bytes (λ v m, mkEntry (value m) v (validityType m) (validity m) (sequence m) (ttl m) (pubKey m) (signatureV2 m) (data m)));
    (24, on int32 (λ v m, mkEntry (value m) (signatureV1 m) (ValidityType_from v) (validity m) (sequence m) (ttl m) (pubKey m) (signatureV2 m) (data m)));
    (34, on bytes (λ v m, mkEntry (value m) (signatureV1 m) (validityType m) v (sequence m) (ttl m) (pubKey m) (signatureV2 m) (data m)));
    (40, on uint64 (λ v m, mkEntry (value m) (signatureV1 m) (validityType m) (validity m) v (ttl m) (pubKey m) (signatureV2 m) (data m)));
    (48, on uint64 (λ v m, mkEntry (value m) (signatureV1 m) (validityType m) (validity m) (sequence m) v (pubKey m) (signatureV2 m) (data m)));
    (58, on bytes (λ v m, mkEntry (value m) (signatureV1 m) (validityType m) (validity m) (sequence m) (ttl m) v (signatureV2 m) (data m)));
    (66, on bytes (λ v m, mkEntry (value m) (signatureV1 m) (validityType m) (validity m) (sequence m) (ttl m) (pubKey m) v (data m)));
    (74, on bytes (λ v m, mkEntry (value m) (signatureV1 m) (validityType m) (validity m) (sequence m) (ttl m) (pubKey m) (signatureV2 m) v)) ].
Definition IpnsEntry_from_reader (bs : list byte) : outcome (result IpnsEntry PbError) :=
  read_fields IpnsEntry_fields bs IpnsEntry_default.

Definition IpnsEntry_get_size (e : IpnsEntry) : Z :=
  size_unless [] (λ b, sizeof_len (vec_len b)) (value e)
  + size_unless [] (λ b, sizeof_len (vec_len b)) (signatureV1 e)
  + size_unless EOL (λ v, sizeof_varint (ValidityType_into v)) (validityType e)
  + size_unless [] (λ b, sizeof_len (vec_len b)) (validity e)
  + size_unless 0 (λ v, sizeof_varint v) (sequence e)
  + size_unless 0 (λ v, sizeof_varint v) (ttl e)
  + size_unless [] (λ b, sizeof_len (vec_len b)) (pubKey e)
  + size_unless [] (λ b, sizeof_len (vec_len b)) (signatureV2 e)
  + size_unless [] (λ b, sizeof_len (vec_len b)) (data e).

Definition IpnsEntry_write (e : IpnsEntry) : list byte :=
  write_unless [] 10 (λ b, wr bytes (id b)) (value e)
  ++ write_unless [] 18 (λ b, wr bytes (id b)) (signatureV1 e)
  ++ write_unless EOL 24 (λ v, wr int32 (ValidityType_into v)) (validityType e)
  ++ write_unless [] 34 (λ b, wr bytes (id b)) (validity e)
  ++ write_unless 0 40 (λ v, wr uint64 (id v)) (sequence e)
  ++ write_unless 0 48 (λ v, wr uint64 (id v)) (ttl e)
  ++ write_unless [] 58 (λ b, wr bytes (id b)) (pubKey e)
  ++ write_unless [] 66 (λ b, wr bytes (id b)) (signatureV2 e)
  ++ write_unless [] 74 (λ b, wr bytes (id b)) (data e).

Definition short (b : list byte) : Prop := vec_len b < pb_limit.
Definition u64 (v : Z) : Prop := 0 ≤ v < 2 ^ 64.
Definition IpnsEntry_range (e : IpnsEntry) : Prop :=
  short (value e) ∧ short (signatureV1 e) ∧ short (validity e) ∧ u64 (sequence e) ∧ u64 (ttl e) ∧
  short (pubKey e) ∧ short (signatureV2 e) ∧ short (data e).

Lemma IpnsEntry_good : Forall (λ p, good p.2) IpnsEntry_fields.
Proof. repeat constructor; apply good_on. Qed.
Lemma IpnsEntry_read_done bs : is_done (IpnsEntry_from_reader bs) = true.
Proof. apply read_fields_done, IpnsEntry_good. Qed.

Ltac read_ipns :=
  erewrite (read_unless _ _ _ _ _ _ _ _ _ IpnsEntry_good); [|lia| |reflexivity| ]; simpl;
  [|done || (unfold u64, id in *; simpl; lia)|try (by intros ->)].
Lemma IpnsEntry_read_write e : IpnsEntry_range e → IpnsEntry_from_reader (IpnsEntry_write e) = Done (Ok e).
Proof.
  intros (H1 & H2 & H3 & H4 & H5 & H6 & H7 & H8). unfold IpnsEntry_from_reader, IpnsEntry_write.
  rewrite <-(app_nil_r (write_unless [] 74 _ _)). do 2 read_ipns.
  destruct (validityType e) eqn:E. unfold write_unless at 1. rewrite bool_decide_eq_true_2 by done. cbn [app].
  do 6 read_ipns. rewrite read_fields_nil. destruct e. simpl in *. by rewrite E.
Qed.

Lemma IpnsEntry_size e : IpnsEntry_range e → vec_len (IpnsEntry_write e) = IpnsEntry_get_size e.
Proof.
  intros (H1 & H2 & H3 & H4 & H5 & H6 & H7 & H8). unfold IpnsEntry_write, IpnsEntry_get_size. rewrite !vec_len_app.
  rewrite !(unless_size [] _ _ (λ b, sizeof_len (vec_len b))) by (try lia; by apply bytes_size).
  rewrite !(unless_size 0 _ _ (λ v, sizeof_varint v)) by (try lia; by apply uint64_size).
  rewrite (unless_size EOL 24 _ (λ v, sizeof_varint (ValidityType_into v))); [lia|lia|].
  rewrite int32_size by (destruct (validityType e); simpl; lia). by destruct (validityType e).
Qed.
End ipns_pb.
End IpnsPb.

(** ** Records: packages/rust-ipns/src/lib.rs *)
Module IpnsRecord.
Import IpnsPb.
Section record.
  Context `{ks : Keys} {cb : DagCbor} {qp : QuickProtobuf}.

Record Record := mkRecord {
  data : list byte;
  value : list byte;
  validity_type : ValidityType;
  validity : list byte;
  sequence : Z;
  ttl : Z;
  public_key : list byte;
  signature_v1 : list byte;
  signature_v2 : list byte;
}.
Record Data := mkData {
  d_value : list byte;
  d_validity_type : ValidityType;
  d_validity : list byte;
  d_sequence : Z;
  d_ttl : Z;
}.

Inductive Error :=
  | TooLong
  | BadEntry (e : PbError)
  | BadKey (e : KeyError)
  | BadCbor (e : CborError)
  | BadDocument
  | Mismatch
  | EmptySignature
  | EmptyData
  | RsaUnsupported
  | BadSignature
  | BadCid (e : TextError).

Definition from_entry (e : IpnsEntry) : Record :=
  mkRecord (IpnsPb.data e) (IpnsPb.value e) (validityType e) (IpnsPb.validity e) (IpnsPb.sequence e) (IpnsPb.ttl e)
    (pubKey e) (signatureV1 e) (signatureV2 e).
Definition into_entry (r : Record) : IpnsEntry :=
  mkEntry (value r) (signature_v1 r) EOL (validity r) (sequence r) (ttl r) (public_key r) (signature_v2 r) (data r).

(** [ipld!] with the keys in the order of a [BTreeMap]. *)
Definition document (value validity : list byte) (vt : ValidityType) (seq ttl : Z) : DagResolve.Ipld :=
  DagResolve.Map
    [("Sequence", DagResolve.Integer seq); ("TTL", DagResolve.Integer ttl); ("Validity", DagResolve.Bytes validity);
     ("ValidityType", DagResolve.Integer (ValidityType_into vt)); ("Value", DagResolve.Bytes value)].

Definition signature_v1_construct (value validity : list byte) : list byte := value ++ validity ++ str_bytes "EOL".
Definition signature_v2_construct (data : list byte) : list byte := str_bytes "ipns-signature:" ++ data.

(** [eol] is the text of the time at which the record ends.  The field of the public
    key gets the encoding of the key pair. *)
Definition new (k : Keypair) (value eol : list byte) (seq ttl : Z) : result Record Error :=
  let? signature_v1 := map_err BadKey (sign k (signature_v1_construct value eol)) in
  let? data := map_err BadCbor (cbor_encode (document value eol EOL seq ttl)) in
  let? signature_v2 := map_err BadKey (sign k (signature_v2_construct data)) in
  let? public_key := match key_type (public k) with RSA => map_err BadKey (keypair_to_protobuf k) | _ => Ok [] end in
  Ok (mkRecord data value EOL eol seq ttl public_key signature_v1 signature_v2).

Definition decode (bs : list byte) : outcome (result Record Error) :=
  if bool_decide (10 * 1024 < vec_len bs) then mret (Err TooLong)
  else
    e ← IpnsEntry_from_reader bs;
    mret (let? e := map_err BadEntry e in Ok (from_entry e)).
Definition encode (r : Record) : list byte := IpnsEntry_write (into_entry r).

(** [Ipld::get] of a map. *)
Fixpoint assoc (key : string) (m : list (string * DagResolve.Ipld)) : option DagResolve.Ipld :=
  match m with [] => None | (k, v) :: m => if bool_decide (k = key) then Some v else assoc key m end.
Definition field (key : string) (i : DagResolve.Ipld) : option DagResolve.Ipld :=
  match i with DagResolve.Map m => assoc key m | _ => None end.
Definition bytes_field (key : string) (i : DagResolve.Ipld) : result (list byte) Error :=
  match field key i with Some (DagResolve.Bytes b) => Ok b | _ => Err BadDocument end.
(** [min(int, i64::MAX as i128) as u64]. *)
Definition clamp (n : Z) : Z := Z.min n (2 ^ 63 - 1) mod 2 ^ 64.
Definition integer_field (key : string) (i : DagResolve.Ipld) : result Z Error :=
  match field key i with Some (DagResolve.Integer n) => Ok (clamp n) | _ => Err BadDocument end.

Definition get_data (r : Record) : result Data Error :=
  let? document := map_err BadCbor (cbor_decode (data r)) in
  let? v := bytes_field "Value" document in
  let? vt := match field "ValidityType" document with Some (DagResolve.Integer 0) => Ok EOL | _ => Err BadDocument end in
  let? val := bytes_field "Validity" document in
  let? t := integer_field "TTL" document in
  let? s := integer_field "Sequence" document in
  if bool_decide (v ≠ value r) || bool_decide (val ≠ validity r) || bool_decide (vt ≠ validity_type r)
     || bool_decide (s ≠ sequence r) || bool_decide (t ≠ ttl r)
  then Err Mismatch
  else Ok (mkData v vt val s t).

Definition get_value (r : Record) : result Cid Error :=
  map_err BadCid (cid_from_str (Utf8Lossy.from_utf8_lossy (value r))).

Definition verify (r : Record) (p : PeerId) : result unit Error :=
  if bool_decide (signature_v2 r = []) && bool_decide (signature_v1 r = []) then Err EmptySignature
  else if bool_decide (data r = []) then Err EmptyData
  else
    let public_key := if bool_decide (public_key r = []) then peer_digest p else public_key r in
    let? pk := map_err BadKey (public_from_protobuf public_key) in
    if bool_decide (key_type pk = RSA) then Err RsaUnsupported
    else
      let? _ := get_data r in
      if verifies_signature pk (signature_v2_construct (data r)) (signature_v2 r) then Ok tt else Err BadSignature.
End record.
End IpnsRecord.

(** ** Keys by name: src/keystore.rs *)
Module Keystore.
Section keystore.
  Context `{ks : Keys}.
Notation Storage := (gmap string (list byte)).
Implicit Types m : Storage.

Inductive Error := KeyExists | NoSuchKey | NameExists | Unimplemented | Encoding (e : KeyError).

(** [MemoryKeyStorage]. *)
Definition set (name : string) (key : list byte) m : result unit Error * Storage :=
  match m !! name with
  | Some old => if bool_decide (old ≠ []) then (Err KeyExists, m) else (Ok tt, <[name := key]> m)
  | None => (Ok tt, <[name := key]> m)
  end.
Definition get (name : string) m : result (list byte) Error := ok_or NoSuchKey (m !! name).
Definition remove (name : string) m : result unit Error * Storage :=
  (match m !! name with Some _ => Ok tt | None => Err NoSuchKey end, delete name m).
Definition contains (name : string) m : bool := bool_decide (is_Some (m !! name)).
Definition rename (name new_name : string) m : result unit Error * Storage :=
  if bool_decide (is_Some (m !! new_name)) then (Err NameExists, m)
  else match m !! name with
       | None => (Err NoSuchKey, m)
       | Some key => (Ok tt, <[new_name := key]> (delete name m))
       end.

(** [Keystore].  The text of a peer identifier is its base 58. *)
Definition name_or_peer (name : option string) (pk : PublicKey) : string := default (peer_to_base58 (to_peer_id pk)) name.
Definition import_key (k : Keypair) (name : option string) m : result PublicKey Error * Storage :=
  match keypair_to_protobuf k with
  | Err e => (Err (Encoding e), m)
  | Ok bytes =>
      let '(r, m) := set (name_or_peer name (public k)) bytes m in
      (let? _ := r in Ok (public k), m)
  end.
(** [generated] is what [Keypair::generate_ed25519] gives. *)
Definition generate_key (name : option string) (kt : KeyType) (generated : Keypair) m : result PublicKey Error * Storage :=
  match kt with
  | Ed25519 => import_key generated name m
  | _ => (Err Unimplemented, m)
  end.
Definition get_keypair (name : string) m : result Keypair Error :=
  let? key := get name m in map_err Encoding (keypair_from_protobuf key).
End keystore.
End Keystore.

(** ** Keys of the DHT: src/lib.rs *)
Module DhtKey.
Import Slashes.

(** [str::trim], on the bytes of the text: the characters with the property
    White_Space, one to three bytes long. *)
Definition is_white (c : list byte) : bool :=
  match byte_to_Z <$> c with
  | [b] => bool_decide (9 ≤ b ≤ 13) || bool_decide (b = 32)
  | [a; b] => bool_decide (a = 194) && (bool_decide (b = 133) || bool_decide (b = 160))
  | [a; b; c] =>
      bool_decide (a = 225 ∧ b = 154 ∧ c = 128)
      || bool_decide (a = 226 ∧ b = 128 ∧ (128 ≤ c ≤ 138 ∨ c = 168 ∨ c = 169 ∨ c = 175))
      || bool_decide (a = 226 ∧ b = 129 ∧ c = 159)
      || bool_decide (a = 227 ∧ b = 128 ∧ c = 128)
  | _ => false
  end.
(** The number of bytes of the white space that [l] starts with; [flip] is the
    identity at the start of the text and [rev] at its end. *)
Definition white_prefix (flip : list byte → list byte) (l : list byte) : nat :=
  if is_white (flip (take 1 l)) then 1
  else if is_white (flip (take 2 l)) then 2
  else if is_white (flip (take 3 l)) then 3
  else 0.
Fixpoint trim_with (flip : list byte → list byte) (fuel : nat) (l : list byte) : list byte :=
  match fuel with
  | O => l
  | S fuel => match white_prefix flip l with O => l | n => trim_with flip fuel (drop n l) end
  end.
Definition trim_bytes (l : list byte) : list byte :=
  let l := trim_with id (length l) l in rev (trim_with (@rev byte) (length l) (rev l)).
Definition trim (s : string) : string := str_of_bytes (trim_bytes (str_bytes s)).

Section keys.
  Context `{ks : Keys}.
Inductive Error := EmptyKey | NotTwoParts | EmptyValue | BadBase (e : BaseError) | InvalidPrefix.

Definition split_dht_key (key : string) : result (string * string) Error :=
  if bool_decide (key = EmptyString) then Err EmptyKey
  else match filter (λ s, trim s ≠ EmptyString) (split key) with
       | [a; b] => Ok (a, b)
       | _ => Err NotTwoParts
       end.

(** [data[0]], [data[1]] and [data[2..]] panic when the data is shorter. *)
Definition ipns_to_dht_key (key : string) : outcome (result (list byte) Error) :=
  let key := trim key in
  if bool_decide (key = EmptyString) then mret (Err EmptyKey)
  else
    let key := match key with
               | String a _ => if bool_decide (a = Ascii.ascii_of_nat 49) || bool_decide (a = Ascii.ascii_of_nat 81)
                               then String (Ascii.ascii_of_nat 122) key else key
               | EmptyString => key
               end in
    match multibase_decode key with
    | Err e => mret (Err (BadBase e))
    | Ok [] => Panic
    | Ok (b0 :: data) =>
        let data0 := b0 :: data in
        data1 ← (if bool_decide (b0 ≠ x01) then
                   match data with
                   | [] => Panic
                   | b1 :: _ => mret (if bool_decide (b1 ≠ x72) then x01 :: x72 :: data0 else data0)
                   end
                 else mret data0);
        if bool_decide (length data1 < 2)%nat then Panic
        else mret (Ok (str_bytes "/ipns/" ++ drop 2 data1))
    end.

Definition to_dht_key (prefix : string) (func : string → outcome (result (list byte) Error)) (key : string) :
    outcome (result (list byte) Error) :=
  match split_dht_key (trim key) with
  | Err e => mret (Err e)
  | Ok (key, val) =>
      if bool_decide (key = EmptyString) then mret (Err EmptyKey)
      else if bool_decide (val = EmptyString) then mret (Err EmptyValue)
      else if bool_decide (key = prefix) then func val
      else mret (Err InvalidPrefix)
  end.

Notation Validators := (gmap string (string → outcome (result (list byte) Error))).
Definition default_record_key_validator (v : Validators) : Validators := <["ipns" := to_dht_key "ipns" ipns_to_dht_key]> v.

(** The key with which [dht_get] and [dht_put] go to the DHT. *)
Definition dht_key (v : Validators) (key : list byte) : outcome (result (list byte) Error) :=
  let key_str := Utf8Lossy.from_utf8_lossy key in
  match split_dht_key key_str with
  | Ok (prefix, _) => match v !! prefix with Some key_fn => key_fn key_str | None => mret (Ok key) end
  | Err _ => mret (Ok key)
  end.
End keys.
End DhtKey.

(** ** Names: src/ipns/mod.rs, src/ipns/dnslink.rs *)
Module Ipns.
Import Path IpnsRecord.
Section names.
  Context `{ks : Keys} {cb : DagCbor} {qp : QuickProtobuf}.
  Context {DhtError DnsError : Type}.
Notation DataStore := (gmap (list byte) (list byte)).
Notation Validators := (gmap string (string → outcome (result (list byte) DhtKey.Error))).

#[export] Instance PathRoot_eq_dec : EqDecision PathRoot.
Proof. solve_decision. Defined.
#[export] Instance IpfsPath_eq_dec : EqDecision IpfsPath.
Proof. solve_decision. Defined.

Inductive NameError :=
  | RecordError (e : IpnsRecord.Error)
  | PathError (e : Path.Error)
  | KeystoreError (e : Keystore.Error)
  | BadDhtKey (e : DhtKey.Error)
  | DhtFailed (e : DhtError)
  | NoRecords
  | Unresolved (domain : string)
  | ResolverFailed (e : DnsError)
  | NotBuilt.

(** The key under which a name is kept, here and in the DHT. *)
Definition name_path (p : PeerId) : string := "/ipns/" +:+ name_text p.
Definition name_key (p : PeerId) : list byte := str_bytes (name_path p).

(** *** DNS links *)
Definition prefix_dns : string := "_dnslink.".
Definition dnslink_txt : list byte := str_bytes "dnslink=".

Fixpoint starts_with {A} `{EqDecision A} (pre l : list A) : bool :=
  match pre, l with
  | [], _ => true
  | x :: pre, y :: l => bool_decide (x = y) && starts_with pre l
  | _, _ => false
  end.
Definition searched (domain : string) : list string :=
  domain :: (if starts_with (str_bytes prefix_dns) (str_bytes domain) then [] else [prefix_dns +:+ domain]).
(** The texts of a TXT record that are links, without their prefix. *)
Definition suffixes (res : list (list (list byte))) : list (list byte) :=
  omap (λ txt, if starts_with dnslink_txt txt then Some (drop (length dnslink_txt) txt) else None) (concat res).
Definition parse_link (suffix : list byte) : option IpfsPath :=
  if is_utf8 suffix then match from_str (str_of_bytes suffix) with Ok p => Some p | Err _ => None end else None.
Fixpoint lookup_domains (txt_lookup : string → result (list (list (list byte))) DnsError) (domains : list string) : option IpfsPath :=
  match domains with
  | [] => None
  | domain :: domains =>
      match txt_lookup domain with
      | Err _ => lookup_domains txt_lookup domains
      | Ok res =>
          match suffixes res with
          | suffix :: _ =>
              match parse_link suffix with Some x => Some x | None => lookup_domains txt_lookup domains end
          | [] => lookup_domains txt_lookup domains
          end
      end
  end.
(** [resolver]: creating it can fail. *)
Definition dnslink_resolve (resolver : result (string → result (list (list (list byte))) DnsError) DnsError) (domain : string) :
    result IpfsPath NameError :=
  let? txt_lookup := map_err ResolverFailed resolver in
  ok_or (Unresolved domain) (lookup_domains txt_lookup (searched domain)).

(** *** Resolving *)
Definition record_path (bs : list byte) (p : PeerId) : outcome (result IpfsPath NameError) :=
  d ← decode bs;
  mret (let? r := map_err RecordError d in
        let? _ := map_err RecordError (verify r p) in
        let? data := map_err RecordError (get_data r) in
        map_err PathError (from_str (Utf8Lossy.from_utf8_lossy (d_value data)))).

(** A record of the DHT: key and value.  The slice panics for a short key. *)
Definition dht_record (rec : list byte * list byte) : outcome (option Record) :=
  if bool_decide (length rec.1 < 6)%nat then Panic
  else
    d ← decode rec.2;
    mret (match d, peer_from_bytes (drop 6 rec.1) with
          | Ok r, Some p => match verify r p with Ok _ => Some r | Err _ => None end
          | _, _ => None
          end).
Fixpoint dht_records (l : list (list byte * list byte)) : outcome (list Record) :=
  match l with
  | [] => mret []
  | rec :: l =>
      r ← dht_record rec;
      rs ← dht_records l;
      mret (match r with Some r => r :: rs | None => rs end)
  end.
(** [sort_by_key], which is stable. *)
Fixpoint insert_by_sequence (r : Record) (l : list Record) : list Record :=
  match l with
  | [] => [r]
  | x :: l => if bool_decide (sequence r < sequence x) then r :: x :: l else x :: insert_by_sequence r l
  end.
Definition sort_by_sequence (l : list Record) : list Record := foldl (λ acc r, insert_by_sequence r acc) [] l.

(** [dht]: the records that come before the time is up, [None] when it is up before
    the stream ends. *)
Definition resolve_dht (dht : result (option (list (list byte * list byte))) NameError) : outcome (result IpfsPath NameError) :=
  match dht with
  | Err e => mret (Err e)
  | Ok None => mret (Err NoRecords)
  | Ok (Some l) =>
      records ← dht_records l;
      mret (match last (sort_by_sequence records) with
            | None => Err NoRecords
            | Some r =>
                let? data := map_err RecordError (get_data r) in
                map_err PathError (from_str (Utf8Lossy.from_utf8_lossy (d_value data)))
            end)
  end.

Definition dht_get validators (kad : list byte → result (option (list (list byte * list byte))) DhtError) (key : list byte) :
    outcome (result (option (list (list byte * list byte))) NameError) :=
  k ← DhtKey.dht_key validators key;
  mret (let? k := map_err BadDhtKey k in map_err DhtFailed (kad k)).

(** [experimental] is the feature of the crate. *)
Definition resolve (experimental : bool)
    (resolver : result (string → result (list (list (list byte))) DnsError) DnsError)
    (validators : Validators) (kad : list byte → result (option (list (list byte * list byte))) DhtError) (store : DataStore) (path : IpfsPath) : outcome (result IpfsPath NameError) :=
  match root path with
  | Ipld _ => mret (Ok path)
  | Ipns p =>
      if experimental then
        local ← match store !! name_key p with Some bs => record_path bs p | None => mret (Err NoRecords) end;
        match local with
        | Ok path => mret (Ok path)
        | Err _ => dht ← dht_get validators kad (name_key p); resolve_dht dht
        end
      else mret (Err NotBuilt)
  | Dns domain => mret (dnslink_resolve resolver domain)
  end.

(** [Ipfs::resolve_ipns] of src/lib.rs: follows names until a path comes again. *)
Fixpoint follow (fuel : nat) (step : IpfsPath → outcome (result IpfsPath NameError)) (seen : list IpfsPath)
    (resolved : result IpfsPath NameError) : outcome (result IpfsPath NameError) :=
  match fuel with
  | O => OutOfFuel
  | S fuel =>
      match resolved with
      | Err e => mret (Err e)
      | Ok res => if bool_decide (res ∈ seen) then mret (Ok res) else r ← step res; follow fuel step (res :: seen) r
      end
  end.
Definition resolve_ipns (fuel : nat) (step : IpfsPath → outcome (result IpfsPath NameError)) (path : IpfsPath) (recursive : bool) :
    outcome (result IpfsPath NameError) :=
  r ← step path;
  if recursive then follow fuel step [] r else mret r.

(** *** Publishing *)
Inductive IpnsOption := Local | DHT.

(** What the record in the store says: its path and sequence. *)
Definition current (bs : list byte) (p : PeerId) : outcome (result (IpfsPath * Z) NameError) :=
  d ← decode bs;
  mret (let? r := map_err RecordError d in
        let? _ := map_err RecordError (verify r p) in
        let? data := map_err RecordError (get_data r) in
        let? path := map_err PathError (from_str (Utf8Lossy.from_utf8_lossy (d_value data))) in
        Ok (path, sequence r)).

Definition dht_put (validators : Validators) (kad_put : list byte → list byte → result unit DhtError) (key value : list byte) :
    outcome (result unit NameError) :=
  k ← DhtKey.dht_key validators key;
  mret (let? k := map_err BadDhtKey k in map_err DhtFailed (kad_put k value)).

Definition publish_record (k : Keypair) (path : IpfsPath) (eol : list byte) (seq : Z) (option : IpnsOption)
    (validators : Validators) (kad_put : list byte → list byte → result unit DhtError) (store : DataStore) :
    outcome (result IpfsPath NameError * DataStore) :=
  let p := to_peer_id (public k) in
  match new k (str_bytes (to_string path)) eol seq 60000 with
  | Err e => mret (Err (RecordError e), store)
  | Ok r =>
      let store := <[name_key p := encode r]> store in
      put ← match option with Local => mret (Ok tt) | DHT => dht_put validators kad_put (name_key p) (encode r) end;
      mret (match put with
            | Err e => (Err e, store)
            | Ok _ => (map_err PathError (from_str (name_path p)), store)
            end)
  end.
Definition publish (own : Keypair) (keystore : gmap string (list byte)) (key : option string) (path : IpfsPath) (eol : list byte)
    (option : IpnsOption) (validators : Validators) (kad_put : list byte → list byte → result unit DhtError) (store : DataStore) :
    outcome (result IpfsPath NameError * DataStore) :=
  match match key with Some name => map_err KeystoreError (Keystore.get_keypair name keystore) | None => Ok own end with
  | Err e => mret (Err e, store)
  | Ok k =>
      let p := to_peer_id (public k) in
      match store !! name_key p with
      | None => publish_record k path eol 0 option validators kad_put store
      | Some bs =>
          c ← current bs p;
          match c with
          | Err e => mret (Err e, store)
          | Ok (ipfs_path, seq) =>
              if bool_decide (ipfs_path = path) then mret (map_err PathError (from_str (name_path p)), store)
              else
                seq ← u64_add seq 1;
                publish_record k path eol seq option validators kad_put store
          end
      end
  end.
End names.
End Ipns.
