(* ===== verification/IpnsProofs.v ===== *)
(** * Lemmas on names: records, keys of the DHT, publishing and resolving *)
From stdpp Require Import base gmap list sorting strings.
From Stdlib Require Import Strings.Byte.
From S2P Require Import Prelude Protobuf UnixFsPb Path DagResolve Repo Ipns.
Local Open Scope Z_scope.

Module IpnsRecordProofs.
Import IpnsPb IpnsRecord.
Section record.
  Context `{ks : Keys} {cb : DagCbor} {qp : QuickProtobuf}.

Definition record_range (r : Record) : Prop := IpnsEntry_range (into_entry r).

Lemma from_into_entry r : from_entry (into_entry r) = r.
Proof. by destruct r as [? ? [] ? ? ? ? ? ?]. Qed.
Lemma decode_done bs : ∃ d, decode bs = Done d.
Proof.
  unfold decode. case_bool_decide; [by eexists|]. rewrite (run_or_Done (Ok IpnsEntry_default) _ (IpnsEntry_read_done bs)).
  cbn [mbind outcome_bind]. by eexists.
Qed.
Lemma decode_encode r : record_range r →
  decode (encode r) = Done (if bool_decide (10 * 1024 < vec_len (encode r)) then Err TooLong else Ok r).
Proof.
  intros Hr. unfold decode. case_bool_decide; [done|]. unfold encode. rewrite IpnsEntry_read_write by done.
  cbn [mbind outcome_bind map_err result_bind]. by rewrite from_into_entry.
Qed.

(** ** What a record says *)
Lemma clamp_small n : 0 ≤ n < 2 ^ 63 → clamp n = n.
Proof. intros Hn. unfold clamp. rewrite Z.min_l by lia. apply Z.mod_small. lia. Qed.
Lemma clamp_large n : 2 ^ 63 ≤ n → clamp n = 2 ^ 63 - 1.
Proof. intros Hn. unfold clamp. rewrite Z.min_r by lia. apply Z.mod_small. lia. Qed.

Lemma document_roundtrip value eol vt seq ttl : u64 seq → u64 ttl →
  ∃ b, cbor_encode (document value eol vt seq ttl) = Ok b ∧ b ≠ [] ∧ cbor_decode b = Ok (document value eol vt seq ttl).
Proof.
  intros Hs Ht. apply cbor_roundtrip.
  - destruct vt. repeat constructor; simpl; unfold u64 in *; lia.
  - simpl. repeat constructor.
Qed.

Definition says (r : Record) (value eol : list byte) (seq ttl : Z) : Prop :=
  cbor_decode (data r) = Ok (document value eol EOL seq ttl).
Lemma get_data_says r value eol seq ttl : says r value eol seq ttl →
  get_data r = (if bool_decide (value = IpnsRecord.value r ∧ eol = validity r ∧ clamp seq = sequence r ∧ clamp ttl = IpnsRecord.ttl r)
                then Ok (mkData value EOL eol (clamp seq) (clamp ttl)) else Err Mismatch).
Proof.
  intros Hd. unfold get_data. rewrite Hd. cbn [map_err result_bind]. unfold bytes_field, integer_field, field, document. simpl.
  destruct (validity_type r).
  repeat case_bool_decide; simpl; try done; exfalso; naive_solver.
Qed.

Lemma get_data_inv r d : get_data r = Ok d → d = mkData (value r) (validity_type r) (validity r) (sequence r) (ttl r).
Proof.
  unfold get_data. destruct (cbor_decode _) as [doc|]; [|done]. cbn [map_err result_bind].
  destruct (bytes_field "Value" doc) as [v|]; [|done]. cbn [result_bind].
  destruct (match field "ValidityType" doc with Some (DagResolve.Integer 0) => Ok EOL | _ => Err BadDocument end) as [vt|]; [|done].
  cbn [result_bind]. destruct (bytes_field "Validity" doc) as [val|]; [|done]. cbn [result_bind].
  destruct (integer_field "TTL" doc) as [t|]; [|done]. cbn [result_bind]. destruct (integer_field "Sequence" doc) as [s|]; [|done].
  cbn [result_bind]. destruct (_ || _) eqn:E; [done|]. intros [= <-].
  rewrite !orb_false_iff, !bool_decide_eq_false in E. destruct E as [[[[E1 E2] E3] E4] E5]. apply dec_stable in E1, E2, E3, E4, E5. by subst.
Qed.

(** What a verified record says is signed, by the key that the record has or else by
    the key that the peer is. *)
Definition signer (r : Record) (p : PeerId) : result PublicKey KeyError :=
  public_from_protobuf (if bool_decide (public_key r = []) then peer_digest p else public_key r).
Lemma verify_signed r p : verify r p = Ok tt →
  ∃ pk d, signer r p = Ok pk ∧ key_type pk ≠ RSA ∧ get_data r = Ok d ∧ d_value d = value r ∧
    verifies_signature pk (signature_v2_construct (data r)) (signature_v2 r) = true.
Proof.
  unfold verify. destruct (_ && _); [done|]. case_bool_decide; [done|]. fold (signer r p). destruct (signer r p) as [pk|]; [|done].
  cbn [map_err result_bind]. case_bool_decide as Hk; [done|]. destruct (get_data r) as [d|] eqn:E; [|done]. cbn [result_bind].
  destruct (verifies_signature _ _ _) eqn:Hv; [|done]. intros _. exists pk, d. split_and!; try done.
  by rewrite (get_data_inv r d E).
Qed.

(** ** A record that a key makes *)
Definition made (k : Keypair) (r : Record) : Prop :=
  public_key r = [] ∧ data r ≠ [] ∧ signature_v2 r ≠ [] ∧
  verifies_signature (public k) (signature_v2_construct (data r)) (signature_v2 r) = true.
Lemma new_ok k value eol seq ttl : key_type (public k) = Ed25519 → u64 seq → u64 ttl →
  ∃ r, new k value eol seq ttl = Ok r ∧ made k r ∧ says r value eol seq ttl ∧
    IpnsRecord.value r = value ∧ validity r = eol ∧ sequence r = seq ∧ IpnsRecord.ttl r = ttl.
Proof.
  intros Hk Hs Ht. unfold new. destruct (sign_ok k (signature_v1_construct value eol) Hk) as (s1 & -> & _ & _). cbn [map_err result_bind].
  destruct (document_roundtrip value eol EOL seq ttl Hs Ht) as (b & -> & Hb & Hd). cbn [map_err result_bind].
  destruct (sign_ok k (signature_v2_construct b) Hk) as (s2 & -> & Hn & Hv). cbn [map_err result_bind]. rewrite Hk. cbn [result_bind].
  by eexists.
Qed.

Lemma verify_made k r : key_type (public k) = Ed25519 → made k r →
  verify r (to_peer_id (public k)) = let? _ := get_data r in Ok tt.
Proof.
  intros Hk (Hp & Hd & Hs & Hv). unfold verify. rewrite (bool_decide_eq_false_2 (signature_v2 r = [])) by done. cbn [andb].
  rewrite (bool_decide_eq_false_2 (data r = [])) by done. rewrite (bool_decide_eq_true_2 (public_key r = [])) by done.
  rewrite peer_digest_ed25519 by done. destruct (public_from_to (public k)) as [_ ->]. cbn [map_err result_bind].
  rewrite (bool_decide_eq_false_2 (key_type (public k) = RSA)) by by rewrite Hk. rewrite Hv. done.
Qed.

(** A record verifies for its key unless a number does not fit 63 bits. *)
Lemma made_says k r value eol seq ttl : key_type (public k) = Ed25519 → made k r → says r value eol seq ttl →
  u64 seq → u64 ttl → IpnsRecord.value r = value → validity r = eol → sequence r = seq → IpnsRecord.ttl r = ttl →
  (seq < 2 ^ 63 → ttl < 2 ^ 63 → verify r (to_peer_id (public k)) = Ok tt ∧ get_data r = Ok (mkData value EOL eol seq ttl)) ∧
  (2 ^ 63 ≤ seq ∨ 2 ^ 63 ≤ ttl → verify r (to_peer_id (public k)) = Err Mismatch).
Proof.
  intros Hk Hm Hsay Hs Ht E1 E2 E3 E4. rewrite verify_made, (get_data_says r value eol seq ttl) by done. unfold u64 in *. split.
  - intros. rewrite !clamp_small by lia. rewrite bool_decide_eq_true_2 by done. done.
  - intros Hl. rewrite bool_decide_eq_false_2; [done|]. intros (_ & _ & C1 & C2).
    destruct Hl as [Hl|Hl]; [rewrite (clamp_large seq) in C1 by lia|rewrite (clamp_large ttl) in C2 by lia]; lia.
Qed.
End record.
End IpnsRecordProofs.

(** ** Keys of the DHT *)
Module DhtKeyProofs.
Import Slashes DhtKey.
Definition graphic (b : byte) : Prop := 33 ≤ byte_to_Z b < 128.

Lemma white_graphic c : Forall graphic c → is_white c = false.
Proof.
  intros Hc. unfold is_white, graphic in *. destruct c as [|x [|y [|z [|w c]]]]; try done; simpl; decompose_Forall_hyps;
    rewrite ?orb_false_iff, ?andb_false_iff, ?bool_decide_eq_false; lia.
Qed.
Lemma white_prefix_graphic flip l : (∀ c, flip c ≡ₚ c) → Forall graphic l → white_prefix flip l = O.
Proof.
  intros Hf Hl. assert (∀ n, is_white (flip (take n l)) = false) as H.
  { intros n. apply white_graphic. rewrite Hf. by apply Forall_take. }
  unfold white_prefix. by rewrite !H.
Qed.
Lemma trim_with_graphic flip n l : (∀ c, flip c ≡ₚ c) → Forall graphic l → trim_with flip n l = l.
Proof. intros Hf Hl. destruct n; [done|]. cbn [trim_with]. by rewrite white_prefix_graphic. Qed.
Lemma trim_graphic s : Forall graphic (str_bytes s) → trim s = s.
Proof.
  intros Hs. unfold trim, trim_bytes. rewrite (trim_with_graphic id) by done. rewrite trim_with_graphic.
  - rewrite rev_involutive. apply str_of_bytes_str_bytes.
  - intros c. symmetry. apply Permutation_rev.
  - by rewrite <-Permutation_rev.
Qed.

Lemma str_bytes_app s t : str_bytes (s +:+ t) = str_bytes s ++ str_bytes t.
Proof. induction s as [|a s IH]; [done|]. change (Ascii.byte_of_ascii a :: str_bytes (s +:+ t) = Ascii.byte_of_ascii a :: str_bytes s ++ str_bytes t). by rewrite IH. Qed.
Lemma graphic_utf8 l : Forall graphic l → is_utf8 l = true.
Proof. induction 1 as [|b l Hb _ IH]; [done|]. cbn [is_utf8]. rewrite bool_decide_eq_true_2 by (unfold graphic in Hb; lia). done. Qed.

Section names.
  Context `{ks : Keys}.
Lemma name_graphic p : Forall graphic (str_bytes (name_text p)).
Proof. eapply Forall_impl; [apply name_chars|]. intros b. unfold graphic. lia. Qed.
Lemma no_slash_bytes s : Forall (λ b, byte_to_Z b ≠ 47) (str_bytes s) → no_slash s.
Proof.
  induction s as [|a s IH]; [done|]. intros [Ha Hs]%Forall_cons. split; [|by apply IH]. intros ->. by apply Ha.
Qed.
Lemma name_no_slash p : no_slash (name_text p).
Proof. apply no_slash_bytes. eapply Forall_impl; [apply name_chars|]. simpl. lia. Qed.
Lemma name_ne p : name_text p ≠ EmptyString.
Proof. destruct (name_start p) as [s ->]. done. Qed.

Lemma name_path_graphic p : Forall graphic (str_bytes (Ipns.name_path p)).
Proof.
  unfold Ipns.name_path. rewrite str_bytes_app. apply Forall_app. split; [|apply name_graphic].
  repeat constructor; unfold graphic; vm_compute; done.
Qed.
Lemma name_path_split p : split (Ipns.name_path p) = [EmptyString; "ipns"; name_text p].
Proof.
  unfold Ipns.name_path. change ("/ipns/" +:+ name_text p) with (EmptyString +:+ String slash ("ipns" +:+ String slash (name_text p))).
  rewrite !split_app by done. by rewrite split_single by apply name_no_slash.
Qed.
Lemma split_name_path p : split_dht_key (Ipns.name_path p) = Ok ("ipns", name_text p).
Proof.
  unfold split_dht_key. rewrite bool_decide_eq_false_2 by done. rewrite name_path_split.
  rewrite (filter_cons_False _ EmptyString) by (intros H; by apply H). rewrite (filter_cons_True _ "ipns") by by vm_compute.
  rewrite filter_cons_True; [by rewrite filter_nil|]. rewrite trim_graphic by apply name_graphic. apply name_ne.
Qed.

Lemma ipns_to_dht_key_name p : ipns_to_dht_key (name_text p) = Done (Ok (str_bytes "/ipns/" ++ peer_to_bytes p)).
Proof.
  unfold ipns_to_dht_key. rewrite trim_graphic by apply name_graphic. rewrite bool_decide_eq_false_2 by apply name_ne.
  destruct (name_start p) as [s E]. pose proof (name_decode p) as Hd. rewrite E in *.
  change (bool_decide (Ascii.ascii_of_nat 107 = Ascii.ascii_of_nat 49) || bool_decide (Ascii.ascii_of_nat 107 = Ascii.ascii_of_nat 81)) with false.
  cbv iota. by rewrite Hd.
Qed.
(** With the validator the DHT keeps the record under the bytes of the peer. *)
Lemma dht_key_name v p : dht_key (default_record_key_validator v) (Ipns.name_key p) = Done (Ok (str_bytes "/ipns/" ++ peer_to_bytes p)).
Proof.
  unfold dht_key, Ipns.name_key. rewrite Utf8Lossy.from_utf8_lossy_str by apply graphic_utf8, name_path_graphic.
  rewrite split_name_path. unfold default_record_key_validator. rewrite lookup_insert_eq. unfold to_dht_key.
  rewrite trim_graphic by apply name_path_graphic. rewrite split_name_path. rewrite !bool_decide_eq_false_2 by (done || apply name_ne).
  rewrite bool_decide_eq_true_2 by done. apply ipns_to_dht_key_name.
Qed.
Lemma dht_key_plain v p : v !! "ipns" = None → dht_key v (Ipns.name_key p) = Done (Ok (Ipns.name_key p)).
Proof.
  intros Hv. unfold dht_key, Ipns.name_key. rewrite Utf8Lossy.from_utf8_lossy_str by apply graphic_utf8, name_path_graphic.
  by rewrite split_name_path, Hv.
Qed.
End names.
End DhtKeyProofs.
