(* ===== verification/IpnsClaims.v ===== *)
(** * Names: what publishing and resolving promise *)
From stdpp Require Import base gmap list relations sorting strings.
From Stdlib Require Import Strings.Byte.
From S2P Require Import Prelude Protobuf UnixFsPb PbInstance Path DagResolve Repo RepoClaims Ipns IpnsProofs.
Local Open Scope Z_scope.

Module IpnsClaims.
Import IpnsPb Path IpnsRecord IpnsRecordProofs DhtKeyProofs Ipns.
Section claims.
  Context `{ks : Keys} {cb : DagCbor} {qp : QuickProtobuf}.
  Context {DhtError DnsError : Type}.
Notation NameError := (NameError (DhtError := DhtError) (DnsError := DnsError)).
Notation record_path := (record_path (DhtError := DhtError) (DnsError := DnsError)).
Notation current := (current (DhtError := DhtError) (DnsError := DnsError)).
Notation publish := (publish (DhtError := DhtError) (DnsError := DnsError)).
Notation resolve := (resolve (DhtError := DhtError) (DnsError := DnsError)).

Lemma from_name_path p : from_str (name_path p) = Ok (mk (Ipns p) []).
Proof.
  unfold from_str. rewrite name_path_split. simpl. unfold ipns_root. rewrite name_not_base58.
  destruct (name_cid p) as (c & -> & ->). done.
Qed.
Lemma name_key_inj p q : name_key p = name_key q → p = q.
Proof.
  intros E. apply (f_equal str_of_bytes) in E. unfold name_key in E. rewrite !str_of_bytes_str_bytes in E.
  pose proof (from_name_path p) as Hp. rewrite E, from_name_path in Hp. by injection Hp.
Qed.

Lemma current_record_path bs p q s : current bs p = Done (Ok (q, s)) → record_path bs p = Done (Ok q).
Proof.
  unfold current, record_path. destruct (decode_done bs) as [d ->]. cbn [mbind outcome_bind]. intros [= H]. f_equal.
  destruct d as [r|]; [|done]. cbn [map_err result_bind] in *. destruct (verify r p); [|done]. cbn [map_err result_bind] in *.
  destruct (get_data r) as [data|]; [|done]. cbn [map_err result_bind] in *. destruct (from_str _); [|done]. by injection H as <- <-.
Qed.

(** The record of a path, short enough to be read. *)
Definition fits (k : Keypair) (path : IpfsPath) (eol : list byte) (seq : Z) : Prop :=
  ∀ r, new k (str_bytes (to_string path)) eol seq 60000 = Ok r → record_range r ∧ vec_len (encode r) ≤ 10 * 1024.
(** The number of the next record. *)
Definition next_sequence (store : gmap (list byte) (list byte)) (p : PeerId) : Z :=
  match store !! name_key p with
  | Some bs => match current bs p with Done (Ok (_, s)) => s + 1 | _ => 0 end
  | None => 0
  end.

Lemma current_new k path eol seq r :
  key_type (public k) = Ed25519 → path_ok path → is_utf8 (str_bytes (to_string path)) = true → fits k path eol seq → 0 ≤ seq < 2 ^ 63 →
  new k (str_bytes (to_string path)) eol seq 60000 = Ok r → current (encode r) (to_peer_id (public k)) = Done (Ok (path, seq)).
Proof.
  intros Hk Hp Hu Hfit Hs Hr. destruct (Hfit r Hr) as [Hrange Hlen].
  destruct (new_ok k (str_bytes (to_string path)) eol seq 60000) as (r' & Hr' & Hm & Hsay & E1 & E2 & E3 & E4); [done|unfold u64; lia|unfold u64; lia|].
  rewrite Hr in Hr'. injection Hr' as <-. unfold current. rewrite decode_encode by done. rewrite bool_decide_eq_false_2 by lia.
  cbn [mbind outcome_bind map_err result_bind].
  destruct (made_says k r (str_bytes (to_string path)) eol seq 60000) as [[-> ->] _]; try done; try (unfold u64; lia); [lia..|].
  cbn [map_err result_bind d_value]. rewrite Utf8Lossy.from_utf8_lossy_str, from_to_string by done. cbn [map_err result_bind]. by rewrite E3.
Qed.

(** ** Records of the DHT *)
Definition valid (values : list (list byte)) (p : PeerId) (r : Record) : Prop :=
  ∃ bs, bs ∈ values ∧ decode bs = Done (Ok r) ∧ verify r p = Ok tt.

Lemma dht_records_ok key p values : (6 ≤ length key)%nat → peer_from_bytes (drop 6 key) = Some p →
  ∃ rs, dht_records (pair key <$> values) = Done rs ∧ ∀ r, r ∈ rs ↔ valid values p r.
Proof.
  intros Hk Hp. induction values as [|bs values (rs & IH & Hrs)].
  { exists []. split; [done|]. intros r. split; [by intros ?%elem_of_nil|]. intros (bs & ?%elem_of_nil & _). done. }
  rewrite fmap_cons. cbn [dht_records]. unfold dht_record. cbn [fst snd]. rewrite bool_decide_eq_false_2 by lia.
  destruct (decode_done bs) as [d Hd]. rewrite Hd. cbn [mbind outcome_bind]. rewrite IH, Hp. cbn [mbind outcome_bind].
  eexists. split; [done|]. intros r. assert (valid (bs :: values) p r ↔ (d = Ok r ∧ verify r p = Ok tt) ∨ r ∈ rs) as ->.
  { rewrite Hrs. unfold valid. setoid_rewrite elem_of_cons. split.
    - intros (b & [->|Hb] & E & Hv); [left; rewrite Hd in E; by injection E as ->|right; by exists b].
    - intros [[-> Hv]|(b & Hb & E & Hv)]; [exists bs; auto|exists b; auto]. }
  destruct d as [r'|e]; [|split; [auto|by intros [[? _]|H]]]. destruct (verify r' p) as [[]|] eqn:E.
  - rewrite elem_of_cons. split; [intros [->|H]; auto|intros [[[= ->] _]|H]; auto].
  - split; [auto|]. intros [[[= ->] Hv]|H]; [congruence|done].
Qed.
Lemma dht_records_none key values : (6 ≤ length key)%nat → peer_from_bytes (drop 6 key) = None →
  dht_records (pair key <$> values) = Done [].
Proof.
  intros Hk Hp. induction values as [|bs values IH]; [done|]. rewrite fmap_cons. cbn [dht_records]. unfold dht_record. cbn [fst snd].
  rewrite bool_decide_eq_false_2 by lia. destruct (decode_done bs) as [d ->]. cbn [mbind outcome_bind]. rewrite IH, Hp. by destruct d.
Qed.

Lemma insert_by_sequence_perm r l : insert_by_sequence r l ≡ₚ r :: l.
Proof. induction l as [|x l IH]; [done|]. cbn [insert_by_sequence]. case_bool_decide; [done|]. rewrite IH. constructor. Qed.
Lemma insert_by_sequence_sorted r l : StronglySorted (λ x y, sequence x ≤ sequence y) l →
  StronglySorted (λ x y, sequence x ≤ sequence y) (insert_by_sequence r l).
Proof.
  induction 1 as [|x l Hl IH Hx]; cbn [insert_by_sequence]; [by repeat constructor|]. case_bool_decide.
  - constructor; [by constructor|]. constructor; [lia|]. eapply Forall_impl; [exact Hx|]. simpl. lia.
  - constructor; [done|]. rewrite insert_by_sequence_perm. constructor; [lia|done].
Qed.
Lemma sort_by_sequence_ok l : sort_by_sequence l ≡ₚ l ∧ StronglySorted (λ x y, sequence x ≤ sequence y) (sort_by_sequence l).
Proof.
  unfold sort_by_sequence. assert (∀ acc, StronglySorted (λ x y, sequence x ≤ sequence y) acc →
    foldl (λ acc r, insert_by_sequence r acc) acc l ≡ₚ l ++ acc ∧
    StronglySorted (λ x y, sequence x ≤ sequence y) (foldl (λ acc r, insert_by_sequence r acc) acc l)) as H.
  { induction l as [|r l IH]; intros acc Hacc; [done|]. simpl. destruct (IH (insert_by_sequence r acc)) as [H1 H2].
    { by apply insert_by_sequence_sorted. }
    split; [|done]. rewrite H1, insert_by_sequence_perm. by rewrite Permutation_middle. }
  destruct (H []) as [H1 H2]; [constructor|]. by rewrite app_nil_r in H1.
Qed.
Lemma last_sequence l r : last (sort_by_sequence l) = Some r → r ∈ l ∧ ∀ r', r' ∈ l → sequence r' ≤ sequence r.
Proof.
  destruct (sort_by_sequence_ok l) as [Hp Hs]. intros Hl. apply last_Some in Hl as [l' E]. rewrite E in Hp, Hs. split.
  - rewrite <-Hp. set_solver.
  - intros r' Hr'. rewrite <-Hp in Hr'. apply elem_of_app in Hr' as [Hr'| ->%list_elem_of_singleton]; [|lia].
    apply (StronglySorted_app_1_elem_of (λ x y, sequence x ≤ sequence y) l' [r] r' r Hs Hr'). set_solver.
Qed.

(** The key that the DHT gives records back under. *)
Notation peer_key p := (str_bytes "/ipns/" ++ peer_to_bytes p).

Lemma resolve_no_record resolver v kad store p segs :
  store !! name_key p = None →
  resolve true resolver v kad store (mk (Ipns p) segs) = dht ← dht_get v kad (name_key p); resolve_dht dht.
Proof. intros Hn. unfold resolve. cbn [root]. by rewrite Hn. Qed.
Lemma resolve_local resolver v kad store p segs bs q :
  store !! name_key p = Some bs → record_path bs p = Done (Ok q) → resolve true resolver v kad store (mk (Ipns p) segs) = Done (Ok q).
Proof. intros Hs Hr. unfold resolve. cbn [root]. by rewrite Hs, Hr. Qed.
Lemma resolve_other resolver v kad store p q segs bs :
  q ≠ p → resolve true resolver v kad (<[name_key p := bs]> store) (mk (Ipns q) segs) = resolve true resolver v kad store (mk (Ipns q) segs).
Proof. intros Hne. unfold resolve. cbn [root]. rewrite lookup_insert_ne; [done|]. by intros ->%name_key_inj. Qed.

(** What [publish] finds: nothing, or a record of the peer whose number can grow. *)
Definition ready (store : gmap (list byte) (list byte)) (p : PeerId) : Prop :=
  match store !! name_key p with
  | None => True
  | Some bs => ∃ q s, current bs p = Done (Ok (q, s)) ∧ 0 ≤ s < 2 ^ 63 - 1
  end.

Lemma publish_record_local k path eol seq v kad_put store :
  key_type (public k) = Ed25519 → path_ok path → is_utf8 (str_bytes (to_string path)) = true → fits k path eol seq → 0 ≤ seq < 2 ^ 63 →
  ∃ bs, publish_record (DhtError := DhtError) (DnsError := DnsError) k path eol seq Local v kad_put store =
      Done (Ok (mk (Ipns (to_peer_id (public k))) []), <[name_key (to_peer_id (public k)) := bs]> store) ∧
    current bs (to_peer_id (public k)) = Done (Ok (path, seq)).
Proof.
  intros Hk Hp Hu Hfit Hs.
  destruct (new_ok k (str_bytes (to_string path)) eol seq 60000) as (r & Hr & _); [done|unfold u64; lia|unfold u64; lia|].
  exists (encode r). split; [|by eapply current_new]. unfold publish_record. rewrite Hr. cbn [mbind outcome_bind]. by rewrite from_name_path.
Qed.

(** ** Names that lead to names *)
Section follow.
  Context (step : IpfsPath → outcome (result IpfsPath NameError)) (known : list IpfsPath).
  Context (step_done : ∀ x, x ∈ known → ∃ r, step x = Done r).
  Context (step_known : ∀ x y, x ∈ known → step x = Done (Ok y) → y ∈ known).
Definition leads x y := step x = Done (Ok y).

(** [seen] was passed on the way to [res]. *)
Lemma follow_ends fuel seen res :
  NoDup seen → seen ⊆ known → (length known < fuel + length seen)%nat →
  (∀ y, res = Ok y → y ∈ known ∧ ∀ x, x ∈ seen → tc leads x y) →
  ∃ r, follow fuel step seen res = Done r ∧ ∀ y, r = Ok y → tc leads y y.
Proof.
  revert seen res. induction fuel as [|fuel IH]; intros seen res Hnd Hsub Hlen Hres.
  { apply NoDup_submseteq, submseteq_length in Hsub; [|done]. lia. }
  cbn [follow]. destruct res as [res|e]; [|by exists (Err e)]. destruct (Hres res) as [Hk Hx]; [done|]. case_bool_decide as Hin.
  { exists (Ok res). split; [done|]. intros y [= <-]. by apply Hx. }
  destruct (step_done res Hk) as [r Hr]. rewrite Hr. cbn [mbind outcome_bind]. apply IH.
  - by constructor.
  - set_solver.
  - simpl. lia.
  - intros y ->. split; [by eapply step_known|]. intros x [->|Hx']%elem_of_cons; [by apply tc_once|].
    eapply tc_r; [by apply Hx|done].
Qed.
End follow.

(** ** The claims *)

(** C15: a path that an Ed25519 key publishes in the local store, without a record of it
    or with one that it made before, is what its name resolves to from then on; other
    names resolve as before; a record that is replaced by one for another path has
    the next number; and the path that is returned is the name. *)
Theorem publish_resolves own keystore key k path eol v kad kad_put resolver store :
  match key with Some n => Keystore.get_keypair n keystore = Ok k | None => k = own end →
  key_type (public k) = Ed25519 → path_ok path → is_utf8 (str_bytes (to_string path)) = true → fits k path eol (next_sequence store (to_peer_id (public k))) →
  ready store (to_peer_id (public k)) →
  ∃ store', publish own keystore key path eol Local v kad_put store = Done (Ok (mk (Ipns (to_peer_id (public k))) []), store') ∧
    (∀ segs, resolve true resolver v kad store' (mk (Ipns (to_peer_id (public k))) segs) = Done (Ok path)) ∧
    (∀ q segs, q ≠ to_peer_id (public k) →
      resolve true resolver v kad store' (mk (Ipns q) segs) = resolve true resolver v kad store (mk (Ipns q) segs)) ∧
    (∀ bs q s, store !! name_key (to_peer_id (public k)) = Some bs → current bs (to_peer_id (public k)) = Done (Ok (q, s)) → q ≠ path →
      ∃ bs', store' !! name_key (to_peer_id (public k)) = Some bs' ∧ current bs' (to_peer_id (public k)) = Done (Ok (path, s + 1))).
Proof.
  intros Hkey Hk Hp Hu Hfit Hready. set (p := to_peer_id (public k)) in *. unfold publish.
  replace (match key with Some name => map_err KeystoreError (Keystore.get_keypair name keystore) | None => Ok own end)
    with (Ok k : result Keypair NameError) by (destruct key; [by rewrite Hkey|by subst]).
  fold p. unfold ready in Hready. unfold next_sequence in Hfit. destruct (store !! name_key p) as [bs|] eqn:E.
  - destruct Hready as (q & s & Hc & Hs). rewrite Hc in Hfit |- *. cbn [mbind outcome_bind]. case_bool_decide as Hq.
    + subst q. exists store. rewrite from_name_path. split_and!; [done| |done|].
      * intros segs. eapply resolve_local; [done|]. by eapply current_record_path.
      * intros bs' q s' [= <-] Hc'. rewrite Hc in Hc'. injection Hc' as <- <-. done.
    + unfold u64_add. rewrite checked_ok by (unfold usize_max; lia). cbn [mbind outcome_bind].
      destruct (publish_record_local k path eol (s + 1) v kad_put store) as (bs' & -> & Hc'); try done; [lia|]. fold p in Hc' |- *.
      eexists. split; [done|]. rewrite lookup_insert_eq. split_and!.
      * intros segs. eapply resolve_local; [apply lookup_insert_eq|]. by eapply current_record_path.
      * intros q' segs Hne. by apply resolve_other.
      * intros ? ? s' [= <-] Hc2 _. rewrite Hc in Hc2. injection Hc2 as <- <-. by exists bs'.
  - destruct (publish_record_local k path eol 0 v kad_put store) as (bs' & -> & Hc'); try done. fold p in Hc' |- *.
    eexists. split; [done|]. split_and!.
    + intros segs. eapply resolve_local; [apply lookup_insert_eq|]. by eapply current_record_path.
    + intros q' segs Hne. by apply resolve_other.
    + done.
Qed.

(** C34: with the validator of keys, and no record in the store, a name resolves to the
    path of the record with the highest number among those of the DHT that can be
    read and verify for the peer, and does not resolve if there is none. *)
Theorem dht_resolves resolver v kad store p segs values :
  store !! name_key p = None → kad (peer_key p) = Ok (Some (pair (peer_key p) <$> values)) →
  let run := resolve true resolver (DhtKey.default_record_key_validator v) kad store (mk (Ipns p) segs) in
  ((∀ r, ¬ valid values p r) → run = Done (Err NoRecords)) ∧
  ((∃ r, valid values p r) → ∃ r, valid values p r ∧ (∀ r', valid values p r' → sequence r' ≤ sequence r) ∧
    run = Done (map_err PathError (from_str (Utf8Lossy.from_utf8_lossy (value r))))).
Proof.
  intros Hn Hkad run. unfold run. rewrite resolve_no_record by done. unfold dht_get. rewrite dht_key_name. cbn [mbind outcome_bind].
  cbn [map_err result_bind]. rewrite Hkad. cbn [map_err mret outcome_ret mbind outcome_bind resolve_dht].
  destruct (dht_records_ok (peer_key p) p values) as (rs & -> & Hrs); [by rewrite length_app; simpl; lia|apply peer_from_to_bytes|].
  cbn [mbind outcome_bind]. destruct (last (sort_by_sequence rs)) as [r|] eqn:E.
  - apply last_sequence in E as [Hin Hmax]. apply Hrs in Hin as Hv. split; [intros Hno; by destruct (Hno r)|]. intros _.
    exists r. split_and!; [done|intros; by apply Hmax, Hrs|]. destruct Hv as (bs & _ & _ & Hver).
    destruct (verify_signed r p Hver) as (pk & d & _ & _ & Hd & Hval & _). by rewrite Hd, <-Hval.
  - split; [done|]. intros [r Hr%Hrs]. apply last_None in E. destruct (sort_by_sequence_ok rs) as [Hp _]. rewrite E in Hp.
    rewrite <-Hp in Hr. by apply elem_of_nil in Hr.
Qed.

(** Without the validator, which is an option of the builder, the key of a record is the
    text of the name and every record is dropped. *)
Theorem plain_dht_resolves_nothing resolver v kad store p segs values :
  v !! "ipns" = None → store !! name_key p = None → kad (name_key p) = Ok (Some (pair (name_key p) <$> values)) →
  resolve true resolver v kad store (mk (Ipns p) segs) = Done (Err NoRecords).
Proof.
  intros Hv Hn Hkad. rewrite resolve_no_record by done. unfold dht_get. rewrite dht_key_plain by done. cbn [mbind outcome_bind].
  cbn [map_err result_bind]. rewrite Hkad. cbn [map_err mret outcome_ret mbind outcome_bind resolve_dht].
  assert (name_key p = str_bytes "/ipns/" ++ str_bytes (name_text p)) as E by apply str_bytes_app.
  rewrite dht_records_none; [done|rewrite E, length_app; simpl; lia|]. rewrite E. apply name_not_bytes.
Qed.

(** C37: a record that carries a public key is checked against that key and not against the
    peer: whoever has any key can make a record that verifies for every peer, and a
    node that holds it resolves the name of the peer to the path of the forger. *)
Theorem forged_record_resolves k p path eol seq resolver v kad store segs :
  key_type (public k) = Ed25519 → path_ok path → is_utf8 (str_bytes (to_string path)) = true → 0 ≤ seq < 2 ^ 63 →
  ∃ r, new k (str_bytes (to_string path)) eol seq 60000 = Ok r ∧
    let forged := mkRecord (data r) (value r) (validity_type r) (validity r) (sequence r) (ttl r)
      (public_to_protobuf (public k)) (signature_v1 r) (signature_v2 r) in
    verify forged p = Ok tt ∧
    (record_range forged → vec_len (encode forged) ≤ 10 * 1024 →
      resolve true resolver v kad (<[name_key p := encode forged]> store) (mk (Ipns p) segs) = Done (Ok path)).
Proof.
  intros Hk Hp Hu Hs. destruct (new_ok k (str_bytes (to_string path)) eol seq 60000) as (r & Hr & (H1 & H2 & H3 & H4) & Hsay & E1 & E2 & E3 & E4);
    [done|unfold u64; lia|unfold u64; lia|]. exists r. split; [done|]. intros forged.
  assert (get_data forged = Ok (mkData (str_bytes (to_string path)) EOL eol seq 60000)) as Hd.
  { rewrite (get_data_says forged (str_bytes (to_string path)) eol seq 60000) by exact Hsay. rewrite !clamp_small by lia.
    by rewrite bool_decide_eq_true_2. }
  destruct (public_from_to (public k)) as [Hne Hfrom].
  assert (verify forged p = Ok tt) as Hv.
  { unfold verify. rewrite Hd. simpl. rewrite (bool_decide_eq_false_2 (signature_v2 r = [])) by done. cbn [andb].
    rewrite !bool_decide_eq_false_2 by done. rewrite Hfrom. cbn [map_err result_bind].
    rewrite (bool_decide_eq_false_2 (key_type (public k) = RSA)) by by rewrite Hk. by rewrite H4. }
  split; [done|]. intros Hrange Hlen. eapply resolve_local; [apply lookup_insert_eq|]. unfold record_path.
  rewrite decode_encode by done. rewrite bool_decide_eq_false_2 by lia. cbn [mbind outcome_bind map_err result_bind].
  rewrite Hv, Hd. cbn [map_err result_bind d_value]. by rewrite Utf8Lossy.from_utf8_lossy_str, from_to_string.
Qed.

(** C38: following names ends after one step more than there are paths that the names
    lead to, and what it gives is an error or a path that leads back to itself: for
    names that lead to an identifier the path that starts with it, and otherwise a
    name on a cycle. *)
Theorem names_followed (step : IpfsPath → outcome (result IpfsPath NameError)) known path x :
  (∀ x, x ∈ known → ∃ r, step x = Done r) → (∀ x y, x ∈ known → step x = Done (Ok y) → y ∈ known) →
  step path = Done (Ok x) → x ∈ known →
  ∃ r, resolve_ipns (S (length known)) step path true = Done r ∧ ∀ y, r = Ok y → tc (leads step) y y.
Proof.
  intros Hd Hk Hp Hx. unfold resolve_ipns. rewrite Hp. cbn [mbind outcome_bind]. apply (follow_ends step known Hd Hk).
  - constructor.
  - set_solver.
  - simpl. lia.
  - intros y [= <-]. split; [done|]. intros z Hz. by apply elem_of_nil in Hz.
Qed.

(** A path whose record is longer than [decode] allows is published, but the name does
    not resolve in the node that published it, and nothing can be published under
    it again. *)
Theorem long_name_stuck k path path' eol eol' keystore v kad_put store p :
  p = to_peer_id (public k) → key_type (public k) = Ed25519 → store !! name_key p = None →
  (∀ r, new k (str_bytes (to_string path)) eol 0 60000 = Ok r → record_range r ∧ 10 * 1024 < vec_len (encode r)) →
  ∃ bs, publish k keystore None path eol Local v kad_put store = Done (Ok (mk (Ipns p) []), <[name_key p := bs]> store) ∧
    record_path bs p = Done (Err (RecordError TooLong)) ∧
    publish k keystore None path' eol' Local v kad_put (<[name_key p := bs]> store) =
      Done (Err (RecordError TooLong), <[name_key p := bs]> store).
Proof.
  intros -> Hk Hn Hlong. destruct (new_ok k (str_bytes (to_string path)) eol 0 60000) as (r & Hr & _); [done|unfold u64; lia|unfold u64; lia|].
  destruct (Hlong r Hr) as [Hrange Hlen]. exists (encode r).
  assert (decode (encode r) = Done (Err TooLong)) as Hd by (rewrite decode_encode by done; by rewrite bool_decide_eq_true_2 by lia).
  split_and!.
  - unfold publish. rewrite Hn. unfold publish_record. rewrite Hr. cbn [mbind outcome_bind]. by rewrite from_name_path.
  - unfold record_path. by rewrite Hd.
  - unfold publish. rewrite lookup_insert_eq. unfold current. by rewrite Hd.
Qed.

(** A domain resolves to the first path that the domain itself or its subdomain
    _dnslink gives, and of each only the first link counts, also when it is no path
    and a later one is. *)
Definition first_link (txt_lookup : string → result (list (list (list byte))) DnsError) (domain : string) : option IpfsPath :=
  match txt_lookup domain with Ok res => head (suffixes res) ≫= parse_link | Err _ => None end.
Theorem dnslink_first txt_lookup domain :
  dnslink_resolve (DhtError := DhtError) (Ok txt_lookup) domain =
  ok_or (Unresolved domain) (head (omap (first_link txt_lookup) (searched domain))).
Proof.
  unfold dnslink_resolve. cbn [map_err result_bind]. f_equal. induction (searched domain) as [|d ds IH]; [done|].
  cbn [lookup_domains omap list_omap]. unfold first_link at 1. destruct (txt_lookup d) as [res|]; [|done].
  destruct (suffixes res) as [|suffix l]; [done|]. cbn [head]. change (Some suffix ≫= parse_link) with (parse_link suffix).
  by destruct (parse_link suffix).
Qed.

(** A path that starts with an identifier resolves to itself. *)
Lemma resolve_ipld e resolver v kad store c segs : resolve e resolver v kad store (mk (Ipld c) segs) = Done (Ok (mk (Ipld c) segs)).
Proof. done. Qed.
End claims.
End IpnsClaims.

Module KeystoreClaims.
Import Keystore.
Section claims.
  Context `{ks : Keys}.

(** The keystore: a key is found under the name it was imported with, or under its peer;
    a name that holds a key is not overwritten; renaming moves a key to a free name;
    nothing changes under other names. *)
Theorem keystore_keeps k name m : key_type (public k) = Ed25519 →
  (let n := name_or_peer name (public k) in
   (∀ old, m !! n = Some old → old ≠ [] → import_key k name m = (Err KeyExists, m)) ∧
   ((∀ old, m !! n = Some old → old = []) → ∃ m', import_key k name m = (Ok (public k), m') ∧ get_keypair n m' = Ok k ∧
     ∀ n', n' ≠ n → m' !! n' = m !! n')) ∧
  (∀ a b, is_Some (m !! b) → rename a b m = (Err NameExists, m)) ∧
  (∀ a b, m !! b = None → m !! a = None → rename a b m = (Err NoSuchKey, m)) ∧
  (∀ a b, m !! b = None → is_Some (m !! a) → ∃ m', rename a b m = (Ok tt, m') ∧ get_keypair b m' = get_keypair a m ∧
    m' !! a = None ∧ ∀ n', n' ≠ a → n' ≠ b → m' !! n' = m !! n').
Proof.
  intros Hk. destruct (keypair_from_to k Hk) as (b & Hb & Hne & Hfrom). split; [|split_and!].
  - intros n. unfold import_key, set. rewrite Hb. fold n. split.
    + intros old -> Hold. by rewrite bool_decide_eq_true_2.
    + intros Hold. exists (<[n := b]> m). split_and!.
      * destruct (m !! n) as [old|] eqn:E; [|done]. rewrite bool_decide_eq_false_2; [done|]. intros H. by apply H, Hold.
      * unfold get_keypair, get. rewrite lookup_insert_eq. cbn [ok_or result_bind]. by rewrite Hfrom.
      * intros n' Hn'. by rewrite lookup_insert_ne.
  - intros a b' Hs. unfold rename. by rewrite bool_decide_eq_true_2.
  - intros a b' Hn Ha. unfold rename. rewrite bool_decide_eq_false_2 by by rewrite Hn; intros []. by rewrite Ha.
  - intros a b' Hn [key Ha]. unfold rename. rewrite bool_decide_eq_false_2 by by rewrite Hn; intros []. rewrite Ha.
    eexists. split; [done|]. assert (a ≠ b') by congruence. split_and!.
    + unfold get_keypair, get. by rewrite lookup_insert_eq, Ha.
    + by rewrite lookup_insert_ne, lookup_delete_eq.
    + intros n' H1 H2. by rewrite lookup_insert_ne, lookup_delete_ne.
Qed.
End claims.
End KeystoreClaims.

(** Peers and keys are numbers; names are the letter k and the bytes in letters. *)
Module IpnsWitness.
Import IpnsRecord IpnsRecordProofs Ipns IpnsClaims PathWitness RepoWitness.
#[local] Existing Instance bytes_ids.
#[local] Existing Instance bytes_cids.
#[local] Existing Instance WireFormat.wire_format.

Definition letter_k : Ascii.ascii := Ascii.ascii_of_nat 107.
Definition unname (s : string) : option (list byte) :=
  match s with String a s => if bool_decide (a = letter_k) then unhex s else None | EmptyString => None end.
Definition cid_peer (c : list byte) : option nat := match c with x01 :: x72 :: c => Some (length c) | _ => None end.
#[local] Program Instance name_codec : PathCodec := {|
  TextError := unit;
  cid_from_str := λ s, ok_or tt (unname s);
  cid_to_string := λ c, String letter_k (hex c);
  peer_from_str := peer_from_str (PathCodec := hex_codec);
  peer_to_base58 := peer_to_base58 (PathCodec := hex_codec);
  peer_from_to_base58 := peer_from_to_base58 (PathCodec := hex_codec);
  peer_string_no_slash := peer_string_no_slash (PathCodec := hex_codec);
  peer_of_cid := cid_peer;
|}.
Next Obligation. intros c. simpl. by rewrite unhex_hex. Qed.
Next Obligation. intros c. simpl. split; [done|apply hex_no_slash]. Qed.

Definition zeros (n : nat) : list byte := replicate n x00.
Lemma zeros_all n : Forall (λ b, b = x00) (zeros n).
Proof. by apply Forall_replicate. Qed.
Lemma zeros_length n : length (zeros n) = n.
Proof. apply length_replicate. Qed.
Lemma hex_chars c : Forall (λ b, 97 ≤ byte_to_Z b ≤ 122) (str_bytes (hex c)).
Proof. induction c as [|b c IH]; [constructor|]. cbn [hex byte_string str_bytes]. repeat constructor; [..|done]; by destruct b; vm_compute. Qed.

#[local] Program Instance number_keys : @Keys bytes_ids name_codec := {|
  Keypair := nat;
  PublicKey := nat;
  public := λ k, k;
  key_type := λ _, Ed25519;
  to_peer_id := λ pk, pk;
  KeyError := unit;
  sign := λ k m, Ok (x01 :: zeros k ++ x01 :: m);
  verifies_signature := λ pk m s, bool_decide (s = x01 :: zeros pk ++ x01 :: m);
  keypair_to_protobuf := λ k, Ok (x08 :: zeros k);
  keypair_from_protobuf := λ b, Ok (length b - 1)%nat;
  public_to_protobuf := λ k, x08 :: zeros k;
  public_from_protobuf := λ b, Ok (length b - 1)%nat;
  peer_digest := λ p, x08 :: zeros p;
  peer_to_bytes := zeros;
  peer_from_bytes := λ b, if bool_decide (Forall (λ b, b = x00) b) then Some (length b) else None;
  name_text := λ p, String letter_k (hex (x01 :: x72 :: zeros p));
  BaseError := unit;
  multibase_decode := λ s, ok_or tt (unname s);
|}.
Next Obligation. intros k m _. eexists. split_and!; [done|done|]. by apply bool_decide_eq_true_2. Qed.
Next Obligation. intros k _. eexists. split_and!; [done|done|]. simpl. by rewrite zeros_length, Nat.sub_0_r. Qed.
Next Obligation. intros pk. split; [done|]. simpl. by rewrite zeros_length, Nat.sub_0_r. Qed.
Next Obligation. done. Qed.
Next Obligation. intros p. simpl. rewrite bool_decide_eq_true_2 by apply zeros_all. by rewrite zeros_length. Qed.
Next Obligation.
  intros p. cbn [str_bytes]. constructor; [right; by vm_compute|]. eapply Forall_impl; [apply hex_chars|]. simpl. lia.
Qed.
Next Obligation. done. Qed.
Next Obligation. intros p. cbv beta. rewrite bool_decide_eq_false_2; [done|]. intros H. by apply Forall_cons in H as [H _]. Qed.
Next Obligation.
  intros p. exists (x01 :: x72 :: zeros p). split; [|simpl; by rewrite zeros_length].
  cbn [cid_from_str name_codec unname]. rewrite bool_decide_eq_true_2 by done. by rewrite unhex_hex.
Qed.
Next Obligation. intros p. cbv beta. unfold unname. rewrite bool_decide_eq_true_2 by done. by rewrite unhex_hex. Qed.
Next Obligation. intros p. by eexists. Qed.

(** Maps of bytes and integers. *)
Definition leaf_of (i : DagResolve.Ipld) : option (list byte + Z) :=
  match i with DagResolve.Bytes b => Some (inl b) | DagResolve.Integer n => Some (inr n) | _ => None end.
Definition of_leaf (x : list byte + Z) : DagResolve.Ipld := match x with inl b => DagResolve.Bytes b | inr n => DagResolve.Integer n end.
Definition leaves (m : list (string * DagResolve.Ipld)) : option (list (string * (list byte + Z))) :=
  mapM (λ kv, pair kv.1 <$> leaf_of kv.2) m.
Definition of_leaves (l : list (string * (list byte + Z))) : DagResolve.Ipld := DagResolve.Map ((λ kv, (kv.1, of_leaf kv.2)) <$> l).
Lemma leaves_ok m : Forall cbor_leaf m.*2 → ∃ l, leaves m = Some l ∧ of_leaves l = DagResolve.Map m.
Proof.
  induction m as [|[k i] m IH]; intros Hm; [by exists []|]. apply Forall_cons in Hm as [Hi Hm]. destruct (IH Hm) as (l & Hl & El).
  unfold leaves. cbn [mapM fst snd]. fold (leaves m). rewrite Hl. injection El as El. simpl in Hi.
  destruct i; try done; (eexists; split; [done|]); unfold of_leaves; rewrite fmap_cons, El; done.
Qed.
Definition toy_cbor_encode (i : DagResolve.Ipld) : result (list byte) unit :=
  match i with DagResolve.Map m => ok_or tt ((λ l, x00 :: pos_bytes (countable.encode l)) <$> leaves m) | _ => Err tt end.
Definition toy_cbor_decode (b : list byte) : result DagResolve.Ipld unit :=
  match b with [] => Err tt | _ :: b => ok_or tt (of_leaves <$> countable.decode (bytes_pos b)) end.
#[local] Program Instance toy_cbor : DagCbor := {| CborError := unit; cbor_encode := toy_cbor_encode; cbor_decode := toy_cbor_decode |}.
Next Obligation.
  intros m Hm _. destruct (leaves_ok m Hm) as (l & Hl & El). exists (x00 :: pos_bytes (countable.encode l)).
  unfold toy_cbor_encode, toy_cbor_decode. rewrite Hl. split_and!; [done|done|]. by rewrite bytes_pos_bytes, countable.decode_encode, <-El.
Qed.

Definition me : Keypair := 5%nat.
Definition my_peer : PeerId := 5%nat.
Definition demo_path : Path.IpfsPath := Path.mk (Path.Ipld [x01]) ["a"].
Definition demo_eol : list byte := str_bytes "2030-01-01T00:00:00.000000000+00:00".
Definition record_of (r : result Record Error) : Record :=
  match r with Ok r => r | Err _ => mkRecord [] [] IpnsPb.EOL [] 0 0 [] [] [] end.
Definition demo_record (seq : Z) : Record := record_of (new me (str_bytes (Path.to_string demo_path)) demo_eol seq 60000).
Lemma name_fits : fits me demo_path demo_eol 0.
Proof.
  intros r Hr. assert (r = demo_record 0) as -> by (unfold demo_record; by rewrite Hr).
  unfold record_range, IpnsPb.IpnsEntry_range, IpnsPb.short, IpnsPb.u64. split_and!; vm_compute; done.
Qed.
Lemma demo_path_ok : Path.path_ok demo_path.
Proof. split; [done|]. repeat constructor; done. Qed.

Definition validators : gmap string (string → outcome (result (list byte) DhtKey.Error)) := DhtKey.default_record_key_validator ∅.
Definition no_kad : list byte → result (option (list (list byte * list byte))) unit := λ _, Err tt.
Definition no_resolver : result (string → result (list (list (list byte))) unit) unit := Err tt.
Lemma publish_resolves_witness :
  ∃ store', publish (DhtError := unit) (DnsError := unit) me ∅ None demo_path demo_eol Local validators (λ _ _, Err tt) ∅ =
      Done (Ok (Path.mk (Path.Ipns my_peer) []), store') ∧
    resolve true no_resolver validators no_kad store' (Path.mk (Path.Ipns my_peer) ["x"]) = Done (Ok demo_path).
Proof.
  destruct (publish_resolves (DhtError := unit) (DnsError := unit) me ∅ None me demo_path demo_eol validators no_kad (λ _ _, Err tt) no_resolver ∅)
    as (store' & H1 & H2 & _).
  - reflexivity.
  - reflexivity.
  - exact demo_path_ok.
  - vm_compute. reflexivity.
  - exact name_fits.
  - exact I.
  - exists store'. split; [exact H1|apply H2].
Defined.

Definition dht_values : list (list byte) := [encode (demo_record 3); [x01]; encode (demo_record 1)].
Definition kad_of (p : nat) : list byte → result (option (list (list byte * list byte))) unit := λ k,
  Ok (Some (pair k <$> dht_values)).
Definition is_ok {A E} (r : result A E) : bool := match r with Ok _ => true | Err _ => false end.
Lemma demo_range seq : (seq = 3 ∨ seq = 1) → record_range (demo_record seq).
Proof. intros [-> | ->]; unfold record_range, IpnsPb.IpnsEntry_range, IpnsPb.short, IpnsPb.u64; split_and!; vm_compute; done. Qed.
Lemma demo_valid : valid dht_values my_peer (demo_record 3).
Proof.
  exists (encode (demo_record 3)). split_and!; [unfold dht_values; set_solver| |].
  - rewrite decode_encode by (apply demo_range; auto). by rewrite bool_decide_eq_false_2 by (vm_compute; done).
  - assert (is_ok (verify (demo_record 3) my_peer) = true) as H by (vm_compute; reflexivity). by destruct (verify _ _) as [[]|].
Qed.
Lemma dht_resolves_witness :
  ∃ r, valid dht_values my_peer r ∧ (∀ r', valid dht_values my_peer r' → sequence r' ≤ sequence r) ∧
    resolve (DnsError := unit) true no_resolver (DhtKey.default_record_key_validator ∅) (kad_of my_peer) ∅ (Path.mk (Path.Ipns my_peer) []) =
      Done (map_err PathError (Path.from_str (Utf8Lossy.from_utf8_lossy (value r)))).
Proof.
  destruct (dht_resolves (DnsError := unit) no_resolver ∅ (kad_of my_peer) ∅ my_peer [] dht_values) as [_ H]; [reflexivity|reflexivity|].
  apply H. exists (demo_record 3). exact demo_valid.
Defined.

Lemma forged_record_resolves_witness :
  ∃ r, new me (str_bytes (Path.to_string demo_path)) demo_eol 3 60000 = Ok r ∧
    verify (mkRecord (data r) (value r) (validity_type r) (validity r) (sequence r) (ttl r)
      (public_to_protobuf (public me)) (signature_v1 r) (signature_v2 r)) 7%nat = Ok tt.
Proof.
  destruct (forged_record_resolves (DhtError := unit) (DnsError := unit) me 7%nat demo_path demo_eol 3 no_resolver validators no_kad ∅ [])
    as (r & H1 & H2 & _).
  - reflexivity.
  - exact demo_path_ok.
  - vm_compute. reflexivity.
  - lia.
  - exists r. split; [exact H1|exact H2].
Defined.

(** Two names that lead to each other, and a name of a file. *)
Definition name_of (n : nat) : Path.IpfsPath := Path.mk (Path.Ipns (n : PeerId)) [].
Definition other (n : nat) : nat := match n with 1 => 2 | _ => 1 end%nat.
Definition cycle_step (x : Path.IpfsPath) : outcome (result Path.IpfsPath (NameError (DhtError := unit) (DnsError := unit))) :=
  match Path.root x with
  | Path.Ipns p => Done (Ok (name_of (other p)))
  | _ => Done (Ok demo_path)
  end.
Definition cycle_paths : list Path.IpfsPath := [name_of 1; name_of 2].
Lemma names_followed_witness :
  ∃ r, resolve_ipns 3 cycle_step (name_of 1) true = Done r ∧ ∀ y, r = Ok y → tc (leads cycle_step) y y.
Proof.
  apply (names_followed (DhtError := unit) (DnsError := unit) cycle_step cycle_paths (name_of 1) (name_of 2)).
  - intros x [->|[->| ?%elem_of_nil]%elem_of_cons]%elem_of_cons; [by eexists|by eexists|done].
  - intros x y [->|[->| ?%elem_of_nil]%elem_of_cons]%elem_of_cons; [| |done]; intros [= <-]; unfold cycle_paths; set_solver.
  - reflexivity.
  - unfold cycle_paths. set_solver.
Defined.

(** The path below a name is dropped. *)
Example path_below_name_dropped bs : record_path (DhtError := unit) (DnsError := unit) bs my_peer = Done (Ok demo_path) →
  resolve true no_resolver validators no_kad {[ name_key my_peer := bs ]} (Path.mk (Path.Ipns my_peer) ["a"; "b"]) = Done (Ok demo_path).
Proof. intros H. unfold resolve. cbn [Path.root]. rewrite lookup_singleton_eq. by rewrite H. Qed.
(** A key that decodes to nothing. *)
Example short_key_panics : DhtKey.dht_key validators (str_bytes "/ipns/k") = Panic.
Proof. vm_compute. reflexivity. Qed.
End IpnsWitness.
