(* ===== verification/Network.v ===== *)
(** * The network layer of bitswap

    packages/beetle-bitswap-next/src: protocol.rs (protocols and the framing of
    messages), handler.rs (one connection), network.rs (what the client and the
    server ask of the network) and lib.rs (the behaviour that the swarm drives).
    Connections, streams, timers and the swarm belong to libp2p; what they do is an
    argument of the operations. *)
From stdpp Require Import base gmap list strings pretty.
From Stdlib Require Import Strings.Byte.
From S2P Require Import Prelude Protobuf BitswapPb BitswapMessage.
Local Open Scope Z_scope.

Notation ConnectionId := nat (only parsing).

(** ** protocol.rs *)
Module Protocol.
Inductive ProtocolId := Legacy | Bitswap100 | Bitswap110 | Bitswap120.
#[export] Instance ProtocolId_eq_dec : EqDecision ProtocolId.
Proof. solve_decision. Defined.

Definition as_ref (p : ProtocolId) : string :=
  match p with
  | Legacy => "/ipfs/bitswap"
  | Bitswap100 => "/ipfs/bitswap/1.0.0"
  | Bitswap110 => "/ipfs/bitswap/1.1.0"
  | Bitswap120 => "/ipfs/bitswap/1.2.0"
  end.
Definition try_from (s : string) : option ProtocolId :=
  if bool_decide (s = as_ref Legacy) then Some Legacy
  else if bool_decide (s = as_ref Bitswap100) then Some Bitswap100
  else if bool_decide (s = as_ref Bitswap110) then Some Bitswap110
  else if bool_decide (s = as_ref Bitswap120) then Some Bitswap120
  else None.
(** The derived order. *)
Definition number (p : ProtocolId) : nat := match p with Legacy => 0 | Bitswap100 => 1 | Bitswap110 => 2 | Bitswap120 => 3 end.
Definition supports_have (p : ProtocolId) : bool := match p with Bitswap120 => true | _ => false end.

Record ProtocolConfig := mkConfig { protocol_ids : list ProtocolId; max_transmit_size : Z }.
Definition ProtocolConfig_default : ProtocolConfig := mkConfig [Bitswap120; Bitswap110; Bitswap100; Legacy] (1024 * 1024 * 2).
End Protocol.

(** The crate [unsigned_varint]: frames with their length in front.  Incomplete input
    gives [None]; [true] is an error of the kind [PermissionDenied]. *)
Class UviBytes := {
  IoError : Type;
  permission_denied : IoError → bool;
  uvi_encode : Z → list byte → result (list byte) IoError;
  uvi_decode : Z → list byte → result (option (list byte * list byte)) IoError;
  uvi_roundtrip max b : vec_len b ≤ max → ∃ w, uvi_encode max b = Ok w ∧ ∀ rest, uvi_decode max (w ++ rest) = Ok (Some (b, rest));
  uvi_too_long max b : max < vec_len b → ∃ e, uvi_encode max b = Err e;
}.

Module Codec.
Import Protocol.
Section codec.
  Context {ids : Ids} {cc : CidCodec} {cp : CidParts} {qp : QuickProtobuf} {ho : HashOrder} {uv : UviBytes}.
Inductive BitswapHandlerError :=
  | MaxTransmissionSize
  | NegotiationTimeout
  | NegotiationProtocolError (e : string)
  | Io (e : IoError)
  | Bitswap (e : BitswapMessage.Error).

Definition encode (max : Z) (protocol : ProtocolId) (item : BitswapMessage.BitswapMessage) : outcome (result (list byte) BitswapHandlerError) :=
  message ← match protocol with
            | Legacy | Bitswap100 => mret (BitswapMessage.encode_as_proto_v0 item)
            | Bitswap110 | Bitswap120 => BitswapMessage.encode_as_proto_v1 item
            end;
  mret (map_err (λ _, MaxTransmissionSize) (uvi_encode max (BitswapPb.Message_write message))).

(** The item and what is left of the input. *)
Definition decode (max : Z) (protocol : ProtocolId) (src : list byte) :
    outcome (result (option (BitswapMessage.BitswapMessage * ProtocolId * list byte)) BitswapHandlerError) :=
  match uvi_decode max src with
  | Err e => mret (Err (if permission_denied e then MaxTransmissionSize else Io e))
  | Ok None => mret (Ok None)
  | Ok (Some (packet, rest)) =>
      m ← BitswapMessage.try_from_bytes packet;
      mret (let? m := map_err Bitswap m in Ok (Some (m, protocol, rest)))
  end.
End codec.
End Codec.

(** ** handler.rs: one connection *)
Module Handler.
Import Protocol.
Section handler.
  Context {Message Error : Type}.
  (** [BitswapHandlerError::MaxTransmissionSize] and [NegotiationTimeout]. *)
  Context (max_transmission_size : Error → bool) (negotiation_timeout : Error).
Notation Sender := nat.

Inductive HandlerEvent :=
  | EMessage (m : Message) (p : ProtocolId)
  | EConnected (p : ProtocolId)
  | EProtocolNotSupported
  | EFailedToSendMessage (e : Error).
Inductive SendError := SendProtocolNotSupported | SendOther (e : Error).
Inductive BitswapHandlerIn := InMessage (m : Message) (response : Sender) | Protect | Unprotect.
Inductive KeepAlive := Until (t : Z) | Yes.
Inductive ConnectionHandlerEvent :=
  | NotifyBehaviour (e : HandlerEvent)
  | CloseWith (e : Error)
  | OutboundSubstreamRequest (config : ProtocolConfig) (m : Message) (response : Sender).
(** The error in [UpgradeIo] is [BitswapHandlerError::Io] of what libp2p reports. *)
Inductive StreamUpgradeError := Timeout | NegotiationFailed | UpgradeIo (e : Error) | Apply (e : Error).

(** A stream is the events that it still yields. *)
Record Handler := mkHandler {
  listen_protocol : ProtocolConfig;
  outbound_substreams : list (list ConnectionHandlerEvent);
  inbound_substreams : list (list ConnectionHandlerEvent);
  events : list ConnectionHandlerEvent;
  send_queue : list (Message * Sender);
  protocol : option ProtocolId;
  idle_timeout : Z;
  upgrade_errors : list StreamUpgradeError;
  keep_alive : KeepAlive;
}.
Implicit Types h : Handler.

Definition INITIAL_KEEP_ALIVE : Z := 30.
Definition new (protocol_config : ProtocolConfig) (idle_timeout now : Z) : Handler :=
  mkHandler protocol_config [] [] [] [] None idle_timeout [] (Until (now + INITIAL_KEEP_ALIVE)).

Definition set_streams (o i : list (list ConnectionHandlerEvent)) (p : option ProtocolId) h : Handler :=
  mkHandler (listen_protocol h) o i (events h) (send_queue h) p (idle_timeout h) (upgrade_errors h) (keep_alive h).
Definition set_keep_alive (k : KeepAlive) h : Handler :=
  mkHandler (listen_protocol h) (outbound_substreams h) (inbound_substreams h) (events h) (send_queue h) (protocol h) (idle_timeout h) (upgrade_errors h) k.
Definition set_queue (q : list (Message * Sender)) h : Handler :=
  mkHandler (listen_protocol h) (outbound_substreams h) (inbound_substreams h) (events h) q (protocol h) (idle_timeout h) (upgrade_errors h) (keep_alive h).
Definition set_errors (l : list StreamUpgradeError) h : Handler :=
  mkHandler (listen_protocol h) (outbound_substreams h) (inbound_substreams h) (events h) (send_queue h) (protocol h) (idle_timeout h) l (keep_alive h).
Definition set_events (l : list ConnectionHandlerEvent) h : Handler :=
  mkHandler (listen_protocol h) (outbound_substreams h) (inbound_substreams h) l (send_queue h) (protocol h) (idle_timeout h) (upgrade_errors h) (keep_alive h).

Definition on_behaviour_event (message : BitswapHandlerIn) (now : Z) h : Handler :=
  match message with
  | InMessage m response => set_keep_alive (Until (now + idle_timeout h)) (set_queue (send_queue h ++ [(m, response)]) h)
  | Protect => set_keep_alive Yes h
  | Unprotect => set_keep_alive (Until (now + INITIAL_KEEP_ALIVE)) h
  end.

(** What a stream yields: for the items that come in, and for the outcome of writing a
    message, which also answers its sender. *)
Fixpoint inbound_substream (items : list (result (Message * ProtocolId) Error)) : list ConnectionHandlerEvent :=
  match items with
  | [] => []
  | Ok (m, p) :: items => NotifyBehaviour (EMessage m p) :: inbound_substream items
  | Err e :: items => if max_transmission_size e then inbound_substream items else [CloseWith e]
  end.
Definition outbound_substream (feed : result unit Error) : list ConnectionHandlerEvent * result unit SendError :=
  match feed with
  | Err e => ([NotifyBehaviour (EFailedToSendMessage e)], Err (SendOther e))
  | Ok _ => ([], Ok tt)
  end.

Inductive ConnectionEvent :=
  | FullyNegotiatedInbound (p : ProtocolId) (items : list (result (Message * ProtocolId) Error))
  | FullyNegotiatedOutbound (p : ProtocolId) (message : Message) (response : Sender) (feed : result unit Error)
  | AddressChange
  | DialUpgradeError (error : StreamUpgradeError)
  | ListenUpgradeError
  | OtherConnectionEvent.

Definition or_protocol (p : ProtocolId) h : option ProtocolId := match protocol h with None => Some p | Some q => Some q end.
(** Also what the new stream answers to the sender of its message; [feed] is the outcome
    of writing it. *)
Definition on_connection_event (event : ConnectionEvent) h : outcome (Handler * list (Sender * result unit SendError)) :=
  match event with
  | FullyNegotiatedInbound p items =>
      mret (set_streams (outbound_substreams h) (inbound_substreams h ++ [inbound_substream items]) (or_protocol p h) h, [])
  | FullyNegotiatedOutbound p _ response feed =>
      let '(stream, answer) := outbound_substream feed in
      mret (set_streams (outbound_substreams h ++ [stream]) (inbound_substreams h) (or_protocol p h) h, [(response, answer)])
  | AddressChange => Panic
  | DialUpgradeError error => mret (set_errors (upgrade_errors h ++ [error]) h, [])
  | ListenUpgradeError | OtherConnectionEvent => mret (h, [])
  end.

(** [SelectAll::poll_next_unpin]: the stream [i], if it has an event ready. *)
Definition select (i : option nat) (l : list (list ConnectionHandlerEvent)) : option (ConnectionHandlerEvent * list (list ConnectionHandlerEvent)) :=
  match i with
  | Some i => match l !! i with Some (e :: rest) => Some (e, <[i := rest]> l) | _ => None end
  | None => None
  end.
Definition reported_error (error : StreamUpgradeError) : Error :=
  match error with
  | Timeout | NegotiationFailed => negotiation_timeout
  | UpgradeIo e => e
  | Apply negotiation_error => negotiation_error
  end.
Definition poll (ready_out ready_in : option nat) (now : Z) h : option ConnectionHandlerEvent * Handler :=
  match events h with
  | e :: l => (Some e, set_events l h)
  | [] =>
      match upgrade_errors h with
      | e :: l => (Some (CloseWith (reported_error e)), set_errors l h)
      | [] =>
          match send_queue h with
          | (m, response) :: q => (Some (OutboundSubstreamRequest (listen_protocol h) m response), set_queue q h)
          | [] =>
              match select ready_out (outbound_substreams h) with
              | Some (e, o) => (Some e, set_streams o (inbound_substreams h) (protocol h) h)
              | None =>
                  match select ready_in (inbound_substreams h) with
                  | Some (e, i) =>
                      let h := set_streams (outbound_substreams h) i (protocol h) h in
                      (Some e, match e with NotifyBehaviour (EMessage _ _) => set_keep_alive (Until (now + idle_timeout h)) h | _ => h end)
                  | None => (None, h)
                  end
              end
          end
      end
  end.
End handler.
Arguments HandlerEvent : clear implicits.
Arguments BitswapHandlerIn : clear implicits.
End Handler.

(** ** network.rs: what is asked of the network *)
Module Network.
Import Protocol.
Section network.
  Context {ids : Ids} {Message BitswapEvent Error : Type}.
Notation Sender := nat.

Inductive OutEvent :=
  | Dial (peer : PeerId) (response : Sender) (id : nat)
  | Disconnect (peer : PeerId) (response : Sender)
  | SendMessage (peer : PeerId) (m : Message) (response : Sender) (connection_id : ConnectionId)
  | GenerateEvent (e : BitswapEvent)
  | ProtectPeer (peer : PeerId)
  | UnprotectPeer (peer : PeerId) (response : Sender).

(** One try: what came back through the channel of the response. *)
Inductive Answer := Sent | NotSupported | Failed (e : Error) | ChannelGone.
Inductive SendFailure := ProtocolNotSupported | Gone | AllFailed (errors : list Error).
(** What a call does, in order. *)
Inductive Step := Try (i : nat) | Sleep | Hangup.

(** [for i in 1..=retries]: [n] tries are left, [i] is the next. *)
Fixpoint tries (retries n i : nat) (errors : list Error) (answers : list Answer) : result unit SendFailure * list Step :=
  match n with
  | O => (Err (AllFailed errors), [])
  | S n =>
      match answers with
      | [] | ChannelGone :: _ => (Err Gone, [Try i])
      | Sent :: _ => (Ok tt, [Try i])
      | NotSupported :: _ => (Err ProtocolNotSupported, [Try i; Hangup])
      | Failed e :: answers =>
          let '(r, steps) := tries retries n (S i) (errors ++ [e]) answers in
          (r, Try i :: (if bool_decide (i < retries - 1)%nat then [Sleep] else []) ++ steps)
      end
  end.
Definition send_message_with_retry (retries : nat) (answers : list Answer) : result unit SendFailure * list Step :=
  tries retries retries 1 [] answers.

(** Durations in seconds. *)
Definition MAX_SEND_TIMEOUT : Z := 3 * 60 + 5.
Definition MIN_SEND_TIMEOUT : Z := 2.
Definition SEND_LATENCY : Z := 2.
Definition MIN_SEND_RATE : Z := 100 * 1000 / 8.
Definition send_timeout (size : Z) : Z := Z.max MIN_SEND_TIMEOUT (Z.min (SEND_LATENCY + size / MIN_SEND_RATE) MAX_SEND_TIMEOUT).

(** [MessageSender::supports_have]. *)
Definition sender_supports_have (protocol_id : option ProtocolId) : bool := default true (supports_have <$> protocol_id).
End network.
Arguments OutEvent {ids} Message BitswapEvent.
End Network.

(** ** lib.rs: the behaviour *)
Module Bitswap.
Import Protocol Handler Network.
Section behaviour.
  Context {ids : Ids} {Message BitswapEvent Error : Type}.
Notation Sender := nat.

Inductive PeerState :=
  | Connected (c : ConnectionId)
  | Responsive (c : ConnectionId) (p : ProtocolId)
  | Unresponsive
  | Disconnected
  | DialFailure (t : Z).
#[export] Instance PeerState_eq_dec : EqDecision PeerState.
Proof. solve_decision. Defined.
Definition is_connected (s : PeerState) : bool := match s with Connected _ | Responsive _ _ => true | _ => false end.

Definition DIAL_BACK_OFF : Z := 10 * 60.
Definition channel_size : nat := 2048.

Inductive Reply :=
  | DialReply (tx : Sender) (r : result (ConnectionId * option ProtocolId) string)
  | DisconnectReply (tx : Sender)
  | UnprotectReply (tx : Sender) (b : bool).
Inductive ToSwarm :=
  | CloseAll (p : PeerId)
  | DialPeer (p : PeerId)
  | Generate (e : BitswapEvent)
  | NotifyHandler (p : PeerId) (c : ConnectionId) (e : BitswapHandlerIn Message).

(** [network]: the queue that [Network::poll] takes from.  The other queues are
    those of the three workers. *)
Record Behaviour := mkBehaviour {
  network : list (OutEvent Message BitswapEvent);
  peers : gmap PeerId PeerState;
  dials : gmap PeerId (list (nat * Sender));
  pause_dialing : bool;
  incoming_messages : list (PeerId * Message);
  peers_connected : list PeerId;
  peers_disconnected : list PeerId;
}.
Implicit Types b : Behaviour.
Definition empty : Behaviour := mkBehaviour [] ∅ ∅ false [] [] [].

Definition set_network (n : list (OutEvent Message BitswapEvent)) b : Behaviour :=
  mkBehaviour n (peers b) (dials b) (pause_dialing b) (incoming_messages b) (peers_connected b) (peers_disconnected b).
Definition set_dials (d : gmap PeerId (list (nat * Sender))) b : Behaviour :=
  mkBehaviour (network b) (peers b) d (pause_dialing b) (incoming_messages b) (peers_connected b) (peers_disconnected b).
Definition set_pause (x : bool) b : Behaviour :=
  mkBehaviour (network b) (peers b) (dials b) x (incoming_messages b) (peers_connected b) (peers_disconnected b).

(** [try_send] drops what does not fit. *)
Definition try_send {A} (x : A) (q : list A) : list A := if bool_decide (length q < channel_size)%nat then q ++ [x] else q.
Definition peer_connected (p : PeerId) b : Behaviour :=
  mkBehaviour (network b) (peers b) (dials b) (pause_dialing b) (incoming_messages b) (try_send p (peers_connected b)) (peers_disconnected b).
Definition peer_disconnected (p : PeerId) b : Behaviour :=
  mkBehaviour (network b) (peers b) (dials b) (pause_dialing b) (incoming_messages b) (peers_connected b) (try_send p (peers_disconnected b)).
Definition receive_message (p : PeerId) (m : Message) b : Behaviour :=
  mkBehaviour (network b) (peers b) (dials b) (pause_dialing b) (try_send (p, m) (incoming_messages b)) (peers_connected b) (peers_disconnected b).

Definition get_peer_state (p : PeerId) b : option PeerState := peers b !! p.
Definition set_peers (m : gmap PeerId PeerState) b : Behaviour :=
  mkBehaviour (network b) m (dials b) (pause_dialing b) (incoming_messages b) (peers_connected b) (peers_disconnected b).

Definition both_connected (old new : PeerState) : bool :=
  match old, new with Connected _, Connected _ => true | _, _ => false end.
Definition set_peer_state (p : PeerId) (new_state : PeerState) b : Behaviour :=
  match peers b !! p with
  | Some old_state =>
      if bool_decide (old_state = new_state) then b
      else if both_connected old_state new_state then b
      else
        let b := set_peers (if bool_decide (new_state = Disconnected) then delete p (peers b) else <[p := new_state]> (peers b)) b in
        match new_state with
        | DialFailure _ | Disconnected | Unresponsive => if is_connected old_state then peer_disconnected p b else b
        | Connected _ => b
        | Responsive _ _ => peer_connected p b
        end
  | None =>
      let b := if bool_decide (new_state = Disconnected) then b else set_peers (<[p := new_state]> (peers b)) b in
      match new_state with
      | DialFailure _ | Disconnected | Unresponsive => peer_disconnected p b
      | Connected _ => b
      | Responsive _ _ => peer_connected p b
      end
  end.

(** The best protocol: the last one of the sorted list. *)
Definition best_protocol (l : list ProtocolId) : option ProtocolId :=
  foldl (λ acc p, match acc with Some q => if bool_decide (number q ≤ number p)%nat then Some p else Some q | None => Some p end) None l.
Definition on_identify (p : PeerId) (protocols : list string) b : Behaviour :=
  match get_peer_state p b with
  | Some (Connected conn_id) =>
      match best_protocol (omap try_from protocols) with
      | Some best => set_peer_state p (Responsive conn_id best) b
      | None => b
      end
  | _ => b
  end.

(** [while let Some((id, sender)) = dials.pop()]: from the end. *)
Definition answer_dials (p : PeerId) (r : result (ConnectionId * option ProtocolId) string) b : Behaviour * list Reply :=
  match dials b !! p with
  | Some l => (set_dials (delete p (dials b)) b, (λ d, DialReply d.2 r) <$> reverse l)
  | None => (b, [])
  end.

(** *** The events of the swarm *)
Definition connection_established (p : PeerId) (c : ConnectionId) b : Behaviour := set_pause false (set_peer_state p (Connected c) b).
Definition connection_closed (p : PeerId) (remaining_established : nat) b : Behaviour :=
  let b := set_pause false b in
  if bool_decide (remaining_established = 0%nat) then set_peer_state p Disconnected b else b.
Definition dial_failure (p : option PeerId) (denied : bool) (error : string) (now : Z) b : Behaviour * list Reply :=
  match p with
  | Some p =>
      let b := if denied then set_peer_state p Disconnected (set_pause true b) else set_peer_state p (DialFailure now) b in
      answer_dials p (Err error) b
  | None => (b, [])
  end.

Definition on_connection_handler_event (p : PeerId) (c : ConnectionId) (event : HandlerEvent Message Error) b : Behaviour * list Reply :=
  match event with
  | EConnected protocol => answer_dials p (Ok (c, Some protocol)) (set_peer_state p (Responsive c protocol) b)
  | EProtocolNotSupported => answer_dials p (Err "protocol not supported") (set_peer_state p Unresponsive b)
  | EMessage m protocol => (receive_message p m (set_peer_state p (Responsive c protocol) b), [])
  | EFailedToSendMessage _ => (b, [])
  end.

(** *** Polling: one event of the network; [None] goes on with the next. *)
Definition undialable (id : nat) : string := "dial:" +:+ pretty id +:+ ": undialable peer".
Definition dialing_paused (id : nat) : string := "dial:" +:+ pretty id +:+ ": dialing paused".
Definition poll_event (ev : OutEvent Message BitswapEvent) (now : Z) b : option ToSwarm * Behaviour * list Reply :=
  match ev with
  | Disconnect p response => (Some (CloseAll p), b, [DisconnectReply response])
  | Dial p response id =>
      let dial :=
        if pause_dialing b then (None, b, [DialReply response (Err (dialing_paused id))])
        else (Some (DialPeer p), set_dials (<[p := default [] (dials b !! p) ++ [(id, response)]]> (dials b)) b, []) in
      match get_peer_state p b with
      | Some (Responsive conn protocol_id) => (None, b, [DialReply response (Ok (conn, Some protocol_id))])
      | Some (Connected conn) => (None, b, [DialReply response (Ok (conn, None))])
      | Some (DialFailure dialed) =>
          if bool_decide (now - dialed < DIAL_BACK_OFF) then (None, b, [DialReply response (Err (undialable id))]) else dial
      | _ => dial
      end
  | GenerateEvent e => (Some (Generate e), b, [])
  | SendMessage p m response c => (Some (NotifyHandler p c (InMessage m response)), b, [])
  | ProtectPeer p =>
      match get_peer_state p b with
      | Some (Responsive c _) => (Some (NotifyHandler p c Protect), b, [])
      | _ => (None, b, [])
      end
  | UnprotectPeer p response =>
      match get_peer_state p b with
      | Some (Responsive c _) => (Some (NotifyHandler p c Unprotect), b, [UnprotectReply response true])
      | _ => (None, b, [UnprotectReply response false])
      end
  end.
Fixpoint poll_loop (n : nat) (now : Z) b : option ToSwarm * Behaviour * list Reply :=
  match n with
  | O => (None, b, [])
  | S n =>
      match network b with
      | [] => (None, b, [])
      | ev :: rest =>
          match poll_event ev now (set_network rest b) with
          | (Some out, b, replies) => (Some out, b, replies)
          | (None, b, replies) => let '(out, b, more) := poll_loop n now b in (out, b, replies ++ more)
          end
      end
  end.
Definition poll (now : Z) b : option ToSwarm * Behaviour * list Reply := poll_loop 50 now b.
End behaviour.
Arguments Behaviour {ids} Message BitswapEvent.
Arguments ToSwarm {ids} Message BitswapEvent.
End Bitswap.
