(* ===== verification/NetworkProofs.v ===== *)
(** * The network layer: the swarm around the behaviour, and lemmas on both

    The swarm keeps the established connections, calls the behaviour in any order
    that they allow, and the workers take from the queues of the behaviour. *)
From stdpp Require Import base gmap list strings.
From Stdlib Require Import Strings.Byte.
From S2P Require Import Prelude Protobuf BitswapPb BitswapMessage Network.
Local Open Scope Z_scope.

Module BitswapSystem.
Import Protocol Handler Network Bitswap.
Section system.
  Context {ids : Ids} {Message BitswapEvent Error : Type}.
Notation Sender := nat.
Notation Behaviour := (Behaviour Message BitswapEvent).
Notation OutEvent := (OutEvent Message BitswapEvent).

(** ** One change of the state of a peer *)
Definition state_after (old : option PeerState) (new : PeerState) : option PeerState :=
  match old with
  | Some o =>
      if bool_decide (o = new) || both_connected o new then Some o else if bool_decide (new = Disconnected) then None else Some new
  | None => if bool_decide (new = Disconnected) then None else Some new
  end.
(** [Some true]: the client and the server are told that the peer is there, [Some
    false]: that it is gone. *)
Definition note_of (old : option PeerState) (new : PeerState) : option bool :=
  match old with
  | Some o =>
      if bool_decide (o = new) || both_connected o new then None
      else match new with
           | DialFailure _ | Disconnected | Unresponsive => if is_connected o then Some false else None
           | Connected _ => None
           | Responsive _ _ => Some true
           end
  | None =>
      match new with
      | DialFailure _ | Disconnected | Unresponsive => Some false
      | Connected _ => None
      | Responsive _ _ => Some true
      end
  end.
Definition told (n : option bool) (which : bool) (p : PeerId) (q : list PeerId) : list PeerId :=
  if bool_decide (n = Some which) then try_send p q else q.

Lemma set_peer_state_eq p new (b : Behaviour) :
  let b' := set_peer_state p new b in
  (∀ q, peers b' !! q = if bool_decide (q = p) then state_after (peers b !! p) new else peers b !! q) ∧
  network b' = network b ∧ dials b' = dials b ∧ incoming_messages b' = incoming_messages b ∧
  peers_connected b' = told (note_of (peers b !! p) new) true p (peers_connected b) ∧
  peers_disconnected b' = told (note_of (peers b !! p) new) false p (peers_disconnected b).
Proof.
  cbv zeta. unfold set_peer_state, state_after, note_of, told. destruct (peers b !! p) as [old|] eqn:E.
  - destruct (bool_decide (old = new)) eqn:E1; cbn [orb].
    { clear E1. split_and!; try done. intros q. case_bool_decide; by subst. }
    destruct (both_connected old new) eqn:E2.
    { clear E1. split_and!; try done. intros q. case_bool_decide; by subst. }
    clear E1. split.
    + intros q. destruct new; try destruct (is_connected old); simpl;
        (rewrite ?bool_decide_eq_true_2, ?bool_decide_eq_false_2 by done); case_bool_decide; simplify_map_eq; done.
    + destruct new; try destruct (is_connected old); simpl; split_and!; reflexivity.
  - split.
    + intros q. destruct new; simpl; case_bool_decide; simplify_map_eq; done.
    + destruct new; simpl; split_and!; reflexivity.
Qed.

(** ** The system *)
Record System := mkSystem {
  book : Behaviour;
  conns : gmap ConnectionId PeerId;
  replies : list Reply;
  asked : list Sender;
  notes : list (bool * PeerId);
  taken_connected : list PeerId;
  taken_disconnected : list PeerId;
}.
Definition start : System := mkSystem Bitswap.empty ∅ [] [] [] [] [].

(** Senders that are answered by the behaviour itself. *)
Definition event_tx (e : OutEvent) : list Sender :=
  match e with Dial _ tx _ | Disconnect _ tx | UnprotectPeer _ tx => [tx] | _ => [] end.
Definition reply_tx (r : Reply) : Sender := match r with DialReply tx _ | DisconnectReply tx | UnprotectReply tx _ => tx end.

Inductive Action :=
  | Ask (e : OutEvent)
  | Establish (p : PeerId) (c : ConnectionId)
  | Close (c : ConnectionId)
  | FailDial (p : option PeerId) (denied : bool) (error : string) (now : Z)
  | HandlerSays (c : ConnectionId) (e : HandlerEvent Message Error)
  | Identify (p : PeerId) (protocols : list string)
  | Poll (now : Z)
  | TakeMessage
  | TakeConnected
  | TakeDisconnected.

Definition enabled (a : Action) (s : System) : Prop :=
  match a with
  | Ask e => ∀ tx, tx ∈ event_tx e → tx ∉ asked s
  | Establish p c => conns s !! c = None
  | Close c | HandlerSays c _ => is_Some (conns s !! c)
  | _ => True
  end.

(** How many connections of the peer are left. *)
Definition remaining (m : gmap ConnectionId PeerId) (p : PeerId) : nat := size (filter (λ x, x.2 = p) m).

(** The change of state that an action makes, if it makes one. *)
Definition change (a : Action) (s : System) : option (PeerId * PeerState) :=
  match a with
  | Establish p c => Some (p, Connected c)
  | Close c =>
      match conns s !! c with
      | Some p => if bool_decide (remaining (delete c (conns s)) p = 0%nat) then Some (p, Disconnected) else None
      | None => None
      end
  | FailDial (Some p) denied _ now => Some (p, if denied then Disconnected else DialFailure now)
  | HandlerSays c e =>
      match conns s !! c, e with
      | Some p, EConnected q | Some p, EMessage _ q => Some (p, Responsive c q)
      | Some p, EProtocolNotSupported => Some (p, Unresponsive)
      | _, _ => None
      end
  | Identify p protocols =>
      match peers (book s) !! p, best_protocol (omap try_from protocols) with
      | Some (Connected c), Some q => Some (p, Responsive c q)
      | _, _ => None
      end
  | _ => None
  end.
Definition note (a : Action) (s : System) : list (bool * PeerId) :=
  match change a s with
  | Some (p, new) => match note_of (peers (book s) !! p) new with Some n => [(n, p)] | None => [] end
  | None => []
  end.

Definition step (a : Action) (s : System) : Behaviour * list Reply :=
  match a with
  | Ask e => (set_network (network (book s) ++ [e]) (book s), [])
  | Establish p c => (connection_established p c (book s), [])
  | Close c =>
      match conns s !! c with
      | Some p => (connection_closed p (remaining (delete c (conns s)) p) (book s), [])
      | None => (book s, [])
      end
  | FailDial p denied error now => dial_failure p denied error now (book s)
  | HandlerSays c e => match conns s !! c with Some p => on_connection_handler_event p c e (book s) | None => (book s, []) end
  | Identify p protocols => (on_identify p protocols (book s), [])
  | Poll now => let '(_, b, out) := poll now (book s) in (b, out)
  | TakeMessage =>
      (mkBehaviour (network (book s)) (peers (book s)) (dials (book s)) (pause_dialing (book s)) (tail (incoming_messages (book s)))
         (peers_connected (book s)) (peers_disconnected (book s)), [])
  | TakeConnected =>
      (mkBehaviour (network (book s)) (peers (book s)) (dials (book s)) (pause_dialing (book s)) (incoming_messages (book s))
         (tail (peers_connected (book s))) (peers_disconnected (book s)), [])
  | TakeDisconnected =>
      (mkBehaviour (network (book s)) (peers (book s)) (dials (book s)) (pause_dialing (book s)) (incoming_messages (book s))
         (peers_connected (book s)) (tail (peers_disconnected (book s))), [])
  end.
Definition act (a : Action) (s : System) : System :=
  let '(b, out) := step a s in
  mkSystem b
    (match a with Establish p c => <[c := p]> (conns s) | Close c => delete c (conns s) | _ => conns s end)
    (replies s ++ out)
    (match a with Ask e => event_tx e ++ asked s | _ => asked s end)
    (notes s ++ note a s)
    (taken_connected s ++ match a with TakeConnected => option_list (head (peers_connected (book s))) | _ => [] end)
    (taken_disconnected s ++ match a with TakeDisconnected => option_list (head (peers_disconnected (book s))) | _ => [] end).
Inductive run : list Action → System → System → Prop :=
  | run_nil s : run [] s s
  | run_cons a acts s s' : enabled a s → run acts (act a s) s' → run (a :: acts) s s'.

Lemma run_inv (P : System → Prop) (Q : Action → Prop) acts s s' :
  (∀ a s, Q a → enabled a s → P s → P (act a s)) → Forall Q acts → run acts s s' → P s → P s'.
Proof. intros Hstep HQ Hr. induction Hr as [|a acts s s' He Hr IH]; [done|]. apply Forall_cons in HQ as [Ha HQ]. auto. Qed.

(** ** What a step changes *)
Definition same_peers (b b' : Behaviour) : Prop :=
  peers b' = peers b ∧ peers_connected b' = peers_connected b ∧ peers_disconnected b' = peers_disconnected b.
Lemma poll_event_peers ev now (b : Behaviour) : same_peers b (poll_event ev now b).1.2.
Proof.
  destruct ev; simpl; try done; destruct (get_peer_state _ b) as [[]|]; simpl; try done; repeat case_match; done.
Qed.
Lemma poll_loop_peers n now (b : Behaviour) : same_peers b (poll_loop n now b).1.2.
Proof.
  revert b. induction n as [|n IH]; intros b; [done|]. cbn [poll_loop]. destruct (network b) as [|ev rest]; [done|].
  pose proof (poll_event_peers ev now (set_network rest b)) as H. destruct (poll_event _ _ _) as [[[out|] b'] rs]; [done|].
  pose proof (IH b') as H'. destruct (poll_loop n now b') as [[out b''] more]. unfold same_peers in *. simpl in *. intuition congruence.
Qed.
Lemma answer_dials_peers p r (b : Behaviour) : same_peers b (answer_dials p r b).1.
Proof. unfold answer_dials. by destruct (dials b !! p). Qed.

(** The state of the peers and the queues after the change [ch]. *)
Definition changed (ch : option (PeerId * PeerState)) (b b' : Behaviour) : Prop :=
  match ch with
  | Some (p, new) =>
      (∀ q, peers b' !! q = if bool_decide (q = p) then state_after (peers b !! p) new else peers b !! q) ∧
      peers_connected b' = told (note_of (peers b !! p) new) true p (peers_connected b) ∧
      peers_disconnected b' = told (note_of (peers b !! p) new) false p (peers_disconnected b)
  | None => same_peers b b'
  end.
Lemma set_peer_state_changed p new (b : Behaviour) : changed (Some (p, new)) b (set_peer_state p new b).
Proof. pose proof (set_peer_state_eq p new b) as H. cbv zeta in H. unfold changed. tauto. Qed.
Lemma changed_same ch b b1 b2 : changed ch b b1 → same_peers b1 b2 → changed ch b b2.
Proof. intros H (E1 & E2 & E3). unfold changed, same_peers in *. destruct ch as [[p new]|]; rewrite ?E1, ?E2, ?E3; done. Qed.
Lemma changed_from ch b b1 b2 : same_peers b b1 → changed ch b1 b2 → changed ch b b2.
Proof. intros (E1 & E2 & E3) H. unfold changed, same_peers in *. destruct ch as [[p new]|]; rewrite ?E1, ?E2, ?E3 in H; done. Qed.

Definition takes (a : Action) : bool := match a with TakeConnected | TakeDisconnected => true | _ => false end.
Lemma step_changed a s : enabled a s → takes a = false → changed (change a s) (book s) (step a s).1.
Proof.
  intros He Ht. destruct a as [e|p c|c|p denied error now|c e|p protocols|now| | |]; try done; simpl in He; cbn [step change].
  - eapply changed_same; [apply set_peer_state_changed|done].
  - destruct He as [p Hp]. rewrite Hp. unfold connection_closed. cbn [fst]. case_bool_decide; [|done].
    eapply changed_from; [|apply set_peer_state_changed]. done.
  - destruct p as [p|]; [|done]. unfold dial_failure. eapply changed_same; [|apply answer_dials_peers].
    destruct denied; [|apply set_peer_state_changed]. eapply changed_from; [|apply set_peer_state_changed]. done.
  - destruct He as [p Hp]. rewrite Hp. destruct e; cbn [on_connection_handler_event fst].
    + eapply changed_same; [apply set_peer_state_changed|done].
    + eapply changed_same; [apply set_peer_state_changed|apply answer_dials_peers].
    + eapply changed_same; [apply set_peer_state_changed|apply answer_dials_peers].
    + done.
  - unfold on_identify, get_peer_state. destruct (peers (book s) !! p) as [[]|]; try done.
    destruct (best_protocol _); [apply set_peer_state_changed|done].
  - unfold poll. pose proof (poll_loop_peers 50 now (book s)) as H. by destruct (poll_loop 50 now (book s)) as [[out b] rs].
Qed.
(** Taking from a queue changes nothing else. *)
Lemma step_takes a s : takes a = true → peers (step a s).1 = peers (book s) ∧ change a s = None.
Proof. by destruct a. Qed.

Lemma act_book a s : book (act a s) = (step a s).1.
Proof. unfold act. by destruct (step a s). Qed.
Lemma act_notes a s : notes (act a s) = notes s ++ note a s.
Proof. unfold act. by destruct (step a s). Qed.
Lemma act_conns a s : conns (act a s) = match a with Establish p c => <[c := p]> (conns s) | Close c => delete c (conns s) | _ => conns s end.
Proof. unfold act. by destruct (step a s). Qed.
Lemma act_peers a s q : enabled a s →
  peers (book (act a s)) !! q =
  match change a s with
  | Some (p, new) => if bool_decide (q = p) then state_after (peers (book s) !! p) new else peers (book s) !! q
  | None => peers (book s) !! q
  end.
Proof.
  intros He. rewrite act_book. destruct (takes a) eqn:Ht.
  - destruct (step_takes a s Ht) as [-> ->]. done.
  - pose proof (step_changed a s He Ht) as H. destruct (change a s) as [[p new]|]; [apply H|]. destruct H as (-> & _). done.
Qed.

(** ** Invariant: peers that count as connected are connected *)
Definition linked (m : gmap ConnectionId PeerId) (p : PeerId) : Prop := ∃ c, m !! c = Some p.
Definition tracks (s : System) : Prop :=
  ∀ p st, peers (book s) !! p = Some st → st ≠ Disconnected ∧ (is_connected st = true → linked (conns s) p).

Lemma remaining_linked m p : remaining m p ≠ 0%nat → linked m p.
Proof.
  unfold remaining. intros H. destruct (map_choose (filter (λ x, x.2 = p) m)) as (c & q & Hc).
  { intros E. by rewrite E, map_size_empty in H. }
  apply map_lookup_filter_Some in Hc as [Hc ?]. simpl in *. subst q. by exists c.
Qed.
Lemma act_linked a s p : enabled a s → linked (conns s) p → linked (conns (act a s)) p ∨ change a s = Some (p, Disconnected).
Proof.
  intros He [c Hc]. rewrite act_conns. destruct a as [| q c'|c'| | | | | | |]; simpl in He; try (left; by exists c).
  - left. exists c. rewrite lookup_insert_ne; [done|]. congruence.
  - destruct He as [q Hq]. cbn [change]. rewrite Hq. destruct (decide (q = p)) as [->|Hne].
    + case_bool_decide as Hr; [by right|]. left. by apply remaining_linked.
    + left. exists c. rewrite lookup_delete_ne; [done|]. congruence.
Qed.
(** Where a new state that counts as connected comes from. *)
Lemma change_linked a s p new : enabled a s → tracks s → change a s = Some (p, new) → is_connected new = true → linked (conns (act a s)) p.
Proof.
  intros He Ht Hc Hn. rewrite act_conns. destruct a as [| q c'|c'|[q|] denied ? ?|c' e|q protocols| | | |]; simpl in He, Hc; try done.
  - injection Hc as <- <-. exists c'. apply lookup_insert_eq.
  - destruct He as [q Hq]. rewrite Hq in Hc. case_bool_decide; [|done]. by injection Hc as <- <-.
  - injection Hc as <- <-. by destruct denied.
  - destruct He as [q Hq]. exists c'. rewrite Hq in Hc |- *. destruct e; simplify_eq; done.
  - destruct (peers (book s) !! q) as [[]|] eqn:E; try done. destruct (best_protocol _); [|done]. injection Hc as <- <-. by apply (Ht _ _ E).
Qed.
Lemma state_after_cases old new st : state_after old new = Some st → st ≠ Disconnected ∧ st = new ∨ old = Some st.
Proof.
  unfold state_after. destruct old as [o|]; [destruct (_ || _); [by intros [= <-]; right|]|]; case_bool_decide; try done; intros [= <-]; by left.
Qed.
Lemma state_after_disconnected old : (∀ o, old = Some o → o ≠ Disconnected) → state_after old Disconnected = None.
Proof.
  intros H. unfold state_after. destruct old as [o|]; [|done]. rewrite bool_decide_eq_false_2 by by apply H.
  by destruct o.
Qed.
Lemma act_peers_track a s : enabled a s → tracks s → tracks (act a s).
Proof.
  intros He Ht p st. rewrite act_peers by done.
  assert (∀ q, peers (book s) !! q = Some st → change a s ≠ Some (q, Disconnected) →
    st ≠ Disconnected ∧ (is_connected st = true → linked (conns (act a s)) q)) as Hkeep.
  { intros q Hq Hne. destruct (Ht q st Hq) as [H1 H2]. split; [done|]. intros H3. by destruct (act_linked a s q He (H2 H3)). }
  destruct (change a s) as [[q new]|] eqn:Hc; [|intros H; by apply Hkeep]. case_bool_decide as Hq.
  - subst q. intros H. destruct (decide (new = Disconnected)) as [->|Hd].
    { rewrite state_after_disconnected in H; [done|]. intros o Ho. by apply (Ht p o). }
    destruct (state_after_cases _ _ _ H) as [[H1 ->]|H1].
    + split; [done|]. intros H2. by eapply change_linked.
    + apply Hkeep; [done|]. congruence.
  - intros H. apply Hkeep; [done|]. congruence.
Qed.

(** ** Invariant: what the client and the server were told last *)
Definition last_note (l : list (bool * PeerId)) (p : PeerId) : option bool := fst <$> last (filter (λ n, n.2 = p) l).
Lemma last_note_snoc l n p q : last_note (l ++ [(n, p)]) q = if bool_decide (q = p) then Some n else last_note l q.
Proof.
  unfold last_note. rewrite filter_app. case_bool_decide as H.
  - subst. rewrite filter_cons_True by done. by rewrite filter_nil, last_snoc.
  - rewrite filter_cons_False by (simpl; congruence). by rewrite filter_nil, app_nil_r.
Qed.
Definition announced (st : option PeerState) (n : option bool) : Prop :=
  match st with Some (Responsive _ _) => n = Some true | Some (Connected _) => True | _ => n ≠ Some true end.
Lemma announced_step old new n : announced old n →
  announced (state_after old new) (match note_of old new with Some b => Some b | None => n end).
Proof.
  unfold state_after, note_of, announced. intros H. destruct old as [o|]; [|by destruct new].
  destruct (bool_decide (o = new)) eqn:E; [done|]. cbn [orb]. destruct (both_connected o new) eqn:E2; [done|].
  by destruct new, o.
Qed.
Definition told_last (s : System) : Prop := ∀ p, announced (peers (book s) !! p) (last_note (notes s) p).
Lemma act_told_last a s : enabled a s → told_last s → told_last (act a s).
Proof.
  intros He Ht p. rewrite act_peers, act_notes by done. unfold note. specialize (Ht p).
  destruct (change a s) as [[q new]|]; [|by rewrite app_nil_r]. case_bool_decide as Hq.
  - subst q. pose proof (announced_step _ new _ Ht) as H. destruct (note_of _ new); [|by rewrite app_nil_r].
    rewrite last_note_snoc. by rewrite bool_decide_eq_true_2.
  - destruct (note_of _ new); [|by rewrite app_nil_r]. rewrite last_note_snoc. by rewrite bool_decide_eq_false_2.
Qed.

(** ** Invariant: what was told is in the queues, as long as they have room *)
Definition told_of (which : bool) (l : list (bool * PeerId)) : list PeerId := (filter (λ n, n.1 = which) l).*2.
Definition queued (s : System) : Prop :=
  (length (notes s) ≤ channel_size)%nat →
  taken_connected s ++ peers_connected (book s) = told_of true (notes s) ∧
  taken_disconnected s ++ peers_disconnected (book s) = told_of false (notes s).
Lemma told_of_snoc which l n p : told_of which (l ++ [(n, p)]) = told_of which l ++ (if bool_decide (n = which) then [p] else []).
Proof.
  unfold told_of. rewrite filter_app, fmap_app. case_bool_decide; [by rewrite filter_cons_True|by rewrite filter_cons_False].
Qed.
Lemma told_of_length which l : (length (told_of which l) ≤ length l)%nat.
Proof. unfold told_of. rewrite length_fmap. apply length_filter. Qed.
Lemma told_queue n which p q t l :
  t ++ q = told_of which l → (length l < channel_size)%nat →
  t ++ told n which p q = told_of which (l ++ match n with Some n => [(n, p)] | None => [] end).
Proof.
  intros E Hl. unfold told. destruct n as [n|]; [|by rewrite app_nil_r]. rewrite told_of_snoc, <-E.
  destruct (decide (n = which)) as [->|Hne].
  - rewrite !bool_decide_eq_true_2 by done. unfold try_send. rewrite bool_decide_eq_true_2; [by rewrite app_assoc|].
    pose proof (told_of_length which l) as Hlen. rewrite <-E, length_app in Hlen. lia.
  - rewrite !bool_decide_eq_false_2 by (done || congruence). by rewrite app_nil_r.
Qed.
Lemma act_queued a s : enabled a s → queued s → queued (act a s).
Proof.
  intros He Hq Hlen. rewrite act_notes in *. destruct (takes a) eqn:Ht.
  - assert (note a s = []) as E by (unfold note; by rewrite (proj2 (step_takes a s Ht))). rewrite E, app_nil_r in *.
    destruct (Hq Hlen) as [H1 H2]. destruct a; try done; simpl; rewrite <-H1, <-H2, ?app_nil_r; split; try done.
    + rewrite <-app_assoc. f_equal. by destruct (peers_connected (book s)).
    + rewrite <-app_assoc. f_equal. by destruct (peers_disconnected (book s)).
  - pose proof (step_changed a s He Ht) as Hc. unfold note in *. rewrite act_book.
    assert (taken_connected (act a s) = taken_connected s ∧ taken_disconnected (act a s) = taken_disconnected s) as [-> ->].
    { unfold act. destruct (step a s). destruct a; try done; simpl; by rewrite !app_nil_r. }
    rewrite length_app in Hlen. destruct (change a s) as [[p new]|].
    + destruct Hc as (_ & -> & ->). destruct (note_of _ new) as [n|] eqn:En.
      * simpl in Hlen. destruct Hq as [H1 H2]; [lia|]. split; (eapply (told_queue (Some n)); [done|lia]).
      * rewrite app_nil_r. unfold told. rewrite !bool_decide_eq_false_2 by done. apply Hq. simpl in Hlen. lia.
    + destruct Hc as (_ & -> & ->). rewrite app_nil_r. apply Hq. simpl in Hlen. lia.
Qed.

(** Whatever fits or not: nothing is made up, twice there or out of order. *)
Definition in_order (s : System) : Prop :=
  (taken_connected s ++ peers_connected (book s)) `sublist_of` told_of true (notes s) ∧
  (taken_disconnected s ++ peers_disconnected (book s)) `sublist_of` told_of false (notes s).
Lemma told_sublist n which p q t l :
  (t ++ q) `sublist_of` told_of which l →
  (t ++ told n which p q) `sublist_of` told_of which (l ++ match n with Some n => [(n, p)] | None => [] end).
Proof.
  intros E. unfold told. destruct n as [n|]; [|by rewrite app_nil_r]. rewrite told_of_snoc.
  destruct (decide (n = which)) as [->|Hne].
  - rewrite !bool_decide_eq_true_2 by done. unfold try_send. case_bool_decide; [rewrite app_assoc; by apply sublist_app|].
    by apply sublist_inserts_r.
  - rewrite !bool_decide_eq_false_2 by (done || congruence). by rewrite app_nil_r.
Qed.
Lemma act_in_order a s : enabled a s → in_order s → in_order (act a s).
Proof.
  intros He [H1 H2]. unfold in_order. rewrite act_notes. destruct (takes a) eqn:Ht.
  - assert (note a s = []) as -> by (unfold note; by rewrite (proj2 (step_takes a s Ht))). rewrite app_nil_r.
    destruct a; try done; simpl; rewrite ?app_nil_r; split; try done; rewrite <-app_assoc.
    + by destruct (peers_connected (book s)).
    + by destruct (peers_disconnected (book s)).
  - pose proof (step_changed a s He Ht) as Hc. unfold note in *. rewrite act_book.
    assert (taken_connected (act a s) = taken_connected s ∧ taken_disconnected (act a s) = taken_disconnected s) as [-> ->].
    { unfold act. destruct (step a s). destruct a; try done; simpl; by rewrite !app_nil_r. }
    destruct (change a s) as [[p new]|]; destruct Hc as (_ & -> & ->); [|by rewrite app_nil_r].
    destruct (note_of _ new) as [n|].
    + split; by apply (told_sublist (Some n)).
    + split; by apply (told_sublist None _ p).
Qed.

(** ** Invariant: every caller waits in one place or was answered *)
Definition dial_senders (m : gmap PeerId (list (nat * Sender))) : list Sender := concat ((λ x, x.2.*2) <$> map_to_list m).
Definition waiting (b : Behaviour) : list Sender := concat (event_tx <$> network b) ++ dial_senders (dials b).

#[local] Instance concat_perm {A} : Proper ((≡ₚ) ==> (≡ₚ)) (@concat A).
Proof.
  intros l k. induction 1 as [|x l k _ IH|x y l|l k m _ IH1 _ IH2]; simpl; [done|by rewrite IH| |by rewrite IH1].
  rewrite !app_assoc. f_equiv. apply Permutation_app_comm.
Qed.
Lemma dial_senders_insert m p l : m !! p = None → dial_senders (<[p := l]> m) ≡ₚ l.*2 ++ dial_senders m.
Proof. intros H. unfold dial_senders. by rewrite map_to_list_insert. Qed.
Lemma dial_senders_delete m p l : m !! p = Some l → dial_senders m ≡ₚ l.*2 ++ dial_senders (delete p m).
Proof. intros H. rewrite <-(insert_delete_id m p l H) at 1. apply dial_senders_insert, lookup_delete_eq. Qed.
Lemma dial_senders_push m p id tx : dial_senders (<[p := default [] (m !! p) ++ [(id, tx)]]> m) ≡ₚ tx :: dial_senders m.
Proof.
  destruct (m !! p) as [l|] eqn:E; simpl.
  - rewrite <-insert_delete_eq, dial_senders_insert by apply lookup_delete_eq. rewrite (dial_senders_delete m p l E), fmap_app.
    rewrite <-app_assoc. symmetry. apply Permutation_middle.
  - by rewrite dial_senders_insert.
Qed.

Lemma answer_dials_conserves p r (b : Behaviour) : (reply_tx <$> (answer_dials p r b).2) ++ waiting (answer_dials p r b).1 ≡ₚ waiting b.
Proof.
  unfold answer_dials. destruct (dials b !! p) as [l|] eqn:E; [|done]. cbn [fst snd]. unfold waiting. cbn [network dials set_dials].
  rewrite (dial_senders_delete _ p l E). rewrite <-list_fmap_compose. change ((reply_tx ∘ λ d : nat * Sender, DialReply d.2 r) <$> reverse l) with ((reverse l).*2).
  rewrite (reverse_Permutation l). rewrite !app_assoc. f_equiv. apply Permutation_app_comm.
Qed.
Lemma poll_event_conserves ev now (b : Behaviour) :
  (reply_tx <$> (poll_event ev now b).2) ++ waiting (poll_event ev now b).1.2 ≡ₚ event_tx ev ++ waiting b.
Proof.
  assert (∀ p id tx, waiting (set_dials (<[p := default [] (dials b !! p) ++ [(id, tx)]]> (dials b)) b) ≡ₚ tx :: waiting b) as Hpush.
  { intros p id tx. unfold waiting. cbn [network dials set_dials]. rewrite dial_senders_push. by rewrite Permutation_middle. }
  destruct ev as [p tx id|p tx|p m tx c|e|p|p tx]; try done.
  - cbn [poll_event]. set (d := if pause_dialing b then _ else _).
    assert ((reply_tx <$> d.2) ++ waiting d.1.2 ≡ₚ event_tx (Dial p tx id) ++ waiting b) as Hd.
    { unfold d. destruct (pause_dialing b); [done|]. apply Hpush. }
    destruct (get_peer_state p b) as [[]|]; try done; case_bool_decide; done.
  - cbn [poll_event]. by destruct (get_peer_state p b) as [[]|].
  - cbn [poll_event]. by destruct (get_peer_state p b) as [[]|].
Qed.
Lemma poll_loop_conserves n now (b : Behaviour) :
  (reply_tx <$> (poll_loop n now b).2) ++ waiting (poll_loop n now b).1.2 ≡ₚ waiting b.
Proof.
  revert b. induction n as [|n IH]; intros b; [done|]. cbn [poll_loop]. destruct (network b) as [|ev rest] eqn:E; [done|].
  pose proof (poll_event_conserves ev now (set_network rest b)) as H.
  assert (waiting b ≡ₚ event_tx ev ++ waiting (set_network rest b)) as -> by (unfold waiting; rewrite E; simpl; by rewrite app_assoc).
  destruct (poll_event _ _ _) as [[[out|] b'] rs]; [exact H|]. cbn [fst snd] in H.
  pose proof (IH b') as H'. destruct (poll_loop n now b') as [[out b''] more]. cbn [fst snd] in *.
  rewrite fmap_app, <-app_assoc, H'. exact H.
Qed.
Lemma set_peer_state_waiting p new (b : Behaviour) : waiting (set_peer_state p new b) = waiting b.
Proof. destruct (set_peer_state_eq p new b) as (_ & E1 & E2 & _). unfold waiting. by rewrite E1, E2. Qed.

Definition conserved (s : System) : Prop := (reply_tx <$> replies s) ++ waiting (book s) ≡ₚ asked s ∧ NoDup (asked s).
Lemma step_conserves a s : enabled a s →
  (reply_tx <$> (step a s).2) ++ waiting (step a s).1 ≡ₚ (match a with Ask e => event_tx e | _ => [] end) ++ waiting (book s).
Proof.
  intros He. destruct a as [e|p c|c|p denied error now|c e|p protocols|now| | |]; simpl in He; cbn [step]; try done.
  - unfold waiting. cbn [network dials set_network fst snd fmap list_fmap app]. rewrite fmap_app, concat_app. simpl. rewrite app_nil_r.
    by rewrite (Permutation_app_comm (concat _) (event_tx e)), <-app_assoc.
  - cbn [fst snd]. unfold connection_established. change (waiting (set_pause false ?b)) with (waiting b). by rewrite set_peer_state_waiting.
  - destruct He as [p ->]. unfold connection_closed. cbn [fst snd]. case_bool_decide; [|done]. by rewrite set_peer_state_waiting.
  - destruct p as [p|]; [|done]. unfold dial_failure. rewrite answer_dials_conserves. destruct denied; by rewrite set_peer_state_waiting.
  - destruct He as [p ->]. destruct e; cbn [on_connection_handler_event].
    + change (waiting (receive_message p m ?b)) with (waiting b). cbn [fst snd]. change (waiting (receive_message p m ?b)) with (waiting b).
      by rewrite set_peer_state_waiting.
    + by rewrite answer_dials_conserves, set_peer_state_waiting.
    + by rewrite answer_dials_conserves, set_peer_state_waiting.
    + done.
  - unfold on_identify. cbn [fst snd]. destruct (get_peer_state _ _) as [[]|]; try done. destruct (best_protocol _); [|done].
    by rewrite set_peer_state_waiting.
  - unfold poll. pose proof (poll_loop_conserves 50 now (book s)) as H. by destruct (poll_loop 50 now (book s)) as [[out b] rs].
Qed.
Lemma event_tx_NoDup (e : OutEvent) : NoDup (event_tx e).
Proof. destruct e; simpl; by repeat constructor; try (by intros ?%elem_of_nil). Qed.
Lemma act_conserved a s : enabled a s → conserved s → conserved (act a s).
Proof.
  intros He [H1 H2]. pose proof (step_conserves a s He) as H. unfold conserved, act. destruct (step a s) as [b out]. simpl in *. split.
  - rewrite fmap_app, <-app_assoc, H. destruct a; simpl; try done. rewrite <-H1. rewrite !app_assoc. f_equiv. apply Permutation_app_comm.
  - destruct a; try done. apply NoDup_app. split_and!; [apply event_tx_NoDup| |done]. intros tx Htx. by apply He.
Qed.

(** ** A dial that waits *)
Definition waits (p : PeerId) (d : nat * Sender) (b : Behaviour) : Prop := ∃ l, dials b !! p = Some l ∧ d ∈ l.
Lemma set_peer_state_dials p new (b : Behaviour) : dials (set_peer_state p new b) = dials b.
Proof. by destruct (set_peer_state_eq p new b) as (_ & _ & E & _). Qed.
Lemma waits_eq p d b b' : dials b' = dials b → waits p d b → waits p d b'.
Proof. intros E (l & Hl & Hd). exists l. by rewrite E. Qed.
Lemma answer_other p q d r (b : Behaviour) : q ≠ p → waits p d b → waits p d (answer_dials q r b).1.
Proof.
  intros Hne (l & Hl & Hd). unfold answer_dials. destruct (dials b !! q); [|by exists l]. exists l. cbn [fst dials set_dials].
  by rewrite lookup_delete_ne.
Qed.
Lemma poll_loop_waits p d n now (b : Behaviour) : waits p d b → waits p d (poll_loop n now b).1.2.
Proof.
  revert b. induction n as [|n IH]; intros b Hw; [done|]. cbn [poll_loop]. destruct (network b) as [|ev rest]; [done|].
  assert (waits p d (poll_event ev now (set_network rest b)).1.2) as H.
  { apply (waits_eq p d b (set_network rest b)) in Hw; [|done]. revert Hw. generalize (set_network rest b). clear. intros b Hw.
    destruct ev as [q tx id|q tx|q m tx c|e|q|q tx]; cbn [poll_event]; try done.
    - set (x := if pause_dialing b then _ else _). assert (waits p d x.1.2) as Hx.
      { unfold x. destruct (pause_dialing b); [done|]. destruct Hw as (l & Hl & Hd). unfold waits. cbn [fst snd dials set_dials].
        destruct (decide (q = p)) as [->|Hne]; [|exists l; by rewrite lookup_insert_ne].
        rewrite lookup_insert_eq, Hl. eexists. split; [done|]. simpl. set_solver. }
      destruct (get_peer_state q b) as [[]|]; try done; case_bool_decide; done.
    - by destruct (get_peer_state q b) as [[]|].
    - by destruct (get_peer_state q b) as [[]|]. }
  destruct (poll_event _ _ _) as [[[out|] b'] rs]; [done|]. pose proof (IH b' H) as H'. by destruct (poll_loop n now b') as [[out b''] more].
Qed.

(** The events that answer a dial. *)
Definition answers (p : PeerId) (s : System) (a : Action) : Prop :=
  match a with
  | FailDial (Some q) _ _ _ => q = p
  | HandlerSays c (EConnected _) | HandlerSays c EProtocolNotSupported => conns s !! c = Some p
  | _ => False
  end.
Lemma act_waits p d a s : enabled a s → ¬ answers p s a → waits p d (book s) → waits p d (book (act a s)).
Proof.
  intros He Hn Hw. rewrite act_book. destruct a as [e|q c|c|q denied error now|c e|q protocols|now| | |]; simpl in He, Hn; cbn [step]; try done.
  - apply (waits_eq p d (book s)); [apply set_peer_state_dials|done].
  - destruct He as [q ->]. unfold connection_closed. cbn [fst]. case_bool_decide; [|done].
    apply (waits_eq p d (book s)); [by rewrite set_peer_state_dials|done].
  - destruct q as [q|]; [|done]. apply answer_other; [congruence|]. apply (waits_eq p d (book s)); [|done].
    destruct denied; by rewrite set_peer_state_dials.
  - destruct He as [q Hq]. rewrite Hq in Hn |- *. destruct e; cbn [on_connection_handler_event]; try done.
    + apply (waits_eq p d (book s)); [apply set_peer_state_dials|done].
    + apply answer_other; [congruence|]. apply (waits_eq p d (book s)); [by rewrite set_peer_state_dials|done].
    + apply answer_other; [congruence|]. apply (waits_eq p d (book s)); [by rewrite set_peer_state_dials|done].
  - unfold on_identify. cbn [fst]. destruct (get_peer_state _ _) as [[]|]; try done. destruct (best_protocol _); [|done].
    apply (waits_eq p d (book s)); [apply set_peer_state_dials|done].
  - unfold poll. pose proof (poll_loop_waits p d 50 now (book s) Hw) as H. by destruct (poll_loop 50 now (book s)) as [[out b] rs].
Qed.
Lemma waits_waiting p d b : waits p d b → d.2 ∈ waiting b.
Proof.
  intros (l & Hl & Hd). unfold waiting. rewrite (dial_senders_delete _ p l Hl). apply elem_of_app. right. apply elem_of_app. left.
  by apply list_elem_of_fmap_2.
Qed.
End system.
End BitswapSystem.
