(* ===== verification/NetworkClaims.v ===== *)
(** * The network layer of bitswap: what it promises *)
From stdpp Require Import base gmap list strings.
From Stdlib Require Import Strings.Byte.
From S2P Require Import Prelude Protobuf PbInstance BitswapPb BitswapMessage Network NetworkProofs.
Local Open Scope Z_scope.

(** ** Connections *)
Module HandlerProofs.
Import Protocol Handler.
Section handler.
  Context {Message Error : Type} (max_transmission_size : Error → bool) (negotiation_timeout : Error).

(** A handler and the events that it sent to the behaviour. *)
Inductive sends : list (HandlerEvent Message Error) → Handler (Message := Message) (Error := Error) → Prop :=
  | sends_new config idle now : sends [] (new config idle now)
  | sends_behaviour l h m now : sends l h → sends l (on_behaviour_event m now h)
  | sends_connection l h e h' answers : sends l h → on_connection_event max_transmission_size e h = Done (h', answers) → sends l h'
  | sends_poll l h o i now : sends l h →
      sends (l ++ match (poll negotiation_timeout o i now h).1 with Some (NotifyBehaviour e) => [e] | _ => [] end) (poll negotiation_timeout o i now h).2.

Definition emitted (e : HandlerEvent Message Error) : Prop := match e with EMessage _ _ | EFailedToSendMessage _ => True | _ => False end.
Definition good_event (e : ConnectionHandlerEvent (Message := Message) (Error := Error)) : Prop :=
  match e with NotifyBehaviour e => emitted e | _ => True end.
Definition good_handler (h : Handler (Message := Message) (Error := Error)) : Prop :=
  Forall (Forall good_event) (outbound_substreams h) ∧ Forall (Forall good_event) (inbound_substreams h) ∧ Forall good_event (events h).

Lemma inbound_good items : Forall good_event (inbound_substream max_transmission_size items).
Proof.
  induction items as [|[[m p]|e] items IH]; simpl; [constructor|by constructor|]. destruct (max_transmission_size e); [done|]. by repeat constructor.
Qed.
Lemma select_good i l e l' : Forall (Forall good_event) l → select i l = Some (e, l') → good_event e ∧ Forall (Forall good_event) l'.
Proof.
  intros Hl. unfold select. destruct i as [i|]; [|done]. destruct (l !! i) as [[|x rest]|] eqn:E; try done. intros [= <- <-].
  pose proof (Forall_lookup_1 _ _ _ _ Hl E) as H. apply Forall_cons in H as [Hx Hr]. split; [done|]. by apply Forall_insert.
Qed.
Lemma sends_good l h : sends l h → good_handler h ∧ Forall emitted l.
Proof.
  induction 1 as [config idle now|l h m now _ [IH Hl]|l h e h' answers _ [IH Hl] He|l h o i now _ [IH Hl]].
  - split; [|constructor]. repeat split; constructor.
  - split; [|done]. by destruct m.
  - split; [|done]. destruct IH as (H1 & H2 & H3). destruct e as [p items|p m tx []| | | |]; simpl in He; try done; injection He as <- <-; repeat split; simpl; try done.
    + apply Forall_app. split; [done|]. constructor; [apply inbound_good|constructor].
    + apply Forall_app. split; [done|]. by repeat constructor.
    + apply Forall_app. split; [done|]. by repeat constructor.
  - destruct IH as (H1 & H2 & H3). unfold poll. destruct (events h) as [|e evs] eqn:E0.
    2:{ apply Forall_cons in H3 as [He H3]. split; [by repeat split; simpl|]. simpl. destruct e; rewrite ?app_nil_r; try done. apply Forall_app. by repeat constructor. }
    destruct (upgrade_errors h); [|split; [repeat split; simpl; rewrite ?E0; done || constructor|by rewrite app_nil_r]].
    destruct (send_queue h) as [|[m tx] q]; [|split; [repeat split; simpl; rewrite ?E0; done || constructor|by rewrite app_nil_r]].
    destruct (select o _) as [[e l']|] eqn:E1.
    { destruct (select_good _ _ _ _ H1 E1) as [He Hl']. split; [repeat split; simpl; rewrite ?E0; done || constructor|]. simpl.
      destruct e; rewrite ?app_nil_r; try done. apply Forall_app. by repeat constructor. }
    destruct (select i _) as [[e l']|] eqn:E2; [|split; [repeat split; simpl; rewrite ?E0; done || constructor|by rewrite app_nil_r]].
    destruct (select_good _ _ _ _ H2 E2) as [He Hl']. split.
    + destruct e as [[]| |]; repeat split; simpl; rewrite ?E0; try done; constructor.
    + simpl. destruct e as [e| |]; rewrite ?app_nil_r; try done. apply Forall_app. by repeat constructor.
Qed.
End handler.
End HandlerProofs.

(** ** The claims *)
Module NetworkClaims.
Import Protocol Handler Network Bitswap BitswapSystem HandlerProofs.
Section claims.
  Context {ids : Ids} {Message BitswapEvent Error : Type}.
Notation System := (System (Message := Message) (BitswapEvent := BitswapEvent)).
Notation Action := (Action (Message := Message) (BitswapEvent := BitswapEvent) (Error := Error)).
Notation start := (start (Message := Message) (BitswapEvent := BitswapEvent)).
Notation run := (run (Message := Message) (BitswapEvent := BitswapEvent) (Error := Error)).

Lemma start_peers_track : tracks start.
Proof. intros p st H. unfold start in H. simpl in H. by rewrite lookup_empty in H. Qed.
Lemma start_told_last : told_last start.
Proof. intros p. simpl. by rewrite lookup_empty. Qed.

(** C11: in every order of calls that the swarm allows a peer that counts as connected has
    a connection; the client and the server were to be told last that a peer is there
    if it is responsive, and were not to be told so last if it is unknown, unresponsive
    or failed to be dialed.  What waits in the queues of the workers or was taken from
    them is in the order in which it was announced; announcements are dropped when a
    queue is full, and none is missing as long as no more were made than a queue
    holds. *)
Theorem peer_states_track acts s :
  run acts start s →
  (∀ p st, get_peer_state p (book s) = Some st → is_connected st = true → linked (conns s) p) ∧
  (∀ p c q, get_peer_state p (book s) = Some (Responsive c q) → last_note (notes s) p = Some true) ∧
  (∀ p, match get_peer_state p (book s) with Some st => is_connected st = false | None => True end → last_note (notes s) p ≠ Some true) ∧
  (taken_connected s ++ peers_connected (book s)) `sublist_of` told_of true (notes s) ∧
  (taken_disconnected s ++ peers_disconnected (book s)) `sublist_of` told_of false (notes s) ∧
  ((length (notes s) ≤ channel_size)%nat →
    taken_connected s ++ peers_connected (book s) = told_of true (notes s) ∧
    taken_disconnected s ++ peers_disconnected (book s) = told_of false (notes s)).
Proof.
  intros Hr. assert (tracks s ∧ told_last s ∧ queued s ∧ in_order s) as (H1 & H2 & H3 & H4 & H5).
  { apply (run_inv (λ s, tracks s ∧ told_last s ∧ queued s ∧ in_order s) (λ _, True) acts start s); [|by apply Forall_true|done|].
    - intros a s0 _ He (H1 & H2 & H3 & H4). split_and!; [by apply act_peers_track|by apply act_told_last|by apply act_queued|by apply act_in_order].
    - split_and!; [apply start_peers_track|apply start_told_last|done|by split]. }
  unfold get_peer_state. split_and!; [..|done|done|exact H3].
  - intros p st Hst Hc. by apply (H1 p st).
  - intros p c q Hp. specialize (H2 p). by rewrite Hp in H2.
  - intros p Hp. specialize (H2 p). by destruct (peers (book s) !! p) as [[]|].
Qed.

(** Whoever asks for a dial, a disconnection or the end of a protection is answered at
    most once and until then waits in one place. *)
Theorem network_replies_once acts s :
  run acts start s → (reply_tx <$> replies s) ++ waiting (book s) ≡ₚ asked s ∧ NoDup (asked s).
Proof.
  intros Hr. apply (run_inv conserved (λ _, True) acts start s); [|by apply Forall_true|done|].
  - intros a s0 _ He H. by apply act_conserved.
  - split; [done|constructor].
Qed.

(** C33: a dial that the behaviour started is answered when dialing fails and never when
    the peer is connected: the event that would answer it is one that no handler
    sends.  As long as no dial of the peer fails, its caller waits. *)
Theorem connected_dial_unanswered max_transmission_size negotiation_timeout acts s acts' s' p id tx :
  run acts start s → waits p (id, tx) (book s) → run acts' s s' →
  Forall (λ a, match a with
               | FailDial (Some q) _ _ _ => q ≠ p
               | HandlerSays _ e => ∃ l h, sends max_transmission_size negotiation_timeout l h ∧ e ∈ l
               | _ => True
               end) acts' →
  waits p (id, tx) (book s') ∧ ∀ r, DialReply tx r ∉ replies s'.
Proof.
  intros Hr Hw Hr' Hacts. assert (conserved s) as Hc.
  { apply (run_inv conserved (λ _, True) acts start s); [|by apply Forall_true|done|split; [done|constructor]]. intros a s0 _ He H. by apply act_conserved. }
  assert (waits p (id, tx) (book s') ∧ conserved s') as [Hw' Hc'].
  { eapply (run_inv (λ s, waits p (id, tx) (book s) ∧ conserved s)); [|exact Hacts|exact Hr'|done].
    intros a s0 Ha He [H1 H2]. split; [|by apply act_conserved]. apply act_waits; [done| |done].
    destruct a as [| | |[q|] ? ? ?|c e| | | | |]; simpl; try tauto. destruct Ha as (l & h & Hs & Hin).
    apply sends_good in Hs as [_ Hl]. eapply Forall_forall in Hl; [|done]. destruct e; simpl in *; tauto. }
  split; [done|]. intros r Hin. destruct Hc' as [H1 H2]. rewrite <-H1 in H2. apply NoDup_app in H2 as (_ & H2 & _).
  apply (H2 tx); [by apply (list_elem_of_fmap_2 reply_tx (replies s') (DialReply tx r))|]. by apply (waits_waiting p (id, tx)).
Qed.

(** ** Sending with retries *)
Lemma tries_failed retries n i es errors (answers : list (Answer (Error := Error))) :
  (n ≤ length es)%nat → (tries retries n i errors ((Failed <$> es) ++ answers)).1 = Err (AllFailed (errors ++ take n es)).
Proof.
  revert n i errors. induction es as [|e es IH]; intros n i errors Hn; simpl in Hn.
  { assert (n = 0%nat) as -> by lia. simpl. by rewrite app_nil_r. }
  destruct n as [|n]; [simpl; by rewrite app_nil_r|]. rewrite fmap_cons. cbn [app tries].
  specialize (IH n (S i) (errors ++ [e]) ltac:(lia)). destruct (tries retries n (S i) (errors ++ [e]) _) as [r steps]. simpl in *.
  by rewrite IH, <-app_assoc.
Qed.
Lemma tries_sent retries n i es errors (answers : list (Answer (Error := Error))) :
  (length es < n)%nat → (tries retries n i errors ((Failed <$> es) ++ Sent :: answers)).1 = Ok tt.
Proof.
  revert n i errors. induction es as [|e es IH]; intros n i errors Hn; simpl in Hn; destruct n as [|n]; try lia; [done|].
  rewrite fmap_cons. cbn [app tries]. specialize (IH n (S i) (errors ++ [e]) ltac:(lia)).
  destruct (tries retries n (S i) (errors ++ [e]) _) as [r steps]. exact IH.
Qed.
Fixpoint tries_made (l : list Step) : nat := match l with [] => 0 | Try _ :: l => S (tries_made l) | _ :: l => tries_made l end.
Lemma tries_bounded retries n i errors (answers : list (Answer (Error := Error))) :
  (tries_made (tries retries n i errors answers).2 ≤ n)%nat.
Proof.
  revert i errors answers. induction n as [|n IH]; intros i errors answers; [simpl; lia|]. cbn [tries].
  destruct answers as [|[| |e|] answers]; simpl; try lia. specialize (IH (S i) (errors ++ [e]) answers).
  destruct (tries retries n (S i) (errors ++ [e]) answers) as [r steps]. simpl in *. case_bool_decide; simpl; lia.
Qed.
(** A message is sent again while it fails, at most as often as was asked for; the first
    success ends it, and when all tries fail all errors are reported. *)
Theorem send_retried retries es (answers : list (Answer (Error := Error))) :
  ((length es < retries)%nat → (send_message_with_retry retries ((Failed <$> es) ++ Sent :: answers)).1 = Ok tt) ∧
  ((retries ≤ length es)%nat → (send_message_with_retry retries ((Failed <$> es) ++ answers)).1 = Err (AllFailed (take retries es))) ∧
  (tries_made (send_message_with_retry retries answers).2 ≤ retries)%nat.
Proof.
  unfold send_message_with_retry. split_and!; [apply tries_sent|intros; by apply (tries_failed retries retries 1 es [])|apply tries_bounded].
Qed.

(** The timeout of a message grows with its size and stays within its bounds. *)
Theorem send_timeout_bounds size size' : 0 ≤ size ≤ size' →
  MIN_SEND_TIMEOUT ≤ send_timeout size ≤ send_timeout size' ∧ send_timeout size' ≤ MAX_SEND_TIMEOUT.
Proof.
  intros H. unfold send_timeout, MIN_SEND_TIMEOUT, MAX_SEND_TIMEOUT. pose proof (Z.div_le_mono size size' MIN_SEND_RATE ltac:(vm_compute; done) ltac:(lia)).
  lia.
Qed.
End claims.

Section codec.
  Context {ids : Ids} {cc : CidCodec} {cp : CidParts} {qp : QuickProtobuf} {ho : HashOrder} {uv : UviBytes}.
(** A well-formed message with valid blocks that fits the frame is written for the
    protocols 1.1.0 and 1.2.0, and read back with what follows it left over; one that
    does not fit is refused. *)
Theorem codec_roundtrip max protocol m :
  protocol = Bitswap110 ∨ protocol = Bitswap120 →
  BitswapMessage.inv m → map_Forall (λ _ b, BitswapMessage.valid_block b) (BitswapMessage.blocks m) →
  ∃ pbm, BitswapMessage.encode_as_proto_v1 m = Done pbm ∧
    (BitswapPb.Message_range pbm → vec_len (BitswapPb.Message_write pbm) ≤ max →
      ∃ w, Codec.encode max protocol m = Done (Ok w) ∧ ∀ rest, Codec.decode max protocol (w ++ rest) = Done (Ok (Some (m, protocol, rest)))) ∧
    (max < vec_len (BitswapPb.Message_write pbm) → Codec.encode max protocol m = Done (Err Codec.MaxTransmissionSize)).
Proof.
  intros Hp Hi Hv. destruct (BitswapMessage.encode_decode m Hi Hv) as (pbm & He & Hd). exists pbm. split; [done|].
  assert (Codec.encode max protocol m = Done (map_err (λ _, Codec.MaxTransmissionSize) (uvi_encode max (BitswapPb.Message_write pbm)))) as Henc.
  { unfold Codec.encode. by destruct Hp as [-> | ->]; rewrite He. }
  split.
  - intros Hr Hlen. destruct (uvi_roundtrip max (BitswapPb.Message_write pbm) Hlen) as (w & Hw & Hrest). exists w. rewrite Henc, Hw. split; [done|].
    intros rest. unfold Codec.decode. rewrite Hrest. unfold BitswapMessage.try_from_bytes. rewrite BitswapPb.Message_read_write by done.
    cbn [fmap outcome_fmap map_err try_bind mbind outcome_bind]. by rewrite Hd.
  - intros Hlen. destruct (uvi_too_long max _ Hlen) as [e Hw]. by rewrite Henc, Hw.
Qed.
End codec.
End NetworkClaims.

Module NetworkWitness.
Import Protocol Handler Network Bitswap BitswapSystem HandlerProofs NetworkClaims.

(** Peers, messages and errors are numbers. *)
Section numbers.
#[local] Existing Instance nat_ids.
Notation NatAction := (Action (ids := nat_ids) (Message := nat) (BitswapEvent := unit) (Error := unit)).
Notation NatSystem := (System (ids := nat_ids) (Message := nat) (BitswapEvent := unit)).
Definition peer : PeerId := 1%nat.
Definition dial_acts : list NatAction := [Ask (Dial peer 0%nat 0%nat); Poll 0].
Definition after (acts : list NatAction) (s : NatSystem) : NatSystem := foldl (λ s a, act a s) s acts.
Definition dialed : NatSystem := after dial_acts start.
Definition message : HandlerEvent nat unit := EMessage 5%nat Bitswap120.
Definition connect_acts : list NatAction := [Establish peer 7%nat; HandlerSays 7%nat message; TakeConnected].
Definition connected : NatSystem := after connect_acts dialed.

Lemma dial_runs : run dial_acts start dialed.
Proof.
  apply run_cons; [intros tx _; by intros ?%elem_of_nil|]. apply run_cons; [done|]. apply run_nil.
Qed.
Lemma connect_runs : run connect_acts dialed connected.
Proof.
  apply run_cons; [by vm_compute|]. apply run_cons; [vm_compute; by eexists|]. apply run_cons; [done|]. apply run_nil.
Qed.
Lemma run_app acts acts' s s' s'' : run (Error := unit) (ids := nat_ids) (Message := nat) (BitswapEvent := unit) acts s s' → run acts' s' s'' → run (acts ++ acts') s s''.
Proof. induction 1 as [|a acts s s' He _ IH]; [done|]. intros. apply run_cons; auto. Qed.

Lemma peer_states_track_witness :
  last_note (notes connected) peer = Some true ∧
  taken_connected connected ++ peers_connected (book connected) = told_of true (notes connected).
Proof.
  destruct (peer_states_track (dial_acts ++ connect_acts) connected) as (_ & H1 & _ & _ & _ & H2).
  - exact (run_app _ _ _ _ _ dial_runs connect_runs).
  - split; [apply (H1 peer 7%nat Bitswap120); vm_compute; reflexivity|]. apply H2. vm_compute. lia.
Defined.

Lemma network_replies_once_witness : (reply_tx <$> replies connected) ++ waiting (book connected) ≡ₚ [0%nat] ∧ NoDup [0%nat].
Proof. apply (network_replies_once (dial_acts ++ connect_acts) connected). exact (run_app _ _ _ _ _ dial_runs connect_runs). Defined.

Definition no_limit : unit → bool := λ _, false.
Definition handler0 : Handler (Message := nat) (Error := unit) := Handler.new ProtocolConfig_default 30 0.
Definition handler1 : Handler (Message := nat) (Error := unit) :=
  set_streams [] [inbound_substream no_limit [Ok (5%nat, Bitswap120)]] (Some Bitswap120) handler0.
Lemma message_sent : ∃ l h, sends no_limit tt l h ∧ message ∈ l.
Proof.
  exists [message], (Handler.poll tt None (Some 0%nat) 0 handler1).2. split; [|set_solver].
  apply (sends_poll no_limit tt [] handler1 None (Some 0%nat) 0).
  apply (sends_connection no_limit tt [] handler0 (FullyNegotiatedInbound Bitswap120 [Ok (5%nat, Bitswap120)]) _ []); [|done]. apply sends_new.
Qed.

(** The peer is connected and sends messages; the caller of the dial waits. *)
Lemma connected_dial_unanswered_witness : waits peer (0%nat, 0%nat) (book connected) ∧ ∀ r, DialReply 0%nat r ∉ replies connected.
Proof.
  apply (connected_dial_unanswered no_limit tt dial_acts dialed connect_acts connected peer 0%nat 0%nat).
  - exact dial_runs.
  - exists [(0%nat, 0%nat)]. split; [vm_compute; reflexivity|set_solver].
  - exact connect_runs.
  - repeat constructor. exact message_sent.
Defined.

(** The identifier of a closed connection stays: messages to the peer go nowhere. *)
Example stale_connection :
  let s := after [Establish peer 7%nat; Establish peer 8%nat; Close 7%nat] start in
  get_peer_state peer (book s) = Some (Connected 7%nat) ∧ conns s !! 7%nat = None ∧ conns s !! 8%nat = Some peer.
Proof. vm_compute. done. Qed.
(** A dial that fails while the peer is connected makes it count as gone. *)
Example failed_dial_forgets :
  let s := after [Establish peer 7%nat; HandlerSays 7%nat message; FailDial (Some peer) false "refused" 0] start in
  get_peer_state peer (book s) = Some (DialFailure 0) ∧ conns s !! 7%nat = Some peer ∧ notes s = [(true, peer); (false, peer)].
Proof. vm_compute. done. Qed.
(** A second connection makes a peer be announced twice, and a peer that was never
    announced is reported as gone. *)
Example announced_twice :
  notes (after [Establish peer 7%nat; HandlerSays 7%nat message; Establish peer 8%nat; HandlerSays 8%nat message] start) =
    [(true, peer); (true, peer)] ∧
  notes (after [Establish peer 7%nat; Close 7%nat] start) = [(false, peer)].
Proof. vm_compute. done. Qed.
(** No pause before the last try. *)
Example no_backoff_before_last : (send_message_with_retry 3 [Failed tt; Failed tt; Sent]).2 = [Try 1; Sleep; Try 2; Try 3].
Proof. vm_compute. done. Qed.
End numbers.

(** Frames with their length in unary. *)
Fixpoint read_unary (bs : list byte) : option (nat * list byte) :=
  match bs with
  | x00 :: bs => Some (0%nat, bs)
  | _ :: bs => match read_unary bs with Some (n, bs) => Some (S n, bs) | None => None end
  | [] => None
  end.
Lemma read_unary_ok n rest : read_unary (replicate n x01 ++ x00 :: rest) = Some (n, rest).
Proof. induction n as [|n IH]; [done|]. cbn [replicate app read_unary]. by rewrite IH. Qed.
Definition unary_decode (bs : list byte) : option (list byte * list byte) :=
  match read_unary bs with
  | Some (n, bs) => if bool_decide (n ≤ length bs)%nat then Some (take n bs, drop n bs) else None
  | None => None
  end.
#[local] Program Instance unary_frames : UviBytes := {|
  IoError := unit;
  permission_denied := λ _, true;
  uvi_encode := λ max b, if bool_decide (vec_len b ≤ max) then Ok (replicate (length b) x01 ++ x00 :: b) else Err tt;
  uvi_decode := λ max bs, Ok (unary_decode bs);
|}.
Next Obligation.
  intros max b Hb. exists (replicate (length b) x01 ++ x00 :: b). simpl. rewrite bool_decide_eq_true_2 by done. split; [done|]. intros rest.
  unfold unary_decode. rewrite <-app_assoc. cbn [app]. rewrite read_unary_ok, bool_decide_eq_true_2 by (rewrite length_app; lia).
  by rewrite take_app_length, drop_app_length.
Qed.
Next Obligation. intros max b Hb. exists tt. simpl. by rewrite bool_decide_eq_false_2 by lia. Qed.

#[local] Existing Instance bytes_ids.
#[local] Existing Instance bytes_cids.
#[local] Existing Instance WireFormat.wire_format.
#[local] Existing Instance key_order.
#[local] Existing Instance BitswapMessageWitness.toy_parts.
Lemma codec_roundtrip_witness :
  ∃ pbm, BitswapMessage.encode_as_proto_v1 BitswapMessageWitness.demo = Done pbm ∧
    (BitswapPb.Message_range pbm → vec_len (BitswapPb.Message_write pbm) ≤ 2000 →
      ∃ w, Codec.encode 2000 Bitswap120 BitswapMessageWitness.demo = Done (Ok w) ∧
        ∀ rest, Codec.decode 2000 Bitswap120 (w ++ rest) = Done (Ok (Some (BitswapMessageWitness.demo, Bitswap120, rest)))) ∧
    (2000 < vec_len (BitswapPb.Message_write pbm) → Codec.encode 2000 Bitswap120 BitswapMessageWitness.demo = Done (Err Codec.MaxTransmissionSize)).
Proof.
  apply (codec_roundtrip 2000 Bitswap120 BitswapMessageWitness.demo); [by right|apply BitswapMessageWitness.demo_message_inv|].
  change (BitswapMessage.blocks BitswapMessageWitness.demo) with
    ({[BitswapMessageWitness.demo_cid := BitswapMessage.mkBlock BitswapMessageWitness.demo_cid [x61; x62]]} : gmap Cid BitswapMessage.Block).
  intros c b [<- <-]%lookup_singleton_Some. split; vm_compute; done.
Defined.
End NetworkWitness.
